(* ===== verification/_CoqProject ===== *)
-Q . S2P
Prelude.v
Rbtree.v
KState.v
HvfValue.v
HvfClass.v
HvfInv.v
HvfOps.v
HvfSpec.v
HvfTick.v
HvfMachine.v
HvfSmp.v
SchedSys.v
Policy.v
Uclamp.v
UclampInv.v
HvfFrame.v
Core.v
Schedule.v
SchedSpec.v
TaskMove.v
Load.v
Setsched.v
SetschedSpec.v
Wakeup.v
WakeupSpec.v
Affinity.v
AffinityInv.v
AffinityProto.v
AffinitySteps.v
Balance.v
CoreSched.v
CoreSchedSpec.v
CoreSelect.v
CoreSwitch.v
Hotplug.v
HotplugParts.v
HotplugInv.v
TaskGroup.v
TaskGroupSpec.v
BandwidthSpec.v
CgroupSpec.v
Fork.v
ForkSched.v
ForkBuild.v
ForkSpec.v
Unshare.v
Interleave.v
RqLock.v
RqLockLogic.v
RqLockOps.v
RqLockUse.v
RqLockSafe.v
MmCid.v
MmCidLogic.v
MmCidAlloc.v
MmCidOps.v
MmCidSafe.v
MmCidSolo.v
TgLife.v
TgLogic.v
TgSteps.v
TgLinks.v
TgOps.v
TgSafe.v
TgTree.v
StackCache.v
StackSafe.v
MemMap.v
MemCopy.v
MemFork.v
MemUsers.v
Example.v
AffinityTrace.v
ExampleCore.v
ExampleGroups.v
ExampleFork.v
ExampleCid.v
ExampleLife.v
ExampleMem.v
Witness.v
