(* ===== verification/Prelude.v ===== *)
(** Verification of the Linux scheduler with the Highest Value First (HVF) class.

    * The program

    The repository is a customised Linux kernel: a new scheduling class
    (src/customized-kernel/kernel/sched/hvf.c) ranks tasks by a value computed from two
    deadlines and a computation time, three system calls (my_sched_syscalls/sched_sys.c)
    set and read these parameters, and the class is wired into the scheduler core
    (kernel/sched/core.c, sched.h, syscalls.c), into fork (kernel/fork.c), into the task
    structure (include/linux/sched.h) and into the order of the classes
    (include/asm-generic/vmlinux.lds.h).  The core calls a class through a table of
    operations; the classes keep their queues inside the per-CPU run queue.

    * The model

    Code is translated function by function into a monad (KState.v) that threads the
    kernel state and stops with an [oops] where the kernel would: an invalid pointer, a
    NULL operation, a division by zero, a BUG.  A task is named by a number, a run queue by
    its CPU; integers are [Z] with the wrap-around of their C type written out.
    Definitions keep the names of the C functions.  Specifications are weakest
    preconditions ([wp]) of the monad: [wp m s Q] says that [m] run in [s] ends without an
    oops in a state satisfying [Q].

    The parts, in the order of the files:

    - Rbtree, HvfValue, HvfClass, HvfSmp (hvf.c): the tree of waiting entities, the value
      arithmetic, the operations of the class, the choice of a CPU.  HvfInv, HvfOps,
      HvfSpec: the run-queue invariant and the effect of each operation; HvfTick: time
      slices; HvfMachine: the class refines an abstract run queue, and the invariant and the
      accounting hold in all reachable states, exits included; HvfFrame: an operation of the
      class changes the HVF fields of one task and one run queue, the count of runnable
      tasks and a reschedule mark, and nothing else.
    - SchedSys (sched_sys.c): the three system calls.
    - Policy (core.c, syscalls.c, sched.h, vmlinux.lds.h): policies, priorities, the class of
      a policy, the order of the classes.
    - Uclamp, UclampInv (core.c): utilization clamps of tasks and run queues.
    - Core, Schedule, SchedSpec (core.c): enqueue, dequeue, class changes, the pick of the
      next task, [__schedule], the context switch, exit, the tick; what they do on a CPU
      that runs HVF tasks.
    - Load (core.c): load weights and the files cpu.weight and cpu.weight.nice.
    - Setsched, SetschedSpec (syscalls.c): nice values, policy changes, yield.
    - TaskMove (core.c): tasks that move between task groups.
    - Wakeup, WakeupSpec (core.c, fork.c): [try_to_wake_up] and the scheduler's part of
      fork.
    - Affinity, AffinityInv, AffinityProto, AffinitySteps, AffinityTrace (core.c,
      syscalls.c): the change of a CPU mask as a protocol between callers, the stopper
      threads and regions with migration disabled, in every interleaving of its steps.
    - Balance (core.c, sched.h): balance callbacks and the push of tasks off a dying CPU.
    - Hotplug, HotplugParts, HotplugInv (core.c, sched.h): the callbacks of CPU hotplug and the
      remote tick, as a machine of CPUs that go up and down one step at a time; warnings are
      recorded in its state.
    - CoreSched, CoreSchedSpec, CoreSelect, CoreSwitch (core.c): core scheduling.
    - TaskGroup, TaskGroupSpec, BandwidthSpec, CgroupSpec (core.c): the tree of task groups,
      bandwidth limits, the files cpu.cfs_*, cpu.max, cpu.shares, cpu.uclamp.*.
    - Fork, ForkSched, ForkBuild, ForkSpec, Unshare (fork.c): process creation from the
      checks on the flags to the ladder of cleanups, clone, clone3, unshare.  The state is
      that of the scheduler and the counted structures processes share, in a monad of its
      own ([F], with [fwp]); ForkSched is the interface between the two.
    - Interleave: programs of atomic accesses to a shared memory, pools of threads that
      interleave them, and a rely-guarantee logic, for the parts that share memory without
      holding a lock over an operation.
    - RqLock, RqLockLogic, RqLockOps, RqLockUse, RqLockSafe (core.c, sched.h): the locks of
      run queues and tasks, while tasks migrate and core scheduling is switched on and off.
    - MmCid, MmCidLogic, MmCidAlloc, MmCidOps, MmCidSafe, MmCidSolo (core.c, sched.h): the
      concurrency ids of a memory map, which CPUs take, cache and reclaim from each other
      without a lock.
    - TgLife, TgLogic, TgSteps, TgLinks, TgOps, TgSafe, TgTree (core.c): the life of task
      groups, from allocation to the last RCU callback, while others walk the tree.
    - StackCache, StackSafe (fork.c): kernel stacks, which threads take from and
      give to the caches of the CPUs without a lock.
    - MemMap, MemCopy, MemFork, MemUsers (fork.c): memory maps, their copy
      by fork and their release.  What is held is a multiset of references, in a monad of
      its own ([MM], with [mwp]); MemUsers relates it to the counts Fork keeps.
    - Example, ExampleCore, ExampleGroups, ExampleFork, ExampleCid, ExampleLocks, ExampleLife,
      ExampleMem, Witness, WitnessFork: concrete systems on which every theorem with
      hypotheses is applied.

    * Code outside the repository

    It is a parameter, a class of operations with a class of laws where the code relies on
    behaviour: [RbLib]/[RbLaws] (lib/rbtree.c), [SmpLib]/[SmpLaws] (sort, kmalloc_array,
    cpumasks), [TickConfig] (HZ), [UAccess]/[UAccessLaws] and [UserMem] (user memory),
    [UclampConfig]/[UclampConfigOk] (the number of buckets), [Ext]/[ExtLaws] (sched_ext),
    [OtherClasses]/[OtherLaws] (the tables of the other classes, live in fair.c, rt.c,
    deadline.c, idle.c, stop_task.c), [SysLib] (credentials, limits, security module),
    [CpuLib] (CPU masks of hotplug and cpuset), [ForkLib], [AffLib]/[AffLaws] (masks that do
    not change while a mask of a task is changed), [HotplugLib] and [HpLib]/[HpLaws] (cpuset,
    scheduling domains and housekeeping CPUs, for hotplug), [CoreLib]/[CoreLibLaws] (core_sched.c, the order of
    fair tasks), [GroupLib] (the bandwidth timers of fair.c), [ProcLib]/[ProcLaws] (the
    release of open files), [CidLib]/[CidLaws] (mm_types.h: the encoding of a cached id; the
    number of CPUs; the period of the scan in jiffies), [Topology]/[TopologyLaws] (the threads
    of a core), [MoveLib]/[MoveLaws] (cgroups and autogroups of a task), [MmLib]/[MmLaws]
    ([exit_mmap], the page statistics, the write count of files).  What the calls of one
    fork, unshare or copy of a memory map into other subsystems answer is a record,
    [fork_env], [unshare_env] or [mm_env].  The Example files instantiate each of
    them.

    * The theorems

    The HVF class: refinement of the abstract run queue, reachable accounting, the pick of
    a task of greatest value, the value and slice arithmetic, isolation.  The core:
    [__schedule] runs a waiting HVF task of greatest value when the running one blocks or is
    preempted; the CPU stays idle for a lone task, which is a defect.  System calls: which
    requests are admitted, what they change, round trips.  Wake-ups: a woken task lands on
    the CPU its value selects.  Affinity, for tasks of the other classes and a fixed set of
    CPUs: no waiter is forgotten, no request is used after its owner returned, and, if the
    stoppers find their destinations usable, a task that can run is on a CPU of its mask or
    about to move.  Core scheduling: the threads of a core get tasks of one cookie, and
    siblings will take the tasks picked for them.  Hotplug: what the scheduler says of the
    CPUs agrees with the CPUs in use, no step oopses, and the warnings are exactly those
    that are due.  Task groups: the loop of
    gotos is the recursive traversal, limits keep the hierarchy exact, clamps are capped.
    Process creation: a fork leaves no trace or makes one process that shares what the flags
    say, reference and thread counts stay exact; unshare makes what its flags ask for or
    imply the caller's own, or changes nothing.
    Run-queue locks: whoever touches a run queue or a task has it locked and nobody else
    touches it, and there is no deadlock, in every interleaving.
    Concurrency ids: running tasks of a map have different ids and no id is lost, in every
    interleaving in which no two threads reclaim the id of one CPU at once; with two, an id
    in use can be released, which is a defect.
    The life of task groups: no access to freed memory, the links are a tree at every moment
    and no group is lost, in every interleaving of creation, release, walks and callbacks.
    A waiting task that moves to another group is queued again with its wake-up value.
    Memory maps: the copy is complete or leaves no trace, and what it takes is exactly what
    the last user gives back, but for the references that userfaultfd contexts get with
    the news of a fork.  Kernel stacks: no two tasks share one, none is used after it
    was freed and none is lost, in every interleaving.
    Theorems about defects say what the code does, and name the place.

    * Bounds and fuel

    Loops over lists are structural.  A loop that follows links has fuel: the walk over
    task groups three steps per group, the balance callbacks one round per linked head and
    one more, [sched_core_find] and the search for a task to steal the size of the tree,
    the flip of core scheduling the number of CPUs, the copy of areas one round per entry of
    the tree and one more; each has a theorem that its fuel is
    enough or runs out of it as an oops, which the specifications exclude.  The retry of
    [__sched_setscheduler] and of the pick of a class that asks for it have fuel as well.
    Loops that wait for other threads (Interleave) have no bound: a step unrolls them; that
    they end is proved of a thread that is not disturbed.

    * Configuration and what is not modelled

    CONFIG_SMP, CONFIG_UCLAMP_TASK, CONFIG_SCHED_CLASS_EXT, CONFIG_CFS_BANDWIDTH,
    CONFIG_MMU, CONFIG_PER_VMA_LOCK, CONFIG_MEMCG and CONFIG_VMAP_STACK are set,
    PREEMPT_RT and proxy execution are not; CoreSched is CONFIG_SCHED_CORE, the other files
    are the code with its switch off.  An operation is atomic where the code holds the
    locks of the tasks and run queues it touches; where it gives them up to wait, it is
    split into steps; that the locks exclude each other is proved in RqLockSafe.  Not part
    of the state elsewhere: locks themselves, memory barriers, RCU
    (but in TgLife, RqLock and StackCache), statistics and tracing (but for the HVF trace record),
    page tables, timers.  Not modelled: the files of the other classes, which are not in
    the repository; boot (but for the class order
    checks); the preemption entry points, which only call [__schedule]; build
    files, test programs and charts. *)
From stdpp Require Export base numbers list gmap option sorting.
From Stdlib Require Export ZArith Lia.

#[global] Open Scope Z_scope.

(** * Functional record update *)

(** [eta r] rebuilds the record [r] from its projections.  The [Eta] instance
    of a record type is the table from which its field setters are derived. *)
Class Eta (R : Type) := eta : R → R.
Class Upd {R T : Type} (proj : R → T) := upd : (T → T) → R → R.
Arguments upd {R T} proj {Upd} f r.
#[global] Hint Mode Upd + + + : typeclass_instances.

Ltac derive_upd :=
  match goal with
  | |- @Upd ?R ?T ?proj =>
      let i := constr:(_ : Eta R) in
      let i := match i with ?x => x end in
      let e := eval red in i in
      match eval pattern proj in e with
      | ?g _ =>
          let t := eval cbv beta in (λ h : T → T, g (λ r : R, h (proj r))) in
          exact t
      end
  end.
#[global] Hint Extern 1 (Upd _) => derive_upd : typeclass_instances.

Declare Scope kernel_scope.
Delimit Scope kernel_scope with K.
Notation "r <| f := v |>" := (upd f (λ _, v) r)
  (at level 1, left associativity, v at level 99,
   format "r  <|  f  :=  v  |>") : kernel_scope.
Notation "r <| f ::= g |>" := (upd f g r)
  (at level 1, left associativity, g at level 99,
   format "r  <|  f  ::=  g  |>") : kernel_scope.
#[global] Open Scope kernel_scope.

(** * Machine integers *)

(** The kernel is built with [-fno-strict-overflow]: signed arithmetic wraps in
    two's complement.  An [int] is a [Z] in [-2^31 .. 2^31-1], a [long] a [Z] in
    [-2^63 .. 2^63-1]; the conversions below are applied where the C expression
    produces a value of that type. *)
Definition wrap32 (z : Z) : Z := (z + 2 ^ 31) mod 2 ^ 32 - 2 ^ 31.
Definition wrap64 (z : Z) : Z := (z + 2 ^ 63) mod 2 ^ 64 - 2 ^ 63.
Definition u32 (z : Z) : Z := z mod 2 ^ 32.
Definition u64 (z : Z) : Z := z mod 2 ^ 64.

Definition is_int (z : Z) : Prop := - 2 ^ 31 <= z < 2 ^ 31.
Definition is_long (z : Z) : Prop := - 2 ^ 63 <= z < 2 ^ 63.

Create HintDb kernel discriminated.

Ltac pow_lia := unfold is_int, is_long, wrap32, wrap64, u32, u64 in *;
  change (2 ^ 31) with 2147483648 in *; change (2 ^ 32) with 4294967296 in *;
  change (2 ^ 63) with 9223372036854775808 in *;
  change (2 ^ 64) with 18446744073709551616 in *;
  Z.to_euclidean_division_equations; lia.

Lemma wrap32_small z : is_int z → wrap32 z = z.
Proof. intros; pow_lia. Qed.
Lemma wrap64_small z : is_long z → wrap64 z = z.
Proof. intros; pow_lia. Qed.
Lemma wrap32_int z : is_int (wrap32 z).
Proof. pow_lia. Qed.
Lemma wrap64_long z : is_long (wrap64 z).
Proof. pow_lia. Qed.
Lemma u32_small z : 0 <= z < 2 ^ 32 → u32 z = z.
Proof. intros; pow_lia. Qed.
Lemma u64_small z : 0 <= z < 2 ^ 64 → u64 z = z.
Proof. intros; pow_lia. Qed.
Lemma u32_range z : 0 <= u32 z < 2 ^ 32.
Proof. pow_lia. Qed.
Lemma u32_succ_pred z : u32 (u32 (z + 1) - 1) = u32 z.
Proof. pow_lia. Qed.
#[export] Hint Resolve wrap32_int wrap64_long u32_range : kernel.

(** Bitmask tests: [flags & m] used as a condition. *)
Definition has (flags m : Z) : bool := negb (Z.land flags m =? 0).

Lemma has_lor f a b : has f (Z.lor a b) = has f a || has f b.
Proof.
  unfold has. rewrite Z.land_lor_distr_r.
  destruct (Z.eqb_spec (Z.lor (Z.land f a) (Z.land f b)) 0) as [E|E].
  - apply Z.lor_eq_0_iff in E as [-> ->]. done.
  - destruct (Z.eqb_spec (Z.land f a) 0) as [E1|]; [|done].
    destruct (Z.eqb_spec (Z.land f b) 0) as [E2|]; [|done].
    by rewrite E1, E2 in E.
Qed.

(** C division truncates towards zero; a zero divisor, or the quotient of the
    most negative [long] by [-1], raises a divide error on x86. *)
Definition c_div64 (a b : Z) : option Z :=
  if (b =? 0) || ((a =? - 2 ^ 63) && (b =? -1)) then None else Some (a ÷ b).

(** * Sequences in increasing key order *)

Section sorted.
Context {A : Type} `{EqDecision A} (key : A → Z).

Definition key_le (a b : A) : Prop := key a <= key b.

(** Insertion in front of the first element whose key is at least [key x]. *)
Fixpoint ins (x : A) (l : list A) : list A :=
  match l with
  | [] => [x]
  | y :: l' => if key x <=? key y then x :: y :: l' else y :: ins x l'
  end.

Lemma ins_perm x l : ins x l ≡ₚ x :: l.
Proof.
  induction l as [|y l IH]; cbn; [done|].
  case_match; [done|]. rewrite IH. apply Permutation_swap.
Qed.

Lemma elem_of_ins x y l : y ∈ ins x l ↔ y = x ∨ y ∈ l.
Proof. by rewrite ins_perm, elem_of_cons. Qed.

Lemma ins_sorted x l :
  StronglySorted key_le l → StronglySorted key_le (ins x l).
Proof.
  induction 1 as [|y l Hl IH Hy]; cbn; [repeat constructor|].
  case_match eqn:E.
  - constructor; [by constructor|]. constructor; [unfold key_le; lia|].
    eapply Forall_impl; [done|]. unfold key_le. intros; lia.
  - constructor; [done|]. rewrite Forall_forall in *. intros z.
    rewrite elem_of_ins. intros [->|?]; [unfold key_le; lia|auto].
Qed.

Lemma ins_split x l :
  StronglySorted key_le l → ∃ l1 l2, l = l1 ++ l2 ∧ ins x l = l1 ++ x :: l2 ∧
    (∀ y, y ∈ l1 → key y < key x) ∧ (∀ y, y ∈ l2 → key x <= key y).
Proof.
  induction 1 as [|y l Hl (l1&l2&Heq&Hins&H1&H2) Hy]; cbn.
  { exists [], []. split_and!; set_solver. }
  destruct (Z.leb_spec (key x) (key y)).
  - exists [], (y :: l). split_and!; [done|done|set_solver|]. rewrite Forall_forall in Hy.
    intros z [->|Hz]%elem_of_cons; [done|]. specialize (Hy z Hz). unfold key_le in Hy. lia.
  - exists (y :: l1), l2. rewrite Hins, Heq. split_and!; [done|done| |done].
    intros z [->|Hz]%elem_of_cons; [done|auto].
Qed.

Lemma ins_app_gt x l1 l2 :
  Forall (λ y, key y < key x) l1 → ins x (l1 ++ l2) = l1 ++ ins x l2.
Proof.
  induction 1 as [|y l1 Hy _ IH]; cbn; [done|].
  rewrite IH. destruct (Z.leb_spec (key x) (key y)); [lia|done].
Qed.

Lemma ins_app_le x y l1 l2 :
  key x <= key y → ins x (l1 ++ y :: l2) = ins x l1 ++ y :: l2.
Proof.
  intros. induction l1 as [|z l1 IH]; cbn.
  - destruct (Z.leb_spec (key x) (key y)); [done|lia].
  - case_match; [done|]. by rewrite IH.
Qed.

(** The last element after an insertion: the new one exactly when its key is
    above every key of the sequence. *)
Lemma last_ins x l :
  StronglySorted key_le l →
  match last l with
  | Some m => if key m <? key x then ins x l = l ++ [x]
              else last (ins x l) = Some m
  | None => ins x l = [x]
  end.
Proof.
  destruct l as [|m l _] using rev_ind; intros Hs; [done|].
  rewrite last_snoc. destruct (Z.ltb_spec (key m) (key x)).
  - rewrite <-(app_nil_r (l ++ [m])) at 1. rewrite ins_app_gt; [done|].
    apply StronglySorted_app in Hs as (Hlt&_&_).
    rewrite Forall_app, Forall_singleton. split; [|done].
    apply Forall_forall. intros y Hy.
    assert (key y <= key m) by (apply (Hlt y m Hy); set_solver). lia.
  - rewrite ins_app_le by done. apply last_snoc.
Qed.
End sorted.

Lemma ins_ext {A} (key key' : A → Z) x l :
  key x = key' x → (∀ y, y ∈ l → key y = key' y) → ins key x l = ins key' x l.
Proof.
  intros Hx. induction l as [|y l IH]; cbn; intros Hk; [done|].
  rewrite Hx, (Hk y) by set_solver. case_match; [done|].
  rewrite IH; [done|]. set_solver.
Qed.

Lemma sorted_ext {A} (key key' : A → Z) l :
  (∀ y, y ∈ l → key y = key' y) →
  StronglySorted (key_le key) l → StronglySorted (key_le key') l.
Proof.
  intros Hk. induction 1 as [|y l Hl IH Hy]; constructor.
  - apply IH. set_solver.
  - rewrite Forall_forall in *. intros z Hz. specialize (Hy z Hz).
    unfold key_le in *. rewrite <-!Hk; set_solver.
Qed.

(** * Neighbours in a sequence *)

Section neighbours.
Context {A : Type} `{EqDecision A}.
Implicit Types (x y : A) (l : list A).

(** The element after / before the first occurrence of [x]. *)
Fixpoint next_of x l : option A :=
  match l with
  | y :: l' => if decide (x = y) then head l' else next_of x l'
  | [] => None
  end.
Fixpoint prev_of x l : option A :=
  match l with
  | y :: ((z :: _) as l') => if decide (x = z) then Some y else prev_of x l'
  | _ => None
  end.

Definition remove_elem x l : list A := filter (λ y, y ≠ x) l.

Lemma next_of_app x l1 l2 : x ∉ l1 → next_of x (l1 ++ x :: l2) = head l2.
Proof.
  induction l1 as [|y l1 IH]; cbn; intros Hx.
  - by rewrite decide_True.
  - rewrite decide_False by set_solver. apply IH. set_solver.
Qed.

Lemma prev_of_snoc x l : x ∉ l → prev_of x (l ++ [x]) = last l.
Proof.
  intros Hx. induction l as [|y l IH]; [done|].
  destruct l as [|z l]; [cbn; by rewrite decide_True|].
  change ((y :: z :: l) ++ [x]) with (y :: z :: (l ++ [x])). cbn.
  rewrite decide_False by (intros ->; set_solver). apply IH. set_solver.
Qed.

Lemma remove_elem_notin x l : x ∉ l → remove_elem x l = l.
Proof.
  unfold remove_elem. induction l as [|y l IH]; [done|]. intros Hx.
  rewrite filter_cons_True by set_solver. rewrite IH; [done|set_solver].
Qed.

Lemma remove_elem_app x l1 l2 :
  remove_elem x (l1 ++ l2) = remove_elem x l1 ++ remove_elem x l2.
Proof. apply filter_app. Qed.

Lemma remove_elem_hd x l : remove_elem x (x :: l) = remove_elem x l.
Proof. unfold remove_elem. rewrite filter_cons_False; [done|]. naive_solver. Qed.

Lemma remove_elem_tl x y l : y ≠ x → remove_elem x (y :: l) = y :: remove_elem x l.
Proof. intros. unfold remove_elem. by rewrite filter_cons_True. Qed.

Lemma elem_of_remove x y l : y ∈ remove_elem x l ↔ y ≠ x ∧ y ∈ l.
Proof. unfold remove_elem. by rewrite list_elem_of_filter. Qed.

Lemma remove_elem_perm x l : NoDup l → x ∈ l → x :: remove_elem x l ≡ₚ l.
Proof.
  intros Hnd (l1&l2&->)%list_elem_of_split.
  apply NoDup_app in Hnd as (_&Hd&Hnd). apply NoDup_cons in Hnd as [Hx2 _].
  rewrite remove_elem_app, remove_elem_hd.
  rewrite !remove_elem_notin; [by rewrite Permutation_middle|done|].
  intros Hx. apply (Hd x Hx). set_solver.
Qed.

Lemma remove_elem_length x l :
  NoDup l → x ∈ l → length l = S (length (remove_elem x l)).
Proof. intros. by rewrite <-(remove_elem_perm x l) at 1. Qed.

Lemma remove_elem_sorted (key : A → Z) x l :
  StronglySorted (key_le key) l → StronglySorted (key_le key) (remove_elem x l).
Proof.
  unfold remove_elem. induction 1 as [|y l Hl IH Hy]; [constructor|].
  rewrite filter_cons. case_decide; [|done]. constructor; [done|].
  rewrite Forall_forall in *. intros z [_ ?]%list_elem_of_filter. auto.
Qed.

Lemma remove_elem_NoDup x l : NoDup l → NoDup (remove_elem x l).
Proof. apply NoDup_filter. Qed.

Lemma last_remove_ne x l m :
  last l = Some m → m ≠ x → last (remove_elem x l) = Some m.
Proof.
  intros (l'&->)%last_Some Hne. rewrite remove_elem_app.
  rewrite remove_elem_tl by done. apply last_snoc.
Qed.
End neighbours.
