(* ===== verification/Rbtree.v ===== *)
(** The red-black tree behind an HVF run queue.

    [lib/rbtree.c] is not part of the repository: its functions are the class
    [RbLib], and what the scheduler relies on (they maintain and traverse the
    in-order sequence of the tree) is the class [RbLaws].  The descent loop of
    [hvf_rq_rbtree_insert] (kernel/sched/hvf.c), which reads the child pointers
    itself, is modelled in full, with the truncation of the value difference to
    [int].  [plain_rb] is an instance of both classes used by the examples. *)
From S2P Require Import Prelude.

(** A task (and the [sched_hvf_entity] embedded in it, and the [rb_node]
    embedded in that) is identified by a number standing for its address:
    [task_hvf_of] and [rb_entry] are [container_of], bijections between the
    three pointers. *)
Abbreviation tid := nat (only parsing).

Inductive rb_color := RB_RED | RB_BLACK.

(** [RbNode c l e r]: the node of entity [e], its colour and its children. *)
Inductive rbtree :=
| RbNull
| RbNode (c : rb_color) (l : rbtree) (e : tid) (r : rbtree).

Fixpoint inorder (t : rbtree) : list tid :=
  match t with
  | RbNull => []
  | RbNode _ l e r => inorder l ++ e :: inorder r
  end.

Definition RB_EMPTY_ROOT (t : rbtree) : bool :=
  match t with RbNull => true | _ => false end.

Lemma rb_empty_inorder t : RB_EMPTY_ROOT t = true ↔ inorder t = [].
Proof. destruct t as [|c l e r]; cbn; [done|]. by destruct (inorder l). Qed.

(** The functions of lib/rbtree.c that hvf.c calls. *)
Class RbLib := {
  rb_insert_color : tid → rbtree → rbtree;
  rb_erase : tid → rbtree → rbtree;
  rb_last : rbtree → option tid;
  rb_next : tid → rbtree → option tid;
  rb_prev : tid → rbtree → option tid;
}.

(** Their documented behaviour: rebalancing keeps the in-order sequence, erasing
    a linked node removes it from the sequence, and the traversal functions
    follow it. *)
Class RbLaws (L : RbLib) : Prop := {
  rb_insert_color_inorder e t :
    e ∈ inorder t → NoDup (inorder t) →
    inorder (rb_insert_color e t) = inorder t;
  rb_erase_inorder e t :
    e ∈ inorder t → NoDup (inorder t) →
    inorder (rb_erase e t) = remove_elem e (inorder t);
  rb_last_inorder t : rb_last t = last (inorder t);
  rb_next_inorder e t :
    e ∈ inorder t → NoDup (inorder t) → rb_next e t = next_of e (inorder t);
  rb_prev_inorder e t :
    e ∈ inorder t → NoDup (inorder t) → rb_prev e t = prev_of e (inorder t);
}.

Section insert.
Context {L : RbLib}.
(** [key e] is [e->curr_sched_value]. *)
Context (key : tid → Z).

(** The [int result] of the comparison: a [long] difference stored in an
    [int]. *)
Definition cmp_result (se this_entity : tid) : Z :=
  wrap32 (wrap64 (key se - key this_entity)).

(** The [while] loop over [new_node] followed by [rb_link_node]: the new node
    is linked, red, at the [NULL] child where the walk ends. *)
Fixpoint rb_walk_link (t : rbtree) (se : tid) : rbtree :=
  match t with
  | RbNull => RbNode RB_RED RbNull se RbNull
  | RbNode c l e r =>
      if cmp_result se e <=? 0
      then RbNode c (rb_walk_link l se) e r
      else RbNode c l e (rb_walk_link r se)
  end.

Definition hvf_rq_rbtree_insert (root : rbtree) (se : tid) : rbtree :=
  rb_insert_color se (rb_walk_link root se).

(** The keys met by the walk differ by less than [2^31]. *)
Definition int_spread (se : tid) (l : list tid) : Prop :=
  ∀ e, e ∈ l → is_int (key se - key e).

Lemma cmp_result_exact se e : is_int (key se - key e) → cmp_result se e = key se - key e.
Proof. unfold cmp_result. intros. rewrite wrap64_small, wrap32_small; pow_lia. Qed.

Lemma rb_walk_link_inorder t se :
  StronglySorted (key_le key) (inorder t) → int_spread se (inorder t) →
  inorder (rb_walk_link t se) = ins key se (inorder t).
Proof.
  induction t as [|c l IHl e r IHr]; cbn; intros Hs Hi; [done|].
  apply StronglySorted_app in Hs as (Hlt & Hsl & [He Hsr]%StronglySorted_cons).
  unfold int_spread in *.
  rewrite cmp_result_exact by (apply Hi; set_solver).
  destruct (Z.leb_spec (key se - key e) 0); cbn.
  - by rewrite IHl, ins_app_le by (done || lia || set_solver).
  - rewrite IHr by (done || set_solver).
    change (e :: inorder r) with ([e] ++ inorder r).
    rewrite app_assoc, ins_app_gt, <-app_assoc; [done|].
    rewrite Forall_app, Forall_singleton. split; [|lia].
    apply Forall_forall. intros y Hy.
    assert (key y <= key e) by (apply (Hlt y e Hy); set_solver). lia.
Qed.

Lemma hvf_insert_inorder `{!RbLaws L} t se :
  StronglySorted (key_le key) (inorder t) → int_spread se (inorder t) →
  NoDup (inorder t) → se ∉ inorder t →
  inorder (hvf_rq_rbtree_insert t se) = ins key se (inorder t).
Proof.
  intros Hs Hi Hnd Hse. unfold hvf_rq_rbtree_insert.
  rewrite rb_insert_color_inorder, rb_walk_link_inorder; [done..| |];
    rewrite rb_walk_link_inorder by done.
  - apply elem_of_ins. auto.
  - rewrite ins_perm. by constructor.
Qed.
End insert.

Lemma rb_walk_link_ext (key key' : tid → Z) t se :
  (∀ e, key e = key' e) → rb_walk_link key t se = rb_walk_link key' t se.
Proof.
  intros Hk. induction t as [|c l IHl e r IHr]; cbn; [done|].
  unfold cmp_result. rewrite !Hk, IHl, IHr. done.
Qed.

(** C7: Inserting an entity that is not in the tree keeps the tree sorted by value; the
    sequence grows by the entity, which is placed before the entities of the same
    value: among equals, the one that waits longest runs first. *)
Theorem hvf_insert_sorted `{!RbLaws L} (key : tid → Z) t se :
  StronglySorted (key_le key) (inorder t) → int_spread key se (inorder t) →
  NoDup (inorder t) → se ∉ inorder t →
  let t' := hvf_rq_rbtree_insert key t se in
  StronglySorted (key_le key) (inorder t') ∧
  ∃ l1 l2, inorder t = l1 ++ l2 ∧ inorder t' = l1 ++ se :: l2 ∧
    (∀ x, x ∈ l1 → key x < key se) ∧ (∀ x, x ∈ l2 → key se <= key x).
Proof.
  intros Hs Hi Hnd Hse. cbn zeta. rewrite hvf_insert_inorder by done.
  split; [by apply ins_sorted|]. by apply ins_split.
Qed.

(** ** A reference instance *)

(** [plain_rb] never rebalances; erasing a node joins its two subtrees. *)
Fixpoint rb_join (l r : rbtree) : rbtree :=
  match l with
  | RbNull => r
  | RbNode c l1 e l2 => RbNode c l1 e (rb_join l2 r)
  end.

Fixpoint rb_drop (x : tid) (t : rbtree) : rbtree :=
  match t with
  | RbNull => RbNull
  | RbNode c l e r =>
      if decide (e = x) then rb_join (rb_drop x l) (rb_drop x r)
      else RbNode c (rb_drop x l) e (rb_drop x r)
  end.

Lemma rb_join_inorder l r : inorder (rb_join l r) = inorder l ++ inorder r.
Proof. induction l as [|? ? _ ? ? IH]; cbn; [done|]. by rewrite IH, <-app_assoc. Qed.

Lemma rb_drop_inorder x t : inorder (rb_drop x t) = remove_elem x (inorder t).
Proof.
  induction t as [|c l IHl e r IHr]; [done|].
  cbn [rb_drop inorder]. rewrite remove_elem_app. case_decide; subst.
  - by rewrite rb_join_inorder, IHl, IHr, remove_elem_hd.
  - cbn [inorder]. by rewrite IHl, IHr, remove_elem_tl.
Qed.

Definition plain_rb : RbLib := {|
  rb_insert_color _ t := t;
  rb_erase := rb_drop;
  rb_last t := last (inorder t);
  rb_next e t := next_of e (inorder t);
  rb_prev e t := prev_of e (inorder t);
|}.

#[export] Instance plain_rb_laws : RbLaws plain_rb.
Proof. split; intros; cbn; auto using rb_drop_inorder. Qed.
