(* ===== verification/KState.v ===== *)
(** The kernel data the scheduler works on and the monad its code runs in.

    The records follow include/linux/sched.h ([sched_hvf_entity],
    [task_struct]) and kernel/sched/sched.h ([hvf_rq], [rq]), restricted to the
    fields the modelled code reads or writes.  A pointer to a task is a [tid], a
    pointer to a run queue is the number of its CPU.  Code runs in the monad
    [M]: it threads the kernel state and stops with an [oops] when it
    dereferences an invalid pointer, calls a [NULL] function pointer, divides by
    zero or hits a [BUG]. *)
From S2P Require Import Prelude Rbtree.

(** * Constants *)

(** Error numbers (uapi/asm-generic/errno). *)
Definition EPERM := 1.
Definition ESRCH := 3.
Definition EINTR := 4.
Definition E2BIG := 7.
Definition EAGAIN := 11.
Definition ENOMEM := 12.
Definition EFAULT := 14.
Definition EBUSY := 16.
Definition EINVAL := 22.
Definition EOPNOTSUPP := 95.

(** Scheduling policies (uapi/linux/sched.h). *)
Definition SCHED_NORMAL := 0.
Definition SCHED_FIFO := 1.
Definition SCHED_RR := 2.
Definition SCHED_BATCH := 3.
Definition SCHED_IDLE := 5.
Definition SCHED_DEADLINE := 6.
Definition SCHED_EXT := 7.
Definition SCHED_HVF := 8.

(** Enqueue and dequeue flags, wake-up flags (kernel/sched/sched.h, with
    CONFIG_SMP). *)
Definition DEQUEUE_SLEEP := 0x01.
Definition DEQUEUE_SAVE := 0x02.
Definition DEQUEUE_MOVE := 0x04.
Definition DEQUEUE_NOCLOCK := 0x08.
Definition DEQUEUE_SPECIAL := 0x10.
Definition DEQUEUE_MIGRATING := 0x100.
Definition DEQUEUE_DELAYED := 0x200.
Definition ENQUEUE_WAKEUP := 0x01.
Definition ENQUEUE_RESTORE := 0x02.
Definition ENQUEUE_MOVE := 0x04.
Definition ENQUEUE_NOCLOCK := 0x08.
Definition ENQUEUE_HEAD := 0x10.
Definition ENQUEUE_REPLENISH := 0x20.
Definition ENQUEUE_MIGRATED := 0x40.
Definition ENQUEUE_INITIAL := 0x80.
Definition ENQUEUE_MIGRATING := 0x100.
Definition ENQUEUE_DELAYED := 0x200.
Definition ENQUEUE_RQ_SELECTED := 0x400.
Definition ENQUEUE_CHANGED := 0x800.
Definition WF_EXEC := 0x02.
Definition WF_FORK := 0x04.
Definition WF_TTWU := 0x08.
Definition WF_SYNC := 0x10.
Definition WF_MIGRATED := 0x20.
Definition WF_CURRENT_CPU := 0x40.
Definition WF_RQ_SELECTED := 0x80.

(** Task states (linux/sched.h). *)
Definition TASK_RUNNING := 0x0.
Definition TASK_INTERRUPTIBLE := 0x1.
Definition TASK_UNINTERRUPTIBLE := 0x2.
Definition __TASK_STOPPED := 0x4.
Definition __TASK_TRACED := 0x8.
Definition TASK_PARKED := 0x40.
Definition TASK_DEAD := 0x80.
Definition TASK_WAKING := 0x200.
Definition TASK_NOLOAD := 0x400.
Definition TASK_NEW := 0x800.
Definition TASK_FROZEN := 0x8000.
Definition TASK_NORMAL := Z.lor TASK_INTERRUPTIBLE TASK_UNINTERRUPTIBLE.

(** [p->on_rq]. *)
Definition TASK_ON_RQ_QUEUED := 1.
Definition TASK_ON_RQ_MIGRATING := 2.

(** * Data *)

(** The scheduling classes.  [p->sched_class] points to one of them. *)
Inductive sched_class_id :=
| stop_sched_class | dl_sched_class | rt_sched_class | fair_sched_class
| ext_sched_class | hvf_sched_class | idle_sched_class.
#[export] Instance sched_class_id_eq_dec : EqDecision sched_class_id.
Proof. solve_decision. Defined.

(** [struct sched_hvf_entity]; the [rb_node] is the entity's position in the
    queue of its CPU. *)
Record sched_hvf_entity := {
  init_sched_value : Z; curr_sched_value : Z;
  first_time : Z; latest_time : Z; time_used : Z; runtime : Z;
  se_on_rq : bool;
  cpu_answers : Z; cpu_first_answer : Z;
  slice_expired : bool;
  prev_cpu : Z; curr_cpu : Z
}.
#[export] Instance eta_sched_hvf_entity : Eta sched_hvf_entity := λ r,
  {|
     init_sched_value := init_sched_value r; curr_sched_value := curr_sched_value r;
     first_time := first_time r; latest_time := latest_time r; time_used := time_used r;
     runtime := runtime r; se_on_rq := se_on_rq r; cpu_answers := cpu_answers r;
     cpu_first_answer := cpu_first_answer r; slice_expired := slice_expired r; prev_cpu :=
     prev_cpu r; curr_cpu := curr_cpu r |}.

(** [struct uclamp_se]. *)
Record uclamp_se := {
  uc_value : Z; uc_bucket_id : Z; uc_active : bool; uc_user_defined : bool
}.
#[export] Instance eta_uclamp_se : Eta uclamp_se := λ r,
  {|
     uc_value := uc_value r; uc_bucket_id := uc_bucket_id r; uc_active := uc_active r;
     uc_user_defined := uc_user_defined r |}.

(** [struct task_struct].  The fields [se.*] and [hvf.on_rq] of the embedded
    entities carry a prefix; [dl_data] holds the words of the deadline entity,
    whose code is not in the repository.  [cpus_other] is [None] when [p->cpus_ptr] points to
    [p->cpus_mask] and [Some m] when it points to another mask [m].  A
    [migration_pending] points to the request on the stack of the thread it names;
    [core_enqueued] says that [core_node] is linked. *)
Record task_struct := {
  pid : Z; __state : Z; saved_state : Z;
  on_rq : Z; on_cpu : bool; cpu : Z; wake_cpu : Z; recent_used_cpu : Z;
  prio : Z; static_prio : Z; normal_prio : Z; rt_priority : Z;
  policy : Z; sched_class : sched_class_id;
  hvf : sched_hvf_entity;
  deadline_1 : Z; deadline_2 : Z; computation_time : Z; pars_set : bool;
  nr_cpus_allowed : Z; cpus_mask : Z; cpus_other : option Z;
  user_cpus_ptr : option Z; migration_disabled : Z;
  t_flags : Z; need_resched : bool; polling : bool;
  sched_reset_on_fork : bool; sched_contributes_to_load : bool; in_iowait : bool;
  sched_delayed : bool; se_slice : Z; custom_slice : bool; se_weight : Z; se_inv_weight : Z;
  timer_slack_ns : Z; default_timer_slack_ns : Z;
  nvcsw : Z; nivcsw : Z;
  uclamp_req_min : uclamp_se; uclamp_req_max : uclamp_se;
  uclamp_min : uclamp_se; uclamp_max : uclamp_se;
  rlim_nice : Z; rlim_rtprio : Z; uid : Z; euid : Z;
  dl_server : option Z; dl_data : list Z; pi_top_task : option tid; sched_remote_wakeup : bool;
  migration_pending : option tid; migration_flags : Z;
  core_cookie : Z; core_occupation : Z; core_enqueued : bool
}.
#[export] Instance eta_task_struct : Eta task_struct := λ r,
  {|
     pid := pid r; __state := __state r; saved_state := saved_state r; on_rq := on_rq r;
     on_cpu := on_cpu r; cpu := cpu r; wake_cpu := wake_cpu r; recent_used_cpu :=
     recent_used_cpu r; prio := prio r; static_prio := static_prio r; normal_prio :=
     normal_prio r; rt_priority := rt_priority r; policy := policy r; sched_class :=
     sched_class r; hvf := hvf r; deadline_1 := deadline_1 r; deadline_2 := deadline_2 r;
     computation_time := computation_time r; pars_set := pars_set r; nr_cpus_allowed :=
     nr_cpus_allowed r; cpus_mask := cpus_mask r; cpus_other := cpus_other r; user_cpus_ptr
     := user_cpus_ptr r; migration_disabled := migration_disabled r; t_flags := t_flags r;
     need_resched := need_resched r; polling := polling r; sched_reset_on_fork :=
     sched_reset_on_fork r; sched_contributes_to_load := sched_contributes_to_load r;
     in_iowait := in_iowait r; sched_delayed := sched_delayed r; se_slice := se_slice r;
     custom_slice := custom_slice r; se_weight := se_weight r; se_inv_weight :=
     se_inv_weight r; timer_slack_ns := timer_slack_ns r; default_timer_slack_ns :=
     default_timer_slack_ns r; nvcsw := nvcsw r; nivcsw := nivcsw r; uclamp_req_min :=
     uclamp_req_min r; uclamp_req_max := uclamp_req_max r; uclamp_min := uclamp_min r;
     uclamp_max := uclamp_max r; rlim_nice := rlim_nice r; rlim_rtprio := rlim_rtprio r; uid
     := uid r; euid := euid r; dl_server := dl_server r; dl_data := dl_data r; pi_top_task
     := pi_top_task r; sched_remote_wakeup := sched_remote_wakeup r; migration_pending :=
     migration_pending r; migration_flags := migration_flags r; core_cookie := core_cookie
     r; core_occupation := core_occupation r; core_enqueued := core_enqueued r |}.

(** [struct hvf_rq]. *)
Record hvf_rq := {
  hvf_task_queue : rbtree;
  max_value_entity : option tid;
  hvf_curr : option tid;
  nr_hvf_queued : Z
}.
#[export] Instance eta_hvf_rq : Eta hvf_rq := λ r,
  {|
     hvf_task_queue := hvf_task_queue r; max_value_entity := max_value_entity r; hvf_curr :=
     hvf_curr r; nr_hvf_queued := nr_hvf_queued r |}.

(** [struct uclamp_bucket], [struct uclamp_rq]. *)
Record uclamp_bucket := { bk_value : Z; bk_tasks : Z }.
#[export] Instance eta_uclamp_bucket : Eta uclamp_bucket := λ r,
  {| bk_value := bk_value r; bk_tasks := bk_tasks r |}.
Record uclamp_rq := { ucrq_value : Z; ucrq_bucket : list uclamp_bucket }.
#[export] Instance eta_uclamp_rq : Eta uclamp_rq := λ r,
  {| ucrq_value := ucrq_value r; ucrq_bucket := ucrq_bucket r |}.

(** The static [struct balance_callback]s: the head for core balancing of a CPU
    ([core_balance_head]), the one that pushes tasks off a dying CPU
    ([balance_push_callback]), and the heads of the other classes; the functions they
    are queued with. *)
Inductive bcb_head := core_balance_head (c : Z) | balance_push_callback | class_head (n : Z).
#[export] Instance bcb_head_eq_dec : EqDecision bcb_head.
Proof. solve_decision. Defined.
Inductive bcb_func := sched_core_balance_fn | balance_push_fn | class_fn (n : Z).
Record bcb := {
  bc_next : option bcb_head; bc_func : bcb_func
}.
#[export] Instance eta_bcb : Eta bcb := λ r,
  {|
     bc_next := bc_next r; bc_func := bc_func r |}.

(** [__sched_core_enabled] and [sched_core_count]. *)
Record core_global := {
  core_key : bool; core_count : Z
}.
#[export] Instance eta_core_global : Eta core_global := λ r,
  {|
     core_key := core_key r; core_count := core_count r |}.

(** The part of [struct rq] under CONFIG_SCHED_CORE.  [core] is the CPU whose run queue
    holds the state the core shares. *)
Record core_rq := {
  core : Z; core_pick : option tid; core_dl_server : option Z; core_enabled : bool;
  core_sched_seq : Z; core_tree : rbtree;
  core_task_seq : Z; core_pick_seq : Z; rq_core_cookie : Z;
  core_forceidle_count : Z; core_forceidle_seq : Z; core_forceidle_occupation : Z;
  core_forceidle_start : Z
}.
#[export] Instance eta_core_rq : Eta core_rq := λ r,
  {|
     core := core r; core_pick := core_pick r; core_dl_server := core_dl_server r;
     core_enabled := core_enabled r; core_sched_seq := core_sched_seq r; core_tree :=
     core_tree r; core_task_seq := core_task_seq r; core_pick_seq := core_pick_seq r;
     rq_core_cookie := rq_core_cookie r; core_forceidle_count := core_forceidle_count r;
     core_forceidle_seq := core_forceidle_seq r; core_forceidle_occupation :=
     core_forceidle_occupation r; core_forceidle_start := core_forceidle_start r |}.

(** [struct rq].  [class_data c] holds the words of the private run queue of
    class [c] (the CFS tree, the RT array, ...), whose code is not in the
    repository; [wake_list] holds the tasks other CPUs queued for activation here. *)
Record rq := {
  nr_running : Z;
  curr : tid; idle : tid; stop : option tid;
  rq_hvf : hvf_rq;
  cfs_h_nr_queued : Z;
  class_data : sched_class_id → list Z;
  nr_uninterruptible : Z; nr_iowait : Z; nr_switches : Z;
  ttwu_pending : bool;
  rq_uclamp_min : uclamp_rq; rq_uclamp_max : uclamp_rq; uclamp_flags : Z;
  rq_dl_server : option Z; scx_bal_pending : bool; wake_list : list tid;
  push_busy : bool; nr_pinned : Z; core_data : core_rq; balance_callback : option bcb_head
}.
#[export] Instance eta_rq : Eta rq := λ r,
  {|
     nr_running := nr_running r; curr := curr r; idle := idle r; stop := stop r; rq_hvf :=
     rq_hvf r; cfs_h_nr_queued := cfs_h_nr_queued r; class_data := class_data r;
     nr_uninterruptible := nr_uninterruptible r; nr_iowait := nr_iowait r; nr_switches :=
     nr_switches r; ttwu_pending := ttwu_pending r; rq_uclamp_min := rq_uclamp_min r;
     rq_uclamp_max := rq_uclamp_max r; uclamp_flags := uclamp_flags r; rq_dl_server :=
     rq_dl_server r; scx_bal_pending := scx_bal_pending r; wake_list := wake_list r;
     push_busy := push_busy r; nr_pinned := nr_pinned r; core_data := core_data r;
     balance_callback := balance_callback r |}.

(** [rq->donor] shares its storage with [rq->curr] (an anonymous union). *)
Definition donor (r : rq) : tid := curr r.

(** [struct timespec64]. *)
Record timespec64 := { tv_sec : Z; tv_nsec : Z }.

(** What the code writes to the trace buffer or sends to another CPU. *)
Inductive trace_event :=
| hvf_task_terminated (pid init_value turnaround_time wait_time comp_time response_time : Z)
| hvf_task_migrates (pid value prev_cpu prev_running new_cpu new_running : Z)
| smp_send_reschedule (cpu : Z).

(** The clamp settings of the system (core.c): the three sysctl knobs,
    [uclamp_default] and the static key [sched_uclamp_used]. *)
Record uclamp_globals := {
  sysctl_sched_uclamp_util_min : Z;
  sysctl_sched_uclamp_util_max : Z;
  sysctl_sched_uclamp_util_min_rt_default : Z;
  uclamp_default_min : uclamp_se; uclamp_default_max : uclamp_se;
  sched_uclamp_used : bool
}.
#[export] Instance eta_uclamp_globals : Eta uclamp_globals := λ r,
  {|
     sysctl_sched_uclamp_util_min := sysctl_sched_uclamp_util_min r;
     sysctl_sched_uclamp_util_max := sysctl_sched_uclamp_util_max r;
     sysctl_sched_uclamp_util_min_rt_default := sysctl_sched_uclamp_util_min_rt_default r;
     uclamp_default_min := uclamp_default_min r; uclamp_default_max := uclamp_default_max r;
     sched_uclamp_used := sched_uclamp_used r |}.

(** [struct set_affinity_pending] (core.c): a request to move a task, on the stack of
    the thread that made it; [ap_done] is its completion, [ap_dest_cpu] and [ap_task]
    its [struct migration_arg]. *)
Record affinity_pending := {
  ap_refs : Z; ap_stop_pending : bool; ap_done : bool; ap_task : tid; ap_dest_cpu : Z
}.
#[export] Instance eta_affinity_pending : Eta affinity_pending := λ r,
  {|
     ap_refs := ap_refs r; ap_stop_pending := ap_stop_pending r; ap_done := ap_done r;
     ap_task := ap_task r; ap_dest_cpu := ap_dest_cpu r |}.

(** Work queued for the stopper thread of a CPU: [migration_cpu_stop] with the argument
    embedded in a request, or with one of its own, [push_cpu_stop], and
    [__balance_push_cpu_stop]. *)
Inductive stop_fn :=
| migration_pending_work (pending : tid)
| migration_work (p : tid) (dest_cpu : Z)
| push_work (p : tid)
| balance_push_work (p : tid).
#[export] Instance stop_fn_eq_dec : EqDecision stop_fn.
Proof. solve_decision. Defined.

(** The kernel state seen by one CPU.  [clock n] is the value of the [n]-th read
    of the real-time clock: an arbitrary sequence, since the clock can be set,
    also backwards. *)
Record kstate := {
  k_tasks : gmap nat task_struct;
  k_rqs : gmap Z rq;
  k_clock : nat → timespec64;
  k_reads : nat;
  k_cpu : Z;
  k_trace : list trace_event;
  k_uclamp : uclamp_globals;
  k_pending : gmap nat affinity_pending;
  k_stops : list (Z * stop_fn);
  k_core : core_global;
  k_heads : bcb_head → bcb
}.
#[export] Instance eta_kstate : Eta kstate := λ r,
  {|
     k_tasks := k_tasks r; k_rqs := k_rqs r; k_clock := k_clock r; k_reads := k_reads r;
     k_cpu := k_cpu r; k_trace := k_trace r; k_uclamp := k_uclamp r; k_pending := k_pending
     r; k_stops := k_stops r; k_core := k_core r; k_heads := k_heads r |}.

(** * The monad *)

(** Why the kernel stops. *)
Inductive oops :=
| bad_pointer    (* dereference of an invalid task or run-queue pointer *)
| null_call      (* call through a NULL function pointer *)
| divide_error
| kernel_bug     (* BUG() / BUG_ON() *)
| out_of_fuel.   (* a loop that did not end within the rounds the model allows *)

Inductive res (A : Type) := Ok (a : A) | Oops (o : oops).
Arguments Ok {A} a.
Arguments Oops {A} o.

Definition M (A : Type) : Type := kstate → res (A * kstate).

#[export] Instance M_ret : MRet M := λ A a s, Ok (a, s).
#[export] Instance M_bind : MBind M := λ A B k m s,
  match m s with Ok (a, s') => k a s' | Oops o => Oops o end.

Definition oops_with {A} (o : oops) : M A := λ _, Oops o.
Definition skip : M unit := mret tt.
Definition get {A} (f : kstate → A) : M A := λ s, Ok (f s, s).
Definition modify (f : kstate → kstate) : M unit := λ s, Ok (tt, f s).
Definition when (b : bool) (m : M unit) : M unit := if b then m else skip.

(** Dereference of a pointer that may be [NULL]. *)
Definition deref {A} (o : option A) : M A :=
  match o with Some a => mret a | None => oops_with bad_pointer end.
Definition call_null {A} (o : option A) : M A :=
  match o with Some a => mret a | None => oops_with null_call end.

Definition task (p : tid) : M task_struct := λ s,
  match k_tasks s !! p with Some t => Ok (t, s) | None => Oops bad_pointer end.
Definition upd_task (p : tid) (f : task_struct → task_struct) : M unit := λ s,
  match k_tasks s !! p with
  | Some t => Ok (tt, s <| k_tasks := <[p := f t]> (k_tasks s) |>)
  | None => Oops bad_pointer
  end.
Definition cpu_rq (c : Z) : M rq := λ s,
  match k_rqs s !! c with Some r => Ok (r, s) | None => Oops bad_pointer end.
Definition upd_rq (c : Z) (f : rq → rq) : M unit := λ s,
  match k_rqs s !! c with
  | Some r => Ok (tt, s <| k_rqs := <[c := f r]> (k_rqs s) |>)
  | None => Oops bad_pointer
  end.
Definition div64 (a b : Z) : M Z :=
  match c_div64 a b with Some q => mret q | None => oops_with divide_error end.

Definition smp_processor_id : M Z := get k_cpu.
(** [current]: the task [rq->curr] of this CPU. *)
Definition current : M tid := c ← smp_processor_id; r ← cpu_rq c; mret (curr r).
(** [ktime_get_real_ts64]: the next value of the real-time clock. *)
Definition ktime_get_real_ts64 : M timespec64 := λ s,
  Ok (k_clock s (k_reads s), s <| k_reads ::= S |>).
Definition trace_printk (e : trace_event) : M unit :=
  modify (λ s, s <| k_trace ::= λ l, l ++ [e] |>).

(** * Weakest preconditions

    [wp m s Q]: run from [s], the code [m] does not oops and ends in a result and
    a state that satisfy [Q]. *)
Definition wp {A} (m : M A) (s : kstate) (Q : A → kstate → Prop) : Prop :=
  match m s with Ok (a, s') => Q a s' | Oops _ => False end.

Section wp_rules.
Context {A B : Type}.
Implicit Types (Q : A → kstate → Prop) (s : kstate).

Lemma wp_ret (a : A) s Q : Q a s → wp (mret a) s Q.
Proof. done. Qed.
Lemma wp_bind (m : M B) (k : B → M A) s Q :
  wp m s (λ b s', wp (k b) s' Q) → wp (m ≫= k) s Q.
Proof. unfold wp, mbind, M_bind. by destruct (m s) as [[? ?]|]. Qed.
Lemma wp_mono (m : M A) s Q Q' :
  wp m s Q → (∀ a s', Q a s' → Q' a s') → wp m s Q'.
Proof. unfold wp. destruct (m s) as [[? ?]|]; auto. Qed.
Lemma wp_ok (m : M A) s a s' : m s = Ok (a, s') → ∀ Q, Q a s' → wp m s Q.
Proof. unfold wp. by intros ->. Qed.
Lemma wp_get (f : kstate → A) s Q : Q (f s) s → wp (get f) s Q.
Proof. done. Qed.
Lemma wp_deref (a : A) s Q : Q a s → wp (deref (Some a)) s Q.
Proof. done. Qed.
Lemma wp_call_null (a : A) s Q : Q a s → wp (call_null (Some a)) s Q.
Proof. done. Qed.
Lemma wp_seq {C} (m : M C) (n : M B) (k : B → M A) s Q :
  wp (m;; n) s (λ b s', wp (k b) s' Q) → wp ((m;; skip);; (n ≫= k)) s Q.
Proof.
  unfold wp, mbind, M_bind. destruct (m s) as [[? s1]|]; cbn; [|done].
  by destruct (n s1) as [[? ?]|].
Qed.
Lemma wp_inv (m : M A) s Q : wp m s Q → ∃ a s', m s = Ok (a, s') ∧ Q a s'.
Proof. unfold wp. destruct (m s) as [[a s']|]; [eauto|done]. Qed.
End wp_rules.

(** Running code step by step, for code that ends in an oops. *)
Lemma bind_ok {A B} (m : M A) (k : A → M B) s a s' : m s = Ok (a, s') → (m ≫= k) s = k a s'.
Proof. unfold mbind, M_bind. by intros ->. Qed.
Lemma bind_oops {A B} (m : M A) (k : A → M B) s o : m s = Oops o → (m ≫= k) s = Oops o.
Proof. unfold mbind, M_bind. by intros ->. Qed.
Lemma task_ok p t s : k_tasks s !! p = Some t → task p s = Ok (t, s).
Proof. unfold task. by intros ->. Qed.
Lemma upd_task_ok p f t s :
  k_tasks s !! p = Some t →
  upd_task p f s = Ok (tt, s <| k_tasks := <[p := f t]> (k_tasks s) |>).
Proof. unfold upd_task. by intros ->. Qed.
Lemma cpu_rq_ok c r s : k_rqs s !! c = Some r → cpu_rq c s = Ok (r, s).
Proof. unfold cpu_rq. by intros ->. Qed.
Ltac ok_step := erewrite bind_ok by
  first [reflexivity | by eapply task_ok; simplify_map_eq | by eapply upd_task_ok; simplify_map_eq
        | by eapply cpu_rq_ok; simplify_map_eq].

Lemma wp_task p t s Q : k_tasks s !! p = Some t → Q t s → wp (task p) s Q.
Proof. unfold wp, task. by intros ->. Qed.
Lemma wp_upd_task p f t s Q :
  k_tasks s !! p = Some t →
  Q tt (s <| k_tasks := <[p := f t]> (k_tasks s) |>) → wp (upd_task p f) s Q.
Proof. unfold wp, upd_task. by intros ->. Qed.
Lemma wp_rq c r s Q : k_rqs s !! c = Some r → Q r s → wp (cpu_rq c) s Q.
Proof. unfold wp, cpu_rq. by intros ->. Qed.
Lemma wp_upd_rq c f r s Q :
  k_rqs s !! c = Some r →
  Q tt (s <| k_rqs := <[c := f r]> (k_rqs s) |>) → wp (upd_rq c f) s Q.
Proof. unfold wp, upd_rq. by intros ->. Qed.
Lemma wp_modify f s Q : Q tt (f s) → wp (modify f) s Q.
Proof. done. Qed.
Lemma wp_skip s Q : Q tt s → wp skip s Q.
Proof. done. Qed.
Lemma wp_ktime s Q :
  Q (k_clock s (k_reads s)) (s <| k_reads ::= S |>) → wp ktime_get_real_ts64 s Q.
Proof. done. Qed.
Lemma wp_trace e s Q :
  Q tt (s <| k_trace ::= λ l, l ++ [e] |>) → wp (trace_printk e) s Q.
Proof. done. Qed.
Lemma wp_current r s Q :
  k_rqs s !! k_cpu s = Some r → Q (curr r) s → wp current s Q.
Proof.
  intros Hr HQ. apply wp_bind, wp_get, wp_bind. by eapply wp_rq; [done|].
Qed.
Lemma wp_when (b : bool) m s Q :
  (b = true → wp m s Q) → (b = false → Q tt s) → wp (when b m) s Q.
Proof. destruct b; intros H1 H2; [by apply H1|by apply wp_skip, H2]. Qed.

(** One symbolic step of the code under a [wp]. *)
Ltac wp_step :=
  lazymatch goal with
  | |- wp (mbind _ _) _ _ => apply wp_bind
  | |- wp (mret _) _ _ => apply wp_ret
  | |- wp skip _ _ => apply wp_skip
  | |- wp (get _) _ _ => apply wp_get
  | |- wp smp_processor_id _ _ => apply wp_get
  | |- wp (modify _) _ _ => apply wp_modify
  | |- wp (deref (Some _)) _ _ => apply wp_deref
  | |- wp (call_null (Some _)) _ _ => apply wp_call_null
  | |- wp (task _) _ _ => eapply wp_task; [by simplify_map_eq|]
  | |- wp (upd_task _ _) _ _ => eapply wp_upd_task; [by simplify_map_eq|]
  | |- wp (cpu_rq _) _ _ => eapply wp_rq; [by simplify_map_eq|]
  | |- wp (upd_rq _ _) _ _ => eapply wp_upd_rq; [by simplify_map_eq|]
  | |- wp ktime_get_real_ts64 _ _ => apply wp_ktime
  | |- wp (trace_printk _) _ _ => apply wp_trace
  end; cbn beta iota.
Ltac wp_steps := repeat wp_step.

(** * Requesting a reschedule *)

(** [__resched_curr] for [TIF_NEED_RESCHED] (the lazy flag is not used by the
    modelled callers): mark the running task, and interrupt its CPU when that is
    another one and its idle loop does not poll the flag. *)
Definition __resched_curr (c : Z) : M unit :=
  r ← cpu_rq c;
  t ← task (curr r);
  if need_resched t then skip else
  this ← smp_processor_id;
  if c =? this then upd_task (curr r) (λ t, t <| need_resched := true |>)
  else
    upd_task (curr r) (λ t, t <| need_resched := true |>);;
    when (negb (polling t)) (trace_printk (smp_send_reschedule c)).

Definition resched_curr (c : Z) : M unit := __resched_curr c.

(** After a reschedule request only the mark of the running task and the trace
    differ. *)
Definition rescheduled (s s' : kstate) (q : tid) (t : task_struct) : Prop :=
  ∃ l, s' = s <| k_tasks ::= <[q := t <| need_resched := true |>]> |> <| k_trace := l |>.

Lemma wp_resched_curr c r t s Q :
  k_rqs s !! c = Some r → k_tasks s !! curr r = Some t →
  (∀ s', rescheduled s s' (curr r) t → Q tt s') →
  wp (resched_curr c) s Q.
Proof.
  intros Hr Ht HQ. unfold resched_curr, __resched_curr. wp_steps.
  destruct (need_resched t) eqn:Hn.
  { wp_steps. apply HQ. exists (k_trace s).
    assert (t <| need_resched := true |> = t) as -> by (rewrite <-Hn; by destruct t).
    unfold upd. cbn. rewrite insert_id by done. by destruct s. }
  wp_steps. destruct (c =? k_cpu s); wp_steps.
  - apply HQ. by exists (k_trace s).
  - apply wp_when; intros _; [apply wp_trace|]; apply HQ; by eexists.
Qed.
