(* ===== verification/HvfValue.v ===== *)
(** Value arithmetic of the Highest Value First class (kernel/sched/hvf.c): the
    initial value of a task from its deadlines, its decay when a slice expires,
    the penalty when the declared computation time is exceeded, the time slice,
    and the time bookkeeping of an entity. *)
From S2P Require Import Prelude Rbtree KState.

Definition K := 1000.
Definition H := 100.

(** [now.tv_sec*K + now.tv_nsec/(K*K)]: the real-time clock in milliseconds. *)
Definition ts_ms (now : timespec64) : Z :=
  wrap64 (wrap64 (tv_sec now * K) + tv_nsec now ÷ (K * K)).

(** ** Initial value *)

(** The right-hand side of [V] in [compute_init_sched_value]; [None] is the
    divide error. *)
Definition init_value (first_time computation_time deadline_1 deadline_2 : Z) : option Z :=
  let X := wrap64 (first_time + computation_time) in
  if X <? wrap64 (deadline_1 * K) then Some H
  else if wrap64 (deadline_2 * K) <? X then Some 0
  else c_div64 (wrap64 (wrap64 (wrap64 (deadline_2 * K) - X) * H))
               (wrap64 (wrap64 (deadline_2 - deadline_1) * K)).

Definition compute_init_sched_value (p : tid) : M Z :=
  t ← task p;
  match init_value (first_time (hvf t)) (computation_time t) (deadline_1 t) (deadline_2 t) with
  | Some V =>
      upd_task p (λ t, t <| hvf ::= λ se,
        se <| init_sched_value := V |> <| curr_sched_value := V |> |>);;
      mret V
  | None => oops_with divide_error
  end.

(** ** Decay and penalty *)

Definition reduced_value (rate old_value : Z) : Z :=
  let new_value := wrap64 (old_value - wrap64 (rate * old_value) ÷ 100) in
  if 0 <? new_value then new_value else if old_value =? 0 then 10 else 0.

Definition reduce_sched_value (p : tid) : M Z :=
  t ← task p;
  let new_value := reduced_value (time_used (hvf t)) (curr_sched_value (hvf t)) in
  upd_task p (λ t, t <| hvf ::= λ se, se <| curr_sched_value := new_value |> |>);;
  mret new_value.

Definition penalized_value (time_used ctime old_value : Z) : Z :=
  let diff := wrap64 (time_used - ctime) in
  let new_value := wrap64 (old_value - wrap64 (wrap64 (diff * diff) * old_value) ÷ 100) in
  if 0 <? new_value then new_value else if old_value =? 0 then 10 else 0.

Definition penalty_hvf_entity (p : tid) (ctime : Z) : M Z :=
  t ← task p;
  let new_value := penalized_value (time_used (hvf t)) ctime (curr_sched_value (hvf t)) in
  upd_task p (λ t, t <| hvf ::= λ se, se <| curr_sched_value := new_value |> |>);;
  mret new_value.

Definition exceeded_time (p : tid) : M bool :=
  t ← task p;
  mret (computation_time t <? time_used (hvf t)).

(** ** Time slice *)

Definition time_slice (sched_value : Z) : Z :=
  let max_slice := K in
  let min_slice := 10 in
  let v := if sched_value <? 1 then 1 else sched_value in
  let scaled_value := if K <? v then K else v in
  let range := max_slice - min_slice in
  (scaled_value * range) ÷ K + min_slice.

(** ** Time bookkeeping *)

Definition init_sched_hvf_entity (p : tid) : M unit :=
  now ← ktime_get_real_ts64;
  upd_task p (λ t, t <| hvf ::= λ se,
    se <| first_time := ts_ms now |> <| latest_time := ts_ms now |>
       <| time_used := 0 |> <| cpu_answers := 0 |> <| slice_expired := false |> |>).

Definition update_latest_se_hvf (p : tid) : M unit :=
  now ← ktime_get_real_ts64;
  upd_task p (λ t, t <| hvf ::= λ se,
    let answers := wrap32 (cpu_answers se + 1) in
    se <| latest_time := ts_ms now |> <| runtime := 0 |> <| cpu_answers := answers |>
       <| cpu_first_answer := if answers =? 1 then ts_ms now else cpu_first_answer se |> |>).

Definition update_used_se_hvf (p : tid) : M unit :=
  now ← ktime_get_real_ts64;
  upd_task p (λ t, t <| hvf ::= λ se,
    se <| time_used := wrap64 (time_used se + wrap64 (ts_ms now - latest_time se)) |> |>).

(** ** Parameters *)

(** [now.tv_sec + now.tv_nsec/(K*K*K)]. *)
Definition ts_s (now : timespec64) : Z := wrap64 (tv_sec now + tv_nsec now ÷ (K * K * K)).

Definition give_default_hvf_values (p : tid) : M unit :=
  t ← task p;
  if pars_set t then skip else
  now ← ktime_get_real_ts64;
  upd_task p (λ t,
    t <| deadline_1 := wrap64 (ts_s now + 4) |> <| deadline_2 := wrap64 (ts_s now + 6) |>
      <| computation_time := K |> <| pars_set := true |>);;
  compute_init_sched_value p;;
  skip.

Definition clear_hvf_values (p : tid) : M unit :=
  t ← task p;
  when (pars_set t)
    (upd_task p (λ t,
      t <| deadline_1 := 0 |> <| deadline_2 := 0 |> <| computation_time := 0 |>
        <| pars_set := false |>)).

(** * Properties *)

(** Parameters whose millisecond products fit a [long]: deadlines up to the year
    292 million, completion times of the same magnitude. *)
Definition sane_params (first ctime d1 d2 : Z) : Prop :=
  0 <= d1 < d2 ∧ d2 < 2 ^ 43 ∧ - 2 ^ 53 < first + ctime < 2 ^ 53.

Ltac sane := unfold sane_params, is_long, is_int, K, H in *;
  change (2 ^ 43) with 8796093022208 in *; change (2 ^ 53) with 9007199254740992 in *;
  change (2 ^ 63) with 9223372036854775808 in *; change (2 ^ 31) with 2147483648 in *.

(** The value is the piecewise-linear function of the expected completion time. *)
Definition value_spec (X d1 d2 : Z) : Z :=
  if X <? d1 * K then H
  else if d2 * K <? X then 0
  else (d2 * K - X) * H / ((d2 - d1) * K).

Lemma init_value_spec first ctime d1 d2 :
  sane_params first ctime d1 d2 →
  init_value first ctime d1 d2 = Some (value_spec (first + ctime) d1 d2).
Proof.
  intros Hp. unfold init_value, value_spec.
  rewrite !(wrap64_small (first + ctime)), !(wrap64_small (d1 * K)),
    !(wrap64_small (d2 * K)) by (sane; lia).
  destruct (Z.ltb_spec (first + ctime) (d1 * K)); [done|].
  destruct (Z.ltb_spec (d2 * K) (first + ctime)); [done|].
  rewrite !(wrap64_small (d2 * K - _)), !(wrap64_small (d2 - d1)) by (sane; lia).
  rewrite !wrap64_small by (sane; nia). unfold c_div64.
  destruct (Z.eqb_spec ((d2 - d1) * K) 0); [sane; lia|].
  destruct (Z.eqb_spec ((d2 - d1) * K) (-1)); [sane; lia|].
  rewrite andb_false_r. cbn. f_equal. apply Z.quot_div_nonneg; sane; lia.
Qed.

Lemma value_spec_range X d1 d2 : d1 < d2 → 0 <= value_spec X d1 d2 <= H.
Proof.
  intros Hd. unfold value_spec.
  destruct (Z.ltb_spec X (d1 * K)); [sane; lia|].
  destruct (Z.ltb_spec (d2 * K) X); [sane; lia|]. split.
  - apply Z.div_pos; sane; lia.
  - apply Z.div_le_upper_bound; sane; nia.
Qed.

Lemma value_spec_antitone X Y d1 d2 :
  d1 < d2 → X <= Y → value_spec Y d1 d2 <= value_spec X d1 d2.
Proof.
  intros Hd HXY. pose proof (value_spec_range X d1 d2 Hd).
  pose proof (value_spec_range Y d1 d2 Hd). unfold value_spec in *.
  destruct (Z.ltb_spec X (d1 * K)); [sane; lia|].
  destruct (Z.ltb_spec Y (d1 * K)); [lia|].
  destruct (Z.ltb_spec (d2 * K) Y); [lia|].
  destruct (Z.ltb_spec (d2 * K) X); [lia|].
  apply Z.div_le_mono; sane; nia.
Qed.

Lemma time_slice_bounds v : 10 <= time_slice v <= K.
Proof.
  unfold time_slice, K. repeat case_match; Z.to_euclidean_division_equations; lia.
Qed.

Lemma time_slice_monotone v w : v <= w → time_slice v <= time_slice w.
Proof.
  unfold time_slice, K. intros.
  apply Z.add_le_mono_r, Z.quot_le_mono; [lia|]. apply Z.mul_le_mono_nonneg_r; [lia|].
  repeat case_match; lia.
Qed.

(** A drop [d] taken off a value [v] with the floor the code applies. *)
Lemma drop_range v d :
  0 <= v <= H → 0 <= d <= v * 2 ^ 56 →
  let n := wrap64 (v - d) in
  let r := if 0 <? n then n else if v =? 0 then 10 else 0 in
  0 <= r <= Z.max v 10 ∧ (0 < v → r <= v) ∧ (v = 0 → r = 10).
Proof.
  intros Hv Hd n r. subst n r. rewrite wrap64_small.
  - destruct (Z.ltb_spec 0 (v - d)); destruct (Z.eqb_spec v 0); lia.
  - sane. change (2 ^ 56) with 72057594037927936 in *. lia.
Qed.

Lemma quot_range a b : 0 <= a → 0 < b → 0 <= a ÷ b <= a.
Proof. intros. Z.to_euclidean_division_equations; nia. Qed.

(** Run times whose products with a value fit a [long]: below 2^56 ms for the
    decay, below 2^28 ms (three days) for the squared excess of the penalty. *)
Lemma reduced_value_range rate v :
  0 <= v <= H → 0 <= rate < 2 ^ 56 →
  0 <= reduced_value rate v <= Z.max v 10 ∧
  (0 < v → reduced_value rate v <= v) ∧ (v = 0 → reduced_value rate v = 10).
Proof.
  intros Hv Hr. apply drop_range; [done|].
  rewrite wrap64_small by (sane; change (2 ^ 56) with 72057594037927936 in *; nia).
  pose proof (quot_range (rate * v) 100). nia.
Qed.

Lemma penalized_value_range used ctime v :
  0 <= v <= H → - 2 ^ 28 < used - ctime < 2 ^ 28 →
  0 <= penalized_value used ctime v <= Z.max v 10 ∧
  (0 < v → penalized_value used ctime v <= v) ∧
  (v = 0 → penalized_value used ctime v = 10).
Proof.
  intros Hv Hd. unfold penalized_value.
  change (2 ^ 28) with 268435456 in *.
  rewrite (wrap64_small (used - ctime)) by (sane; lia).
  set (d := used - ctime) in *. assert (0 <= d * d <= 2 ^ 56) by nia.
  rewrite (wrap64_small (d * d)) by (sane; change (2 ^ 56) with 72057594037927936 in *; lia).
  apply drop_range; [done|].
  rewrite wrap64_small by (sane; change (2 ^ 56) with 72057594037927936 in *; nia).
  pose proof (quot_range (d * d * v) 100). nia.
Qed.

(** C8: The initial value of a task, for parameters in range: the computation never
    divides by zero nor overflows; the value is [H] when the task is expected to
    complete before its first deadline, 0 when after its second, linear in
    between, and a task that starts later does not get a greater value. *)
Theorem init_value_correct first first' ctime d1 d2 :
  sane_params first ctime d1 d2 → sane_params first' ctime d1 d2 → first <= first' →
  ∃ v v', init_value first ctime d1 d2 = Some v ∧ init_value first' ctime d1 d2 = Some v' ∧
    0 <= v' <= v ∧ v <= H ∧
    (first + ctime < d1 * K → v = H) ∧ (d2 * K < first + ctime → v = 0) ∧
    (d1 * K <= first + ctime <= d2 * K → v = (d2 * K - (first + ctime)) * H / ((d2 - d1) * K)).
Proof.
  intros Hp Hp' Hle. exists (value_spec (first + ctime) d1 d2), (value_spec (first' + ctime) d1 d2).
  assert (d1 < d2) by (sane; lia). pose proof (value_spec_range (first' + ctime) d1 d2).
  pose proof (value_spec_range (first + ctime) d1 d2).
  pose proof (value_spec_antitone (first + ctime) (first' + ctime) d1 d2).
  split_and!; [by apply init_value_spec|by apply init_value_spec|lia|lia|lia|..];
    unfold value_spec; intros; repeat case_match; sane; lia.
Qed.

(** C10: A slice is between 10 ms and a second, and grows with the value: by about a
    millisecond per point on the range of values. *)
Theorem time_slice_correct v w :
  v <= w →
  10 <= time_slice v ∧ time_slice v <= time_slice w ∧ time_slice w <= K ∧
  (0 <= v <= H → 10 + v - 1 <= time_slice v <= 10 + v).
Proof.
  intros Hvw. pose proof (time_slice_bounds v). pose proof (time_slice_bounds w).
  pose proof (time_slice_monotone v w Hvw). split_and!; try lia.
  all: intros; unfold time_slice, K, H in *; repeat case_match; Z.to_euclidean_division_equations; lia.
Qed.

(** Decay at the end of a slice and the penalty for exceeding the declared time, for
    run times in range: the value never grows, except that a task at 0 is lifted to
    10, and stays between 0 and the greater of both. *)
Theorem value_decay rate used ctime v :
  0 <= v <= H → 0 <= rate < 2 ^ 56 → - 2 ^ 28 < used - ctime < 2 ^ 28 →
  0 <= reduced_value rate v <= Z.max v 10 ∧ 0 <= penalized_value used ctime v <= Z.max v 10 ∧
  (0 < v → reduced_value rate v <= v ∧ penalized_value used ctime v <= v) ∧
  (v = 0 → reduced_value rate v = 10 ∧ penalized_value used ctime v = 10).
Proof.
  intros Hv Hr Hd. pose proof (reduced_value_range rate v Hv Hr).
  pose proof (penalized_value_range used ctime v Hv Hd). naive_solver.
Qed.

(** Outside that range the arithmetic wraps around: after 84 hours of run time the
    penalty raises a value of 100 to about 9 * 10^16, and a real-time clock set back
    between two switches makes the decay raise the value. *)
Theorem value_overflow :
  penalized_value 303801000 1000 100 = 92173000737095616 ∧ reduced_value (-5) 100 = 105.
Proof. by split. Qed.
