(* ===== verification/HvfClass.v ===== *)
(** The operations of the Highest Value First scheduling class
    (kernel/sched/hvf.c) on the run queue of a CPU: enqueue, dequeue, pick,
    switching tasks in and out, the tick, preemption on wake-up, class changes,
    fork and exit. *)
From S2P Require Import Prelude Rbtree KState HvfValue.

(** Kernel configuration: the tick period in nanoseconds (jiffies.h). *)
Class TickConfig := { TICK_NSEC : Z }.

(** [e->curr_sched_value] of every entity. *)
Definition value_of (s : kstate) (p : tid) : Z :=
  match k_tasks s !! p with Some t => curr_sched_value (hvf t) | None => 0 end.

Section ops.
Context {L : RbLib} {TC : TickConfig}.

Definition upd_hvf_rq (c : Z) (f : hvf_rq → hvf_rq) : M unit :=
  upd_rq c (λ r, r <| rq_hvf ::= f |>).
Definition upd_se (p : tid) (f : sched_hvf_entity → sched_hvf_entity) : M unit :=
  upd_task p (λ t, t <| hvf ::= f |>).

Definition init_hvf_rq (h : hvf_rq) : hvf_rq :=
  h <| hvf_task_queue := RbNull |> <| max_value_entity := None |>
    <| hvf_curr := None |> <| nr_hvf_queued := 0 |>.

Definition hvf_rq_empty (h : hvf_rq) : bool := RB_EMPTY_ROOT (hvf_task_queue h).

Definition pick_entity_hvf (h : hvf_rq) : option tid := max_value_entity h.

Definition pick_task_hvf (c : Z) : M (option tid) :=
  r ← cpu_rq c;
  if hvf_rq_empty (rq_hvf r) then mret (Some (idle r))
  else se ← deref (pick_entity_hvf (rq_hvf r)); mret (Some se).

Definition enqueue_hvf_entity (c : Z) (se : tid) : M unit :=
  exceeded ← exceeded_time se;
  when exceeded (t ← task se; penalty_hvf_entity se (computation_time t);; skip);;
  key ← get value_of;
  upd_hvf_rq c (λ h,
    h <| hvf_task_queue ::= λ root, hvf_rq_rbtree_insert key root se |>
      <| nr_hvf_queued ::= λ n, u32 (n + 1) |>);;
  upd_se se (λ e, e <| se_on_rq := true |>);;
  r ← cpu_rq c;
  match max_value_entity (rq_hvf r) with
  | None =>
      upd_hvf_rq c (λ h, h <| max_value_entity := rb_last (hvf_task_queue h) |>)
  | Some max_entity =>
      tm ← task max_entity;
      tp ← task se;
      when (curr_sched_value (hvf tm) <? curr_sched_value (hvf tp))
        (upd_hvf_rq c (λ h,
           h <| max_value_entity := rb_next max_entity (hvf_task_queue h) |>))
  end.

(** The first half of [enqueue_task_hvf]: recompute the value of the task. *)
Definition refresh_value (p : tid) (flags : Z) : M unit :=
  if has flags (Z.lor ENQUEUE_INITIAL ENQUEUE_CHANGED) then
    give_default_hvf_values p;;
    init_sched_hvf_entity p;;
    compute_init_sched_value p;;
    skip
  else
    when (has flags (Z.lor ENQUEUE_WAKEUP (Z.lor ENQUEUE_MIGRATED ENQUEUE_RESTORE)))
      (compute_init_sched_value p;; skip).

Definition enqueue_task_hvf (c : Z) (p : tid) (flags : Z) : M unit :=
  refresh_value p flags;;
  r ← cpu_rq c;
  t ← task p;
  when (bool_decide (hvf_curr (rq_hvf r) ≠ Some p) && negb (se_on_rq (hvf t)))
    (enqueue_hvf_entity c p;;
     upd_rq c (λ r, r <| nr_running ::= λ n, u32 (n + 1) |>)).

Definition dequeue_hvf_entity (c : Z) (se : tid) : M bool :=
  upd_hvf_rq c (λ h,
    h <| max_value_entity :=
           if bool_decide (max_value_entity h = Some se)
           then rb_prev se (hvf_task_queue h) else max_value_entity h |>);;
  upd_hvf_rq c (λ h,
    h <| hvf_task_queue ::= rb_erase se |> <| nr_hvf_queued ::= λ n, u32 (n - 1) |>);;
  upd_se se (λ e, e <| se_on_rq := false |>);;
  mret true.

Definition task_is_running (t : task_struct) : bool := __state t =? TASK_RUNNING.

Definition dequeue_task_hvf (c : Z) (p : tid) (flags : Z) : M bool :=
  r ← cpu_rq c;
  t ← task p;
  if bool_decide (hvf_curr (rq_hvf r) ≠ Some p) && se_on_rq (hvf t) then
    result ← dequeue_hvf_entity c p;
    upd_rq c (λ r, r <| nr_running ::= λ n, u32 (n - 1) |>);;
    mret result
  else if bool_decide (hvf_curr (rq_hvf r) = Some p) && negb (task_is_running t) then
    result ← (if se_on_rq (hvf t) then dequeue_hvf_entity c p else mret true);
    upd_rq c (λ r, r <| nr_running ::= λ n, u32 (n - 1) |>);;
    upd_hvf_rq c (λ h, h <| hvf_curr := None |>);;
    mret result
  else mret false.

Definition set_next_hvf_entity (c : Z) (se : tid) : M unit :=
  t ← task se;
  when (se_on_rq (hvf t)) (dequeue_hvf_entity c se;; skip);;
  update_latest_se_hvf se;;
  upd_hvf_rq c (λ h, h <| hvf_curr := Some se |>).

Definition set_next_task_hvf (c : Z) (p : tid) (first : bool) : M unit :=
  if negb first then skip else set_next_hvf_entity c p.

Definition switching_to_hvf (c : Z) (p : tid) : M unit := give_default_hvf_values p.
Definition switched_to_hvf (c : Z) (p : tid) : M unit := skip.
Definition switched_from_hvf (c : Z) (p : tid) : M unit := clear_hvf_values p.

Definition task_tick_hvf (c : Z) (p : tid) (queued : Z) : M unit :=
  t ← task p;
  let slice := time_slice (curr_sched_value (hvf t)) in
  upd_se p (λ e, e <| runtime := wrap64 (runtime e + TICK_NSEC) |>);;
  t ← task p;
  when (wrap64 (wrap64 (slice * K) * K) <=? runtime (hvf t))
    (upd_se p (λ e, e <| slice_expired := true |>);;
     resched_curr c).

Definition register_entity_info (p : tid) (pid : Z) : M unit :=
  t ← task p;
  now ← ktime_get_real_ts64;
  let se := hvf t in
  let turnaround_time := wrap64 (ts_ms now - first_time se) in
  let wait_time := wrap64 (turnaround_time - time_used se) in
  let response_time := wrap64 (cpu_first_answer se - first_time se) in
  trace_printk (hvf_task_terminated pid (init_sched_value se) turnaround_time wait_time
                  (time_used se) response_time).

Definition task_dead_hvf (p : tid) : M unit :=
  t ← task p;
  register_entity_info p (pid t);;
  t ← task p;
  let c := cpu t in
  when (se_on_rq (hvf t)) (dequeue_hvf_entity c p;; skip);;
  upd_hvf_rq c (λ h, h <| hvf_curr := None |>).

Definition task_fork_hvf (p : tid) : M unit := clear_hvf_values p.

Definition put_prev_hvf_entity (c : Z) (se : tid) : M unit :=
  t ← task se;
  when (negb (se_on_rq (hvf t))) (enqueue_hvf_entity c se);;
  upd_hvf_rq c (λ h, h <| hvf_curr := None |>).

Definition put_prev_task_hvf (c : Z) (prev : tid) (next : option tid) : M unit :=
  update_used_se_hvf prev;;
  t ← task prev;
  when (task_is_running t)
    (when (slice_expired (hvf t))
       (reduce_sched_value prev;;
        upd_se prev (λ e, e <| slice_expired := false |>));;
     put_prev_hvf_entity c prev).

Definition wakeup_preempt_hvf (c : Z) (p : tid) (flags : Z) : M unit :=
  cur ← current;
  tc ← task cur;
  when (bool_decide (sched_class tc = hvf_sched_class))
    (exceeded ← exceeded_time cur;
     tp ← task p;
     when (exceeded && (curr_sched_value (hvf tc) <? curr_sched_value (hvf tp)))
       (resched_curr c)).

(** [sched_hvf_runnable] (sched.h) and [balance_hvf]. *)
Definition sched_hvf_runnable (r : rq) : bool := 0 <? nr_hvf_queued (rq_hvf r).
Definition balance_hvf (c : Z) (prev : tid) : M bool :=
  r ← cpu_rq c; mret (sched_hvf_runnable r).
End ops.
