(* ===== verification/HvfInv.v ===== *)
(** The run-queue invariant of the HVF class and what each queue operation does
    to the abstract queue: a sequence of tasks in increasing value order, whose
    last element is the next task to run. *)
From S2P Require Import Prelude Rbtree KState HvfValue HvfClass.

(** * The invariant *)

(** What the invariant sees of a task: its value, whether it is queued, and its
    CPU. *)
Definition entview : Type := Z * bool * Z.
Definition view_task (t : task_struct) : entview :=
  (curr_sched_value (hvf t), se_on_rq (hvf t), cpu t).
Definition ent (s : kstate) (p : tid) : option entview := view_task <$> k_tasks s !! p.
Definition hq (s : kstate) (c : Z) : option hvf_rq := rq_hvf <$> k_rqs s !! c.

(** The abstract queue of a CPU. *)
Definition queue (h : hvf_rq) : list tid := inorder (hvf_task_queue h).
Definition queue_of (s : kstate) (c : Z) : list tid :=
  match hq s c with Some h => queue h | None => [] end.

Definition key_of (e : tid → option entview) (p : tid) : Z :=
  match e p with Some (v, _, _) => v | None => 0 end.

Lemma value_of_key s p : value_of s p = key_of (ent s) p.
Proof. unfold value_of, key_of, ent. by destruct (k_tasks s !! p). Qed.

(** The run queue [h] of CPU [c] among the tasks [e]. *)
Record queue_ok (e : tid → option entview) (c : Z) (h : hvf_rq) : Prop := {
  q_nodup : NoDup (queue h);
  q_sorted : StronglySorted (key_le (key_of e)) (queue h);
  q_max : max_value_entity h = last (queue h);
  q_count : nr_hvf_queued h = u32 (Z.of_nat (length (queue h)));
  q_mem p : p ∈ queue h → ∃ v, e p = Some (v, true, c) ∧ 0 <= v <= H;
  q_all p v : e p = Some (v, true, c) → p ∈ queue h;
  q_curr p : hvf_curr h = Some p → ∃ v, e p = Some (v, false, c);
}.

Definition hvf_inv (s : kstate) : Prop :=
  ∀ c h, hq s c = Some h → queue_ok (ent s) c h.

Lemma key_range e c h p : queue_ok e c h → p ∈ queue h → 0 <= key_of e p <= H.
Proof. intros Hq Hp. destruct (q_mem _ _ _ Hq p Hp) as (v&He&?). unfold key_of. by rewrite He. Qed.

(** ** The invariant only depends on the views *)

Lemma queue_ok_ext e e' c h :
  (∀ p, e' p = e p) → queue_ok e c h → queue_ok e' c h.
Proof.
  intros He [? Hs ? ? Hm Ha Hc]. split; [done| |done|done|..].
  - eapply sorted_ext, Hs. intros. unfold key_of. by rewrite He.
  - intros p Hp. rewrite He. auto.
  - intros p v. rewrite He. apply Ha.
  - intros p Hp. rewrite He. auto.
Qed.

Lemma hvf_inv_ext s s' :
  (∀ p, ent s' p = ent s p) → (∀ c, hq s' c = hq s c) → hvf_inv s → hvf_inv s'.
Proof. intros He Hh Hi c h. rewrite Hh. intros ?%Hi. by eapply queue_ok_ext. Qed.

Lemma not_queued e c h p v c0 :
  queue_ok e c h → e p = Some (v, false, c0) → p ∉ queue h.
Proof. intros Hok Hp Hq. destruct (q_mem _ _ _ Hok p Hq) as (?&?&?). congruence. Qed.

Lemma not_here e c h p v b c0 :
  queue_ok e c h → c0 ≠ c → e p = Some (v, b, c0) → p ∉ queue h.
Proof. intros Hok Hc Hp Hq. destruct (q_mem _ _ _ Hok p Hq) as (?&?&?). congruence. Qed.

(** Changing one task that is not, and does not come to be, in this queue. *)
Lemma queue_ok_frame e e' c h p :
  queue_ok e c h → p ∉ queue h → (∀ v, e' p ≠ Some (v, true, c)) →
  (hvf_curr h = Some p → ∃ v, e' p = Some (v, false, c)) →
  (∀ p', p' ≠ p → e' p' = e p') → queue_ok e' c h.
Proof.
  intros [? Hs ? ? Hm Ha Hc] Hnq Hno Hcur Hne.
  assert (∀ q, q ∈ queue h → e' q = e q) as Heq by (intros q Hq; apply Hne; congruence).
  split; [done| |done|done|..].
  - eapply sorted_ext, Hs. intros q Hq. unfold key_of. by rewrite Heq.
  - intros q Hq. rewrite Heq by done. auto.
  - intros q v0 Hq. destruct (decide (q = p)) as [->|]; [by apply Hno in Hq|].
    eapply Ha. by rewrite <-Hne.
  - intros q Hq. destruct (decide (q = p)) as [->|]; [auto|rewrite Hne by done; auto].
Qed.

(** Changing the value of a task that is not queued. *)
Lemma queue_ok_other e e' c h p v v' c0 :
  queue_ok e c h → e p = Some (v, false, c0) → e' p = Some (v', false, c0) →
  (∀ p', p' ≠ p → e' p' = e p') → queue_ok e' c h.
Proof.
  intros Hok Hp Hp' Hne. eapply queue_ok_frame; eauto using not_queued; [congruence|].
  intros Hq. destruct (q_curr _ _ _ Hok p Hq). simplify_eq. eauto.
Qed.

(** A task of another CPU enters or leaves that CPU's queue. *)
Lemma queue_ok_remote e e' c h p v b c0 v' b' :
  queue_ok e c h → c0 ≠ c → e p = Some (v, b, c0) → e' p = Some (v', b', c0) →
  (∀ p', p' ≠ p → e' p' = e p') → queue_ok e' c h.
Proof.
  intros Hok Hcc Hp Hp' Hne. eapply queue_ok_frame; eauto using not_here; [congruence|].
  intros Hq. destruct (q_curr _ _ _ Hok p Hq). congruence.
Qed.

(** * Queue operations on one run queue *)

Section pure.
Context {L : RbLib} `{!RbLaws L}.

(** The run queue after [enqueue_hvf_entity], given the values [key]. *)
Definition enq (key : tid → Z) (p : tid) (h : hvf_rq) : hvf_rq :=
  let h1 := h <| hvf_task_queue ::= λ root, hvf_rq_rbtree_insert key root p |>
              <| nr_hvf_queued ::= λ n, u32 (n + 1) |> in
  match max_value_entity h with
  | None => h1 <| max_value_entity := rb_last (hvf_task_queue h1) |>
  | Some m =>
      if key m <? key p
      then h1 <| max_value_entity := rb_next m (hvf_task_queue h1) |> else h1
  end.

Lemma enq_ext key key' p h : (∀ q, key q = key' q) → enq key p h = enq key' p h.
Proof.
  intros Hk. unfold enq, hvf_rq_rbtree_insert, upd. cbn.
  rewrite (rb_walk_link_ext key key') by done.
  destruct (max_value_entity h); [by rewrite !Hk|done].
Qed.

Lemma enq_tree key p h :
  hvf_task_queue (enq key p h) = hvf_rq_rbtree_insert key (hvf_task_queue h) p.
Proof. unfold enq. destruct (max_value_entity h); [by destruct (_ <? _)|done]. Qed.
Lemma enq_count key p h : nr_hvf_queued (enq key p h) = u32 (nr_hvf_queued h + 1).
Proof. unfold enq. destruct (max_value_entity h); [by destruct (_ <? _)|done]. Qed.
Lemma enq_curr key p h : hvf_curr (enq key p h) = hvf_curr h.
Proof. unfold enq. destruct (max_value_entity h); [by destruct (_ <? _)|done]. Qed.

Lemma u32_add1 n : u32 (u32 n + 1) = u32 (n + 1).
Proof. pow_lia. Qed.
Lemma u32_sub1 n : u32 (u32 n - 1) = u32 (n - 1).
Proof. pow_lia. Qed.

Lemma enq_queue_ok e e' c h p v0 v :
  queue_ok e c h → e p = Some (v0, false, c) → hvf_curr h ≠ Some p →
  e' p = Some (v, true, c) → 0 <= v <= H → (∀ p', p' ≠ p → e' p' = e p') →
  queue_ok e' c (enq (key_of e') p h) ∧
  queue (enq (key_of e') p h) = ins (key_of e') p (queue h).
Proof.
  intros Hok Hp Hcur Hp' Hv Hne.
  destruct Hok as [Hnd Hs Hmax Hcnt Hm Ha Hc].
  assert (p ∉ queue h) as Hnq by (intros Hq; destruct (Hm p Hq) as (?&?&?); congruence).
  assert (∀ q, q ∈ queue h → e' q = e q) as Heq by (intros q Hq; apply Hne; congruence).
  assert (StronglySorted (key_le (key_of e')) (queue h)) as Hs'.
  { eapply sorted_ext, Hs. intros q Hq. unfold key_of. by rewrite Heq. }
  assert (key_of e' p = v) as Hkp by (unfold key_of; by rewrite Hp').
  assert (inorder (hvf_rq_rbtree_insert (key_of e') (hvf_task_queue h) p)
          = ins (key_of e') p (queue h)) as Hins.
  { apply hvf_insert_inorder; try done. intros q Hq.
    destruct (Hm q Hq) as (w&Hw&?). unfold key_of at 2. rewrite Heq, Hw, Hkp by done.
    sane; lia. }
  assert (queue (enq (key_of e') p h) = ins (key_of e') p (queue h)) as Hqueue.
  { by rewrite <-Hins, <-enq_tree. }
  split; [|done].
  assert (NoDup (ins (key_of e') p (queue h))) as Hnd'
    by (rewrite ins_perm; by constructor).
  split; rewrite ?Hqueue; [done|by apply ins_sorted|..].
  - pose proof (last_ins (key_of e') p (queue h) Hs') as Hlast.
    unfold enq. rewrite Hmax. destruct (last (queue h)) as [m|] eqn:Hl; cbn.
    + destruct (key_of e' m <? key_of e' p); cbn; [|by rewrite Hlast].
      rewrite Hlast in Hnd' |- *.
      rewrite rb_next_inorder; rewrite Hins, Hlast; [| |done].
      2:{ apply elem_of_app. left. by apply last_Some_elem_of. }
      rewrite last_snoc. apply last_Some in Hl as (l'&Hl). rewrite Hl, <-app_assoc.
      apply (next_of_app m l' [p]). rewrite Hl in Hnd.
      apply NoDup_app in Hnd. set_solver.
    + by rewrite rb_last_inorder, Hins.
  - replace (nr_hvf_queued (enq (key_of e') p h)) with (u32 (nr_hvf_queued h + 1))
      by by rewrite enq_count.
    rewrite ins_perm, Hcnt, u32_add1. cbn. f_equal. lia.
  - intros q. rewrite elem_of_ins. intros [->|Hq]; [eauto|]. rewrite Heq by done. auto.
  - intros q w Hq. rewrite elem_of_ins. destruct (decide (q = p)) as [|]; [by left|].
    right. eapply Ha. by rewrite <-Hne.
  - rewrite enq_curr. intros q Hq. rewrite Hne by congruence. auto.
Qed.

(** The run queue after [dequeue_hvf_entity]. *)
Definition deq (p : tid) (h : hvf_rq) : hvf_rq :=
  h <| max_value_entity :=
         if bool_decide (max_value_entity h = Some p)
         then rb_prev p (hvf_task_queue h) else max_value_entity h |>
    <| hvf_task_queue ::= rb_erase p |> <| nr_hvf_queued ::= λ n, u32 (n - 1) |>.

Lemma deq_queue_ok e e' c h p v :
  queue_ok e c h → e p = Some (v, true, c) →
  e' p = Some (v, false, c) → (∀ p', p' ≠ p → e' p' = e p') →
  queue_ok e' c (deq p h) ∧ queue (deq p h) = remove_elem p (queue h).
Proof.
  intros Hok Hp Hp' Hne. destruct Hok as [Hnd Hs Hmax Hcnt Hm Ha Hc].
  assert (p ∈ queue h) as Hpq by eauto.
  assert (queue (deq p h) = remove_elem p (queue h)) as Hqueue
    by by apply rb_erase_inorder.
  split; [|done].
  split; rewrite ?Hqueue; [by apply remove_elem_NoDup|..].
  - apply remove_elem_sorted. eapply sorted_ext, Hs. intros q _.
    unfold key_of. destruct (decide (q = p)) as [->|]; [by rewrite Hp, Hp'|by rewrite Hne].
  - cbn. rewrite Hmax. case_bool_decide as Hl.
    + rewrite rb_prev_inorder by done. fold (queue h).
      apply last_Some in Hl as (l'&Hl). rewrite Hl in *.
      assert (p ∉ l') by (apply NoDup_app in Hnd; set_solver).
      rewrite prev_of_snoc, remove_elem_app, remove_elem_notin, remove_elem_hd by done.
      by rewrite app_nil_r.
    + destruct (last (queue h)) as [m|] eqn:Hlast.
      * symmetry. apply last_remove_ne; [done|congruence].
      * apply last_None in Hlast. rewrite Hlast in Hpq. by apply not_elem_of_nil in Hpq.
  - cbn. rewrite Hcnt, u32_sub1. f_equal.
    rewrite (remove_elem_length p (queue h)) by done. lia.
  - intros q [Hqp Hq]%elem_of_remove. rewrite Hne by done. auto.
  - intros q w Hq. apply elem_of_remove.
    destruct (decide (q = p)) as [->|]; [congruence|]. split; [done|].
    eapply Ha. by rewrite <-Hne.
  - intros q Hq. destruct (decide (q = p)) as [->|]; [eauto|]. rewrite Hne by done. auto.
Qed.

(** Setting or clearing the running entity. *)
Lemma curr_queue_ok e c h o :
  queue_ok e c h → (∀ p, o = Some p → ∃ v, e p = Some (v, false, c)) →
  queue_ok e c (h <| hvf_curr := o |>).
Proof. intros [? ? ? ? ? ? ?] Ho. by split. Qed.
End pure.

(** * States with the same HVF data *)

Record same_hvf (s s' : kstate) : Prop := {
  sh_ent p : ent s' p = ent s p;
  sh_hq c : hq s' c = hq s c;
}.
#[export] Instance same_hvf_equiv : Equivalence same_hvf.
Proof.
  split; [by split|intros ? ? []; split; congruence|].
  intros ? ? ? [H1 H2] [H3 H4]. split; intros; by rewrite ?H3, ?H4.
Qed.
Lemma same_hvf_inv s s' : same_hvf s s' → hvf_inv s → hvf_inv s'.
Proof. intros [He Hh]. by apply hvf_inv_ext. Qed.
Lemma same_hvf_queue s s' c : same_hvf s s' → queue_of s' c = queue_of s c.
Proof. intros [_ Hh]. unfold queue_of. by rewrite Hh. Qed.
Lemma same_hvf_value s s' p : same_hvf s s' → value_of s' p = value_of s p.
Proof. intros [He _]. rewrite !value_of_key. unfold key_of. by rewrite He. Qed.

Lemma same_hvf_task s p t t' :
  k_tasks s !! p = Some t → view_task t' = view_task t →
  same_hvf s (s <| k_tasks := <[p := t']> (k_tasks s) |>).
Proof.
  intros Ht Hv. split; [|done]. intros q. unfold ent. cbn.
  destruct (decide (p = q)) as [->|]; [|by rewrite lookup_insert_ne].
  rewrite lookup_insert_eq, Ht. cbn. by rewrite Hv.
Qed.
Lemma same_hvf_rq s c r r' :
  k_rqs s !! c = Some r → rq_hvf r' = rq_hvf r →
  same_hvf s (s <| k_rqs := <[c := r']> (k_rqs s) |>).
Proof.
  intros Hr Hv. split; [done|]. intros c'. unfold hq. cbn.
  destruct (decide (c = c')) as [->|]; [|by rewrite lookup_insert_ne].
  rewrite lookup_insert_eq, Hr. cbn. by rewrite Hv.
Qed.
