(* ===== verification/HvfOps.v ===== *)
(** What each operation of the HVF class does to the kernel state, and that the
    run-queue invariant survives it. *)
From S2P Require Import Prelude Rbtree KState HvfValue HvfClass HvfInv.

(** * Exact effect of the queue operations *)

(** The value with which an entity enters the queue: penalized when the declared
    computation time is exceeded. *)
Definition entry_value (t : task_struct) : Z :=
  if computation_time t <? time_used (hvf t)
  then penalized_value (time_used (hvf t)) (computation_time t) (curr_sched_value (hvf t))
  else curr_sched_value (hvf t).

Definition queued_task (t : task_struct) : task_struct :=
  t <| hvf ::= λ se, se <| curr_sched_value := entry_value t |> <| se_on_rq := true |> |>.
Definition unqueued_task (t : task_struct) : task_struct :=
  t <| hvf ::= λ se, se <| se_on_rq := false |> |>.

Section exact.
Context {L : RbLib} `{!RbLaws L} {TC : TickConfig}.

Definition enq_state (s : kstate) (c : Z) (p : tid) (r : rq) (t : task_struct) : kstate :=
  let s1 := s <| k_tasks ::= <[p := queued_task t]> |> in
  s1 <| k_rqs ::= <[c := r <| rq_hvf := enq (value_of s1) p (rq_hvf r) |>]> |>.
Definition deq_state (s : kstate) (c : Z) (p : tid) (r : rq) (t : task_struct) : kstate :=
  s <| k_tasks ::= <[p := unqueued_task t]> |>
    <| k_rqs ::= <[c := r <| rq_hvf := deq p (rq_hvf r) |>]> |>.

Lemma value_of_insert s p t q :
  value_of (s <| k_tasks ::= <[p := t]> |>) q =
  if decide (q = p) then curr_sched_value (hvf t) else value_of s q.
Proof.
  unfold value_of. cbn. case_decide; subst;
    [by rewrite lookup_insert_eq|by rewrite lookup_insert_ne].
Qed.

Lemma value_of_lookup s p t : k_tasks s !! p = Some t → value_of s p = curr_sched_value (hvf t).
Proof. unfold value_of. by intros ->. Qed.

Lemma wp_dequeue_hvf_entity s c p r t Q :
  k_rqs s !! c = Some r → k_tasks s !! p = Some t →
  Q true (deq_state s c p r t) → wp (dequeue_hvf_entity c p) s Q.
Proof.
  intros Hr Ht HQ. unfold dequeue_hvf_entity, upd_hvf_rq, upd_se. wp_steps.
  replace (deq_state s c p r t) with
    ((s <| k_rqs := <[c := r <| rq_hvf := deq p (rq_hvf r) |>]> (k_rqs s) |>)
       <| k_tasks := <[p := unqueued_task t]> (k_tasks s) |>) in HQ by done.
  unfold upd in *. cbn in *. rewrite insert_insert_eq. exact HQ.
Qed.

(** The penalty step of an enqueue, as one update of the task. *)
Lemma wp_entry_penalty s p t Q :
  k_tasks s !! p = Some t →
  Q tt (s <| k_tasks ::= <[p := t <| hvf ::= λ se,
          se <| curr_sched_value := entry_value t |> |>]> |>) →
  wp (when (computation_time t <? time_used (hvf t))
        (t ← task p; penalty_hvf_entity p (computation_time t);; skip)) s Q.
Proof.
  intros Ht HQ. unfold penalty_hvf_entity. unfold entry_value in HQ. apply wp_when; intros Hx; rewrite Hx in HQ.
  - wp_steps. exact HQ.
  - assert (t <| hvf ::= λ se, se <| curr_sched_value := curr_sched_value (hvf t) |> |> = t)
      as E by (by destruct t as [? ? ? ? ? ? ? ? ? ? ? ? ? ? []]).
    rewrite E in HQ. unfold upd in HQ. rewrite insert_id in HQ by done.
    by destruct s.
Qed.

Lemma wp_enqueue_hvf_entity s c p r t Q :
  k_rqs s !! c = Some r → k_tasks s !! p = Some t →
  (∀ m, max_value_entity (rq_hvf r) = Some m → is_Some (k_tasks s !! m)) →
  Q tt (enq_state s c p r t) → wp (enqueue_hvf_entity c p) s Q.
Proof.
  intros Hr Ht Hm HQ. unfold enqueue_hvf_entity, exceeded_time, upd_hvf_rq, upd_se.
  wp_steps. eapply wp_entry_penalty; [done|].
  set (t1 := t <| hvf ::= λ se, se <| curr_sched_value := entry_value t |> |>).
  set (s1 := s <| k_tasks ::= <[p := t1]> |>).
  assert (k_tasks s1 !! p = Some t1) as Ht1 by apply lookup_insert_eq.
  assert (k_rqs s1 !! c = Some r) as Hr1 by done.
  wp_steps. cbn [rq_hvf max_value_entity upd].
  set (key := value_of s1).
  assert (∀ q, value_of (s <| k_tasks ::= <[p := queued_task t]> |>) q = key q) as Hkey.
  { intros q. subst key. unfold s1. by rewrite !value_of_insert. }
  unfold enq_state in HQ. cbn zeta in HQ. rewrite (enq_ext _ key) in HQ by done.
  unfold enq in HQ. cbn [max_value_entity upd hvf_task_queue] in HQ |- *.
  destruct (max_value_entity (rq_hvf r)) as [m|] eqn:Hmax.
  - match goal with |- wp _ ?S Q => set (s2 := S) end.
    assert (s2 <| k_rqs := k_rqs s |> = s <| k_tasks ::= <[p := queued_task t]> |>) as Hs2.
    { subst s2 s1. unfold upd. cbn. by rewrite insert_insert_eq. }
    assert (∀ q, value_of s2 q = key q) as Hkey2.
    { intros q. rewrite <-Hkey, <-Hs2. done. }
    assert (is_Some (k_tasks s2 !! m)) as [tm Htm].
    { change (is_Some (k_tasks (s2 <| k_rqs := k_rqs s |>) !! m)). rewrite Hs2. cbn.
      apply lookup_insert_is_Some'. auto. }
    assert (is_Some (k_tasks s2 !! p)) as [tp Htp].
    { subst s2. cbn. by rewrite lookup_insert_eq. }
    apply wp_bind. eapply wp_task; [done|]. apply wp_bind. eapply wp_task; [done|].
    rewrite <-(value_of_lookup _ _ _ Htm), <-(value_of_lookup _ _ _ Htp), !Hkey2.
    apply wp_when; intros Hlt; rewrite Hlt in HQ.
    + eapply wp_upd_rq; [subst s2; cbn; by rewrite lookup_insert_eq|].
      subst s2 s1. unfold upd in *. cbn in *. by rewrite !insert_insert_eq.
    + subst s2 s1. unfold upd in *. cbn in *. by rewrite !insert_insert_eq.
  - wp_steps. subst s1. unfold upd in *. cbn in *. by rewrite !insert_insert_eq.
Qed.
End exact.

(** * The invariant across the queue operations *)

Section preserve.
Context {L : RbLib} `{!RbLaws L} {TC : TickConfig}.

Lemma ent_insert s p t q :
  ent (s <| k_tasks ::= <[p := t]> |>) q =
  if decide (q = p) then Some (view_task t) else ent s q.
Proof.
  unfold ent. cbn. case_decide; subst;
    [by rewrite lookup_insert_eq|by rewrite lookup_insert_ne].
Qed.
Lemma hq_insert s c r c' :
  hq (s <| k_rqs ::= <[c := r]> |>) c' =
  if decide (c' = c) then Some (rq_hvf r) else hq s c'.
Proof.
  unfold hq. cbn. case_decide; subst;
    [by rewrite lookup_insert_eq|by rewrite lookup_insert_ne].
Qed.

Lemma ent_lookup s p t : k_tasks s !! p = Some t → ent s p = Some (view_task t).
Proof. unfold ent. by intros ->. Qed.
Lemma hq_lookup s c r : k_rqs s !! c = Some r → hq s c = Some (rq_hvf r).
Proof. unfold hq. by intros ->. Qed.

(** A change to one run queue and one task of that CPU. *)
Lemma hvf_inv_step s s' c p r v b t' h' :
  hvf_inv s → k_rqs s !! c = Some r → ent s p = Some (v, b, c) →
  (∀ q, ent s' q = if decide (q = p) then Some (view_task t') else ent s q) →
  (∀ c', hq s' c' = if decide (c' = c) then Some h' else hq s c') →
  cpu t' = c → queue_ok (ent s') c h' → hvf_inv s'.
Proof.
  intros Hi Hr Hp He Hh Hc Hok c' h. rewrite Hh. case_decide; [by intros; simplify_eq|].
  intros Hq. subst c. eapply queue_ok_remote; [by apply Hi|done|exact Hp|..].
  - by rewrite He, decide_True.
  - intros q Hqp. by rewrite He, decide_False.
Qed.

Lemma enq_state_inv s c p r t :
  hvf_inv s → k_rqs s !! c = Some r → k_tasks s !! p = Some t →
  se_on_rq (hvf t) = false → cpu t = c → hvf_curr (rq_hvf r) ≠ Some p →
  0 <= entry_value t <= H →
  hvf_inv (enq_state s c p r t) ∧
  queue_of (enq_state s c p r t) c =
    ins (value_of (enq_state s c p r t)) p (queue_of s c).
Proof.
  intros Hi Hr Ht Hon Hc Hcur Hv. set (s' := enq_state s c p r t).
  assert (∀ q, ent s' q = if decide (q = p) then Some (view_task (queued_task t)) else ent s q)
    as He by (intros q; apply (ent_insert s p (queued_task t) q)).
  assert (∀ c', hq s' c' = if decide (c' = c)
      then Some (enq (key_of (ent s')) p (rq_hvf r)) else hq s c') as Hh.
  { intros c'. unfold s', enq_state. cbn zeta. rewrite hq_insert. case_decide; [|done].
    cbn. f_equal. apply enq_ext. intros q. by rewrite value_of_key. }
  assert (ent s p = Some (curr_sched_value (hvf t), false, c)) as Hp.
  { by rewrite (ent_lookup _ _ _ Ht), <-Hon, <-Hc. }
  destruct (enq_queue_ok (ent s) (ent s') c (rq_hvf r) p (curr_sched_value (hvf t)) (entry_value t)) as [Hok Hq].
  { by apply Hi, hq_lookup. } { exact Hp. } { done. }
  { rewrite He, decide_True by done. by rewrite <-Hc. } { done. }
  { intros q Hqp. by rewrite He, decide_False. }
  split; [by eapply hvf_inv_step|].
  unfold queue_of at 1. rewrite Hh, decide_True, Hq by done.
  unfold queue_of. rewrite (hq_lookup _ _ _ Hr).
  apply ins_ext; intros; by rewrite value_of_key.
Qed.

Lemma deq_state_inv s c p r t :
  hvf_inv s → k_rqs s !! c = Some r → k_tasks s !! p = Some t →
  se_on_rq (hvf t) = true → cpu t = c →
  hvf_inv (deq_state s c p r t) ∧
  queue_of (deq_state s c p r t) c = remove_elem p (queue_of s c).
Proof.
  intros Hi Hr Ht Hon Hc. set (s' := deq_state s c p r t).
  assert (∀ q, ent s' q = if decide (q = p) then Some (view_task (unqueued_task t)) else ent s q)
    as He by (intros q; apply (ent_insert s p (unqueued_task t) q)).
  assert (∀ c', hq s' c' = if decide (c' = c) then Some (deq p (rq_hvf r)) else hq s c')
    as Hh by (intros c'; unfold s', deq_state; by rewrite hq_insert).
  assert (ent s p = Some (curr_sched_value (hvf t), true, c)) as Hp.
  { by rewrite (ent_lookup _ _ _ Ht), <-Hon, <-Hc. }
  destruct (deq_queue_ok (ent s) (ent s') c (rq_hvf r) p (curr_sched_value (hvf t)))
    as [Hok Hq].
  { by apply Hi, hq_lookup. } { exact Hp. }
  { rewrite He, decide_True by done. by rewrite <-Hc. }
  { intros q Hqp. by rewrite He, decide_False. }
  split; [by eapply hvf_inv_step|].
  unfold queue_of. by rewrite Hh, decide_True, Hq, (hq_lookup _ _ _ Hr).
Qed.
End preserve.
