(* ===== verification/HvfSpec.v ===== *)
(** Correctness of the HVF class: every entry point of [hvf_sched_class] that
    changes a run queue keeps the invariant, updates the abstract queue as
    specified and keeps the accounting of [rq->nr_running]. *)
From S2P Require Import Prelude Rbtree KState HvfValue HvfClass HvfInv HvfOps.

(** * Tasks with parameters of a sensible magnitude *)

(** The clock shows a date between 1970 and the year 139000. *)
Definition clock_sane (s : kstate) : Prop :=
  ∀ n, 0 <= tv_sec (k_clock s n) < 2 ^ 42 ∧ 0 <= tv_nsec (k_clock s n) < 1000000000.

(** Values in range; run times and declared times below 2^27 ms (37 hours);
    deadlines, when set, in order. *)
Record hvf_sane (t : task_struct) : Prop := {
  sane_value : 0 <= curr_sched_value (hvf t) <= H;
  sane_ctime : - 2 ^ 27 < computation_time t < 2 ^ 27;
  sane_first : 0 <= first_time (hvf t) < 2 ^ 52;
  sane_used : 0 <= time_used (hvf t) < 2 ^ 27;
  sane_pars : pars_set t = true →
    0 <= deadline_1 t < deadline_2 t ∧ deadline_2 t < 2 ^ 43;
}.

(** A task whose HVF entity and parameters may have changed, but not whether it
    is queued. *)
Definition touched (t t' : task_struct) : Prop :=
  se_on_rq (hvf t') = se_on_rq (hvf t) ∧
  ∃ e d1 d2 ct ps, t' = t <| hvf := e |> <| deadline_1 := d1 |> <| deadline_2 := d2 |>
                          <| computation_time := ct |> <| pars_set := ps |>.

Lemma touched_refl t : touched t t.
Proof.
  split; [done|]. exists (hvf t), (deadline_1 t), (deadline_2 t), (computation_time t), (pars_set t).
  by destruct t.
Qed.
Lemma touched_trans t1 t2 t3 : touched t1 t2 → touched t2 t3 → touched t1 t3.
Proof.
  intros [H1 (?&?&?&?&?&->)] [H2 (e&d1&d2&ct&ps&->)].
  split; [by rewrite H2, H1|]. exists e, d1, d2, ct, ps. reflexivity.
Qed.
Lemma touched_cpu t t' : touched t t' → cpu t' = cpu t.
Proof. by intros [_ (?&?&?&?&?&->)]. Qed.
Lemma touched_on_rq t t' : touched t t' → se_on_rq (hvf t') = se_on_rq (hvf t).
Proof. by intros [? _]. Qed.
Lemma touched_hvf t f :
  se_on_rq (f (hvf t)) = se_on_rq (hvf t) → touched t (t <| hvf ::= f |>).
Proof.
  intros Hf. split; [done|].
  by exists (f (hvf t)), (deadline_1 t), (deadline_2 t), (computation_time t), (pars_set t).
Qed.

Ltac pows := change (2 ^ 27) with 134217728 in *; change (2 ^ 28) with 268435456 in *;
  change (2 ^ 42) with 4398046511104 in *; change (2 ^ 52) with 4503599627370496 in *.

Lemma entry_value_range t : hvf_sane t → 0 <= entry_value t <= H.
Proof.
  intros [Hv Hc _ Hu _]. unfold entry_value. case_match; [|done].
  pose proof (penalized_value_range (time_used (hvf t)) (computation_time t) _ Hv).
  pows. sane. lia.
Qed.

Lemma ts_ms_range now :
  0 <= tv_sec now < 2 ^ 42 → 0 <= tv_nsec now < 1000000000 → 0 <= ts_ms now < 2 ^ 52.
Proof.
  intros. unfold ts_ms. pows.
  assert (0 <= tv_nsec now ÷ (K * K) < 1000)
    by (sane; Z.to_euclidean_division_equations; lia).
  rewrite (wrap64_small (tv_sec now * K)), wrap64_small; sane; lia.
Qed.

(** * Recomputing the value *)

Section refresh.
Context {L : RbLib} {TC : TickConfig}.

Lemma wp_compute_init s p t V Q :
  k_tasks s !! p = Some t →
  init_value (first_time (hvf t)) (computation_time t) (deadline_1 t) (deadline_2 t) = Some V →
  Q V (s <| k_tasks ::= <[p := t <| hvf ::= λ se,
        se <| init_sched_value := V |> <| curr_sched_value := V |> |>]> |>) →
  wp (compute_init_sched_value p) s Q.
Proof. intros Ht HV HQ. unfold compute_init_sched_value. wp_steps. rewrite HV. by wp_steps. Qed.

(** With ordered parameters the recomputed value is in range. *)
Lemma compute_init_sane t V :
  hvf_sane t → pars_set t = true →
  init_value (first_time (hvf t)) (computation_time t) (deadline_1 t) (deadline_2 t) = Some V →
  hvf_sane (t <| hvf ::= λ se, se <| init_sched_value := V |> <| curr_sched_value := V |> |>).
Proof.
  intros [Hv Hc Hf Hu Hp] Hset HV. destruct (Hp Hset). split; try done.
  rewrite init_value_spec in HV by (pows; sane; lia).
  injection HV as <-. apply value_spec_range. lia.
Qed.

Lemma init_value_total t :
  hvf_sane t → pars_set t = true → ∃ V,
  init_value (first_time (hvf t)) (computation_time t) (deadline_1 t) (deadline_2 t) = Some V.
Proof.
  intros [Hv Hc Hf Hu Hp] Hset. destruct (Hp Hset). eexists.
  apply init_value_spec. pows; sane; lia.
Qed.

(** The state after [p] was touched and the clock read. *)
Definition touch_state (s s' : kstate) (p : tid) (t' : task_struct) : Prop :=
  ∃ n, s' = s <| k_tasks ::= <[p := t']> |> <| k_reads := n |>.

Lemma touch_state_trans s s1 s2 p t1 t2 :
  touch_state s s1 p t1 → touch_state s1 s2 p t2 → touch_state s s2 p t2.
Proof.
  intros [n ->] [m ->]. exists m. unfold upd. cbn. by rewrite insert_insert_eq.
Qed.
Lemma touch_state_lookup s s' p t' : touch_state s s' p t' → k_tasks s' !! p = Some t'.
Proof. intros [n ->]. apply lookup_insert_eq. Qed.
Lemma touch_state_rqs s s' p t' : touch_state s s' p t' → k_rqs s' = k_rqs s.
Proof. by intros [n ->]. Qed.
Lemma touch_state_refl s p t : k_tasks s !! p = Some t → touch_state s s p t.
Proof. intros Ht. exists (k_reads s). unfold upd. cbn. rewrite insert_id by done. by destruct s. Qed.
Lemma touch_state_upd s p t' : touch_state s (s <| k_tasks ::= <[p := t']> |>) p t'.
Proof. by exists (k_reads s). Qed.
Lemma touch_state_clock s s' p t' : touch_state s s' p t' → k_clock s' = k_clock s.
Proof. by intros [n ->]. Qed.

Lemma wp_recompute s p t Q :
  k_tasks s !! p = Some t → hvf_sane t → pars_set t = true →
  (∀ s' t', touch_state s s' p t' → touched t t' → hvf_sane t' → pars_set t' = true → Q tt s') →
  wp (compute_init_sched_value p;; skip) s Q.
Proof.
  intros Ht Hs Hset HQ. destruct (init_value_total t Hs Hset) as [V HV].
  apply wp_bind. eapply wp_compute_init; [done..|]. apply wp_skip.
  eapply HQ; [apply touch_state_upd|by apply touched_hvf|by apply compute_init_sane|done].
Qed.

Lemma ts_s_range now :
  0 <= tv_sec now < 2 ^ 42 → 0 <= tv_nsec now < 1000000000 → ts_s now = tv_sec now.
Proof.
  intros. unfold ts_s. replace (tv_nsec now ÷ (K * K * K)) with 0
    by (sane; Z.to_euclidean_division_equations; lia).
  rewrite Z.add_0_r, wrap64_small; pows; sane; lia.
Qed.

Lemma wp_give_default s p t Q :
  k_tasks s !! p = Some t → hvf_sane t → clock_sane s →
  (∀ s' t', touch_state s s' p t' → touched t t' → hvf_sane t' → pars_set t' = true → Q tt s') →
  wp (give_default_hvf_values p) s Q.
Proof.
  intros Ht Hs Hclk HQ. unfold give_default_hvf_values. wp_steps.
  destruct (pars_set t) eqn:Hset.
  { wp_steps. eapply HQ; [by apply touch_state_refl|apply touched_refl|done|done]. }
  do 4 wp_step. destruct (Hclk (k_reads s)) as [Hsec Hns].
  set (now := k_clock s (k_reads s)) in *.
  set (t1 := t <| deadline_1 := wrap64 (ts_s now + 4) |> <| deadline_2 := wrap64 (ts_s now + 6) |>
               <| computation_time := K |> <| pars_set := true |>).
  assert (touched t t1) as Hto.
  { split; [done|]. by exists (hvf t), (wrap64 (ts_s now + 4)), (wrap64 (ts_s now + 6)), K, true. }
  assert (hvf_sane t1) as Hs1.
  { destruct Hs as [Hv Hc Hf Hu _]. subst t1. split; cbn; [done| |done|done|].
    - pows; sane; lia.
    - intros _. rewrite ts_s_range, !wrap64_small by (done || pows; sane; lia).
      pows; sane; lia. }
  eapply (wp_recompute _ p t1); [apply lookup_insert_eq|done|done|].
  intros s' t' Hst Hto' Hs' Hset'. eapply (HQ s' t'); [|by eauto using touched_trans|done|done].
  eapply touch_state_trans; [|exact Hst]. by exists (S (k_reads s)).
Qed.

Lemma wp_init_entity s p t Q :
  k_tasks s !! p = Some t → hvf_sane t → clock_sane s →
  (∀ s' t', touch_state s s' p t' → touched t t' → hvf_sane t' →
     pars_set t' = pars_set t → Q tt s') →
  wp (init_sched_hvf_entity p) s Q.
Proof.
  intros Ht Hs Hclk HQ. unfold init_sched_hvf_entity. wp_steps.
  destruct (Hclk (k_reads s)) as [Hsec Hns]. pose proof (ts_ms_range _ Hsec Hns).
  eapply HQ; [by exists (S (k_reads s))|by apply touched_hvf| |done].
  destruct Hs as [Hv Hc Hf Hu Hp]. split; cbn; try done; pows; lia.
Qed.

Lemma wp_refresh s p t flags Q :
  k_tasks s !! p = Some t → hvf_sane t → clock_sane s →
  pars_set t = true ∨ has flags (Z.lor ENQUEUE_INITIAL ENQUEUE_CHANGED) = true →
  (∀ s' t', touch_state s s' p t' → touched t t' → hvf_sane t' → Q tt s') →
  wp (refresh_value p flags) s Q.
Proof.
  intros Ht Hs Hclk Hset HQ. unfold refresh_value.
  destruct (has flags _) eqn:Hini.
  - apply wp_bind. eapply wp_give_default; [done..|]. intros s1 t1 Hst1 Hto1 Hs1 Hset1.
    apply wp_bind. eapply (wp_init_entity s1 p t1);
      [by eapply touch_state_lookup|done| |].
    { unfold clock_sane. by rewrite (touch_state_clock _ _ _ _ Hst1). }
    intros s2 t2 Hst2 Hto2 Hs2 Hset2.
    eapply (wp_recompute s2 p t2); [by eapply touch_state_lookup|done|congruence|].
    intros s3 t3 Hst3 Hto3 Hs3 _. eapply (HQ s3 t3); [|by eauto using touched_trans|done].
    by eauto using touch_state_trans.
  - destruct Hset as [Hset|?]; [|congruence]. apply wp_when; intros _.
    + eapply wp_recompute; [done..|]. intros. by eapply HQ.
    + eapply HQ; [by apply touch_state_refl|apply touched_refl|done].
Qed.
End refresh.

(** * The entry points *)

Section entry_points.
Context {L : RbLib} `{!RbLaws L} {TC : TickConfig}.
Implicit Types (s : kstate) (c : Z) (p : tid) (r : rq) (t : task_struct).

(** Run queues other than that of [c], and the shape of the state, are left
    alone. *)
Definition only_cpu (c : Z) (s s' : kstate) : Prop :=
  (∀ c', c' ≠ c → k_rqs s' !! c' = k_rqs s !! c') ∧
  k_clock s' = k_clock s ∧ k_cpu s' = k_cpu s.

Lemma touch_inv s s' p t t' :
  hvf_inv s → k_tasks s !! p = Some t → se_on_rq (hvf t) = false →
  touch_state s s' p t' → touched t t' →
  hvf_inv s' ∧ (∀ c, queue_of s' c = queue_of s c).
Proof.
  intros Hi Ht Hon [n ->] Hto.
  split; [|done]. intros c h Hh.
  eapply (queue_ok_other (ent s)); [by apply Hi|..].
  - by rewrite (ent_lookup _ _ _ Ht), <-Hon.
  - change (ent (s <| k_tasks ::= <[p := t']> |> <| k_reads := n |>) p)
      with (ent (s <| k_tasks ::= <[p := t']> |>) p).
    rewrite ent_insert, decide_True by done. unfold view_task.
    by rewrite (touched_on_rq _ _ Hto), (touched_cpu _ _ Hto), Hon.
  - intros q Hq. change (ent (s <| k_tasks ::= <[p := t']> |>) q = ent s q).
    by rewrite ent_insert, decide_False.
Qed.

Lemma inv_max_live s c r :
  hvf_inv s → k_rqs s !! c = Some r →
  ∀ m, max_value_entity (rq_hvf r) = Some m → is_Some (k_tasks s !! m).
Proof.
  intros Hi Hr m Hm. pose proof (Hi _ _ (hq_lookup _ _ _ Hr)) as Hok.
  rewrite (q_max _ _ _ Hok) in Hm. apply last_Some_elem_of in Hm.
  destruct (q_mem _ _ _ Hok m Hm) as (v&He&_). unfold ent in He.
  destruct (k_tasks s !! m); [eauto|done].
Qed.

(** Updating the run queue fields outside the sequence: [nr_running] and the
    running entity, which must not be queued. *)
Lemma inv_set_rq s c r r' :
  hvf_inv s → k_rqs s !! c = Some r →
  rq_hvf r' = (rq_hvf r) <| hvf_curr := hvf_curr (rq_hvf r') |> →
  (∀ p, hvf_curr (rq_hvf r') = Some p → ∃ v, ent s p = Some (v, false, c)) →
  hvf_inv (s <| k_rqs ::= <[c := r']> |>) ∧
  ∀ c', queue_of (s <| k_rqs ::= <[c := r']> |>) c' = queue_of s c'.
Proof.
  intros Hi Hr Er' Hcur. split.
  - intros c' h. rewrite hq_insert. case_decide; [|by apply Hi].
    intros [= <-]. subst c'. rewrite Er'. apply curr_queue_ok; [|done].
    eapply queue_ok_ext; [|by apply Hi, hq_lookup]. done.
  - intros c'. unfold queue_of. rewrite hq_insert. case_decide; [|done]. subst c'.
    rewrite Er', (hq_lookup _ _ _ Hr). done.
Qed.

Lemma inv_nr_running s c r f :
  hvf_inv s → k_rqs s !! c = Some r →
  let s' := s <| k_rqs ::= <[c := r <| nr_running ::= f |>]> |> in
  hvf_inv s' ∧ (∀ c', queue_of s' c' = queue_of s c').
Proof.
  intros Hi Hr. apply (inv_set_rq s c r); [done|done|by destruct r as [? ? ? ? []]|].
  cbn. intros p Hp. by apply (q_curr _ _ _ (Hi _ _ (hq_lookup _ _ _ Hr))).
Qed.

Lemma enqueue_task_hvf_spec s c p r t flags :
  hvf_inv s → clock_sane s →
  k_rqs s !! c = Some r → k_tasks s !! p = Some t → cpu t = c →
  se_on_rq (hvf t) = false → hvf_curr (rq_hvf r) ≠ Some p → hvf_sane t →
  pars_set t = true ∨ has flags (Z.lor ENQUEUE_INITIAL ENQUEUE_CHANGED) = true →
  wp (enqueue_task_hvf c p flags) s (λ _ s',
    hvf_inv s' ∧ only_cpu c s s' ∧
    queue_of s' c = ins (value_of s') p (queue_of s c) ∧
    ∃ r', k_rqs s' !! c = Some r' ∧ nr_running r' = u32 (nr_running r + 1) ∧
          hvf_curr (rq_hvf r') = hvf_curr (rq_hvf r)).
Proof.
  intros Hi Hclk Hr Ht Hc Hon Hcur Hs Hset. unfold enqueue_task_hvf.
  apply wp_bind. eapply wp_refresh; [done..|]. intros s1 t1 Hst Hto Hs1.
  destruct (touch_inv _ _ _ _ _ Hi Ht Hon Hst Hto) as [Hi1 Hq1].
  pose proof (touch_state_lookup _ _ _ _ Hst) as Ht1.
  assert (k_rqs s1 !! c = Some r) as Hr1 by by rewrite (touch_state_rqs _ _ _ _ Hst).
  pose proof (touched_on_rq _ _ Hto) as Hon1. rewrite Hon in Hon1.
  pose proof (touched_cpu _ _ Hto) as Hc1. rewrite Hc in Hc1.
  wp_steps. rewrite bool_decide_eq_true_2, Hon1 by done. cbn [negb andb when].
  apply wp_bind. eapply wp_enqueue_hvf_entity; [done|done|by eapply inv_max_live|].
  destruct (enq_state_inv s1 c p r t1) as [Hi2 Hq2];
    [done..|by apply entry_value_range|].
  eapply wp_upd_rq; [apply lookup_insert_eq|].
  match goal with |- hvf_inv ?S ∧ _ => destruct (inv_nr_running
    (enq_state s1 c p r t1) c _ (λ n, u32 (n + 1)) Hi2 (lookup_insert_eq _ _ _)) as [Hi3 Hq3] end.
  split; [exact Hi3|split; [|split]].
  - destruct Hst as [n ->]. split_and!; [|done|done]. intros c' Hne. cbn.
    by rewrite !lookup_insert_ne.
  - etrans; [apply Hq3|]. rewrite Hq2, Hq1. apply ins_ext; done.
  - eexists. split; [apply lookup_insert_eq|]. cbn. by rewrite enq_curr.
Qed.

(** A task that is being run, or already queued, is not queued again. *)
Lemma enqueue_task_hvf_running s c p r t flags :
  hvf_inv s → clock_sane s →
  k_rqs s !! c = Some r → k_tasks s !! p = Some t →
  hvf_curr (rq_hvf r) = Some p → hvf_sane t →
  pars_set t = true ∨ has flags (Z.lor ENQUEUE_INITIAL ENQUEUE_CHANGED) = true →
  wp (enqueue_task_hvf c p flags) s (λ _ s', hvf_inv s' ∧ k_rqs s' = k_rqs s ∧ only_cpu c s s').
Proof.
  intros Hi Hclk Hr Ht Hcur Hs Hset. unfold enqueue_task_hvf.
  assert (se_on_rq (hvf t) = false) as Hon.
  { destruct (q_curr _ _ _ (Hi _ _ (hq_lookup _ _ _ Hr)) p Hcur) as [v He].
    rewrite (ent_lookup _ _ _ Ht) in He. by injection He. }
  apply wp_bind. eapply wp_refresh; [done..|]. intros s1 t1 Hst Hto Hs1.
  destruct (touch_inv _ _ _ _ _ Hi Ht Hon Hst Hto) as [Hi1 _].
  pose proof (touch_state_lookup _ _ _ _ Hst) as Ht1. clear Hto.
  pose proof (touch_state_rqs _ _ _ _ Hst) as Er1.
  assert (k_rqs s1 !! c = Some r) as Hr1 by by rewrite Er1.
  wp_steps. rewrite bool_decide_eq_false_2 by naive_solver. apply wp_skip.
  split_and!; [done|done|]. destruct Hst as [n ->]. by split_and!.
Qed.

(** The queue entry of a task on its own CPU. *)
Lemma queued_here s c p r t :
  hvf_inv s → k_rqs s !! c = Some r → k_tasks s !! p = Some t → cpu t = c →
  (se_on_rq (hvf t) = true ↔ p ∈ queue_of s c).
Proof.
  intros Hi Hr Ht Hc. unfold queue_of. rewrite (hq_lookup _ _ _ Hr).
  pose proof (Hi _ _ (hq_lookup _ _ _ Hr)) as Hok. split.
  - intros Hon. eapply (q_all _ _ _ Hok p (curr_sched_value (hvf t))).
    rewrite (ent_lookup _ _ _ Ht). unfold view_task. by rewrite Hon, Hc.
  - intros Hq. destruct (q_mem _ _ _ Hok p Hq) as (v&He&_).
    rewrite (ent_lookup _ _ _ Ht) in He. by injection He.
Qed.

Lemma curr_not_queued s c p r t :
  hvf_inv s → k_rqs s !! c = Some r → k_tasks s !! p = Some t →
  hvf_curr (rq_hvf r) = Some p → se_on_rq (hvf t) = false ∧ cpu t = c.
Proof.
  intros Hi Hr Ht Hcur.
  destruct (q_curr _ _ _ (Hi _ _ (hq_lookup _ _ _ Hr)) p Hcur) as [v He].
  rewrite (ent_lookup _ _ _ Ht) in He. by injection He.
Qed.

(** [dequeue_task_hvf], every branch: a queued task leaves the queue; the
    running task leaves its CPU when it blocks; the request to dequeue a
    running task that stays runnable, or a task that is not on the run queue,
    is refused and changes nothing. *)
Lemma dequeue_task_hvf_spec s c p r t flags :
  hvf_inv s → k_rqs s !! c = Some r → k_tasks s !! p = Some t → cpu t = c →
  wp (dequeue_task_hvf c p flags) s (λ result s',
    hvf_inv s' ∧ only_cpu c s s' ∧
    ∃ r', k_rqs s' !! c = Some r' ∧
    if decide (p ∈ queue_of s c) then
      result = true ∧ queue_of s' c = remove_elem p (queue_of s c) ∧
      nr_running r' = u32 (nr_running r - 1) ∧ hvf_curr (rq_hvf r') = hvf_curr (rq_hvf r)
    else if decide (hvf_curr (rq_hvf r) = Some p ∧ __state t ≠ TASK_RUNNING) then
      result = true ∧ queue_of s' c = queue_of s c ∧
      nr_running r' = u32 (nr_running r - 1) ∧ hvf_curr (rq_hvf r') = None
    else result = false ∧ s' = s).
Proof.
  intros Hi Hr Ht Hc. unfold dequeue_task_hvf, upd_hvf_rq, task_is_running. wp_steps.
  pose proof (queued_here _ _ _ _ _ Hi Hr Ht Hc) as Hq.
  destruct (decide (p ∈ queue_of s c)) as [Hin|Hin];
    destruct (se_on_rq (hvf t)) eqn:Hon; [|naive_solver..|].
  - assert (hvf_curr (rq_hvf r) ≠ Some p) as Hcur.
    { intros E. destruct (curr_not_queued _ _ _ _ _ Hi Hr Ht E). congruence. }
    rewrite bool_decide_eq_true_2 by done. cbn [andb].
    apply wp_bind. eapply wp_dequeue_hvf_entity; [done..|]. wp_steps.
    destruct (deq_state_inv s c p r t) as [Hi1 Hq1]; [done..|].
    destruct (inv_nr_running _ _ _ (λ n, u32 (n - 1)) Hi1 (lookup_insert_eq _ _ _)) as [Hi2 Hq2].
    split; [exact Hi2|split].
    + split_and!; [|done|done]. intros c' Hne. cbn. by rewrite !lookup_insert_ne.
    + eexists. split; [apply lookup_insert_eq|]. split_and!; [done| |done|done].
      etrans; [apply Hq2|]. done.
  - rewrite andb_false_r.
    destruct (decide (hvf_curr (rq_hvf r) = Some p ∧ __state t ≠ TASK_RUNNING))
      as [[Hcur Hst]|Hno]; cycle 1.
    { replace (bool_decide (hvf_curr (rq_hvf r) = Some p) && negb (__state t =? TASK_RUNNING))
        with false by (case_bool_decide; [|done]; destruct (Z.eqb_spec (__state t) TASK_RUNNING);
                       naive_solver).
      wp_steps. split_and!; [done|by split_and!|by exists r]. }
    rewrite (bool_decide_eq_true_2 (hvf_curr _ = _)), (proj2 (Z.eqb_neq _ _) Hst) by done.
    cbn [negb andb]. wp_steps.
    destruct (inv_nr_running _ _ _ (λ n, u32 (n - 1)) Hi Hr) as [Hi1 Hq1].
    destruct (inv_set_rq _ c _ (r <| nr_running ::= λ n, u32 (n - 1) |>
      <| rq_hvf ::= λ h, h <| hvf_curr := None |> |>) Hi1 (lookup_insert_eq _ _ _))
      as [Hi2 Hq2]; [done|done|].
    split; [exact Hi2|split].
    + split_and!; [|done|done]. intros c' Hne. cbn. by rewrite !lookup_insert_ne.
    + eexists. split; [apply lookup_insert_eq|]. split_and!; [done| |done|done].
      etrans; [apply Hq2|]. apply Hq1.
Qed.

(** The task the HVF class chooses: the last of the queue, the idle task when
    nothing is queued. *)
Definition next_hvf s c r : tid :=
  match last (queue_of s c) with Some q => q | None => idle r end.

Lemma wp_pick_task_hvf s c r Q :
  hvf_inv s → k_rqs s !! c = Some r → Q (Some (next_hvf s c r)) s → wp (pick_task_hvf c) s Q.
Proof.
  intros Hi Hr HQ. pose proof (Hi _ _ (hq_lookup _ _ _ Hr)) as Hok.
  unfold next_hvf, queue_of in HQ. rewrite (hq_lookup _ _ _ Hr) in HQ.
  unfold pick_task_hvf, hvf_rq_empty, pick_entity_hvf. wp_steps.
  destruct (last (queue (rq_hvf r))) as [p|] eqn:Hl.
  - destruct (RB_EMPTY_ROOT (hvf_task_queue (rq_hvf r))) eqn:He.
    { apply rb_empty_inorder in He. by rewrite (eq_refl : queue (rq_hvf r) = inorder _), He in Hl. }
    rewrite (q_max _ _ _ Hok), Hl. by wp_steps.
  - apply last_None in Hl. rewrite (proj2 (rb_empty_inorder _)) by done. by wp_steps.
Qed.

(** The last task of the queue has the greatest value. *)
Lemma next_hvf_max s c r :
  hvf_inv s → k_rqs s !! c = Some r → queue_of s c ≠ [] →
  next_hvf s c r ∈ queue_of s c ∧
  ∀ q, q ∈ queue_of s c → value_of s q <= value_of s (next_hvf s c r).
Proof.
  intros Hi Hr Hne. pose proof (Hi _ _ (hq_lookup _ _ _ Hr)) as Hok.
  unfold next_hvf, queue_of in *. rewrite (hq_lookup _ _ _ Hr) in *.
  destruct (last (queue (rq_hvf r))) as [p|] eqn:Hl; [|by apply last_None in Hl].
  split; [by apply last_Some_elem_of|]. intros q Hq.
  apply last_Some in Hl as [l Hl]. pose proof (q_sorted _ _ _ Hok) as Hs.
  rewrite Hl in Hq, Hs. rewrite !value_of_key.
  apply elem_of_app in Hq as [Hq|Hq%list_elem_of_singleton]; [|by subst].
  apply (StronglySorted_app_1_elem_of _ _ _ q p Hs Hq). set_solver.
Qed.

(** C5: [pick_task_hvf] returns a queued task of the greatest value and changes
    nothing; with nothing queued it returns the idle task, also while an HVF task
    of this CPU is running: the running entity is not in the queue. *)
Theorem pick_task_hvf_max s c r :
  hvf_inv s → k_rqs s !! c = Some r →
  wp (pick_task_hvf c) s (λ next s', s' = s ∧ ∃ p, next = Some p ∧
    if bool_decide (queue_of s c = []) then p = idle r
    else p ∈ queue_of s c ∧ ∀ q, q ∈ queue_of s c → value_of s q <= value_of s p).
Proof.
  intros Hi Hr. eapply wp_pick_task_hvf; [done..|]. split; [done|].
  exists (next_hvf s c r). split; [done|]. case_bool_decide as Hq.
  - unfold next_hvf. by rewrite Hq.
  - by apply next_hvf_max.
Qed.

(** A task entering the queue overtakes the current choice only with a strictly
    greater value. *)
Theorem enqueue_keeps_fifo s s' c p m :
  hvf_inv s → last (queue_of s c) = Some m →
  queue_of s' c = ins (value_of s') p (queue_of s c) →
  (∀ q, q ∈ queue_of s c → value_of s' q = value_of s q) →
  last (queue_of s' c) =
    if value_of s m <? value_of s' p then Some p else Some m.
Proof.
  intros Hi Hl Hq Hv. rewrite Hq.
  assert (StronglySorted (key_le (value_of s')) (queue_of s c)) as Hs.
  { unfold queue_of in *. destruct (hq s c) as [h|] eqn:Hh; [|constructor].
    eapply sorted_ext, (q_sorted _ _ _ (Hi _ _ Hh)).
    intros q ?. by rewrite <-value_of_key, Hv. }
  pose proof (last_ins _ p _ Hs) as Hins. rewrite Hl in Hins.
  rewrite (Hv m) in Hins by by apply last_Some_elem_of.
  destruct (value_of s m <? value_of s' p); [|done]. rewrite Hins. apply last_snoc.
Qed.

Lemma only_cpu_refl c s : only_cpu c s s.
Proof. by split_and!. Qed.
Lemma only_cpu_trans c s1 s2 s3 : only_cpu c s1 s2 → only_cpu c s2 s3 → only_cpu c s1 s3.
Proof.
  intros (H1&?&?) (H2&?&?). split_and!; [|congruence..].
  intros c' ?. by rewrite H2, H1.
Qed.
Lemma only_cpu_rq c s r : only_cpu c s (s <| k_rqs ::= <[c := r]> |>).
Proof. split_and!; [|done|done]. intros c' ?. cbn. by rewrite lookup_insert_ne. Qed.
Lemma only_cpu_touch c s s' p t : touch_state s s' p t → only_cpu c s s'.
Proof. intros [n ->]. by split_and!. Qed.

(** Taking a task out of the queue if it is there. *)
Lemma wp_leave_queue s c p r t Q :
  hvf_inv s → k_rqs s !! c = Some r → k_tasks s !! p = Some t → cpu t = c →
  (∀ s' r', hvf_inv s' → only_cpu c s s' → k_rqs s' !! c = Some r' →
     k_tasks s' !! p = Some (unqueued_task t) →
     queue_of s' c = remove_elem p (queue_of s c) →
     nr_running r' = nr_running r → hvf_curr (rq_hvf r') = hvf_curr (rq_hvf r) → Q tt s') →
  wp (when (se_on_rq (hvf t)) (dequeue_hvf_entity c p;; skip)) s Q.
Proof.
  intros Hi Hr Ht Hc HQ. pose proof (queued_here _ _ _ _ _ Hi Hr Ht Hc) as Hq.
  apply wp_when; intros Hon.
  - destruct (deq_state_inv s c p r t) as [Hi1 Hq1]; [done..|].
    apply wp_bind. eapply wp_dequeue_hvf_entity; [done..|]. apply wp_skip.
    eapply HQ; [done| |apply lookup_insert_eq|apply lookup_insert_eq|done|done|done].
    split_and!; [|done|done]. intros c' ?. cbn. by rewrite lookup_insert_ne.
  - eapply (HQ s r); [done|apply only_cpu_refl|done| | |done|done].
    + rewrite Ht. f_equal. unfold unqueued_task. rewrite <-Hon.
      by destruct t as [? ? ? ? ? ? ? ? ? ? ? ? ? ? []].
    + rewrite remove_elem_notin; [done|]. rewrite Hon in Hq. naive_solver.
Qed.

Lemma wp_update_latest s p t Q :
  k_tasks s !! p = Some t →
  (∀ s' t', touch_state s s' p t' → touched t t' → Q tt s') →
  wp (update_latest_se_hvf p) s Q.
Proof.
  intros Ht HQ. unfold update_latest_se_hvf. wp_steps.
  eapply HQ; [by exists (S (k_reads s))|by apply touched_hvf].
Qed.

(** [set_next_task_hvf]: the queued task becomes the running entity. *)
Lemma set_next_task_hvf_spec s c p r t first :
  hvf_inv s → k_rqs s !! c = Some r → k_tasks s !! p = Some t → cpu t = c →
  wp (set_next_task_hvf c p first) s (λ _ s',
    if first then
      hvf_inv s' ∧ only_cpu c s s' ∧ queue_of s' c = remove_elem p (queue_of s c) ∧
      ∃ r', k_rqs s' !! c = Some r' ∧ nr_running r' = nr_running r ∧
            hvf_curr (rq_hvf r') = Some p
    else s' = s).
Proof.
  intros Hi Hr Ht Hc. unfold set_next_task_hvf, set_next_hvf_entity.
  destruct first; cbn [negb]; [|by apply wp_skip].
  wp_steps. eapply wp_leave_queue; [done..|]. intros s1 r1 Hi1 Ho1 Hr1 Ht1 Hq1 Hn1 _.
  apply wp_bind. eapply wp_update_latest; [done|]. intros s2 t2 Hst Hto.
  destruct (touch_inv _ _ _ _ _ Hi1 Ht1 eq_refl Hst Hto) as [Hi2 Hq2].
  pose proof (touch_state_lookup _ _ _ _ Hst) as Ht2.
  assert (k_rqs s2 !! c = Some r1) as Hr2 by by rewrite (touch_state_rqs _ _ _ _ Hst).
  eapply wp_upd_rq; [done|].
  destruct (inv_set_rq s2 c r1 (r1 <| rq_hvf ::= λ h, h <| hvf_curr := Some p |> |>) Hi2 Hr2)
    as [Hi3 Hq3]; [done| |].
  { intros q [= <-]. exists (curr_sched_value (hvf t2)). rewrite (ent_lookup _ _ _ Ht2).
    unfold view_task. rewrite (touched_on_rq _ _ Hto), (touched_cpu _ _ Hto). by rewrite <-Hc. }
  split; [exact Hi3|]. split.
  { eapply only_cpu_trans; [done|]. eapply only_cpu_trans; [by eapply only_cpu_touch|].
    apply only_cpu_rq. }
  split; [etrans; [apply Hq3|]; by rewrite Hq2|].
  eexists. split; [apply lookup_insert_eq|]. done.
Qed.

Definition clear_curr (r : rq) : rq := r <| rq_hvf ::= λ h, h <| hvf_curr := None |> |>.

Lemma enq_clear_curr key p h :
  enq key p (h <| hvf_curr := None |>) = (enq key p h) <| hvf_curr := None |>.
Proof.
  unfold enq. cbn. destruct (max_value_entity h); [by destruct (_ <? _)|done].
Qed.

(** Queueing the running entity and clearing [curr] is queueing it on a run
    queue without running entity. *)
Lemma wp_put_prev_entity s c p r t Q :
  hvf_inv s → k_rqs s !! c = Some r → k_tasks s !! p = Some t →
  se_on_rq (hvf t) = false →
  Q tt (enq_state (s <| k_rqs ::= <[c := clear_curr r]> |>) c p (clear_curr r) t) →
  wp (put_prev_hvf_entity c p) s Q.
Proof.
  intros Hi Hr Ht Hon HQ. unfold put_prev_hvf_entity. wp_steps. rewrite Hon. cbn [negb when].
  eapply wp_enqueue_hvf_entity; [done|done|by eapply inv_max_live|].
  eapply wp_upd_rq; [apply lookup_insert_eq|].
  unfold enq_state in *. cbn zeta in *. unfold clear_curr in HQ.
  pose proof (enq_clear_curr (value_of (s <| k_tasks ::= <[p := queued_task t]> |>)) p (rq_hvf r))
    as E.
  unfold upd, value_of in *. cbn in *. rewrite !insert_insert_eq in *. by rewrite E in HQ.
Qed.

Lemma clear_curr_inv s c r :
  hvf_inv s → k_rqs s !! c = Some r →
  hvf_inv (s <| k_rqs ::= <[c := clear_curr r]> |>) ∧
  ∀ c', queue_of (s <| k_rqs ::= <[c := clear_curr r]> |>) c' = queue_of s c'.
Proof. intros Hi Hr. by apply (inv_set_rq s c r). Qed.

(** The run time of the running task when the clock is read next. *)
Definition used_at_next_read (s : kstate) (t : task_struct) : Z :=
  time_used (hvf t) + (ts_ms (k_clock s (k_reads s)) - latest_time (hvf t)).

Lemma wp_update_used s p t Q :
  k_tasks s !! p = Some t → hvf_sane t → 0 <= used_at_next_read s t < 2 ^ 27 →
  clock_sane s → 0 <= latest_time (hvf t) < 2 ^ 52 →
  (∀ s' t', touch_state s s' p t' → touched t t' → hvf_sane t' →
     __state t' = __state t → slice_expired (hvf t') = slice_expired (hvf t) →
     curr_sched_value (hvf t') = curr_sched_value (hvf t) → Q tt s') →
  wp (update_used_se_hvf p) s Q.
Proof.
  intros Ht Hs Hu Hclk Hlat HQ. unfold update_used_se_hvf. wp_steps.
  eapply HQ; [by exists (S (k_reads s))|by apply touched_hvf| |done|done|done].
  destruct Hs as [Hv Hc Hf Hu' Hp]. split; try done. cbn.
  unfold used_at_next_read in Hu. destruct (Hclk (k_reads s)) as [Hsec Hns].
  pose proof (ts_ms_range _ Hsec Hns).
  rewrite (wrap64_small (ts_ms _ - _)), wrap64_small; pows; sane; lia.
Qed.

(** The decay applied when the slice expired. *)
Lemma wp_decay s p t Q :
  k_tasks s !! p = Some t → hvf_sane t →
  (∀ s' t', touch_state s s' p t' → touched t t' → hvf_sane t' →
     curr_sched_value (hvf t') <= Z.max (curr_sched_value (hvf t)) 10 → Q tt s') →
  wp (when (slice_expired (hvf t))
        (reduce_sched_value p;; upd_se p (λ e, e <| slice_expired := false |>))) s Q.
Proof.
  intros Ht Hs HQ. apply wp_when; intros _; cycle 1.
  { eapply HQ; [by apply touch_state_refl|apply touched_refl|done|lia]. }
  unfold reduce_sched_value, upd_se. wp_steps.
  destruct Hs as [Hv Hc Hf Hu Hp].
  pose proof (reduced_value_range (time_used (hvf t)) (curr_sched_value (hvf t)) Hv).
  set (v := reduced_value (time_used (hvf t)) (curr_sched_value (hvf t))) in *.
  eapply (HQ _ (t <| hvf ::= λ se, se <| curr_sched_value := v |> |>
                  <| hvf ::= λ e, e <| slice_expired := false |> |>));
    [| |split; [|done..]|].
  - eapply touch_state_trans; [apply touch_state_upd|]. apply touch_state_upd.
  - eapply (touched_trans _ (t <| hvf ::= λ se, se <| curr_sched_value := v |> |>));
      by apply touched_hvf.
  - cbn. pows. sane. change (2 ^ 56) with 72057594037927936 in *. lia.
  - cbn. pows. change (2 ^ 56) with 72057594037927936 in *. lia.
Qed.

Lemma entry_value_max t : hvf_sane t → entry_value t <= Z.max (curr_sched_value (hvf t)) 10.
Proof.
  intros [Hv Hc _ Hu _]. unfold entry_value. case_match; [|lia].
  pose proof (penalized_value_range (time_used (hvf t)) (computation_time t) _ Hv).
  pows. lia.
Qed.

(** [put_prev_task_hvf]: the task goes back to the queue of its CPU, with a reduced
    value when its slice expired; a task that blocks does not.  It need not be the one
    recorded as running. *)
Lemma put_prev_unqueued s c p r t next :
  hvf_inv s → clock_sane s → k_rqs s !! c = Some r → k_tasks s !! p = Some t →
  se_on_rq (hvf t) = false → cpu t = c → hvf_sane t → 0 <= latest_time (hvf t) < 2 ^ 52 →
  0 <= used_at_next_read s t < 2 ^ 27 →
  wp (put_prev_task_hvf c p next) s (λ _ s',
    hvf_inv s' ∧ only_cpu c s s' ∧
    ∃ r', k_rqs s' !! c = Some r' ∧ nr_running r' = nr_running r ∧
    if __state t =? TASK_RUNNING then
      queue_of s' c = ins (value_of s') p (queue_of s c) ∧ hvf_curr (rq_hvf r') = None ∧
      0 <= value_of s' p <= Z.max (curr_sched_value (hvf t)) 10
    else r' = r).
Proof.
  intros Hi Hclk Hr Ht Hon Hc Hs Hlat Hu.
  unfold put_prev_task_hvf. apply wp_bind. eapply wp_update_used; [done..|].
  intros s1 t1 Hst1 Hto1 Hs1 Hst Hex Hv1.
  destruct (touch_inv _ _ _ _ _ Hi Ht Hon Hst1 Hto1) as [Hi1 Hq1].
  pose proof (touch_state_lookup _ _ _ _ Hst1) as Ht1.
  assert (k_rqs s1 !! c = Some r) as Hr1 by by rewrite (touch_state_rqs _ _ _ _ Hst1).
  wp_step. wp_step. unfold task_is_running. rewrite Hst.
  destruct (__state t =? TASK_RUNNING); cbn [when]; cycle 1.
  { apply wp_skip. split; [done|]. split; [by eapply only_cpu_touch|]. eauto. }
  apply wp_bind. eapply (wp_decay s1 p t1); [done..|]. intros s2 t2 Hst2 Hto2 Hs2 Hv2.
  assert (se_on_rq (hvf t1) = false) as Hon1 by by rewrite (touched_on_rq _ _ Hto1).
  destruct (touch_inv _ _ _ _ _ Hi1 Ht1 Hon1 Hst2 Hto2) as [Hi2 Hq2].
  pose proof (touch_state_lookup _ _ _ _ Hst2) as Ht2.
  assert (k_rqs s2 !! c = Some r) as Hr2 by by rewrite (touch_state_rqs _ _ _ _ Hst2).
  assert (se_on_rq (hvf t2) = false) as Hon2 by by rewrite (touched_on_rq _ _ Hto2).
  eapply wp_put_prev_entity; [done..|].
  destruct (clear_curr_inv s2 c r Hi2 Hr2) as [Hi3 Hq3].
  destruct (enq_state_inv (s2 <| k_rqs ::= <[c := clear_curr r]> |>) c p (clear_curr r) t2)
    as [Hi4 Hq4]; [done|apply lookup_insert_eq|done|done| |done|by apply entry_value_range|].
  { by rewrite (touched_cpu _ _ Hto2), (touched_cpu _ _ Hto1). }
  split; [exact Hi4|]. split.
  { eapply only_cpu_trans; [by eapply only_cpu_touch|].
    eapply only_cpu_trans; [by eapply only_cpu_touch|].
    split_and!; [|done|done]. intros c' ?. cbn. by rewrite !lookup_insert_ne. }
  eexists. split; [apply lookup_insert_eq|]. split; [done|].
  split; [by rewrite Hq4, Hq3, Hq2, Hq1|]. split; [apply enq_curr|].
  rewrite (value_of_lookup _ p (queued_task t2)) by apply lookup_insert_eq. cbn.
  pose proof (entry_value_max t2 Hs2). pose proof (entry_value_range t2 Hs2). lia.
Qed.

(** The task recorded as running is not queued. *)
Lemma put_prev_task_hvf_spec s c p r t next :
  hvf_inv s → clock_sane s → k_rqs s !! c = Some r → k_tasks s !! p = Some t →
  hvf_curr (rq_hvf r) = Some p → hvf_sane t → 0 <= latest_time (hvf t) < 2 ^ 52 →
  0 <= used_at_next_read s t < 2 ^ 27 →
  wp (put_prev_task_hvf c p next) s (λ _ s',
    hvf_inv s' ∧ only_cpu c s s' ∧
    ∃ r', k_rqs s' !! c = Some r' ∧ nr_running r' = nr_running r ∧
    if __state t =? TASK_RUNNING then
      queue_of s' c = ins (value_of s') p (queue_of s c) ∧ hvf_curr (rq_hvf r') = None ∧
      0 <= value_of s' p <= Z.max (curr_sched_value (hvf t)) 10
    else r' = r).
Proof.
  intros Hi Hclk Hr Ht Hcur Hs Hlat Hu. destruct (curr_not_queued _ _ _ _ _ Hi Hr Ht Hcur) as [Hon Hc]. by apply put_prev_unqueued.
Qed.

(** The task put aside was dequeued to block: only its run time is updated. *)
Lemma wp_put_prev_blocked s c p t nx :
  hvf_inv s → k_tasks s !! p = Some t → se_on_rq (hvf t) = false → __state t ≠ TASK_RUNNING →
  wp (put_prev_task_hvf c p nx) s (λ _ s',
    hvf_inv s' ∧ (∀ c', queue_of s' c' = queue_of s c') ∧ k_rqs s' = k_rqs s ∧
    only_cpu c s s').
Proof.
  intros Hi Ht Hon Hst. unfold put_prev_task_hvf, update_used_se_hvf. wp_steps.
  set (f := λ se : sched_hvf_entity, _).
  change (task_is_running (t <| hvf ::= f |>)) with (__state t =? TASK_RUNNING).
  destruct (Z.eqb_spec (__state t) TASK_RUNNING); [done|]. cbn [when]. wp_steps.
  destruct (touch_inv s (s <| k_reads ::= S |> <| k_tasks := <[p := t <| hvf ::= f |>]> (k_tasks s) |>)
    p t (t <| hvf ::= f |>) Hi Ht Hon) as [Hi' Hq'];
    [by exists (S (k_reads s))|by apply touched_hvf|].
  split_and!; [exact Hi'|exact Hq'|done|by split_and!].
Qed.

(** An exit takes the task off the queue and strikes the running entity off the
    record, whichever it is. *)
Lemma wp_task_dead s c r p t :
  hvf_inv s → k_rqs s !! c = Some r → k_tasks s !! p = Some t → cpu t = c →
  wp (task_dead_hvf p) s (λ _ s', hvf_inv s' ∧ only_cpu c s s' ∧ queue_of s' c = remove_elem p (queue_of s c) ∧
    ∃ r', k_rqs s' !! c = Some r' ∧ hvf_curr (rq_hvf r') = None ∧ nr_running r' = nr_running r).
Proof.
  intros Hi Hr Ht Hc. unfold task_dead_hvf, register_entity_info. wp_steps. rewrite Hc.
  set (s1 := s <| k_reads ::= _ |> <| k_trace ::= _ |>).
  assert (hvf_inv s1) as Hi1 by by apply (hvf_inv_ext s).
  eapply (wp_leave_queue s1 c p r t); [done..|]. intros s2 r2 Hi2 Ho2 Hr2 Ht2 Hq2 Hn2 Hcu2.
  unfold upd_hvf_rq. wp_steps.
  destruct (clear_curr_inv s2 c r2 Hi2 Hr2) as [Hi3 Hq3].
  split_and!; [exact Hi3| |etrans; [apply Hq3|done]|].
  - eapply only_cpu_trans; [exact Ho2|]. apply only_cpu_rq.
  - eexists. split_and!; [apply lookup_insert_eq|done|done].
Qed.
End entry_points.
