(* ===== verification/HvfTick.v ===== *)
(** Time accounting of the running HVF task: the periodic tick, the length of a
    slice, preemption on wake-up, and what the exit of a task reports. *)
From S2P Require Import Prelude Rbtree KState HvfValue HvfClass HvfInv HvfOps HvfSpec.

Section tick.
Context {L : RbLib} {TC : TickConfig}.
Implicit Types (s : kstate) (c : Z) (p : tid) (r : rq) (t : task_struct).

(** Nanoseconds of a slice. *)
Definition slice_ns (t : task_struct) : Z := time_slice (curr_sched_value (hvf t)) * 1000000.

(** The running task after a number of ticks: its run time, and the marks that
    make it give up the CPU. *)
Definition ticked (t : task_struct) (rt : Z) (expired : bool) (t' : task_struct) : Prop :=
  runtime (hvf t') = rt ∧
  slice_expired (hvf t') = slice_expired (hvf t) || expired ∧
  need_resched t' = need_resched t || expired ∧
  curr_sched_value (hvf t') = curr_sched_value (hvf t).

Lemma slice_ns_long t : wrap64 (wrap64 (time_slice (curr_sched_value (hvf t)) * K) * K) = slice_ns t.
Proof.
  unfold slice_ns. pose proof (time_slice_bounds (curr_sched_value (hvf t))).
  rewrite (wrap64_small (time_slice _ * K)), wrap64_small; sane; lia.
Qed.

Lemma wp_tick s c p r t Q :
  k_rqs s !! c = Some r → curr r = p → k_tasks s !! p = Some t →
  is_long (runtime (hvf t) + TICK_NSEC) →
  (∀ s' t', k_rqs s' = k_rqs s → k_tasks s' !! p = Some t' →
     ticked t (runtime (hvf t) + TICK_NSEC) (slice_ns t <=? runtime (hvf t) + TICK_NSEC) t' →
     Q tt s') →
  wp (task_tick_hvf c p 0) s Q.
Proof.
  intros Hr Hcur Ht Hrt HQ. unfold task_tick_hvf, upd_se. wp_steps. cbn [hvf upd runtime].
  rewrite slice_ns_long, wrap64_small by done.
  apply wp_when; intros Hx; rewrite Hx in HQ.
  - wp_steps. eapply wp_resched_curr; [done| |].
    { rewrite Hcur. apply lookup_insert_eq. }
    intros s' [l ->]. rewrite Hcur. eapply HQ; [done|apply lookup_insert_eq|].
    unfold ticked. cbn. by rewrite !orb_true_r, wrap64_small.
  - eapply HQ; [done|apply lookup_insert_eq|]. unfold ticked. cbn.
    by rewrite !orb_false_r, wrap64_small.
Qed.

(** [n] consecutive ticks of the running task. *)
Fixpoint ticks (c : Z) (p : tid) (n : nat) : M unit :=
  match n with
  | O => skip
  | S m => ticks c p m;; task_tick_hvf c p 0
  end.

Lemma wp_ticks s c p r t n Q :
  0 < TICK_NSEC → Z.of_nat n * TICK_NSEC < 2 ^ 63 →
  k_rqs s !! c = Some r → curr r = p → k_tasks s !! p = Some t → runtime (hvf t) = 0 →
  (∀ s' t', k_rqs s' = k_rqs s → k_tasks s' !! p = Some t' →
     ticked t (Z.of_nat n * TICK_NSEC) (slice_ns t <=? Z.of_nat n * TICK_NSEC) t' → Q tt s') →
  wp (ticks c p n) s Q.
Proof.
  intros Htick Hn Hr Hcur Ht H0. revert Q Hn. induction n as [|n IH]; intros Q Hn HQ; cbn [ticks].
  - apply wp_skip. eapply HQ; [done|done|].
    assert ((slice_ns t <=? Z.of_nat 0 * TICK_NSEC) = false) as ->.
    { unfold slice_ns. pose proof (time_slice_bounds (curr_sched_value (hvf t))).
      rewrite Z.mul_0_l. apply Z.leb_gt. sane. lia. }
    split_and!; by rewrite ?orb_false_r, ?H0.
  - apply wp_bind. apply IH; [lia|]. intros s1 t1 Hr1 Ht1 (Hrt1&Hx1&Hn1&Hv1).
    eapply wp_tick; [by rewrite Hr1|done|done|rewrite Hrt1; pow_lia|].
    intros s2 t2 Hr2 Ht2 (Hrt2&Hx2&Hn2&Hv2). eapply HQ; [congruence|done|].
    assert (slice_ns t1 = slice_ns t) as Es by (unfold slice_ns; by rewrite Hv1).
    rewrite Es, Hrt1 in *. unfold ticked.
    replace (Z.of_nat (S n) * TICK_NSEC) with (Z.of_nat n * TICK_NSEC + TICK_NSEC) by lia.
    rewrite Hrt2, Hx2, Hx1, Hn2, Hn1, Hv2, Hv1, <-!orb_assoc.
    assert ((slice_ns t <=? Z.of_nat n * TICK_NSEC)
            || (slice_ns t <=? Z.of_nat n * TICK_NSEC + TICK_NSEC)
            = (slice_ns t <=? Z.of_nat n * TICK_NSEC + TICK_NSEC)) as -> by lia.
    done.
Qed.

(** C9: A running task is asked to give up the CPU exactly when it has run for its
    slice: the slice expires, and rescheduling is requested, at the first tick
    at which the run time reaches [time_slice] milliseconds, and not before. *)
Theorem slice_expires_on_time s c p r t n :
  0 < TICK_NSEC → Z.of_nat n * TICK_NSEC < 2 ^ 63 →
  k_rqs s !! c = Some r → curr r = p → k_tasks s !! p = Some t →
  runtime (hvf t) = 0 → slice_expired (hvf t) = false → need_resched t = false →
  wp (ticks c p n) s (λ _ s', ∃ t', k_tasks s' !! p = Some t' ∧
    slice_expired (hvf t') = (slice_ns t <=? Z.of_nat n * TICK_NSEC) ∧
    need_resched t' = (slice_ns t <=? Z.of_nat n * TICK_NSEC)).
Proof.
  intros Htick Hn Hr Hcur Ht H0 Hex Hnr. eapply wp_ticks; [done..|].
  intros s' t' _ Ht' (_&Hx&Hn'&_). exists t'. by rewrite Hx, Hn', Hex, Hnr.
Qed.

(** [wakeup_preempt_hvf]: the woken task preempts the task running on the waking
    CPU only when that is an HVF task that exceeded its computation time and has
    a smaller value. *)
Theorem wakeup_preempt_hvf_spec s c p r rc t tc flags :
  k_rqs s !! k_cpu s = Some rc → k_tasks s !! curr rc = Some tc →
  k_rqs s !! c = Some r → is_Some (k_tasks s !! curr r) → k_tasks s !! p = Some t →
  wp (wakeup_preempt_hvf c p flags) s (λ _ s',
    if bool_decide (sched_class tc = hvf_sched_class) &&
       (computation_time tc <? time_used (hvf tc)) &&
       (curr_sched_value (hvf tc) <? curr_sched_value (hvf t))
    then ∃ tr, k_tasks s !! curr r = Some tr ∧ rescheduled s s' (curr r) tr
    else s' = s).
Proof.
  intros Hrc Htc Hr [tr Htr] Ht. unfold wakeup_preempt_hvf, exceeded_time.
  apply wp_bind. eapply wp_current; [done|]. wp_steps.
  destruct (bool_decide _) eqn:Hcl; cbn [when andb]; [|by apply wp_skip]. wp_steps.
  destruct (_ <? _) eqn:Hx; cbn [andb when]; [|by apply wp_skip].
  destruct (curr_sched_value (hvf tc) <? _) eqn:Hv; cbn [when]; [|by apply wp_skip].
  eapply wp_resched_curr; [done..|]. eauto.
Qed.
End tick.
