(* ===== verification/HvfMachine.v ===== *)
(** The run queue of the HVF class as a state machine.

    An abstract run queue is a sequence of waiting tasks in increasing order of
    value, the task that runs and the number of tasks accounted for the CPU.  The
    operations of [hvf_sched_class] that act on a run queue refine its transitions,
    and the invariant and the accounting hold in every state they reach. *)
From S2P Require Import Prelude Rbtree KState HvfValue HvfClass HvfInv HvfOps HvfSpec.

(** * The abstract machine *)

Record arq := ARq { waiting : list tid; running : option tid; accounted : Z }.

(** The calls the scheduler makes on the run queue of a CPU. *)
Inductive hvf_op :=
| OpEnqueue (p : tid) (flags : Z)
| OpDequeue (p : tid) (flags : Z)
| OpSetNext (p : tid) (first : bool)
| OpPutPrev (p : tid) (next : option tid)
| OpTick (p : tid) (queued : Z)
| OpDead (p : tid).

(** [v] gives the values of the tasks when the operation ends, [blocks] says that
    the task of the operation is going to sleep. *)
Inductive astep (v : tid → Z) (blocks : bool) : hvf_op → arq → arq → Prop :=
| astep_enqueue p f q run n : p ∉ q → run ≠ Some p →
    astep v blocks (OpEnqueue p f) (ARq q run n) (ARq (ins v p q) run (u32 (n + 1)))
| astep_enqueue_running p f q n :
    astep v blocks (OpEnqueue p f) (ARq q (Some p) n) (ARq q (Some p) n)
| astep_dequeue p f q run n : p ∈ q →
    astep v blocks (OpDequeue p f) (ARq q run n) (ARq (remove_elem p q) run (u32 (n - 1)))
| astep_block p f q n : p ∉ q → blocks = true →
    astep v blocks (OpDequeue p f) (ARq q (Some p) n) (ARq q None (u32 (n - 1)))
| astep_dequeue_refused p f q run n : p ∉ q → ~ (run = Some p ∧ blocks = true) →
    astep v blocks (OpDequeue p f) (ARq q run n) (ARq q run n)
| astep_run p q n : p ∈ q →
    astep v blocks (OpSetNext p true) (ARq q None n) (ARq (remove_elem p q) (Some p) n)
| astep_set_next_again p a : astep v blocks (OpSetNext p false) a a
| astep_put_prev p o q n : blocks = false →
    astep v blocks (OpPutPrev p o) (ARq q (Some p) n) (ARq (ins v p q) None n)
| astep_put_prev_blocked p o q run n : run ≠ Some p → blocks = true →
    astep v blocks (OpPutPrev p o) (ARq q run n) (ARq q run n)
| astep_put_prev_unrecorded p o q run n : p ∉ q → run ≠ Some p → blocks = false →
    astep v blocks (OpPutPrev p o) (ARq q run n) (ARq (ins v p q) None n)
| astep_tick p i a : astep v blocks (OpTick p i) a a
| astep_dead p q run n : astep v blocks (OpDead p) (ARq q run n) (ARq (remove_elem p q) None n).

(** Tasks accounted for that neither wait nor are recorded as running: those of the
    other classes, and HVF tasks whose record an exit has struck off. *)
Definition recorded (run : option tid) : Z := match run with Some _ => 1 | None => 0 end.
Definition others (a : arq) : Z := u32 (accounted a - Z.of_nat (length (waiting a)) - recorded (running a)).

(** How many tasks an operation takes off the record without discounting them: an exit
    does so to the task it finds recorded; a task that runs unrecorded is on record again
    when it is put back. *)
Definition unrecorded (blocks : bool) (op : hvf_op) (a : arq) : Z :=
  match op with
  | OpDead p => (if decide (p ∈ waiting a) then 1 else 0) + recorded (running a)
  | OpPutPrev p _ => if decide (running a = Some p) then 0 else if blocks then 0 else recorded (running a) - 1
  | _ => 0
  end.

(** The machine keeps the share of the other tasks but for that. *)
Lemma astep_others v b op a a' : NoDup (waiting a) → astep v b op a a' → others a' = u32 (others a + unrecorded b op a).
Proof.
  intros Hnd Hst. unfold others, unrecorded. destruct Hst as [p f q run n|p f q n|p f q run n Hin|p f q n|p f q run n|p q n Hin|p a|p o q n|p o q run n Hne Hb
    |p o q run n Hnq Hne Hb|p i a|p q run n]; cbn [waiting running accounted recorded] in *; rewrite ?Z.add_0_r; try pow_lia.
  - rewrite (ins_perm v p q). cbn. pow_lia.
  - rewrite (remove_elem_length p q) by done. pow_lia.
  - rewrite (remove_elem_length p q) by done. pow_lia.
  - rewrite decide_True, (ins_perm v p q) by done. cbn. pow_lia.
  - rewrite decide_False by done. subst b. pow_lia.
  - rewrite decide_False, (ins_perm v p q) by done. subst b. cbn. pow_lia.
  - case_decide as Hin; [rewrite (remove_elem_length p q) by done|rewrite remove_elem_notin by done]; pow_lia.
Qed.

Section machine.
Context {L : RbLib} `{!RbLaws L} {TC : TickConfig}.
Implicit Types (s : kstate) (c : Z) (p : tid) (r : rq) (t : task_struct).

(** * The machine of a CPU *)

Definition abstract s c : option arq :=
  (λ r, ARq (queue_of s c) (hvf_curr (rq_hvf r)) (nr_running r)) <$> k_rqs s !! c.

Definition run_op c (op : hvf_op) : M unit :=
  match op with
  | OpEnqueue p flags => enqueue_task_hvf c p flags
  | OpDequeue p flags => dequeue_task_hvf c p flags;; skip
  | OpSetNext p first => set_next_task_hvf c p first
  | OpPutPrev p next => put_prev_task_hvf c p next
  | OpTick p queued => task_tick_hvf c p queued
  | OpDead p => task_dead_hvf p
  end.

Definition op_task (op : hvf_op) : tid :=
  match op with
  | OpEnqueue p _ | OpDequeue p _ | OpSetNext p _ | OpPutPrev p _ | OpTick p _ | OpDead p => p
  end.

(** When the scheduler makes each call: a task is enqueued with parameters, or
    with a flag that makes the class give it parameters, and not while it waits
    already; the next task is set when no other is recorded; the previous one is put
    back while it runs, on record or not, or after it was dequeued to block. *)
Definition guard s c r t (op : hvf_op) : Prop :=
  match op with
  | OpEnqueue p flags => hvf_sane t ∧ se_on_rq (hvf t) = false ∧
      (pars_set t = true ∨ has flags (Z.lor ENQUEUE_INITIAL ENQUEUE_CHANGED) = true)
  | OpDequeue p _ => True
  | OpSetNext p first => first = true → hvf_curr (rq_hvf r) = None ∧ se_on_rq (hvf t) = true
  | OpPutPrev p _ =>
      (__state t = TASK_RUNNING → hvf_sane t ∧ 0 <= latest_time (hvf t) < 2 ^ 52 ∧
        0 <= used_at_next_read s t < 2 ^ 27) ∧
      (if decide (hvf_curr (rq_hvf r) = Some p) then __state t = TASK_RUNNING else se_on_rq (hvf t) = false)
  | OpTick p _ => is_Some (k_tasks s !! curr r)
  | OpDead p => True
  end.

Definition enabled s c (op : hvf_op) : Prop :=
  clock_sane s ∧ ∃ r t, k_rqs s !! c = Some r ∧ k_tasks s !! op_task op = Some t ∧ cpu t = c ∧
    guard s c r t op.

Lemma abstract_rq s c r :
  k_rqs s !! c = Some r → abstract s c = Some (ARq (queue_of s c) (hvf_curr (rq_hvf r)) (nr_running r)).
Proof. unfold abstract. by intros ->. Qed.

(** Views and run queues are untouched by a tick. *)
Lemma wp_tick_quiet s c p r t i Q :
  k_rqs s !! c = Some r → k_tasks s !! p = Some t → is_Some (k_tasks s !! curr r) →
  (∀ s', same_hvf s s' → k_rqs s' = k_rqs s → k_clock s' = k_clock s → k_cpu s' = k_cpu s → Q tt s') →
  wp (task_tick_hvf c p i) s Q.
Proof.
  intros Hr Ht [tc Htc] HQ. unfold task_tick_hvf, upd_se. wp_steps.
  set (t1 := t <| hvf ::= _ |>). set (s1 := s <| k_tasks := _ |>).
  assert (same_hvf s s1) as Hs1 by by apply (same_hvf_task s p t t1).
  assert (k_tasks s1 !! p = Some t1) as Ht1 by apply lookup_insert_eq.
  apply wp_when; intros _; [|by apply HQ].
  apply wp_bind. eapply wp_upd_task; [done|].
  set (t2 := t1 <| hvf ::= _ |>). set (s2 := s1 <| k_tasks := _ |>).
  assert (same_hvf s1 s2) as Hs2 by by apply (same_hvf_task s1 p t1 t2).
  assert (is_Some (k_tasks s2 !! curr r)) as [tc2 Htc2].
  { unfold s2, s1. cbn. rewrite !lookup_insert_is_Some'. eauto. }
  eapply (wp_resched_curr c r tc2); [done|done|]. intros s3 [l ->].
  apply HQ; [|done..]. etrans; [done|]. etrans; [done|]. split; [|done]. intros q.
  destruct (same_hvf_task s2 (curr r) tc2 (tc2 <| need_resched := true |>)) as [He _]; [done|done|].
  exact (He q).
Qed.

(** * Refinement *)

Lemma refine_enqueue s c p flags r t :
  hvf_inv s → clock_sane s → k_rqs s !! c = Some r → k_tasks s !! p = Some t → cpu t = c →
  guard s c r t (OpEnqueue p flags) →
  wp (enqueue_task_hvf c p flags) s (λ _ s', hvf_inv s' ∧ only_cpu c s s' ∧
    ∃ a', abstract s' c = Some a' ∧ ∀ b, astep (value_of s') b (OpEnqueue p flags)
      (ARq (queue_of s c) (hvf_curr (rq_hvf r)) (nr_running r)) a').
Proof.
  intros Hi Hclk Hr Ht Hc (Hs&Hon&Hset).
  assert (p ∉ queue_of s c) as Hnq.
  { rewrite <-(queued_here s c p r t) by done. by rewrite Hon. }
  destruct (decide (hvf_curr (rq_hvf r) = Some p)) as [Hcur|Hcur].
  - eapply wp_mono; [by eapply (enqueue_task_hvf_running s c p r t)|].
    intros _ s' (Hi'&Hrq&Ho). split_and!; [done|done|].
    rewrite <-Hrq in Hr. rewrite (abstract_rq _ _ _ Hr), Hcur.
    assert (queue_of s' c = queue_of s c) as -> by (unfold queue_of, hq; by rewrite Hrq).
    eexists. split; [done|]. constructor.
  - eapply wp_mono; [by eapply (enqueue_task_hvf_spec s c p r t)|].
    intros _ s' (Hi'&Ho&Hq&r'&Hr'&Hn&Hc'). split_and!; [done|done|].
    rewrite (abstract_rq _ _ _ Hr'), Hq, Hn, Hc'. eexists. split; [done|]. by constructor.
Qed.

Lemma refine_dequeue s c p flags r t :
  hvf_inv s → k_rqs s !! c = Some r → k_tasks s !! p = Some t → cpu t = c →
  wp (dequeue_task_hvf c p flags;; skip) s (λ _ s', hvf_inv s' ∧ only_cpu c s s' ∧
    ∃ a', abstract s' c = Some a' ∧ astep (value_of s') (negb (task_is_running t)) (OpDequeue p flags)
      (ARq (queue_of s c) (hvf_curr (rq_hvf r)) (nr_running r)) a').
Proof.
  intros Hi Hr Ht Hc. apply wp_bind. eapply wp_mono; [by eapply (dequeue_task_hvf_spec s c p r t)|].
  intros b s' (Hi'&Ho&r'&Hr'&Hcase). apply wp_skip. split_and!; [done|done|].
  rewrite (abstract_rq _ _ _ Hr'). eexists. split; [done|]. unfold task_is_running.
  destruct (decide (p ∈ queue_of s c)) as [Hin|Hin]; [|destruct (decide _) as [[Hcur Hst]|Hno]].
  - destruct Hcase as (_&->&->&->). by constructor.
  - destruct Hcase as (_&->&->&->). rewrite Hcur. constructor; [done|]. by apply negb_true_iff, Z.eqb_neq.
  - destruct Hcase as [_ ->]. assert (r' = r) as -> by congruence. constructor; [done|].
    intros [Hcur Hst%negb_true_iff%Z.eqb_neq]. by apply Hno.
Qed.

Lemma refine_set_next s c p first r t :
  hvf_inv s → k_rqs s !! c = Some r → k_tasks s !! p = Some t → cpu t = c →
  guard s c r t (OpSetNext p first) →
  wp (set_next_task_hvf c p first) s (λ _ s', hvf_inv s' ∧ only_cpu c s s' ∧
    ∃ a', abstract s' c = Some a' ∧ ∀ b, astep (value_of s') b (OpSetNext p first)
      (ARq (queue_of s c) (hvf_curr (rq_hvf r)) (nr_running r)) a').
Proof.
  intros Hi Hr Ht Hc Hg. eapply wp_mono; [by eapply (set_next_task_hvf_spec s c p r t)|].
  intros [] s'. destruct first; cycle 1.
  { intros ->. split_and!; [done|apply only_cpu_refl|]. rewrite (abstract_rq _ _ _ Hr).
    eexists. split; [done|]. constructor. }
  intros (Hi'&Ho&Hq&r'&Hr'&Hn&Hcur'). destruct (Hg eq_refl) as [Hcur Hon].
  split_and!; [done|done|]. rewrite (abstract_rq _ _ _ Hr'), Hq, Hn, Hcur, Hcur'.
  eexists. split; [done|]. constructor. by apply (queued_here s c p r t).
Qed.

Lemma refine_put_prev s c p next r t :
  hvf_inv s → clock_sane s → k_rqs s !! c = Some r → k_tasks s !! p = Some t → cpu t = c →
  guard s c r t (OpPutPrev p next) →
  wp (put_prev_task_hvf c p next) s (λ _ s', hvf_inv s' ∧ only_cpu c s s' ∧
    ∃ a', abstract s' c = Some a' ∧ astep (value_of s') (negb (task_is_running t)) (OpPutPrev p next)
      (ARq (queue_of s c) (hvf_curr (rq_hvf r)) (nr_running r)) a').
Proof.
  intros Hi Hclk Hr Ht Hc Hg. cbn in Hg. unfold task_is_running.
  destruct (decide (hvf_curr (rq_hvf r) = Some p)) as [Hcur|Hcur].
  - destruct Hg as [Hg Hst]. destruct (Hg Hst) as (Hs&Hlat&Hu). eapply wp_mono; [by eapply (put_prev_task_hvf_spec s c p r t)|].
    intros _ s' (Hi'&Ho&r'&Hr'&Hn&Hcase). rewrite Hst in *. destruct Hcase as (Hq&Hcur'&_).
    split_and!; [done|done|]. rewrite (abstract_rq _ _ _ Hr'), Hq, Hn, Hcur, Hcur'.
    eexists. split; [done|]. by constructor.
  - destruct Hg as [Hg Hon]. destruct (decide (__state t = TASK_RUNNING)) as [Hst|Hst].
    { destruct (Hg Hst) as (Hs&Hlat&Hu). eapply wp_mono; [by eapply (put_prev_unqueued s c p r t)|].
      intros _ s' (Hi'&Ho&r'&Hr'&Hn&Hcase). rewrite Hst in *. destruct Hcase as (Hq&Hcur'&_).
      split_and!; [done|done|]. rewrite (abstract_rq _ _ _ Hr'), Hq, Hn, Hcur'. eexists. split; [done|].
      constructor; [|done|done]. rewrite <-(queued_here s c p r t) by done. by rewrite Hon. }
    eapply wp_mono; [by eapply (wp_put_prev_blocked s c p t)|].
    intros _ s' (Hi'&Hq&Hrq&Ho). split_and!; [done|done|].
    rewrite <-Hrq in Hr. rewrite (abstract_rq _ _ _ Hr), Hq.
    eexists. split; [done|]. constructor; [done|]. by apply negb_true_iff, Z.eqb_neq.
Qed.

Lemma refine_op s c op r t :
  hvf_inv s → clock_sane s → k_rqs s !! c = Some r → k_tasks s !! op_task op = Some t → cpu t = c →
  guard s c r t op →
  wp (run_op c op) s (λ _ s', hvf_inv s' ∧ only_cpu c s s' ∧
    ∃ a', abstract s' c = Some a' ∧ astep (value_of s') (negb (task_is_running t)) op
      (ARq (queue_of s c) (hvf_curr (rq_hvf r)) (nr_running r)) a').
Proof.
  intros Hi Hclk Hr Ht Hc Hg. destruct op as [p f|p f|p f|p o|p i|p]; cbn [op_task run_op] in *.
  - eapply wp_mono; [by eapply refine_enqueue|]. naive_solver.
  - by eapply refine_dequeue.
  - eapply wp_mono; [by eapply refine_set_next|]. naive_solver.
  - by eapply refine_put_prev.
  - eapply wp_tick_quiet; [done..|]. intros s' Hsh Hrq Hck Hcpu. split_and!.
    + by eapply same_hvf_inv.
    + split_and!; [|done|done]. intros. by rewrite Hrq.
    + rewrite <-Hrq in Hr. rewrite (abstract_rq _ _ _ Hr), (same_hvf_queue _ _ c Hsh).
      eexists. split; [done|]. constructor.
  - eapply wp_mono; [by eapply (wp_task_dead s c r p t)|]. intros _ s' (Hi'&Ho&Hq&r'&Hr'&Hcur'&Hn). split_and!; [done|done|].
    rewrite (abstract_rq _ _ _ Hr'), Hq, Hn, Hcur'. eexists. split; [done|]. constructor.
Qed.

(** C1: Every operation of the class that works on a run queue (enqueue, dequeue,
    set_next, put_prev, tick, task_dead), called when [guard] says, runs to its end, keeps
    the invariant on all CPUs, leaves the run queues of the other CPUs alone, and is a
    transition of the abstract machine. *)
Theorem hvf_refines_machine s c op t a :
  hvf_inv s → enabled s c op → k_tasks s !! op_task op = Some t → abstract s c = Some a →
  wp (run_op c op) s (λ _ s', hvf_inv s' ∧ only_cpu c s s' ∧
    ∃ a', abstract s' c = Some a' ∧ astep (value_of s') (negb (task_is_running t)) op a a').
Proof.
  intros Hi (Hclk&r&t'&Hr&Ht'&Hc&Hg) Ht Ha. assert (t' = t) as -> by congruence.
  rewrite (abstract_rq _ _ _ Hr) in Ha. injection Ha as <-. by apply (refine_op s c op r t).
Qed.

(** * Reachable states *)

(** The transitions of a CPU: an operation of the class, or a change elsewhere
    that leaves the HVF data and the number of tasks on the CPU alone; [d] tasks go off
    the record. *)
Inductive hvf_trans c : kstate → Z → kstate → Prop :=
| trans_op op s s' t a d : enabled s c op → k_tasks s !! op_task op = Some t → abstract s c = Some a →
    run_op c op s = Ok (tt, s') → d = unrecorded (negb (task_is_running t)) op a → hvf_trans c s d s'
| trans_env s s' : same_hvf s s' → nr_running <$> k_rqs s' !! c = nr_running <$> k_rqs s !! c →
    hvf_trans c s 0 s'.
(** Runs: [n] tasks more are accounted for than are on record. *)
Inductive hvf_run c : kstate → Z → kstate → Prop :=
| hvf_run_none s : hvf_run c s 0 s
| hvf_run_more s n s1 d s2 : hvf_run c s n s1 → hvf_trans c s1 d s2 → hvf_run c s (n + d) s2.

Lemma queue_nodup s c : hvf_inv s → NoDup (queue_of s c).
Proof.
  intros Hi. unfold queue_of. destruct (hq s c) as [h|] eqn:Hh; [|constructor].
  apply (q_nodup _ _ _ (Hi _ _ Hh)).
Qed.

Lemma hvf_trans_inv c s d s' a :
  hvf_inv s → abstract s c = Some a → hvf_trans c s d s' →
  hvf_inv s' ∧ ∃ a', abstract s' c = Some a' ∧ others a' = u32 (others a + d).
Proof.
  intros Hi Ha Htr. destruct Htr as [op s1 s2 t a1 d Hen Htk Ha1 Hrun ->|s1 s2 Hsh Hnr].
  - assert (a1 = a) as -> by congruence. destruct Hen as (Hclk&r&t'&Hr&Ht&Hc&Hg). assert (t' = t) as -> by congruence.
    pose proof (refine_op s1 c op r t Hi Hclk Hr Ht Hc Hg) as Hwp. unfold wp in Hwp. rewrite Hrun in Hwp.
    destruct Hwp as (Hi'&_&a'&Ha'&Hst). split; [done|]. exists a'. split; [done|].
    rewrite (abstract_rq _ _ _ Hr) in Ha. injection Ha as <-.
    by eapply astep_others; [apply queue_nodup|].
  - split; [by eapply same_hvf_inv|]. unfold abstract in *.
    pose proof (sh_hq _ _ Hsh c) as Hh. unfold hq in Hh.
    destruct (k_rqs s1 !! c) as [r|] eqn:Hr; [|done]. injection Ha as <-.
    destruct (k_rqs s2 !! c) as [r'|]; [|done]. cbn in *. injection Hh as Hh. injection Hnr as Hnr.
    eexists. split; [done|]. rewrite (same_hvf_queue _ _ c Hsh), Hh, Hnr, Z.add_0_r. unfold others. cbn. pow_lia.
Qed.
Lemma hvf_run_inv c s n s' a :
  hvf_inv s → abstract s c = Some a → hvf_run c s n s' →
  hvf_inv s' ∧ ∃ a', abstract s' c = Some a' ∧ others a' = u32 (others a + n).
Proof.
  intros Hi Ha Hr. induction Hr as [s|s n s1 d s2 Hr IH Ht].
  - split; [done|]. exists a. split; [done|]. unfold others. pow_lia.
  - destruct (IH Hi Ha) as (Hi1&a1&Ha1&Ho1). destruct (hvf_trans_inv c s1 d s2 a1 Hi1 Ha1 Ht) as (Hi2&a2&Ha2&Ho2).
    split; [done|]. exists a2. split; [done|]. rewrite Ho2, Ho1. unfold others. pow_lia.
Qed.

(** The kernel after [sched_init]: all run queues initialised, no task queued. *)
Record booted s : Prop := {
  boot_rqs c r : k_rqs s !! c = Some r → ∃ h, rq_hvf r = init_hvf_rq h;
  boot_tasks p t : k_tasks s !! p = Some t → se_on_rq (hvf t) = false;
}.

Lemma booted_inv s : booted s → hvf_inv s ∧ ∀ c, queue_of s c = [].
Proof.
  intros [Hrq Htk]. assert (∀ c h, hq s c = Some h → ∃ h0, h = init_hvf_rq h0) as Hh.
  { unfold hq. intros c h. destruct (k_rqs s !! c) as [r|] eqn:Hr; [|done].
    intros [= <-]. by eapply Hrq. }
  split.
  - intros c h Hh'. destruct (Hh c h Hh') as [h0 ->]. split; cbn; try done.
    + constructor. + constructor. + set_solver.
    + intros p v. unfold ent. destruct (k_tasks s !! p) as [t|] eqn:Ht; [|done].
      intros [= _ Hon _]. rewrite (Htk p t Ht) in Hon. done.
  - intros c. unfold queue_of. destruct (hq s c) as [h|] eqn:Hh'; [|done].
    by destruct (Hh c h Hh') as [h0 ->].
Qed.

(** C2: In every state reachable from boot by enqueue, dequeue, set_next, put_prev, tick and
    task_dead of the class, called when [guard] says, with the rest of the scheduler in
    between, the invariant holds, and [rq->nr_running] counts, beside the tasks of the other
    classes, exactly the waiting HVF tasks, the one recorded as running, and those ([n]) that
    an exit has struck off the record and that have not been put back since. *)
Theorem hvf_reachable_accounting c s n s' r0 :
  booted s → k_rqs s !! c = Some r0 → hvf_run c s n s' →
  hvf_inv s' ∧ ∃ r, k_rqs s' !! c = Some r ∧
    u32 (nr_running r) = u32 (nr_running r0 + Z.of_nat (length (queue_of s' c)) + recorded (hvf_curr (rq_hvf r)) + n).
Proof.
  intros Hb Hr0 Hrun. destruct (booted_inv s Hb) as [Hi Hq].
  destruct (hvf_run_inv c s n s' _ Hi (abstract_rq _ _ _ Hr0) Hrun) as (Hi'&a'&Ha'&Ho').
  split; [done|]. unfold abstract in Ha'. destruct (k_rqs s' !! c) as [r|] eqn:Hr; [|done].
  injection Ha' as <-. exists r. split; [done|]. destruct (boot_rqs _ Hb c r0 Hr0) as [h Hh]. unfold others in Ho'. cbn in Ho'.
  rewrite Hq, Hh in Ho'. cbn in Ho'. pow_lia.
Qed.
End machine.
