(* ===== verification/HvfSmp.v ===== *)
(** CPU selection and migration of HVF tasks (kernel/sched/hvf.c under
    CONFIG_SMP): the CPUs of the affinity mask are sorted by load and the value of
    the task chooses one of them. *)
From S2P Require Import Prelude Rbtree KState HvfValue HvfClass.

(** [struct cpu_load]. *)
Record cpu_load := { cpu_num : Z; cl_nr_running : Z }.
#[export] Instance cpu_load_inhabited : Inhabited cpu_load := populate {| cpu_num := 0; cl_nr_running := 0 |}.

Definition compare_cpu_loads (a b : cpu_load) : Z :=
  if cl_nr_running b <? cl_nr_running a then 1
  else if cl_nr_running a =? cl_nr_running b then 0
  else -1.

(** [swap_cpu_loads]: the two elements at [a] and [b] of the array exchanged. *)
Definition swap_cpu_loads (loads : list cpu_load) (a b : nat) : list cpu_load :=
  match loads !! a, loads !! b with
  | Some tmp, Some y => <[b := tmp]> (<[a := y]> loads)
  | _, _ => loads
  end.

(** Library code the selection calls: [sort] (lib/sort.c), the number of CPU ids,
    and [kmalloc_array], whose memory holds arbitrary [cpu_load]s. *)
Class SmpLib := {
  lib_sort : (cpu_load → cpu_load → Z) → (list cpu_load → nat → nat → list cpu_load) →
             list cpu_load → list cpu_load;
  nr_cpu_ids : Z;
  kmalloc_array : nat → option (list cpu_load);
}.

(** Their documented behaviour: [sort] permutes the array and leaves it ordered by
    the comparison function, and an allocation has the requested length. *)
Class SmpLaws (S : SmpLib) : Prop := {
  lib_sort_perm l : lib_sort compare_cpu_loads swap_cpu_loads l ≡ₚ l;
  lib_sort_sorted l :
    StronglySorted (λ a b, compare_cpu_loads a b <= 0)
      (lib_sort compare_cpu_loads swap_cpu_loads l);
  kmalloc_array_length n l : kmalloc_array n = Some l → length l = n;
}.

Section ops.
Context {S : SmpLib}.

(** A cpumask is the number whose bit [c] stands for CPU [c]; [for_each_cpu]
    visits its CPUs in increasing order. *)
Definition mask_cpus (mask : Z) : list Z :=
  filter (λ c, Z.testbit mask c = true) (seqZ 0 nr_cpu_ids).

Definition cpus_ptr (t : task_struct) : Z :=
  match cpus_other t with Some m => m | None => cpus_mask t end.

(** The loop filling [loads]: [loads[i]] written out of the array is a stray
    write. *)
Fixpoint fill_loads (cpus : list Z) (i : nat) (loads : list cpu_load) : M (list cpu_load) :=
  match cpus with
  | [] => mret loads
  | c :: cpus' =>
      r ← cpu_rq c;
      if decide (i < length loads)%nat
      then fill_loads cpus' (Datatypes.S i)
             (<[i := {| cpu_num := c; cl_nr_running := nr_running r |}]> loads)
      else oops_with bad_pointer
  end.

Definition sort_cpu_loads_in_mask (mask : Z) (loads : list cpu_load) : M (list cpu_load) :=
  loads ← fill_loads (mask_cpus mask) 0 loads;
  mret (lib_sort compare_cpu_loads swap_cpu_loads loads).

(** The [for] loop of [get_right_cpu] from index [j], [n] iterations left. *)
Fixpoint right_cpu_loop (loads : list cpu_load) (sched_value chunk_size : Z) (j n : nat)
  : option Z :=
  match n with
  | O => None
  | Datatypes.S n' =>
      if u64 sched_value <? u64 (u64 (Z.of_nat j + 1) * chunk_size)
      then Some (cpu_num (loads !!! j))
      else right_cpu_loop loads sched_value chunk_size (j + 1) n'
  end.

Definition get_right_cpu (loads : list cpu_load) (sched_value : Z) (nr_cpus : nat) : M Z :=
  chunk_size ← div64 H (Z.of_nat nr_cpus);
  match right_cpu_loop loads sched_value chunk_size 0 nr_cpus with
  | Some c => mret c
  | None => mret (cpu_num (loads !!! (nr_cpus - 1)%nat))
  end.

Definition select_task_rq_hvf (p : tid) (prev : Z) (flags : Z) : M Z :=
  t ← task p;
  new_cpu ←
    (if negb (has flags (Z.lor WF_TTWU WF_FORK)) then mret prev
     else if nr_cpus_allowed t =? 1 then mret prev
     else
       let cpu_len := Z.to_nat (nr_cpus_allowed t) in
       loads ← deref (kmalloc_array cpu_len);
       loads ← sort_cpu_loads_in_mask (cpus_ptr t) loads;
       get_right_cpu loads (curr_sched_value (hvf t)) cpu_len);
  upd_se p (λ e, e <| prev_cpu := prev |> <| curr_cpu := new_cpu |>);;
  mret new_cpu.

Definition migrate_task_rq_hvf (p : tid) (new_cpu : Z) : M unit :=
  upd_se p (λ e, e <| curr_cpu := new_cpu |>);;
  t ← task p;
  let prev := prev_cpu (hvf t) in
  prev_rq ← cpu_rq prev;
  new_rq ← cpu_rq new_cpu;
  when (negb (prev =? new_cpu))
    (trace_printk (hvf_task_migrates (pid t) (curr_sched_value (hvf t))
                     prev (nr_running prev_rq) new_cpu (nr_running new_rq))).
End ops.

(** * Properties *)

(** The chunk of a value among [n] CPUs. *)
Definition chunk_index (v : Z) (n : nat) : nat :=
  Nat.min (Z.to_nat (v / (H / Z.of_nat n))) (n - 1).

Section right_cpu.
Context {S : SmpLib}.

Lemma right_cpu_loop_spec loads v chunk j n :
  0 <= v <= H → 0 < chunk → Z.of_nat (j + n) * chunk <= H →
  Z.of_nat j * chunk <= v →
  right_cpu_loop loads v chunk j n =
    if v <? Z.of_nat (j + n) * chunk
    then Some (cpu_num (loads !!! Z.to_nat (v / chunk))) else None.
Proof.
  intros Hv Hc. revert j. induction n as [|n IH]; intros j Hb Hj; cbn [right_cpu_loop].
  { rewrite Nat.add_0_r. destruct (Z.ltb_spec v (Z.of_nat j * chunk)); [lia|done]. }
  assert (Z.of_nat j + 1 <= H) by (sane; nia).
  rewrite (u64_small v), (u64_small (Z.of_nat j + 1)), u64_small by (sane; pow_lia || nia).
  destruct (Z.ltb_spec v ((Z.of_nat j + 1) * chunk)) as [Hlt|Hge].
  - assert (v / chunk = Z.of_nat j) as -> by (symmetry; apply Z.div_unique_pos with (v - Z.of_nat j * chunk); lia).
    rewrite Nat2Z.id. destruct (Z.ltb_spec v (Z.of_nat (j + Datatypes.S n) * chunk)); [done|nia].
  - rewrite IH by lia. by replace (j + 1 + n)%nat with (j + Datatypes.S n)%nat by lia.
Qed.

(** [get_right_cpu] divides the values [0..H] into one chunk per CPU and takes
    the CPU of the chunk, the last CPU for the remainder of the division. *)
Lemma get_right_cpu_spec s loads v n :
  0 <= v <= H → (1 <= n <= 100)%nat →
  wp (get_right_cpu loads v n) s (λ c s', s' = s ∧ c = cpu_num (loads !!! chunk_index v n)).
Proof.
  intros Hv Hn. unfold get_right_cpu, div64, c_div64.
  destruct (Z.eqb_spec (Z.of_nat n) 0); [lia|].
  destruct (Z.eqb_spec (Z.of_nat n) (-1)); [lia|]. rewrite andb_false_r. cbn [orb].
  wp_steps. rewrite Z.quot_div_nonneg by (sane; lia).
  set (chunk := H / Z.of_nat n).
  assert (0 < chunk ∧ Z.of_nat n * chunk <= H) as [Hc Hb].
  { subst chunk. sane. split; [apply Z.div_str_pos; lia|apply Z.mul_div_le; lia]. }
  rewrite right_cpu_loop_spec by (done || lia). cbn [Nat.add]. unfold chunk_index. fold chunk.
  destruct (Z.ltb_spec v (Z.of_nat n * chunk)) as [Hlt|Hge]; wp_steps; (split; [done|]); do 2 f_equal.
  - assert (v / chunk < Z.of_nat n) by (apply Z.div_lt_upper_bound; lia).
    assert (0 <= v / chunk) by (apply Z.div_pos; lia). lia.
  - assert (Z.of_nat n <= v / chunk) by (apply Z.div_le_lower_bound; lia). lia.
Qed.

(** With more than [H] CPUs the chunk size is zero and every task, whatever its
    value, goes to the most loaded CPU. *)
Theorem get_right_cpu_many s loads v n :
  0 <= v → (100 < n)%nat →
  wp (get_right_cpu loads v n) s (λ c s', s' = s ∧ c = cpu_num (loads !!! (n - 1)%nat)).
Proof.
  intros Hv Hn. unfold get_right_cpu, div64, c_div64.
  destruct (Z.eqb_spec (Z.of_nat n) 0); [lia|].
  destruct (Z.eqb_spec (Z.of_nat n) (-1)); [lia|]. rewrite andb_false_r. cbn [orb].
  wp_steps. rewrite Z.quot_small by (sane; lia).
  assert (∀ j k, right_cpu_loop loads v 0 j k = None) as ->; [|by wp_steps].
  intros j k. revert j. induction k as [|k IH]; intros j; cbn; [done|].
  rewrite Z.mul_0_r, IH. destruct (Z.ltb_spec (u64 v) (u64 0)); [|done].
  unfold u64 in *. rewrite Z.mod_0_l in * by done.
  pose proof (Z.mod_pos_bound v (2 ^ 64)). lia.
Qed.

(** ** Filling the array *)

Definition load_of (s : kstate) (c : Z) : cpu_load :=
  {| cpu_num := c;
     cl_nr_running := match k_rqs s !! c with Some r => nr_running r | None => 0 end |}.

Lemma wp_fill_loads s cpus i loads Q :
  (∀ c, c ∈ cpus → is_Some (k_rqs s !! c)) → (i + length cpus = length loads)%nat →
  Q (take i loads ++ map (load_of s) cpus) s →
  wp (fill_loads cpus i loads) s Q.
Proof.
  revert i loads. induction cpus as [|c cpus IH]; intros i loads Hr Hlen HQ; cbn [fill_loads].
  - apply wp_ret. cbn in *. by rewrite take_ge, app_nil_r in HQ by lia.
  - destruct (Hr c) as [r Hc]; [set_solver|]. wp_steps. cbn in Hlen.
    rewrite decide_True by lia. apply IH; [set_solver|rewrite length_insert; lia|].
    erewrite take_S_r by (apply list_lookup_insert_eq; lia).
    rewrite take_insert_ge by lia. rewrite <-app_assoc. cbn in *.
    unfold load_of at 1 in HQ. by rewrite Hc in HQ.
Qed.
End right_cpu.

Section select.
Context {S : SmpLib} `{!SmpLaws S}.

Lemma sorted_loads_monotone loads i j a b :
  StronglySorted (λ a b, compare_cpu_loads a b <= 0) loads →
  (i <= j)%nat → loads !! i = Some a → loads !! j = Some b →
  cl_nr_running a <= cl_nr_running b.
Proof.
  intros Hs Hij Ha Hb. destruct (decide (i = j)) as [->|]; [by simplify_eq|].
  assert (compare_cpu_loads a b <= 0) as Hcmp.
  { rewrite <-(take_drop (Datatypes.S i) loads) in Hs.
    eapply (StronglySorted_app_1_elem_of _ _ _ a b Hs).
    - apply list_elem_of_lookup. exists i. rewrite lookup_take_lt by lia. done.
    - apply list_elem_of_lookup. exists (j - Datatypes.S i)%nat. rewrite lookup_drop.
      by replace (Datatypes.S i + (j - Datatypes.S i))%nat with j by lia. }
  unfold compare_cpu_loads in Hcmp. repeat case_match; lia.
Qed.

(** What [select_task_rq_hvf] promises on a wake-up or fork of a task with at
    least two allowed CPUs: the CPUs of the mask in increasing load order, and
    the one of the chunk of the task's value. *)
Definition placement (s : kstate) (t : task_struct) (c : Z) : Prop :=
  ∃ loads, loads ≡ₚ map (load_of s) (mask_cpus (cpus_ptr t)) ∧
    StronglySorted (λ a b, compare_cpu_loads a b <= 0) loads ∧
    c = cpu_num (loads !!! chunk_index (curr_sched_value (hvf t)) (length loads)).

Lemma placement_in_mask s t c :
  mask_cpus (cpus_ptr t) ≠ [] → placement s t c → c ∈ mask_cpus (cpus_ptr t).
Proof.
  intros Hne (loads&Hp&_&->).
  assert (0 < length loads)%nat.
  { rewrite Hp, length_map. destruct (mask_cpus _); [done|cbn; lia]. }
  destruct (lookup_lt_is_Some_2 loads (chunk_index (curr_sched_value (hvf t)) (length loads)))
    as [l Hl]; [unfold chunk_index; lia|].
  rewrite (list_lookup_total_correct _ _ _ Hl).
  apply list_elem_of_lookup_2 in Hl. rewrite Hp in Hl.
  apply list_elem_of_fmap in Hl as (c&->&Hc). done.
Qed.

(** The task with a selection recorded in its entity. *)
Definition selected (t : task_struct) (prev c : Z) : task_struct :=
  t <| hvf ::= λ e, e <| prev_cpu := prev |> <| curr_cpu := c |> |>.

(** What the selection needs: a value in range, at least two and at most [H] allowed
    CPUs, all of them present, and memory for the array. *)
Record selectable (s : kstate) (t : task_struct) : Prop := {
  sel_value : 0 <= curr_sched_value (hvf t) <= H;
  sel_count : 1 < nr_cpus_allowed t <= 100;
  sel_weight : length (mask_cpus (cpus_ptr t)) = Z.to_nat (nr_cpus_allowed t);
  sel_rqs c : c ∈ mask_cpus (cpus_ptr t) → is_Some (k_rqs s !! c);
  sel_mem : is_Some (kmalloc_array (Z.to_nat (nr_cpus_allowed t)));
}.

Lemma wp_select_hvf s p t prev flags Q :
  k_tasks s !! p = Some t → has flags (Z.lor WF_TTWU WF_FORK) = true → selectable s t →
  (∀ c, placement s t c → c ∈ mask_cpus (cpus_ptr t) →
     Q c (s <| k_tasks := <[p := selected t prev c]> (k_tasks s) |>)) →
  wp (select_task_rq_hvf p prev flags) s Q.
Proof.
  intros Ht Hf [Hv Hn Hw Hr [mem Hmem]] HQ. unfold select_task_rq_hvf, sort_cpu_loads_in_mask, upd_se.
  wp_step. wp_step. rewrite Hf. cbn [negb].
  destruct (Z.eqb_spec (nr_cpus_allowed t) 1); [lia|]. rewrite Hmem. wp_steps.
  apply wp_fill_loads; [done|by rewrite (kmalloc_array_length _ _ Hmem)|].
  cbn [take app]. wp_steps.
  set (loads := lib_sort _ _ _).
  assert (loads ≡ₚ map (load_of s) (mask_cpus (cpus_ptr t))) as Hp by apply lib_sort_perm.
  assert (length loads = Z.to_nat (nr_cpus_allowed t)) as Hlen
    by (rewrite Hp, length_map; done).
  eapply wp_mono; [apply get_right_cpu_spec; [done|lia]|].
  intros c s' [-> ->]. wp_steps. rewrite <-Hlen.
  assert (placement s t (cpu_num (loads !!!
    chunk_index (curr_sched_value (hvf t)) (length loads)))) as Hpl.
  { exists loads. split_and!; [done|apply lib_sort_sorted|done]. }
  apply HQ; [done|]. eapply placement_in_mask, Hpl. intros E. rewrite E in Hw. cbn in Hw. lia.
Qed.

(** C38: On a wake-up or fork of a task with a value from 0 to 100 that may run on 2 to 100
    CPUs, all of them present, and with memory for the array of loads ([selectable]), the
    CPU selected is an allowed one: that of the chunk of the task's value among the allowed CPUs in
    increasing order of load.  It is recorded in the task, no run queue changes. *)
Theorem select_task_rq_hvf_spec s p t prev flags :
  k_tasks s !! p = Some t → has flags (Z.lor WF_TTWU WF_FORK) = true → selectable s t →
  wp (select_task_rq_hvf p prev flags) s (λ c s',
    placement s t c ∧ c ∈ mask_cpus (cpus_ptr t) ∧
    k_rqs s' = k_rqs s ∧ ∃ t', k_tasks s' !! p = Some t' ∧
    prev_cpu (hvf t') = prev ∧ curr_cpu (hvf t') = c).
Proof.
  intros Ht Hf Hsel. eapply wp_select_hvf; [done..|]. intros c Hpl Hc.
  split_and!; [done..|]. eexists. split; [apply lookup_insert_eq|]. done.
Qed.

(** Between two tasks with the same mask, the one with the smaller value is not
    placed on a more loaded CPU. *)
Theorem placement_follows_value loads i j a b v w n :
  StronglySorted (λ a b, compare_cpu_loads a b <= 0) loads → length loads = n →
  v <= w → 0 <= v → (1 <= n <= 100)%nat →
  i = chunk_index v n → j = chunk_index w n →
  loads !! i = Some a → loads !! j = Some b → cl_nr_running a <= cl_nr_running b.
Proof.
  intros Hs Hlen Hvw Hv Hn -> ->. apply sorted_loads_monotone; [done|]. unfold chunk_index.
  assert (0 < H / Z.of_nat n) as Hpos by (sane; apply Z.div_str_pos; lia).
  assert (v / (H / Z.of_nat n) <= w / (H / Z.of_nat n)) by (apply Z.div_le_mono; lia). lia.
Qed.
End select.
