(* ===== verification/SchedSys.v ===== *)
(** The three system calls by which a process manages its HVF parameters
    (my_sched_syscalls/sched_sys.c): [set_scheduling_params],
    [get_scheduling_params] and [get_scheduling_score]. *)
From S2P Require Import Prelude Rbtree KState HvfValue.

(** [#define M 1000] of sched_sys.c. *)
Definition M_ms := 1000.

(** [struct d_params] (uapi/linux/my_sched_sys.h): the byte offsets of its
    fields; each is an 8-byte [long]. *)
Definition d_params_deadline_1 := 0.
Definition d_params_deadline_2 := 8.
Definition d_params_computation_time := 16.
Definition sizeof_d_params := 24.

(** User memory by the address of its 8-byte words, and the kernel's access to it
    (linux/uaccess.h): [copy_to_user_long dst v mem] is the number of bytes not
    copied and the memory afterwards. *)
Abbreviation umem := (gmap Z Z) (only parsing).
Class UAccess := {
  access_ok : Z → Z → bool;
  copy_to_user_long : Z → Z → gmap Z Z → Z * gmap Z Z;
}.
Class UAccessLaws (U : UAccess) : Prop := {
  copy_complete dst v mem mem' : copy_to_user_long dst v mem = (0, mem') → mem' = <[dst := v]> mem;
  copy_frame dst v mem n mem' a :
    copy_to_user_long dst v mem = (n, mem') → a ≠ dst → mem' !! a = mem !! a;
}.

Definition set_scheduling_params (d1 d2 ct : Z) : M Z :=
  now ← ktime_get_real_ts64;
  cur ← current;
  let condition_1 := ((0 <? d1) && (0 <? d2)) && (d1 <? d2) in
  let condition_2 := wrap64 (wrap64 (tv_sec now * M_ms) + ct) <? wrap64 (d2 * M_ms) in
  if condition_1 && condition_2 then
    upd_task cur (λ t, t <| deadline_1 := d1 |> <| deadline_2 := d2 |>
                         <| computation_time := ct |> <| pars_set := true |>);;
    mret 0
  else mret (- EINVAL).

Section user.
Context {U : UAccess}.

Definition get_scheduling_params (params : Z) (mem : gmap Z Z) : M (Z * gmap Z Z) :=
  if negb (params =? 0) && access_ok params sizeof_d_params then
    cur ← current;
    t ← task cur;
    let '(n1, mem1) := copy_to_user_long (params + d_params_deadline_1) (deadline_1 t) mem in
    if negb (n1 =? 0) then mret (- EFAULT, mem1) else
    let '(n2, mem2) := copy_to_user_long (params + d_params_deadline_2) (deadline_2 t) mem1 in
    if negb (n2 =? 0) then mret (- EFAULT, mem2) else
    let '(n3, mem3) :=
      copy_to_user_long (params + d_params_computation_time) (computation_time t) mem2 in
    if negb (n3 =? 0) then mret (- EFAULT, mem3) else
    mret (0, mem3)
  else mret (- EINVAL, mem).
End user.

Definition get_scheduling_score : M Z :=
  now ← ktime_get_real_ts64;
  cur ← current;
  t ← task cur;
  let D1 := deadline_1 t in
  let D2 := deadline_2 t in
  let D3 := tv_sec now in
  if D3 <? D1 then mret H
  else if D2 <? D3 then mret 0
  else div64 (wrap64 (wrap64 (D2 - D3) * 100)) (wrap64 (D2 - D1)).

(** * Properties *)

(** The parameters the kernel accepts at second [now]. *)
Definition acceptable (now d1 d2 ct : Z) : Prop := 0 < d1 < d2 ∧ now * 1000 + ct < d2 * 1000.
#[export] Instance acceptable_dec now d1 d2 ct : Decision (acceptable now d1 d2 ct).
Proof. unfold acceptable. apply _. Defined.

Section set.
Implicit Types (s : kstate) (t : task_struct).

(** C36: For a clock below 2^42 s, a second deadline below 2^43 s and a computation time
    of less than 2^52 ms either way, where no product or sum leaves 64 bits, acceptable
    parameters are stored in the calling task, and anything else is refused with [EINVAL]
    and changes no task.  [set_scheduling_params_overflow] shows the range is needed. *)
Theorem set_scheduling_params_spec s r t d1 d2 ct :
  k_rqs s !! k_cpu s = Some r → k_tasks s !! curr r = Some t →
  let now := tv_sec (k_clock s (k_reads s)) in
  0 <= now < 2 ^ 42 → d2 < 2 ^ 43 → - 2 ^ 52 < ct < 2 ^ 52 →
  wp (set_scheduling_params d1 d2 ct) s (λ ret s',
    if decide (acceptable now d1 d2 ct) then
      ret = 0 ∧ k_tasks s' = <[curr r := t <| deadline_1 := d1 |> <| deadline_2 := d2 |>
                                 <| computation_time := ct |> <| pars_set := true |>]> (k_tasks s)
    else ret = - EINVAL ∧ k_tasks s' = k_tasks s).
Proof.
  intros Hr Ht now Hnow Hd2 Hct. unfold set_scheduling_params. wp_steps.
  eapply (wp_current r); [done|]. wp_steps. fold now.
  destruct (Z.leb_spec d2 0).
  { replace (_ && _) with false by lia. wp_steps. rewrite decide_False by (unfold acceptable; lia). by split. }
  rewrite (wrap64_small (now * M_ms)), !wrap64_small
    by (unfold M_ms; change (2 ^ 42) with 4398046511104 in *;
        change (2 ^ 43) with 8796093022208 in *;
        change (2 ^ 52) with 4503599627370496 in *; sane; lia).
  unfold M_ms. destruct (decide (acceptable now d1 d2 ct)) as [[? ?]|Hno].
  - replace (_ && _) with true by lia. wp_steps. by split.
  - replace (_ && _) with false by (unfold acceptable in Hno; lia). by wp_steps.
Qed.

(** The sum of the time and the computation time is not checked for overflow: with the
    greatest computation time it is negative, and deadlines that cannot be reached are
    accepted and stored. *)
Theorem set_scheduling_params_overflow s r t d1 d2 :
  k_rqs s !! k_cpu s = Some r → k_tasks s !! curr r = Some t →
  let now := tv_sec (k_clock s (k_reads s)) in let ct := 2 ^ 63 - 1 in
  0 < now < 2 ^ 42 → 0 < d1 < d2 → d2 < 2 ^ 43 →
  ¬ acceptable now d1 d2 ct ∧
  wp (set_scheduling_params d1 d2 ct) s (λ ret s',
    ret = 0 ∧ ∃ t', k_tasks s' !! curr r = Some t' ∧ computation_time t' = ct ∧ pars_set t' = true).
Proof.
  intros Hr Ht now ct Hnow Hd Hd2. unfold ct. change (2 ^ 63 - 1) with 9223372036854775807.
  change (2 ^ 42) with 4398046511104 in *. change (2 ^ 43) with 8796093022208 in *.
  split; [unfold acceptable; lia|]. unfold set_scheduling_params. wp_steps.
  eapply (wp_current r); [done|]. wp_steps. fold now. unfold M_ms.
  rewrite (wrap64_small (now * 1000)), (wrap64_small (d2 * 1000)) by (sane; lia).
  assert (wrap64 (now * 1000 + 9223372036854775807) < 0) as Hw by pow_lia.
  replace (_ && _) with true by lia. wp_steps. split; [done|]. eexists. split; [apply lookup_insert_eq|done].
Qed.

(** Accepted parameters always give a value: whatever time the task starts at,
    computing its initial value divides by a positive number. *)
Theorem accepted_params_have_value now first d1 d2 ct :
  acceptable now d1 d2 ct → d2 < 2 ^ 43 → - 2 ^ 53 < first + ct < 2 ^ 53 →
  ∃ V, init_value first ct d1 d2 = Some V ∧ 0 <= V <= H.
Proof.
  intros [Hd _] Hd2 Hx. exists (value_spec (first + ct) d1 d2). split.
  - apply init_value_spec. sane. lia.
  - apply value_spec_range. lia.
Qed.
End set.

Section get.
Context {U : UAccess} `{!UAccessLaws U}.

(** After a successful read the user's structure holds the three parameters of
    the calling task. *)
Lemma get_scheduling_params_ok s r t params mem :
  k_rqs s !! k_cpu s = Some r → k_tasks s !! curr r = Some t →
  wp (get_scheduling_params params mem) s (λ '(ret, mem') s', s' = s ∧
    (ret = 0 →
       params ≠ 0 ∧ access_ok params sizeof_d_params = true ∧
       mem' !! (params + d_params_deadline_1) = Some (deadline_1 t) ∧
       mem' !! (params + d_params_deadline_2) = Some (deadline_2 t) ∧
       mem' !! (params + d_params_computation_time) = Some (computation_time t)) ∧
    (ret = - EINVAL → mem' = mem) ∧
    (ret = 0 ∨ ret = - EINVAL ∨ ret = - EFAULT)).
Proof.
  intros Hr Ht. unfold get_scheduling_params.
  destruct (negb (params =? 0) && access_ok params sizeof_d_params) eqn:Hc; cycle 1.
  { wp_steps. split_and!; auto. done. }
  wp_steps. eapply (wp_current r); [done|]. wp_steps.
  unfold d_params_deadline_1, d_params_deadline_2, d_params_computation_time.
  destruct (copy_to_user_long (params + 0) _ _) as [n1 mem1] eqn:E1.
  destruct (Z.eqb_spec n1 0) as [->|]; cbn [negb];
    [|wp_steps; split_and!; [done|done|done|auto]].
  destruct (copy_to_user_long (params + 8) _ _) as [n2 mem2] eqn:E2.
  destruct (Z.eqb_spec n2 0) as [->|]; cbn [negb];
    [|wp_steps; split_and!; [done|done|done|auto]].
  destruct (copy_to_user_long (params + 16) _ _) as [n3 mem3] eqn:E3.
  destruct (Z.eqb_spec n3 0) as [->|]; cbn [negb];
    [|wp_steps; split_and!; [done|done|done|auto]].
  apply copy_complete in E1, E2, E3. subst mem1 mem2 mem3.
  wp_steps. split_and!; [done| |done|auto]. intros _.
  split_and!; [lia|by destruct (access_ok params sizeof_d_params); [|lia]|..].
  - by rewrite !lookup_insert_ne, lookup_insert_eq by lia.
  - by rewrite lookup_insert_ne, lookup_insert_eq by lia.
  - by rewrite lookup_insert_eq.
Qed.

(** C37: Reading back what was set. *)
Theorem set_get_roundtrip s r t d1 d2 ct params mem :
  k_rqs s !! k_cpu s = Some r → k_tasks s !! curr r = Some t →
  wp (ret ← set_scheduling_params d1 d2 ct;
      '(ret', mem') ← get_scheduling_params params mem;
      mret (ret, ret', mem')) s (λ '(ret, ret', mem') _,
    ret = 0 → ret' = 0 →
    mem' !! (params + d_params_deadline_1) = Some d1 ∧
    mem' !! (params + d_params_deadline_2) = Some d2 ∧
    mem' !! (params + d_params_computation_time) = Some ct).
Proof.
  intros Hr Ht. apply wp_bind. unfold set_scheduling_params. wp_steps.
  eapply (wp_current r); [done|]. wp_steps.
  destruct (_ && _); wp_steps.
  - eapply wp_mono; [eapply (get_scheduling_params_ok _ r); [done|apply lookup_insert_eq]|].
    intros [ret' mem'] s' (->&Hok&_&_). apply wp_ret. intros _ Hret'.
    by destruct (Hok Hret') as (?&?&?&?&?).
  - eapply wp_mono; [by eapply (get_scheduling_params_ok _ r)|].
    intros [ret' mem'] s' (->&_). by apply wp_ret.
Qed.
End get.

(** The score is the value function of hvf.c evaluated at the current second, and
    is always defined for parameters set through the system call. *)
Theorem get_scheduling_score_spec s r t :
  k_rqs s !! k_cpu s = Some r → k_tasks s !! curr r = Some t →
  let now := tv_sec (k_clock s (k_reads s)) in
  0 < now < 2 ^ 42 → 0 < deadline_1 t < deadline_2 t → deadline_2 t < 2 ^ 43 →
  wp get_scheduling_score s (λ ret s', k_tasks s' = k_tasks s ∧ k_rqs s' = k_rqs s ∧
    ret = value_spec (now * K) (deadline_1 t) (deadline_2 t) ∧ 0 <= ret <= H).
Proof.
  intros Hr Ht now Hnow Hd Hd2. unfold get_scheduling_score. wp_steps.
  eapply (wp_current r); [done|]. wp_steps. fold now.
  pose proof (value_spec_range (now * K) (deadline_1 t) (deadline_2 t)) as Hrange.
  unfold value_spec in *. change (2 ^ 42) with 4398046511104 in *.
  destruct (Z.ltb_spec now (deadline_1 t)) as [Ha|Ha],
    (Z.ltb_spec (now * K) (deadline_1 t * K)) as [Hb|Hb];
    [wp_steps; split_and!; sane; (done || lia)|sane; lia..|].
  destruct (Z.ltb_spec (deadline_2 t) now) as [Hc|Hc],
    (Z.ltb_spec (deadline_2 t * K) (now * K)) as [He|He];
    [wp_steps; split_and!; sane; (done || lia)|sane; lia..|].
  unfold div64, c_div64.
  rewrite !(wrap64_small (deadline_2 t - _)), wrap64_small by (sane; lia).
  destruct (Z.eqb_spec (deadline_2 t - deadline_1 t) 0); [lia|].
  destruct (Z.eqb_spec (deadline_2 t - deadline_1 t) (-1)); [lia|].
  rewrite andb_false_r. cbn [orb]. wp_steps.
  assert ((deadline_2 t - now) * 100 ÷ (deadline_2 t - deadline_1 t) =
          (deadline_2 t * K - now * K) * H / ((deadline_2 t - deadline_1 t) * K)) as ->.
  { rewrite Z.quot_div_nonneg by lia.
    replace ((deadline_2 t * K - now * K) * H) with (((deadline_2 t - now) * 100) * K)
      by (sane; lia).
    symmetry. apply Z.div_mul_cancel_r; sane; lia. }
  split_and!; (done || apply Hrange; lia).
Qed.
