(* ===== verification/Policy.v ===== *)
(** Policies, priorities and the order of the scheduling classes: the predicates
    of kernel/sched/sched.h, the priority arithmetic of kernel/sched/syscalls.c,
    [__setscheduler_class], [__task_prio] and [prio_less] of kernel/sched/core.c
    and the class layout of include/asm-generic/vmlinux.lds.h. *)
From S2P Require Import Prelude Rbtree KState.

(** * Priorities *)

(** The priority scale: deadline tasks have priority -1, real-time tasks 0..99,
    the others 100..139, nice 0 being 120 (the table above [task_prio] in
    syscalls.c and the comments of [__task_prio] in core.c). *)
Definition MAX_DL_PRIO := 0.
Definition MAX_RT_PRIO := 100.
Definition MIN_NICE := -20.
Definition MAX_NICE := 19.
Definition NICE_WIDTH := 40.
Definition DEFAULT_PRIO := 120.
Definition NICE_TO_PRIO (nice : Z) : Z := nice + DEFAULT_PRIO.
Definition PRIO_TO_NICE (prio : Z) : Z := prio - DEFAULT_PRIO.
Definition dl_prio (prio : Z) : bool := prio <? MAX_DL_PRIO.
Definition rt_prio (prio : Z) : bool := (MAX_DL_PRIO <=? prio) && (prio <? MAX_RT_PRIO).
Definition rt_or_dl_prio (prio : Z) : bool := prio <? MAX_RT_PRIO.
Definition rt_task (t : task_struct) : bool := rt_prio (prio t).
Definition dl_task (t : task_struct) : bool := dl_prio (prio t).
Definition task_nice (t : task_struct) : Z := PRIO_TO_NICE (static_prio t).

(** * Policies *)

Definition idle_policy (policy : Z) : bool := policy =? SCHED_IDLE.
Definition normal_policy (policy : Z) : bool := (policy =? SCHED_EXT) || (policy =? SCHED_NORMAL).
Definition fair_policy (policy : Z) : bool := normal_policy policy || (policy =? SCHED_BATCH).
Definition rt_policy (policy : Z) : bool := (policy =? SCHED_FIFO) || (policy =? SCHED_RR).
Definition dl_policy (policy : Z) : bool := policy =? SCHED_DEADLINE.
Definition hvf_policy (policy : Z) : bool := policy =? SCHED_HVF.
Definition valid_policy (policy : Z) : bool :=
  idle_policy policy || fair_policy policy || rt_policy policy || dl_policy policy ||
  hvf_policy policy.

Definition task_has_idle_policy (t : task_struct) : bool := idle_policy (policy t).
Definition task_has_rt_policy (t : task_struct) : bool := rt_policy (policy t).
Definition task_has_dl_policy (t : task_struct) : bool := dl_policy (policy t).

Definition __normal_prio (policy rt_prio nice : Z) : Z :=
  if dl_policy policy then MAX_DL_PRIO - 1
  else if rt_policy policy then MAX_RT_PRIO - 1 - rt_prio
  else NICE_TO_PRIO nice.

Definition normal_prio_of (t : task_struct) : Z :=
  __normal_prio (policy t) (rt_priority t) (PRIO_TO_NICE (static_prio t)).

(** [effective_prio]: stores the normal priority and returns the priority in
    force. *)
Definition effective_prio (t : task_struct) : Z * task_struct :=
  let t' := t <| normal_prio := normal_prio_of t |> in
  (if negb (rt_or_dl_prio (prio t')) then normal_prio t' else prio t', t').

Definition task_prio (t : task_struct) : Z := prio t - MAX_RT_PRIO.

(** * Scheduling classes *)

(** What the sources use of the extensible class (kernel/sched/ext.c, which is
    not in the repository): whether a BPF scheduler is loaded, whether it has
    taken over all fair tasks, and which policies and tasks it manages. *)
Class Ext := {
  scx_enabled : bool;
  scx_switched_all : bool;
  task_should_scx : Z → bool;
  task_on_scx : task_struct → bool;
  scx_check_setscheduler : task_struct → Z → Z;
}.

(** Its documented behaviour: it takes over fair tasks only when it is enabled,
    and it manages tasks of no other policy than the fair ones and SCHED_IDLE. *)
Class ExtLaws (E : Ext) : Prop := {
  scx_switched_enabled : scx_switched_all = true → scx_enabled = true;
  scx_should_enabled policy : task_should_scx policy = true → scx_enabled = true;
}.

(** [SCHED_DATA]: the class structures in the order the linker script puts them
    in memory; the address of a class is its index. *)
Definition SCHED_DATA : list sched_class_id :=
  [stop_sched_class; dl_sched_class; rt_sched_class; fair_sched_class;
   ext_sched_class; hvf_sched_class; idle_sched_class].
Definition class_addr (c : sched_class_id) : nat :=
  match c with
  | stop_sched_class => 0 | dl_sched_class => 1 | rt_sched_class => 2
  | fair_sched_class => 3 | ext_sched_class => 4 | hvf_sched_class => 5
  | idle_sched_class => 6
  end%nat.
Definition __sched_class_highest : nat := 0.
Definition __sched_class_lowest : nat := length SCHED_DATA.

Definition sched_class_above (a b : sched_class_id) : bool :=
  bool_decide (class_addr a < class_addr b)%nat.

(** The layout checks at the start of [sched_init]. *)
Definition sched_init_class_order : M unit :=
  let BUG_ON b := if b : bool then oops_with kernel_bug else skip in
  BUG_ON (negb (sched_class_above stop_sched_class dl_sched_class));;
  BUG_ON (negb (sched_class_above dl_sched_class rt_sched_class));;
  BUG_ON (negb (sched_class_above rt_sched_class fair_sched_class));;
  BUG_ON (negb (sched_class_above fair_sched_class hvf_sched_class));;
  BUG_ON (negb (sched_class_above hvf_sched_class idle_sched_class));;
  BUG_ON (negb (sched_class_above fair_sched_class ext_sched_class));;
  BUG_ON (negb (sched_class_above ext_sched_class hvf_sched_class)).

Section classes.
Context {E : Ext}.

(** On addresses, since the loops step past the last class. *)
Definition next_active_class (class : nat) : nat :=
  let class := S class in
  let class := if scx_switched_all && bool_decide (class = class_addr fair_sched_class)
               then S class else class in
  if negb scx_enabled && bool_decide (class = class_addr ext_sched_class)
  then S class else class.

(** The classes [for_active_class_range] visits.  The loop compares addresses
    with [!=]; the fuel bounds it by the number of classes. *)
Fixpoint active_range (fuel class to : nat) : list sched_class_id :=
  match fuel with
  | O => []
  | S fuel' =>
      if bool_decide (class = to) then []
      else match SCHED_DATA !! class with
           | Some c => c :: active_range fuel' (next_active_class class) to
           | None => []
           end
  end.
Definition for_active_class_range (from to : nat) : list sched_class_id :=
  active_range (length SCHED_DATA) from to.
Definition for_each_active_class : list sched_class_id :=
  for_active_class_range __sched_class_highest __sched_class_lowest.

Definition __setscheduler_class (policy prio : Z) : sched_class_id :=
  if dl_prio prio then dl_sched_class
  else if rt_prio prio then rt_sched_class
  else if hvf_policy policy then hvf_sched_class
  else if task_should_scx policy then ext_sched_class
  else fair_sched_class.

Definition __task_prio (t : task_struct) : Z :=
  if bool_decide (sched_class t = stop_sched_class) then -2
  else if bool_decide (dl_server t ≠ None) then -1
  else if rt_or_dl_prio (prio t) then prio t
  else if bool_decide (sched_class t = idle_sched_class) then MAX_RT_PRIO + NICE_WIDTH
  else if task_on_scx t then MAX_RT_PRIO + MAX_NICE + 1
  else MAX_RT_PRIO + MAX_NICE.

(** [prio_less]; the deadlines of the deadline entities and the comparisons
    inside the fair and the extensible class belong to code that is not in the
    repository. *)
Definition prio_less (dl_deadline : task_struct → Z) (server_deadline : Z → Z)
    (cfs_prio_less scx_prio_less : task_struct → task_struct → bool)
    (a b : task_struct) : bool :=
  let pa := __task_prio a in
  let pb := __task_prio b in
  let deadline t := match dl_server t with Some d => server_deadline d | None => dl_deadline t end in
  if - pa <? - pb then true
  else if - pb <? - pa then false
  else if pa =? -1 then
    (* !dl_time_before: the sign of the 64-bit difference *)
    negb (wrap64 (deadline a - deadline b) <? 0)
  else if pa =? MAX_RT_PRIO + MAX_NICE then cfs_prio_less a b
  else if pa =? MAX_RT_PRIO + MAX_NICE + 1 then scx_prio_less a b
  else false.
End classes.

(** * Properties *)

(** The classes that can hold tasks under the current state of the extensible
    class. *)
Definition class_active {E : Ext} (c : sched_class_id) : bool :=
  negb (scx_switched_all && bool_decide (c = fair_sched_class)) &&
  negb (negb scx_enabled && bool_decide (c = ext_sched_class)).

(** The layout passes the checks of [sched_init], and the loop over the active
    classes visits exactly the active classes, in decreasing priority, with the
    HVF class last before idle. *)
Theorem active_classes_order {E : Ext} {EL : ExtLaws E} :
  (∀ s, sched_init_class_order s = Ok (tt, s)) ∧
  for_each_active_class = filter (λ c, class_active c = true) SCHED_DATA ∧
  StronglySorted (λ a b, sched_class_above a b = true) for_each_active_class ∧
  (∃ l, for_each_active_class = l ++ [hvf_sched_class; idle_sched_class]) ∧
  (∀ c, class_active c = true → c ≠ idle_sched_class →
    for_active_class_range (class_addr c) (class_addr idle_sched_class) ++ [idle_sched_class] =
    filter (λ c', class_active c' = true ∧ ~ (sched_class_above c' c = true)) SCHED_DATA).
Proof.
  pose proof scx_switched_enabled as Hlaw.
  unfold for_each_active_class, for_active_class_range, active_range, next_active_class,
    class_active in *.
  destruct scx_enabled, scx_switched_all; try (by discriminate Hlaw); [| |];
    (split_and!; [done|vm_compute; reflexivity|vm_compute; repeat constructor| |
                  intros []; try done; vm_compute; reflexivity]).
  - by exists [stop_sched_class; dl_sched_class; rt_sched_class; ext_sched_class].
  - by exists [stop_sched_class; dl_sched_class; rt_sched_class; fair_sched_class; ext_sched_class].
  - by exists [stop_sched_class; dl_sched_class; rt_sched_class; fair_sched_class].
Qed.

(** The class a task of each policy gets, at the priority its attributes give. *)
Definition class_of_policy {E : Ext} (policy : Z) : sched_class_id :=
  if dl_policy policy then dl_sched_class
  else if rt_policy policy then rt_sched_class
  else if hvf_policy policy then hvf_sched_class
  else if task_should_scx policy then ext_sched_class
  else fair_sched_class.

(** C39: For every policy, valid real-time priority and valid nice value, the
    normal priority lies in the range of the policy, and the class chosen for it
    is the class of the policy: HVF tasks, and only they, get the HVF class. *)
Theorem setscheduler_class_of_policy {E : Ext} policy rtp nice :
  (rt_policy policy = true → 1 <= rtp <= MAX_RT_PRIO - 1) →
  MIN_NICE <= nice <= MAX_NICE →
  let prio := __normal_prio policy rtp nice in
  -1 <= prio < MAX_RT_PRIO + NICE_WIDTH ∧
  (dl_prio prio = dl_policy policy) ∧ (rt_prio prio = rt_policy policy) ∧
  __setscheduler_class policy prio = class_of_policy policy ∧
  (__setscheduler_class policy prio = hvf_sched_class ↔ policy = SCHED_HVF) ∧
  (rt_or_dl_prio prio = false → PRIO_TO_NICE prio = nice).
Proof.
  intros Hrt Hn. cbn zeta. unfold __normal_prio, __setscheduler_class, class_of_policy.
  assert (dl_policy policy = true → rt_policy policy = false ∧ hvf_policy policy = false) as H1.
  { unfold dl_policy, rt_policy, hvf_policy, SCHED_DEADLINE, SCHED_FIFO, SCHED_RR, SCHED_HVF.
    intros ->%Z.eqb_eq. done. }
  assert (rt_policy policy = true → hvf_policy policy = false) as H2.
  { unfold rt_policy, hvf_policy, SCHED_FIFO, SCHED_RR, SCHED_HVF.
    intros [->%Z.eqb_eq | ->%Z.eqb_eq]%orb_true_iff; done. }
  assert (hvf_policy policy = true ↔ policy = SCHED_HVF) as H3 by apply Z.eqb_eq.
  unfold rt_or_dl_prio, dl_prio, rt_prio, NICE_TO_PRIO, PRIO_TO_NICE, DEFAULT_PRIO, MAX_DL_PRIO,
    MAX_RT_PRIO, MIN_NICE, MAX_NICE, NICE_WIDTH in *.
  destruct (dl_policy policy).
  { destruct (H1 eq_refl) as [-> Hh]. rewrite Hh in H3. cbn. split_and!; try lia; done || naive_solver. }
  destruct (rt_policy policy).
  { specialize (H2 eq_refl). specialize (Hrt eq_refl). rewrite H2 in *.
    destruct (Z.ltb_spec (100 - 1 - rtp) 0), (Z.leb_spec 0 (100 - 1 - rtp)),
      (Z.ltb_spec (100 - 1 - rtp) 100); try lia. cbn. split_and!; try lia; done || naive_solver. }
  destruct (Z.ltb_spec (nice + 120) 0), (Z.leb_spec 0 (nice + 120)), (Z.ltb_spec (nice + 120) 100);
    try lia; cbn.
  split_and!; try lia; try done.
  destruct (hvf_policy policy); [naive_solver|]. destruct (task_should_scx policy); naive_solver.
Qed.

(** Core scheduling compares tasks with [prio_less], which predates the HVF class:
    an HVF task gets the priority of the fair class.  Against a fair task the
    answer is [cfs_prio_less], which reads CFS data the HVF task does not have;
    against a task of the extensible class, whose class is above, the HVF task
    wins. *)
Theorem prio_less_hvf {E : Ext} dld srv cfs scx a b :
  sched_class a = hvf_sched_class → dl_server a = None → MAX_RT_PRIO <= prio a →
  task_on_scx a = false →
  dl_server b = None → MAX_RT_PRIO <= prio b →
  (sched_class b = fair_sched_class → task_on_scx b = false →
     sched_class_above (sched_class b) (sched_class a) = true ∧
     prio_less dld srv cfs scx a b = cfs a b) ∧
  (sched_class b = ext_sched_class → task_on_scx b = true →
     sched_class_above (sched_class b) (sched_class a) = true ∧
     prio_less dld srv cfs scx b a = true) ∧
  (sched_class b = idle_sched_class → prio_less dld srv cfs scx b a = true).
Proof.
  intros Ha Hda Hpa Hsa Hdb Hpb. unfold prio_less, __task_prio, rt_or_dl_prio.
  rewrite Ha, Hda, Hdb, Hsa.
  destruct (Z.ltb_spec (prio a) MAX_RT_PRIO), (Z.ltb_spec (prio b) MAX_RT_PRIO); try lia.
  split_and!; intros ->; [intros ->..|]; done.
Qed.
