(* ===== verification/Uclamp.v ===== *)
(** Utilization clamping (kernel/sched/core.c and sched.h under
    CONFIG_UCLAMP_TASK): every run queue keeps, for the minimum and for the
    maximum clamp, an array of buckets that count its runnable tasks by requested
    clamp, and the clamp of the CPU derived from them.  Task groups carry no
    clamps (CONFIG_UCLAMP_TASK_GROUP is not set). *)
From S2P Require Import Prelude Rbtree KState Policy.

Definition SCHED_CAPACITY_SCALE := 1024.
Definition UCLAMP_FLAG_IDLE := 0x01.

Inductive uclamp_id := UCLAMP_MIN | UCLAMP_MAX.
#[export] Instance uclamp_id_eq_dec : EqDecision uclamp_id.
Proof. solve_decision. Defined.
(** [for_each_clamp_id]. *)
Definition clamp_ids : list uclamp_id := [UCLAMP_MIN; UCLAMP_MAX].

(** CONFIG_UCLAMP_BUCKETS_COUNT, which the configuration system keeps between 5
    and 20. *)
Class UclampConfig := { UCLAMP_BUCKETS : Z }.
Class UclampConfigOk (C : UclampConfig) : Prop := { uclamp_buckets_range : 5 <= UCLAMP_BUCKETS <= 20 }.

(** ** Fields indexed by the clamp *)

Definition uclamp (id : uclamp_id) (t : task_struct) : uclamp_se :=
  match id with UCLAMP_MIN => uclamp_min t | UCLAMP_MAX => uclamp_max t end.
Definition set_uclamp (id : uclamp_id) (f : uclamp_se → uclamp_se) (t : task_struct) : task_struct :=
  match id with
  | UCLAMP_MIN => t <| uclamp_min ::= f |> | UCLAMP_MAX => t <| uclamp_max ::= f |>
  end.
Definition uclamp_req (id : uclamp_id) (t : task_struct) : uclamp_se :=
  match id with UCLAMP_MIN => uclamp_req_min t | UCLAMP_MAX => uclamp_req_max t end.
Definition set_uclamp_req (id : uclamp_id) (f : uclamp_se → uclamp_se) (t : task_struct) : task_struct :=
  match id with
  | UCLAMP_MIN => t <| uclamp_req_min ::= f |> | UCLAMP_MAX => t <| uclamp_req_max ::= f |>
  end.
Definition rq_uclamp (id : uclamp_id) (r : rq) : uclamp_rq :=
  match id with UCLAMP_MIN => rq_uclamp_min r | UCLAMP_MAX => rq_uclamp_max r end.
Definition set_rq_uclamp (id : uclamp_id) (f : uclamp_rq → uclamp_rq) (r : rq) : rq :=
  match id with
  | UCLAMP_MIN => r <| rq_uclamp_min ::= f |> | UCLAMP_MAX => r <| rq_uclamp_max ::= f |>
  end.
Definition uclamp_default (id : uclamp_id) (g : uclamp_globals) : uclamp_se :=
  match id with UCLAMP_MIN => uclamp_default_min g | UCLAMP_MAX => uclamp_default_max g end.
Definition set_uclamp_default (id : uclamp_id) (f : uclamp_se → uclamp_se) (g : uclamp_globals) : uclamp_globals :=
  match id with
  | UCLAMP_MIN => g <| uclamp_default_min ::= f |> | UCLAMP_MAX => g <| uclamp_default_max ::= f |>
  end.

(** ** The bitfields

    A clamp value has 11 bits ([bits_per(1024)]), a bucket counts its tasks in
    the other 53 bits of a word. *)
Definition value_bits (v : Z) : Z := v mod 2 ^ 11.
Definition tasks_bits (n : Z) : Z := n mod 2 ^ 53.

Section ops.
Context {C : UclampConfig}.

Definition uclamp_none (id : uclamp_id) : Z :=
  match id with UCLAMP_MIN => 0 | UCLAMP_MAX => SCHED_CAPACITY_SCALE end.

(** [DIV_ROUND_CLOSEST] of positive integers. *)
Definition UCLAMP_BUCKET_DELTA : Z :=
  (SCHED_CAPACITY_SCALE + UCLAMP_BUCKETS / 2) / UCLAMP_BUCKETS.
Definition uclamp_bucket_id (clamp_value : Z) : Z :=
  Z.min (clamp_value / UCLAMP_BUCKET_DELTA) (UCLAMP_BUCKETS - 1).
Definition uclamp_se_set (value : Z) (user_defined : bool) (u : uclamp_se) : uclamp_se :=
  u <| uc_value := value_bits value |> <| uc_bucket_id := uclamp_bucket_id value |>
    <| uc_user_defined := user_defined |>.

Definition uclamp_rq_get (c : Z) (id : uclamp_id) : M Z :=
  r ← cpu_rq c; mret (ucrq_value (rq_uclamp id r)).
Definition uclamp_rq_set (c : Z) (id : uclamp_id) (value : Z) : M unit :=
  upd_rq c (set_rq_uclamp id (λ u, u <| ucrq_value := value |>)).
Definition uclamp_rq_is_idle (r : rq) : bool := has (uclamp_flags r) UCLAMP_FLAG_IDLE.

(** The bucket [b] of a run queue, which must be in the array. *)
Definition get_bucket (c : Z) (id : uclamp_id) (b : Z) : M uclamp_bucket :=
  r ← cpu_rq c;
  if b <? 0 then oops_with bad_pointer
  else deref (ucrq_bucket (rq_uclamp id r) !! Z.to_nat b).
Definition upd_bucket (c : Z) (id : uclamp_id) (b : Z) (f : uclamp_bucket → uclamp_bucket) : M unit :=
  k ← get_bucket c id b;
  upd_rq c (set_rq_uclamp id (λ u, u <| ucrq_bucket ::= <[Z.to_nat b := f k]> |>)).

Definition uclamp_idle_value (c : Z) (id : uclamp_id) (clamp_value : Z) : M Z :=
  match id with
  | UCLAMP_MAX =>
      upd_rq c (λ r, r <| uclamp_flags ::= λ f, Z.lor f UCLAMP_FLAG_IDLE |>);;
      mret clamp_value
  | UCLAMP_MIN => mret (uclamp_none UCLAMP_MIN)
  end.

Definition uclamp_idle_reset (c : Z) (id : uclamp_id) (clamp_value : Z) : M unit :=
  r ← cpu_rq c;
  if negb (has (uclamp_flags r) UCLAMP_FLAG_IDLE) then skip
  else uclamp_rq_set c id clamp_value.

(** The scan of the buckets from [bucket_id] down to 0. *)
Fixpoint top_bucket (bucket : list uclamp_bucket) (n : nat) : option Z :=
  match n with
  | O => None
  | S bucket_id =>
      match bucket !! bucket_id with
      | Some k => if bk_tasks k =? 0 then top_bucket bucket bucket_id else Some (bk_value k)
      | None => top_bucket bucket bucket_id
      end
  end.

Definition uclamp_rq_max_value (c : Z) (id : uclamp_id) (clamp_value : Z) : M Z :=
  r ← cpu_rq c;
  match top_bucket (ucrq_bucket (rq_uclamp id r)) (Z.to_nat UCLAMP_BUCKETS) with
  | Some v => mret v
  | None => uclamp_idle_value c id clamp_value
  end.

Definition __uclamp_update_util_min_rt_default (p : tid) : M unit :=
  t ← task p;
  if uc_user_defined (uclamp_req UCLAMP_MIN t) then skip else
  g ← get k_uclamp;
  upd_task p (set_uclamp_req UCLAMP_MIN
                (uclamp_se_set (sysctl_sched_uclamp_util_min_rt_default g) false)).

Definition uclamp_update_util_min_rt_default (p : tid) : M unit :=
  t ← task p;
  if negb (rt_task t) then skip else __uclamp_update_util_min_rt_default p.

(** Without task groups the request is not restricted further. *)
Definition uclamp_tg_restrict (t : task_struct) (id : uclamp_id) : uclamp_se := uclamp_req id t.

Definition uclamp_eff_get (g : uclamp_globals) (t : task_struct) (id : uclamp_id) : uclamp_se :=
  let uc_req := uclamp_tg_restrict t id in
  let uc_max := uclamp_default id g in
  if uc_value uc_max <? uc_value uc_req then uc_max else uc_req.

Definition uclamp_eff_value (g : uclamp_globals) (t : task_struct) (id : uclamp_id) : Z :=
  if uc_active (uclamp id t) then uc_value (uclamp id t)
  else uc_value (uclamp_eff_get g t id).

Definition uclamp_rq_inc_id (c : Z) (p : tid) (id : uclamp_id) : M unit :=
  g ← get k_uclamp;
  upd_task p (λ t, set_uclamp id (λ _, uclamp_eff_get g t id) t);;
  t ← task p;
  let uc_se := uclamp id t in
  let b := uc_bucket_id uc_se in
  upd_bucket c id b (λ k, k <| bk_tasks ::= λ n, tasks_bits (n + 1) |>);;
  upd_task p (set_uclamp id (λ u, u <| uc_active := true |>));;
  uclamp_idle_reset c id (uc_value uc_se);;
  bucket ← get_bucket c id b;
  when ((bk_tasks bucket =? 1) || (bk_value bucket <? uc_value uc_se))
    (upd_bucket c id b (λ k, k <| bk_value := uc_value uc_se |>));;
  v ← uclamp_rq_get c id;
  when (v <? uc_value uc_se) (uclamp_rq_set c id (uc_value uc_se)).

Definition uclamp_rq_dec_id (c : Z) (p : tid) (id : uclamp_id) : M unit :=
  t ← task p;
  let uc_se := uclamp id t in
  if negb (uc_active uc_se) then skip else
  let b := uc_bucket_id uc_se in
  bucket ← get_bucket c id b;
  when (negb (bk_tasks bucket =? 0))
    (upd_bucket c id b (λ k, k <| bk_tasks ::= λ n, tasks_bits (n - 1) |>));;
  upd_task p (set_uclamp id (λ u, u <| uc_active := false |>));;
  bucket ← get_bucket c id b;
  if negb (bk_tasks bucket =? 0) then skip else
  rq_clamp ← uclamp_rq_get c id;
  when (rq_clamp <=? bk_value bucket)
    (bkt_clamp ← uclamp_rq_max_value c id (uc_value uc_se);
     uclamp_rq_set c id bkt_clamp).

Fixpoint for_each_clamp_id (ids : list uclamp_id) (f : uclamp_id → M unit) : M unit :=
  match ids with [] => skip | id :: ids' => f id;; for_each_clamp_id ids' f end.

(** [enabled] is [p->sched_class->uclamp_enabled]. *)
Definition uclamp_rq_inc (enabled : bool) (c : Z) (p : tid) : M unit :=
  g ← get k_uclamp;
  if negb (sched_uclamp_used g) then skip else
  if negb enabled then skip else
  t ← task p;
  if sched_delayed t then skip else
  for_each_clamp_id clamp_ids (uclamp_rq_inc_id c p);;
  r ← cpu_rq c;
  when (has (uclamp_flags r) UCLAMP_FLAG_IDLE)
    (upd_rq c (λ r, r <| uclamp_flags ::= λ f, Z.land f (Z.lnot UCLAMP_FLAG_IDLE) |>)).

Definition uclamp_rq_dec (enabled : bool) (c : Z) (p : tid) : M unit :=
  g ← get k_uclamp;
  if negb (sched_uclamp_used g) then skip else
  if negb enabled then skip else
  t ← task p;
  if sched_delayed t then skip else
  for_each_clamp_id clamp_ids (uclamp_rq_dec_id c p).

Definition uclamp_rq_reinc_id (c : Z) (p : tid) (id : uclamp_id) : M unit :=
  t ← task p;
  if negb (uc_active (uclamp id t)) then skip else
  uclamp_rq_dec_id c p id;;
  uclamp_rq_inc_id c p id;;
  r ← cpu_rq c;
  when (bool_decide (id = UCLAMP_MAX) && has (uclamp_flags r) UCLAMP_FLAG_IDLE)
    (upd_rq c (λ r, r <| uclamp_flags ::= λ f, Z.land f (Z.lnot UCLAMP_FLAG_IDLE) |>)).

Definition uclamp_update_active (p : tid) : M unit :=
  t ← task p;
  for_each_clamp_id clamp_ids (uclamp_rq_reinc_id (cpu t) p).

(** The threads of the system, in the order of the task list. *)
Fixpoint for_each_process_thread (l : list tid) (f : tid → M unit) : M unit :=
  match l with [] => skip | p :: l' => f p;; for_each_process_thread l' f end.
Definition uclamp_sync_util_min_rt_default : M unit :=
  threads ← get (λ s, elements (dom (k_tasks s)));
  for_each_process_thread threads uclamp_update_util_min_rt_default.

(** [proc_dointvec] (kernel/sysctl.c, not in the repository) reads or writes the
    knobs; [write] says which. *)
Definition sysctl_sched_uclamp_handler
    (proc_dointvec : bool → uclamp_globals → Z * (Z * Z * Z)) (write : bool) : M Z :=
  g0 ← get k_uclamp;
  let old_min := sysctl_sched_uclamp_util_min g0 in
  let old_max := sysctl_sched_uclamp_util_max g0 in
  let old_min_rt := sysctl_sched_uclamp_util_min_rt_default g0 in
  let set_knobs m x rt g :=
    g <| sysctl_sched_uclamp_util_min := m |> <| sysctl_sched_uclamp_util_max := x |>
      <| sysctl_sched_uclamp_util_min_rt_default := rt |> in
  let undo result :=
    modify (λ s, s <| k_uclamp ::= set_knobs old_min old_max old_min_rt |>);; mret result in
  let '(result, (new_min, new_max, new_rt)) := proc_dointvec write g0 in
  modify (λ s, s <| k_uclamp ::= set_knobs new_min new_max new_rt |>);;
  if negb (result =? 0) then undo result else
  if negb write then mret 0 else
  if (new_max <? new_min) || (SCHED_CAPACITY_SCALE <? new_max) || (SCHED_CAPACITY_SCALE <? new_rt)
  then undo (- EINVAL) else
  when (negb (old_min =? new_min))
    (modify (λ s, s <| k_uclamp ::= set_uclamp_default UCLAMP_MIN (uclamp_se_set new_min false) |>));;
  when (negb (old_max =? new_max))
    (modify (λ s, s <| k_uclamp ::= set_uclamp_default UCLAMP_MAX (uclamp_se_set new_max false) |>));;
  when (negb (old_min =? new_min) || negb (old_max =? new_max))
    (modify (λ s, s <| k_uclamp ::= λ g, g <| sched_uclamp_used := true |> |>));;
  when (negb (old_min_rt =? new_rt))
    (modify (λ s, s <| k_uclamp ::= λ g, g <| sched_uclamp_used := true |> |>);;
     uclamp_sync_util_min_rt_default);;
  mret 0.

Definition uclamp_fork (p : tid) : M unit :=
  for_each_clamp_id clamp_ids (λ id,
    upd_task p (set_uclamp id (λ u, u <| uc_active := false |>)));;
  t ← task p;
  if negb (sched_reset_on_fork t) then skip else
  for_each_clamp_id clamp_ids (λ id,
    upd_task p (set_uclamp_req id (uclamp_se_set (uclamp_none id) false))).

Definition uclamp_post_fork (p : tid) : M unit := uclamp_update_util_min_rt_default p.

(** The compound literal zeroes the buckets. *)
Definition init_uclamp_rq (r : rq) : rq :=
  let init id := {| ucrq_value := uclamp_none id;
                    ucrq_bucket := replicate (Z.to_nat UCLAMP_BUCKETS)
                                     {| bk_value := 0; bk_tasks := 0 |} |} in
  r <| rq_uclamp_min := init UCLAMP_MIN |> <| rq_uclamp_max := init UCLAMP_MAX |>
    <| uclamp_flags := UCLAMP_FLAG_IDLE |>.

Definition init_uclamp (init_task : tid) : M unit :=
  modify (λ s, s <| k_rqs ::= fmap init_uclamp_rq |>);;
  for_each_clamp_id clamp_ids (λ id,
    upd_task init_task (set_uclamp_req id (uclamp_se_set (uclamp_none id) false)));;
  let uc_max := uclamp_se_set (uclamp_none UCLAMP_MAX) false
                  {| uc_value := 0; uc_bucket_id := 0; uc_active := false; uc_user_defined := false |} in
  for_each_clamp_id clamp_ids (λ id,
    modify (λ s, s <| k_uclamp ::= set_uclamp_default id (λ _, uc_max) |>)).
End ops.
