(* ===== verification/UclampInv.v ===== *)
(** The bucket invariant of utilization clamping: on every run queue the buckets
    count exactly the tasks that hold a reference, and the clamp of the CPU is the
    maximum over its tasks' buckets. *)
From S2P Require Import Prelude Rbtree KState Policy Uclamp.

Section pure.
Context {C : UclampConfig} {COk : UclampConfigOk C}.
Implicit Types (m : gmap nat uclamp_se) (u : uclamp_rq) (id : uclamp_id).

Definition valid_value (v : Z) : Prop := 0 <= v <= SCHED_CAPACITY_SCALE.
(** A clamp a task may hold: in range, and filed under the bucket of its value. *)
Definition valid_se (se : uclamp_se) : Prop :=
  valid_value (uc_value se) ∧ uc_bucket_id se = uclamp_bucket_id (uc_value se).

(** The number of members filed under bucket [b]. *)
Definition count (b : nat) m : nat := size (filter (λ x, uc_bucket_id x.2 = Z.of_nat b) m).

Record buckets_ok (id : uclamp_id) (idle : bool) m u : Prop := {
  bo_len : length (ucrq_bucket u) = Z.to_nat UCLAMP_BUCKETS;
  bo_tasks b k : ucrq_bucket u !! b = Some k → bk_tasks k = Z.of_nat (count b m);
  bo_mem p se : m !! p = Some se → valid_se se ∧
    ∃ k, ucrq_bucket u !! Z.to_nat (uc_bucket_id se) = Some k ∧ uc_value se <= bk_value k;
  bo_val b k : ucrq_bucket u !! b = Some k → bk_tasks k ≠ 0 →
    valid_value (bk_value k) ∧ uclamp_bucket_id (bk_value k) = Z.of_nat b;
  bo_top b k : ucrq_bucket u !! b = Some k → bk_tasks k ≠ 0 → bk_value k <= ucrq_value u;
  bo_attained : m ≠ ∅ → ∃ b k, ucrq_bucket u !! b = Some k ∧ bk_tasks k ≠ 0 ∧
    bk_value k = ucrq_value u;
  bo_empty : m = ∅ → match id with UCLAMP_MIN => ucrq_value u = 0 | UCLAMP_MAX => idle = true end;
}.

Lemma delta_pos : 0 < UCLAMP_BUCKET_DELTA.
Proof.
  pose proof uclamp_buckets_range. unfold UCLAMP_BUCKET_DELTA, SCHED_CAPACITY_SCALE.
  apply Z.div_str_pos. pose proof (Z.div_pos UCLAMP_BUCKETS 2). lia.
Qed.
Lemma bucket_id_mono v w : v <= w → uclamp_bucket_id v <= uclamp_bucket_id w.
Proof.
  intros Hvw. unfold uclamp_bucket_id.
  pose proof (Z.div_le_mono v w _ delta_pos Hvw). lia.
Qed.
Lemma bucket_id_range v : 0 <= v → 0 <= uclamp_bucket_id v < UCLAMP_BUCKETS.
Proof.
  intros Hv. unfold uclamp_bucket_id. pose proof uclamp_buckets_range.
  pose proof (Z.div_pos v _ Hv delta_pos). lia.
Qed.

(** ** Counting *)

Lemma count_insert b p se m :
  m !! p = None →
  count b (<[p := se]> m) = ((if decide (uc_bucket_id se = Z.of_nat b) then 1 else 0) + count b m)%nat.
Proof.
  intros Hp. unfold count. destruct (decide _) as [Hb|Hb].
  - rewrite map_filter_insert_True by done. rewrite map_size_insert_None; [done|].
    apply map_lookup_filter_None. by left.
  - by rewrite map_filter_insert_not' by naive_solver.
Qed.
Lemma count_delete b p se m :
  m !! p = Some se →
  count b m = ((if decide (uc_bucket_id se = Z.of_nat b) then 1 else 0) + count b (delete p m))%nat.
Proof.
  intros Hp. rewrite <-(insert_delete_id m p se) at 1 by done.
  apply count_insert, lookup_delete_eq.
Qed.
Lemma count_member b p se m : m !! p = Some se → uc_bucket_id se = Z.of_nat b → count b m ≠ 0%nat.
Proof. intros Hp Hb. rewrite (count_delete b p se) by done. by rewrite decide_True. Qed.
Lemma count_nonzero b m : count b m ≠ 0%nat → m ≠ ∅.
Proof. intros Hc ->. by apply Hc. Qed.
Lemma count_le b m : (count b m <= size m)%nat.
Proof. apply map_subseteq_size, map_filter_subseteq. Qed.

(** The bucket of a member counts it. *)
Lemma member_bucket id idle m u p se :
  buckets_ok id idle m u → m !! p = Some se →
  ∃ k, ucrq_bucket u !! Z.to_nat (uc_bucket_id se) = Some k ∧ uc_value se <= bk_value k ∧
    bk_tasks k ≠ 0 ∧ uc_bucket_id se = Z.of_nat (Z.to_nat (uc_bucket_id se)).
Proof.
  intros Hok Hp. destruct (bo_mem _ _ _ _ Hok p se Hp) as [[Hv Hb] (k&Hk&Hle)].
  assert (uc_bucket_id se = Z.of_nat (Z.to_nat (uc_bucket_id se))) as Heq.
  { rewrite Hb. unfold valid_value in Hv. pose proof (bucket_id_range (uc_value se)). lia. }
  exists k. split_and!; [done..| |done].
  rewrite (bo_tasks _ _ _ _ Hok _ k Hk). pose proof (count_member _ p se m Hp Heq). lia.
Qed.

(** ** The scan of the buckets *)

Lemma top_bucket_spec bs n :
  (n <= length bs)%nat →
  match top_bucket bs n with
  | Some v => ∃ b k, (b < n)%nat ∧ bs !! b = Some k ∧ bk_tasks k ≠ 0 ∧ bk_value k = v ∧
      ∀ b' k', (b < b' < n)%nat → bs !! b' = Some k' → bk_tasks k' = 0
  | None => ∀ b k, (b < n)%nat → bs !! b = Some k → bk_tasks k = 0
  end.
Proof.
  induction n as [|n IH]; intros Hn; cbn [top_bucket]; [lia|].
  destruct (lookup_lt_is_Some_2 bs n ltac:(lia)) as [k Hk]. rewrite Hk.
  destruct (Z.eqb_spec (bk_tasks k) 0) as [Hz|Hnz].
  - specialize (IH ltac:(lia)). destruct (top_bucket bs n) as [v|].
    + destruct IH as (b&k'&Hb&Hk'&Hnz&Hv&Hrest). exists b, k'. split_and!; [lia|done..|].
      intros b' k'' Hb' Hk''. destruct (decide (b' = n)) as [->|]; [by simplify_eq|].
      apply (Hrest b'); [lia|done].
    + intros b k' Hb Hk'. destruct (decide (b = n)) as [->|]; [by simplify_eq|].
      apply (IH b); [lia|done].
  - exists n, k. split_and!; [lia|done..|]. intros; lia.
Qed.

(** Everything but the clamp of the CPU. *)
Definition partly_ok m u : Prop :=
  length (ucrq_bucket u) = Z.to_nat UCLAMP_BUCKETS ∧
  (∀ b k, ucrq_bucket u !! b = Some k → bk_tasks k = Z.of_nat (count b m)) ∧
  (∀ p se, m !! p = Some se → valid_se se ∧
    ∃ k, ucrq_bucket u !! Z.to_nat (uc_bucket_id se) = Some k ∧ uc_value se <= bk_value k) ∧
  (∀ b k, ucrq_bucket u !! b = Some k → bk_tasks k ≠ 0 →
    valid_value (bk_value k) ∧ uclamp_bucket_id (bk_value k) = Z.of_nat b).

Lemma buckets_ok_partly id idle m u : buckets_ok id idle m u → partly_ok m u.
Proof. intros [H1 H2 H3 H4 _ _ _]. done. Qed.

(** A clamp that some non-empty bucket attains and none exceeds is right. *)
Lemma attained_ok id idle m u :
  partly_ok m u →
  (∀ b k, ucrq_bucket u !! b = Some k → bk_tasks k ≠ 0 → bk_value k <= ucrq_value u) →
  (∃ b k, ucrq_bucket u !! b = Some k ∧ bk_tasks k ≠ 0 ∧ bk_value k = ucrq_value u) →
  buckets_ok id idle m u.
Proof.
  intros (H1&H2&H3&H4) Htop Hatt. constructor; [done..|].
  intros ->. exfalso. destruct Hatt as (b&k&Hk&Hn&_). apply Hn. by rewrite (H2 b k Hk).
Qed.

(** ** The operations on one run queue *)

Definition inc_buckets (idle : bool) (b : nat) (v : Z) u : uclamp_rq :=
  match ucrq_bucket u !! b with None => u | Some k =>
  let n := tasks_bits (bk_tasks k + 1) in
  let rv := if idle then v else ucrq_value u in
  {| ucrq_value := if rv <? v then v else rv;
     ucrq_bucket := <[b := {| bk_value := if (n =? 1) || (bk_value k <? v) then v else bk_value k;
                              bk_tasks := n |}]> (ucrq_bucket u) |}
  end.

(** The counted bucket after the increment: its value covers the new task, and
    is that of the task or that of the tasks already there. *)
Definition inc_value (v : Z) (k : uclamp_bucket) : Z :=
  if (bk_tasks k =? 0) || (bk_value k <? v) then v else bk_value k.
Lemma inc_value_spec v k :
  v <= inc_value v k ∧ (bk_tasks k ≠ 0 → bk_value k <= inc_value v k) ∧
  (inc_value v k = v ∨ bk_tasks k ≠ 0 ∧ inc_value v k = bk_value k).
Proof.
  unfold inc_value. destruct (Z.eqb_spec (bk_tasks k) 0), (Z.ltb_spec (bk_value k) v); cbn; lia.
Qed.

Lemma valid_se_bucket se u :
  valid_se se → length (ucrq_bucket u) = Z.to_nat UCLAMP_BUCKETS →
  uc_bucket_id se = Z.of_nat (Z.to_nat (uc_bucket_id se)) ∧
  ∃ k, ucrq_bucket u !! Z.to_nat (uc_bucket_id se) = Some k.
Proof.
  intros [Hv Hb] Hlen. unfold valid_value in Hv. pose proof (bucket_id_range (uc_value se)).
  split; [lia|]. apply lookup_lt_is_Some_2. lia.
Qed.

Lemma partly_ok_inc m u p se k :
  partly_ok m u → m !! p = None → valid_se se →
  ucrq_bucket u !! Z.to_nat (uc_bucket_id se) = Some k → Z.of_nat (size m) + 1 < 2 ^ 53 →
  let n := tasks_bits (bk_tasks k + 1) in
  n = bk_tasks k + 1 ∧
  ∀ rv, partly_ok (<[p := se]> m)
    {| ucrq_value := rv;
       ucrq_bucket := <[Z.to_nat (uc_bucket_id se) :=
          {| bk_value := inc_value (uc_value se) k; bk_tasks := n |}]> (ucrq_bucket u) |}.
Proof.
  intros (Hlen&Ht&Hm&Hv) Hp Hse Hk Hsize.
  destruct (valid_se_bucket se u Hse Hlen) as [Hbz _].
  set (b := Z.to_nat (uc_bucket_id se)) in *. cbn zeta.
  pose proof (count_le b m). pose proof (Ht b k Hk) as Hkt.
  pose proof (inc_value_spec (uc_value se) k) as (Hk1&Hk2&Hk3).
  pose proof (lookup_lt_Some _ _ _ Hk) as Hlt.
  assert (tasks_bits (bk_tasks k + 1) = bk_tasks k + 1) as ->
    by (unfold tasks_bits; apply Z.mod_small; lia).
  split; [done|]. intros rv. split_and!; cbn [ucrq_bucket].
  - by rewrite length_insert.
  - intros b' k' Hk'. rewrite count_insert by done.
    apply list_lookup_insert_Some in Hk' as [(<-&<-&_)|[Hne Hk']]; cbn [bk_tasks].
    + rewrite decide_True by done. lia.
    + rewrite decide_False by lia. by apply Ht.
  - intros p' se' [[<- <-]|[Hne Hp']]%lookup_insert_Some.
    + split; [done|]. eexists. by split; [by apply list_lookup_insert_eq|].
    + destruct (Hm p' se' Hp') as [Hse' (k'&Hk'&Hle)]. split; [done|].
      destruct (valid_se_bucket se' u Hse' Hlen) as [Hbz' _].
      destruct (decide (Z.to_nat (uc_bucket_id se') = b)) as [Heq|Hneq].
      * rewrite Heq in *. assert (k' = k) as -> by congruence.
        eexists. split; [by apply list_lookup_insert_eq|]. cbn. pose proof (count_member b p' se' m Hp' Hbz'). lia.
      * exists k'. by rewrite list_lookup_insert_ne.
  - intros b' k' Hk' Hn. apply list_lookup_insert_Some in Hk' as [(<-&<-&_)|[Hne Hk']]; cbn in *.
    + destruct Hk3 as [->|[Hn' ->]]; [|by apply Hv]. destruct Hse as [? Hb]. by rewrite <-Hb.
    + by apply Hv.
Qed.

Lemma inc_buckets_ok id idle m u p se :
  buckets_ok id idle m u → (idle = true → m = ∅) → m !! p = None → valid_se se →
  Z.of_nat (size m) + 1 < 2 ^ 53 →
  buckets_ok id idle (<[p := se]> m)
    (inc_buckets idle (Z.to_nat (uc_bucket_id se)) (uc_value se) u).
Proof.
  intros Hok Hidle Hp Hse Hsize.
  destruct (valid_se_bucket se u Hse (bo_len _ _ _ _ Hok)) as [Hbz [k Hk]].
  destruct (partly_ok_inc m u p se k (buckets_ok_partly _ _ _ _ Hok) Hp Hse Hk Hsize)
    as [Hn Hpartly]. cbv zeta in Hpartly. rewrite Hn in Hpartly.
  unfold inc_buckets. rewrite Hk. cbv zeta. rewrite Hn.
  pose proof (inc_value_spec (uc_value se) k) as (Hk1&Hk2&Hk3).
  assert ((bk_tasks k + 1 =? 1) = (bk_tasks k =? 0)) as ->
    by (destruct (Z.eqb_spec (bk_tasks k + 1) 1), (Z.eqb_spec (bk_tasks k) 0); lia).
  fold (inc_value (uc_value se) k). pose proof (bo_tasks _ _ _ _ Hok _ k Hk) as Hkt.
  set (b := Z.to_nat (uc_bucket_id se)) in *. set (v := uc_value se) in *.
  pose proof (lookup_lt_Some _ _ _ Hk) as Hlt. set (rv := if idle then v else ucrq_value u).
  assert (∀ b' k', ucrq_bucket u !! b' = Some k' → bk_tasks k' ≠ 0 → bk_value k' <= rv) as Hrv.
  { intros b' k' Hk' Hn'. subst rv. destruct idle; [|by eapply bo_top].
    exfalso. specialize (Hidle eq_refl) as ->. by rewrite (bo_tasks _ _ _ _ Hok b' k' Hk') in Hn'. }
  assert ((if rv <? v then v else rv) = Z.max rv v) as -> by (destruct (Z.ltb_spec rv v); lia).
  apply attained_ok; [apply Hpartly|..]; cbn [ucrq_bucket ucrq_value].
  - intros b' k' Hk' Hn'. apply list_lookup_insert_Some in Hk' as [(<-&<-&_)|[Hne Hk']]; cbn in *.
    + destruct Hk3 as [->|[Hn'' ->]]; [lia|]. specialize (Hrv b k Hk Hn''). lia.
    + specialize (Hrv b' k' Hk' Hn'). lia.
  - destruct (decide (rv <= v)) as [Hle|Hgt].
    { exists b. eexists. split; [by apply list_lookup_insert_eq|]. cbn. split; [lia|].
      destruct Hk3 as [->|[Hn' Heq]]; [lia|]. specialize (Hrv b k Hk Hn'). lia. }
    assert (idle = false) as -> by (subst rv; destruct idle; [lia|done]). subst rv.
    destruct (decide (m = ∅)) as [->|Hm].
    { pose proof (bo_empty _ _ _ _ Hok eq_refl). destruct id; [|done].
      destruct Hse as [Hval _]. unfold valid_value in Hval. lia. }
    destruct (bo_attained _ _ _ _ Hok Hm) as (b'&k'&Hk'&Hn'&Heq).
    destruct (decide (b' = b)) as [->|Hne].
    + simplify_eq. exists b. eexists. split; [by apply list_lookup_insert_eq|]. cbn.
      split; [lia|]. destruct Hk3 as [Heq'|[? ->]]; lia.
    + exists b', k'. rewrite list_lookup_insert_ne by done. split_and!; [done..|lia].
Qed.

(** The clamp left when the last task of the top bucket goes. *)
Definition rescan (id : uclamp_id) (idle : bool) (v : Z) (bs : list uclamp_bucket) : Z * bool :=
  match top_bucket bs (Z.to_nat UCLAMP_BUCKETS), id with
  | Some w, _ => (w, idle)
  | None, UCLAMP_MIN => (0, idle)
  | None, UCLAMP_MAX => (v, true)
  end.

Definition dec_buckets (id : uclamp_id) (idle : bool) (b : nat) (v : Z) u : uclamp_rq * bool :=
  match ucrq_bucket u !! b with None => (u, idle) | Some k =>
  let n := tasks_bits (bk_tasks k - 1) in
  let bs := <[b := {| bk_value := bk_value k; bk_tasks := n |}]> (ucrq_bucket u) in
  if (n =? 0) && (ucrq_value u <=? bk_value k)
  then let '(rv, idle') := rescan id idle v bs in
       ({| ucrq_value := rv; ucrq_bucket := bs |}, idle')
  else ({| ucrq_value := ucrq_value u; ucrq_bucket := bs |}, idle)
  end.

Lemma partly_ok_dec m u p se k :
  partly_ok m u → m !! p = Some se → ucrq_bucket u !! Z.to_nat (uc_bucket_id se) = Some k →
  uc_bucket_id se = Z.of_nat (Z.to_nat (uc_bucket_id se)) → Z.of_nat (size m) < 2 ^ 53 →
  let n := tasks_bits (bk_tasks k - 1) in
  n = bk_tasks k - 1 ∧
  ∀ rv, partly_ok (delete p m)
    {| ucrq_value := rv;
       ucrq_bucket := <[Z.to_nat (uc_bucket_id se) :=
          {| bk_value := bk_value k; bk_tasks := n |}]> (ucrq_bucket u) |}.
Proof.
  intros (Hlen&Ht&Hm&Hv) Hp Hk Hbz Hsize. set (b := Z.to_nat (uc_bucket_id se)) in *. cbn zeta.
  pose proof (count_delete b p se m Hp) as Hc. rewrite decide_True in Hc by done.
  pose proof (count_le b m). pose proof (Ht b k Hk).
  assert (tasks_bits (bk_tasks k - 1) = bk_tasks k - 1) as ->
    by (unfold tasks_bits; apply Z.mod_small; lia).
  split; [done|]. intros rv. split_and!; cbn [ucrq_bucket].
  - by rewrite length_insert.
  - intros b' k' Hk'. pose proof (count_delete b' p se m Hp) as Hc'.
    apply list_lookup_insert_Some in Hk' as [(<-&<-&_)|[Hne Hk']]; cbn [bk_tasks]; [lia|].
    rewrite decide_False in Hc' by lia. rewrite (Ht b' k' Hk'). lia.
  - intros p' se' [Hne Hp']%lookup_delete_Some. destruct (Hm p' se' Hp') as [Hse (k'&Hk'&Hle)].
    split; [done|]. destruct (decide (Z.to_nat (uc_bucket_id se') = b)) as [Heq|Hneq].
    + rewrite Heq in *. simplify_eq. eexists.
      split; [apply list_lookup_insert_eq; by eapply lookup_lt_Some|done].
    + exists k'. by rewrite list_lookup_insert_ne.
  - intros b' k' Hk' Hn. apply list_lookup_insert_Some in Hk' as [(<-&<-&_)|[Hne Hk']]; cbn in *.
    + apply Hv; [done|lia].
    + by apply Hv.
Qed.

(** The topmost non-empty bucket has the largest value. *)
Lemma rescan_ok id idle v m u :
  partly_ok m u → 
  let '(rv, idle') := rescan id idle v (ucrq_bucket u) in
  buckets_ok id idle' m {| ucrq_value := rv; ucrq_bucket := ucrq_bucket u |} ∧
  (idle' = true → idle = true ∨ m = ∅).
Proof.
  intros (Hlen&Ht&Hm&Hv). unfold rescan.
  pose proof (top_bucket_spec (ucrq_bucket u) (Z.to_nat UCLAMP_BUCKETS) ltac:(lia)) as Htop.
  destruct (top_bucket _ _) as [w|].
  - destruct Htop as (b&k&Hb&Hk&Hn&<-&Hrest). split; [|by left].
    constructor; cbn [ucrq_value ucrq_bucket]; [done..| | |].
    + intros b' k' Hk' Hn'. pose proof (lookup_lt_Some _ _ _ Hk').
      destruct (decide (b < b')%nat).
      { exfalso. apply Hn', (Hrest b'); [lia|done]. }
      destruct (decide (b' = b)) as [->|]; [by simplify_eq|].
      destruct (Hv b k Hk Hn) as [_ Hb1], (Hv b' k' Hk' Hn') as [_ Hb2].
      destruct (decide (bk_value k' <= bk_value k)); [done|].
      pose proof (bucket_id_mono (bk_value k) (bk_value k')). lia.
    + intros _. by exists b, k.
    + intros ->. exfalso. apply Hn. by rewrite (Ht b k Hk).
  - assert (m = ∅) as ->.
    { apply map_empty. intros p. destruct (m !! p) as [se|] eqn:Hp; [|done]. exfalso.
      destruct (Hm p se Hp) as [[Hval Hb] (k&Hk&_)].
      pose proof (lookup_lt_Some _ _ _ Hk) as Hlt. unfold valid_value in Hval.
      pose proof (bucket_id_range (uc_value se)).
      pose proof (Htop (Z.to_nat (uc_bucket_id se)) k ltac:(lia) Hk) as Hz. rewrite (Ht _ k Hk) in Hz.
      apply (count_member (Z.to_nat (uc_bucket_id se)) p se m); [done|lia|lia]. }
    destruct id; (split; [|by auto]); (constructor; cbn [ucrq_value ucrq_bucket]; try done).
    all: intros b k Hk Hn; exfalso; apply Hn; by rewrite (Ht b k Hk).
Qed.

Lemma dec_buckets_ok id idle m u p se :
  buckets_ok id idle m u → m !! p = Some se → Z.of_nat (size m) < 2 ^ 53 →
  let '(u', idle') := dec_buckets id idle (Z.to_nat (uc_bucket_id se)) (uc_value se) u in
  buckets_ok id idle' (delete p m) u' ∧ (idle' = true → idle = true ∨ delete p m = ∅).
Proof.
  intros Hok Hp Hsize. destruct (member_bucket _ _ _ _ _ _ Hok Hp) as (k&Hk&Hle&Hn&Hbz).
  unfold dec_buckets. rewrite Hk. cbv zeta.
  destruct (partly_ok_dec m u p se k (buckets_ok_partly _ _ _ _ Hok) Hp Hk Hbz Hsize)
    as [-> Hpartly]. cbv zeta in Hpartly.
  set (b := Z.to_nat (uc_bucket_id se)) in *.
  set (kd := {| bk_value := bk_value k; bk_tasks := bk_tasks k - 1 |}) in *.
  assert (∀ b' k', <[b := kd]> (ucrq_bucket u) !! b' = Some k' → bk_tasks k' ≠ 0 →
            bk_value k' <= ucrq_value u) as Htop.
  { intros b' k' Hk' Hn'. apply list_lookup_insert_Some in Hk' as [(<-&<-&_)|[Hne Hk']];
      [exact (bo_top _ _ _ _ Hok b k Hk Hn)|by eapply (bo_top _ _ _ _ Hok)]. }
  destruct (bo_attained _ _ _ _ Hok) as (b'&k'&Hk'&Hn'&Heq); [by intros ->|].
  destruct (Z.eqb_spec (bk_tasks k - 1) 0) as [Hz|Hnz]; cbn [andb].
  - destruct (Z.leb_spec (ucrq_value u) (bk_value k)) as [Hge|Hlt].
    + pose proof (rescan_ok id idle (uc_value se) _ _ (Hpartly 0)) as Hres.
      cbn [ucrq_bucket] in Hres. by destruct (rescan _ _ _ _).
    + split; [|by left]. apply attained_ok; [apply Hpartly|done|]. exists b', k'.
      split; [|done]. apply list_lookup_insert_Some. right. split; [|done].
      intros ->. simplify_eq. lia.
  - split; [|by left]. apply attained_ok; [apply Hpartly|done|].
    destruct (decide (b' = b)) as [->|Hne].
    + simplify_eq. exists b, kd.
      split; [apply list_lookup_insert_eq; by eapply lookup_lt_Some|done].
    + exists b', k'. split; [|done]. by apply list_lookup_insert_Some; right.
Qed.
End pure.

(** * The operations on the kernel state *)

Lemma uclamp_set id f t : uclamp id (set_uclamp id f t) = f (uclamp id t).
Proof. by destruct id. Qed.
Lemma uclamp_set_ne id id' f t : id ≠ id' → uclamp id' (set_uclamp id f t) = uclamp id' t.
Proof. by destruct id, id'. Qed.
Lemma set_uclamp_comp id f g t : set_uclamp id f (set_uclamp id g t) = set_uclamp id (λ u, f (g u)) t.
Proof. by destruct id. Qed.
Lemma set_uclamp_cpu id f t : cpu (set_uclamp id f t) = cpu t.
Proof. by destruct id. Qed.
Lemma set_uclamp_req_same id id' f t : uclamp_req id' (set_uclamp id f t) = uclamp_req id' t.
Proof. by destruct id, id'. Qed.
Lemma rq_uclamp_set id f r : rq_uclamp id (set_rq_uclamp id f r) = f (rq_uclamp id r).
Proof. by destruct id. Qed.
Lemma rq_uclamp_set_ne id id' f r : id ≠ id' → rq_uclamp id' (set_rq_uclamp id f r) = rq_uclamp id' r.
Proof. by destruct id, id'. Qed.
Lemma set_rq_uclamp_comp id f g r :
  set_rq_uclamp id f (set_rq_uclamp id g r) = set_rq_uclamp id (λ u, f (g u)) r.
Proof. by destruct id. Qed.
Lemma set_rq_uclamp_flags id f r : uclamp_flags (set_rq_uclamp id f r) = uclamp_flags r.
Proof. by destruct id. Qed.
Lemma set_rq_uclamp_ext id f g r :
  f (rq_uclamp id r) = g (rq_uclamp id r) → set_rq_uclamp id f r = set_rq_uclamp id g r.
Proof. destruct id, r; unfold set_rq_uclamp, upd; cbn; by intros ->. Qed.
Create Rewrite HintDb uclamp.
#[export] Hint Rewrite uclamp_set set_uclamp_comp set_uclamp_cpu rq_uclamp_set
  set_rq_uclamp_comp set_rq_uclamp_flags : uclamp.

Section wp.
Context {C : UclampConfig}.

Lemma wp_get_bucket c id b r k s Q :
  k_rqs s !! c = Some r → 0 <= b → ucrq_bucket (rq_uclamp id r) !! Z.to_nat b = Some k →
  Q k s → wp (get_bucket c id b) s Q.
Proof.
  intros Hr Hb Hk HQ. unfold get_bucket. wp_steps.
  destruct (Z.ltb_spec b 0); [lia|]. rewrite Hk. by wp_steps.
Qed.
Lemma wp_upd_bucket c id b f r k s Q :
  k_rqs s !! c = Some r → 0 <= b → ucrq_bucket (rq_uclamp id r) !! Z.to_nat b = Some k →
  Q tt (s <| k_rqs := <[c := set_rq_uclamp id
               (λ u, u <| ucrq_bucket ::= <[Z.to_nat b := f k]> |>) r]> (k_rqs s) |>) →
  wp (upd_bucket c id b f) s Q.
Proof.
  intros Hr Hb Hk HQ. unfold upd_bucket. apply wp_bind. eapply wp_get_bucket; [done..|]. by wp_steps.
Qed.

(** The state after a reference was taken or dropped. *)
Definition uclamp_state (s : kstate) (p : tid) (t : task_struct) (c : Z) (r : rq) : kstate :=
  s <| k_tasks ::= <[p := t]> |> <| k_rqs ::= <[c := r]> |>.

Lemma uclamp_state_eq s p t c r s' :
  k_tasks s' = <[p := t]> (k_tasks s) → k_rqs s' = <[c := r]> (k_rqs s) →
  k_clock s' = k_clock s → k_reads s' = k_reads s → k_cpu s' = k_cpu s →
  k_trace s' = k_trace s → k_uclamp s' = k_uclamp s → k_pending s' = k_pending s →
  k_stops s' = k_stops s → k_core s' = k_core s → k_heads s' = k_heads s → uclamp_state s p t c r = s'.
Proof. destruct s, s'; unfold uclamp_state, upd; cbn. by intros -> -> -> -> -> -> -> -> -> -> ->. Qed.

(** Closes a goal [Q tt s'] from [HQ : Q tt (uclamp_state ...)], leaving the
    equality of the two run queues. *)
Ltac use_state HQ :=
  lazymatch type of HQ with
  | ?Q _ (uclamp_state ?s ?p ?t ?c ?r) =>
      lazymatch goal with
      | |- Q _ ?s' =>
          rewrite <-(uclamp_state_eq s p t c r s');
          [exact HQ
          |cbn; rewrite ?insert_insert_eq; autorewrite with uclamp; reflexivity
          |cbn; rewrite ?insert_insert_eq; autorewrite with uclamp; f_equal
          |reflexivity..]
      end
  end.

Lemma wp_inc_id s c p id t r k Q :
  k_tasks s !! p = Some t → k_rqs s !! c = Some r →
  let se := uclamp_eff_get (k_uclamp s) t id in
  0 <= uc_bucket_id se → ucrq_bucket (rq_uclamp id r) !! Z.to_nat (uc_bucket_id se) = Some k →
  Q tt (uclamp_state s p (set_uclamp id (λ _, se <| uc_active := true |>) t) c
          (set_rq_uclamp id (inc_buckets (uclamp_rq_is_idle r) (Z.to_nat (uc_bucket_id se))
                               (uc_value se)) r)) →
  wp (uclamp_rq_inc_id c p id) s Q.
Proof.
  intros Ht Hr se Hb Hk HQ. unfold uclamp_rq_inc_id. wp_steps.
  rewrite !uclamp_set. fold se. set (b := uc_bucket_id se) in *. set (v := uc_value se) in *.
  pose proof (lookup_lt_Some _ _ _ Hk) as Hlt.
  eapply wp_upd_bucket; [done..|]. wp_steps. unfold uclamp_idle_reset. wp_steps.
  rewrite set_rq_uclamp_flags. fold (uclamp_rq_is_idle r).
  destruct (uclamp_rq_is_idle r) eqn:Hidle; cbn [negb]; unfold uclamp_rq_set; wp_steps;
    (eapply (wp_get_bucket c id b);
     [apply lookup_insert_eq|done|autorewrite with uclamp; by apply list_lookup_insert_eq|]);
    (apply wp_bind, wp_when; intros Hc;
     [eapply (wp_upd_bucket c id b);
      [apply lookup_insert_eq|done|autorewrite with uclamp; by apply list_lookup_insert_eq|]|]).
  all: unfold uclamp_rq_get; wp_steps; autorewrite with uclamp;
    cbn [ucrq_value bk_tasks bk_value] in *; apply wp_when; intros Hv; wp_steps.
  all: use_state HQ; (apply set_rq_uclamp_ext; unfold inc_buckets; rewrite Hk; cbv zeta;
    change (bk_tasks (k <| bk_tasks ::= _ |>)) with (tasks_bits (bk_tasks k + 1)) in Hc;
    change (bk_value (k <| bk_tasks ::= _ |>)) with (bk_value k) in Hc;
    cbn [ucrq_value upd] in Hv |- *; rewrite ?Hc;
    first [rewrite Z.ltb_irrefl in * | idtac];
    unfold upd; cbn; rewrite ?Hc, ?Hv, ?list_insert_insert_eq; (done || congruence)).
Qed.

Definition set_idle (idle' : bool) (r : rq) : rq :=
  if idle' then r <| uclamp_flags ::= λ f, Z.lor f UCLAMP_FLAG_IDLE |> else r.

(** [dec_buckets] in two steps: what happens to the bucket, and to the clamp. *)
Lemma wp_dec_id s c p id t r k Q :
  k_tasks s !! p = Some t → k_rqs s !! c = Some r →
  let se := uclamp id t in
  uc_active se = true → 0 <= uc_bucket_id se →
  ucrq_bucket (rq_uclamp id r) !! Z.to_nat (uc_bucket_id se) = Some k → bk_tasks k ≠ 0 →
  (let '(u, idle') := dec_buckets id false (Z.to_nat (uc_bucket_id se)) (uc_value se)
                        (rq_uclamp id r) in
   Q tt (uclamp_state s p (set_uclamp id (λ u, u <| uc_active := false |>) t) c
          (set_idle idle' (set_rq_uclamp id (λ _, u) r)))) →
  wp (uclamp_rq_dec_id c p id) s Q.
Proof.
  intros Ht Hr se Hact Hb Hk Hn HQ. unfold uclamp_rq_dec_id. wp_steps. fold se. rewrite Hact.
  cbn [negb]. wp_steps. set (b := uc_bucket_id se) in *.
  pose proof (lookup_lt_Some _ _ _ Hk) as Hlt.
  eapply wp_get_bucket; [done..|]. destruct (Z.eqb_spec (bk_tasks k) 0); [done|]. cbn [negb when].
  wp_steps. eapply wp_upd_bucket; [done..|]. wp_steps.
  eapply (wp_get_bucket c id b);
     [apply lookup_insert_eq|done|autorewrite with uclamp; by apply list_lookup_insert_eq|].
  unfold dec_buckets in HQ. rewrite Hk in HQ. cbv zeta in HQ.
  set (nt := tasks_bits (bk_tasks k - 1)) in *.
  change (bk_tasks (k <| bk_tasks ::= _ |>)) with nt.
  destruct (nt =? 0) eqn:Hn0; cbn [negb andb] in *; wp_steps.
  2: { use_state HQ. by apply set_rq_uclamp_ext. }
  unfold uclamp_rq_get. wp_steps. autorewrite with uclamp.
  change (ucrq_value (_ <| ucrq_bucket ::= _ |>)) with (ucrq_value (rq_uclamp id r)).
  change (bk_value (k <| bk_tasks ::= _ |>)) with (bk_value k).
  destruct (ucrq_value (rq_uclamp id r) <=? bk_value k); cbn [when]; wp_steps.
  2: { use_state HQ. by apply set_rq_uclamp_ext. }
  unfold uclamp_rq_max_value, rescan, uclamp_rq_set in *. wp_steps. autorewrite with uclamp.
  set (bs := <[Z.to_nat b := _]> (ucrq_bucket (rq_uclamp id r))) in HQ.
  change (ucrq_bucket ((rq_uclamp id r) <| ucrq_bucket ::= _ |>)) with bs.
  destruct (top_bucket bs _) as [w|]; [|destruct id]; unfold uclamp_idle_value; wp_steps.
  all: use_state HQ; by apply set_rq_uclamp_ext.
Qed.
End wp.

(** * The invariant *)

Section inv.
Context {C : UclampConfig} {COk : UclampConfigOk C}.
Implicit Types s : kstate.

(** The tasks that hold a reference on run queue [c], with their clamps. *)
Definition holder (c : Z) (id : uclamp_id) (t : task_struct) : option uclamp_se :=
  if (cpu t =? c) && uc_active (uclamp id t) then Some (uclamp id t) else None.
Definition members s (c : Z) (id : uclamp_id) : gmap nat uclamp_se := omap (holder c id) (k_tasks s).

Definition id_ok s (id : uclamp_id) : Prop := ∀ c r,
  k_rqs s !! c = Some r →
  buckets_ok id (uclamp_rq_is_idle r) (members s c id) (rq_uclamp id r).

Record uclamp_inv s : Prop := {
  ui_req id p t : k_tasks s !! p = Some t → valid_se (uclamp_req id t);
  ui_default id : valid_se (uclamp_default id (k_uclamp s));
  ui_active p t : k_tasks s !! p = Some t →
    uc_active (uclamp UCLAMP_MIN t) = uc_active (uclamp UCLAMP_MAX t);
  ui_size : Z.of_nat (size (k_tasks s)) < 2 ^ 53;
  ui_buckets id : id_ok s id;
  ui_idle c r : k_rqs s !! c = Some r → uclamp_rq_is_idle r = true →
    ∀ id, members s c id = ∅;
}.

Lemma members_size s c id : (size (members s c id) <= size (k_tasks s))%nat.
Proof.
  unfold members. rewrite <-!size_dom. apply subseteq_size, dom_omap_subseteq.
Qed.
Lemma members_size_lt s c id p t :
  k_tasks s !! p = Some t → members s c id !! p = None →
  (size (members s c id) < size (k_tasks s))%nat.
Proof.
  unfold members. intros Ht Hfresh. rewrite <-!size_dom. apply subset_size.
  split; [apply dom_omap_subseteq|]. intros Hsub.
  assert (p ∈ dom (omap (holder c id) (k_tasks s))) as Hin by (apply Hsub, elem_of_dom; eauto).
  apply elem_of_dom in Hin as [? Hin]. congruence.
Qed.
Lemma members_lookup s c id p t :
  k_tasks s !! p = Some t → members s c id !! p = holder c id t.
Proof. intros Ht. unfold members. by rewrite lookup_omap, Ht. Qed.
Lemma members_state s p t c r c' id :
  members (uclamp_state s p t c r) c' id =
    match holder c' id t with
    | Some se => <[p := se]> (members s c' id)
    | None => delete p (members s c' id)
    end.
Proof.
  unfold members. change (k_tasks (uclamp_state _ _ _ _ _)) with (<[p := t]> (k_tasks s)).
  rewrite omap_insert. by destruct (holder c' id t).
Qed.
(** A change that keeps a task's contribution keeps the members. *)
Lemma members_same s p t t' c r c' id :
  k_tasks s !! p = Some t → holder c' id t' = holder c' id t →
  members (uclamp_state s p t' c r) c' id = members s c' id.
Proof.
  intros Ht Heq. rewrite members_state, Heq.
  pose proof (members_lookup s c' id p t Ht) as Hm.
  destruct (holder c' id t); [by apply insert_id|by apply delete_id].
Qed.

Lemma set_idle_idle i r : uclamp_rq_is_idle (set_idle i r) = i || uclamp_rq_is_idle r.
Proof.
  destruct i; [|done]. cbn [orb]. unfold uclamp_rq_is_idle, has, set_idle.
  change (uclamp_flags (r <| uclamp_flags ::= _ |>)) with (Z.lor (uclamp_flags r) UCLAMP_FLAG_IDLE).
  rewrite Z.land_lor_distr_l, Z.land_diag.
  destruct (Z.eqb_spec (Z.lor (Z.land (uclamp_flags r) UCLAMP_FLAG_IDLE) UCLAMP_FLAG_IDLE) 0)
    as [[_ E]%Z.lor_eq_0_iff|]; done.
Qed.
Lemma set_idle_uclamp i id r : rq_uclamp id (set_idle i r) = rq_uclamp id r.
Proof. by destruct i, id. Qed.
Lemma set_rq_uclamp_idle id f r : uclamp_rq_is_idle (set_rq_uclamp id f r) = uclamp_rq_is_idle r.
Proof. by destruct id. Qed.
Lemma clear_idle f : has (Z.land f (Z.lnot UCLAMP_FLAG_IDLE)) UCLAMP_FLAG_IDLE = false.
Proof.
  unfold has. rewrite <-Z.land_assoc, (Z.land_comm (Z.lnot _)), Z.land_lnot_diag. by rewrite Z.land_0_r.
Qed.
Lemma buckets_ok_idle id m u i j :
  buckets_ok id i m u → (i = true → j = true) → buckets_ok id j m u.
Proof. intros [H1 H2 H3 H4 H5 H6 H7] Hij. constructor; [done..|]. destruct id; auto. Qed.
Lemma dec_buckets_idle id i b v u :
  dec_buckets id i b v u = let '(u', j) := dec_buckets id false b v u in (u', j || i).
Proof.
  unfold dec_buckets, rescan. destruct (_ !! b) as [k|]; [|done]. cbv zeta.
  destruct (_ && _); [|done]. destruct (top_bucket _ _); [done|by destruct id].
Qed.

Lemma eff_valid g t id :
  valid_se (uclamp_req id t) → valid_se (uclamp_default id g) → valid_se (uclamp_eff_get g t id).
Proof. intros Hr Hd. unfold uclamp_eff_get, uclamp_tg_restrict. by case_match. Qed.

Lemma valid_se_active se b : valid_se se → valid_se (se <| uc_active := b |>).
Proof. by destruct se. Qed.

(** Taking a reference keeps the buckets of every run queue right. *)
Lemma inc_id_ok s p t c r id :
  id_ok s id → k_tasks s !! p = Some t → cpu t = c → k_rqs s !! c = Some r →
  uc_active (uclamp id t) = false → (uclamp_rq_is_idle r = true → members s c id = ∅) →
  valid_se (uclamp_req id t) → valid_se (uclamp_default id (k_uclamp s)) →
  Z.of_nat (size (k_tasks s)) < 2 ^ 53 →
  wp (uclamp_rq_inc_id c p id) s (λ _ s', ∃ t' r',
    s' = uclamp_state s p t' c r' ∧ id_ok s' id ∧
    (∀ id', id' ≠ id → uclamp id' t' = uclamp id' t ∧ rq_uclamp id' r' = rq_uclamp id' r) ∧
    uc_active (uclamp id t') = true ∧ (∀ i, uclamp_req i t' = uclamp_req i t) ∧ cpu t' = cpu t ∧
    uclamp_rq_is_idle r' = uclamp_rq_is_idle r).
Proof.
  intros Hok Ht Hc Hr Hact Hidle Hreq Hdef Hsize.
  set (se := uclamp_eff_get (k_uclamp s) t id).
  pose proof (eff_valid _ _ _ Hreq Hdef) as Hse. fold se in Hse.
  destruct (valid_se_bucket se _ Hse (bo_len _ _ _ _ (Hok c r Hr))) as [Hbz [k Hk]].
  eapply wp_inc_id; [done..|fold se; lia|done|]. fold se.
  eexists _, _. split; [reflexivity|].
  assert (members s c id !! p = None) as Hfresh.
  { rewrite (members_lookup s c id p t Ht). unfold holder. by rewrite Hact, andb_false_r. }
  split; [|split_and!; [intros id' Hne; split; [by rewrite uclamp_set_ne|by rewrite rq_uclamp_set_ne]
    |by rewrite uclamp_set|intros; by rewrite set_uclamp_req_same|by rewrite set_uclamp_cpu
    |by rewrite set_rq_uclamp_idle]].
  intros c' r' Hr'. unfold uclamp_state in Hr'. cbn in Hr'.
  apply lookup_insert_Some in Hr' as [[<- <-]|[Hne Hr']].
  - rewrite set_rq_uclamp_idle, rq_uclamp_set, members_state. unfold holder.
    rewrite set_uclamp_cpu, uclamp_set, Hc, Z.eqb_refl. cbn [andb].
    change (uc_active (se <| uc_active := true |>)) with true. cbv beta iota.
    pose proof (members_size_lt s c id p t Ht Hfresh).
    clearbody se.
    exact (inc_buckets_ok _ _ _ _ p (se <| uc_active := true |>) (Hok c r Hr) Hidle Hfresh
             (valid_se_active _ _ Hse) ltac:(lia)).
  - rewrite (members_same s p t); [by apply Hok|done|]. unfold holder.
    rewrite set_uclamp_cpu. destruct (Z.eqb_spec (cpu t) c'); [congruence|done].
Qed.

(** Dropping one does too; the idle mark may get set. *)
Lemma dec_id_ok s p t c r id :
  id_ok s id → k_tasks s !! p = Some t → cpu t = c → k_rqs s !! c = Some r →
  uc_active (uclamp id t) = true → Z.of_nat (size (k_tasks s)) < 2 ^ 53 →
  wp (uclamp_rq_dec_id c p id) s (λ _ s', ∃ t' r',
    s' = uclamp_state s p t' c r' ∧ id_ok s' id ∧
    (∀ id', id' ≠ id → uclamp id' t' = uclamp id' t ∧ rq_uclamp id' r' = rq_uclamp id' r) ∧
    uc_active (uclamp id t') = false ∧ (∀ i, uclamp_req i t' = uclamp_req i t) ∧ cpu t' = cpu t ∧
    (uclamp_rq_is_idle r = true → uclamp_rq_is_idle r' = true) ∧
    (uclamp_rq_is_idle r' = true → uclamp_rq_is_idle r = true ∨ members s' c id = ∅)).
Proof.
  intros Hok Ht Hc Hr Hact Hsize. set (se := uclamp id t).
  assert (holder c id t = Some se) as Hh
    by (unfold holder; by rewrite Hc, Z.eqb_refl, Hact).
  pose proof (members_lookup s c id p t Ht) as Hm. rewrite Hh in Hm.
  destruct (member_bucket _ _ _ _ _ _ (Hok c r Hr) Hm) as (k&Hk&Hle&Hn&Hbz).
  eapply wp_dec_id; [done..|fold se; lia|done|done|]. fold se.
  pose proof (members_size s c id).
  pose proof (dec_buckets_ok id (uclamp_rq_is_idle r) _ _ p se (Hok c r Hr) Hm ltac:(lia)) as Hdec.
  rewrite dec_buckets_idle in Hdec.
  destruct (dec_buckets id false _ _ _) as [u' i']. destruct Hdec as [Hok' Hidle'].
  assert (∀ c', holder c' id (set_uclamp id (λ u, u <| uc_active := false |>) t) = None) as Hh'.
  { intros c'. unfold holder. rewrite uclamp_set.
    change (uc_active ((uclamp id t) <| uc_active := false |>)) with false.
    by rewrite andb_false_r. }
  eexists _, _. split; [reflexivity|].
  split; [|split_and!; [intros id' Hne; split;
      [by rewrite uclamp_set_ne|by rewrite set_idle_uclamp, rq_uclamp_set_ne]
    |by rewrite uclamp_set|intros; by rewrite set_uclamp_req_same|by rewrite set_uclamp_cpu|..]].
  - intros c' r' Hr'. unfold uclamp_state in Hr'. cbn in Hr'. rewrite members_state, Hh'.
    apply lookup_insert_Some in Hr' as [[<- <-]|[Hne Hr']].
    + rewrite set_idle_idle, set_rq_uclamp_idle, set_idle_uclamp, rq_uclamp_set. done.
    + rewrite delete_id; [by apply Hok|]. rewrite (members_lookup s c' id p t Ht). unfold holder.
      destruct (Z.eqb_spec (cpu t) c'); [congruence|done].
  - intros Hi. rewrite set_idle_idle, set_rq_uclamp_idle, Hi. by apply orb_true_r.
  - intros Hi. rewrite set_idle_idle, set_rq_uclamp_idle in Hi. rewrite members_state, Hh'. auto.
Qed.

(** The other clamp is not affected. *)
Lemma other_id_ok s p t t' c r r' id :
  id_ok s id → k_tasks s !! p = Some t → k_rqs s !! c = Some r →
  uclamp id t' = uclamp id t → cpu t' = cpu t → rq_uclamp id r' = rq_uclamp id r →
  (uclamp_rq_is_idle r = true → uclamp_rq_is_idle r' = true) →
  id_ok (uclamp_state s p t' c r') id ∧
  ∀ c', members (uclamp_state s p t' c r') c' id = members s c' id.
Proof.
  intros Hok Ht Hr Hu Hc Hru Hi.
  assert (∀ c', members (uclamp_state s p t' c r') c' id = members s c' id) as Hm.
  { intros c'. apply (members_same s p t); [done|]. unfold holder. by rewrite Hc, Hu. }
  split; [|done]. intros c' r'' Hr''. unfold uclamp_state in Hr''. cbn in Hr''. rewrite Hm.
  apply lookup_insert_Some in Hr'' as [[<- <-]|[Hne Hr'']]; [|by apply Hok].
  rewrite Hru. by eapply buckets_ok_idle; [apply Hok|].
Qed.

(** What a CPU's clamp means: the maximum of its tasks' clamps is bounded by it,
    and it is the clamp of the topmost bucket in use. *)
Definition clamp_covers s (c : Z) (id : uclamp_id) : Prop := ∀ r p se,
  k_rqs s !! c = Some r → members s c id !! p = Some se →
  uc_value se <= ucrq_value (rq_uclamp id r) <= SCHED_CAPACITY_SCALE.

Lemma uclamp_inv_covers s c id : uclamp_inv s → clamp_covers s c id.
Proof.
  intros Hinv r p se Hr Hp. pose proof (ui_buckets s Hinv id c r Hr) as Hok.
  destruct (member_bucket _ _ _ _ _ _ Hok Hp) as (k&Hk&Hle&Hn&_).
  pose proof (bo_top _ _ _ _ Hok _ k Hk Hn) as Htop.
  destruct (bo_attained _ _ _ _ Hok) as (b'&k'&Hk'&Hn'&Heq).
  { intros Hm. by rewrite Hm in Hp. }
  destruct (bo_val _ _ _ _ Hok b' k' Hk' Hn') as [[_ Hv] _]. rewrite <-Heq in Htop |- *. lia.
Qed.

Lemma uclamp_state_task s p t c r : k_tasks (uclamp_state s p t c r) !! p = Some t.
Proof. apply lookup_insert_eq. Qed.
Lemma uclamp_state_rq s p t c r : k_rqs (uclamp_state s p t c r) !! c = Some r.
Proof. apply lookup_insert_eq. Qed.
Lemma uclamp_state_tasks s p t c r q tq :
  k_tasks (uclamp_state s p t c r) !! q = Some tq →
  p = q ∧ t = tq ∨ p ≠ q ∧ k_tasks s !! q = Some tq.
Proof. apply lookup_insert_Some. Qed.
Lemma uclamp_state_rqs s p t c r c' r' :
  k_rqs (uclamp_state s p t c r) !! c' = Some r' →
  c = c' ∧ r = r' ∨ c ≠ c' ∧ k_rqs s !! c' = Some r'.
Proof. apply lookup_insert_Some. Qed.
Lemma uclamp_state_twice s p t c r t' r' :
  uclamp_state (uclamp_state s p t c r) p t' c r' = uclamp_state s p t' c r'.
Proof. symmetry. apply uclamp_state_eq; try done; apply insert_insert_eq. Qed.
Lemma uclamp_state_size s p t t' c r :
  k_tasks s !! p = Some t → size (k_tasks (uclamp_state s p t' c r)) = size (k_tasks s).
Proof. intros Ht. apply map_size_insert_Some. eauto. Qed.

(** The invariant of a state from its parts. *)
Lemma uclamp_inv_state s p t t' r' :
  uclamp_inv s → k_tasks s !! p = Some t → cpu t' = cpu t →
  (∀ i, uclamp_req i t' = uclamp_req i t) →
  uc_active (uclamp UCLAMP_MIN t') = uc_active (uclamp UCLAMP_MAX t') →
  let s' := uclamp_state s p t' (cpu t) r' in
  (∀ id, id_ok s' id) → (uclamp_rq_is_idle r' = true → ∀ id, members s' (cpu t) id = ∅) →
  uclamp_inv s'.
Proof.
  intros Hinv Ht Hc Hq Ha s' Hok Hidle. constructor.
  - intros id q tq [[<- <-]|[Hne Hlk]]%uclamp_state_tasks; [rewrite Hq|]; by eapply (ui_req _ Hinv).
  - apply (ui_default _ Hinv).
  - intros q tq [[<- <-]|[Hne Hlk]]%uclamp_state_tasks; [done|by eapply (ui_active _ Hinv)].
  - unfold s'. rewrite (uclamp_state_size s p t); [apply (ui_size _ Hinv)|done].
  - done.
  - intros c r [[<- <-]|[Hne Hlk]]%uclamp_state_rqs Hi id; [by apply Hidle|].
    unfold s'. rewrite (members_same s p t); [by eapply (ui_idle _ Hinv)|done|].
    unfold holder. rewrite Hc. destruct (Z.eqb_spec (cpu t) c); done.
Qed.

Lemma clear_idle_ok s id c r f :
  id_ok s id → k_rqs s !! c = Some r → members s c id ≠ ∅ →
  id_ok (s <| k_rqs ::= <[c := r <| uclamp_flags := f |>]> |>) id.
Proof.
  intros Hok Hr Hm c' r' Hlk. cbn in Hlk.
  apply lookup_insert_Some in Hlk as [[<- <-]|[Hne Hlk]]; [|by apply Hok].
  destruct (Hok c r Hr) as [H1 H2 H3 H4 H5 H6 H7].
  replace (rq_uclamp id (r <| uclamp_flags := f |>)) with (rq_uclamp id r) by by destruct id.
  by constructor.
Qed.

(** Both clamps are counted, before the idle mark is cleared. *)
Lemma wp_inc_both s p t r :
  uclamp_inv s → k_tasks s !! p = Some t → k_rqs s !! cpu t = Some r →
  uc_active (uclamp UCLAMP_MIN t) = false →
  wp (for_each_clamp_id clamp_ids (uclamp_rq_inc_id (cpu t) p)) s (λ _ s', ∃ t' r',
    s' = uclamp_state s p t' (cpu t) r' ∧ cpu t' = cpu t ∧ (∀ id, id_ok s' id) ∧
    (∀ id, uc_active (uclamp id t') = true) ∧ (∀ i, uclamp_req i t' = uclamp_req i t)).
Proof.
  intros Hinv Ht Hr Hact.
  assert (uc_active (uclamp UCLAMP_MAX t) = false) as Hact' by (by rewrite <-(ui_active _ Hinv p t Ht)).
  cbn [clamp_ids for_each_clamp_id]. apply wp_bind.
  eapply wp_mono; [eapply (inc_id_ok s p t (cpu t) r UCLAMP_MIN); try done;
    [apply Hinv|by intros; eapply (ui_idle _ Hinv)|by eapply (ui_req _ Hinv)
    |apply (ui_default _ Hinv)|apply (ui_size _ Hinv)]|].
  intros _ s1 (t1&r1&->&Hok1&Hoth1&Ha1&Hq1&Hc1&Hi1).
  destruct (Hoth1 UCLAMP_MAX ltac:(done)) as [Hu1 Hr1].
  destruct (other_id_ok s p t t1 (cpu t) r r1 UCLAMP_MAX) as [Hokx Hmx]; try done;
    [apply Hinv|by rewrite Hi1|].
  apply wp_bind. eapply wp_mono;
    [eapply (inc_id_ok _ p t1 (cpu t) r1 UCLAMP_MAX); try done;
     [apply uclamp_state_task|apply uclamp_state_rq|by rewrite Hu1
     |intros Hi; rewrite Hmx; rewrite Hi1 in Hi; by eapply (ui_idle _ Hinv)
     |rewrite Hq1; by eapply (ui_req _ Hinv)|apply (ui_default _ Hinv)
     |rewrite (uclamp_state_size s p t); [apply (ui_size _ Hinv)|done]]|].
  intros _ s2 (t2&r2&->&Hok2&Hoth2&Ha2&Hq2&Hc2&Hi2).
  destruct (Hoth2 UCLAMP_MIN ltac:(done)) as [Hu2 Hr2].
  destruct (other_id_ok _ p t1 t2 (cpu t) r1 r2 UCLAMP_MIN Hok1) as [Hokm _]; try done;
    [apply uclamp_state_task|apply uclamp_state_rq|by rewrite Hi2|].
  rewrite uclamp_state_twice in *. wp_steps. exists t2, r2.
  split_and!; [done|congruence|by intros []|intros []; [by rewrite Hu2|done]|].
  intros i. by rewrite Hq2, Hq1.
Qed.

(** A task holds both references or none. *)
Lemma members_sync s c id id' :
  (∀ q tq, k_tasks s !! q = Some tq →
    uc_active (uclamp UCLAMP_MIN tq) = uc_active (uclamp UCLAMP_MAX tq)) →
  members s c id = ∅ → members s c id' = ∅.
Proof.
  intros Hsync Hm. apply map_empty. intros q. unfold members. rewrite lookup_omap.
  destruct (k_tasks s !! q) as [tq|] eqn:Hq; [|done]. cbn.
  pose proof (members_lookup s c id q tq Hq) as Hl. rewrite Hm, lookup_empty in Hl.
  specialize (Hsync q tq Hq). unfold holder in *.
  destruct (cpu tq =? c); [|done]. cbn [andb] in *.
  assert (uc_active (uclamp id' tq) = uc_active (uclamp id tq)) as -> by (by destruct id, id').
  by destruct (uc_active (uclamp id tq)).
Qed.

(** Both references are dropped. *)
Lemma wp_dec_both s p t r :
  uclamp_inv s → k_tasks s !! p = Some t → k_rqs s !! cpu t = Some r →
  uc_active (uclamp UCLAMP_MIN t) = true →
  wp (for_each_clamp_id clamp_ids (uclamp_rq_dec_id (cpu t) p)) s (λ _ s',
    uclamp_inv s' ∧ ∀ id, members s' (cpu t) id !! p = None).
Proof.
  intros Hinv Ht Hr Hact.
  assert (uc_active (uclamp UCLAMP_MAX t) = true) as Hact' by (by rewrite <-(ui_active _ Hinv p t Ht)).
  assert (uclamp_rq_is_idle r = false) as Hi0.
  { destruct (uclamp_rq_is_idle r) eqn:Hi; [|done].
    pose proof (members_lookup s (cpu t) UCLAMP_MIN p t Ht) as Hm.
    rewrite (ui_idle _ Hinv _ r Hr Hi), lookup_empty in Hm. unfold holder in Hm.
    by rewrite Z.eqb_refl, Hact in Hm. }
  cbn [clamp_ids for_each_clamp_id]. apply wp_bind.
  eapply wp_mono; [eapply (dec_id_ok s p t (cpu t) r UCLAMP_MIN); try done;
    [apply Hinv|apply (ui_size _ Hinv)]|].
  intros _ s1 (t1&r1&->&Hok1&Hoth1&Ha1&Hq1&Hc1&Hi1&Hj1).
  destruct (Hoth1 UCLAMP_MAX ltac:(done)) as [Hu1 Hr1].
  destruct (other_id_ok s p t t1 (cpu t) r r1 UCLAMP_MAX) as [Hokx Hmx]; try done; [apply Hinv|].
  apply wp_bind. eapply wp_mono;
    [eapply (dec_id_ok _ p t1 (cpu t) r1 UCLAMP_MAX); try done;
     [apply uclamp_state_task|apply uclamp_state_rq|by rewrite Hu1
     |rewrite (uclamp_state_size s p t); [apply (ui_size _ Hinv)|done]]|].
  intros _ s2 (t2&r2&->&Hok2&Hoth2&Ha2&Hq2&Hc2&Hi2&Hj2).
  destruct (Hoth2 UCLAMP_MIN ltac:(done)) as [Hu2 Hr2].
  destruct (other_id_ok _ p t1 t2 (cpu t) r1 r2 UCLAMP_MIN Hok1) as [Hokm Hmm]; try done;
    [apply uclamp_state_task|apply uclamp_state_rq|].
  rewrite uclamp_state_twice in *. wp_steps.
  assert (∀ id, uc_active (uclamp id t2) = false) as Hact2 by (intros []; [by rewrite Hu2|done]).
  split.
  - apply (uclamp_inv_state s p t); try done; [congruence|intros i; by rewrite Hq2, Hq1
      |by rewrite (Hact2 UCLAMP_MIN), (Hact2 UCLAMP_MAX)|by intros []|].
    intros Hi. set (s2 := uclamp_state s p t2 (cpu t) r2) in *.
    assert (∀ q tq, k_tasks s2 !! q = Some tq →
              uc_active (uclamp UCLAMP_MIN tq) = uc_active (uclamp UCLAMP_MAX tq)) as Hsync.
    { intros q tq [[<- <-]|[Hne Hlk]]%uclamp_state_tasks;
        [by rewrite !Hact2|by eapply (ui_active _ Hinv)]. }
    destruct (Hj2 Hi) as [Hi'|Hm]; [|by intros id; apply (members_sync s2 (cpu t) UCLAMP_MAX)].
    destruct (Hj1 Hi') as [|Hm]; [congruence|].
    intros id. apply (members_sync s2 (cpu t) UCLAMP_MIN); [done|]. by rewrite Hmm.
  - intros id. rewrite (members_lookup _ _ _ p t2 (uclamp_state_task _ _ _ _ _)).
    unfold holder. by rewrite Hact2, andb_false_r.
Qed.

(** Clearing the idle mark, now that the run queue has a task. *)
Lemma wp_clear_idle s p t t' r' :
  uclamp_inv s → k_tasks s !! p = Some t → cpu t' = cpu t →
  (∀ i, uclamp_req i t' = uclamp_req i t) → (∀ id, uc_active (uclamp id t') = true) →
  (∀ id, id_ok (uclamp_state s p t' (cpu t) r') id) →
  wp (r ← cpu_rq (cpu t);
      when (has (uclamp_flags r) UCLAMP_FLAG_IDLE)
        (upd_rq (cpu t) (λ r, r <| uclamp_flags ::= λ f, Z.land f (Z.lnot UCLAMP_FLAG_IDLE) |>)))
    (uclamp_state s p t' (cpu t) r')
    (λ _ s', uclamp_inv s' ∧ ∀ id, is_Some (members s' (cpu t) id !! p)).
Proof.
  intros Hinv Ht Hc Hq Hact Hok. set (s1 := uclamp_state s p t' (cpu t) r') in *.
  assert (∀ r id, is_Some (members (uclamp_state s p t' (cpu t) r) (cpu t) id !! p)) as Hin.
  { intros r id. rewrite (members_lookup _ _ _ p t' (uclamp_state_task _ _ _ _ _)).
    unfold holder. by rewrite Hc, Z.eqb_refl, Hact. }
  assert (∀ r, uclamp_rq_is_idle r = false → (∀ id, id_ok (uclamp_state s p t' (cpu t) r) id) →
            uclamp_inv (uclamp_state s p t' (cpu t) r)) as Hinv'.
  { intros r Hi Hok'. apply (uclamp_inv_state s p t); try done; [|by rewrite Hi].
    by rewrite (Hact UCLAMP_MIN), (Hact UCLAMP_MAX). }
  apply wp_bind. eapply wp_rq; [apply uclamp_state_rq|].
  apply wp_when; intros Hi; [|by split; [apply Hinv'; [exact Hi|]|apply Hin]].
  eapply wp_upd_rq; [apply uclamp_state_rq|].
  set (r3 := r' <| uclamp_flags ::= _ |>).
  replace (s1 <| k_rqs := _ |>) with (uclamp_state s p t' (cpu t) r3)
    by (apply uclamp_state_eq; try done; apply insert_insert_eq).
  split; [|done]. apply Hinv'; [apply clear_idle|]. intros id.
  replace (uclamp_state s p t' (cpu t) r3) with (s1 <| k_rqs ::= <[cpu t := r3]> |>)
    by (symmetry; apply uclamp_state_eq; try done; apply insert_insert_eq).
  apply (clear_idle_ok s1 id (cpu t) r'); [done|apply uclamp_state_rq|].
  intros Hm. destruct (Hin r' id) as [x Hx]. fold s1 in Hx. by rewrite Hm in Hx.
Qed.

(** Enqueueing a task that holds no reference keeps the invariant, and the CPU's
    clamps then cover the clamps of all its tasks, the new one included. *)
Lemma uclamp_rq_inc_inv s p t r :
  uclamp_inv s → k_tasks s !! p = Some t → k_rqs s !! cpu t = Some r →
  uc_active (uclamp UCLAMP_MIN t) = false →
  wp (uclamp_rq_inc true (cpu t) p) s (λ _ s',
    uclamp_inv s' ∧ (∀ id, clamp_covers s' (cpu t) id) ∧
    (sched_uclamp_used (k_uclamp s) = true → sched_delayed t = false →
      ∀ id, is_Some (members s' (cpu t) id !! p))).
Proof.
  intros Hinv Ht Hr Hact. unfold uclamp_rq_inc. wp_steps.
  destruct (sched_uclamp_used (k_uclamp s)) eqn:Hused; cbn [negb];
    [|wp_steps; split_and!; [done|intros; by apply uclamp_inv_covers|done]].
  wp_steps. destruct (sched_delayed t) eqn:Hdel;
    [wp_steps; split_and!; [done|intros; by apply uclamp_inv_covers|done]|].
  apply wp_bind. eapply wp_mono; [by eapply wp_inc_both|].
  intros _ s2 (t2&r2&->&Hc2&Hok2&Hact2&Hq2).
  eapply wp_mono; [by eapply wp_clear_idle|].
  intros _ s3 [Hinv3 Hin]. split_and!; [done|intros; by apply uclamp_inv_covers|done].
Qed.

(** Dequeueing a task keeps the invariant; afterwards it holds no reference. *)
Lemma uclamp_rq_dec_inv s p t r :
  uclamp_inv s → k_tasks s !! p = Some t → k_rqs s !! cpu t = Some r →
  wp (uclamp_rq_dec true (cpu t) p) s (λ _ s',
    uclamp_inv s' ∧ (∀ id, clamp_covers s' (cpu t) id) ∧
    (sched_uclamp_used (k_uclamp s) = true → sched_delayed t = false →
      ∀ id, members s' (cpu t) id !! p = None)).
Proof.
  intros Hinv Ht Hr. unfold uclamp_rq_dec. wp_steps.
  destruct (sched_uclamp_used (k_uclamp s)) eqn:Hused; cbn [negb];
    [|wp_steps; split_and!; [done|intros; by apply uclamp_inv_covers|done]].
  wp_steps. destruct (sched_delayed t) eqn:Hdel;
    [wp_steps; split_and!; [done|intros; by apply uclamp_inv_covers|done]|].
  destruct (uc_active (uclamp UCLAMP_MIN t)) eqn:Hact.
  2: { unfold uclamp_rq_dec_id. cbn [clamp_ids for_each_clamp_id]. wp_steps.
       pose proof (ui_active _ Hinv p t Ht) as Ha. rewrite Hact in Ha.
       rewrite Hact. cbn [negb]. wp_steps. rewrite <-Ha. cbn [negb].
       wp_steps. split_and!; [done|intros; by apply uclamp_inv_covers|].
       intros _ _ id. rewrite (members_lookup _ _ _ p t Ht). unfold holder.
       destruct id; by rewrite ?Hact, <-?Ha, andb_false_r. }
  eapply wp_mono; [by eapply wp_dec_both|].
  intros _ s2 (Hinv2&Hout). split_and!; [done|intros; by apply uclamp_inv_covers|done].
Qed.

(** C40: Enqueueing a task that holds no reference, and dequeueing a task, keep the bucket
    accounting, and the clamps of the CPU then cover those of all its tasks: with the
    enqueued task among them, and without the dequeued one. *)
Theorem uclamp_rq_inv s p t r :
  uclamp_inv s → k_tasks s !! p = Some t → k_rqs s !! cpu t = Some r →
  (uc_active (uclamp UCLAMP_MIN t) = false →
    wp (uclamp_rq_inc true (cpu t) p) s (λ _ s',
      uclamp_inv s' ∧ (∀ id, clamp_covers s' (cpu t) id) ∧
      (sched_uclamp_used (k_uclamp s) = true → sched_delayed t = false →
        ∀ id, is_Some (members s' (cpu t) id !! p)))) ∧
  wp (uclamp_rq_dec true (cpu t) p) s (λ _ s',
    uclamp_inv s' ∧ (∀ id, clamp_covers s' (cpu t) id) ∧
    (sched_uclamp_used (k_uclamp s) = true → sched_delayed t = false →
      ∀ id, members s' (cpu t) id !! p = None)).
Proof. intros Hinv Ht Hr. split; [intros Hact; by eapply uclamp_rq_inc_inv|by eapply uclamp_rq_dec_inv]. Qed.

Lemma uclamp_se_set_valid v ud u : valid_value v → valid_se (uclamp_se_set v ud u).
Proof.
  intros Hv. unfold valid_se, uclamp_se_set, valid_value in *. cbn. unfold value_bits.
  rewrite Z.mod_small by (unfold SCHED_CAPACITY_SCALE in *; lia). done.
Qed.
Lemma uclamp_none_valid id : valid_value (uclamp_none id).
Proof. by destruct id. Qed.

Lemma init_rq_ok id r :
  buckets_ok id (uclamp_rq_is_idle (init_uclamp_rq r)) ∅ (rq_uclamp id (init_uclamp_rq r)).
Proof.
  replace (rq_uclamp id (init_uclamp_rq r)) with
    {| ucrq_value := uclamp_none id;
       ucrq_bucket := replicate (Z.to_nat UCLAMP_BUCKETS) {| bk_value := 0; bk_tasks := 0 |} |}
    by by destruct id.
  constructor; cbn [ucrq_value ucrq_bucket].
  - apply length_replicate.
  - by intros b k [-> _]%lookup_replicate.
  - done.
  - by intros b k [-> _]%lookup_replicate.
  - by intros b k [-> _]%lookup_replicate.
  - done.
  - by destruct id.
Qed.

(** Run queues as initialised and no reference held. *)
Lemma uclamp_inv_fresh s :
  (∀ c r, k_rqs s !! c = Some r → ∃ r0, r = init_uclamp_rq r0) →
  (∀ id q t, k_tasks s !! q = Some t → uc_active (uclamp id t) = false) →
  (∀ id q t, k_tasks s !! q = Some t → valid_se (uclamp_req id t)) →
  (∀ id, valid_se (uclamp_default id (k_uclamp s))) → Z.of_nat (size (k_tasks s)) < 2 ^ 53 →
  uclamp_inv s.
Proof.
  intros Hrqs Hact Hreq Hdef Hsize. assert (∀ c id, members s c id = ∅) as Hm.
  { intros c id. apply map_empty. intros q. unfold members. rewrite lookup_omap.
    destruct (k_tasks s !! q) as [t|] eqn:Hq; [|done]. cbn. unfold holder.
    by rewrite (Hact id q t Hq), andb_false_r. }
  constructor; [by eauto|done| |done| |done].
  - intros q t Hq. by rewrite !(Hact _ q t Hq).
  - intros id c r Hr. rewrite Hm. destruct (Hrqs c r Hr) as [r0 ->]. apply init_rq_ok.
Qed.

(** Initialisation establishes the invariant, with no reference held. *)
Theorem init_uclamp_inv s p0 t0 :
  k_tasks s !! p0 = Some t0 → Z.of_nat (size (k_tasks s)) < 2 ^ 53 →
  (∀ id q t, k_tasks s !! q = Some t → uc_active (uclamp id t) = false) →
  (∀ id q t, k_tasks s !! q = Some t → q ≠ p0 → valid_se (uclamp_req id t)) →
  wp (init_uclamp p0) s (λ _ s', uclamp_inv s' ∧
    ∀ c r id, k_rqs s' !! c = Some r → ucrq_value (rq_uclamp id r) = uclamp_none id).
Proof.
  intros Ht Hsize Hact Hreq. unfold init_uclamp. cbn [clamp_ids for_each_clamp_id]. wp_steps.
  set (t1 := set_uclamp_req UCLAMP_MAX _ _).
  set (s' := upd _ _ _).
  assert (∀ q t, k_tasks s' !! q = Some t → q = p0 ∧ t = t1 ∨ q ≠ p0 ∧ k_tasks s !! q = Some t) as Htasks.
  { intros q t. cbn. rewrite insert_insert_eq. intros [[<- <-]|[Hne Hlk]]%lookup_insert_Some; auto. }
  assert (∀ id q t, k_tasks s' !! q = Some t → uc_active (uclamp id t) = false) as Hact'.
  { intros id q t [[-> ->]|[_ Hlk]]%Htasks; [|by eapply Hact].
    pose proof (Hact id p0 t0 Ht). by destruct id. }
  assert (∀ c r, k_rqs s' !! c = Some r → ∃ r0, r = init_uclamp_rq r0) as Hrqs.
  { intros c r. cbn. rewrite lookup_fmap. destruct (k_rqs s !! c); cbn; [|done].
    intros [= <-]. eauto. }
  split; [apply uclamp_inv_fresh; [done|done|..]|].
  - intros id q t [[-> ->]|[Hne Hlk]]%Htasks; [|by eapply Hreq].
    destruct id; apply uclamp_se_set_valid; [apply (uclamp_none_valid UCLAMP_MIN)|apply uclamp_none_valid].
  - intros id. assert (uclamp_default id (k_uclamp s') = uclamp_se_set (uclamp_none UCLAMP_MAX) false
      {| uc_value := 0; uc_bucket_id := 0; uc_active := false; uc_user_defined := false |})
      as -> by by destruct id.
    apply uclamp_se_set_valid, uclamp_none_valid.
  - cbn. rewrite insert_insert_eq, map_size_insert_Some by eauto. done.
  - intros c r id Hr. destruct (Hrqs c r Hr) as [r0 ->]. by destruct id.
Qed.

Lemma wp_sync_threads l s :
  (∀ p, p ∈ l → is_Some (k_tasks s !! p)) →
  wp (for_each_process_thread l uclamp_update_util_min_rt_default) s (λ _ s',
    k_uclamp s' = k_uclamp s ∧ k_rqs s' = k_rqs s).
Proof.
  revert s. induction l as [|p l IH]; intros s Hl; cbn [for_each_process_thread]; [done|].
  apply wp_bind. destruct (Hl p) as [t Ht]; [left|].
  apply (wp_mono _ _ (λ _ s', k_uclamp s' = k_uclamp s ∧ k_rqs s' = k_rqs s ∧
    ∀ q, is_Some (k_tasks s !! q) → is_Some (k_tasks s' !! q))).
  - unfold uclamp_update_util_min_rt_default, __uclamp_update_util_min_rt_default. wp_steps.
    destruct (rt_task t); cbn [negb]; wp_steps; [|done].
    destruct (uc_user_defined _); wp_steps; [done|].
    split_and!; [done|done|]. intros q Hq. cbn. rewrite lookup_insert_is_Some. destruct (decide (p = q)); auto.
  - intros _ s' (Hu&Hr&Hd). eapply wp_mono; [apply IH|].
    + intros q Hq. apply Hd, Hl. by right.
    + intros _ s'' [-> ->]. done.
Qed.

(** Writing the clamp knobs: values out of range leave every knob and default as
    they were; accepted ones keep the system defaults valid, and a change of the
    lower limit takes effect as the new default. *)
Theorem sysctl_sched_uclamp_handler_spec s proc write res m x rt :
  proc write (k_uclamp s) = (res, (m, x, rt)) → 0 <= m → 0 <= x →
  (∀ id, valid_se (uclamp_default id (k_uclamp s))) →
  wp (sysctl_sched_uclamp_handler proc write) s (λ ret s',
    (ret ≠ 0 → k_uclamp s' = k_uclamp s ∧ k_tasks s' = k_tasks s) ∧
    (∀ id, valid_se (uclamp_default id (k_uclamp s'))) ∧
    (write = true → ret = 0 →
      m <= x <= SCHED_CAPACITY_SCALE ∧
      sysctl_sched_uclamp_util_min (k_uclamp s') = m ∧
      sysctl_sched_uclamp_util_max (k_uclamp s') = x ∧
      (m ≠ sysctl_sched_uclamp_util_min (k_uclamp s) →
         uc_value (uclamp_default_min (k_uclamp s')) = m ∧
         sched_uclamp_used (k_uclamp s') = true))).
Proof.
  intros Hproc Hm Hx Hdef. unfold sysctl_sched_uclamp_handler. wp_steps. rewrite Hproc. wp_steps.
  pose proof (Hdef UCLAMP_MIN) as Hd1. pose proof (Hdef UCLAMP_MAX) as Hd2.
  destruct (Z.eqb_spec res 0) as [->|Hres]; cbn [negb]; wp_steps.
  2: { split_and!; [intros _; split; [by destruct s as [? ? ? ? ? ? []]|done]
         |by intros []|intros; lia]. }
  destruct write; cbn [negb]; wp_steps; [|split_and!; [done|by intros []|done]].
  destruct (Z.ltb_spec x m) as [|Hmx]; [|destruct (Z.ltb_spec SCHED_CAPACITY_SCALE x) as [|Hx'];
    [|destruct (Z.ltb_spec SCHED_CAPACITY_SCALE rt) as [|Hrt]]]; cbn [orb]; wp_steps.
  1-3: split_and!; [intros _; split; [by destruct s as [? ? ? ? ? ? []]|done]|by intros []|done].
  assert (valid_value m ∧ valid_value x) as [Hvm Hvx] by (unfold valid_value; lia).
  pose proof (λ ud u, uclamp_se_set_valid m ud u Hvm) as Hsm.
  pose proof (λ ud u, uclamp_se_set_valid x ud u Hvx) as Hsx.
  assert (value_bits m = m) as Hbm.
  { unfold value_bits. apply Z.mod_small. unfold valid_value, SCHED_CAPACITY_SCALE in *. lia. }
  destruct (Z.eqb_spec (sysctl_sched_uclamp_util_min (k_uclamp s)) m) as [Hm1|Hm1],
    (Z.eqb_spec (sysctl_sched_uclamp_util_max (k_uclamp s)) x) as [Hx1|Hx1],
    (Z.eqb_spec (sysctl_sched_uclamp_util_min_rt_default (k_uclamp s)) rt) as [Hr1|Hr1];
    cbn [negb when orb]; wp_steps.
  all: unfold uclamp_sync_util_min_rt_default; wp_steps; repeat (
    eapply wp_mono; [apply wp_sync_threads; intros q Hq; by apply elem_of_elements, elem_of_dom in Hq
    |intros _ s2 [Hu _]; apply wp_ret; rewrite Hu; clear Hu]).
  all: split_and!; [done|intros []; first [apply Hd1|apply Hd2|apply Hsm|apply Hsx]|
    intros _ _; split_and!; [lia|lia|done|done|intros Hne; first [done | split; [exact Hbm|done]]]].
Qed.
End inv.
