(* ===== verification/HvfFrame.v ===== *)
(** What the HVF class leaves alone: every operation of its table changes only the
    HVF fields of tasks and run queues, [rq->nr_running], reschedule marks, the
    trace and the number of clock reads. *)
From S2P Require Import Prelude Rbtree KState HvfValue HvfClass HvfSmp.

Definition no_entity : sched_hvf_entity :=
  {| init_sched_value := 0; curr_sched_value := 0; first_time := 0; latest_time := 0;
     time_used := 0; runtime := 0; se_on_rq := false; cpu_answers := 0; cpu_first_answer := 0;
     slice_expired := false; prev_cpu := 0; curr_cpu := 0 |}.
Definition no_hvf_rq : hvf_rq :=
  {| hvf_task_queue := RbNull; max_value_entity := None; hvf_curr := None; nr_hvf_queued := 0 |}.

(** A task and a run queue without the data of the HVF class, and without the
    deadline server links and reschedule marks that follow every switch. *)
Definition task_core (t : task_struct) : task_struct :=
  t <| hvf := no_entity |> <| deadline_1 := 0 |> <| deadline_2 := 0 |>
    <| computation_time := 0 |> <| pars_set := false |> <| need_resched := false |>
    <| dl_server := None |>.
Definition rq_core (r : rq) : rq :=
  r <| rq_hvf := no_hvf_rq |> <| nr_running := 0 |> <| rq_dl_server := None |>.

Record frame (s s' : kstate) : Prop := {
  fr_tasks p : task_core <$> k_tasks s' !! p = task_core <$> k_tasks s !! p;
  fr_rqs c : rq_core <$> k_rqs s' !! c = rq_core <$> k_rqs s !! c;
  fr_clock : k_clock s' = k_clock s;
  fr_cpu : k_cpu s' = k_cpu s;
  fr_uclamp : k_uclamp s' = k_uclamp s;
}.

#[export] Instance frame_preorder : PreOrder frame.
Proof.
  split; [by split|]. intros s1 s2 s3 [H1 H2 H3 H4 H5] [H1' H2' H3' H4' H5'].
  split; [intros; by rewrite H1'|intros; by rewrite H2'|congruence..].
Qed.

Lemma frame_task s s' p t :
  frame s s' → k_tasks s !! p = Some t → ∃ t', k_tasks s' !! p = Some t' ∧ task_core t' = task_core t.
Proof.
  intros Hf Ht. pose proof (fr_tasks _ _ Hf p) as Heq. rewrite Ht in Heq. cbn in Heq.
  destruct (k_tasks s' !! p) as [t'|]; [|done]. apply (inj Some) in Heq. by exists t'.
Qed.
Lemma frame_rq s s' c r :
  frame s s' → k_rqs s !! c = Some r → ∃ r', k_rqs s' !! c = Some r' ∧ rq_core r' = rq_core r.
Proof.
  intros Hf Hr. pose proof (fr_rqs _ _ Hf c) as Heq. rewrite Hr in Heq. cbn in Heq.
  destruct (k_rqs s' !! c) as [r'|]; [|done]. apply (inj Some) in Heq. by exists r'.
Qed.
(** Any field outside the mask is the same in tasks with the same core. *)
Lemma core_field {A} (f : task_struct → A) t t' :
  (∀ t, f (task_core t) = f t) → task_core t' = task_core t → f t' = f t.
Proof. intros Hf Heq. by rewrite <-(Hf t'), <-(Hf t), Heq. Qed.
Lemma core_rq_field {A} (f : rq → A) r r' :
  (∀ r, f (rq_core r) = f r) → rq_core r' = rq_core r → f r' = f r.
Proof. intros Hf Heq. by rewrite <-(Hf r'), <-(Hf r), Heq. Qed.

(** Code that keeps the frame whenever it does not oops. *)
Definition keeps {A} (m : M A) : Prop := ∀ s a s', m s = Ok (a, s') → frame s s'.

Section keeps_rules.
Context {A B : Type}.
Lemma keeps_ret (a : A) : keeps (mret a).
Proof. by intros s b s' [= _ ->]. Qed.
Lemma keeps_bind (m : M A) (k : A → M B) : keeps m → (∀ a, keeps (k a)) → keeps (m ≫= k).
Proof.
  intros Hm Hk s b s'. unfold mbind, M_bind. destruct (m s) as [[a s1]|] eqn:E; [|done].
  intros E'. etrans; [by eapply Hm|by eapply Hk].
Qed.
Lemma keeps_oops o : keeps (oops_with o : M A).
Proof. by intros s a s'. Qed.
Lemma keeps_get (f : kstate → A) : keeps (get f).
Proof. by intros s a s' [= _ ->]. Qed.
Lemma keeps_deref (o : option A) : keeps (deref o).
Proof. destruct o; [apply keeps_ret|apply keeps_oops]. Qed.
Lemma keeps_wp (m : M A) s Q :
  keeps m → wp m s Q → wp m s (λ a s', Q a s' ∧ frame s s').
Proof.
  unfold wp, keeps. intros Hk. specialize (Hk s).
  destruct (m s) as [[a s']|]; [|done]. eauto.
Qed.
End keeps_rules.

Lemma keeps_when b m : keeps m → keeps (when b m).
Proof. destruct b; [done|]. intros _. apply keeps_ret. Qed.
Lemma keeps_task p : keeps (task p).
Proof. intros s a s'. unfold task. by case_match; intros [= _ ->]. Qed.
Lemma keeps_cpu_rq c : keeps (cpu_rq c).
Proof. intros s a s'. unfold cpu_rq. by case_match; intros [= _ ->]. Qed.
Lemma keeps_upd_task p f : (∀ t, task_core (f t) = task_core t) → keeps (upd_task p f).
Proof.
  intros Hf s a s'. unfold upd_task. destruct (k_tasks s !! p) as [t|] eqn:Ht; [|done].
  intros [= _ <-]. split; try done. intros q. cbn.
  destruct (decide (p = q)) as [->|]; [|by rewrite lookup_insert_ne].
  rewrite lookup_insert_eq, Ht. cbn. by rewrite Hf.
Qed.
Lemma keeps_upd_rq c f : (∀ r, rq_core (f r) = rq_core r) → keeps (upd_rq c f).
Proof.
  intros Hf s a s'. unfold upd_rq. destruct (k_rqs s !! c) as [r|] eqn:Hr; [|done].
  intros [= _ <-]. split; try done. intros c'. cbn.
  destruct (decide (c = c')) as [->|]; [|by rewrite lookup_insert_ne].
  rewrite lookup_insert_eq, Hr. cbn. by rewrite Hf.
Qed.
Lemma keeps_ktime : keeps ktime_get_real_ts64.
Proof. by intros s a s' [= _ <-]. Qed.
Lemma keeps_trace e : keeps (trace_printk e).
Proof. by intros s a s' [= _ <-]. Qed.
Lemma keeps_div64 a b : keeps (div64 a b).
Proof. unfold div64. case_match; [apply keeps_ret|apply keeps_oops]. Qed.

(** One step of a [keeps] proof; the updates are checked by computation. *)
Ltac keeps_step :=
  lazymatch goal with
  | |- keeps (mbind _ _) => apply keeps_bind; [|intros ?]
  | |- keeps (mret _) => apply keeps_ret
  | |- keeps skip => apply keeps_ret
  | |- keeps (oops_with _) => apply keeps_oops
  | |- keeps (get _) => apply keeps_get
  | |- keeps smp_processor_id => apply keeps_get
  | |- keeps (deref _) => apply keeps_deref
  | |- keeps (when _ _) => apply keeps_when
  | |- keeps (task _) => apply keeps_task
  | |- keeps (cpu_rq _) => apply keeps_cpu_rq
  | |- keeps (upd_task _ _) => apply keeps_upd_task; intros []; reflexivity
  | |- keeps (upd_rq _ _) => apply keeps_upd_rq; intros []; reflexivity
  | |- keeps ktime_get_real_ts64 => apply keeps_ktime
  | |- keeps (trace_printk _) => apply keeps_trace
  | |- keeps (div64 _ _) => apply keeps_div64
  | |- keeps (match ?x with _ => _ end) => destruct x
  | |- keeps (if ?x then _ else _) => destruct x
  | |- keeps (let _ := _ in _) => cbv zeta
  end.
Ltac keeps_solve := repeat keeps_step.

(** * What an operation of the class may write

    Of the task [p] it is called for, its HVF fields; of the run queue of its CPU [c], the
    HVF run queue, and [nr_running] by one of the numbers [ds] at most; and the reschedule
    mark of the task that runs there, which it may set.  It may read the clock and write to
    the trace. *)
Definition task_own (t : task_struct) : task_struct :=
  t <| hvf := no_entity |> <| deadline_1 := 0 |> <| deadline_2 := 0 |>
    <| computation_time := 0 |> <| pars_set := false |> <| need_resched := false |>.
Definition unmarked (t : task_struct) : task_struct := t <| need_resched := false |>.
Definition rq_own (r : rq) : rq := r <| rq_hvf := no_hvf_rq |> <| nr_running := 0 |>.
Definition marked (s : kstate) (q : tid) : option bool := need_resched <$> k_tasks s !! q.
Definition nr_of (s : kstate) (c : Z) : option Z := nr_running <$> k_rqs s !! c.
Definition rest (s : kstate) := (k_clock s, k_cpu s, k_uclamp s, k_pending s, k_stops s, k_core s, k_heads s).

Record hvf_only (ds : list Z) (c : Z) (p : tid) (s s' : kstate) : Prop := {
  ho_task q : task_own <$> k_tasks s' !! q = task_own <$> k_tasks s !! q;
  ho_other q : q ≠ p → unmarked <$> k_tasks s' !! q = unmarked <$> k_tasks s !! q;
  ho_mark q : marked s' q = marked s q ∨ marked s' q = Some true ∧ curr <$> k_rqs s !! c = Some q;
  ho_rq c' : rq_own <$> k_rqs s' !! c' = rq_own <$> k_rqs s !! c';
  ho_cpu c' : c' ≠ c → k_rqs s' !! c' = k_rqs s !! c';
  ho_nr : nr_of s' c = nr_of s c ∨ ∃ d, d ∈ ds ∧ nr_of s' c = (λ n, u32 (n + d)) <$> nr_of s c;
  ho_rest : rest s' = rest s;
}.
Definition own {A} (ds : list Z) (c : Z) (p : tid) (m : M A) : Prop := ∀ s a s', m s = Ok (a, s') → hvf_only ds c p s s'.

Lemma only_refl ds c p s : hvf_only ds c p s s.
Proof. by split; auto. Qed.
Lemma only_curr ds c p s s' : hvf_only ds c p s s' → curr <$> k_rqs s' !! c = curr <$> k_rqs s !! c.
Proof.
  intros H. pose proof (ho_rq _ _ _ _ _ H c) as Hr. destruct (k_rqs s' !! c) as [r'|], (k_rqs s !! c) as [r|]; try done. cbn in *.
  apply (inj Some) in Hr. f_equal. exact (f_equal curr Hr).
Qed.
(** The number of tasks changes in one part of the code only. *)
Lemma only_trans ds1 ds2 c p s1 s2 s3 :
  ds1 = [] ∨ ds2 = [] → hvf_only ds1 c p s1 s2 → hvf_only ds2 c p s2 s3 → hvf_only (ds1 ++ ds2) c p s1 s3.
Proof.
  intros Hds A B. pose proof (only_curr _ _ _ _ _ A) as Hc. destruct A as [A1 A2 A3 A4 A5 A6 A7], B as [B1 B2 B3 B4 B5 B6 B7]. split.
  - intros q. by rewrite B1.
  - intros q Hq. rewrite B2; auto.
  - intros q. rewrite Hc in B3. destruct (B3 q) as [->|]; auto.
  - intros c'. by rewrite B4.
  - intros c' Hc'. rewrite B5; auto.
  - destruct B6 as [->|(d&Hd&->)]; [destruct A6 as [->|(d&Hd&->)]; [by left|right; exists d; set_solver]|].
    destruct Hds as [->| ->]; [|set_solver]. destruct A6 as [->|(d'&Hd'&_)]; [right; by exists d|set_solver].
  - congruence.
Qed.
Lemma task_core_own t : task_core (task_own t) = task_core t.
Proof. destruct t. vm_compute. reflexivity. Qed.
Lemma rq_core_own r : rq_core (rq_own r) = rq_core r.
Proof. destruct r. vm_compute. reflexivity. Qed.
Lemma only_frame ds c p s s' : hvf_only ds c p s s' → frame s s'.
Proof.
  intros [A1 A2 A3 A4 A5 A6 A7]. unfold rest in A7. injection A7 as H1 H2 H3 _ _ _ _. split; [| |done..].
  - intros q. specialize (A1 q). destruct (k_tasks s' !! q) as [t'|], (k_tasks s !! q) as [t|]; try done. cbn in *. apply (inj Some) in A1.
    f_equal. rewrite <-(task_core_own t'), <-(task_core_own t). by f_equal.
  - intros c'. specialize (A4 c'). destruct (k_rqs s' !! c') as [r'|], (k_rqs s !! c') as [r|]; try done. cbn in *. apply (inj Some) in A4.
    f_equal. rewrite <-(rq_core_own r'), <-(rq_core_own r). by f_equal.
Qed.
Lemma own_keeps {A} ds c p (m : M A) : own ds c p m → keeps m.
Proof. intros H s a s' Hm. eapply only_frame. by eapply H. Qed.

Section own_rules.
Context {A B : Type} (c : Z) (p : tid).
Lemma own_ret ds (a : A) : own ds c p (mret a).
Proof. intros s b s' [= _ ->]. apply only_refl. Qed.
Lemma own_bind (m : M A) (k : A → M B) : own [] c p m → (∀ a, own [] c p (k a)) → own [] c p (m ≫= k).
Proof.
  intros Hm Hk s b s'. unfold mbind, M_bind. destruct (m s) as [[a s1]|] eqn:E; [|done].
  intros E'. eapply (only_trans [] []); [by left|by eapply Hm|by eapply Hk].
Qed.
Lemma own_bind_r ds (m : M A) (k : A → M B) : own [] c p m → (∀ a, own ds c p (k a)) → own ds c p (m ≫= k).
Proof.
  intros Hm Hk s b s'. unfold mbind, M_bind. destruct (m s) as [[a s1]|] eqn:E; [|done].
  intros E'. eapply (only_trans [] ds); [by left|by eapply Hm|by eapply Hk].
Qed.
Lemma own_bind_l ds (m : M A) (k : A → M B) : own ds c p m → (∀ a, own [] c p (k a)) → own ds c p (m ≫= k).
Proof.
  intros Hm Hk s b s'. unfold mbind, M_bind. destruct (m s) as [[a s1]|] eqn:E; [|done].
  intros E'. rewrite <-(app_nil_r ds). eapply only_trans; [by right|by eapply Hm|by eapply Hk].
Qed.
Lemma own_oops o : own [] c p (oops_with o : M A).
Proof. by intros s a s'. Qed.
Lemma own_get (f : kstate → A) : own [] c p (get f).
Proof. intros s a s' [= _ ->]. apply only_refl. Qed.
Lemma own_deref (o : option A) : own [] c p (deref o).
Proof. destruct o; [apply own_ret|apply own_oops]. Qed.
End own_rules.
Lemma own_when ds c p b m : own ds c p m → own ds c p (when b m).
Proof. destruct b; [done|]. intros _. apply own_ret. Qed.
Lemma own_task c p q : own [] c p (task q).
Proof. intros s a s'. unfold task. case_match; [|done]. intros [= _ ->]. apply only_refl. Qed.
Lemma own_cpu_rq c p c' : own [] c p (cpu_rq c').
Proof. intros s a s'. unfold cpu_rq. case_match; [|done]. intros [= _ ->]. apply only_refl. Qed.
Lemma own_upd_task c p f : (∀ t, task_own (f t) = task_own t ∧ need_resched (f t) = need_resched t) → own [] c p (upd_task p f).
Proof.
  intros Hf s a s'. unfold upd_task. destruct (k_tasks s !! p) as [t|] eqn:Ht; [|done]. destruct (Hf t) as [Hf1 Hf2].
  intros [= _ <-]. split; try done; [intros q|intros q Hq|intros q|by left]; unfold marked; cbn;
    (destruct (decide (q = p)) as [->|]; [rewrite ?lookup_insert_eq, ?Ht|rewrite lookup_insert_ne; auto]); cbn; [by rewrite Hf1|done|left; by rewrite Hf2].
Qed.
Lemma own_upd_rq c p f ds :
  (∀ r, rq_own (f r) = rq_own r) → (∀ r, nr_running (f r) = nr_running r ∨ ∃ d, d ∈ ds ∧ nr_running (f r) = u32 (nr_running r + d)) →
  own ds c p (upd_rq c f).
Proof.
  intros Hf Hn s a s'. unfold upd_rq. destruct (k_rqs s !! c) as [r|] eqn:Hr; [|done]. intros [= _ <-]. split; try done; cbn; auto.
  - intros c'. destruct (decide (c' = c)) as [->|]; [|by rewrite lookup_insert_ne]. rewrite lookup_insert_eq, Hr. cbn. by rewrite Hf.
  - intros c' Hc'. by rewrite lookup_insert_ne.
  - unfold nr_of. cbn. rewrite lookup_insert_eq, Hr. cbn. destruct (Hn r) as [->|(d&Hd&->)]; [by left|right; by exists d].
Qed.
Lemma own_ktime c p : own [] c p ktime_get_real_ts64.
Proof. intros s a s' [= _ <-]. by split; auto. Qed.
Lemma own_trace c p e : own [] c p (trace_printk e).
Proof. intros s a s' [= _ <-]. by split; auto. Qed.
Lemma own_div64 c p a b : own [] c p (div64 a b).
Proof. unfold div64. case_match; [apply own_ret|apply own_oops]. Qed.
(** The mark goes to the task that runs on the CPU. *)
Lemma own_resched c p : own [] c p (resched_curr c).
Proof.
  intros s a s'. unfold resched_curr, __resched_curr, mbind, M_bind, cpu_rq, task. destruct (k_rqs s !! c) as [r|] eqn:Hr; [|done].
  destruct (k_tasks s !! curr r) as [t|] eqn:Ht; [|done]. destruct (need_resched t) eqn:Hn; [intros [= _ <-]; apply only_refl|]. cbn.
  assert (hvf_only [] c p s (s <| k_tasks := <[curr r := t <| need_resched := true |>]> (k_tasks s) |>)) as Hm.
  { split; try done; [intros q|intros q Hq|intros q|by left]; unfold marked; cbn; (destruct (decide (q = curr r)) as [->|]; [rewrite ?lookup_insert_eq, ?Ht|rewrite lookup_insert_ne; auto]); cbn;
      [done|done|right; by rewrite Hr]. }
  destruct (c =? k_cpu s); unfold upd_task, when, trace_printk, modify; rewrite ?Ht; cbn; [intros [= _ <-]; exact Hm|].
  destruct (polling t); cbn; intros [= _ <-]; [exact Hm|]. destruct Hm. by split.
Qed.

Ltac own_step :=
  lazymatch goal with
  | |- own _ _ _ (mbind _ _) => apply own_bind; [|intros ?]
  | |- own _ _ _ (mret _) => apply own_ret
  | |- own _ _ _ skip => apply own_ret
  | |- own _ _ _ (oops_with _) => apply own_oops
  | |- own _ _ _ (get _) => apply own_get
  | |- own _ _ _ smp_processor_id => apply own_get
  | |- own _ _ _ (deref _) => apply own_deref
  | |- own _ _ _ (when _ _) => apply own_when
  | |- own _ _ _ (task _) => apply own_task
  | |- own _ _ _ (cpu_rq _) => apply own_cpu_rq
  | |- own _ _ _ (upd_task _ _) => apply own_upd_task; intros []; vm_compute; split; reflexivity
  | |- own _ _ _ (upd_rq _ _) => apply own_upd_rq; intros []; [reflexivity|by left]
  | |- own _ _ _ ktime_get_real_ts64 => apply own_ktime
  | |- own _ _ _ (trace_printk _) => apply own_trace
  | |- own _ _ _ (div64 _ _) => apply own_div64
  | |- own _ _ _ (resched_curr _) => apply own_resched
  | |- own _ _ _ (match ?x with _ => _ end) => destruct x
  | |- own _ _ _ (if ?x then _ else _) => destruct x
  | |- own _ _ _ (let _ := _ in _) => cbv zeta
  end.
Ltac own_solve := repeat own_step.

Section hvf.
Context {L : RbLib} {TC : TickConfig} {S : SmpLib}.

Lemma own_compute_init c p : own [] c p (compute_init_sched_value p).
Proof. unfold compute_init_sched_value. own_solve. Qed.
Lemma own_give_default c p : own [] c p (give_default_hvf_values p).
Proof. unfold give_default_hvf_values. own_solve. apply own_compute_init. Qed.
Lemma own_enqueue_entity c p : own [] c p (enqueue_hvf_entity c p).
Proof. unfold enqueue_hvf_entity, exceeded_time, penalty_hvf_entity, upd_hvf_rq, upd_se. own_solve. Qed.
Lemma own_nr c p d : own [d] c p (upd_rq c (λ r, r <| nr_running ::= λ n, u32 (n + d) |>)).
Proof. apply own_upd_rq; intros []; [reflexivity|]. right. exists d. split; [set_solver|reflexivity]. Qed.
Lemma own_enqueue c p flags : own [1] c p (enqueue_task_hvf c p flags).
Proof.
  unfold enqueue_task_hvf. apply own_bind_r.
  { unfold refresh_value, init_sched_hvf_entity. own_solve; auto using own_compute_init, own_give_default. }
  intros _. apply own_bind_r; [apply own_cpu_rq|]. intros r. apply own_bind_r; [apply own_task|]. intros t.
  apply own_when, own_bind_r; [apply own_enqueue_entity|]. intros _. apply own_nr.
Qed.
Lemma own_dequeue_entity c p : own [] c p (dequeue_hvf_entity c p).
Proof. unfold dequeue_hvf_entity, upd_hvf_rq, upd_se. own_solve. Qed.
Lemma own_dequeue c p flags : own [-1] c p (dequeue_task_hvf c p flags).
Proof.
  unfold dequeue_task_hvf. apply own_bind_r; [apply own_cpu_rq|]. intros r. apply own_bind_r; [apply own_task|]. intros t.
  destruct (_ && _); [|destruct (_ && _); [|apply own_ret]]; (apply own_bind_r; [try destruct (se_on_rq _); auto using own_dequeue_entity, own_ret|]; intros b).
  - apply own_bind_l; [apply (own_nr c p (-1))|]. intros _. apply own_ret.
  - apply own_bind_l; [apply (own_nr c p (-1))|]. intros _. unfold upd_hvf_rq. own_solve.
Qed.
Lemma own_pick c p : own [] c p (pick_task_hvf c).
Proof. unfold pick_task_hvf. own_solve. Qed.
Lemma own_set_next c p first : own [] c p (set_next_task_hvf c p first).
Proof.
  unfold set_next_task_hvf, set_next_hvf_entity, update_latest_se_hvf, upd_hvf_rq. own_solve.
  apply own_dequeue_entity.
Qed.
Lemma own_put_prev c p next : own [] c p (put_prev_task_hvf c p next).
Proof.
  unfold put_prev_task_hvf, put_prev_hvf_entity, update_used_se_hvf, reduce_sched_value,
    upd_se, upd_hvf_rq. own_solve. apply own_enqueue_entity.
Qed.
Lemma own_tick c p queued : own [] c p (task_tick_hvf c p queued).
Proof. unfold task_tick_hvf, upd_se. own_solve. Qed.
Lemma own_wakeup c p flags : own [] c p (wakeup_preempt_hvf c p flags).
Proof. unfold wakeup_preempt_hvf, current, exceeded_time. own_solve. Qed.
Lemma own_clear c p : own [] c p (clear_hvf_values p).
Proof. unfold clear_hvf_values. own_solve. Qed.
Lemma own_balance c p : own [] c p (balance_hvf c p).
Proof. unfold balance_hvf. own_solve. Qed.
Lemma own_fill c p cpus i loads : own [] c p (fill_loads cpus i loads).
Proof. revert i loads. induction cpus; intros; cbn [fill_loads]; own_solve; auto. Qed.
Lemma own_select c p prev flags : own [] c p (select_task_rq_hvf p prev flags).
Proof. unfold select_task_rq_hvf, sort_cpu_loads_in_mask, get_right_cpu, upd_se. own_solve; apply own_fill. Qed.
Lemma own_migrate c p new_cpu : own [] c p (migrate_task_rq_hvf p new_cpu).
Proof. unfold migrate_task_rq_hvf, upd_se. own_solve. Qed.
(** The exit of a task concerns the CPU it was on. *)
Lemma own_dead s a s' p t : k_tasks s !! p = Some t → task_dead_hvf p s = Ok (a, s') → hvf_only [] (cpu t) p s s'.
Proof.
  intros Ht. unfold task_dead_hvf. rewrite (bind_ok _ _ s t s) by by apply task_ok. unfold mbind at 1, M_bind at 1.
  destruct (register_entity_info p (pid t) s) as [[b s1]|] eqn:Hreg; [|done].
  assert (own [] (cpu t) p (register_entity_info p (pid t))) as Hown by (unfold register_entity_info; own_solve).
  specialize (Hown s b s1 Hreg). pose proof (ho_task _ _ _ _ _ Hown p) as Ht1. rewrite Ht in Ht1.
  destruct (k_tasks s1 !! p) as [t1|] eqn:Htk1; [|done]. cbn in Ht1. apply (inj Some) in Ht1.
  assert (cpu t1 = cpu t) as Hc by exact (f_equal cpu Ht1). rewrite (bind_ok _ _ s1 t1 s1) by by apply task_ok. rewrite Hc.
  assert (own [] (cpu t) p (when (se_on_rq (hvf t1)) (dequeue_hvf_entity (cpu t) p;; skip);; upd_hvf_rq (cpu t) (λ h, h <| hvf_curr := None |>))) as Hrest.
  { unfold upd_hvf_rq. own_solve. apply own_dequeue_entity. }
  intros Hend. eapply (only_trans [] []); [by left|exact Hown|exact (Hrest s1 a s' Hend)].
Qed.

Lemma keeps_compute_init p : keeps (compute_init_sched_value p).
Proof. eapply (own_keeps _ 0), own_compute_init. Qed.
Lemma keeps_give_default p : keeps (give_default_hvf_values p).
Proof. eapply (own_keeps _ 0), own_give_default. Qed.
Lemma keeps_enqueue c p flags : keeps (enqueue_task_hvf c p flags).
Proof. eapply own_keeps, own_enqueue. Qed.
Lemma keeps_set_next c p first : keeps (set_next_task_hvf c p first).
Proof. eapply own_keeps, own_set_next. Qed.
Lemma keeps_put_prev c p next : keeps (put_prev_task_hvf c p next).
Proof. eapply own_keeps, own_put_prev. Qed.
Lemma keeps_resched c : keeps (resched_curr c).
Proof. eapply (own_keeps _ _ 0%nat), own_resched. Qed.
Lemma keeps_wakeup c p flags : keeps (wakeup_preempt_hvf c p flags).
Proof. eapply own_keeps, own_wakeup. Qed.
Lemma keeps_dead p : keeps (task_dead_hvf p).
Proof.
  intros s a s' Hd. destruct (k_tasks s !! p) as [t|] eqn:Ht; [eapply only_frame; by eapply own_dead|].
  unfold task_dead_hvf in Hd. rewrite (bind_oops _ _ s bad_pointer) in Hd; [done|]. unfold task. by rewrite Ht.
Qed.

(** C6: Isolation: an operation of the HVF class table called for the task [p] on the CPU
    [c] changes no task but [p], no run queue but that of [c], and of these only the HVF
    fields; beyond them it sets the reschedule mark of the task that runs on [c] and never
    clears one, and enqueue and dequeue change [rq->nr_running] of [c] by one, up or down.
    Everything else in the state but the trace and the number of clock reads is the same:
    priorities, states, affinity, clamps, deadline servers, the data of the other classes,
    core scheduling, callbacks and stopper works. *)
Theorem hvf_class_isolated c p flags next first queued prev new_cpu :
  own [1] c p (enqueue_task_hvf c p flags) ∧ own [-1] c p (dequeue_task_hvf c p flags) ∧
  own [] c p (pick_task_hvf c) ∧ own [] c p (set_next_task_hvf c p first) ∧ own [] c p (put_prev_task_hvf c p next) ∧
  own [] c p (task_tick_hvf c p queued) ∧ own [] c p (wakeup_preempt_hvf c p flags) ∧ own [] c p (balance_hvf c p) ∧
  (∀ s a s' t, k_tasks s !! p = Some t → task_dead_hvf p s = Ok (a, s') → hvf_only [] (cpu t) p s s') ∧
  own [] c p (task_fork_hvf p) ∧ own [] c p (switching_to_hvf c p) ∧
  own [] c p (switched_to_hvf c p) ∧ own [] c p (switched_from_hvf c p) ∧
  own [] c p (select_task_rq_hvf p prev flags) ∧ own [] c p (migrate_task_rq_hvf p new_cpu).
Proof.
  split_and!; eauto using own_enqueue, own_dequeue, own_pick, own_set_next, own_put_prev, own_tick, own_wakeup, own_balance,
    own_dead, own_clear, own_give_default, own_ret, own_select, own_migrate.
Qed.
End hvf.
