(* ===== verification/Core.v ===== *)
(** The class-independent scheduler (kernel/sched/core.c and sched.h): the table
    of operations a scheduling class provides, enqueueing and dequeueing, blocking,
    class changes, wake-up preemption, picking the next task, [__schedule] and the
    tick.

    Configuration: CONFIG_SMP, CONFIG_UCLAMP_TASK and CONFIG_SCHED_CLASS_EXT are
    set, core scheduling (see CoreSched) and lazy preemption are off.  Locks, memory barriers, the
    run-queue clock, statistics (schedstat, sched_info, PSI, tracepoints), memory
    descriptors and balance callbacks (see Balance) are not part of the state. *)
From S2P Require Import Prelude Rbtree KState HvfValue HvfClass HvfSmp Policy Uclamp.

(** * Scheduling classes as tables of operations *)

(** [struct affinity_context].  [ac_own] says that [new_mask] points to the task's
    own [cpus_mask]. *)
Record affinity_context := {
  ac_new_mask : Z; ac_own : bool; ac_user_mask : option Z; ac_flags : Z
}.
#[export] Instance eta_affinity_context : Eta affinity_context := λ r,
  {| ac_new_mask := ac_new_mask r; ac_own := ac_own r; ac_user_mask := ac_user_mask r;
     ac_flags := ac_flags r |}.

(** [struct sched_class]; [None] is a NULL function pointer. *)
Record sched_class_ops := {
  uclamp_enabled : bool;
  op_enqueue_task : option (Z → tid → Z → M unit);
  op_dequeue_task : option (Z → tid → Z → M bool);
  op_yield_task : option (Z → M unit);
  op_yield_to_task : option (Z → tid → M bool);
  op_wakeup_preempt : option (Z → tid → Z → M unit);
  op_balance : option (Z → tid → M bool);
  op_pick_task : option (Z → M (option tid));
  op_pick_next_task : option (Z → tid → M (option tid));
  op_put_prev_task : option (Z → tid → option tid → M unit);
  op_set_next_task : option (Z → tid → bool → M unit);
  op_select_task_rq : option (tid → Z → Z → M Z);
  op_migrate_task_rq : option (tid → Z → M unit);
  op_task_woken : option (Z → tid → M unit);
  op_set_cpus_allowed : option (tid → affinity_context → M affinity_context);
  op_task_tick : option (Z → tid → Z → M unit);
  op_task_fork : option (tid → M unit);
  op_task_dead : option (tid → M unit);
  op_switching_to : option (Z → tid → M unit);
  op_switched_from : option (Z → tid → M unit);
  op_switched_to : option (Z → tid → M unit);
  op_reweight_task : option (Z → tid → Z * Z → M unit);
  op_prio_changed : option (Z → tid → Z → M unit);
  op_get_rr_interval : option (Z → tid → M Z)
}.

(** The result of [pick_next_task_fair]: a task, NULL or RETRY_TASK. *)
Inductive pick := picked (p : tid) | picked_none | RETRY_TASK.

(** The classes whose code (stop_task.c, deadline.c, rt.c, fair.c, ext.c, idle.c)
    is not in the repository, and [signal_pending_state] (linux/sched/signal.h). *)
Class OtherClasses := {
  other_class : sched_class_id → sched_class_ops;
  pick_next_task_fair : Z → tid → M pick;
  pick_task_idle : Z → M tid;
  signal_pending_state : Z → task_struct → bool;
}.

Section core.
Context {L : RbLib} {TC : TickConfig} {S : SmpLib} {UC : UclampConfig} {E : Ext}
  {OC : OtherClasses}.

(** [DEFINE_SCHED_CLASS(hvf)]. *)
Definition hvf_class_ops : sched_class_ops := {|
  uclamp_enabled := false;
  op_enqueue_task := Some enqueue_task_hvf;
  op_dequeue_task := Some dequeue_task_hvf;
  op_yield_task := None;
  op_yield_to_task := None;
  op_wakeup_preempt := Some wakeup_preempt_hvf;
  op_balance := Some balance_hvf;
  op_pick_task := Some pick_task_hvf;
  op_pick_next_task := None;
  op_put_prev_task := Some put_prev_task_hvf;
  op_set_next_task := Some set_next_task_hvf;
  op_select_task_rq := Some select_task_rq_hvf;
  op_migrate_task_rq := Some migrate_task_rq_hvf;
  op_task_woken := None;
  op_set_cpus_allowed := None;
  op_task_tick := Some task_tick_hvf;
  op_task_fork := Some task_fork_hvf;
  op_task_dead := Some task_dead_hvf;
  op_switching_to := Some switching_to_hvf;
  op_switched_from := Some switched_from_hvf;
  op_switched_to := Some switched_to_hvf;
  op_reweight_task := None;
  op_prio_changed := None;
  op_get_rr_interval := None
|}.

Definition class_ops (c : sched_class_id) : sched_class_ops :=
  match c with hvf_sched_class => hvf_class_ops | _ => other_class c end.

(** [p->sched_class->op] called: the table of the task's class. *)
Definition ops_of (p : tid) : M sched_class_ops := t ← task p; mret (class_ops (sched_class t)).

Definition task_on_rq_queued (t : task_struct) : bool := on_rq t =? TASK_ON_RQ_QUEUED.
Definition task_on_rq_migrating (t : task_struct) : bool := on_rq t =? TASK_ON_RQ_MIGRATING.
Definition task_current (r : rq) (p : tid) : bool := bool_decide (curr r = p).
Definition task_current_donor (r : rq) (p : tid) : bool := bool_decide (donor r = p).

(** * Enqueue, dequeue, block *)

Definition enqueue_task (c : Z) (p : tid) (flags : Z) : M unit :=
  o ← ops_of p;
  f ← call_null (op_enqueue_task o);
  f c p flags;;
  o ← ops_of p;
  uclamp_rq_inc (uclamp_enabled o) c p.

Definition dequeue_task (c : Z) (p : tid) (flags : Z) : M bool :=
  o ← ops_of p;
  uclamp_rq_dec (uclamp_enabled o) c p;;
  f ← call_null (op_dequeue_task o);
  f c p flags.

Definition activate_task (c : Z) (p : tid) (flags : Z) : M unit :=
  t ← task p;
  let flags := if task_on_rq_migrating t then Z.lor flags ENQUEUE_MIGRATED else flags in
  enqueue_task c p flags;;
  upd_task p (λ t, t <| on_rq := TASK_ON_RQ_QUEUED |>).

Definition deactivate_task (c : Z) (p : tid) (flags : Z) : M unit :=
  upd_task p (λ t, t <| on_rq := TASK_ON_RQ_MIGRATING |>);;
  dequeue_task c p flags;;
  skip.

Definition __block_task (c : Z) (p : tid) : M unit :=
  t ← task p;
  when (sched_contributes_to_load t)
    (upd_rq c (λ r, r <| nr_uninterruptible ::= λ n, u32 (n + 1) |>));;
  when (in_iowait t) (upd_rq c (λ r, r <| nr_iowait ::= λ n, wrap32 (n + 1) |>));;
  upd_task p (λ t, t <| on_rq := 0 |>).

Definition block_task (c : Z) (p : tid) (flags : Z) : M unit :=
  dequeued ← dequeue_task c p (Z.lor DEQUEUE_SLEEP flags);
  when dequeued (__block_task c p).

Definition task_curr (p : tid) : M bool :=
  t ← task p; r ← cpu_rq (cpu t); mret (bool_decide (curr r = p)).

(** * Class changes and preemption *)

Definition check_class_changing (c : Z) (p : tid) (prev_class : sched_class_id) : M unit :=
  t ← task p;
  match op_switching_to (class_ops (sched_class t)) with
  | Some f => when (bool_decide (prev_class ≠ sched_class t)) (f c p)
  | None => skip
  end.

Definition check_class_changed (c : Z) (p : tid) (prev_class : sched_class_id) (oldprio : Z) : M unit :=
  t ← task p;
  if bool_decide (prev_class ≠ sched_class t) then
    match op_switched_from (class_ops prev_class) with Some f => f c p | None => skip end;;
    o ← ops_of p;
    f ← call_null (op_switched_to o);
    f c p
  else when (negb (oldprio =? prio t) || dl_task t)
         (f ← call_null (op_prio_changed (class_ops (sched_class t))); f c p oldprio).

Definition wakeup_preempt (c : Z) (p : tid) (flags : Z) : M unit :=
  r ← cpu_rq c;
  td ← task (donor r);
  tp ← task p;
  if bool_decide (sched_class tp = sched_class td) then
    f ← call_null (op_wakeup_preempt (class_ops (sched_class td)));
    f c p flags
  else when (sched_class_above (sched_class tp) (sched_class td)) (resched_curr c).

Definition __task_state_match (t : task_struct) (state : Z) : Z :=
  if has (__state t) state then 1
  else if has (saved_state t) state then -1
  else 0.

(** * Picking the next task *)

Definition put_prev_task (c : Z) (prev : tid) : M unit :=
  o ← ops_of prev;
  f ← call_null (op_put_prev_task o);
  f c prev None.

Definition set_next_task (c : Z) (next : tid) : M unit :=
  o ← ops_of next;
  f ← call_null (op_set_next_task o);
  f c next false.

Definition __put_prev_set_next_dl_server (c : Z) (prev next : tid) : M unit :=
  upd_task prev (λ t, t <| dl_server := None |>);;
  r ← cpu_rq c;
  upd_task next (λ t, t <| dl_server := rq_dl_server r |>);;
  upd_rq c (λ r, r <| rq_dl_server := None |>).

Definition put_prev_set_next_task (c : Z) (prev next : tid) : M unit :=
  __put_prev_set_next_dl_server c prev next;;
  if bool_decide (next = prev) then skip else
  o ← ops_of prev;
  f ← call_null (op_put_prev_task o);
  f c prev (Some next);;
  o ← ops_of next;
  g ← call_null (op_set_next_task o);
  g c next true.

(** The loop of [prev_balance]: stop at the first class whose [balance] finds a
    runnable task. *)
Fixpoint balance_classes (c : Z) (prev : tid) (classes : list sched_class_id) : M unit :=
  match classes with
  | [] => skip
  | class :: classes' =>
      match op_balance (class_ops class) with
      | Some f => b ← f c prev; if b : bool then skip else balance_classes c prev classes'
      | None => balance_classes c prev classes'
      end
  end.

Definition prev_balance (c : Z) (prev : tid) : M unit :=
  t ← task prev;
  start ←
    (if scx_enabled then
       upd_rq c (λ r, r <| scx_bal_pending := true |>);;
       mret (if sched_class_above ext_sched_class (sched_class t) then ext_sched_class
             else sched_class t)
     else mret (sched_class t));
  balance_classes c prev
    (for_active_class_range (class_addr start) (class_addr idle_sched_class)).

(** The loop of [__pick_next_task] over the active classes. *)
Fixpoint pick_classes (c : Z) (prev : tid) (classes : list sched_class_id) : M tid :=
  match classes with
  | [] => oops_with kernel_bug
  | class :: classes' =>
      match op_pick_next_task (class_ops class) with
      | Some f =>
          p ← f c prev;
          match p with Some p => mret p | None => pick_classes c prev classes' end
      | None =>
          g ← call_null (op_pick_task (class_ops class));
          p ← g c;
          match p with
          | Some p => put_prev_set_next_task c prev p;; mret p
          | None => pick_classes c prev classes'
          end
      end
  end.

Definition pick_restart (c : Z) (prev : tid) : M tid :=
  prev_balance c prev;;
  pick_classes c prev for_each_active_class.

Definition __pick_next_task (c : Z) (prev : tid) : M tid :=
  upd_rq c (λ r, r <| rq_dl_server := None |>);;
  if scx_enabled then pick_restart c prev else
  t ← task prev;
  r ← cpu_rq c;
  if negb (sched_class_above (sched_class t) fair_sched_class) &&
     (nr_running r =? cfs_h_nr_queued r)
  then
    res ← pick_next_task_fair c prev;
    match res with
    | RETRY_TASK => pick_restart c prev
    | picked p => mret p
    | picked_none =>
        p ← pick_task_idle c;
        put_prev_set_next_task c prev p;;
        mret p
    end
  else pick_restart c prev.

(** [pick_next_task] without core scheduling. *)
Definition pick_next_task (c : Z) (prev : tid) : M tid := __pick_next_task c prev.
End core.
