(* ===== verification/Schedule.v ===== *)
(** The main scheduler function and its callers (kernel/sched/core.c): affinity
    changes of a switched-out task, blocking, the context switch, [__schedule],
    exit of a task, [schedule], and the tick. *)
From S2P Require Import Prelude Rbtree KState HvfValue HvfClass HvfSmp Policy Uclamp Core.

Definition SM_IDLE := -1.
Definition SM_NONE := 0.
Definition SM_PREEMPT := 1.
Definition SM_RTLOCK_WAIT := 2.

Definition SCA_CHECK := 0x01.
Definition SCA_MIGRATE_DISABLE := 0x02.
Definition SCA_MIGRATE_ENABLE := 0x04.
Definition SCA_USER := 0x08.

Definition PF_NOFREEZE := 0x00008000.

Definition is_special_task_state (state : Z) : bool :=
  has state (Z.lor __TASK_STOPPED (Z.lor __TASK_TRACED (Z.lor TASK_PARKED (Z.lor TASK_DEAD TASK_FROZEN)))).

Section schedule.
Context {L : RbLib} {TC : TickConfig} {S : SmpLib} {UC : UclampConfig} {E : Ext}
  {OC : OtherClasses}.

(** * Affinity *)

(** The number of CPUs in a mask. *)
Definition cpumask_weight (mask : Z) : Z := Z.of_nat (length (mask_cpus mask)).

Definition set_cpus_allowed_common (p : tid) (ctx : affinity_context) : M affinity_context :=
  if has (ac_flags ctx) (Z.lor SCA_MIGRATE_ENABLE SCA_MIGRATE_DISABLE) then
    upd_task p (λ t, t <| cpus_other := if ac_own ctx then None else Some (ac_new_mask ctx) |>);;
    mret ctx
  else
    upd_task p (λ t,
      t <| cpus_mask := ac_new_mask ctx |> <| nr_cpus_allowed := cpumask_weight (ac_new_mask ctx) |>);;
    t ← task p;
    if has (ac_flags ctx) SCA_USER then
      upd_task p (λ t, t <| user_cpus_ptr := ac_user_mask ctx |>);;
      mret (ctx <| ac_user_mask := user_cpus_ptr t |>)
    else mret ctx.

Definition __do_set_cpus_allowed (p : tid) (ctx : affinity_context) : M affinity_context :=
  t ← task p;
  let c := cpu t in
  r ← cpu_rq c;
  let queued := task_on_rq_queued t in
  let running := task_current_donor r p in
  when queued (dequeue_task c p (Z.lor DEQUEUE_SAVE DEQUEUE_NOCLOCK);; skip);;
  when running (put_prev_task c p);;
  o ← ops_of p;
  f ← call_null (op_set_cpus_allowed o);
  ctx ← f p ctx;
  when queued (enqueue_task c p (Z.lor ENQUEUE_RESTORE ENQUEUE_NOCLOCK));;
  when running (set_next_task c p);;
  mret ctx.

Definition migrate_disable_switch (c : Z) (p : tid) : M unit :=
  t ← task p;
  if migration_disabled t =? 0 then skip else
  if bool_decide (cpus_other t ≠ None) then skip else
  __do_set_cpus_allowed p {| ac_new_mask := Z.shiftl 1 c; ac_own := false;
                             ac_user_mask := None; ac_flags := SCA_MIGRATE_DISABLE |};;
  skip.

(** * Switching *)

(** The result says whether the task was blocked. *)
Definition try_to_block_task (c : Z) (p : tid) (task_state : Z) : M bool :=
  t ← task p;
  if signal_pending_state task_state t then
    upd_task p (λ t, t <| __state := TASK_RUNNING |>);;
    mret false
  else
    upd_task p (λ t, t <| sched_contributes_to_load :=
      has task_state TASK_UNINTERRUPTIBLE && negb (has task_state TASK_NOLOAD) &&
      negb (has task_state TASK_FROZEN) |>);;
    let flags := if is_special_task_state task_state
                 then Z.lor DEQUEUE_NOCLOCK DEQUEUE_SPECIAL else DEQUEUE_NOCLOCK in
    block_task c p flags;;
    mret true.

Definition prepare_task (next : tid) : M unit := upd_task next (λ t, t <| on_cpu := true |>).
Definition finish_task (prev : tid) : M unit := upd_task prev (λ t, t <| on_cpu := false |>).

(** Runs on behalf of the task switched to. *)
Definition finish_task_switch (prev : tid) : M unit :=
  t ← task prev;
  let prev_state := __state t in
  finish_task prev;;
  when (prev_state =? TASK_DEAD)
    (o ← ops_of prev;
     match op_task_dead o with Some f => f prev | None => skip end).

Definition context_switch (c : Z) (prev next : tid) : M unit :=
  prepare_task next;;
  finish_task_switch prev.

(** The tail of [__schedule] from the label [picked]; [voluntary] says which
    switch counter [switch_count] points to. *)
Definition schedule_picked (c : Z) (prev next : tid) (voluntary : bool) : M unit :=
  upd_task prev (λ t, t <| need_resched := false |>);;
  if bool_decide (prev = next) then skip else
  upd_rq c (λ r, r <| nr_switches ::= λ n, u64 (n + 1) |> <| curr := next |>);;
  upd_task prev (λ t,
    if voluntary then t <| nvcsw ::= λ n, u64 (n + 1) |> else t <| nivcsw ::= λ n, u64 (n + 1) |>);;
  migrate_disable_switch c prev;;
  context_switch c prev next.

Definition __schedule (sched_mode : Z) : M unit :=
  c ← smp_processor_id;
  r ← cpu_rq c;
  let prev := curr r in
  t ← task prev;
  let preempt := sched_mode =? SM_PREEMPT in
  let prev_state := __state t in
  if (sched_mode =? SM_IDLE) && (nr_running r =? 0) && negb scx_enabled then
    schedule_picked c prev prev false
  else
    let block := negb (sched_mode =? SM_IDLE) && negb preempt && negb (prev_state =? 0) in
    when block (try_to_block_task c prev prev_state;; skip);;
    next ← pick_next_task c prev;
    schedule_picked c prev next block.

Definition do_task_dead : M unit :=
  p ← current;
  upd_task p (λ t, t <| __state := TASK_DEAD |> <| t_flags ::= λ f, Z.lor f PF_NOFREEZE |>);;
  __schedule SM_NONE.

(** [schedule()] up to the switch; the rest of its loop belongs to the task when
    it runs again.  The hooks for workers and plugged I/O are not modelled. *)
Definition schedule : M unit := __schedule SM_NONE.

(** * The tick *)

Definition sched_tick : M unit :=
  c ← smp_processor_id;
  r ← cpu_rq c;
  o ← ops_of (donor r);
  f ← call_null (op_task_tick o);
  f c (donor r) 0.
End schedule.
