(* ===== verification/SchedSpec.v ===== *)
(** Scheduling decisions end to end: what [__schedule] does on a CPU that runs a
    task of the HVF class, and which parts of the HVF class table the
    class-independent code finds missing. *)
From S2P Require Import Prelude Rbtree KState HvfValue HvfClass HvfInv HvfOps HvfSpec HvfSmp HvfFrame Policy Uclamp Core Schedule.

(** The contract of the classes whose code is not in the repository: a class with
    no runnable task on a CPU picks none there and changes nothing, and the idle
    class has no state to update when it is switched to or from. *)
Class OtherLaws (OC : OtherClasses) : Prop := {
  law_pick_next cl c prev s r f :
    cl ≠ idle_sched_class → k_rqs s !! c = Some r → class_data r cl = [] →
    op_pick_next_task (other_class cl) = Some f → f c prev s = Ok (None, s);
  law_pick cl c s r :
    cl ≠ idle_sched_class → k_rqs s !! c = Some r → class_data r cl = [] →
    ∃ f, op_pick_task (other_class cl) = Some f ∧ f c s = Ok (None, s);
  law_idle_set_next : ∃ f, op_set_next_task (other_class idle_sched_class) = Some f ∧
    ∀ c p b s, f c p b s = Ok (tt, s);
}.

Section switch.
Context {L : RbLib} `{!RbLaws L} {TC : TickConfig} {S : SmpLib} {UC : UclampConfig} {E : Ext}
  {OC : OtherClasses} {OL : OtherLaws OC}.
Implicit Types (s : kstate) (c : Z) (p prev next : tid) (r : rq) (t : task_struct).

(** ** Reaching the HVF class *)

(** Classes that have nothing to run are passed over. *)
Lemma wp_pick_skip s c prev r pre rest Q :
  k_rqs s !! c = Some r →
  Forall (λ cl, cl ≠ hvf_sched_class ∧ cl ≠ idle_sched_class ∧ class_data r cl = []) pre →
  wp (pick_classes c prev rest) s Q → wp (pick_classes c prev (pre ++ rest)) s Q.
Proof.
  intros Hr Hpre Hrest. induction Hpre as [|cl pre (Hh&Hi&Hd) Hpre IH]; [done|].
  cbn [app pick_classes]. replace (class_ops cl) with (other_class cl) by by destruct cl.
  destruct (op_pick_next_task (other_class cl)) as [f|] eqn:Hf.
  - apply wp_bind. eapply wp_ok; [by eapply law_pick_next|]. done.
  - destruct (law_pick cl c s r) as (g&->&Hg); [done..|]. wp_steps.
    eapply wp_ok; [done|]. done.
Qed.

(** The classes above HVF when no BPF scheduler is loaded. *)
Lemma active_below :
  scx_enabled = false → scx_switched_all = false →
  for_each_active_class = [stop_sched_class; dl_sched_class; rt_sched_class; fair_sched_class]
    ++ [hvf_sched_class; idle_sched_class] ∧
  for_active_class_range (class_addr hvf_sched_class) (class_addr idle_sched_class) =
    [hvf_sched_class].
Proof.
  intros He Hs.
  unfold for_each_active_class, for_active_class_range, active_range, next_active_class.
  by rewrite He, Hs.
Qed.

(** No class but HVF has work on the CPU. *)
Record only_hvf s c r : Prop := {
  oh_scx : scx_enabled = false;
  oh_all : scx_switched_all = false;
  oh_data cl : cl ≠ hvf_sched_class → class_data r cl = [];
  oh_cfs : nr_running r ≠ cfs_h_nr_queued r;
}.

(** On such a CPU the pick is the HVF class's. *)
Lemma wp_pick_next_hvf s c prev r t Q :
  only_hvf s c r → k_rqs s !! c = Some r → k_tasks s !! prev = Some t →
  sched_class t = hvf_sched_class →
  wp (next ← pick_task_hvf c;
      match next with
      | Some p => put_prev_set_next_task c prev p;; mret p
      | None => pick_classes c prev [idle_sched_class]
      end) (s <| k_rqs := <[c := r <| rq_dl_server := None |>]> (k_rqs s) |>) Q →
  wp (pick_next_task c prev) s Q.
Proof.
  intros [Hscx Hall Hd Hcfs] Hr Ht Hcl HQ. destruct (active_below Hscx Hall) as [Hact Hrng].
  unfold pick_next_task, __pick_next_task. wp_steps. rewrite Hscx. wp_steps.
  change (nr_running (r <| rq_dl_server := None |>)) with (nr_running r).
  change (cfs_h_nr_queued (r <| rq_dl_server := None |>)) with (cfs_h_nr_queued r).
  destruct (Z.eqb_spec (nr_running r) (cfs_h_nr_queued r)); [done|]. rewrite andb_false_r.
  unfold pick_restart, prev_balance. wp_steps. rewrite Hscx. wp_steps. rewrite Hcl, Hrng.
  cbn [balance_classes class_ops hvf_class_ops op_balance]. unfold balance_hvf. wp_steps.
  set (s1 := s <| k_rqs := _ |>) in *.
  destruct (sched_hvf_runnable _); wp_steps.
  all: rewrite Hact; eapply (wp_pick_skip s1 c prev (r <| rq_dl_server := None |>));
    [apply lookup_insert_eq|repeat constructor; (done || by apply Hd)|];
    cbn [pick_classes class_ops hvf_class_ops op_pick_next_task op_pick_task]; by wp_step; wp_step.
Qed.

(** ** Switching from an HVF task *)

(** A CPU that runs the HVF task [prev]; run times and clock within the ranges of
    [hvf_sane]. *)
Record running_hvf s c r prev t : Prop := {
  rh_rq : k_rqs s !! c = Some r;
  rh_task : k_tasks s !! prev = Some t;
  rh_class : sched_class t = hvf_sched_class;
  rh_curr : hvf_curr (rq_hvf r) = Some prev;
  rh_sane : hvf_sane t;
  rh_latest : 0 <= latest_time (hvf t) < 2 ^ 52;
  rh_used : 0 <= used_at_next_read s t < 2 ^ 27;
}.

(** The task switched to: a queued HVF task, or the idle task. *)
Definition switch_target s c next tn : Prop :=
  k_tasks s !! next = Some tn ∧
  (sched_class tn = hvf_sched_class ∧ next ∈ queue_of s c ∨
   sched_class tn = idle_sched_class ∧ next ∉ queue_of s c).

Lemma keeps_dl_server c prev next : keeps (__put_prev_set_next_dl_server c prev next).
Proof. unfold __put_prev_set_next_dl_server. keeps_solve. Qed.

Lemma wp_dl_server s c prev next r t tn Q :
  k_rqs s !! c = Some r → k_tasks s !! prev = Some t → k_tasks s !! next = Some tn → next ≠ prev →
  (∀ s', same_hvf s s' → frame s s' → k_reads s' = k_reads s →
     k_tasks s' !! prev = Some (t <| dl_server := None |>) →
     k_rqs s' !! c = Some (r <| rq_dl_server := None |>) → Q tt s') →
  wp (__put_prev_set_next_dl_server c prev next) s Q.
Proof.
  intros Hr Ht Hn Hne HQ.
  assert (wp (__put_prev_set_next_dl_server c prev next) s (λ _ s', same_hvf s s' ∧
    k_reads s' = k_reads s ∧ k_tasks s' !! prev = Some (t <| dl_server := None |>) ∧
    k_rqs s' !! c = Some (r <| rq_dl_server := None |>))) as Hwp.
  { unfold __put_prev_set_next_dl_server. wp_steps. split_and!.
    - etrans; [by apply (same_hvf_task s prev t (t <| dl_server := None |>))|].
      etrans; [apply (same_hvf_task _ next tn (tn <| dl_server := rq_dl_server r |>)); [|done];
               cbn; by rewrite lookup_insert_ne|].
      by apply (same_hvf_rq _ c r (r <| rq_dl_server := None |>)).
    - done.
    - cbn. by rewrite lookup_insert_ne, lookup_insert_eq.
    - apply lookup_insert_eq. }
  eapply wp_mono; [by eapply keeps_wp; [apply keeps_dl_server|]|].
  intros [] s' [(?&?&?&?) ?]. by apply HQ.
Qed.

Lemma hvf_sane_dl t x : hvf_sane t → hvf_sane (t <| dl_server := x |>).
Proof. intros []. by split. Qed.

(** A queued HVF task becomes the running entity. *)
Lemma wp_enter_hvf s c r next tn :
  hvf_inv s → k_rqs s !! c = Some r → k_tasks s !! next = Some tn →
  sched_class tn = hvf_sched_class → next ∈ queue_of s c →
  wp (o ← ops_of next; g ← call_null (op_set_next_task o); g c next true) s (λ _ s',
    hvf_inv s' ∧ frame s s' ∧ queue_of s' c = remove_elem next (queue_of s c) ∧
    ∃ r', k_rqs s' !! c = Some r' ∧ nr_running r' = nr_running r ∧
      hvf_curr (rq_hvf r') = Some next).
Proof.
  intros Hi Hr Hn Hcl Hin.
  assert (cpu tn = c) as Hcpu.
  { unfold queue_of in Hin. rewrite (hq_lookup _ _ _ Hr) in Hin.
    destruct (q_mem _ _ _ (Hi _ _ (hq_lookup _ _ _ Hr)) next Hin) as (v&He&_).
    rewrite (ent_lookup _ _ _ Hn) in He. unfold view_task in He. congruence. }
  unfold ops_of. wp_steps. rewrite Hcl. cbn [class_ops hvf_class_ops op_set_next_task]. wp_steps.
  eapply wp_mono; [eapply keeps_wp; [apply keeps_set_next|];
    by eapply (set_next_task_hvf_spec s c next r tn true)|].
  intros _ s3 [(Hi3&Ho3&Hq3&r3&Hr3&Hn3&Hc3) Hf3]. split_and!; [done..|by exists r3].
Qed.

Lemma wp_switch_from_hvf s c r prev t next tn :
  hvf_inv s → clock_sane s → running_hvf s c r prev t → __state t = TASK_RUNNING →
  switch_target s c next tn → next ≠ prev →
  wp (put_prev_set_next_task c prev next) s (λ _ s',
    hvf_inv s' ∧ frame s s' ∧
    (∀ x, x ∈ queue_of s' c ↔ x = prev ∨ x ∈ queue_of s c ∧ x ≠ next) ∧
    ∃ r', k_rqs s' !! c = Some r' ∧ nr_running r' = nr_running r ∧
      hvf_curr (rq_hvf r') =
        if bool_decide (sched_class tn = hvf_sched_class) then Some next else None).
Proof.
  intros Hi Hclk [Hr Ht Hcl Hcur Hs Hlat Hu] Hst [Hn Htgt] Hne.
  unfold put_prev_set_next_task. apply wp_bind. eapply wp_dl_server; [done..|].
  intros s1 Hsh1 Hf1 Hrd1 Ht1 Hr1. rewrite bool_decide_false by done.
  pose proof (same_hvf_inv _ _ Hsh1 Hi) as Hi1.
  apply wp_bind. apply wp_bind. eapply wp_task; [done|]. apply wp_ret.
  change (sched_class (t <| dl_server := None |>)) with (sched_class t). rewrite Hcl.
  cbn [class_ops hvf_class_ops op_put_prev_task]. wp_steps.
  eapply wp_mono; [eapply keeps_wp; [apply keeps_put_prev|];
    eapply (put_prev_task_hvf_spec s1 c prev); try done|].
  { intros n. rewrite (fr_clock _ _ Hf1). apply Hclk. }
  { by apply hvf_sane_dl. }
  { unfold used_at_next_read. rewrite (fr_clock _ _ Hf1), Hrd1. done. }
  intros _ s2 [(Hi2&Ho2&r2&Hr2&Hn2&Hq2) Hf2].
  change (__state (t <| dl_server := None |>)) with (__state t) in Hq2. rewrite Hst in Hq2.
  change (nr_running (r <| rq_dl_server := None |>)) with (nr_running r) in Hn2.
  cbn [Z.eqb] in Hq2. destruct Hq2 as (Hq2&Hc2&_).
  rewrite (same_hvf_queue _ _ c Hsh1) in Hq2.
  assert (frame s s2) as Hf02 by by etrans.
  destruct (frame_task _ _ _ _ Hf02 Hn) as (tn2&Htn2&Hcore).
  assert (sched_class tn2 = sched_class tn) as Hcl2 by by apply (core_field sched_class).
  destruct Htgt as [[Hcn Hin]|[Hcn Hnin]].
  - rewrite Hcn in Hcl2. eapply wp_mono;
      [eapply (wp_enter_hvf s2); try done; rewrite Hq2, elem_of_ins; by right|].
    intros _ s3 (Hi3&Hf3&Hq3&r3&Hr3&Hn3&Hc3). rewrite bool_decide_true by done.
    split_and!; [done|by etrans| |exists r3; split_and!; [done|congruence|done]].
    intros x. rewrite Hq3, elem_of_remove, Hq2, elem_of_ins. naive_solver.
  - destruct law_idle_set_next as (g&Hg&Hgs). unfold ops_of. wp_steps. rewrite Hcl2, Hcn.
    cbn [class_ops]. rewrite Hg. wp_steps.
    eapply wp_ok; [apply Hgs|]. rewrite bool_decide_false by done.
    split_and!; [done|done| |exists r2; split_and!; [done|congruence|done]].
    intros x. rewrite Hq2, elem_of_ins. naive_solver.
Qed.
(** ** The context switch *)

(** The tail of [__schedule] for a task that is not dead and may migrate: the
    HVF data is untouched, [next] is the running task. *)
Lemma wp_schedule_picked s c prev next vol r t tn :
  k_rqs s !! c = Some r → k_tasks s !! prev = Some t → k_tasks s !! next = Some tn →
  next ≠ prev → migration_disabled t = 0 → __state t ≠ TASK_DEAD →
  wp (schedule_picked c prev next vol) s (λ _ s',
    same_hvf s s' ∧
    (∃ r', k_rqs s' !! c = Some r' ∧ curr r' = next ∧ nr_running r' = nr_running r ∧
           rq_hvf r' = rq_hvf r) ∧
    (∃ t', k_tasks s' !! prev = Some t' ∧ on_cpu t' = false ∧ on_rq t' = on_rq t ∧
           __state t' = __state t ∧ need_resched t' = false) ∧
    (∃ tn', k_tasks s' !! next = Some tn' ∧ on_cpu tn' = true)).
Proof.
  intros Hr Ht Hn Hne Hmig Hdead. unfold schedule_picked. wp_steps.
  rewrite bool_decide_false by done. wp_steps.
  set (t1 := t <| need_resched := false |>).
  set (r1 := r <| nr_switches ::= _ |> <| curr := next |>).
  set (t2 := if vol then _ else _).
  assert (migration_disabled t2 = 0 ∧ __state t2 = __state t ∧ view_task t2 = view_task t ∧
          on_rq t2 = on_rq t ∧ need_resched t2 = false) as (Hm2&Hs2&Hv2&Ho2&Hnr2)
    by by destruct vol.
  clearbody t2. unfold migrate_disable_switch. wp_steps. rewrite Hm2. cbn [Z.eqb]. wp_steps.
  unfold context_switch, prepare_task, finish_task_switch, finish_task. wp_steps.
  rewrite Hs2. destruct (Z.eqb_spec (__state t) TASK_DEAD); [done|]. cbn [when]. wp_steps.
  split_and!.
  - etrans; [by apply (same_hvf_task s prev t t1)|].
    etrans; [by eapply (same_hvf_rq _ c r r1)|].
    etrans; [apply (same_hvf_task _ prev t1 t2); [apply lookup_insert_eq|done]|].
    etrans; [apply (same_hvf_task _ next tn (tn <| on_cpu := true |>)); [|done];
             cbn; by rewrite !lookup_insert_ne|].
    apply (same_hvf_task _ prev t2 (t2 <| on_cpu := false |>)); [|done].
    cbn. by rewrite lookup_insert_ne, lookup_insert_eq.
  - exists r1. split_and!; [apply lookup_insert_eq|done..].
  - eexists. split_and!; [apply lookup_insert_eq|done..].
  - eexists. split; [cbn; rewrite lookup_insert_ne, lookup_insert_eq by done; done|done].
Qed.

(** The idle task of the CPU and the queued tasks are of their class. *)
Record classes_ok s c r : Prop := {
  co_idle : ∃ ti, k_tasks s !! idle r = Some ti ∧ sched_class ti = idle_sched_class;
  co_queued q : q ∈ queue_of s c → ∃ tq, k_tasks s !! q = Some tq ∧ sched_class tq = hvf_sched_class;
}.

Lemma next_hvf_target s c r :
  classes_ok s c r → ∃ tn, switch_target s c (next_hvf s c r) tn ∧
    (sched_class tn = hvf_sched_class ↔ queue_of s c ≠ []).
Proof.
  intros [(ti&Hti&Hci) Hq]. unfold next_hvf, switch_target.
  destruct (last (queue_of s c)) as [q|] eqn:Hl.
  - pose proof (last_Some_elem_of _ _ Hl) as Hin. destruct (Hq q Hin) as (tq&Htq&Hcq).
    exists tq. split; [by auto|]. rewrite Hcq. split; [|done].
    intros _ Hnil. rewrite Hnil in Hin. by apply not_elem_of_nil in Hin.
  - apply last_None in Hl. exists ti. rewrite Hl. split; [|by rewrite Hci].
    split; [done|]. right. split; [done|apply not_elem_of_nil].
Qed.

(** ** Preemption of an HVF task

    When the only runnable tasks of a CPU are HVF tasks and its running task is
    preempted, the CPU switches to a task of greatest value among those queued,
    and the preempted task goes back to the queue.  When none is queued it
    switches to the idle task. *)
Lemma schedule_preempt s r prev t :
  let c := k_cpu s in
  hvf_inv s → clock_sane s → running_hvf s c r prev t → only_hvf s c r → classes_ok s c r →
  curr r = prev → __state t = TASK_RUNNING → migration_disabled t = 0 →
  wp (__schedule SM_PREEMPT) s (λ _ s',
    hvf_inv s' ∧ (∀ x, x ∈ queue_of s' c ↔ x = prev ∨ x ∈ queue_of s c ∧ x ≠ next_hvf s c r) ∧
    (∃ r', k_rqs s' !! c = Some r' ∧ curr r' = next_hvf s c r ∧ nr_running r' = nr_running r ∧
      hvf_curr (rq_hvf r') =
        (if bool_decide (queue_of s c = []) then None else Some (next_hvf s c r))) ∧
    (∃ t', k_tasks s' !! prev = Some t' ∧ on_cpu t' = false ∧ on_rq t' = on_rq t ∧
      __state t' = TASK_RUNNING)).
Proof.
  intros c Hi Hclk Hrun Honly Hcls Hcurr Hst Hmig.
  pose proof Hrun as [Hr Ht Hcl Hcur Hs Hlat Hu].
  destruct (next_hvf_target s c r Hcls) as (tn&Htgt&Hnil).
  assert (next_hvf s c r ≠ prev) as Hne.
  { destruct (curr_not_queued _ _ _ _ _ Hi Hr Ht Hcur) as [Hon Hc].
    intros Heq. destruct Htgt as [Hn [[_ Hin]|[Hci _]]].
    - rewrite Heq in Hin. pose proof (queued_here _ _ _ _ _ Hi Hr Ht Hc) as Hq.
      rewrite Hon in Hq. naive_solver.
    - rewrite Heq, Ht in Hn. injection Hn as <-. congruence. }
  unfold __schedule. wp_steps. fold c. rewrite Hcurr. wp_steps. cbn [Z.eqb negb andb when].
  apply wp_bind, wp_skip, wp_bind.
  eapply wp_pick_next_hvf; [done..|].
  set (s1 := s <| k_rqs := _ |>).
  assert (same_hvf s s1) as Hsh by by apply (same_hvf_rq s c r).
  assert (frame s s1) as Hfr.
  { split; try done. intros c'. cbn. destruct (decide (c = c')) as [<-|];
      [|by rewrite lookup_insert_ne]. rewrite lookup_insert_eq, Hr. by destruct r. }
  assert (running_hvf s1 c (r <| rq_dl_server := None |>) prev t) as Hrun1.
  { split; try done. apply lookup_insert_eq. }
  assert (switch_target s1 c (next_hvf s c r) tn) as Htgt1.
  { unfold switch_target. by rewrite (same_hvf_queue _ _ c Hsh). }
  apply wp_bind. eapply wp_pick_task_hvf; [by eapply same_hvf_inv|apply lookup_insert_eq|].
  replace (next_hvf s1 c (r <| rq_dl_server := None |>)) with (next_hvf s c r)
    by (unfold next_hvf; by rewrite (same_hvf_queue _ _ c Hsh)).
  apply wp_bind. eapply wp_mono; [eapply (wp_switch_from_hvf s1); try done; by eapply same_hvf_inv|].
  intros _ s2 (Hi2&Hf2&Hq2&r2&Hr2&Hn2&Hc2). apply wp_ret.
  rewrite (same_hvf_queue _ _ c Hsh) in Hq2.
  change (nr_running (r <| rq_dl_server := None |>)) with (nr_running r) in Hn2.
  assert (frame s s2) as Hf02 by by etrans.
  destruct (frame_task _ _ _ _ Hf02 Ht) as (t2&Ht2&Hcore2).
  destruct (frame_task _ _ _ _ Hf02 (proj1 Htgt)) as (tn2&Htn2&_).
  assert (migration_disabled t2 = 0) by (rewrite <-Hmig; by apply (core_field migration_disabled)).
  assert (__state t2 = TASK_RUNNING) as Hst2 by (rewrite <-Hst; by apply (core_field __state)).
  assert (on_rq t2 = on_rq t) as Ho2 by by apply (core_field on_rq).
  eapply wp_mono; [eapply (wp_schedule_picked s2); try done; by rewrite Hst2|].
  intros _ s3 (Hsh3&(r3&Hr3&Hc3&Hn3&Hh3)&(t3&Ht3&Hoc&Hor&Hs3&_)&_).
  split_and!; [by eapply same_hvf_inv|intros x; by rewrite (same_hvf_queue _ _ c Hsh3)| |].
  - exists r3. split_and!; [done|done|congruence|]. rewrite Hh3, Hc2.
    repeat case_bool_decide; naive_solver.
  - exists t3. split_and!; [done|done|congruence|congruence].
Qed.


(** The scheduler is not work conserving: when the slice of the only HVF task of
    a CPU has expired, the CPU switches to its idle task although that task is
    runnable, queued and counted in [nr_running]. *)
Theorem schedule_idles_lone_task s r prev t :
  let c := k_cpu s in
  hvf_inv s → clock_sane s → running_hvf s c r prev t → only_hvf s c r → classes_ok s c r →
  curr r = prev → __state t = TASK_RUNNING → migration_disabled t = 0 → queue_of s c = [] →
  wp (__schedule SM_PREEMPT) s (λ _ s',
    ∃ r' t', k_rqs s' !! c = Some r' ∧ curr r' = idle r ∧ nr_running r' = nr_running r ∧
      (∀ x, x ∈ queue_of s' c ↔ x = prev) ∧
      k_tasks s' !! prev = Some t' ∧ __state t' = TASK_RUNNING ∧ on_cpu t' = false).
Proof.
  intros c Hi Hclk Hrun Honly Hcls Hcurr Hst Hmig Hnil.
  eapply wp_mono; [by eapply schedule_preempt|].
  intros _ s' (Hi'&Hq&(r'&Hr'&Hc'&Hn'&Hh')&(t'&Ht'&Ho&_&Hs')).
  exists r', t'. split_and!; try done.
  - rewrite Hc'. unfold next_hvf. by rewrite (Hnil : queue_of s (k_cpu s) = []).
  - intros x. etrans; [apply Hq|]. rewrite (Hnil : queue_of s (k_cpu s) = []). set_solver.
Qed.
(** ** Blocking of an HVF task *)

Lemma wp_switch_from_blocked s c r prev t next tn :
  hvf_inv s → k_rqs s !! c = Some r → k_tasks s !! prev = Some t →
  sched_class t = hvf_sched_class → se_on_rq (hvf t) = false → __state t ≠ TASK_RUNNING →
  k_tasks s !! next = Some tn → sched_class tn = hvf_sched_class → next ∈ queue_of s c →
  next ≠ prev →
  wp (put_prev_set_next_task c prev next) s (λ _ s',
    hvf_inv s' ∧ frame s s' ∧ queue_of s' c = remove_elem next (queue_of s c) ∧
    ∃ r', k_rqs s' !! c = Some r' ∧ nr_running r' = nr_running r ∧
      hvf_curr (rq_hvf r') = Some next).
Proof.
  intros Hi Hr Ht Hcl Hon Hst Hn Hcn Hin Hne.
  unfold put_prev_set_next_task. apply wp_bind. eapply wp_dl_server; [done..|].
  intros s1 Hsh1 Hf1 Hrd1 Ht1 Hr1. rewrite bool_decide_false by done. unfold ops_of. wp_steps.
  change (sched_class (t <| dl_server := None |>)) with (sched_class t). rewrite Hcl.
  cbn [class_ops hvf_class_ops op_put_prev_task]. wp_steps.
  eapply wp_mono; [eapply keeps_wp; [apply keeps_put_prev|];
    by eapply (wp_put_prev_blocked s1); [eapply same_hvf_inv|..]|].
  intros _ s2 [(Hi2&Hq2&Hr2&Htasks2) Hf2].
  assert (frame s s2) as Hf02 by by etrans.
  destruct (frame_task _ _ _ _ Hf02 Hn) as (tn2&Htn2&Hcore).
  assert (sched_class tn2 = sched_class tn) as Hcl2 by by apply (core_field sched_class).
  rewrite Hcn in Hcl2. rewrite <-Hr2 in Hr1.
  eapply wp_mono; [eapply (wp_enter_hvf s2); try done;
    by rewrite Hq2, (same_hvf_queue _ _ c Hsh1)|].
  intros _ s3 (Hi3&Hf3&Hq3&r3&Hr3&Hn3&Hc3).
  split_and!; [done|by etrans|by rewrite Hq3, Hq2, (same_hvf_queue _ _ c Hsh1)|by exists r3].
Qed.

(** The HVF class does not take part in clamping: the generic wrappers reduce to
    the class operations. *)
Lemma wp_dequeue_task_hvf s c p t flags Q :
  k_tasks s !! p = Some t → sched_class t = hvf_sched_class →
  wp (dequeue_task_hvf c p flags) s Q → wp (dequeue_task c p flags) s Q.
Proof.
  intros Ht Hcl HQ. unfold dequeue_task, ops_of, uclamp_rq_dec. wp_steps. rewrite Hcl.
  destruct (sched_uclamp_used _); cbn [negb class_ops hvf_class_ops uclamp_enabled op_dequeue_task];
    by wp_steps.
Qed.
Lemma wp_enqueue_task_hvf s c p t flags Q :
  k_tasks s !! p = Some t → sched_class t = hvf_sched_class →
  wp (enqueue_task_hvf c p flags) s Q → wp (enqueue_task c p flags) s Q.
Proof.
  intros Ht Hcl HQ. unfold enqueue_task, ops_of. wp_steps. rewrite Hcl.
  cbn [class_ops hvf_class_ops op_enqueue_task]. wp_steps.
  apply wp_inv in HQ as ([]&s'&Hok&HQ). eapply wp_ok; [done|].
  destruct (frame_task _ _ _ _ (keeps_enqueue c p flags _ _ _ Hok) Ht) as (t'&Ht'&Hcore).
  wp_steps. rewrite (core_field sched_class _ _ (λ _, eq_refl) Hcore), Hcl.
  cbn [class_ops hvf_class_ops uclamp_enabled]. unfold uclamp_rq_inc. wp_steps.
  by destruct (sched_uclamp_used _); cbn [negb]; apply wp_skip.
Qed.

(** Dequeueing the running entity when it goes to sleep. *)
Lemma wp_dequeue_curr s c p r t flags Q :
  k_rqs s !! c = Some r → k_tasks s !! p = Some t → hvf_curr (rq_hvf r) = Some p →
  se_on_rq (hvf t) = false → __state t ≠ TASK_RUNNING →
  Q true (s <| k_rqs ::= <[c := clear_curr (r <| nr_running ::= λ n, u32 (n - 1) |>)]> |>) →
  wp (dequeue_task_hvf c p flags) s Q.
Proof.
  intros Hr Ht Hcur Hon Hst HQ. unfold dequeue_task_hvf, upd_hvf_rq, task_is_running. wp_steps.
  rewrite bool_decide_false by (by intros ?). rewrite bool_decide_true by done. rewrite Hon.
  destruct (Z.eqb_spec (__state t) TASK_RUNNING); [done|]. cbn [andb negb]. wp_steps.
  unfold upd in *. cbn in *. rewrite insert_insert_eq. exact HQ.
Qed.

Lemma wp_block_finish s c p r t :
  k_rqs s !! c = Some r → k_tasks s !! p = Some t →
  wp (__block_task c p) s (λ _ s', same_hvf s s' ∧
    k_tasks s' = <[p := t <| on_rq := 0 |>]> (k_tasks s) ∧ k_cpu s' = k_cpu s ∧
    ∃ r', k_rqs s' !! c = Some r' ∧ nr_running r' = nr_running r ∧
      rq_hvf r' = rq_hvf r ∧ class_data r' = class_data r ∧
      cfs_h_nr_queued r' = cfs_h_nr_queued r ∧ idle r' = idle r).
Proof.
  intros Hr Ht. unfold __block_task. wp_steps.
  destruct (sched_contributes_to_load t), (in_iowait t); cbn [when]; wp_steps.
  all: (split; [|split_and!; [done|done|eexists; split_and!; [first [apply lookup_insert_eq|exact Hr]|done..]]]).
  all: (etrans; [|eapply (same_hvf_task _ p t); [exact Ht|done]]); try done.
  all: try (by apply (same_hvf_rq s c r)).
  etrans; [by apply (same_hvf_rq s c r (r <| nr_uninterruptible ::= λ n, u32 (n + 1) |>))|].
  eapply same_hvf_rq; [apply lookup_insert_eq|done].
Qed.

(** Blocking the running task: it leaves the accounting of the run queue. *)
Lemma wp_block_hvf s c r p t state :
  hvf_inv s → k_rqs s !! c = Some r → k_tasks s !! p = Some t →
  sched_class t = hvf_sched_class → hvf_curr (rq_hvf r) = Some p → __state t ≠ TASK_RUNNING →
  signal_pending_state state t = false →
  wp (try_to_block_task c p state) s (λ b s', b = true ∧
    hvf_inv s' ∧ (∀ c', queue_of s' c' = queue_of s c') ∧ k_cpu s' = k_cpu s ∧
    (∀ q, q ≠ p → k_tasks s' !! q = k_tasks s !! q) ∧
    (∃ t', k_tasks s' !! p = Some t' ∧ on_rq t' = 0 ∧ sched_class t' = sched_class t ∧
      __state t' = __state t ∧ se_on_rq (hvf t') = false ∧
      migration_disabled t' = migration_disabled t ∧ cpu t' = cpu t) ∧
    (∃ r', k_rqs s' !! c = Some r' ∧ nr_running r' = u32 (nr_running r - 1) ∧
      hvf_curr (rq_hvf r') = None ∧ class_data r' = class_data r ∧
      cfs_h_nr_queued r' = cfs_h_nr_queued r ∧ idle r' = idle r)).
Proof.
  intros Hi Hr Ht Hcl Hcur Hst Hsig.
  destruct (curr_not_queued _ _ _ _ _ Hi Hr Ht Hcur) as [Hon Hc].
  unfold try_to_block_task. wp_steps. rewrite Hsig. wp_steps.
  set (flags := if is_special_task_state state then _ else _).
  set (t1 := t <| sched_contributes_to_load := _ |>).
  set (s1 := s <| k_tasks := _ |>).
  assert (same_hvf s s1) as Hsh1 by by apply (same_hvf_task s p t).
  assert (k_tasks s1 !! p = Some t1) as Ht1 by apply lookup_insert_eq.
  assert (k_rqs s1 !! c = Some r) as Hr1 by done.
  assert (∀ q, q ≠ p → k_tasks s1 !! q = k_tasks s !! q) as Hoth.
  { intros q Hq. cbn. by rewrite lookup_insert_ne. }
  unfold block_task. apply wp_bind.
  eapply wp_dequeue_task_hvf; [done|done|]. eapply wp_dequeue_curr; [done..|]. cbn [when].
  set (r2 := clear_curr _). set (s2 := s1 <| k_rqs ::= _ |>).
  eapply wp_mono; [eapply (wp_block_finish s2 c p r2 t1); [apply lookup_insert_eq|done]|].
  intros _ s3 (Hsh3&Htasks&Hcpu&r3&Hr3&Hn3&Hh3&Hd3&Hcf3&Hid3). apply wp_ret.
  pose proof (same_hvf_inv _ _ Hsh1 Hi) as Hi1.
  destruct (inv_set_rq s1 c r r2 Hi1 Hr1) as [Hi2 Hq2]; [done|done|].
  split_and!; [done|by eapply same_hvf_inv| |by rewrite Hcpu| | |].
  - intros c'. rewrite (same_hvf_queue _ _ c' Hsh3). etrans; [apply Hq2|].
    by apply same_hvf_queue.
  - intros q Hq. rewrite Htasks, lookup_insert_ne by done. by apply Hoth.
  - eexists. rewrite Htasks, lookup_insert_eq. split_and!; [done..].
  - exists r3. split_and!; [done|by rewrite Hn3|by rewrite Hh3|by rewrite Hd3|by rewrite Hcf3|by rewrite Hid3].
Qed.

(** The running task has to wait and others are queued; counters leave room. *)
Record blocking_hvf s c r prev t : Prop := {
  bh_rq : k_rqs s !! c = Some r;
  bh_task : k_tasks s !! prev = Some t;
  bh_class : sched_class t = hvf_sched_class;
  bh_curr : hvf_curr (rq_hvf r) = Some prev;
  bh_state : __state t ≠ TASK_RUNNING;
  bh_signal : signal_pending_state (__state t) t = false;
  bh_scx : scx_enabled = false;
  bh_all : scx_switched_all = false;
  bh_data cl : cl ≠ hvf_sched_class → class_data r cl = [];
  bh_cfs : u32 (nr_running r - 1) ≠ cfs_h_nr_queued r;
}.

(** The first half of [__schedule]: the task is taken off and the queued task of
    greatest value becomes the running entity. *)
Lemma wp_block_and_pick s c r prev t :
  hvf_inv s → blocking_hvf s c r prev t → classes_ok s c r → queue_of s c ≠ [] →
  let next := next_hvf s c r in
  wp (try_to_block_task c prev (__state t);; pick_next_task c prev) s (λ p s', p = next ∧
    hvf_inv s' ∧ queue_of s' c = remove_elem next (queue_of s c) ∧ next ≠ prev ∧
    (∃ t', k_tasks s' !! prev = Some t' ∧ on_rq t' = 0 ∧ __state t' = __state t ∧
      sched_class t' = hvf_sched_class ∧ cpu t' = c ∧
      migration_disabled t' = migration_disabled t) ∧
    (∃ tn', k_tasks s' !! next = Some tn') ∧
    (∃ r', k_rqs s' !! c = Some r' ∧ nr_running r' = u32 (nr_running r - 1) ∧
      hvf_curr (rq_hvf r') = Some next)).
Proof.
  intros Hi [Hr Ht Hcl Hcur Hst Hsig Hscx Hall Hd Hcfs] Hcls Hne next.
  destruct (curr_not_queued _ _ _ _ _ Hi Hr Ht Hcur) as [Hon Hc].
  destruct (next_hvf_max s c r Hi Hr Hne) as [Hin _]. fold next in Hin.
  assert (next ≠ prev) as Hnp.
  { intros Heq. rewrite Heq in Hin. pose proof (queued_here _ _ _ _ _ Hi Hr Ht Hc) as Hq.
    rewrite Hon in Hq. naive_solver. }
  destruct (co_queued _ _ _ Hcls next Hin) as (tn&Htn&Hcn).
  apply wp_bind. eapply wp_mono; [by eapply wp_block_hvf|].
  intros b s1 (->&Hi1&Hq1&Hcpu1&Hoth1&(t1&Ht1&Ho1&Hcl1&Hst1&Hon1&Hmig1&Hct1)
              &r1&Hr1&Hn1&Hcu1&Hd1&Hcf1&Hid1).
  eapply wp_pick_next_hvf; [|done|done|congruence|].
  { split; [done|done|by rewrite Hd1|congruence]. }
  set (s2 := s1 <| k_rqs := _ |>).
  assert (same_hvf s1 s2) as Hsh by by apply (same_hvf_rq s1 c r1).
  assert (queue_of s2 c = queue_of s c) as Hq2
    by by rewrite (same_hvf_queue _ _ c Hsh), Hq1.
  apply wp_bind. eapply wp_pick_task_hvf; [by eapply same_hvf_inv|apply lookup_insert_eq|].
  assert (next_hvf s2 c (r1 <| rq_dl_server := None |>) = next) as ->.
  { subst next. unfold next_hvf. rewrite Hq2. destruct (last (queue_of s c)) eqn:Hl; [done|].
    by apply last_None in Hl. }
  apply wp_bind. eapply wp_mono; [eapply (wp_switch_from_blocked s2 c _ prev t1 next tn); try done;
    [by eapply same_hvf_inv|apply lookup_insert_eq|congruence|congruence
    |etrans; [by apply Hoth1|done]|by rewrite Hq2]|].
  intros _ s3 (Hi3&Hf3&Hq3&r3&Hr3&Hn3&Hc3). apply wp_ret.
  destruct (frame_task _ _ _ _ Hf3 Ht1) as (t3&Ht3&Hcore3).
  destruct (frame_task s2 s3 next tn Hf3) as (tn3&Htn3&_); [by etrans; [apply Hoth1|]|].
  pose proof (core_field on_rq _ _ (λ _, eq_refl) Hcore3).
  pose proof (core_field __state _ _ (λ _, eq_refl) Hcore3).
  pose proof (core_field sched_class _ _ (λ _, eq_refl) Hcore3).
  pose proof (core_field cpu _ _ (λ _, eq_refl) Hcore3).
  pose proof (core_field migration_disabled _ _ (λ _, eq_refl) Hcore3).
  split_and!; [done|done|by rewrite Hq3, Hq2|done|exists t3; split_and!; congruence|by exists tn3|].
  exists r3. split_and!; [done|by rewrite Hn3|done].
Qed.

(** C4: An HVF task that goes to sleep while others are queued, on a CPU with tasks of no
    other class, and that is recorded as the running entity in [hvf_rq->curr], no signal
    being pending for it and migration being enabled: it is off the run queue and out of
    [nr_running], and the CPU runs a task of greatest value.  The record is needed:
    [block_unrecorded_task] shows what happens to a task that an exit has struck off it. *)
Theorem schedule_block_runs_highest_value s r prev t :
  let c := k_cpu s in
  hvf_inv s → blocking_hvf s c r prev t → classes_ok s c r → queue_of s c ≠ [] →
  curr r = prev → migration_disabled t = 0 → __state t ≠ TASK_DEAD →
  wp (__schedule SM_NONE) s (λ _ s', hvf_inv s' ∧ ∃ next r' t',
    k_rqs s' !! c = Some r' ∧ curr r' = next ∧ hvf_curr (rq_hvf r') = Some next ∧
    next ∈ queue_of s c ∧ (∀ q, q ∈ queue_of s c → value_of s q <= value_of s next) ∧
    queue_of s' c = remove_elem next (queue_of s c) ∧
    nr_running r' = u32 (nr_running r - 1) ∧
    k_tasks s' !! prev = Some t' ∧ on_rq t' = 0 ∧ on_cpu t' = false).
Proof.
  intros c Hi Hb Hcls Hne Hcurr Hmig Hdead. pose proof Hb as [Hr Ht _ _ Hst _ _ _ _ _].
  destruct (next_hvf_max s c r Hi Hr Hne) as [Hin Hmax].
  unfold __schedule. wp_steps. fold c. rewrite Hcurr. wp_steps.
  destruct (Z.eqb_spec (__state t) 0) as [|_]; [done|]. cbn [Z.eqb SM_NONE SM_IDLE SM_PREEMPT negb andb when].
  apply wp_seq. eapply wp_mono; [by eapply wp_block_and_pick|].
  intros p s1 (->&Hi1&Hq1&Hnp&(t1&Ht1&Ho1&Hst1&_&_&Hmig1)&(tn1&Htn1)&r1&Hr1&Hn1&Hc1).
  eapply wp_mono; [eapply (wp_schedule_picked s1); try done; congruence|].
  intros _ s2 (Hsh&(r2&Hr2&Hcu2&Hn2&Hh2)&(t2&Ht2&Hoc2&Ho2&_)&_).
  split; [by eapply same_hvf_inv|]. exists (next_hvf s c r), r2, t2.
  split_and!; try done; [congruence| |congruence..].
  by rewrite (same_hvf_queue _ _ c Hsh).
Qed.

(** ** Exit of an HVF task *)

Lemma wp_schedule_picked_dead s c prev next vol r t tn :
  hvf_inv s → k_rqs s !! c = Some r → k_tasks s !! prev = Some t → k_tasks s !! next = Some tn →
  next ≠ prev → migration_disabled t = 0 → __state t = TASK_DEAD →
  sched_class t = hvf_sched_class → cpu t = c →
  wp (schedule_picked c prev next vol) s (λ _ s',
    hvf_inv s' ∧ queue_of s' c = remove_elem prev (queue_of s c) ∧
    ∃ r', k_rqs s' !! c = Some r' ∧ curr r' = next ∧ nr_running r' = nr_running r ∧
      hvf_curr (rq_hvf r') = None).
Proof.
  intros Hi Hr Ht Hn Hne Hmig Hdead Hcl Hc. unfold schedule_picked. wp_steps.
  rewrite bool_decide_false by done. wp_steps.
  set (t1 := t <| need_resched := false |>).
  set (r1 := r <| nr_switches ::= _ |> <| curr := next |>).
  set (t2 := if vol then _ else _).
  assert (migration_disabled t2 = 0 ∧ __state t2 = __state t ∧ view_task t2 = view_task t ∧
          sched_class t2 = sched_class t ∧ cpu t2 = cpu t) as (Hm2&Hs2&Hv2&Hcl2&Hc2)
    by by destruct vol.
  clearbody t2. unfold migrate_disable_switch. wp_steps. rewrite Hm2. cbn [Z.eqb]. wp_steps.
  unfold context_switch, prepare_task, finish_task_switch, finish_task, ops_of. wp_steps.
  rewrite Hs2, Hdead. cbn [Z.eqb TASK_DEAD Pos.eqb when]. wp_steps.
  change (sched_class (t2 <| on_cpu := false |>)) with (sched_class t2). rewrite Hcl2, Hcl.
  cbn [class_ops hvf_class_ops op_task_dead].
  match goal with |- wp _ ?x _ => set (s4 := x) end.
  assert (same_hvf s s4) as Hsh.
  { etrans; [by apply (same_hvf_task s prev t t1)|].
    etrans; [by eapply (same_hvf_rq _ c r r1)|].
    etrans; [apply (same_hvf_task _ prev t1 t2); [apply lookup_insert_eq|done]|].
    etrans; [apply (same_hvf_task _ next tn (tn <| on_cpu := true |>)); [|done];
             cbn; by rewrite !lookup_insert_ne|].
    apply (same_hvf_task _ prev t2 (t2 <| on_cpu := false |>)); [|done].
    cbn. by rewrite lookup_insert_ne, lookup_insert_eq. }
  assert (k_rqs s4 !! c = Some r1) as Hr4 by apply lookup_insert_eq.
  assert (k_tasks s4 !! prev = Some (t2 <| on_cpu := false |>)) as Ht4 by apply lookup_insert_eq.
  eapply wp_mono; [eapply keeps_wp; [apply keeps_dead|];
    eapply (wp_task_dead s4 c r1 prev); [by eapply same_hvf_inv|done|done|by rewrite <-Hc, <-Hc2]|].
  intros _ s5 [(Hi5&_&Hq5&r5&Hr5&Hcu5&Hn5) Hf5].
  split_and!; [done|by rewrite Hq5, (same_hvf_queue _ _ c Hsh)|].
  exists r5. split_and!; [done| |done|done].
  destruct (frame_rq _ _ _ _ Hf5 Hr4) as (r5'&Hr5'&Hcore). rewrite Hr5 in Hr5'.
  injection Hr5' as <-. by rewrite (core_rq_field curr _ _ (λ _, eq_refl) Hcore).
Qed.

(** When a running HVF task exits, its [task_dead] operation runs after the CPU
    switched to the next task and clears the running entity of the run queue: the
    HVF task now running on the CPU is not recorded as such. *)
Theorem exit_forgets_running_task s r prev t :
  let c := k_cpu s in
  hvf_inv s → blocking_hvf s c r prev t → classes_ok s c r → queue_of s c ≠ [] →
  curr r = prev → migration_disabled t = 0 → __state t = TASK_DEAD →
  wp (__schedule SM_NONE) s (λ _ s', hvf_inv s' ∧ ∃ next r' tn,
    next ∈ queue_of s c ∧ k_tasks s !! next = Some tn ∧ sched_class tn = hvf_sched_class ∧
    k_rqs s' !! c = Some r' ∧ curr r' = next ∧ hvf_curr (rq_hvf r') = None ∧
    next ∉ queue_of s' c).
Proof.
  intros c Hi Hb Hcls Hne Hcurr Hmig Hdead. pose proof Hb as [Hr Ht Hcl _ Hst _ _ _ _ _].
  destruct (next_hvf_max s c r Hi Hr Hne) as [Hin _].
  destruct (co_queued _ _ _ Hcls _ Hin) as (tn&Htn&Hcn).
  unfold __schedule. wp_steps. fold c. rewrite Hcurr. wp_steps.
  destruct (Z.eqb_spec (__state t) 0) as [|_]; [done|]. cbn [Z.eqb SM_NONE SM_IDLE SM_PREEMPT negb andb when].
  apply wp_seq. eapply wp_mono; [by eapply wp_block_and_pick|].
  intros p s1 (->&Hi1&Hq1&Hnp&(t1&Ht1&Ho1&Hst1&Hcl1&Hc1&Hmig1)&(tn1&Htn1)&r1&Hr1&Hn1&Hcu1).
  eapply wp_mono; [eapply (wp_schedule_picked_dead s1); try done; congruence|].
  intros _ s2 (Hi2&Hq2&r2&Hr2&Hcur2&Hn2&Hh2). split; [done|].
  exists (next_hvf s c r), r2, tn. split_and!; try done.
  rewrite Hq2, Hq1, !elem_of_remove. naive_solver.
Qed.

(** An HVF task that is neither queued nor recorded as the running entity cannot
    be blocked: the dequeue fails, so the task stays marked as queued and counted
    although it is in no queue. *)
Theorem block_unrecorded_task s c r p t state :
  hvf_inv s → k_rqs s !! c = Some r → k_tasks s !! p = Some t → cpu t = c →
  sched_class t = hvf_sched_class → hvf_curr (rq_hvf r) ≠ Some p → p ∉ queue_of s c →
  signal_pending_state state t = false →
  wp (try_to_block_task c p state) s (λ b s', b = true ∧ k_rqs s' = k_rqs s ∧
    ∃ t', k_tasks s' !! p = Some t' ∧ on_rq t' = on_rq t).
Proof.
  intros Hi Hr Ht Hc Hcl Hcur Hnq Hsig. pose proof (queued_here _ _ _ _ _ Hi Hr Ht Hc) as Hq.
  assert (se_on_rq (hvf t) = false) as Hon by (destruct (se_on_rq (hvf t)); naive_solver).
  unfold try_to_block_task. wp_steps. rewrite Hsig. wp_steps. unfold block_task. apply wp_bind.
  eapply wp_dequeue_task_hvf; [apply lookup_insert_eq|done|].
  unfold dequeue_task_hvf. wp_steps.
  change (hvf (t <| sched_contributes_to_load := _ |>)) with (hvf t). rewrite Hon, andb_false_r.
  rewrite bool_decide_false by done. cbn [andb]. wp_steps. cbn [when]. wp_steps.
  split_and!; [done|done|]. eexists. split; [apply lookup_insert_eq|done].
Qed.
End switch.
