(* ===== verification/TaskMove.v ===== *)
(** Tasks that move between task groups (core.c): [sched_change_group], [sched_move_task] and
    the attachment of tasks to a cgroup.

    The group of a task and the run queue its fair entity belongs to are kept beside the
    kernel state, which has no fair run queues. *)
From S2P Require Import Prelude Rbtree KState HvfValue HvfClass HvfInv HvfOps HvfSpec HvfSmp HvfFrame Policy Uclamp Core Schedule SchedSpec.

(** [gl_group]: [p->sched_task_group]; [gl_entity]: the group and the CPU whose fair and
    real-time run queue and entity [p->se] and [p->rt] refer to. *)
Record group_links := { gl_group : gmap tid nat; gl_entity : gmap tid (nat * Z) }.
#[export] Instance eta_group_links : Eta group_links := λ r, {| gl_group := gl_group r; gl_entity := gl_entity r |}.

(** The cgroup of a task, autogroups, the [task_change_group] of the classes that have it and
    the functions of sched_ext; whether real-time tasks may join a group. *)
Class MoveLib := {
  task_css : tid → nat;
  autogroup_task_group : tid → nat → nat;
  other_change_group : sched_class_id → option (tid → group_links → M group_links);
  scx_cgroup_move_task : tid → M unit;
  scx_cgroup_can_attach : list tid → M Z;
  scx_cgroup_finish_attach : M unit;
  scx_cgroup_cancel_attach : list tid → M unit;
  sched_rt_can_attach : nat → tid → bool;
}.

Section move.
Context {L : RbLib} {TC : TickConfig} {S : SmpLib} {UC : UclampConfig} {E : Ext} {OC : OtherClasses} {ML : MoveLib}.

Definition set_task_rq (p : tid) (cpu : Z) (gs : group_links) : group_links :=
  match gl_group gs !! p with Some tg => gs <| gl_entity := <[p := (tg, cpu)]> (gl_entity gs) |> | None => gs end.
(** The HVF class has no [task_change_group]. *)
Definition task_change_group (cl : sched_class_id) : option (tid → group_links → M group_links) :=
  if decide (cl = hvf_sched_class) then None else other_change_group cl.
Definition sched_change_group (tsk : tid) (gs : group_links) : M group_links :=
  let tg := autogroup_task_group tsk (task_css tsk) in
  let gs := gs <| gl_group := <[tsk := tg]> (gl_group gs) |> in
  t ← task tsk;
  match task_change_group (sched_class t) with
  | Some f => f tsk gs
  | None => mret (set_task_rq tsk (cpu t) gs)
  end.

Definition move_flags : Z := Z.lor DEQUEUE_SAVE (Z.lor DEQUEUE_MOVE DEQUEUE_NOCLOCK).
Definition sched_move_task (tsk : tid) (for_autogroup : bool) (gs : group_links) : M group_links :=
  t ← task tsk;
  let c := cpu t in
  r ← cpu_rq c;
  let running := task_current_donor r tsk in
  let queued := task_on_rq_queued t in
  when queued (dequeue_task c tsk move_flags;; skip);;
  when running (put_prev_task c tsk);;
  gs ← sched_change_group tsk gs;
  when (negb for_autogroup) (scx_cgroup_move_task tsk);;
  when queued (enqueue_task c tsk move_flags);;
  when running (set_next_task c tsk;; resched_curr c);;
  mret gs.

(** The tasks of a [cgroup_taskset]; [rt_group_sched] is CONFIG_RT_GROUP_SCHED and [tg] the
    group of the cgroup they join. *)
Definition cpu_cgroup_can_attach (rt_group_sched : bool) (tg : nat) (tset : list tid) : M Z :=
  if rt_group_sched && existsb (λ p, negb (sched_rt_can_attach tg p)) tset then mret (- EINVAL)
  else scx_cgroup_can_attach tset.
Fixpoint move_all (tset : list tid) (gs : group_links) : M group_links :=
  match tset with
  | [] => mret gs
  | p :: tset' => gs ← sched_move_task p false gs; move_all tset' gs
  end.
Definition cpu_cgroup_attach (tset : list tid) (gs : group_links) : M group_links :=
  gs ← move_all tset gs; scx_cgroup_finish_attach;; mret gs.
Definition cpu_cgroup_cancel_attach (tset : list tid) : M unit := scx_cgroup_cancel_attach tset.
End move.

(** What [scx_cgroup_move_task] changes belongs to sched_ext. *)
Class MoveLaws (ML : MoveLib) : Prop := {
  scx_move_quiet p s : scx_cgroup_move_task p s = Ok (tt, s);
}.

Section spec.
Context {L : RbLib} `{!RbLaws L} {TC : TickConfig} {S : SmpLib} {UC : UclampConfig} {E : Ext} {OC : OtherClasses} {ML : MoveLib} {MW : MoveLaws ML}.
Implicit Types (s : kstate) (c : Z) (p : tid) (r : rq) (t : task_struct).

Lemma wp_change_group_hvf s p t gs Q :
  k_tasks s !! p = Some t → sched_class t = hvf_sched_class →
  (let tg := autogroup_task_group p (task_css p) in Q {| gl_group := <[p := tg]> (gl_group gs); gl_entity := <[p := (tg, cpu t)]> (gl_entity gs) |} s) →
  wp (sched_change_group p gs) s Q.
Proof.
  intros Ht Hcl HQ. unfold sched_change_group. wp_steps. rewrite Hcl. unfold task_change_group. rewrite decide_True by done. wp_steps.
  unfold set_task_rq. cbn. rewrite lookup_insert_eq. exact HQ.
Qed.
Lemma wp_dequeue_waiting s c p r t flags Q :
  hvf_inv s → k_rqs s !! c = Some r → k_tasks s !! p = Some t → cpu t = c → p ∈ queue_of s c →
  (∀ s' r', hvf_inv s' → only_cpu c s s' → k_rqs s' !! c = Some r' → k_tasks s' !! p = Some (unqueued_task t) →
     queue_of s' c = remove_elem p (queue_of s c) → nr_running r' = u32 (nr_running r - 1) → hvf_curr (rq_hvf r') = hvf_curr (rq_hvf r) → Q true s') →
  wp (dequeue_task_hvf c p flags) s Q.
Proof.
  intros Hi Hr Ht Hc Hin HQ. assert (se_on_rq (hvf t) = true) as Hon by (by apply (queued_here s c p r t)).
  assert (hvf_curr (rq_hvf r) ≠ Some p) as Hcur by (intros He; destruct (curr_not_queued _ _ _ _ _ Hi Hr Ht He); congruence).
  unfold dequeue_task_hvf. wp_steps. rewrite bool_decide_eq_true_2, Hon by done. cbn [andb]. apply wp_bind. eapply wp_dequeue_hvf_entity; [done..|]. wp_steps.
  destruct (deq_state_inv s c p r t) as [Hi1 Hq1]; [done..|].
  destruct (inv_nr_running _ _ _ (λ n, u32 (n - 1)) Hi1 (lookup_insert_eq _ _ _)) as [Hi2 Hq2].
  eapply HQ; [exact Hi2| |apply lookup_insert_eq|apply lookup_insert_eq| |done|done].
  - split_and!; [|done|done]. intros c' Hne. cbn. by rewrite !lookup_insert_ne.
  - etrans; [apply Hq2|]. done.
Qed.
Lemma unqueued_sane t : hvf_sane t → hvf_sane (unqueued_task t).
Proof. intros []. by split. Qed.

(** A waiting HVF task that changes its group is taken out of the queue of its CPU and put
    back with the value it would have on a wake-up: the invariant of all run queues, the
    number of tasks and the running task stay as they are; a sleeping one only gets its new
    group. *)
Theorem sched_move_task_hvf s p r t for_autogroup gs :
  hvf_inv s → clock_sane s → k_tasks s !! p = Some t → k_rqs s !! cpu t = Some r → sched_class t = hvf_sched_class →
  hvf_sane t → pars_set t = true → 0 <= nr_running r < 2 ^ 32 → donor r ≠ p → (task_on_rq_queued t = true ↔ p ∈ queue_of s (cpu t)) →
  wp (sched_move_task p for_autogroup gs) s (λ gs' s',
    hvf_inv s' ∧ only_cpu (cpu t) s s' ∧ (∃ r', k_rqs s' !! cpu t = Some r' ∧ nr_running r' = nr_running r ∧ hvf_curr (rq_hvf r') = hvf_curr (rq_hvf r)) ∧
    queue_of s' (cpu t) = (if task_on_rq_queued t then ins (value_of s') p (remove_elem p (queue_of s (cpu t))) else queue_of s (cpu t)) ∧
    let tg := autogroup_task_group p (task_css p) in
    gl_group gs' = <[p := tg]> (gl_group gs) ∧ gl_entity gs' = <[p := (tg, cpu t)]> (gl_entity gs)).
Proof.
  intros Hi Hclk Ht Hr Hcl Hsane Hpars Hnr Hdon Hq. unfold sched_move_task. wp_steps. unfold task_current_donor.
  rewrite bool_decide_eq_false_2 by done. cbn [when].
  assert (∀ s' Q, Q tt s' → wp (when (negb for_autogroup) (scx_cgroup_move_task p)) s' Q) as Hscx.
  { intros s' Q HQ. destruct for_autogroup; cbn [negb when]; [by apply wp_skip|]. eapply wp_ok; [apply scx_move_quiet|done]. }
  destruct (task_on_rq_queued t) eqn:Hon; cbn [when].
  - assert (p ∈ queue_of s (cpu t)) as Hin by (by apply Hq). apply wp_bind. eapply wp_dequeue_task_hvf; [done|done|].
    eapply (wp_dequeue_waiting s (cpu t) p r t); [done..|]. intros s1 r1 Hi1 Ho1 Hr1 Ht1 Hq1 Hn1 Hc1. apply wp_skip. wp_steps.
    eapply wp_change_group_hvf; [done|done|]. apply wp_bind, Hscx. apply wp_bind. eapply wp_enqueue_task_hvf; [done|done|].
    eapply wp_mono; [eapply (enqueue_task_hvf_spec s1 (cpu t) p r1 (unqueued_task t)); try done|].
    + destruct Ho1 as (_&Hk&_). unfold clock_sane. by rewrite Hk.
    + rewrite Hc1. intros He. destruct (curr_not_queued _ _ _ _ _ Hi Hr Ht He). assert (se_on_rq (hvf t) = true) by (by apply (queued_here s (cpu t) p r t)). congruence.
    + by apply unqueued_sane.
    + by left.
    + intros _ s2 (Hi2&Ho2&Hq2&r2&Hr2&Hn2&Hc2). wp_steps. split_and!; [done|by eapply only_cpu_trans| |by rewrite Hq2, Hq1|done|done].
      exists r2. split_and!; [done| |congruence]. rewrite Hn2, Hn1. revert Hnr. pow_lia.
  - wp_steps. eapply wp_change_group_hvf; [done|done|]. apply wp_bind, Hscx. wp_steps.
    split_and!; [done|apply only_cpu_refl|by exists r|done|done|done].
Qed.
End spec.
