(* ===== verification/Load.v ===== *)
(** Load weights (kernel/sched/core.c and sched.h): the nice-to-weight table, the
    weight of a task, and the conversions behind the cgroup files [cpu.weight] and
    [cpu.weight.nice]. *)
From S2P Require Import Prelude Rbtree KState HvfValue HvfClass HvfSmp Policy Uclamp Core.

Definition ERANGE := 34.
Definition SCHED_FIXEDPOINT_SHIFT := 10.
Definition WEIGHT_IDLEPRIO := 3.
Definition WMULT_IDLEPRIO := 1431655765.
Definition scale_load (w : Z) : Z := Z.shiftl w SCHED_FIXEDPOINT_SHIFT.
Definition scale_load_down (w : Z) : Z :=
  if w =? 0 then 0 else Z.max 2 (Z.shiftr w SCHED_FIXEDPOINT_SHIFT).

Definition sched_prio_to_weight : list Z :=
  [88761; 71755; 56483; 46273; 36291;
   29154; 23254; 18705; 14949; 11916;
   9548; 7620; 6100; 4904; 3906;
   3121; 2501; 1991; 1586; 1277;
   1024; 820; 655; 526; 423;
   335; 272; 215; 172; 137;
   110; 87; 70; 56; 45;
   36; 29; 23; 18; 15].
Definition sched_prio_to_wmult : list Z :=
  [48388; 59856; 76040; 92818; 118348;
   147320; 184698; 229616; 287308; 360437;
   449829; 563644; 704093; 875809; 1099582;
   1376151; 1717300; 2157191; 2708050; 3363326;
   4194304; 5237765; 6557202; 8165337; 10153587;
   12820798; 15790321; 19976592; 24970740; 31350126;
   39045157; 49367440; 61356676; 76695844; 95443717;
   119304647; 148102320; 186737708; 238609294; 286331153].

(** An access to one of the tables; an index outside it reads stray memory. *)
Definition table_entry (l : list Z) (i : Z) : M Z :=
  if i <? 0 then oops_with bad_pointer else deref (l !! Z.to_nat i).

Section weight.
Context {L : RbLib} {TC : TickConfig} {S : SmpLib} {UC : UclampConfig} {E : Ext}
  {OC : OtherClasses}.

Definition set_load_weight (p : tid) (update_load : bool) : M unit :=
  t ← task p;
  let prio := static_prio t - MAX_RT_PRIO in
  lw ←
    (if task_has_idle_policy t then mret (scale_load WEIGHT_IDLEPRIO, WMULT_IDLEPRIO)
     else
       w ← table_entry sched_prio_to_weight prio;
       iw ← table_entry sched_prio_to_wmult prio;
       mret (scale_load w, iw));
  match op_reweight_task (class_ops (sched_class t)) with
  | Some f =>
      if update_load then f (cpu t) p lw
      else upd_task p (λ t, t <| se_weight := lw.1 |> <| se_inv_weight := lw.2 |>)
  | None => upd_task p (λ t, t <| se_weight := lw.1 |> <| se_inv_weight := lw.2 |>)
  end.
End weight.

(** ** cgroup files *)

Definition CGROUP_WEIGHT_MIN := 1.
Definition CGROUP_WEIGHT_DFL := 100.
Definition CGROUP_WEIGHT_MAX := 10000.
Definition DIV_ROUND_CLOSEST_ULL (x d : Z) : Z := (u64 (x + d / 2)) / d.

Definition sched_weight_from_cgroup (cgrp_weight : Z) : Z :=
  DIV_ROUND_CLOSEST_ULL (u64 (cgrp_weight * 1024)) CGROUP_WEIGHT_DFL.
Definition sched_weight_to_cgroup (weight : Z) : Z :=
  Z.min (Z.max (DIV_ROUND_CLOSEST_ULL (u64 (weight * CGROUP_WEIGHT_DFL)) 1024) CGROUP_WEIGHT_MIN)
        CGROUP_WEIGHT_MAX.

(** The files act on the shares of a group, a load; [set_shares] is
    [sched_group_set_shares] of fair.c, which is not in the repository: it returns
    an error code and the new shares. *)
Definition cpu_weight_read_u64 (shares : Z) : Z := sched_weight_to_cgroup (scale_load_down shares).

Definition cpu_weight_write_u64 (set_shares : Z → Z → Z * Z) (shares cgrp_weight : Z) : Z * Z :=
  if (cgrp_weight <? CGROUP_WEIGHT_MIN) || (CGROUP_WEIGHT_MAX <? cgrp_weight) then (- ERANGE, shares)
  else set_shares shares (scale_load (sched_weight_from_cgroup cgrp_weight)).

(** The loop of [cpu_weight_nice_read_s64] over the rest [l] of the table from
    index [prio]; its result is the index where it stops. *)
Fixpoint closest_prio (l : list Z) (weight last_delta prio : Z) : Z :=
  match l with
  | [] => prio
  | w :: l' =>
      let delta := wrap32 (Z.abs (w - weight)) in
      if last_delta <=? delta then prio else closest_prio l' weight delta (prio + 1)
  end.
Definition cpu_weight_nice_read_s64 (shares : Z) : Z :=
  let prio := closest_prio sched_prio_to_weight (scale_load_down shares) (2 ^ 31 - 1) 0 in
  PRIO_TO_NICE (prio - 1 + MAX_RT_PRIO).

Definition cpu_weight_nice_write_s64 (set_shares : Z → Z → Z * Z) (shares nice : Z) : M (Z * Z) :=
  if (nice <? MIN_NICE) || (MAX_NICE <? nice) then mret (- ERANGE, shares) else
  let idx := NICE_TO_PRIO nice - MAX_RT_PRIO in
  weight ← table_entry sched_prio_to_weight idx;
  mret (set_shares shares (scale_load weight)).

(** * Properties *)

(** Statements about every nice value, decided by evaluation. *)
Definition nices : list Z := seqZ MIN_NICE NICE_WIDTH.
Lemma all_nices (P : Z → bool) : forallb P nices = true → ∀ n, MIN_NICE <= n <= MAX_NICE → P n = true.
Proof.
  intros Hall n Hn. rewrite forallb_forall in Hall. apply Hall.
  apply list_elem_of_In, elem_of_seqZ. unfold MIN_NICE, MAX_NICE, NICE_WIDTH in *. lia.
Qed.

(** The weight table is calibrated as sched.h requires: nice 0 is the unit load,
    weights strictly decrease with nice, every level is worth about 25% (at least
    17% and at most 29%), and the second table holds the rounded inverses
    [2^32/weight]. *)
Theorem weight_table_calibrated :
  table_entry sched_prio_to_weight (NICE_TO_PRIO 0 - MAX_RT_PRIO) =
    (mret (Z.shiftl 1 SCHED_FIXEDPOINT_SHIFT) : M Z) ∧
  (∀ i w w', sched_prio_to_weight !! i = Some w → sched_prio_to_weight !! Datatypes.S i = Some w' →
     w' < w ∧ 117 * w' <= 100 * w <= 129 * w') ∧
  (∀ i w m, sched_prio_to_weight !! i = Some w → sched_prio_to_wmult !! i = Some m →
     m = 2 ^ 32 / w ∨ m = 2 ^ 32 / w + 1).
Proof.
  split; [done|]. split.
  - intros i w w' Hw Hw'. do 40 (destruct i as [|i]; [cbn in Hw, Hw'; simplify_eq; lia|]). done.
  - intros i w m Hw Hm. do 40 (destruct i as [|i]; [cbn in Hw, Hm; simplify_eq; vm_compute; by auto|]). done.
Qed.

Definition nice_read_back (n : Z) : bool :=
  match sched_prio_to_weight !! Z.to_nat (NICE_TO_PRIO n - MAX_RT_PRIO) with
  | Some w => (2 <=? scale_load w) && (scale_load w <=? scale_load 262144) &&
              (cpu_weight_nice_read_s64 (scale_load w) =? n)
  | None => false
  end.
Lemma nices_read_back : forallb nice_read_back nices = true.
Proof. vm_compute. reflexivity. Qed.

(** Reading back what was written: for every nice value [cpu.weight.nice], and for
    every weight [cpu.weight], return what was stored, whenever the group accepts
    the shares as they are; other values are refused with [ERANGE]. *)
Theorem cpu_weight_roundtrip set_shares shares s :
  (∀ v, 2 <= v <= scale_load 262144 → set_shares shares v = (0, v)) →
  (∀ nice, wp (cpu_weight_nice_write_s64 set_shares shares nice) s (λ '(ret, shares') s', s' = s ∧
     if decide (MIN_NICE <= nice <= MAX_NICE) then ret = 0 ∧ cpu_weight_nice_read_s64 shares' = nice
     else ret = - ERANGE ∧ shares' = shares)) ∧
  (∀ w, let '(ret, shares') := cpu_weight_write_u64 set_shares shares w in
     if decide (CGROUP_WEIGHT_MIN <= w <= CGROUP_WEIGHT_MAX) then ret = 0 ∧ cpu_weight_read_u64 shares' = w
     else ret = - ERANGE ∧ shares' = shares).
Proof.
  intros Hset. split.
  - intros nice. unfold cpu_weight_nice_write_s64. destruct (decide _) as [Hn|Hn].
    + replace ((nice <? MIN_NICE) || (MAX_NICE <? nice)) with false by lia.
      set (i := Z.to_nat (NICE_TO_PRIO nice - MAX_RT_PRIO)).
      assert (∃ w, sched_prio_to_weight !! i = Some w ∧ 2 <= scale_load w <= scale_load 262144 ∧
                cpu_weight_nice_read_s64 (scale_load w) = nice) as (w&Hw&Hr&Hread).
      { pose proof (all_nices _ nices_read_back nice Hn) as Hall. unfold nice_read_back in Hall.
        fold i in Hall. destruct (sched_prio_to_weight !! i) as [w|]; [|done].
        exists w. split; [done|]. lia. }
      unfold table_entry.
      replace (NICE_TO_PRIO nice - MAX_RT_PRIO <? 0) with false
        by (unfold NICE_TO_PRIO, DEFAULT_PRIO, MAX_RT_PRIO, MIN_NICE, MAX_NICE in *; lia).
      fold i. rewrite Hw. wp_steps. rewrite Hset by done. done.
    + replace ((nice <? MIN_NICE) || (MAX_NICE <? nice)) with true by lia. by wp_steps.
  - intros w. unfold cpu_weight_write_u64. destruct (decide _) as [Hw|Hw].
    + replace ((w <? CGROUP_WEIGHT_MIN) || (CGROUP_WEIGHT_MAX <? w)) with false by lia.
      unfold cpu_weight_read_u64, sched_weight_from_cgroup, sched_weight_to_cgroup, DIV_ROUND_CLOSEST_ULL,
        CGROUP_WEIGHT_DFL, CGROUP_WEIGHT_MIN, CGROUP_WEIGHT_MAX in *.
      change (100 / 2) with 50. change (1024 / 2) with 512.
      rewrite !(u64_small (w * 1024)), (u64_small (w * 1024 + 50)) by pow_lia.
      set (v := (w * 1024 + 50) / 100).
      assert (10 <= v <= 102400 ∧ 100 * v <= w * 1024 + 50 < 100 * v + 100) as [Hv Hvw].
      { subst v. Z.to_euclidean_division_equations. lia. }
      assert (scale_load v = v * 1024) as Hs by (unfold scale_load; by rewrite Z.shiftl_mul_pow2).
      assert (scale_load_down (v * 1024) = v) as Hd.
      { unfold scale_load_down, SCHED_FIXEDPOINT_SHIFT. rewrite Z.shiftr_div_pow2 by lia.
        destruct (Z.eqb_spec (v * 1024) 0); [lia|]. rewrite Z.div_mul by done. lia. }
      rewrite Hset by (rewrite Hs; change (scale_load 262144) with 268435456; lia).
      split; [done|]. rewrite Hs, Hd, !u64_small by pow_lia.
      assert ((v * 100 + 512) / 1024 = w) as -> by (Z.to_euclidean_division_equations; lia). lia.
    + by replace ((w <? CGROUP_WEIGHT_MIN) || (CGROUP_WEIGHT_MAX <? w)) with true by lia.
Qed.
