(* ===== verification/Setsched.v ===== *)
(** The scheduler system calls (kernel/sched/syscalls.c): nice values, policy and
    attribute changes, the calls that read them back, and yielding. *)
From S2P Require Import Prelude Rbtree KState HvfValue HvfClass HvfSmp Policy Uclamp Core Schedule Load.

Definition SCHED_RESET_ON_FORK := 0x40000000.
Definition SCHED_FLAG_RESET_ON_FORK := 0x01.
Definition SCHED_FLAG_RECLAIM := 0x02.
Definition SCHED_FLAG_DL_OVERRUN := 0x04.
Definition SCHED_FLAG_KEEP_POLICY := 0x08.
Definition SCHED_FLAG_KEEP_PARAMS := 0x10.
Definition SCHED_FLAG_UTIL_CLAMP_MIN := 0x20.
Definition SCHED_FLAG_UTIL_CLAMP_MAX := 0x40.
Definition SCHED_FLAG_KEEP_ALL := Z.lor SCHED_FLAG_KEEP_POLICY SCHED_FLAG_KEEP_PARAMS.
Definition SCHED_FLAG_UTIL_CLAMP := Z.lor SCHED_FLAG_UTIL_CLAMP_MIN SCHED_FLAG_UTIL_CLAMP_MAX.
Definition SCHED_FLAG_ALL :=
  Z.lor SCHED_FLAG_RESET_ON_FORK (Z.lor SCHED_FLAG_RECLAIM (Z.lor SCHED_FLAG_DL_OVERRUN
    (Z.lor SCHED_FLAG_KEEP_ALL SCHED_FLAG_UTIL_CLAMP))).
Definition SCHED_FLAG_SUGOV := 0x10000000.
Definition PF_NO_SETAFFINITY := 0x04000000.
Definition SETPARAM_POLICY := -1.
Definition PAGE_SIZE := 4096.
Definition SCHED_ATTR_SIZE_VER0 := 48.
Definition SCHED_ATTR_SIZE_VER1 := 56.

(** [struct sched_attr] (uapi/linux/sched/types.h): a 32-bit policy, priority and
    clamps, 64-bit flags and times, a signed nice value. *)
Record sched_attr := {
  sa_size : Z; sched_policy : Z; sched_flags : Z; sched_nice : Z; sched_priority : Z;
  sched_runtime : Z; sched_deadline : Z; sched_period : Z;
  sched_util_min : Z; sched_util_max : Z
}.
#[export] Instance eta_sched_attr : Eta sched_attr := λ r,
  {|
     sa_size := sa_size r; sched_policy := sched_policy r; sched_flags := sched_flags r;
     sched_nice := sched_nice r; sched_priority := sched_priority r; sched_runtime :=
     sched_runtime r; sched_deadline := sched_deadline r; sched_period := sched_period r;
     sched_util_min := sched_util_min r; sched_util_max := sched_util_max r |}.
Definition zero_attr : sched_attr :=
  {| sa_size := 0; sched_policy := 0; sched_flags := 0; sched_nice := 0; sched_priority := 0;
     sched_runtime := 0; sched_deadline := 0; sched_period := 0; sched_util_min := 0;
     sched_util_max := 0 |}.

(** Code of other files the system calls use: the parameters of the deadline and
    fair classes (deadline.c, fair.c), priority inheritance (rtmutex.c),
    capabilities and the security module, the pid table, cpusets and the root
    domain. *)
Class SysLib := {
  __setparam_dl : task_struct → sched_attr → task_struct;
  __getparam_dl : task_struct → sched_attr → sched_attr;
  __checkparam_dl : sched_attr → bool;
  dl_param_changed : task_struct → sched_attr → bool;
  sched_dl_overflow : tid → Z → sched_attr → M Z;
  __setparam_fair : task_struct → sched_attr → task_struct;
  rt_mutex_adjust_pi : tid → M unit;
  capable_sys_nice : bool;
  security_task_setnice : task_struct → Z → Z;
  security_task_setscheduler : task_struct → Z;
  security_task_getscheduler : task_struct → Z;
  find_task_by_vpid : kstate → Z → option tid;
  dl_bandwidth_enabled : bool;
  dl_entity_is_special : task_struct → bool;
  rd_span : Z → Z;
  rd_dl_bw : Z → Z;
  vcpu_is_preempted : Z → bool;
  in_interrupt : bool;
}.

Section syscalls.
Context {L : RbLib} {TC : TickConfig} {S : SmpLib} {UC : UclampConfig} {E : Ext}
  {OC : OtherClasses} {SL : SysLib}.

(** * Nice values *)

Definition set_user_nice (p : tid) (nice : Z) : M unit :=
  t ← task p;
  if (task_nice t =? nice) || (nice <? MIN_NICE) || (MAX_NICE <? nice) then skip else
  let c := cpu t in
  r ← cpu_rq c;
  if task_has_dl_policy t || task_has_rt_policy t then
    upd_task p (λ t, t <| static_prio := NICE_TO_PRIO nice |>)
  else
    let queued := task_on_rq_queued t in
    let running := task_current_donor r p in
    when queued (dequeue_task c p (Z.lor DEQUEUE_SAVE DEQUEUE_NOCLOCK);; skip);;
    when running (put_prev_task c p);;
    upd_task p (λ t, t <| static_prio := NICE_TO_PRIO nice |>);;
    set_load_weight p true;;
    t ← task p;
    let old_prio := prio t in
    upd_task p (λ t, let '(pr, t') := effective_prio t in t' <| prio := pr |>);;
    when queued (enqueue_task c p (Z.lor ENQUEUE_RESTORE ENQUEUE_NOCLOCK));;
    when running (set_next_task c p);;
    o ← ops_of p;
    f ← call_null (op_prio_changed o);
    f c p old_prio.

(** [nice_to_rlimit]: nice [19,-20] as a limit value [1,40]. *)
Definition nice_to_rlimit (nice : Z) : Z := MAX_NICE - nice + 1.
Definition is_nice_reduction (t : task_struct) (nice : Z) : bool :=
  nice_to_rlimit nice <=? rlim_nice t.
Definition can_nice (t : task_struct) (nice : Z) : bool :=
  is_nice_reduction t nice || capable_sys_nice.

Definition clamp (v lo hi : Z) : Z := Z.min (Z.max v lo) hi.

Definition sys_nice (increment : Z) : M Z :=
  let increment := clamp increment (- NICE_WIDTH) NICE_WIDTH in
  cur ← current;
  t ← task cur;
  let nice := clamp (task_nice t + increment) MIN_NICE MAX_NICE in
  if (increment <? 0) && negb (can_nice t nice) then mret (- EPERM) else
  let retval := security_task_setnice t nice in
  if negb (retval =? 0) then mret retval else
  set_user_nice cur nice;;
  mret 0.

(** * Idle CPUs *)

Definition idle_cpu (c : Z) : M bool :=
  r ← cpu_rq c;
  mret (bool_decide (curr r = idle r) && (nr_running r =? 0) && negb (ttwu_pending r)).
Definition available_idle_cpu (c : Z) : M bool :=
  b ← idle_cpu c; mret (b && negb (vcpu_is_preempted c)).
Definition idle_task (c : Z) : M tid := r ← cpu_rq c; mret (idle r).

Definition find_process_by_pid (pid : Z) : M (option tid) :=
  if negb (pid =? 0) then get (λ s, find_task_by_vpid s pid)
  else cur ← current; mret (Some cur).
Definition find_get_task (pid : Z) : M (option tid) := find_process_by_pid pid.

(** * Policy changes *)

Definition rt_or_dl_task_policy (t : task_struct) : bool :=
  (policy t =? SCHED_FIFO) || (policy t =? SCHED_RR) || (policy t =? SCHED_DEADLINE).

Definition __setscheduler_params (p : tid) (attr : sched_attr) : M unit :=
  t ← task p;
  let pol := wrap32 (sched_policy attr) in
  let pol := if pol =? SETPARAM_POLICY then policy t else pol in
  upd_task p (λ t, t <| policy := pol |>);;
  (if dl_policy pol then upd_task p (λ t, __setparam_dl t attr)
   else when (fair_policy pol) (upd_task p (λ t, __setparam_fair t attr)));;
  upd_task p (λ t,
    if rt_or_dl_task_policy t then t <| timer_slack_ns := 0 |>
    else if timer_slack_ns t =? 0 then t <| timer_slack_ns := default_timer_slack_ns t |>
    else t);;
  upd_task p (λ t, t <| rt_priority := sched_priority attr |>);;
  upd_task p (λ t, t <| normal_prio := normal_prio_of t |>);;
  set_load_weight p true.

Definition check_same_owner (p : tid) : M bool :=
  cur ← current;
  tc ← task cur;
  tp ← task p;
  mret ((euid tc =? euid tp) || (euid tc =? uid tp)).

(** ** Utilization clamps *)

(** The clamps are read into [int]s; [SCHED_CAPACITY_SCALE] is a [long]. *)
Definition uclamp_validate (p : tid) (attr : sched_attr) : M Z :=
  t ← task p;
  let has_min := has (sched_flags attr) SCHED_FLAG_UTIL_CLAMP_MIN in
  let has_max := has (sched_flags attr) SCHED_FLAG_UTIL_CLAMP_MAX in
  let util_min := if has_min then wrap32 (sched_util_min attr)
                  else uc_value (uclamp_req UCLAMP_MIN t) in
  let util_max := if has_max then wrap32 (sched_util_max attr)
                  else uc_value (uclamp_req UCLAMP_MAX t) in
  if has_min && (SCHED_CAPACITY_SCALE + 1 <? wrap32 (util_min + 1)) then mret (- EINVAL) else
  if has_max && (SCHED_CAPACITY_SCALE + 1 <? wrap32 (util_max + 1)) then mret (- EINVAL) else
  if negb (util_min =? -1) && negb (util_max =? -1) && (util_max <? util_min)
  then mret (- EINVAL) else
  modify (λ s, s <| k_uclamp ::= λ g, g <| sched_uclamp_used := true |> |>);;
  mret 0.

(** A [__u32] compared with [-1]. *)
Definition u32_minus_1 (v : Z) : bool := v =? 2 ^ 32 - 1.

Definition uclamp_reset (attr : sched_attr) (id : uclamp_id) (uc_se : uclamp_se) : bool :=
  (negb (has (sched_flags attr) SCHED_FLAG_UTIL_CLAMP) && negb (uc_user_defined uc_se)) ||
  match id with
  | UCLAMP_MIN => has (sched_flags attr) SCHED_FLAG_UTIL_CLAMP_MIN && u32_minus_1 (sched_util_min attr)
  | UCLAMP_MAX => has (sched_flags attr) SCHED_FLAG_UTIL_CLAMP_MAX && u32_minus_1 (sched_util_max attr)
  end.

Definition __setscheduler_uclamp (p : tid) (attr : sched_attr) : M unit :=
  for_each_clamp_id clamp_ids (λ id,
    t ← task p;
    when (uclamp_reset attr id (uclamp_req id t))
      (g ← get k_uclamp;
       let value := if rt_task t && bool_decide (id = UCLAMP_MIN)
                    then sysctl_sched_uclamp_util_min_rt_default g else uclamp_none id in
       upd_task p (set_uclamp_req id (uclamp_se_set value false))));;
  if negb (has (sched_flags attr) SCHED_FLAG_UTIL_CLAMP) then skip else
  when (has (sched_flags attr) SCHED_FLAG_UTIL_CLAMP_MIN && negb (u32_minus_1 (sched_util_min attr)))
    (upd_task p (set_uclamp_req UCLAMP_MIN (uclamp_se_set (sched_util_min attr) true)));;
  when (has (sched_flags attr) SCHED_FLAG_UTIL_CLAMP_MAX && negb (u32_minus_1 (sched_util_max attr)))
    (upd_task p (set_uclamp_req UCLAMP_MAX (uclamp_se_set (sched_util_max attr) true))).

(** ** Permissions and the change itself *)

Definition user_check_sched_setscheduler (p : tid) (attr : sched_attr) (pol : Z)
    (reset_on_fork : bool) : M Z :=
  t ← task p;
  owner ← check_same_owner p;
  let req_priv :=
    (fair_policy pol && (sched_nice attr <? task_nice t) &&
       negb (is_nice_reduction t (sched_nice attr))) ||
    (rt_policy pol &&
       ((negb (pol =? policy t) && (rlim_rtprio t =? 0)) ||
        ((rt_priority t <? sched_priority attr) && (rlim_rtprio t <? sched_priority attr)))) ||
    dl_policy pol ||
    (task_has_idle_policy t && negb (idle_policy pol) &&
       negb (is_nice_reduction t (task_nice t))) ||
    negb owner ||
    (sched_reset_on_fork t && negb reset_on_fork) in
  mret (if req_priv && negb capable_sys_nice then - EPERM else 0).

Definition __rt_effective_prio (pi_task : option tid) (prio' : Z) : M Z :=
  match pi_task with
  | Some q => tq ← task q; mret (Z.min prio' (prio tq))
  | None => mret prio'
  end.
Definition rt_effective_prio (p : tid) (prio' : Z) : M Z :=
  t ← task p; __rt_effective_prio (pi_top_task t) prio'.

(** The part of [__sched_setscheduler] under the run-queue lock once the change
    is admitted, and the walk of the chain of locks after it.  The balance callbacks that
    are spliced before the lock is released and run at the end are in [Balance]
    ([splice_balance_callbacks], [balance_callbacks]); the lock of cpusets is not part of
    the state. *)
Definition setscheduler_apply (p : tid) (attr : sched_attr) (pi : bool) (pol : Z)
    (reset_on_fork : bool) : M Z :=
  let queue_flags := Z.lor DEQUEUE_SAVE (Z.lor DEQUEUE_MOVE DEQUEUE_NOCLOCK) in
  upd_task p (λ t, t <| sched_reset_on_fork := reset_on_fork |>);;
  t ← task p;
  let c := cpu t in
  let oldprio := prio t in
  let newprio := __normal_prio pol (sched_priority attr) (sched_nice attr) in
  newprio ← (if pi then rt_effective_prio p newprio else mret newprio);
  let queue_flags := if pi && (newprio =? oldprio)
                     then Z.land queue_flags (Z.lnot DEQUEUE_MOVE) else queue_flags in
  let prev_class := sched_class t in
  let next_class := __setscheduler_class pol newprio in
  when (bool_decide (prev_class ≠ next_class) && sched_delayed t)
    (dequeue_task c p (Z.lor DEQUEUE_SLEEP (Z.lor DEQUEUE_DELAYED DEQUEUE_NOCLOCK));; skip);;
  t ← task p;
  r ← cpu_rq c;
  let queued := task_on_rq_queued t in
  let running := task_current_donor r p in
  when queued (dequeue_task c p queue_flags;; skip);;
  when running (put_prev_task c p);;
  let keep := has (sched_flags attr) SCHED_FLAG_KEEP_PARAMS in
  when (negb keep)
    (__setscheduler_params p attr;;
     upd_task p (λ t, t <| sched_class := next_class |> <| prio := newprio |>));;
  let queue_flags := if keep then queue_flags else Z.lor queue_flags ENQUEUE_CHANGED in
  __setscheduler_uclamp p attr;;
  check_class_changing c p prev_class;;
  when queued
    (t ← task p;
     enqueue_task c p (if oldprio <? prio t then Z.lor queue_flags ENQUEUE_HEAD else queue_flags));;
  when running (set_next_task c p);;
  check_class_changed c p prev_class oldprio;;
  when pi (rt_mutex_adjust_pi p);;
  mret 0.

(** The checks before the run-queue lock is taken: an error, or the policy to set
    and the flag to store. *)
Definition setscheduler_check (p : tid) (attr : sched_attr) (user : bool) (pol : Z)
  : M (Z + (Z * bool)) :=
  t ← task p;
  let reset_on_fork := if pol <? 0 then sched_reset_on_fork t
                       else has (sched_flags attr) SCHED_FLAG_RESET_ON_FORK in
  let newpol := if pol <? 0 then policy t else pol in
  if negb (pol <? 0) && negb (valid_policy newpol) then mret (inl (- EINVAL)) else
  if negb (Z.land (sched_flags attr) (Z.lnot (Z.lor SCHED_FLAG_ALL SCHED_FLAG_SUGOV)) =? 0)
  then mret (inl (- EINVAL)) else
  if MAX_RT_PRIO - 1 <? sched_priority attr then mret (inl (- EINVAL)) else
  if (dl_policy newpol && negb (__checkparam_dl attr)) ||
     negb (eqb (rt_policy newpol) (negb (sched_priority attr =? 0)))
  then mret (inl (- EINVAL)) else
  retval ←
    (if user then
       retval ← user_check_sched_setscheduler p attr newpol reset_on_fork;
       if negb (retval =? 0) then mret retval else
       if has (sched_flags attr) SCHED_FLAG_SUGOV then mret (- EINVAL) else
       mret (security_task_setscheduler t)
     else mret 0);
  if negb (retval =? 0) then mret (inl retval) else
  retval ← (if has (sched_flags attr) SCHED_FLAG_UTIL_CLAMP then uclamp_validate p attr else mret 0);
  if negb (retval =? 0) then mret (inl retval) else
  mret (inr (newpol, reset_on_fork)).

(** Whether attributes of the task's own policy ask for a change. *)
Definition attr_changes (t : task_struct) (attr : sched_attr) (pol : Z) : bool :=
  (fair_policy pol && (negb (sched_nice attr =? task_nice t) ||
                       negb (sched_runtime attr =? se_slice t))) ||
  (rt_policy pol && negb (sched_priority attr =? rt_priority t)) ||
  (dl_policy pol && dl_param_changed t attr) ||
  has (sched_flags attr) SCHED_FLAG_UTIL_CLAMP.

(** [__sched_setscheduler] from the label [recheck].  [other_cpus] is what other
    CPUs do to the task until the run-queue lock is held; when they changed the
    policy the checks start over, at most [fuel] times. *)
Fixpoint setscheduler_loop (fuel : nat) (other_cpus : nat → M unit) (p : tid) (attr : sched_attr)
    (user pi : bool) (pol : Z) : M (option Z) :=
  match fuel with
  | O => mret None
  | Datatypes.S fuel' =>
      chk ← setscheduler_check p attr user pol;
      match chk with
      | inl retval => mret (Some retval)
      | inr (newpol, reset_on_fork) =>
          let oldpolicy := if pol <? 0 then newpol else -1 in
          other_cpus fuel';;
          t ← task p;
          let c := cpu t in
          r ← cpu_rq c;
          if bool_decide (stop r = Some p) then mret (Some (- EINVAL)) else
          let retval := scx_check_setscheduler t newpol in
          if negb (retval =? 0) then mret (Some retval) else
          if (newpol =? policy t) && negb (attr_changes t attr newpol) then
            upd_task p (λ t, t <| sched_reset_on_fork := reset_on_fork |>);;
            mret (Some 0)
          else if user && dl_bandwidth_enabled && dl_policy newpol &&
                  negb (has (sched_flags attr) SCHED_FLAG_SUGOV) &&
                  (negb (Z.land (rd_span c) (cpus_ptr t) =? rd_span c) || (rd_dl_bw c =? 0))
          then mret (Some (- EPERM))
          else if negb (oldpolicy =? -1) && negb (oldpolicy =? policy t) then
            setscheduler_loop fuel' other_cpus p attr user pi (-1)
          else
            overflow ← (if dl_policy newpol || dl_task t then sched_dl_overflow p newpol attr
                        else mret 0);
            if negb (overflow =? 0) then mret (Some (- EBUSY)) else
            ret ← setscheduler_apply p attr pi newpol reset_on_fork;
            mret (Some ret)
      end
  end.

Definition __sched_setscheduler (fuel : nat) (other_cpus : nat → M unit) (p : tid)
    (attr : sched_attr) (user pi : bool) : M (option Z) :=
  if pi && in_interrupt then oops_with kernel_bug
  else setscheduler_loop fuel other_cpus p attr user pi (wrap32 (sched_policy attr)).

(** [rt_mutex_setprio] (core.c): the priority inherited from the top waiter
    [pi_task].  The links of the deadline entity and the RT timeout belong to the
    data of those classes; [dl_entity_preempt] compares deadlines (deadline.c). *)
Definition rt_mutex_setprio (dl_entity_preempt : task_struct → task_struct → bool)
    (p : tid) (pi_task : option tid) : M unit :=
  t ← task p;
  newprio ← __rt_effective_prio pi_task (normal_prio t);
  if bool_decide (pi_top_task t = pi_task) && (newprio =? prio t) && negb (dl_prio newprio)
  then skip else
  let c := cpu t in
  r ← cpu_rq c;
  upd_task p (λ t, t <| pi_top_task := pi_task |>);;
  if (newprio =? prio t) && negb (dl_prio newprio) then skip else
  if bool_decide (p = idle r) then skip else
  let oldprio := prio t in
  let queue_flag := Z.lor DEQUEUE_SAVE (Z.lor DEQUEUE_MOVE DEQUEUE_NOCLOCK) in
  let queue_flag := if oldprio =? newprio then Z.land queue_flag (Z.lnot DEQUEUE_MOVE) else queue_flag in
  let prev_class := sched_class t in
  let next_class := __setscheduler_class (policy t) newprio in
  when (bool_decide (prev_class ≠ next_class) && sched_delayed t)
    (dequeue_task c p (Z.lor DEQUEUE_SLEEP (Z.lor DEQUEUE_DELAYED DEQUEUE_NOCLOCK));; skip);;
  t ← task p;
  r ← cpu_rq c;
  let queued := task_on_rq_queued t in
  let running := task_current_donor r p in
  when queued (dequeue_task c p queue_flag;; skip);;
  when running (put_prev_task c p);;
  replenish ←
    (if dl_prio newprio then
       match pi_task with
       | Some q => tq ← task q;
           mret (negb (dl_prio (normal_prio t)) || (dl_prio (prio tq) && dl_entity_preempt tq t))
       | None => mret (negb (dl_prio (normal_prio t)))
       end
     else mret false);
  let queue_flag := if replenish : bool then Z.lor queue_flag ENQUEUE_REPLENISH else queue_flag in
  let queue_flag := if negb (dl_prio newprio) && rt_prio newprio && (oldprio <? newprio)
                    then Z.lor queue_flag ENQUEUE_HEAD else queue_flag in
  upd_task p (λ t, t <| sched_class := next_class |> <| prio := newprio |>);;
  check_class_changing c p prev_class;;
  when queued (enqueue_task c p queue_flag);;
  when running (set_next_task c p);;
  check_class_changed c p prev_class oldprio.
End syscalls.

(** * The system calls *)

(** Access to user memory: [copy_from_user] of a [struct sched_param], [get_user] of
    a size, [copy_struct_from_user] and [copy_struct_to_user] of a [sched_attr],
    [copy_to_user] and the conversion of jiffies. *)
Class UserMem := {
  user_sched_param : Z → option Z;
  user_attr_size : Z → option Z;
  user_sched_attr : Z → Z → Z * sched_attr;
  user_writable : Z → bool;
  copy_attr_to_user : Z → Z → sched_attr → Z;
  user_cpu_mask : Z → Z → option Z;
  cpumask_size : Z;
  jiffies_to_timespec64 : Z → timespec64;
  alloc_ok : bool;
  cpu_active_mask : Z;
  sizeof_sched_attr : Z;
}.

Section calls.
Context {L : RbLib} {TC : TickConfig} {S : SmpLib} {UC : UclampConfig} {E : Ext}
  {OC : OtherClasses} {SL : SysLib} {U : UserMem}.
(** How often a policy change may be checked again, and what other CPUs do
    meanwhile. *)
Context (fuel : nat) (other_cpus : nat → M unit).

Definition _sched_setscheduler (p : tid) (pol : Z) (param_priority : Z) (check : bool) : M (option Z) :=
  t ← task p;
  let attr := zero_attr <| sched_policy := u32 pol |> <| sched_priority := param_priority |>
                        <| sched_nice := PRIO_TO_NICE (static_prio t) |> in
  let attr := if custom_slice t then attr <| sched_runtime := se_slice t |> else attr in
  let attr :=
    if negb (pol =? SETPARAM_POLICY) && has pol SCHED_RESET_ON_FORK then
      attr <| sched_flags ::= λ f, Z.lor f SCHED_FLAG_RESET_ON_FORK |>
           <| sched_policy := u32 (Z.land pol (Z.lnot SCHED_RESET_ON_FORK)) |>
    else attr in
  __sched_setscheduler fuel other_cpus p attr check true.

Definition sched_setscheduler (p : tid) (pol priority : Z) : M (option Z) :=
  _sched_setscheduler p pol priority true.
Definition sched_setattr (p : tid) (attr : sched_attr) : M (option Z) :=
  __sched_setscheduler fuel other_cpus p attr true true.
Definition sched_setattr_nocheck (p : tid) (attr : sched_attr) : M (option Z) :=
  __sched_setscheduler fuel other_cpus p attr false true.
Definition sched_setscheduler_nocheck (p : tid) (pol priority : Z) : M (option Z) :=
  _sched_setscheduler p pol priority false.

(** The callers inside the kernel warn when the change fails. *)
Definition sched_set_fifo (p : tid) : M unit :=
  sched_setscheduler_nocheck p SCHED_FIFO (MAX_RT_PRIO / 2);; skip.
Definition sched_set_fifo_low (p : tid) : M unit :=
  sched_setscheduler_nocheck p SCHED_FIFO 1;; skip.
Definition sched_set_normal (p : tid) (nice : Z) : M unit :=
  sched_setattr_nocheck p (zero_attr <| sched_policy := SCHED_NORMAL |> <| sched_nice := nice |>);; skip.

Definition do_sched_setscheduler (pid pol param : Z) : M (option Z) :=
  if (param =? 0) || (pid <? 0) then mret (Some (- EINVAL)) else
  match user_sched_param param with
  | None => mret (Some (- EFAULT))
  | Some priority =>
      p ← find_get_task pid;
      match p with
      | None => mret (Some (- ESRCH))
      | Some p => sched_setscheduler p pol (u32 priority)
      end
  end.

(** [sched_copy_attr]: the return value and the attributes. *)
Definition sched_copy_attr (uattr : Z) : Z * sched_attr :=
  match user_attr_size uattr with
  | None => (- EFAULT, zero_attr)
  | Some size =>
      let size := if size =? 0 then SCHED_ATTR_SIZE_VER0 else size in
      if (size <? SCHED_ATTR_SIZE_VER0) || (PAGE_SIZE <? size) then (- E2BIG, zero_attr) else
      let '(ret, attr) := user_sched_attr uattr size in
      if negb (ret =? 0) then (ret, attr) else
      if has (sched_flags attr) SCHED_FLAG_UTIL_CLAMP && (size <? SCHED_ATTR_SIZE_VER1)
      then (- EINVAL, attr)
      else (0, attr <| sched_nice ::= λ n, clamp n MIN_NICE MAX_NICE |>)
  end.

Definition get_params (t : task_struct) (attr : sched_attr) : sched_attr :=
  if task_has_dl_policy t then __getparam_dl t attr
  else if task_has_rt_policy t then attr <| sched_priority := rt_priority t |>
  else attr <| sched_nice := task_nice t |> <| sched_runtime := se_slice t |>.

Definition sys_sched_setscheduler (pid pol param : Z) : M (option Z) :=
  if pol <? 0 then mret (Some (- EINVAL)) else do_sched_setscheduler pid pol param.
Definition sys_sched_setparam (pid param : Z) : M (option Z) :=
  do_sched_setscheduler pid SETPARAM_POLICY param.

Definition sys_sched_setattr (pid uattr flags : Z) : M (option Z) :=
  if (uattr =? 0) || (pid <? 0) || negb (flags =? 0) then mret (Some (- EINVAL)) else
  let '(retval, attr) := sched_copy_attr uattr in
  if negb (retval =? 0) then mret (Some retval) else
  if wrap32 (sched_policy attr) <? 0 then mret (Some (- EINVAL)) else
  let attr := if has (sched_flags attr) SCHED_FLAG_KEEP_POLICY
              then attr <| sched_policy := u32 SETPARAM_POLICY |> else attr in
  p ← find_get_task pid;
  match p with
  | None => mret (Some (- ESRCH))
  | Some p =>
      t ← task p;
      sched_setattr p (if has (sched_flags attr) SCHED_FLAG_KEEP_PARAMS then get_params t attr else attr)
  end.

Definition sys_sched_getscheduler (pid : Z) : M Z :=
  if pid <? 0 then mret (- EINVAL) else
  p ← find_process_by_pid pid;
  match p with
  | None => mret (- ESRCH)
  | Some p =>
      t ← task p;
      let retval := security_task_getscheduler t in
      if negb (retval =? 0) then mret retval
      else mret (if sched_reset_on_fork t then Z.lor (policy t) SCHED_RESET_ON_FORK else policy t)
  end.

(** The second component is what is copied to the user. *)
Definition sys_sched_getparam (pid param : Z) : M (Z * option Z) :=
  if (param =? 0) || (pid <? 0) then mret (- EINVAL, None) else
  p ← find_process_by_pid pid;
  match p with
  | None => mret (- ESRCH, None)
  | Some p =>
      t ← task p;
      let retval := security_task_getscheduler t in
      if negb (retval =? 0) then mret (retval, None) else
      let lp := if task_has_rt_policy t then rt_priority t else 0 in
      mret (if user_writable param then (0, Some lp) else (- EFAULT, None))
  end.

Definition sys_sched_getattr (pid uattr usize flags : Z) : M (Z * option sched_attr) :=
  if (uattr =? 0) || (pid <? 0) || (PAGE_SIZE <? usize) || (usize <? SCHED_ATTR_SIZE_VER0) ||
     negb (flags =? 0)
  then mret (- EINVAL, None) else
  p ← find_process_by_pid pid;
  match p with
  | None => mret (- ESRCH, None)
  | Some p =>
      t ← task p;
      let retval := security_task_getscheduler t in
      if negb (retval =? 0) then mret (retval, None) else
      let kattr := zero_attr <| sched_policy := policy t |> in
      let kattr := if sched_reset_on_fork t
                   then kattr <| sched_flags ::= λ f, Z.lor f SCHED_FLAG_RESET_ON_FORK |> else kattr in
      let kattr := get_params t kattr in
      let kattr := kattr <| sched_flags ::= λ f, Z.land f SCHED_FLAG_ALL |> in
      let kattr := kattr <| sched_util_min := uc_value (uclamp_req UCLAMP_MIN t) |>
                         <| sched_util_max := uc_value (uclamp_req UCLAMP_MAX t) |>
                         <| sa_size := Z.min usize sizeof_sched_attr |> in
      mret (copy_attr_to_user uattr usize kattr, Some kattr)
  end.

(** ** Yielding and priorities *)

Definition do_sched_yield : M unit :=
  c ← smp_processor_id;
  cur ← current;
  o ← ops_of cur;
  f ← call_null (op_yield_task o);
  f c;;
  schedule.
Definition sys_sched_yield : M Z := do_sched_yield;; mret 0.
Definition yield_ : M unit :=
  cur ← current;
  upd_task cur (λ t, t <| __state := TASK_RUNNING |>);;
  do_sched_yield.

Definition yield_to (p : tid) (preempt : bool) : M Z :=
  cur ← current;
  c ← smp_processor_id;
  r ← cpu_rq c;
  t ← task p;
  let pc := cpu t in
  pr ← cpu_rq pc;
  if (nr_running r =? 1) && (nr_running pr =? 1) then mret (- ESRCH) else
  tc ← task cur;
  match op_yield_to_task (class_ops (sched_class tc)) with
  | None => mret 0
  | Some f =>
      if bool_decide (sched_class tc ≠ sched_class t) then mret 0 else
      if on_cpu t || negb (task_is_running t) then mret 0 else
      yielded ← f c p;
      if yielded : bool then
        when (preempt && negb (c =? pc)) (resched_curr pc);;
        schedule;;
        mret 1
      else mret 0
  end.

Definition sys_sched_get_priority_max (pol : Z) : Z :=
  if (pol =? SCHED_FIFO) || (pol =? SCHED_RR) then MAX_RT_PRIO - 1
  else if (pol =? SCHED_DEADLINE) || (pol =? SCHED_NORMAL) || (pol =? SCHED_BATCH) ||
          (pol =? SCHED_IDLE) || (pol =? SCHED_EXT) then 0
  else - EINVAL.
Definition sys_sched_get_priority_min (pol : Z) : Z :=
  if (pol =? SCHED_FIFO) || (pol =? SCHED_RR) then 1
  else if (pol =? SCHED_DEADLINE) || (pol =? SCHED_NORMAL) || (pol =? SCHED_BATCH) ||
          (pol =? SCHED_IDLE) || (pol =? SCHED_EXT) then 0
  else - EINVAL.

Definition sched_rr_get_interval (pid : Z) : M (Z * option timespec64) :=
  if pid <? 0 then mret (- EINVAL, None) else
  p ← find_process_by_pid pid;
  match p with
  | None => mret (- ESRCH, None)
  | Some p =>
      t ← task p;
      let retval := security_task_getscheduler t in
      if negb (retval =? 0) then mret (retval, None) else
      time_slice ←
        match op_get_rr_interval (class_ops (sched_class t)) with
        | Some f => f (cpu t) p
        | None => mret 0
        end;
      mret (0, Some (jiffies_to_timespec64 time_slice))
  end.
Definition sys_sched_rr_get_interval (pid interval : Z) : M (Z * option timespec64) :=
  '(retval, t) ← sched_rr_get_interval pid;
  if negb (retval =? 0) then mret (retval, None)
  else mret (if user_writable interval then (0, t) else (- EFAULT, None)).
End calls.
