(* ===== verification/SetschedSpec.v ===== *)
(** What the scheduler system calls guarantee: which attribute changes are
    admitted, for whom, what they do to the task, and where the HVF class lacks an
    operation they call. *)
From S2P Require Import Prelude Rbtree KState HvfValue HvfClass HvfInv HvfOps HvfSpec HvfSmp HvfFrame Policy Uclamp Core Schedule Load Setsched.

Section spec.
Context {L : RbLib} {TC : TickConfig} {S : SmpLib} {UC : UclampConfig} {E : Ext}
  {OC : OtherClasses} {SL : SysLib} {U : UserMem}.
Implicit Types (s : kstate) (p : tid) (t : task_struct) (attr : sched_attr).

(** * Admission *)

(** The attributes the kernel accepts for policy [pol]: no flag it does not know, a
    priority for the real-time policies and only for them. *)
Definition attr_valid attr (pol : Z) : Prop :=
  Z.land (sched_flags attr) (Z.lnot (Z.lor SCHED_FLAG_ALL SCHED_FLAG_SUGOV)) = 0 ∧
  sched_priority attr <= MAX_RT_PRIO - 1 ∧
  (dl_policy pol = true → __checkparam_dl attr = true) ∧
  (rt_policy pol = true ↔ sched_priority attr ≠ 0).

(** The clamps the kernel lets through.  They are compared as signed numbers: one that
    is asked for is at most the scale, which every negative number is, or the greatest
    number, whose successor is negative; and the lower is at most the upper unless one of
    them is -1, which asks for a reset. *)
Definition clamp_in_scale (v : Z) : Prop := v <= SCHED_CAPACITY_SCALE ∨ v = 2 ^ 31 - 1.
Definition clamps_admitted t attr : Prop :=
  let asks_min := has (sched_flags attr) SCHED_FLAG_UTIL_CLAMP_MIN in
  let asks_max := has (sched_flags attr) SCHED_FLAG_UTIL_CLAMP_MAX in
  let lo := if asks_min then wrap32 (sched_util_min attr) else uc_value (uclamp_req UCLAMP_MIN t) in
  let hi := if asks_max then wrap32 (sched_util_max attr) else uc_value (uclamp_req UCLAMP_MAX t) in
  (asks_min = true → clamp_in_scale lo) ∧ (asks_max = true → clamp_in_scale hi) ∧
  (lo ≠ -1 → hi ≠ -1 → lo <= hi).

(** Who may ask: a privileged caller; any other only for a task of the same owner, never
    for SCHED_DEADLINE, only within the limits for nice values and real-time priorities,
    and without clearing reset-on-fork. *)
Definition permitted (tc t : task_struct) attr (pol : Z) (rof : bool) : Prop :=
  capable_sys_nice = true ∨
  (euid tc = euid t ∨ euid tc = uid t) ∧ dl_policy pol = false ∧
  (fair_policy pol = true → task_nice t <= sched_nice attr ∨ nice_to_rlimit (sched_nice attr) <= rlim_nice t) ∧
  (rt_policy pol = true → (pol = policy t ∨ rlim_rtprio t ≠ 0) ∧
     (sched_priority attr <= rt_priority t ∨ sched_priority attr <= rlim_rtprio t)) ∧
  (task_has_idle_policy t = true → idle_policy pol = false → nice_to_rlimit (task_nice t) <= rlim_nice t) ∧
  (sched_reset_on_fork t = true → rof = true).

(** A request that is let through. *)
Record admitted (tc t : task_struct) attr (user : bool) (pol newpol : Z) (rof : bool) : Prop := {
  ad_policy : 0 <= pol → valid_policy newpol = true;
  ad_attr : attr_valid attr newpol;
  ad_user : user = true → permitted tc t attr newpol rof ∧ has (sched_flags attr) SCHED_FLAG_SUGOV = false ∧
    security_task_setscheduler t = 0;
  ad_clamps : has (sched_flags attr) SCHED_FLAG_UTIL_CLAMP = true → clamps_admitted t attr;
}.

Lemma wp_user_check s p t r tc attr pol rof Q :
  k_tasks s !! p = Some t → k_rqs s !! k_cpu s = Some r → k_tasks s !! curr r = Some tc →
  (permitted tc t attr pol rof → Q 0 s) → (¬ permitted tc t attr pol rof → capable_sys_nice = false → Q (- EPERM) s) →
  wp (user_check_sched_setscheduler p attr pol rof) s Q.
Proof.
  intros Ht Hr Htc HY HN. unfold user_check_sched_setscheduler, check_same_owner. wp_steps.
  eapply wp_current; [done|]. wp_steps. unfold is_nice_reduction. unfold permitted in HY, HN.
  destruct capable_sys_nice; [rewrite andb_false_r; apply HY; by left|].
  cbn [negb]. rewrite andb_true_r.
  set (a := fair_policy pol && _ && _). set (b := rt_policy pol && _).
  set (d := task_has_idle_policy t && _ && _). set (o := negb (_ || _)).
  set (f := sched_reset_on_fork t && negb rof).
  assert (a = false ↔ (fair_policy pol = true →
    task_nice t <= sched_nice attr ∨ nice_to_rlimit (sched_nice attr) <= rlim_nice t)) as Ha.
  { subst a. destruct (fair_policy pol), (Z.ltb_spec (sched_nice attr) (task_nice t)),
      (Z.leb_spec (nice_to_rlimit (sched_nice attr)) (rlim_nice t)); cbn; (split; [|intros Hx; try specialize (Hx eq_refl)]); (done || lia). }
  assert (b = false ↔ (rt_policy pol = true → (pol = policy t ∨ rlim_rtprio t ≠ 0) ∧
    (sched_priority attr <= rt_priority t ∨ sched_priority attr <= rlim_rtprio t))) as Hb.
  { subst b. destruct (rt_policy pol), (Z.eqb_spec pol (policy t)), (Z.eqb_spec (rlim_rtprio t) 0),
      (Z.ltb_spec (rt_priority t) (sched_priority attr)), (Z.ltb_spec (rlim_rtprio t) (sched_priority attr));
      cbn; (split; [|intros Hx; try specialize (Hx eq_refl)]); (done || lia). }
  assert (d = false ↔ (task_has_idle_policy t = true → idle_policy pol = false →
    nice_to_rlimit (task_nice t) <= rlim_nice t)) as Hd.
  { subst d. destruct (task_has_idle_policy t), (idle_policy pol),
      (Z.leb_spec (nice_to_rlimit (task_nice t)) (rlim_nice t)); cbn;
      (split; [|intros Hx; try specialize (Hx eq_refl eq_refl)]); (done || lia). }
  assert (o = false ↔ (euid tc = euid t ∨ euid tc = uid t)) as Ho.
  { subst o. destruct (Z.eqb_spec (euid tc) (euid t)), (Z.eqb_spec (euid tc) (uid t)); cbn; naive_solver. }
  assert (f = false ↔ (sched_reset_on_fork t = true → rof = true)) as Hf.
  { subst f. destruct (sched_reset_on_fork t), rof; cbn; naive_solver. }
  rewrite <-Ha, <-Hb, <-Hd, <-Ho, <-Hf in HY, HN. clearbody a b d o f.
  destruct (a || b || dl_policy pol || d || o || f) eqn:Hall.
  - apply HN; [|done]. intros [?|(Ho'&Hdl&Ha'&Hb'&Hd'&Hf')]; [done|]. by rewrite Ha', Hb', Hdl, Hd', Ho', Hf' in Hall.
  - rewrite !orb_false_iff in Hall. apply HY. right. tauto.
Qed.

Lemma clamp_scale_test v : - 2 ^ 31 <= v < 2 ^ 31 → (SCHED_CAPACITY_SCALE + 1 <? wrap32 (v + 1)) = false ↔ clamp_in_scale v.
Proof.
  intros Hv. unfold clamp_in_scale, SCHED_CAPACITY_SCALE. rewrite Z.ltb_ge.
  destruct (Z.eq_dec v (2 ^ 31 - 1)) as [->|]; [split; [by right|intros _; pow_lia]|].
  assert (wrap32 (v + 1) = v + 1) as -> by pow_lia. lia.
Qed.

Lemma wp_uclamp_validate s p t attr Q :
  k_tasks s !! p = Some t →
  (clamps_admitted t attr → Q 0 (s <| k_uclamp ::= λ g, g <| sched_uclamp_used := true |> |>)) →
  (¬ clamps_admitted t attr → Q (- EINVAL) s) →
  wp (uclamp_validate p attr) s Q.
Proof.
  intros Ht HY HN. unfold uclamp_validate. wp_steps. unfold clamps_admitted in HY, HN.
  assert (∀ v, - 2 ^ 31 <= wrap32 v < 2 ^ 31) as Hw by (intros; pow_lia).
  set (lo := if has (sched_flags attr) SCHED_FLAG_UTIL_CLAMP_MIN then _ else _) in *.
  set (hi := if has (sched_flags attr) SCHED_FLAG_UTIL_CLAMP_MAX then _ else _) in *.
  destruct (has (sched_flags attr) SCHED_FLAG_UTIL_CLAMP_MIN && _) eqn:Hlo.
  { wp_steps. apply HN. intros (Hm&_). apply andb_true_iff in Hlo as [Hh Hlo]. specialize (Hm Hh).
    apply clamp_scale_test in Hm; [congruence|]. subst lo. rewrite Hh. apply Hw. }
  destruct (has (sched_flags attr) SCHED_FLAG_UTIL_CLAMP_MAX && _) eqn:Hhi.
  { wp_steps. apply HN. intros (_&Hm&_). apply andb_true_iff in Hhi as [Hh Hhi]. specialize (Hm Hh).
    apply clamp_scale_test in Hm; [congruence|]. subst hi. rewrite Hh. apply Hw. }
  destruct (negb (lo =? -1) && negb (hi =? -1) && (hi <? lo)) eqn:Hord; wp_steps.
  - apply HN. intros (_&_&Ho). lia.
  - apply HY. split_and!; [..|lia]; intros Hh; (rewrite Hh in Hlo || rewrite Hh in Hhi); apply clamp_scale_test.
    all: try done. all: subst lo hi; rewrite Hh; apply Hw.
Qed.

(** C35: The checks before a policy change modify no task and no run queue, and decide
    exactly: a request is let through if and only if its policy is one the kernel has, its
    flags and priority fit the policy, the caller may make it, neither the frequency
    governor's flag nor the security module speaks against it, and its utilization clamps
    pass the comparison of signed numbers in [clamps_admitted]; every other request gets
    an error.  On the way, clamps that pass enable utilization clamping. *)
Theorem setscheduler_check_spec s p t r tc attr user pol :
  k_tasks s !! p = Some t → k_rqs s !! k_cpu s = Some r → k_tasks s !! curr r = Some tc →
  let newpol := if pol <? 0 then policy t else pol in
  let rof := if pol <? 0 then sched_reset_on_fork t else has (sched_flags attr) SCHED_FLAG_RESET_ON_FORK in
  wp (setscheduler_check p attr user pol) s (λ res s',
    match res with
    | inl err => err ≠ 0 ∧ s' = s ∧ ¬ admitted tc t attr user pol newpol rof
    | inr x => x = (newpol, rof) ∧ admitted tc t attr user pol newpol rof ∧
        s' = if has (sched_flags attr) SCHED_FLAG_UTIL_CLAMP
             then s <| k_uclamp ::= λ g, g <| sched_uclamp_used := true |> |> else s
    end).
Proof.
  intros Ht Hr Htc newpol rof. unfold setscheduler_check. wp_steps. fold newpol rof.
  destruct (negb (pol <? 0) && negb (valid_policy newpol)) eqn:Hpol.
  { wp_steps. split_and!; [done..|]. intros [Hv _ _ _]. destruct (Z.ltb_spec pol 0); [done|]. by rewrite Hv in Hpol by lia. }
  destruct (Z.eqb_spec (Z.land (sched_flags attr) (Z.lnot (Z.lor SCHED_FLAG_ALL SCHED_FLAG_SUGOV))) 0)
    as [Hfl|Hfl]; cbn [negb]; [|wp_steps; split_and!; [done..|]; by intros [_ [? _] _ _]].
  destruct (Z.ltb_spec (MAX_RT_PRIO - 1) (sched_priority attr)) as [Hpr|Hpr];
    [wp_steps; split_and!; [done..|]; intros [_ (_&?&_) _ _]; lia|].
  assert ((dl_policy newpol && negb (__checkparam_dl attr)) ||
    negb (eqb (rt_policy newpol) (negb (sched_priority attr =? 0))) = false ↔ attr_valid attr newpol) as Hav.
  { unfold attr_valid. destruct (dl_policy newpol), (__checkparam_dl attr), (rt_policy newpol), (Z.eqb_spec (sched_priority attr) 0);
      cbn; naive_solver. }
  destruct (_ || _); [wp_steps; split_and!; [done..|]; intros [_ Hv _ _]; by apply Hav in Hv|].
  pose proof (proj1 Hav eq_refl) as Hvalid. clear Hav.
  assert (0 <= pol → valid_policy newpol = true) as Hvp.
  { intros Hp. destruct (Z.ltb_spec pol 0); [lia|]. by destruct (valid_policy newpol). }
  apply wp_bind. apply (wp_mono _ _ (λ ret s', s' = s ∧ (ret = 0 ↔ (user = true → permitted tc t attr newpol rof ∧
    has (sched_flags attr) SCHED_FLAG_SUGOV = false ∧ security_task_setscheduler t = 0)))).
  { destruct user; [|by wp_steps]. apply wp_bind. eapply wp_user_check; [done..| |].
    - intros Hp. cbn [Z.eqb negb]. destruct (has (sched_flags attr) SCHED_FLAG_SUGOV); wp_steps; (split; [done|]); [|naive_solver].
      split; [done|]. intros Hx. by destruct (Hx eq_refl) as (_&?&_).
    - intros Hp _. wp_steps. split; [done|]. split; [done|]. intros Hx. by destruct (Hx eq_refl). }
  intros ret s1 [-> Huser]. destruct (Z.eqb_spec ret 0) as [->|Hret]; cbn [negb]; cycle 1.
  { wp_steps. split_and!; [done..|]. intros [_ _ Hu _]. by apply Hret, Huser. }
  apply wp_bind. destruct (has (sched_flags attr) SCHED_FLAG_UTIL_CLAMP) eqn:Huc.
  - eapply wp_uclamp_validate; [done| |]; intros Hcl; cbn [Z.eqb negb]; wp_steps.
    + split_and!; [done| |done]. split; [done..|by apply Huser|done].
    + split_and!; [done..|]. intros [_ _ _ Hc]. by apply Hcl, Hc.
  - wp_steps. split_and!; [done| |done]. split; [done..|by apply Huser|by rewrite Huc].
Qed.

(** Without CAP_SYS_NICE a request passes the permission check only as [permitted] says,
    and is refused with EPERM otherwise. *)
Theorem unprivileged_setscheduler s p t r tc attr pol rof :
  k_tasks s !! p = Some t → k_rqs s !! k_cpu s = Some r → k_tasks s !! curr r = Some tc →
  capable_sys_nice = false →
  wp (user_check_sched_setscheduler p attr pol rof) s (λ ret s', s' = s ∧
    (ret = 0 ∨ ret = - EPERM) ∧
    (ret = 0 ↔
      (euid tc = euid t ∨ euid tc = uid t) ∧ dl_policy pol = false ∧
      (fair_policy pol = true → task_nice t <= sched_nice attr ∨ nice_to_rlimit (sched_nice attr) <= rlim_nice t) ∧
      (rt_policy pol = true → (pol = policy t ∨ rlim_rtprio t ≠ 0) ∧
         (sched_priority attr <= rt_priority t ∨ sched_priority attr <= rlim_rtprio t)) ∧
      (task_has_idle_policy t = true → idle_policy pol = false → nice_to_rlimit (task_nice t) <= rlim_nice t) ∧
      (sched_reset_on_fork t = true → rof = true))).
Proof.
  intros Ht Hr Htc Hcap. eapply wp_user_check; [done..| |].
  - intros [?|Hp]; [congruence|]. split; [done|]. split; [by left|]. by split.
  - intros Hp _. split; [done|]. split; [by right|]. split; [done|]. intros Hx. destruct Hp. by right.
Qed.

(** * Operations the HVF class does not have *)

(** [sched_yield] by an HVF task calls the missing [yield_task]. *)
Theorem sched_yield_hvf_oops s r t :
  k_rqs s !! k_cpu s = Some r → k_tasks s !! curr r = Some t → sched_class t = hvf_sched_class →
  sys_sched_yield s = Oops null_call.
Proof.
  intros Hr Ht Hcl. unfold sys_sched_yield, do_sched_yield, ops_of, current, smp_processor_id, get,
    cpu_rq, task, mbind, M_bind, mret, M_ret.
  by rewrite Hr, Ht, Hcl.
Qed.

Lemma set_load_weight_hvf s p t :
  k_tasks s !! p = Some t → sched_class t = hvf_sched_class → policy t ≠ SCHED_IDLE →
  MAX_RT_PRIO <= static_prio t < MAX_RT_PRIO + NICE_WIDTH →
  wp (set_load_weight p true) s (λ _ s', ∃ w iw, s' = s <| k_tasks := <[p := t <| se_weight := w |>
    <| se_inv_weight := iw |>]> (k_tasks s) |>).
Proof.
  intros Ht Hcl Hpol Hsp. unfold set_load_weight. wp_steps.
  unfold task_has_idle_policy, idle_policy. destruct (Z.eqb_spec (policy t) SCHED_IDLE); [done|].
  unfold table_entry, MAX_RT_PRIO, NICE_WIDTH in *.
  destruct (Z.ltb_spec (static_prio t - 100) 0); [lia|].
  destruct (lookup_lt_is_Some_2 sched_prio_to_weight (Z.to_nat (static_prio t - 100))) as [w ->];
    [cbn; lia|].
  destruct (lookup_lt_is_Some_2 sched_prio_to_wmult (Z.to_nat (static_prio t - 100))) as [iw ->];
    [cbn; lia|].
  wp_steps. rewrite Hcl. cbn [class_ops hvf_class_ops op_reweight_task]. wp_steps. by eexists _, _.
Qed.

(** Changing the nice value of a sleeping HVF task calls the missing
    [prio_changed]. *)
Theorem set_user_nice_hvf_oops s p t r nice :
  k_tasks s !! p = Some t → k_rqs s !! cpu t = Some r → sched_class t = hvf_sched_class →
  policy t = SCHED_HVF → on_rq t = 0 → curr r ≠ p →
  MIN_NICE <= nice <= MAX_NICE → task_nice t ≠ nice →
  set_user_nice p nice s = Oops null_call.
Proof.
  intros Ht Hr Hcl Hpol Hon Hcur Hn Hne.
  unfold set_user_nice. ok_step.
  replace ((task_nice t =? nice) || (nice <? MIN_NICE) || (MAX_NICE <? nice)) with false by lia.
  ok_step. unfold task_has_dl_policy, task_has_rt_policy. rewrite Hpol.
  cbn [dl_policy rt_policy SCHED_HVF SCHED_DEADLINE SCHED_FIFO SCHED_RR Z.eqb Pos.eqb orb].
  unfold task_on_rq_queued, task_current_donor, donor. rewrite Hon, bool_decide_false by done.
  cbn [Z.eqb TASK_ON_RQ_QUEUED when]. do 2 ok_step. ok_step.
  set (t1 := t <| static_prio := NICE_TO_PRIO nice |>).
  set (s1 := s <| k_tasks := _ |>).
  assert (wp (set_load_weight p true) s1 (λ _ s', ∃ w iw, s' = s1 <| k_tasks := <[p := t1
    <| se_weight := w |> <| se_inv_weight := iw |>]> (k_tasks s1) |>)) as Hw.
  { apply set_load_weight_hvf; [apply lookup_insert_eq|exact Hcl|by rewrite (Hpol : policy t1 = _)|].
    change (static_prio t1) with (nice + 120).
    unfold MAX_RT_PRIO, NICE_WIDTH, MIN_NICE, MAX_NICE in *. lia. }
  apply wp_inv in Hw as ([]&s2&Hok&w&iw&->).
  erewrite bind_ok by exact Hok.
  erewrite bind_ok by (apply task_ok, lookup_insert_eq).
  erewrite bind_ok by (apply upd_task_ok, lookup_insert_eq). do 2 ok_step.
  unfold ops_of. erewrite bind_ok by (erewrite bind_ok by (apply task_ok, lookup_insert_eq); reflexivity).
  cbn [effective_prio]. 
  match goal with |- (call_null (op_prio_changed (class_ops ?x)) ≫= _) _ = _ =>
    replace x with hvf_sched_class by (symmetry; exact Hcl) end.
  done.
Qed.

(** Changing the affinity of a sleeping HVF task calls the missing
    [set_cpus_allowed]; this is the last step of [sched_setaffinity]. *)
Theorem set_cpus_allowed_hvf_oops s p t r ctx :
  k_tasks s !! p = Some t → k_rqs s !! cpu t = Some r → sched_class t = hvf_sched_class →
  on_rq t = 0 → curr r ≠ p →
  __do_set_cpus_allowed p ctx s = Oops null_call.
Proof.
  intros Ht Hr Hcl Hon Hcur. unfold __do_set_cpus_allowed. do 2 ok_step.
  unfold task_on_rq_queued, task_current_donor, donor. rewrite Hon, bool_decide_false by done.
  cbn [Z.eqb TASK_ON_RQ_QUEUED when]. do 2 ok_step.
  unfold ops_of. erewrite bind_ok by (erewrite bind_ok by (by apply task_ok); reflexivity).
  rewrite Hcl. done.
Qed.

(** SCHED_HVF is a policy the kernel accepts, but [sched_get_priority_max] and
    [sched_get_priority_min] refuse it; for every other valid policy they give the
    range that [__sched_setscheduler] admits. *)
Theorem priority_range_of_policy pol :
  valid_policy pol = true →
  if bool_decide (pol = SCHED_HVF) then
    sys_sched_get_priority_max pol = - EINVAL ∧ sys_sched_get_priority_min pol = - EINVAL
  else ∀ prio, 0 <= prio <= MAX_RT_PRIO - 1 → (rt_policy pol = true ↔ prio ≠ 0) ↔
    sys_sched_get_priority_min pol <= prio <= sys_sched_get_priority_max pol.
Proof.
  unfold valid_policy, idle_policy, fair_policy, normal_policy, rt_policy, dl_policy, hvf_policy,
    SCHED_IDLE, SCHED_EXT, SCHED_NORMAL, SCHED_BATCH, SCHED_FIFO, SCHED_RR, SCHED_DEADLINE, SCHED_HVF.
  intros Hv. rewrite !orb_true_iff, !Z.eqb_eq in Hv.
  destruct Hv as [[[[->|[[->| ->]| ->]]|[->| ->]]| ->]| ->]; cbn; try done;
    intros prio Hp; unfold MAX_RT_PRIO in *; naive_solver lia.
Qed.

(** The range check of a requested clamp is done on signed integers and lets
    through every negative value, not only -1: the request is then stored
    truncated to the 11 bits of the clamp, which can exceed the scale. *)
Theorem uclamp_validate_negative s p t attr :
  k_tasks s !! p = Some t → has (sched_flags attr) SCHED_FLAG_UTIL_CLAMP_MIN = true →
  has (sched_flags attr) SCHED_FLAG_UTIL_CLAMP_MAX = false →
  2 ^ 31 <= sched_util_min attr < 2 ^ 32 → 0 <= uc_value (uclamp_req UCLAMP_MAX t) →
  wp (uclamp_validate p attr) s (λ ret _, ret = 0) ∧
  ∀ u, uc_value (uclamp_se_set (sched_util_min attr) true u) = sched_util_min attr mod 2 ^ 11.
Proof.
  intros Ht Hmin Hmax Hv Hm. split; [|done]. unfold uclamp_validate. wp_steps.
  rewrite Hmin, Hmax. cbn [andb].
  assert (wrap32 (sched_util_min attr) = sched_util_min attr - 2 ^ 32) as -> by pow_lia.
  destruct (Z.ltb_spec (SCHED_CAPACITY_SCALE + 1) (wrap32 (sched_util_min attr - 2 ^ 32 + 1))) as [Hx|Hx].
  { exfalso. unfold SCHED_CAPACITY_SCALE in Hx. pow_lia. }
  destruct (Z.ltb_spec (uc_value (uclamp_req UCLAMP_MAX t)) (sched_util_min attr - 2 ^ 32)) as [Hy|Hy].
  { exfalso. change (2 ^ 32) with 4294967296 in *. lia. }
  rewrite andb_false_r. by wp_steps.
Qed.
(** * Entering the HVF class *)

(** What a policy change decides of a task. *)
Definition policy_view t :=
  (policy t, sched_class t, prio t, rt_priority t, pars_set t, deadline_1 t, deadline_2 t, sched_reset_on_fork t).
(** The operation ends and does not touch this of task [p]; it may change all else. *)
Definition keeps_policy (m : M unit) p s : Prop :=
  ∀ t, k_tasks s !! p = Some t →
  ∃ s' t', m s = Ok (tt, s') ∧ k_tasks s' !! p = Some t' ∧ policy_view t' = policy_view t.

(** What is needed of the class a task leaves and of priority inheritance: setting
    the load weight of a task that is not queued stores a weight in it, the class lets
    the task go with its new policy, and the walk of the chain of locks the task waits
    for changes their owners and not the task. *)
Record leaves_tasks (cl : sched_class_id) : Prop := {
  lt_reweight f c p lw s t : op_reweight_task (other_class cl) = Some f →
    k_tasks s !! p = Some t → on_rq t = 0 →
    wp (f c p lw) s (λ _ s', ∃ w iw, s' = s <| k_tasks := <[p := t <| se_weight := w |>
      <| se_inv_weight := iw |>]> (k_tasks s) |>);
  lt_switched_from f c p s : op_switched_from (other_class cl) = Some f → keeps_policy (f c p) p s;
  lt_adjust p s : keeps_policy (rt_mutex_adjust_pi p) p s;
}.

Lemma set_load_weight_sleeping s p t :
  k_tasks s !! p = Some t → sched_class t ≠ hvf_sched_class → leaves_tasks (sched_class t) →
  on_rq t = 0 → policy t ≠ SCHED_IDLE →
  MAX_RT_PRIO <= static_prio t < MAX_RT_PRIO + NICE_WIDTH →
  wp (set_load_weight p true) s (λ _ s', ∃ w iw, s' = s <| k_tasks := <[p := t <| se_weight := w |>
    <| se_inv_weight := iw |>]> (k_tasks s) |>).
Proof.
  intros Ht Hcl Hlt Hon Hpol Hsp. unfold set_load_weight. wp_steps.
  unfold task_has_idle_policy, idle_policy. destruct (Z.eqb_spec (policy t) SCHED_IDLE); [done|].
  unfold table_entry, MAX_RT_PRIO, NICE_WIDTH in *.
  destruct (Z.ltb_spec (static_prio t - 100) 0); [lia|].
  destruct (lookup_lt_is_Some_2 sched_prio_to_weight (Z.to_nat (static_prio t - 100))) as [w ->];
    [cbn; lia|].
  destruct (lookup_lt_is_Some_2 sched_prio_to_wmult (Z.to_nat (static_prio t - 100))) as [iw ->];
    [cbn; lia|].
  wp_steps.
  assert (class_ops (sched_class t) = other_class (sched_class t)) as -> by by destruct (sched_class t).
  destruct (op_reweight_task (other_class (sched_class t))) as [f|] eqn:Hf.
  - by eapply lt_reweight.
  - wp_steps. by eexists _, _.
Qed.

(** The state is [s0] with the task [p] replaced by one that satisfies [φ]. *)
Definition at_task (s0 : kstate) p (φ : task_struct → Prop) s : Prop :=
  ∃ t, s = s0 <| k_tasks := <[p := t]> (k_tasks s0) |> ∧ φ t.

Lemma at_task_refl s p t φ : k_tasks s !! p = Some t → φ t → at_task s p φ s.
Proof. intros Ht Hφ. exists t. split; [|done]. unfold upd. rewrite insert_id by done. by destruct s. Qed.
Lemma at_task_task s0 s p φ t : at_task s0 p φ s → k_tasks s !! p = Some t → φ t.
Proof. intros (t'&->&Hφ). cbn. rewrite lookup_insert_eq. by intros [= <-]. Qed.
Lemma at_task_lookup s0 s p φ : at_task s0 p φ s → ∃ t, k_tasks s !! p = Some t ∧ φ t.
Proof. intros (t'&->&Hφ). exists t'. split; [apply lookup_insert_eq|done]. Qed.
Lemma at_task_upd s0 s p φ ψ t f :
  at_task s0 p φ s → k_tasks s !! p = Some t → ψ (f t) →
  at_task s0 p ψ (s <| k_tasks := <[p := f t]> (k_tasks s) |>).
Proof. intros (t'&->&_) _ Hψ. exists (f t). split; [|done]. unfold upd. cbn. by rewrite insert_insert_eq. Qed.

Lemma wp_at_upd s0 s p φ ψ f Q :
  at_task s0 p φ s → (∀ t, φ t → ψ (f t)) → (∀ s', at_task s0 p ψ s' → Q tt s') →
  wp (upd_task p f) s Q.
Proof.
  intros Hs Hf HQ. destruct (at_task_lookup _ _ _ _ Hs) as (t&Ht&Hφ).
  eapply wp_upd_task; [done|]. apply HQ. eapply at_task_upd; [done|done|auto].
Qed.
Lemma wp_at_task s0 s p φ Q :
  at_task s0 p φ s → (∀ t, φ t → k_tasks s !! p = Some t → Q t s) → wp (task p) s Q.
Proof.
  intros Hs HQ. destruct (at_task_lookup _ _ _ _ Hs) as (t&Ht&Hφ).
  eapply wp_task; [done|]. by apply HQ.
Qed.

(** The fields of a task that a change of policy has to keep. *)
Definition kept_fields t :=
  (hvf t, deadline_1 t, deadline_2 t, computation_time t, pars_set t, cpu t, on_rq t, static_prio t).

(** [t'] is [t] on its way to the HVF class. *)
Definition becoming_hvf t (cl : sched_class_id) (rof : bool) t' : Prop :=
  kept_fields t' = kept_fields t ∧ sched_class t' = cl ∧ sched_reset_on_fork t' = rof.

Lemma setscheduler_params_hvf s0 s p t cl rof attr Q :
  at_task s0 p (becoming_hvf t cl rof) s → cl ≠ hvf_sched_class → leaves_tasks cl →
  on_rq t = 0 → sched_policy attr = SCHED_HVF →
  MAX_RT_PRIO <= static_prio t < MAX_RT_PRIO + NICE_WIDTH →
  (∀ s', at_task s0 p (λ t', becoming_hvf t cl rof t' ∧ policy t' = SCHED_HVF ∧
     rt_priority t' = sched_priority attr) s' → Q tt s') →
  wp (__setscheduler_params p attr) s Q.
Proof.
  intros Hs Hcl Hlt Hon Hpol Hsp HQ. unfold __setscheduler_params. rewrite Hpol.
  change (wrap32 SCHED_HVF) with SCHED_HVF.
  cbn [SCHED_HVF SETPARAM_POLICY Z.eqb Pos.eqb dl_policy fair_policy normal_policy
    SCHED_DEADLINE SCHED_EXT SCHED_NORMAL SCHED_BATCH orb when].
  set (φ1 t' := becoming_hvf t cl rof t' ∧ policy t' = SCHED_HVF).
  set (φ2 t' := φ1 t' ∧ rt_priority t' = sched_priority attr).
  apply wp_bind. eapply wp_at_task; [done|]. intros t1 _ _.
  apply wp_bind. eapply (wp_at_upd _ _ _ _ φ1); [done|by intros t2 Ht2; split|]. clear s Hs t1. intros s Hs.
  wp_steps. eapply (wp_at_upd _ _ _ _ φ1); [done| |].
  { intros t2 Ht2. repeat case_match; done. }
  clear s Hs. intros s Hs. wp_steps.
  eapply (wp_at_upd _ _ _ _ φ2); [done|by intros t2 Ht2; split|].
  clear s Hs. intros s Hs. wp_steps. eapply (wp_at_upd _ _ _ _ φ2); [done|by intros t2 Ht2|].
  clear s Hs. intros s Hs. destruct (at_task_lookup _ _ _ _ Hs) as (t1&Ht1&((Hk&Hc&Hr)&Hp)&Hrt).
  injection Hk as Hhvf Hd1 Hd2 Hct Hps Hcpu Honr Hst. eapply wp_mono.
  { apply (set_load_weight_sleeping s p t1); [done|congruence|congruence|congruence| |congruence].
    by rewrite Hp. }
  intros [] s' (w&iw&->). apply HQ. destruct Hs as (t2&->&_). eexists. split.
  - unfold upd. cbn. by rewrite insert_insert_eq.
  - split; [split|split; [exact Hp|exact Hrt]]; [|done].
    unfold kept_fields. cbn. congruence.
Qed.

Lemma setscheduler_uclamp_reset s0 s p attr (ψ : task_struct → Prop) Q :
  sched_flags attr = 0 → (∀ t id f, ψ t → ψ (set_uclamp_req id f t)) →
  at_task s0 p ψ s → (∀ s', at_task s0 p ψ s' → Q tt s') →
  wp (__setscheduler_uclamp p attr) s Q.
Proof.
  intros Hfl Hψ Hs HQ. unfold __setscheduler_uclamp. rewrite Hfl.
  change (negb (has 0 SCHED_FLAG_UTIL_CLAMP)) with true. cbn [clamp_ids for_each_clamp_id].
  assert (∀ id s Q, at_task s0 p ψ s → (∀ s', at_task s0 p ψ s' → Q tt s') →
    wp (t ← task p; when (uclamp_reset attr id (uclamp_req id t))
      (g ← get k_uclamp;
       let value := if rt_task t && bool_decide (id = UCLAMP_MIN)
                    then sysctl_sched_uclamp_util_min_rt_default g else uclamp_none id in
       upd_task p (set_uclamp_req id (uclamp_se_set value false)))) s Q) as Hid.
  { clear s Hs Q HQ. intros id s Q Hs HQ. apply wp_bind. eapply wp_at_task; [done|]. intros t _ _.
    apply wp_when; intros _; [|by apply HQ]. wp_steps.
    eapply (wp_at_upd _ _ _ ψ ψ); [done|auto|done]. }
  do 2 apply wp_bind. apply Hid; [done|]. clear s Hs. intros s Hs.
  apply wp_bind. apply Hid; [done|]. clear s Hs. intros s Hs. wp_steps. by apply HQ.
Qed.

(** A task that has just been given the policy and class HVF. *)
Definition new_hvf t (prio' : Z) (rof : bool) t' : Prop :=
  kept_fields t' = kept_fields t ∧ sched_class t' = hvf_sched_class ∧ prio t' = prio' ∧
  sched_reset_on_fork t' = rof ∧ policy t' = SCHED_HVF ∧ rt_priority t' = 0.

(** The class-change hooks of a sleeping task that enters the HVF class. *)
Lemma enter_hvf_hooks s0 s p t c prev_class np oldprio pi rof :
  at_task s0 p (new_hvf t np rof) s → prev_class ≠ hvf_sched_class → leaves_tasks prev_class →
  clock_sane s0 → hvf_sane t →
  wp (check_class_changing c p prev_class;;
      check_class_changed c p prev_class oldprio;;
      when pi (rt_mutex_adjust_pi p)) s (λ _ s',
    ∃ t', k_tasks s' !! p = Some t' ∧ policy t' = SCHED_HVF ∧ sched_class t' = hvf_sched_class ∧
      prio t' = np ∧ rt_priority t' = 0 ∧ pars_set t' = true ∧
      deadline_1 t' < deadline_2 t' ∧ sched_reset_on_fork t' = rof).
Proof.
  intros Hs1 Hcl Hlt Hclk Hsane.
  destruct (at_task_lookup _ _ _ _ Hs1) as (t1&Ht1&Hk1&Hc1&Hp1&Hro1&Hpol1&Hrt1).
  injection Hk1 as Hhvf Hd1 Hd2 Hct Hps Hcpu Honr Hst.
  unfold check_class_changing. wp_steps. rewrite Hc1. cbn [class_ops hvf_class_ops op_switching_to].
  rewrite bool_decide_true by done. cbn [when]. unfold switching_to_hvf.
  eapply wp_give_default; [done| |destruct Hs1 as (?&->&_); exact Hclk|].
  { destruct Hsane. split; by rewrite ?Hhvf, ?Hct, ?Hps, ?Hd1, ?Hd2. }
  intros s2 t2 Hts Hto Hsane2 Hps2. wp_steps. unfold check_class_changed.
  pose proof (touch_state_lookup _ _ _ _ Hts) as Ht2. wp_steps.
  assert (sched_class t2 = hvf_sched_class) as Hc2.
  { destruct Hto as (_&?&?&?&?&?&->). exact Hc1. }
  rewrite Hc2, bool_decide_true by done.
  assert (class_ops prev_class = other_class prev_class) as -> by by destruct prev_class.
  apply wp_bind. apply (wp_mono _ _ (λ _ s', ∃ t', k_tasks s' !! p = Some t' ∧ policy_view t' = policy_view t2)).
  { destruct (op_switched_from (other_class prev_class)) as [f|] eqn:Hf; [|apply wp_skip; by exists t2].
    destruct (lt_switched_from _ Hlt f c p s2 Hf t2 Ht2) as (s'&t'&Hok&Hk). eapply wp_ok; [done|]. by exists t'. }
  intros [] s3 (t3&Ht3&Hv3). pose proof Hv3 as Hv3'. injection Hv3' as _ Hc3 _ _ _ _ _ _.
  unfold ops_of. apply wp_bind, wp_bind. eapply wp_task; [done|]. wp_steps.
  rewrite Hc3, Hc2. cbn [class_ops hvf_class_ops op_switched_to]. wp_steps. unfold switched_to_hvf. wp_steps.
  apply (wp_mono _ _ (λ _ s', ∃ t', k_tasks s' !! p = Some t' ∧ policy_view t' = policy_view t2)).
  { destruct pi; [|apply wp_skip; by exists t3]. cbn [when]. destruct (lt_adjust _ Hlt p s3 t3 Ht3) as (s'&t'&Hok&Hk&Hv).
    eapply wp_ok; [done|]. exists t'. split; [done|congruence]. }
  intros [] s4 (t4&Ht4&Hv4). exists t4. split; [done|]. injection Hv4 as -> -> -> -> -> -> -> ->.
  destruct (sane_pars _ Hsane2 Hps2) as [[_ Hd] _].
  destruct Hto as (_&?&?&?&?&?&->). split_and!; done.
Qed.

(** C34: A sleeping task of another class that is given the policy SCHED_HVF, with no
    flags and while no waiter for a lock it owns lends it a priority, ends up in the HVF
    class with parameters set and the priority of its nice value; the walk of the chain of
    locks at the end may change any other task. *)
Theorem setscheduler_to_hvf s p t r attr pi rof :
  k_tasks s !! p = Some t → k_rqs s !! cpu t = Some r → sched_class t ≠ hvf_sched_class →
  leaves_tasks (sched_class t) → on_rq t = 0 → curr r ≠ p → sched_delayed t = false →
  pi_top_task t = None → MAX_RT_PRIO <= static_prio t < MAX_RT_PRIO + NICE_WIDTH →
  sched_policy attr = SCHED_HVF → sched_flags attr = 0 → sched_priority attr = 0 →
  MIN_NICE <= sched_nice attr <= MAX_NICE →
  clock_sane s → hvf_sane t →
  wp (setscheduler_apply p attr pi SCHED_HVF rof) s (λ ret s', ret = 0 ∧
    ∃ t', k_tasks s' !! p = Some t' ∧ policy t' = SCHED_HVF ∧ sched_class t' = hvf_sched_class ∧
      prio t' = NICE_TO_PRIO (sched_nice attr) ∧ rt_priority t' = 0 ∧ pars_set t' = true ∧
      deadline_1 t' < deadline_2 t' ∧ sched_reset_on_fork t' = rof).
Proof.
  intros Ht Hr Hcl Hlt Hon Hcur Hdel Hpi Hsp Hpol Hfl Hpr Hnice Hclk Hsane.
  unfold setscheduler_apply. rewrite Hfl, Hpr.
  apply wp_bind. eapply wp_upd_task; [done|].
  set (t0 := t <| sched_reset_on_fork := rof |>).
  assert (at_task s p (becoming_hvf t (sched_class t) rof) (s <| k_tasks := <[p := t0]> (k_tasks s) |>)) as Hs1
    by (by exists t0).
  set (s1 := s <| k_tasks := <[p := t0]> (k_tasks s) |>) in *.
  assert (k_tasks s1 !! p = Some t0) as Ht0 by apply lookup_insert_eq.
  apply wp_bind. eapply wp_task; [done|].
  change (__normal_prio SCHED_HVF 0 (sched_nice attr)) with (NICE_TO_PRIO (sched_nice attr)).
  set (np := NICE_TO_PRIO (sched_nice attr)).
  assert (__setscheduler_class SCHED_HVF np = hvf_sched_class) as Hnc.
  { assert (100 <= np) by (subst np; unfold NICE_TO_PRIO, DEFAULT_PRIO, MIN_NICE in *; lia).
    unfold __setscheduler_class, dl_prio, rt_prio, MAX_DL_PRIO, MAX_RT_PRIO.
    replace (np <? 0) with false by lia. replace (np <? 100) with false by lia.
    by rewrite andb_false_r. }
  apply wp_bind. apply (wp_mono _ _ (λ v s', v = np ∧ s' = s1)).
  { destruct pi; [|done]. unfold rt_effective_prio, __rt_effective_prio. apply wp_bind.
    eapply wp_task; [done|]. change (pi_top_task t0) with (pi_top_task t). rewrite Hpi. done. }
  intros v s2 [-> ->]. rewrite Hnc.
  change (sched_delayed t0) with (sched_delayed t). rewrite Hdel, andb_false_r. cbn [when].
  apply wp_bind, wp_skip, wp_bind. eapply wp_task; [done|]. 
  apply wp_bind. eapply wp_rq; [exact Hr|]. 
  unfold task_on_rq_queued, task_current_donor, donor. change (on_rq t0) with (on_rq t).
  rewrite Hon, bool_decide_false by done. cbn [Z.eqb TASK_ON_RQ_QUEUED when].
  do 2 apply wp_bind, wp_skip. change (negb (has 0 SCHED_FLAG_KEEP_PARAMS)) with true. cbn [when].
  apply wp_bind, wp_bind. eapply setscheduler_params_hvf; [done..|]. clear s1 Hs1 Ht0. intros s1 Hs1.
  set (ψ := new_hvf t np rof).
  eapply (wp_at_upd _ _ _ _ ψ); [done| |].
  { intros t1 ((Hk&_&Hro)&Hp&Hrt). rewrite Hpr in Hrt. split_and!; done. }
  clear s1 Hs1. intros s1 Hs1.
  apply wp_bind. eapply (setscheduler_uclamp_reset _ _ _ _ ψ); [done|by intros ? [] ?|done|].
  clear s1 Hs1. intros s1 Hs1.
  pose proof (enter_hvf_hooks _ _ _ _ (cpu t0) _ _ (prio t0) pi rof Hs1 Hcl Hlt Hclk Hsane) as Hwp.
  change (sched_class t0) with (sched_class t). unfold wp, mbind, M_bind in *.
  destruct (check_class_changing _ _ _ s1) as [[[] s2]|]; [|done]. cbn [skip mret M_ret] in *.
  destruct (check_class_changed _ _ _ _ s2) as [[[] s3]|]; [|done].
  by destruct (when _ _ s3) as [[[] s4]|].
Qed.
End spec.
