(* ===== verification/Wakeup.v ===== *)
(** Waking tasks and starting new ones (kernel/sched/core.c): the choice of a CPU,
    migration to it, [try_to_wake_up] with the wake list of a remote CPU, the
    scheduler's part of fork, and [wake_up_new_task].  The reset of the HVF
    parameters of a child is in [copy_process] (kernel/fork.c).

    Wake-up statistics, rseq, perf, PSI and the average idle time are not part of the
    state. *)
From S2P Require Import Prelude Rbtree KState HvfValue HvfClass HvfSmp Policy Uclamp Core Schedule Load.

Definition PF_KTHREAD := 0x00200000.

(** The state of the CPUs (online, active, being removed), the topology, cpusets, the
    scheduler feature TTWU_QUEUE, per-CPU kernel threads, and what other CPUs do until
    they have switched away from a task. *)
Class CpuLib := {
  cpu_online : Z → bool;
  cpu_active : Z → bool;
  cpu_dying : Z → bool;
  task_cpu_possible : Z → task_struct → bool;
  kthread_is_per_cpu : task_struct → bool;
  cpu_to_node : Z → Z;
  cpumask_of_node : Z → Z;
  cpuset_cpus_allowed_fallback : tid → M bool;
  task_cpu_fallback_mask : task_struct → Z;
  cpus_share_cache : Z → Z → bool;
  sched_feat_TTWU_QUEUE : bool;
  until_off_cpu : tid → M unit;
}.

(** The parts of other classes a fork initialises (deadline.c, ext.c, fair.c): the
    words of a fresh deadline entity, the hooks of the extensible class, the base
    slice. *)
Class ForkLib := {
  init_dl_entity : list Z;
  scx_pre_fork : tid → M unit;
  scx_fork : tid → M Z;
  scx_cancel_fork : tid → M unit;
  scx_post_fork : tid → M unit;
  sysctl_sched_base_slice : Z;
}.

Section wakeup.
Context {L : RbLib} {TC : TickConfig} {S : SmpLib} {UC : UclampConfig} {E : Ext}
  {OC : OtherClasses} {CL : CpuLib}.

(** * Choosing a CPU *)

Definition is_migration_disabled (t : task_struct) : bool := negb (migration_disabled t =? 0).

Definition task_allowed_on_cpu (t : task_struct) (c : Z) : bool :=
  if negb (Z.testbit (cpus_ptr t) c) then false
  else if negb (has (t_flags t) PF_KTHREAD) && negb (task_cpu_possible c t) then false
  else true.

Definition is_cpu_allowed (t : task_struct) (c : Z) : bool :=
  if negb (task_allowed_on_cpu t c) then false
  else if is_migration_disabled t then cpu_online c
  else if negb (has (t_flags t) PF_KTHREAD) then cpu_active c
  else if kthread_is_per_cpu t then cpu_online c
  else if cpu_dying c then false
  else cpu_online c.

Definition do_set_cpus_allowed (p : tid) (new_mask : Z) : M unit :=
  __do_set_cpus_allowed p {| ac_new_mask := new_mask; ac_own := false; ac_user_mask := None;
                             ac_flags := SCA_USER |};;
  skip.

(** The first CPU of a mask the task may run on. *)
Definition first_allowed (t : task_struct) (mask : Z) : option Z :=
  head (filter (λ c, is_cpu_allowed t c = true) (mask_cpus mask)).

(** One round of the loop of [select_fallback_rq]: an allowed CPU of the task's mask,
    or [next]. *)
Definition fallback_round (p : tid) (next : M Z) : M Z :=
  t ← task p;
  match first_allowed t (cpus_ptr t) with Some dest_cpu => mret dest_cpu | None => next end.

(** The three rounds: with the task's mask, with the mask the cpuset falls back to, and
    with every CPU the task can run on. *)
Definition select_fallback_rq (c : Z) (p : tid) : M Z :=
  t ← task p;
  let nid := cpu_to_node c in
  match (if nid =? -1 then None else first_allowed t (cpumask_of_node nid)) with
  | Some dest_cpu => mret dest_cpu
  | None =>
      let possible :=
        t ← task p;
        do_set_cpus_allowed p (task_cpu_fallback_mask t);;
        fallback_round p (oops_with kernel_bug) in
      fallback_round p (
        b ← cpuset_cpus_allowed_fallback p;
        if b : bool then fallback_round p possible else possible)
  end.

(** The CPU and the wake flags afterwards. *)
Definition select_task_rq (p : tid) (c : Z) (wake_flags : Z) : M (Z * Z) :=
  t ← task p;
  '(c, wake_flags) ←
    (if (1 <? nr_cpus_allowed t) && negb (is_migration_disabled t) then
       f ← call_null (op_select_task_rq (class_ops (sched_class t)));
       c ← f p c wake_flags;
       mret (c, Z.lor wake_flags WF_RQ_SELECTED)
     else mret (default nr_cpu_ids (head (mask_cpus (cpus_ptr t))), wake_flags));
  t ← task p;
  if negb (is_cpu_allowed t c) then
    c ← select_fallback_rq (cpu t) p;
    mret (c, wake_flags)
  else mret (c, wake_flags).

Definition __set_task_cpu (p : tid) (c : Z) : M unit :=
  upd_task p (λ t, t <| cpu := c |> <| wake_cpu := c |>).

Definition set_task_cpu (p : tid) (new_cpu : Z) : M unit :=
  t ← task p;
  when (negb (cpu t =? new_cpu))
    match op_migrate_task_rq (class_ops (sched_class t)) with
    | Some f => f p new_cpu
    | None => skip
    end;;
  __set_task_cpu p new_cpu.

(** * Waking *)

Definition ttwu_do_wakeup (p : tid) : M unit := upd_task p (λ t, t <| __state := TASK_RUNNING |>).

Definition task_woken (c : Z) (p : tid) : M unit :=
  o ← ops_of p;
  match op_task_woken o with Some f => f c p | None => skip end.

Definition ttwu_do_activate (c : Z) (p : tid) (wake_flags : Z) : M unit :=
  let en_flags := Z.lor ENQUEUE_WAKEUP ENQUEUE_NOCLOCK in
  t ← task p;
  when (sched_contributes_to_load t)
    (upd_rq c (λ r, r <| nr_uninterruptible ::= λ n, u32 (n - 1) |>));;
  let en_flags := if has wake_flags WF_RQ_SELECTED then Z.lor en_flags ENQUEUE_RQ_SELECTED else en_flags in
  let en_flags := if has wake_flags WF_MIGRATED then Z.lor en_flags ENQUEUE_MIGRATED else en_flags in
  when (negb (has wake_flags WF_MIGRATED) && in_iowait t)
    (upd_rq (cpu t) (λ r, r <| nr_iowait ::= λ n, wrap32 (n - 1) |>));;
  activate_task c p en_flags;;
  wakeup_preempt c p wake_flags;;
  ttwu_do_wakeup p;;
  task_woken c p.

Definition ttwu_runnable (p : tid) (wake_flags : Z) : M bool :=
  t ← task p;
  let c := cpu t in
  if task_on_rq_queued t then
    when (sched_delayed t) (enqueue_task c p (Z.lor ENQUEUE_NOCLOCK ENQUEUE_DELAYED));;
    t ← task p;
    when (negb (on_cpu t)) (wakeup_preempt c p wake_flags);;
    ttwu_do_wakeup p;;
    mret true
  else mret false.

(** [sched_ttwu_pending]: this CPU activates the tasks of its wake list. *)
Fixpoint ttwu_pending_tasks (c : Z) (llist : list tid) : M unit :=
  match llist with
  | [] => skip
  | p :: llist' =>
      t ← task p;
      when (on_cpu t) (until_off_cpu p);;
      when (negb (cpu t =? c)) (set_task_cpu p c);;
      t ← task p;
      ttwu_do_activate c p (if sched_remote_wakeup t then WF_MIGRATED else 0);;
      ttwu_pending_tasks c llist'
  end.
Definition sched_ttwu_pending (llist : list tid) : M unit :=
  match llist with
  | [] => skip
  | _ =>
      c ← smp_processor_id;
      ttwu_pending_tasks c llist;;
      upd_rq c (λ r, r <| ttwu_pending := false |>)
  end.

(** The interrupt that makes the CPU run [sched_ttwu_pending] (kernel/smp.c) is not part
    of the state. *)
Definition __ttwu_queue_wakelist (p : tid) (c : Z) (wake_flags : Z) : M unit :=
  upd_task p (λ t, t <| sched_remote_wakeup := has wake_flags WF_MIGRATED |>);;
  upd_rq c (λ r, r <| ttwu_pending := true |> <| wake_list ::= cons p |>).

Definition ttwu_queue_cond (p : tid) (c : Z) : M bool :=
  t ← task p;
  this ← smp_processor_id;
  r ← cpu_rq c;
  mret (
    if task_on_scx t then false
    else if negb (cpu_active c) then false
    else if negb (Z.testbit (cpus_ptr t) c) then false
    else if negb (cpus_share_cache this c) then true
    else if c =? this then false
    else nr_running r =? 0).

Definition ttwu_queue_wakelist (p : tid) (c : Z) (wake_flags : Z) : M bool :=
  b ← ttwu_queue_cond p c;
  if sched_feat_TTWU_QUEUE && b then __ttwu_queue_wakelist p c wake_flags;; mret true
  else mret false.

Definition ttwu_queue (p : tid) (c : Z) (wake_flags : Z) : M unit :=
  b ← ttwu_queue_wakelist p c wake_flags;
  if b : bool then skip else ttwu_do_activate c p wake_flags.

(** Whether to wake the task, and the success to report. *)
Definition ttwu_state_match (p : tid) (state : Z) : M (bool * bool) :=
  t ← task p;
  let m := __task_state_match t state in
  when (m <? 0) (upd_task p (λ t, t <| saved_state := TASK_RUNNING |>));;
  mret (0 <? m, negb (m =? 0)).

(** The wake-up of a task that is not on a run queue. *)
Definition ttwu_place (p : tid) (wake_flags : Z) : M unit :=
  upd_task p (λ t, t <| __state := TASK_WAKING |>);;
  t ← task p;
  b ← (if on_cpu t then ttwu_queue_wakelist p (cpu t) wake_flags else mret false);
  if b : bool then skip else
  when (on_cpu t) (until_off_cpu p);;
  t ← task p;
  '(c, wake_flags) ← select_task_rq p (wake_cpu t) wake_flags;
  t ← task p;
  wake_flags ←
    (if negb (cpu t =? c) then
       when (in_iowait t) (upd_rq (cpu t) (λ r, r <| nr_iowait ::= λ n, wrap32 (n - 1) |>));;
       set_task_cpu p c;;
       mret (Z.lor wake_flags WF_MIGRATED)
     else mret wake_flags);
  ttwu_queue p c wake_flags.

Definition try_to_wake_up (p : tid) (state : Z) (wake_flags : Z) : M bool :=
  let wake_flags := Z.lor wake_flags WF_TTWU in
  cur ← current;
  '(m, success) ← ttwu_state_match p state;
  if negb m then mret success else
  if bool_decide (p = cur) then ttwu_do_wakeup p;; mret success else
  t ← task p;
  b ← (if negb (on_rq t =? 0) then ttwu_runnable p wake_flags else mret false);
  if b : bool then mret success else
  ttwu_place p wake_flags;;
  mret success.

Definition wake_up_process (p : tid) : M bool := try_to_wake_up p TASK_NORMAL 0.
Definition wake_up_state (p : tid) (state : Z) : M bool := try_to_wake_up p state 0.

(** * Fork *)

Context {FL : ForkLib}.

Definition __sched_fork (p : tid) : M unit :=
  upd_task p (λ t, t <| on_rq := 0 |> <| dl_data := init_dl_entity |> <| migration_pending := None |>).

Definition sched_fork (p : tid) : M Z :=
  __sched_fork p;;
  upd_task p (λ t, t <| __state := TASK_NEW |>);;
  cur ← current;
  tc ← task cur;
  upd_task p (λ t, t <| prio := normal_prio tc |>);;
  uclamp_fork p;;
  t ← task p;
  when (sched_reset_on_fork t)
    (upd_task p (λ t,
       if task_has_dl_policy t || task_has_rt_policy t then
         t <| policy := SCHED_NORMAL |> <| static_prio := NICE_TO_PRIO 0 |> <| rt_priority := 0 |>
       else if PRIO_TO_NICE (static_prio t) <? 0 then t <| static_prio := NICE_TO_PRIO 0 |>
       else t);;
     upd_task p (λ t, t <| prio := static_prio t |> <| normal_prio := static_prio t |>);;
     set_load_weight p false;;
     upd_task p (λ t, t <| custom_slice := false |> <| se_slice := sysctl_sched_base_slice |>
                        <| sched_reset_on_fork := false |>));;
  t ← task p;
  if dl_prio (prio t) then mret (- EAGAIN) else
  scx_pre_fork p;;
  upd_task p (λ t, t <| sched_class :=
    if rt_prio (prio t) then rt_sched_class
    else if task_should_scx (policy t) then ext_sched_class
    else fair_sched_class |>);;
  upd_task p (λ t, t <| on_cpu := false |>);;
  mret 0.

Definition sched_cgroup_fork (p : tid) : M Z :=
  c ← smp_processor_id;
  __set_task_cpu p c;;
  o ← ops_of p;
  match op_task_fork o with Some f => f p | None => skip end;;
  scx_fork p.

Definition sched_cancel_fork (p : tid) : M unit := scx_cancel_fork p.

Definition sched_post_fork (p : tid) : M unit :=
  uclamp_post_fork p;;
  scx_post_fork p.

(** The end of [copy_process]. *)
Definition reset_hvf_params (p : tid) : M unit :=
  upd_task p (λ t, t <| deadline_1 := 0 |> <| deadline_2 := 0 |> <| computation_time := 0 |>
                     <| pars_set := false |>).

(** The calls [copy_process] makes to the scheduler for the child [p], a copy of the
    current task, and its reset of the HVF parameters; the other steps of
    [copy_process] are assumed to succeed. *)
Definition copy_process_sched (p : tid) : M Z :=
  retval ← sched_fork p;
  if negb (retval =? 0) then mret retval else
  retval ← sched_cgroup_fork p;
  if negb (retval =? 0) then sched_cancel_fork p;; mret retval else
  sched_post_fork p;;
  reset_hvf_params p;;
  mret 0.

Definition wake_up_new_task (p : tid) : M unit :=
  upd_task p (λ t, t <| __state := TASK_RUNNING |>);;
  upd_task p (λ t, t <| recent_used_cpu := cpu t |>);;
  t ← task p;
  '(c, wake_flags) ← select_task_rq p (cpu t) WF_FORK;
  __set_task_cpu p c;;
  activate_task c p (Z.lor ENQUEUE_NOCLOCK ENQUEUE_INITIAL);;
  wakeup_preempt c p wake_flags;;
  task_woken c p.
End wakeup.
