(* ===== verification/WakeupSpec.v ===== *)
(** What waking and forking guarantee: a sleeping HVF task that is woken lands on the
    queue of the CPU its value selects, and the class of a new task follows its
    priority. *)
From S2P Require Import Prelude Rbtree KState HvfValue HvfClass HvfInv HvfOps HvfSpec HvfSmp HvfFrame Policy Uclamp Core Schedule SchedSpec Load Setsched SetschedSpec Wakeup.

Section fork.
Context {L : RbLib} {TC : TickConfig} {S : SmpLib} {UC : UclampConfig} {E : Ext}
  {OC : OtherClasses} {FL : ForkLib}.
Implicit Types (s : kstate) (p : tid) (t : task_struct).

(** * Fork *)

(** The static priority and the policy of a child that does not inherit its
    parent's. *)
Definition reset_static_prio t : Z :=
  if task_has_dl_policy t || task_has_rt_policy t || (static_prio t <? DEFAULT_PRIO)
  then DEFAULT_PRIO else static_prio t.
Definition fork_prio tc t : Z :=
  if sched_reset_on_fork t then reset_static_prio t else normal_prio tc.
Definition fork_policy t : Z :=
  if sched_reset_on_fork t && (task_has_dl_policy t || task_has_rt_policy t)
  then SCHED_NORMAL else policy t.
Definition fork_class (pol prio : Z) : sched_class_id :=
  if rt_prio prio then rt_sched_class
  else if task_should_scx pol then ext_sched_class else fair_sched_class.

(** Code that returns [a] and leaves tasks alone. *)
Definition returns_quietly {A} (m : M A) (a : A) : Prop :=
  ∀ s, ∃ s', m s = Ok (a, s') ∧ k_tasks s' = k_tasks s ∧ k_cpu s' = k_cpu s.
Lemma wp_quietly {A} (m : M A) a s Q :
  returns_quietly m a → (∀ s', k_tasks s' = k_tasks s → k_cpu s' = k_cpu s → Q a s') → wp m s Q.
Proof. intros Hm HQ. destruct (Hm s) as (s'&Hok&?&?). eapply wp_ok; eauto. Qed.

(** The hooks of the extensible class let the fork proceed and, like the fork hooks
    of the other classes, leave tasks alone. *)
Record fork_hooks_ok : Prop := {
  fh_pre p : returns_quietly (scx_pre_fork p) tt;
  fh_fork p : returns_quietly (scx_fork p) 0;
  fh_post p : returns_quietly (scx_post_fork p) tt;
  fh_task_fork cl f p : op_task_fork (other_class cl) = Some f → returns_quietly (f p) tt;
}.

(** What the child has of its parent, and what does not depend on it. *)
Definition forked t (prio' pol : Z) (rof : bool) t' : Prop :=
  hvf t' = hvf t ∧ __state t' = TASK_NEW ∧ on_rq t' = 0 ∧ prio t' = prio' ∧ policy t' = pol ∧
  sched_reset_on_fork t' = rof.

Lemma wp_uclamp_fork s0 s p (ψ : task_struct → Prop) Q :
  (∀ t id f, ψ t → ψ (set_uclamp id f t)) → (∀ t id f, ψ t → ψ (set_uclamp_req id f t)) →
  at_task s0 p ψ s → (∀ s', at_task s0 p ψ s' → Q tt s') → wp (uclamp_fork p) s Q.
Proof.
  intros Hu Hr Hs HQ. unfold uclamp_fork. cbn [clamp_ids for_each_clamp_id].
  apply wp_bind, wp_bind. eapply (wp_at_upd _ _ _ ψ ψ); [done|auto|]. clear s Hs. intros s Hs.
  apply wp_bind. eapply (wp_at_upd _ _ _ ψ ψ); [done|auto|]. clear s Hs. intros s Hs.
  apply wp_skip, wp_bind. eapply wp_at_task; [done|]. intros t1 _ _.
  destruct (sched_reset_on_fork t1); cbn [negb]; [|by apply wp_skip, HQ].
  apply wp_bind. eapply (wp_at_upd _ _ _ ψ ψ); [done|auto|]. clear s Hs. intros s Hs.
  apply wp_bind. eapply (wp_at_upd _ _ _ ψ ψ); [done|auto|]. clear s Hs. intros s Hs.
  by apply wp_skip, HQ.
Qed.

(** The weight of a task that is not queued is a table entry. *)
Lemma wp_set_weight s0 s p (ψ : task_struct → Prop) Q :
  (∀ t w iw, ψ t → ψ (t <| se_weight := w |> <| se_inv_weight := iw |>)) →
  (∀ t, ψ t → MAX_RT_PRIO <= static_prio t < MAX_RT_PRIO + NICE_WIDTH) →
  at_task s0 p ψ s → (∀ s', at_task s0 p ψ s' → Q tt s') → wp (set_load_weight p false) s Q.
Proof.
  intros Hw Hsp Hs HQ. unfold set_load_weight. apply wp_bind. eapply wp_at_task; [done|].
  intros t1 Ht1 _. specialize (Hsp t1 Ht1). unfold MAX_RT_PRIO, NICE_WIDTH in *.
  apply wp_bind. apply (wp_mono _ _ (λ _ s', s' = s)).
  { destruct (task_has_idle_policy t1); [done|]. unfold table_entry.
    destruct (Z.ltb_spec (static_prio t1 - 100) 0); [lia|].
    destruct (lookup_lt_is_Some_2 sched_prio_to_weight (Z.to_nat (static_prio t1 - 100))) as [w ->];
      [cbn; lia|].
    destruct (lookup_lt_is_Some_2 sched_prio_to_wmult (Z.to_nat (static_prio t1 - 100))) as [iw ->];
      [cbn; lia|]. by wp_steps. }
  intros lw s' ->. case_match; (eapply (wp_at_upd _ _ _ ψ ψ); [done|auto|done]).
Qed.

(** The child before the choice of its class: a copy of the parent with the priority
    [prio'] given by the code. *)
Definition copied t (prio' : Z) t' : Prop :=
  hvf t' = hvf t ∧ on_rq t' = 0 ∧ policy t' = policy t ∧ static_prio t' = static_prio t ∧
  sched_reset_on_fork t' = sched_reset_on_fork t ∧ __state t' = TASK_NEW ∧ prio t' = prio'.

Lemma sched_fork_copy s p t r tc (k : M Z) Q :
  k_tasks s !! p = Some t → k_rqs s !! k_cpu s = Some r → k_tasks s !! curr r = Some tc →
  curr r ≠ p → (∀ s', at_task s p (copied t (normal_prio tc)) s' → wp k s' Q) →
  wp (__sched_fork p;;
      upd_task p (λ t, t <| __state := TASK_NEW |>);;
      cur ← current; tc ← task cur;
      upd_task p (λ t, t <| prio := normal_prio tc |>);;
      uclamp_fork p;; k) s Q.
Proof.
  intros Ht Hr Htc Hne HQ. unfold __sched_fork.
  pose proof (at_task_refl s p t (λ t', t' = t) Ht eq_refl) as Hs.
  set (φ t' := hvf t' = hvf t ∧ on_rq t' = 0 ∧ policy t' = policy t ∧ static_prio t' = static_prio t ∧
    sched_reset_on_fork t' = sched_reset_on_fork t).
  apply wp_bind. eapply (wp_at_upd _ _ _ _ φ); [done|by intros ? ->|]. intros s0 Hs0.
  apply wp_bind. eapply (wp_at_upd _ _ _ _ (λ t', copied t (prio t') t')); [done| |].
  { intros t' (?&?&?&?&?). by split_and!. }
  clear s0 Hs0. intros s1 Hs1.
  assert (k_rqs s1 = k_rqs s ∧ k_cpu s1 = k_cpu s ∧ k_tasks s1 !! curr r = Some tc) as (Hrq&Hcpu&Htc1).
  { destruct Hs1 as (?&->&_). cbn. by rewrite lookup_insert_ne. }
  apply wp_bind. eapply wp_current; [by rewrite Hrq, Hcpu|]. apply wp_bind. eapply wp_task; [done|].
  apply wp_bind. eapply (wp_at_upd _ _ _ _ (copied t (normal_prio tc))); [done| |].
  { intros t' (?&?&?&?&?&?&_). by split_and!. }
  clear s1 Hs1 Hrq Hcpu Htc1. intros s1 Hs1.
  apply wp_bind. by eapply (wp_uclamp_fork _ _ _ (copied t (normal_prio tc))); [intros ? [] ?|intros ? [] ?|..].
Qed.

(** The reset a parent can ask for with SCHED_RESET_ON_FORK. *)
Lemma sched_fork_reset s0 s p t tc (k : M Z) Q :
  MAX_RT_PRIO <= static_prio t < MAX_RT_PRIO + NICE_WIDTH →
  at_task s0 p (copied t (normal_prio tc)) s →
  (∀ s', at_task s0 p (forked t (fork_prio tc t) (fork_policy t) false) s' → wp k s' Q) →
  wp (t ← task p;
      when (sched_reset_on_fork t)
        (upd_task p (λ t,
           if task_has_dl_policy t || task_has_rt_policy t then
             t <| policy := SCHED_NORMAL |> <| static_prio := NICE_TO_PRIO 0 |> <| rt_priority := 0 |>
           else if PRIO_TO_NICE (static_prio t) <? 0 then t <| static_prio := NICE_TO_PRIO 0 |>
           else t);;
         upd_task p (λ t, t <| prio := static_prio t |> <| normal_prio := static_prio t |>);;
         set_load_weight p false;;
         upd_task p (λ t, t <| custom_slice := false |> <| se_slice := sysctl_sched_base_slice |>
                            <| sched_reset_on_fork := false |>));; k) s Q.
Proof.
  intros Hsp Hs HQ. apply wp_bind. eapply wp_at_task; [done|]. intros t1 Ht1 _.
  assert (sched_reset_on_fork t1 = sched_reset_on_fork t) as -> by apply Ht1.
  apply wp_bind. destruct (sched_reset_on_fork t) eqn:Hrof; cbn [when]; cycle 1.
  { apply wp_skip, HQ. destruct Hs as (t2&->&?&?&?&?&?&?&?). exists t2. split; [done|].
    unfold forked, fork_prio, fork_policy. rewrite Hrof. cbn [andb]. split_and!; congruence. }
  set (pol := fork_policy t). set (pr := fork_prio tc t).
  assert (pr = reset_static_prio t) as Hpr by (subst pr; unfold fork_prio; by rewrite Hrof).
  assert (MAX_RT_PRIO <= pr < MAX_RT_PRIO + NICE_WIDTH) as Hprr.
  { rewrite Hpr. unfold reset_static_prio, MAX_RT_PRIO, NICE_WIDTH, DEFAULT_PRIO in *. case_match; lia. }
  set (φ t' := hvf t' = hvf t ∧ on_rq t' = 0 ∧ policy t' = pol ∧ static_prio t' = pr ∧ __state t' = TASK_NEW).
  set (ψ t' := φ t' ∧ prio t' = pr).
  apply wp_bind. eapply (wp_at_upd _ _ _ _ φ); [done| |].
  { intros t2 (Hh&Ho&Hp&Hst&Hro&Hn&_). unfold task_has_dl_policy, task_has_rt_policy, PRIO_TO_NICE.
    subst φ pol pr. rewrite Hp, Hpr, Hst. unfold reset_static_prio, fork_policy, task_has_dl_policy, task_has_rt_policy, DEFAULT_PRIO. rewrite Hrof. cbn [andb].
    destruct (dl_policy (policy t) || rt_policy (policy t)); cbn [orb]; [by split_and!|].
    destruct (Z.ltb_spec (static_prio t - 120) 0), (Z.ltb_spec (static_prio t) 120); try lia; by split_and!. }
  clear s Hs. intros s Hs. apply wp_bind. eapply (wp_at_upd _ _ _ _ ψ); [done| |].
  { intros t2 (?&?&?&?&?). by split_and!. }
  clear s Hs. intros s Hs. apply wp_bind.
  eapply (wp_set_weight _ _ _ ψ); [by intros|by intros t2 [(_&_&_&->&_) _]|done|].
  clear s Hs. intros s Hs. eapply (wp_at_upd _ _ _ _ _); [done| |exact HQ].
  intros t2 [(?&?&?&?&?) ?]. by split_and!.
Qed.

Lemma sched_fork_result s p t r tc :
  k_tasks s !! p = Some t → k_rqs s !! k_cpu s = Some r → k_tasks s !! curr r = Some tc →
  curr r ≠ p → MAX_RT_PRIO <= static_prio t < MAX_RT_PRIO + NICE_WIDTH → fork_hooks_ok →
  wp (sched_fork p) s (λ ret s', ∃ t', k_tasks s' !! p = Some t' ∧
    k_cpu s' = k_cpu s ∧ forked t (fork_prio tc t) (fork_policy t) false t' ∧
    if dl_prio (fork_prio tc t) then ret = - EAGAIN
    else ret = 0 ∧ sched_class t' = fork_class (fork_policy t) (fork_prio tc t) ∧ on_cpu t' = false).
Proof.
  intros Ht Hr Htc Hne Hsp Hfh. unfold sched_fork.
  eapply sched_fork_copy; [done..|]. intros s1 Hs1.
  eapply sched_fork_reset; [done..|]. clear s1 Hs1. intros s1 Hs1.
  set (ψ := forked t (fork_prio tc t) (fork_policy t) false) in *.
  apply wp_bind. eapply wp_at_task; [done|]. intros t1 Ht1 Hl1.
  destruct Ht1 as (?&?&?&Hpr&Hpol&?). rewrite Hpr.
  assert (k_cpu s1 = k_cpu s) as Hcpu by (by destruct Hs1 as (?&->&_)).
  destruct (dl_prio (fork_prio tc t)) eqn:Hdl.
  { apply wp_ret. exists t1. by split_and!. }
  apply wp_bind. eapply wp_quietly; [by apply fh_pre|]. intros s2 Hk Hc2.
  rewrite <-Hk in Hl1. wp_steps.
  eexists. split; [apply lookup_insert_eq|]. split; [by rewrite <-Hcpu|]. split; [by split_and!|].
  split_and!; [done| |done]. cbn. unfold fork_class. by rewrite Hpr, Hpol.
Qed.

(** A child of a deadline task is refused unless the parent asked for a reset; a
    reset child is a normal task of nice 0. *)
Theorem fork_deadline_task s p t r tc :
  k_tasks s !! p = Some t → k_rqs s !! k_cpu s = Some r → k_tasks s !! curr r = Some tc →
  curr r ≠ p → MAX_RT_PRIO <= static_prio t < MAX_RT_PRIO + NICE_WIDTH → fork_hooks_ok →
  task_has_dl_policy t = true → normal_prio tc < MAX_DL_PRIO →
  wp (sched_fork p) s (λ ret s', ∃ t', k_tasks s' !! p = Some t' ∧
    if sched_reset_on_fork t then
      ret = 0 ∧ policy t' = SCHED_NORMAL ∧ prio t' = DEFAULT_PRIO ∧
      sched_class t' = fork_class SCHED_NORMAL DEFAULT_PRIO
    else ret = - EAGAIN ∧ policy t' = policy t).
Proof.
  intros Ht Hr Htc Hne Hsp Hfh Hdl Hnp. eapply wp_mono; [by eapply sched_fork_result|].
  intros ret s' (t'&Ht'&_&(_&_&_&Hpr&Hpol&_)&Hres). exists t'. split; [done|].
  unfold fork_prio, fork_policy, reset_static_prio in *. rewrite Hdl in *. cbn [orb] in *.
  destruct (sched_reset_on_fork t); cbn [andb] in *; [by naive_solver|].
  unfold dl_prio in Hres. by rewrite (proj2 (Z.ltb_lt _ _) Hnp) in Hres.
Qed.

(** The child of an HVF task keeps the policy SCHED_HVF but is put into the fair
    class, not into the class its policy stands for; its parameters are cleared. *)
Theorem fork_hvf_child_is_fair s p t r tc :
  k_tasks s !! p = Some t → k_rqs s !! k_cpu s = Some r → k_tasks s !! curr r = Some tc →
  curr r ≠ p → MAX_RT_PRIO <= static_prio t < MAX_RT_PRIO + NICE_WIDTH → fork_hooks_ok →
  policy t = SCHED_HVF → MAX_RT_PRIO <= normal_prio tc → task_should_scx SCHED_HVF = false →
  wp (copy_process_sched p) s (λ ret s', ret = 0 ∧ ∃ t', k_tasks s' !! p = Some t' ∧
    policy t' = SCHED_HVF ∧ sched_class t' = fair_sched_class ∧
    __setscheduler_class (policy t') (prio t') = hvf_sched_class ∧
    (deadline_1 t', deadline_2 t', computation_time t', pars_set t') = (0, 0, 0, false) ∧
    __state t' = TASK_NEW ∧ cpu t' = k_cpu s).
Proof.
  intros Ht Hr Htc Hne Hsp Hfh Hpol Hnp Hscx. unfold copy_process_sched.
  assert (fork_policy t = SCHED_HVF) as Hfp.
  { unfold fork_policy, task_has_dl_policy, task_has_rt_policy. rewrite Hpol. by rewrite andb_false_r. }
  assert (MAX_RT_PRIO <= fork_prio tc t) as Hpr.
  { unfold fork_prio, reset_static_prio, MAX_RT_PRIO, DEFAULT_PRIO in *. repeat case_match; lia. }
  apply wp_bind. eapply wp_mono; [by eapply sched_fork_result|].
  intros ret s1 (t1&Ht1&Hc1&(_&Hst&_&Hpr1&Hpol1&_)&Hres). rewrite Hfp in *.
  assert (dl_prio (fork_prio tc t) = false ∧ rt_prio (fork_prio tc t) = false) as [Hdl Hrt].
  { unfold dl_prio, rt_prio, MAX_DL_PRIO, MAX_RT_PRIO in *. lia. }
  unfold fork_class in Hres. rewrite Hdl, Hrt, Hscx in Hres. destruct Hres as (->&Hcl&_).
  cbn [Z.eqb negb]. unfold sched_cgroup_fork, sched_post_fork, __set_task_cpu, ops_of.
  wp_steps.
  match goal with |- context [class_ops (sched_class ?x)] => change (sched_class x) with (sched_class t1) end.
  rewrite Hcl. cbn [class_ops].
  set (s2 := s1 <| k_tasks := _ |>). set (t2 := t1 <| cpu := k_cpu s1 |> <| wake_cpu := k_cpu s1 |>).
  assert (k_tasks s2 !! p = Some t2) as Ht2 by apply lookup_insert_eq.
  apply (wp_mono _ _ (λ _ s', k_tasks s' = k_tasks s2)).
  { destruct (op_task_fork (other_class fair_sched_class)) as [f|] eqn:Hf; [|done].
    by eapply wp_quietly; [by eapply fh_task_fork|]. }
  intros _ s3 Hs3. eapply wp_quietly; [by apply fh_fork|]. intros s4 Hs4 _. cbn [Z.eqb negb].
  wp_steps. unfold uclamp_post_fork, uclamp_update_util_min_rt_default.
  rewrite <-Hs3, <-Hs4 in Ht2. wp_steps. unfold rt_task.
  change (prio t2) with (prio t1). rewrite Hpr1, Hrt. cbn [negb]. wp_steps.
  eapply wp_quietly; [by apply fh_post|]. intros s5 Hs5 _. rewrite <-Hs5 in Ht2.
  unfold reset_hvf_params. wp_steps. split; [done|]. eexists. split; [apply lookup_insert_eq|].
  split_and!; [done|done| |done|done|done].
  cbn. rewrite Hpol1, Hpr1. unfold __setscheduler_class. by rewrite Hdl, Hrt, Hscx.
Qed.
End fork.

Section wake.
Context {L : RbLib} `{!RbLaws L} {TC : TickConfig} {S : SmpLib} `{!SmpLaws S} {UC : UclampConfig} {E : Ext}
  {OC : OtherClasses} {CL : CpuLib}.
Implicit Types (s : kstate) (c : Z) (p : tid) (r : rq) (t : task_struct).

(** * Waking an HVF task *)

(** The running task of every CPU exists. *)
Definition currs_alive s : Prop := ∀ c r, k_rqs s !! c = Some r → is_Some (k_tasks s !! curr r).

Lemma frame_currs s s' : frame s s' → currs_alive s → currs_alive s'.
Proof.
  intros Hf Ha c r' Hr'. pose proof (fr_rqs _ _ Hf c) as Hc. rewrite Hr' in Hc.
  destruct (k_rqs s !! c) as [r|] eqn:Hr; [|done]. cbn in Hc. apply (inj Some) in Hc.
  rewrite (core_rq_field curr r r' (λ _, eq_refl) Hc).
  destruct (Ha c r Hr) as [t Ht]. destruct (frame_task _ _ _ _ Hf Ht) as (t'&?&_). eauto.
Qed.

Lemma same_hvf_rescheduled s s' q t :
  k_tasks s !! q = Some t → rescheduled s s' q t → same_hvf s s' ∧ k_rqs s' = k_rqs s.
Proof.
  intros Ht [l ->]. split; [|done]. split; [|done]. intros p.
  destruct (same_hvf_task s q t (t <| need_resched := true |>)) as [He _]; [done|done|]. exact (He p).
Qed.

(** The preemption check after a wake-up of an HVF task only marks tasks for
    rescheduling. *)
Lemma wp_wakeup_preempt s c p r rc t flags Q :
  k_rqs s !! c = Some r → k_rqs s !! k_cpu s = Some rc → currs_alive s →
  k_tasks s !! p = Some t → sched_class t = hvf_sched_class →
  (∀ s', same_hvf s s' → k_rqs s' = k_rqs s → frame s s' → Q tt s') →
  wp (wakeup_preempt c p flags) s Q.
Proof.
  intros Hr Hrc Ha Ht Hcl HQ. destruct (Ha _ _ Hr) as [td Htd], (Ha _ _ Hrc) as [tc Htc].
  assert (keeps (wakeup_preempt_hvf c p flags) ∧ keeps (resched_curr c)) as [Hk1 Hk2].
  { split; [apply keeps_wakeup|apply keeps_resched]. }
  unfold wakeup_preempt. wp_steps. rewrite Hcl. case_bool_decide as Hd.
  - rewrite <-Hd. cbn [class_ops hvf_class_ops op_wakeup_preempt]. wp_steps.
    eapply wp_mono.
    { eapply (keeps_wp _ _ (λ _ s', same_hvf s s' ∧ k_rqs s' = k_rqs s)); [done|].
      unfold wakeup_preempt_hvf, exceeded_time. apply wp_bind. eapply wp_current; [done|]. wp_steps.
      apply wp_when; intros _; [|done]. wp_steps. apply wp_when; intros _; [|done].
      eapply wp_resched_curr; [done..|]. intros s'. by apply same_hvf_rescheduled. }
    intros [] s' [[? ?] ?]. by apply HQ.
  - apply wp_when; intros _; [|by apply HQ]. eapply wp_mono.
    { eapply (keeps_wp _ _ (λ _ s', same_hvf s s' ∧ k_rqs s' = k_rqs s)); [done|].
      eapply wp_resched_curr; [done..|]. intros s'.
      by apply (same_hvf_rescheduled s s' (curr r) td). }
    intros [] s' [[? ?] ?]. by apply HQ.
Qed.

(** A run queue that differs outside the data of the HVF class. *)
Definition rq_like r r' : Prop :=
  rq_hvf r' = rq_hvf r ∧ nr_running r' = nr_running r ∧ curr r' = curr r ∧ wake_list r' = wake_list r.

Lemma wp_when_rq s c r b f Q :
  k_rqs s !! c = Some r → rq_like r (f r) →
  (∀ s' r', same_hvf s s' → only_cpu c s s' → k_tasks s' = k_tasks s → k_rqs s' !! c = Some r' →
     rq_like r r' → Q tt s') →
  wp (when b (upd_rq c f)) s Q.
Proof.
  intros Hr Hf HQ. apply wp_when; intros _; [|by eapply (HQ s r)].
  eapply wp_upd_rq; [done|]. eapply HQ; [by apply (same_hvf_rq s c r), Hf| |done|apply lookup_insert_eq|done].
  split_and!; [|done|done]. intros c' ?. cbn. by rewrite lookup_insert_ne.
Qed.

Lemma only_cpu_currs c s s' r r' :
  only_cpu c s s' → k_tasks s' = k_tasks s → k_rqs s !! c = Some r → k_rqs s' !! c = Some r' →
  curr r' = curr r → currs_alive s → currs_alive s'.
Proof.
  intros (Hrq&_&_) Ht Hr Hr' Hc Ha c' rc Hrc. rewrite Ht. destruct (decide (c' = c)) as [->|].
  - simplify_eq. rewrite Hc. by apply (Ha c).
  - rewrite Hrq in Hrc by done. by apply (Ha c').
Qed.

(** A sleeping HVF task on CPU [c]. *)
Record asleep_on s c p r t : Prop := {
  as_inv : hvf_inv s; as_clock : clock_sane s; as_alive : currs_alive s;
  as_rq : k_rqs s !! c = Some r; as_task : k_tasks s !! p = Some t; as_cpu : cpu t = c;
  as_class : sched_class t = hvf_sched_class; as_off : se_on_rq (hvf t) = false; as_onrq : on_rq t = 0;
  as_curr : hvf_curr (rq_hvf r) ≠ Some p; as_sane : hvf_sane t; as_pars : pars_set t = true;
}.

(** After the activation of [p] on [c]. *)
Definition activated s s' c p r : Prop :=
  hvf_inv s' ∧ queue_of s' c ≡ₚ p :: queue_of s c ∧
  (∃ r', k_rqs s' !! c = Some r' ∧ nr_running r' = u32 (nr_running r + 1)) ∧
  ∃ t', k_tasks s' !! p = Some t' ∧ __state t' = TASK_RUNNING ∧ on_rq t' = TASK_ON_RQ_QUEUED ∧ cpu t' = c.

(** The HVF part of an activation. *)
Lemma wp_activate_hvf s c p r t flags Q :
  asleep_on s c p r t →
  (∀ s' r' t', hvf_inv s' → queue_of s' c ≡ₚ p :: queue_of s c → k_rqs s' !! c = Some r' →
     nr_running r' = u32 (nr_running r + 1) → k_tasks s' !! p = Some t' →
     on_rq t' = TASK_ON_RQ_QUEUED → cpu t' = c → sched_class t' = hvf_sched_class →
     currs_alive s' → k_cpu s' = k_cpu s → (∀ c0, is_Some (k_rqs s !! c0) → is_Some (k_rqs s' !! c0)) →
     Q tt s') →
  wp (activate_task c p flags) s Q.
Proof.
  intros [Hi Hclk Ha Hr Ht Hc Hcl Hon Hoq Hcur Hs Hset] HQ. unfold activate_task.
  apply wp_bind. eapply wp_task; [done|]. unfold task_on_rq_migrating. rewrite Hoq.
  cbn [Z.eqb TASK_ON_RQ_MIGRATING]. apply wp_bind. eapply wp_enqueue_task_hvf; [done..|].
  eapply wp_mono.
  { eapply keeps_wp; [apply keeps_enqueue|]. eapply enqueue_task_hvf_spec; [done..|]. by left. }
  intros [] s1 [(Hi1&Ho1&Hq1&r1&Hr1&Hn1&_) Hf1].
  destruct (frame_task _ _ _ _ Hf1 Ht) as (t1&Ht1&Hcore). eapply wp_upd_task; [done|].
  set (t2 := t1 <| on_rq := TASK_ON_RQ_QUEUED |>).
  assert (same_hvf s1 (s1 <| k_tasks := <[p := t2]> (k_tasks s1) |>)) as Hsh
    by by apply (same_hvf_task s1 p t1).
  eapply (HQ _ r1 t2); [by eapply same_hvf_inv| |done|done|apply lookup_insert_eq|done| | | | |].
  - by rewrite (same_hvf_queue _ _ c Hsh), Hq1, ins_perm.
  - rewrite <-Hc. by apply (core_field cpu t t1).
  - rewrite <-Hcl. by apply (core_field sched_class t t1).
  - intros c' r' Hr'. destruct (frame_currs _ _ Hf1 Ha c' r' Hr') as [tc Htc].
    cbn. rewrite lookup_insert_is_Some'. eauto.
  - by apply Ho1.
  - intros c0 [r0 Hr0]. destruct (frame_rq _ _ _ _ Hf1 Hr0) as (r0'&?&_). by exists r0'.
Qed.

Lemma wp_ttwu_do_activate s c p r rc t wake_flags :
  asleep_on s c p r t → k_rqs s !! k_cpu s = Some rc →
  wp (ttwu_do_activate c p wake_flags) s (λ _ s', activated s s' c p r).
Proof.
  intros [Hi Hclk Ha Hr Ht Hc Hcl Hon Hoq Hcur Hs Hset] Hrc. unfold ttwu_do_activate.
  apply wp_bind. eapply wp_task; [done|]. apply wp_bind. eapply wp_when_rq; [done|done|].
  intros s1 r1 Hsh1 Ho1 Hk1 Hr1 Hl1. rewrite Hc.
  apply wp_bind. eapply (wp_when_rq s1 c r1); [done|done|].
  intros s2 r2 Hsh2 Ho2 Hk2 Hr2 Hl2.
  assert (same_hvf s s2) as Hsh by by etrans. assert (only_cpu c s s2) as Ho by by eapply only_cpu_trans.
  assert (k_tasks s2 !! p = Some t) as Ht2 by by rewrite Hk2, Hk1.
  assert (rq_like r r2) as (Hh&Hn&Hcu&_) by (destruct Hl1 as (?&?&?&?), Hl2 as (?&?&?&?); split_and!; congruence).
  assert (currs_alive s2) as Ha2 by (by eapply (only_cpu_currs c s s2 r r2); [|congruence|..]).
  assert (asleep_on s2 c p r2 t) as Has.
  { split; try done; [by eapply same_hvf_inv|..|by rewrite Hh].
    intros n. destruct Ho as (_&->&_). apply Hclk. }
  destruct Ho as (Horq&_&Hocpu).
  assert (is_Some (k_rqs s2 !! k_cpu s2)) as Hrc2.
  { rewrite Hocpu. destruct (decide (k_cpu s = c)) as [->|]; [eauto|rewrite Horq; eauto]. }
  apply wp_bind. eapply wp_activate_hvf; [done|].
  intros s3 r3 t3 Hi3 Hq3 Hr3 Hn3 Ht3 Hst3 Hcpu3 Hcl3 Ha3 Hk3 Hrqs3.
  rewrite <-Hk3 in Hrc2. apply Hrqs3 in Hrc2 as [rc3 Hrc3].
  apply wp_bind. eapply wp_wakeup_preempt; [done..|]. intros s4 Hsh4 Hrq4 Hf4.
  destruct (frame_task _ _ _ _ Hf4 Ht3) as (t4&Ht4&Hcore4).
  unfold ttwu_do_wakeup, task_woken, ops_of. apply wp_bind. eapply wp_upd_task; [done|].
  set (t5 := t4 <| __state := TASK_RUNNING |>).
  assert (same_hvf s4 (s4 <| k_tasks := <[p := t5]> (k_tasks s4) |>)) as Hsh5
    by by apply (same_hvf_task s4 p t4).
  assert (sched_class t5 = hvf_sched_class) as Hcl5
    by (rewrite <-Hcl3; by apply (core_field sched_class t3 t4)).
  apply wp_bind, wp_bind. eapply wp_task; [apply lookup_insert_eq|]. apply wp_ret. rewrite Hcl5.
  cbn [class_ops hvf_class_ops op_task_woken]. apply wp_skip.
  assert (same_hvf s3 (s4 <| k_tasks := <[p := t5]> (k_tasks s4) |>)) as Hsh35 by by etrans.
  split_and!.
  - by eapply same_hvf_inv.
  - by rewrite (same_hvf_queue _ _ c Hsh35), Hq3, (same_hvf_queue _ _ c Hsh).
  - exists r3. cbn. rewrite Hrq4, Hn3, Hn. done.
  - exists t5. split_and!; [apply lookup_insert_eq|done| |].
    + rewrite <-Hst3. by apply (core_field on_rq t3 t4).
    + rewrite <-Hcpu3. by apply (core_field cpu t3 t4).
Qed.

(** Moving a task that is neither queued nor running to another CPU. *)
Lemma move_inv s p r t t' :
  hvf_inv s → k_tasks s !! p = Some t → k_rqs s !! cpu t = Some r → se_on_rq (hvf t) = false →
  hvf_curr (rq_hvf r) ≠ Some p → se_on_rq (hvf t') = false →
  let s' := s <| k_tasks := <[p := t']> (k_tasks s) |> in
  hvf_inv s' ∧ ∀ c, hq s' c = hq s c.
Proof.
  intros Hi Ht Hr Hon Hcur Hon' s'. split; [|done]. intros c h Hh.
  pose proof (Hi c h Hh) as Hok. eapply (queue_ok_frame (ent s) _ _ _ p); [done|..].
  - eapply not_queued; [done|]. rewrite (ent_lookup _ _ _ Ht). unfold view_task. by rewrite Hon.
  - intros v. change (ent s' p) with (ent (s <| k_tasks ::= <[p := t']> |>) p).
    rewrite ent_insert, decide_True by done. unfold view_task. rewrite Hon'. congruence.
  - intros Hq. destruct (q_curr _ _ _ Hok p Hq) as [v He]. rewrite (ent_lookup _ _ _ Ht) in He.
    injection He as _ _ <-. exfalso. apply Hcur.
    change (hq s (cpu t) = Some h) in Hh. rewrite (hq_lookup _ _ _ Hr) in Hh. by injection Hh as ->.
  - intros q Hq. change (ent s' q) with (ent (s <| k_tasks ::= <[p := t']> |>) q).
    by rewrite ent_insert, decide_False.
Qed.

Lemma not_curr_elsewhere s c p r rc t :
  hvf_inv s → k_tasks s !! p = Some t → k_rqs s !! cpu t = Some r → hvf_curr (rq_hvf r) ≠ Some p →
  k_rqs s !! c = Some rc → hvf_curr (rq_hvf rc) ≠ Some p.
Proof.
  intros Hi Ht Hr Hcur Hrc Hq. destruct (curr_not_queued _ _ _ _ _ Hi Hrc Ht Hq) as [_ <-]. naive_solver.
Qed.

(** A wake-up that goes through the wake list of a remote CPU. *)
Definition handed_over s s' c p : Prop :=
  hvf_inv s' ∧ (∀ c, queue_of s' c = queue_of s c) ∧
  (∃ r', k_rqs s' !! c = Some r' ∧ p ∈ wake_list r' ∧ ttwu_pending r' = true) ∧
  ∃ t', k_tasks s' !! p = Some t' ∧ __state t' = TASK_WAKING ∧ on_rq t' = 0 ∧ cpu t' = c.

Lemma wp_ttwu_queue s c p r rc t wake_flags :
  asleep_on s c p r t → k_rqs s !! k_cpu s = Some rc → __state t = TASK_WAKING →
  wp (ttwu_queue p c wake_flags) s (λ _ s', activated s s' c p r ∨ handed_over s s' c p).
Proof.
  intros Has Hrc Hw. pose proof Has as [Hi Hclk Ha Hr Ht Hc Hcl Hon Hoq Hcur Hs Hset].
  unfold ttwu_queue, ttwu_queue_wakelist, ttwu_queue_cond, __ttwu_queue_wakelist. wp_steps.
  destruct (sched_feat_TTWU_QUEUE && _); wp_steps.
  - right. set (t1 := t <| sched_remote_wakeup := _ |>).
    match goal with |- handed_over _ ?x _ _ => set (s1 := x) end.
    assert (same_hvf s s1) as Hsh.
    { etrans; [by apply (same_hvf_task s p t t1)|]. by eapply (same_hvf_rq _ c r). }
    split_and!.
    + by eapply same_hvf_inv.
    + intros c'. by apply same_hvf_queue.
    + eexists. split; [apply lookup_insert_eq|]. split; [cbn; set_solver|done].
    + exists t1. split_and!; [apply lookup_insert_eq|done..].
  - eapply wp_mono; [by eapply wp_ttwu_do_activate|]. intros ? s' ?. by left.
Qed.

(** The task as the wake-up sees it: its state and HVF entity changed, it may move. *)
Definition waking t (e : sched_hvf_entity) : task_struct := t <| __state := TASK_WAKING |> <| hvf := e |>.

(** What a wake-up of the sleeping task needs of the rest of the system. *)
Record wakeable s p t : Prop := {
  wk_sel : selectable s t;
  wk_off_cpu : on_cpu t = false;
  wk_migratable : migration_disabled t = 0;
  wk_wake_cpu : is_Some (k_rqs s !! wake_cpu t);
  wk_allowed c e : c ∈ mask_cpus (cpus_ptr t) → is_cpu_allowed (waking t e) c = true;
}.

Lemma ttwu_selects wf : has (Z.lor wf WF_TTWU) (Z.lor WF_TTWU WF_FORK) = true.
Proof.
  unfold has. destruct (Z.eqb_spec (Z.land (Z.lor wf WF_TTWU) (Z.lor WF_TTWU WF_FORK)) 0) as [E'|]; [|done].
  apply (f_equal (λ z, Z.testbit z 3)) in E'. rewrite Z.land_spec, Z.lor_spec in E'.
  by rewrite orb_true_r in E'.
Qed.

(** Moving the task to the selected CPU. *)
Lemma wp_ttwu_move s c p r t e Q :
  asleep_on s (cpu t) p r (waking t e) → cpu t ≠ c → is_Some (k_rqs s !! c) → is_Some (k_rqs s !! prev_cpu e) →
  (∀ s' rc t', asleep_on s' c p rc t' → __state t' = TASK_WAKING →
     k_rqs s' = k_rqs s → k_cpu s' = k_cpu s → Q tt s') →
  wp (set_task_cpu p c) s Q.
Proof.
  intros [Hi Hclk Ha Hr Ht Hc Hcl Hon Hoq Hcur Hs Hset] Hne [rc Hrc] [rp Hrp] HQ.
  unfold set_task_cpu, __set_task_cpu. apply wp_bind. eapply wp_task; [done|].
  rewrite Hc, (proj2 (Z.eqb_neq _ _) Hne). cbn [negb when]. rewrite Hcl.
  cbn [class_ops hvf_class_ops op_migrate_task_rq]. unfold migrate_task_rq_hvf, upd_se.
  set (t1 := waking t (e <| curr_cpu := c |>)).
  set (t2 := t1 <| cpu := c |> <| wake_cpu := c |>).
  assert (∀ l, wp (upd_task p (λ t, t <| cpu := c |> <| wake_cpu := c |>))
    (s <| k_tasks := <[p := t1]> (k_tasks s) |> <| k_trace := l |>) Q) as Hgo.
  { intros l. eapply wp_upd_task; [apply lookup_insert_eq|]. eapply (HQ _ rc t2); [|done..].
    destruct (move_inv s p r (waking t e) t2) as [Hi' _]; [done..|].
    split; try done.
    - eapply hvf_inv_ext, Hi'; [|done]. intros q. unfold ent. cbn. by rewrite insert_insert_eq.
    - intros c' r' Hr'. cbn in Hr'. destruct (Ha c' r' Hr') as [tc Htc]. cbn.
      rewrite !lookup_insert_is_Some'. eauto.
    - apply lookup_insert_eq.
    - by apply (not_curr_elsewhere s c p r rc (waking t e)).
    - destruct Hs. by split. }
  apply wp_bind. wp_steps. apply wp_when; intros _; [apply wp_trace|]; cbn; [apply Hgo|].
  specialize (Hgo (k_trace s)). by destruct s.
Qed.

(** The choice of a CPU for the task that is being woken. *)
Lemma wp_select_task_rq s p t wf Q :
  k_tasks s !! p = Some (waking t (hvf t)) → sched_class t = hvf_sched_class → wakeable s p t →
  (∀ c wf' e, c ∈ mask_cpus (cpus_ptr t) → placement s t c →
     e = (hvf t) <| prev_cpu := wake_cpu t |> <| curr_cpu := c |> →
     Q (c, wf') (s <| k_tasks := <[p := waking t e]> (k_tasks s) |>)) →
  wp (select_task_rq p (wake_cpu t) (Z.lor wf WF_TTWU)) s Q.
Proof.
  intros Ht Hcl [Hsel Hoff Hmig Hwc Hall] HQ. unfold select_task_rq. apply wp_bind. eapply wp_task; [done|].
  destruct (sel_count _ _ Hsel) as [Hn _].
  change (nr_cpus_allowed (waking t (hvf t))) with (nr_cpus_allowed t).
  change (sched_class (waking t (hvf t))) with (sched_class t).
  change (is_migration_disabled (waking t (hvf t))) with (is_migration_disabled t).
  unfold is_migration_disabled. rewrite Hmig, (proj2 (Z.ltb_lt _ _) Hn), Hcl. cbn [Z.eqb negb andb].
  cbn [class_ops hvf_class_ops op_select_task_rq]. do 4 wp_step.
  eapply wp_select_hvf; [exact Ht|apply ttwu_selects|by destruct Hsel; split|].
  intros c Hpl Hc. wp_steps.
  change (selected (waking t (hvf t)) (wake_cpu t) c)
    with (waking t ((hvf t) <| prev_cpu := wake_cpu t |> <| curr_cpu := c |>)).
  rewrite Hall by done. cbn [negb]. wp_steps. by apply HQ.
Qed.

Lemma wp_ttwu_place s p r rc t wf :
  asleep_on s (cpu t) p r t → wakeable s p t → k_rqs s !! k_cpu s = Some rc →
  wp (ttwu_place p (Z.lor wf WF_TTWU)) s (λ _ s', ∃ c rt, c ∈ mask_cpus (cpus_ptr t) ∧
    placement s t c ∧ k_rqs s !! c = Some rt ∧ (activated s s' c p rt ∨ handed_over s s' c p)).
Proof.
  intros Has Hwk Hrc. pose proof Has as [Hi Hclk Ha Hr Ht Hc Hcl Hon Hoq Hcur Hs Hset].
  unfold ttwu_place. apply wp_bind. eapply wp_upd_task; [done|].
  assert (t <| __state := TASK_WAKING |> = waking t (hvf t)) as -> by by destruct t.
  set (s1 := s <| k_tasks := _ |>).
  assert (k_tasks s1 !! p = Some (waking t (hvf t))) as Ht1 by apply lookup_insert_eq.
  apply wp_bind. eapply wp_task; [done|].
  change (on_cpu (waking t (hvf t))) with (on_cpu t). rewrite (wk_off_cpu _ _ _ Hwk). cbn [when].
  do 3 wp_step. apply wp_bind. wp_step. apply wp_bind.
  eapply (wp_select_task_rq s1 p t); [done|done|by destruct Hwk as [[] ? ? ? ?]; split; [split|..]|].
  intros c wf' e Hcm Hpl ->. set (e := (hvf t) <| prev_cpu := wake_cpu t |> <| curr_cpu := c |>).
  set (s2 := s1 <| k_tasks := _ |>).
  destruct (sel_rqs _ _ (wk_sel _ _ _ Hwk) c Hcm) as [rt Hrt]. destruct (wk_wake_cpu _ _ _ Hwk) as [rw Hrw].
  assert (asleep_on s2 (cpu t) p r (waking t e)) as Has2.
  { destruct (move_inv s p r t (waking t e)) as [Hi' _]; [done..|]. split; try done.
    - eapply hvf_inv_ext, Hi'; [|done]. intros q. unfold ent. cbn. by rewrite insert_insert_eq.
    - intros c' r' Hr'. destruct (Ha c' r' Hr') as [tc Htc]. cbn. rewrite !lookup_insert_is_Some'. eauto.
    - apply lookup_insert_eq.
    - destruct Hs. by split. }
  cbn beta iota. apply wp_bind. eapply wp_task; [apply (as_task _ _ _ _ _ Has2)|].
  change (cpu (waking t e)) with (cpu t). destruct (Z.eqb_spec (cpu t) c) as [Heq|Hne]; cbn [negb].
  { wp_steps. rewrite Heq in Has2, Hr. eapply wp_mono; [by eapply wp_ttwu_queue|]. intros [] s' Hs'.
    exists c, r. by split_and!. }
  apply wp_bind, wp_bind. eapply (wp_when_rq s2 (cpu t) r); [done|done|].
  intros s3 r3 Hsh3 (Ho3&Hclk3&Hcpu3) Hk3 Hr3 (Hh3&_&Hcu3&_).
  assert (asleep_on s3 (cpu t) p r3 (waking t e)) as Has3.
  { destruct Has2. split; try congruence; try done; [by eapply same_hvf_inv| |].
    - intros n. rewrite Hclk3. apply Hclk.
    - by eapply (only_cpu_currs (cpu t) s2 s3 r r3); [split_and!|..]. }
  assert (∀ c0, is_Some (k_rqs s !! c0) → is_Some (k_rqs s3 !! c0)) as Hex.
  { intros c0 Hc0. destruct (decide (c0 = cpu t)) as [->|]; [eauto|by rewrite Ho3]. }
  apply wp_bind. eapply wp_ttwu_move; [done|done|by apply Hex; eauto|by apply Hex; eauto|].
  intros s4 rt4 t4 Has4 Hw4 Hrq4 Hcpu4. wp_steps. destruct (Hex (k_cpu s)) as [rc4 Hrc4]; [by eauto|].
  assert (rt4 = rt) as ->.
  { pose proof (as_rq _ _ _ _ _ Has4) as Hx. rewrite Hrq4, Ho3 in Hx by done. cbn in Hx. congruence. }
  assert (∀ c, queue_of s4 c = queue_of s c) as Hq4.
  { intros c0. unfold queue_of, hq. rewrite Hrq4. apply (same_hvf_queue _ _ c0 Hsh3). }
  eapply wp_mono; [eapply (wp_ttwu_queue s4 c p rt rc4 t4); [done|by rewrite Hcpu4, Hcpu3, Hrq4|done]|].
  intros [] s' Hs'. exists c, rt. unfold activated, handed_over in *. rewrite Hq4 in Hs'.
  setoid_rewrite Hq4 in Hs'. by split_and!.
Qed.


(** Waking a task that is not in one of the requested states, in [__state] or in the
    state saved by a sleeping lock, does nothing. *)
Lemma wake_up_other_state s p r t state wake_flags :
  k_tasks s !! p = Some t → k_rqs s !! k_cpu s = Some r →
  has (__state t) state = false → has (saved_state t) state = false →
  wp (try_to_wake_up p state wake_flags) s (λ woken s', woken = false ∧ s' = s).
Proof.
  intros Ht Hr H1 H2. unfold try_to_wake_up. apply wp_bind. eapply wp_current; [done|].
  unfold ttwu_state_match, __task_state_match. wp_steps. rewrite H1, H2. by wp_steps.
Qed.
End wake.
