(* ===== verification/Affinity.v ===== *)
(** CPU affinity (kernel/sched/core.c and syscalls.c): migration of queued tasks,
    regions with migration disabled, the change of a task's CPU mask with the request
    protocol between its callers and the stopper threads, and the affinity system
    calls.

    A function that has to wait returns the request it waits for: the part of
    [affine_move_task] that runs under [p->pi_lock] and [rq->lock] is
    [affine_move_task], what follows the wait is [affine_woken].  Lock-free early
    tests, reference counts of tasks and printing are not part of the state. *)
From S2P Require Import Prelude Rbtree KState HvfValue HvfClass HvfSmp Policy Uclamp Core Schedule Load Setsched Wakeup.

Definition MDF_PUSH := 0x01.
Definition BITS_PER_BYTE := 8.

(** Masks of CPUs, cpusets, the choice of a CPU in a mask, the search of the other
    classes for a run queue to push to, interrupts of this CPU, and what other threads
    do until a request completes or is no longer referenced. *)
Class AffLib := {
  cpu_online_mask : Z;
  cpu_possible_mask : Z;
  task_cpu_possible_mask : task_struct → Z;
  cpumask_any_and_distribute : Z → Z → Z;
  cpuset_cpus_allowed : nat → task_struct → Z;
  other_find_lock_rq : sched_class_id → option (tid → Z → M (option Z));
  flush_smp_call_function_queue : M unit;
  wait_for_completion : tid → M unit;
  wait_refs_zero : tid → M unit;
  alloc_user_cpus_ptr : bool;
}.

(** [cpumask_subset]. *)
Definition cpumask_subset (a b : Z) : bool := Z.land a (Z.lnot b) =? 0.

(** The outcome of a locked section: the function returns, or waits for a request. *)
Inductive aff_result := Returns (ret : Z) | Waits (pending : tid).

Definition zero_pending : affinity_pending :=
  {| ap_refs := 0; ap_stop_pending := false; ap_done := false; ap_task := 0; ap_dest_cpu := 0 |}.

Definition get_pending (q : tid) : M affinity_pending := λ s,
  match k_pending s !! q with Some a => Ok (a, s) | None => Oops bad_pointer end.
Definition upd_pending (q : tid) (f : affinity_pending → affinity_pending) : M unit := λ s,
  match k_pending s !! q with
  | Some a => Ok (tt, s <| k_pending := <[q := f a]> (k_pending s) |>)
  | None => Oops bad_pointer
  end.
Definition complete_all (q : tid) : M unit := upd_pending q (λ a, a <| ap_done := true |>).
Definition stop_one_cpu_nowait (c : Z) (w : stop_fn) : M unit :=
  modify (λ s, s <| k_stops ::= λ l, l ++ [(c, w)] |>).

Section affinity.
Context {L : RbLib} {TC : TickConfig} {S : SmpLib} {UC : UclampConfig} {E : Ext}
  {OC : OtherClasses} {CL : CpuLib} {AL : AffLib} {SL : SysLib} {UM : UserMem}.

(** * Moving tasks *)

Definition move_queued_task (c : Z) (p : tid) (new_cpu : Z) : M unit :=
  deactivate_task c p DEQUEUE_NOCLOCK;;
  set_task_cpu p new_cpu;;
  activate_task new_cpu p 0;;
  wakeup_preempt new_cpu p 0.

Definition move_queued_task_locked (src dst : Z) (p : tid) : M unit :=
  deactivate_task src p 0;;
  set_task_cpu p dst;;
  activate_task dst p 0.

Definition __migrate_task (c : Z) (p : tid) (dest_cpu : Z) : M unit :=
  t ← task p;
  if negb (is_cpu_allowed t dest_cpu) then skip else move_queued_task c p dest_cpu.

(** [migration_cpu_stop] from the point where it holds the locks; [pending] is
    [arg->pending]. *)
Definition migration_cpu_stop_locked (p : tid) (dest_cpu : Z) (pending : option tid) : M unit :=
  c ← smp_processor_id;
  t ← task p;
  let out (complete : bool) : M unit :=
    match pending with
    | Some q =>
        upd_pending q (λ a, a <| ap_stop_pending := false |>);;
        when complete (complete_all q)
    | None => skip
    end in
  let migrate : M unit :=
    if task_on_rq_queued t then __migrate_task c p dest_cpu
    else upd_task p (λ t, t <| wake_cpu := dest_cpu |>) in
  if cpu t =? c then
    if is_migration_disabled t then out false else
    match pending with
    | Some q =>
        upd_task p (λ t, t <| migration_pending := None |>);;
        if Z.testbit (cpus_mask t) (cpu t) then out true else
        migrate;;
        out true
    | None => migrate
    end
  else
    match pending with
    | Some q =>
        if Z.testbit (cpus_ptr t) (cpu t) then
          upd_task p (λ t, t <| migration_pending := None |>);;
          out true
        else stop_one_cpu_nowait (cpu t) (migration_pending_work q)
    | None => skip
    end.

(** The argument of the stopper function. *)
Definition migration_cpu_stop (w : stop_fn) : M unit :=
  flush_smp_call_function_queue;;
  match w with
  | migration_pending_work q =>
      a ← get_pending q;
      migration_cpu_stop_locked (ap_task a) (ap_dest_cpu a) (Some q)
  | migration_work p dest_cpu => migration_cpu_stop_locked p dest_cpu None
  | push_work _ | balance_push_work _ => skip
  end.

Definition push_cpu_stop (p : tid) : M unit :=
  c ← smp_processor_id;
  t ← task p;
  (if negb (cpu t =? c) then skip else
   if is_migration_disabled t then
     upd_task p (λ t, t <| migration_flags ::= λ f, Z.lor f MDF_PUSH |>)
   else
     upd_task p (λ t, t <| migration_flags ::= λ f, Z.land f (Z.lnot MDF_PUSH) |>);;
     lowest_rq ←
       match (if decide (sched_class t = hvf_sched_class) then None else other_find_lock_rq (sched_class t)) with
       | Some f => f p c
       | None => mret None
       end;
     match lowest_rq with
     | None => skip
     | Some lowest =>
         t ← task p;
         when (cpu t =? c) (move_queued_task_locked c lowest p;; resched_curr lowest)
     end);;
  upd_rq c (λ r, r <| push_busy := false |>).

(** The task of this CPU to push away, if it may be. *)
Definition get_push_task (c : Z) : M (option tid) :=
  r ← cpu_rq c;
  t ← task (donor r);
  if push_busy r then mret None
  else if nr_cpus_allowed t =? 1 then mret None
  else if negb (migration_disabled t =? 0) then mret None
  else upd_rq c (λ r, r <| push_busy := true |>);; mret (Some (donor r)).

(** * Changing the mask *)

(** [affine_move_task] up to its wait.  The calls it makes once it has released the locks
    ([complete_all] and [stop_one_cpu_nowait], with preemption off) are in the same step as
    the locked part: both only leave something behind for a later step of another thread,
    the completion or the work of a stopper. *)
Definition affine_move_task (c : Z) (p : tid) (dest_cpu : Z) (flags : Z) : M aff_result :=
  me ← current;
  modify (λ s, s <| k_pending ::= <[me := zero_pending]> |>);;
  t ← task p;
  if Z.testbit (cpus_mask t) (cpu t) then
    r ← cpu_rq c;
    let push := has flags SCA_MIGRATE_ENABLE && has (migration_flags t) MDF_PUSH && negb (push_busy r) in
    when push (upd_rq c (λ r, r <| push_busy := true |>));;
    complete ←
      match migration_pending t with
      | Some q =>
          a ← get_pending q;
          if negb (ap_stop_pending a) then
            upd_task p (λ t, t <| migration_pending := None |>);;
            mret (Some q)
          else mret None
      | None => mret None
      end;
    when push (stop_one_cpu_nowait c (push_work p));;
    match complete with Some q => complete_all q | None => skip end;;
    mret (Returns 0)
  else
    when (negb (has flags SCA_MIGRATE_ENABLE))
      match migration_pending t with
      | None =>
          upd_pending me (λ a, a <| ap_refs := 1 |> <| ap_done := false |>
                                 <| ap_task := p |> <| ap_dest_cpu := dest_cpu |>);;
          upd_task p (λ t, t <| migration_pending := Some me |>)
      | Some q => upd_pending q (λ a, a <| ap_refs ::= λ n, n + 1 |> <| ap_dest_cpu := dest_cpu |>)
      end;;
    t ← task p;
    match migration_pending t with
    | None => mret (Returns (- EINVAL))
    | Some q =>
        a ← get_pending q;
        if on_cpu t || (__state t =? TASK_WAKING) then
          when (negb (ap_stop_pending a)) (upd_pending q (λ a, a <| ap_stop_pending := true |>));;
          when (has flags SCA_MIGRATE_ENABLE)
            (upd_task p (λ t, t <| migration_flags ::= λ f, Z.land f (Z.lnot MDF_PUSH) |>));;
          when (negb (ap_stop_pending a)) (stop_one_cpu_nowait c (migration_pending_work q));;
          mret (if has flags SCA_MIGRATE_ENABLE then Returns 0 else Waits q)
        else
          when (negb (is_migration_disabled t))
            (when (task_on_rq_queued t) (move_queued_task c p dest_cpu);;
             a ← get_pending q;
             when (negb (ap_stop_pending a))
               (upd_task p (λ t, t <| migration_pending := None |>);; complete_all q));;
          mret (Waits q)
    end.

(** After the completion: the reference is dropped; the thread may return once
    nobody refers to its own request. *)
Definition affine_woken (q : tid) : M unit := upd_pending q (λ a, a <| ap_refs ::= λ n, n - 1 |>).

(** The changed context comes back, for the caller to free the old user mask. *)
Definition __set_cpus_allowed_ptr_locked (p : tid) (ctx : affinity_context)
    : M (aff_result * affinity_context) :=
  t ← task p;
  cur ← current;
  let kthread := has (t_flags t) PF_KTHREAD in
  let cpu_valid_mask := if kthread || is_migration_disabled t then cpu_online_mask else cpu_active_mask in
  if negb kthread && negb (cpumask_subset (ac_new_mask ctx) (task_cpu_possible_mask t)) then
    mret (Returns (- EINVAL), ctx)
  else if has (ac_flags ctx) SCA_CHECK && has (t_flags t) PF_NO_SETAFFINITY then
    mret (Returns (- EINVAL), ctx)
  else if negb (has (ac_flags ctx) SCA_MIGRATE_ENABLE) && (cpus_mask t =? ac_new_mask ctx) then
    if has (ac_flags ctx) SCA_USER then
      upd_task p (λ t, t <| user_cpus_ptr := ac_user_mask ctx |>);;
      mret (Returns 0, ctx <| ac_user_mask := user_cpus_ptr t |>)
    else mret (Returns 0, ctx)
  else if negb (has (ac_flags ctx) SCA_MIGRATE_ENABLE) &&
          (bool_decide (p = cur) && is_migration_disabled t && negb (Z.testbit (ac_new_mask ctx) (cpu t))) then
    mret (Returns (- EBUSY), ctx)
  else
    let dest_cpu := cpumask_any_and_distribute cpu_valid_mask (ac_new_mask ctx) in
    if nr_cpu_ids <=? dest_cpu then mret (Returns (- EINVAL), ctx)
    else
      ctx ← __do_set_cpus_allowed p ctx;
      res ← affine_move_task (cpu t) p dest_cpu (ac_flags ctx);
      mret (res, ctx).

(** Up to the wait. *)
Definition set_cpus_allowed_start (p : tid) (ctx : affinity_context) : M (aff_result * affinity_context) :=
  t ← task p;
  let ctx :=
    match user_cpus_ptr t with
    | Some user =>
        let scratch := Z.land (ac_new_mask ctx) user in
        if negb (has (ac_flags ctx) (Z.lor SCA_USER (Z.lor SCA_MIGRATE_ENABLE SCA_MIGRATE_DISABLE))) &&
           negb (scratch =? 0)
        then ctx <| ac_new_mask := scratch |> <| ac_own := false |> else ctx
    | None => ctx
    end in
  __set_cpus_allowed_ptr_locked p ctx.

(** The rest of [affine_move_task]. *)
Definition set_cpus_allowed_finish (res : aff_result) : M Z :=
  match res with
  | Returns ret => mret ret
  | Waits q =>
      me ← current;
      wait_for_completion q;;
      affine_woken q;;
      wait_refs_zero me;;
      mret 0
  end.

Definition __set_cpus_allowed_ptr (p : tid) (ctx : affinity_context) : M (Z * affinity_context) :=
  '(res, ctx) ← set_cpus_allowed_start p ctx;
  ret ← set_cpus_allowed_finish res;
  mret (ret, ctx).

Definition set_cpus_allowed_ptr (p : tid) (new_mask : Z) : M Z :=
  '(ret, _) ← __set_cpus_allowed_ptr p
    {| ac_new_mask := new_mask; ac_own := false; ac_user_mask := None; ac_flags := 0 |};
  mret ret.

(** ** Regions with migration disabled *)

Definition u16 (n : Z) : Z := n mod 2 ^ 16.

Definition migrate_disable : M unit :=
  p ← current;
  t ← task p;
  if negb (migration_disabled t =? 0) then
    upd_task p (λ t, t <| migration_disabled ::= λ n, u16 (n + 1) |>)
  else
    c ← smp_processor_id;
    upd_rq c (λ r, r <| nr_pinned ::= λ n, u32 (n + 1) |>);;
    upd_task p (λ t, t <| migration_disabled := 1 |>).

Definition migrate_enable : M unit :=
  p ← current;
  t ← task p;
  if 1 <? migration_disabled t then
    upd_task p (λ t, t <| migration_disabled ::= λ n, u16 (n - 1) |>)
  else
    when (bool_decide (cpus_other t ≠ None))
      (__set_cpus_allowed_ptr p {| ac_new_mask := cpus_mask t; ac_own := true; ac_user_mask := None;
                                   ac_flags := SCA_MIGRATE_ENABLE |};;
       skip);;
    upd_task p (λ t, t <| migration_disabled := 0 |>);;
    c ← smp_processor_id;
    upd_rq c (λ r, r <| nr_pinned ::= λ n, u32 (n - 1) |>).

Definition rq_has_pinned_tasks (r : rq) : bool := negb (nr_pinned r =? 0).

(** ** User masks and forced masks *)

Definition task_user_cpus (t : task_struct) : Z := default cpu_possible_mask (user_cpus_ptr t).

Definition dup_user_cpus_ptr (dst src : tid) : M Z :=
  upd_task dst (λ t, t <| user_cpus_ptr := None |>);;
  t ← task src;
  match user_cpus_ptr t with
  | None => mret 0
  | Some user =>
      if negb alloc_user_cpus_ptr then mret (- ENOMEM) else
      upd_task dst (λ t, t <| user_cpus_ptr := Some user |>);;
      mret 0
  end.

Definition clear_user_cpus_ptr (p : tid) : M (option Z) :=
  t ← task p;
  upd_task p (λ t, t <| user_cpus_ptr := None |>);;
  mret (user_cpus_ptr t).
Definition release_user_cpus_ptr (p : tid) : M unit := clear_user_cpus_ptr p;; skip.

(** The error and the mask computed. *)
Definition restrict_cpus_allowed_ptr (p : tid) (subset_mask : Z) : M (Z * Z) :=
  t ← task p;
  let new_mask := Z.land (task_user_cpus t) subset_mask in
  if task_has_dl_policy t && dl_bandwidth_enabled then mret (- EPERM, new_mask) else
  if new_mask =? 0 then mret (- EINVAL, new_mask) else
  '(res, _) ← __set_cpus_allowed_ptr_locked p
    {| ac_new_mask := new_mask; ac_own := false; ac_user_mask := None; ac_flags := 0 |};
  ret ← set_cpus_allowed_finish res;
  mret (ret, new_mask).

(** [alloc_ok] says whether the mask could be allocated. *)
Definition force_compatible_cpus_allowed_ptr (p : tid) : M unit :=
  t ← task p;
  let override_mask := task_cpu_possible_mask t in
  if negb alloc_ok then set_cpus_allowed_ptr p override_mask;; skip else
  '(err, _) ← restrict_cpus_allowed_ptr p override_mask;
  if err =? 0 then skip else
  t ← task p;
  set_cpus_allowed_ptr p (cpuset_cpus_allowed 0 t);;
  skip.

(** * The system calls *)

Definition dl_task_check_affinity (t : task_struct) (mask : Z) : Z :=
  if negb (task_has_dl_policy t) || negb dl_bandwidth_enabled then 0
  else if dl_entity_is_special t then 0
  else if negb (cpumask_subset (rd_span (cpu t)) mask) then - EBUSY
  else 0.

(** [cpuset_cpus_allowed 0] and [cpuset_cpus_allowed 1] are the masks of the task's
    cpuset at the two reads. *)
Definition __sched_setaffinity (p : tid) (ctx : affinity_context) : M (Z * affinity_context) :=
  if negb alloc_ok then mret (- ENOMEM, ctx) else
  t ← task p;
  let new_mask := Z.land (ac_new_mask ctx) (cpuset_cpus_allowed 0 t) in
  let ctx := ctx <| ac_new_mask := new_mask |> <| ac_own := false |>
                 <| ac_flags ::= λ f, Z.lor f SCA_CHECK |> in
  let retval := dl_task_check_affinity t new_mask in
  if negb (retval =? 0) then mret (retval, ctx) else
  '(retval, ctx) ← __set_cpus_allowed_ptr p ctx;
  if negb (retval =? 0) then mret (retval, ctx) else
  t ← task p;
  let cpus_allowed := cpuset_cpus_allowed 1 t in
  if negb (cpumask_subset new_mask cpus_allowed) then
    let new_mask :=
      match ac_user_mask ctx with
      | Some user =>
          if has (ac_flags ctx) SCA_USER && negb (Z.land cpus_allowed user =? 0)
          then Z.land cpus_allowed user else cpus_allowed
      | None => cpus_allowed
      end in
    '(_, ctx) ← __set_cpus_allowed_ptr p (ctx <| ac_new_mask := new_mask |>);
    mret (- EINVAL, ctx)
  else mret (0, ctx).

Definition relax_compatible_cpus_allowed_ptr (p : tid) : M unit :=
  t ← task p;
  __sched_setaffinity p {| ac_new_mask := task_user_cpus t; ac_own := false; ac_user_mask := None;
                           ac_flags := 0 |};;
  skip.

Definition sched_setaffinity (pid : Z) (in_mask : Z) : M Z :=
  p ← find_get_task pid;
  match p with
  | None => mret (- ESRCH)
  | Some p =>
      t ← task p;
      if has (t_flags t) PF_NO_SETAFFINITY then mret (- EINVAL) else
      same ← check_same_owner p;
      if negb same && negb capable_sys_nice then mret (- EPERM) else
      if negb (security_task_setscheduler t =? 0) then mret (security_task_setscheduler t) else
      if negb alloc_user_cpus_ptr then mret (- ENOMEM) else
      '(retval, _) ← __sched_setaffinity p
        {| ac_new_mask := in_mask; ac_own := false; ac_user_mask := Some in_mask; ac_flags := SCA_USER |};
      mret retval
  end.

(** [user_cpu_mask addr len] is the number the [len] bytes at [addr] denote; bytes
    beyond [len] of the mask are zero, bytes beyond the size of a mask are ignored. *)
Definition get_user_cpu_mask (user_mask_ptr len : Z) : M (Z * Z) :=
  let len := if cpumask_size <? len then cpumask_size else len in
  match user_cpu_mask user_mask_ptr len with
  | Some mask => mret (0, mask)
  | None => mret (- EFAULT, 0)
  end.

Definition sys_sched_setaffinity (pid len user_mask_ptr : Z) : M Z :=
  if negb alloc_ok then mret (- ENOMEM) else
  '(retval, new_mask) ← get_user_cpu_mask user_mask_ptr len;
  if retval =? 0 then sched_setaffinity pid new_mask else mret retval.

Definition sched_getaffinity (pid : Z) : M (Z * Z) :=
  p ← find_process_by_pid pid;
  match p with
  | None => mret (- ESRCH, 0)
  | Some p =>
      t ← task p;
      if negb (security_task_getscheduler t =? 0) then mret (security_task_getscheduler t, 0)
      else mret (0, Z.land (cpus_mask t) cpu_active_mask)
  end.

(** The value returned and the mask written to user memory, if any. *)
Definition sys_sched_getaffinity (pid len user_mask_ptr : Z) : M (Z * option Z) :=
  if u32 (len * BITS_PER_BYTE) <? nr_cpu_ids then mret (- EINVAL, None) else
  if negb (Z.land len 7 =? 0) then mret (- EINVAL, None) else
  if negb alloc_ok then mret (- ENOMEM, None) else
  '(ret, mask) ← sched_getaffinity pid;
  if negb (ret =? 0) then mret (ret, None) else
  let retlen := Z.min len cpumask_size in
  if negb (user_writable user_mask_ptr) then mret (- EFAULT, None)
  else mret (retlen, Some mask).

(** * Other reasons to move a task *)

(** The task is moved by the stopper of its CPU, if at all. *)
Definition sched_exec : M unit :=
  p ← current;
  t ← task p;
  f ← call_null (op_select_task_rq (class_ops (sched_class t)));
  dest_cpu ← f p (cpu t) WF_EXEC;
  c ← smp_processor_id;
  if dest_cpu =? c then skip else
  if negb (cpu_active dest_cpu) then skip else
  t ← task p;
  stop_one_cpu_nowait (cpu t) (migration_work p dest_cpu).

Definition migrate_task_to (p : tid) (target_cpu : Z) : M Z :=
  t ← task p;
  if cpu t =? target_cpu then mret 0 else
  if negb (Z.testbit (cpus_ptr t) target_cpu) then mret (- EINVAL) else
  stop_one_cpu_nowait (cpu t) (migration_work p target_cpu);;
  mret 0.

Definition __migrate_swap_task (p : tid) (c : Z) : M unit :=
  t ← task p;
  if task_on_rq_queued t then
    move_queued_task_locked (cpu t) c p;;
    wakeup_preempt c p 0
  else upd_task p (λ t, t <| wake_cpu := c |>).

Definition migrate_swap_stop (src_task dst_task : tid) (src_cpu dst_cpu : Z) : M Z :=
  if negb (cpu_active src_cpu) || negb (cpu_active dst_cpu) then mret (- EAGAIN) else
  ts ← task src_task;
  td ← task dst_task;
  if negb (cpu td =? dst_cpu) then mret (- EAGAIN) else
  if negb (cpu ts =? src_cpu) then mret (- EAGAIN) else
  if negb (Z.testbit (cpus_ptr ts) dst_cpu) then mret (- EAGAIN) else
  if negb (Z.testbit (cpus_ptr td) src_cpu) then mret (- EAGAIN) else
  __migrate_swap_task src_task dst_cpu;;
  __migrate_swap_task dst_task src_cpu;;
  mret 0.

(** The tests before the stoppers of both CPUs run [migrate_swap_stop]. *)
Definition migrate_swap (cur p : tid) (target_cpu curr_cpu : Z) : M Z :=
  tc ← task cur;
  tp ← task p;
  if curr_cpu =? target_cpu then mret (- EINVAL) else
  if negb (cpu_active curr_cpu) || negb (cpu_active target_cpu) then mret (- EINVAL) else
  if negb (Z.testbit (cpus_ptr tc) target_cpu) then mret (- EINVAL) else
  if negb (Z.testbit (cpus_ptr tp) curr_cpu) then mret (- EINVAL) else
  migrate_swap_stop cur p curr_cpu target_cpu.

Definition kick_process (p : tid) : M unit :=
  t ← task p;
  c ← smp_processor_id;
  b ← task_curr p;
  when (negb (cpu t =? c) && b) (trace_printk (smp_send_reschedule (cpu t))).

Definition task_can_attach (t : task_struct) : Z := if has (t_flags t) PF_NO_SETAFFINITY then - EINVAL else 0.
Definition task_is_pushable (t : task_struct) (c : Z) : bool := negb (on_cpu t) && Z.testbit (cpus_mask t) c.
End affinity.
