(* ===== verification/AffinityInv.v ===== *)
(** The protocol behind a change of affinity: the threads that ask for a change wait on
    a request that lives on the stack of the first of them, the stopper threads move
    the task and complete the request.  The steps of the protocol are the definitions
    of [Affinity]; the rest of the scheduler is an environment that moves the task
    within its allowed CPUs. *)
From S2P Require Import Prelude Rbtree KState HvfValue HvfClass HvfSmp HvfFrame Policy Uclamp Core Schedule Load Setsched Wakeup WakeupSpec Affinity.

(** * What the protocol sees of a task *)

(** Tasks that agree on the fields of the protocol. *)
Record aff_eq (t t' : task_struct) : Prop := {
  ae_cpu : cpu t' = cpu t; ae_mask : cpus_mask t' = cpus_mask t; ae_other : cpus_other t' = cpus_other t;
  ae_dis : migration_disabled t' = migration_disabled t;
  ae_pending : migration_pending t' = migration_pending t;
  ae_on_rq : on_rq t' = on_rq t; ae_on_cpu : on_cpu t' = on_cpu t; ae_state : __state t' = __state t;
  ae_flags : t_flags t' = t_flags t; ae_class : sched_class t' = sched_class t;
}.
#[export] Instance aff_eq_preorder : PreOrder aff_eq.
Proof. split; [by split|]. intros ? ? ? [] []. split; congruence. Qed.

(** The rest of the state the protocol relies on. *)
Record aff_frame (s s' : kstate) : Prop := {
  af_pending : k_pending s' = k_pending s; af_stops : k_stops s' = k_stops s;
  af_cpu : k_cpu s' = k_cpu s; af_uclamp : k_uclamp s' = k_uclamp s;
  af_curr c : curr <$> k_rqs s' !! c = curr <$> k_rqs s !! c;
  af_dom q : is_Some (k_tasks s' !! q) ↔ is_Some (k_tasks s !! q);
}.
#[export] Instance aff_frame_preorder : PreOrder aff_frame.
Proof.
  split; [by split|]. intros ? ? ? [P1 S1 C1 U1 R1 D1] [P2 S2 C2 U2 R2 D2].
  split; [congruence..| |]; intros; by rewrite ?R2, ?D2.
Qed.

(** [p] is now [t'] and nothing else of the protocol changed. *)
Definition now (s s' : kstate) (p : tid) (t' : task_struct) : Prop :=
  aff_frame s s' ∧ ∃ u, k_tasks s' !! p = Some u ∧ aff_eq t' u.
Definition quiet (s s' : kstate) (p : tid) : Prop :=
  ∀ t, k_tasks s !! p = Some t → now s s' p t.

Lemma aff_frame_rq s s' c : aff_frame s s' → is_Some (k_rqs s !! c) → is_Some (k_rqs s' !! c).
Proof.
  intros Hf [r Hr]. pose proof (af_curr _ _ Hf c) as Hc. rewrite Hr in Hc.
  destruct (k_rqs s' !! c); [eauto|done].
Qed.
Lemma aff_frame_currs s s' : aff_frame s s' → currs_alive s → currs_alive s'.
Proof.
  intros Hf Ha c r' Hr'. pose proof (af_curr _ _ Hf c) as Hc. rewrite Hr' in Hc.
  destruct (k_rqs s !! c) as [r|] eqn:Hr; [|done]. cbn in Hc. apply (inj Some) in Hc. rewrite Hc.
  apply (af_dom _ _ Hf). by eapply Ha.
Qed.
Lemma aff_frame_task s p t' :
  is_Some (k_tasks s !! p) → aff_frame s (s <| k_tasks := <[p := t']> (k_tasks s) |>).
Proof. intros Hp. split; try done. intros q. cbn. rewrite lookup_insert_is_Some'. naive_solver. Qed.
Lemma aff_frame_upd_rq s c r r' :
  k_rqs s !! c = Some r → curr r' = curr r → aff_frame s (s <| k_rqs := <[c := r']> (k_rqs s) |>).
Proof.
  intros Hr Hc. split; try done. intros c'. cbn. destruct (decide (c = c')) as [->|].
  - rewrite lookup_insert_eq, Hr. cbn. by rewrite Hc.
  - by rewrite lookup_insert_ne.
Qed.

Lemma now_trans s s1 s2 p t t' :
  now s s1 p t → (∀ u, k_tasks s1 !! p = Some u → aff_eq t u → now s1 s2 p t') → now s s2 p t'.
Proof.
  intros [Hf (u&Hu&Heq)] H. destruct (H u Hu Heq) as [Hf' ?]. split; [by etrans|done].
Qed.
Lemma now_eq s s' p t t' : now s s' p t → aff_eq t' t → now s s' p t'.
Proof. intros [Hf (u&?&?)] Heq. split; [done|]. exists u. split; [done|by etrans]. Qed.
Lemma now_insert s p t' :
  is_Some (k_tasks s !! p) → now s (s <| k_tasks := <[p := t']> (k_tasks s) |>) p t'.
Proof.
  intros Hp. split; [by apply aff_frame_task|]. exists t'. by split; [apply lookup_insert_eq|].
Qed.

(** * The scheduling class of the task *)

Section protocol.
Context {L : RbLib} {TC : TickConfig} {S : SmpLib} {UC : UclampConfig} {E : Ext}
  {OC : OtherClasses} {CL : CpuLib} {AL : AffLib} {SL : SysLib} {UM : UserMem}.

(** An operation on [p] that succeeds and keeps what the protocol sees. *)
Definition quiet_op {A} (p : tid) (m : M A) : Prop :=
  ∀ s, is_Some (k_tasks s !! p) → wp m s (λ _ s', quiet s s' p).

(** The contract of a class that supports affinity: its operations keep to their own
    data, and [set_cpus_allowed] does what [set_cpus_allowed_common] does. *)
Record affinity_class (cl : sched_class_id) : Prop := {
  ac_class : cl ≠ hvf_sched_class;
  ac_enqueue : ∃ f, op_enqueue_task (other_class cl) = Some f ∧ ∀ c p fl, quiet_op p (f c p fl);
  ac_dequeue : ∃ f, op_dequeue_task (other_class cl) = Some f ∧ ∀ c p fl, quiet_op p (f c p fl);
  ac_put_prev : ∃ f, op_put_prev_task (other_class cl) = Some f ∧ ∀ c p n, quiet_op p (f c p n);
  ac_set_next : ∃ f, op_set_next_task (other_class cl) = Some f ∧ ∀ c p b, quiet_op p (f c p b);
  ac_wakeup : ∃ f, op_wakeup_preempt (other_class cl) = Some f ∧ ∀ c p fl, quiet_op p (f c p fl);
  ac_migrate f c p : op_migrate_task_rq (other_class cl) = Some f → quiet_op p (f p c);
  ac_set_cpus : ∃ f, op_set_cpus_allowed (other_class cl) = Some f ∧
    ∀ p ctx s, is_Some (k_tasks s !! p) → wp (f p ctx) s (λ ctx' s', ∃ s1,
      set_cpus_allowed_common p ctx s = Ok (ctx', s1) ∧ quiet s1 s' p);
}.

(** The setting: the task exists, its class supports affinity, every CPU has a run
    queue and a running task, no clamp is in use. *)
Record setting (s : kstate) (p : tid) (t : task_struct) : Prop := {
  se_task : ∃ u, k_tasks s !! p = Some u ∧ aff_eq t u;
  se_class : affinity_class (sched_class t);
  se_rqs c : 0 <= c < nr_cpu_ids → is_Some (k_rqs s !! c);
  se_alive : currs_alive s;
  se_uclamp : sched_uclamp_used (k_uclamp s) = false;
}.

Lemma setting_now s s' p t t' :
  setting s p t → now s s' p t' → sched_class t' = sched_class t → setting s' p t'.
Proof.
  intros [Hu Hcl Hrq Ha Huc] [Hf Hu'] Hc. split; [done|by rewrite Hc|..].
  - intros c Hc'. eapply aff_frame_rq; eauto.
  - by eapply aff_frame_currs.
  - by rewrite (af_uclamp _ _ Hf).
Qed.

Lemma class_ops_other cl : affinity_class cl → class_ops cl = other_class cl.
Proof. intros [Hne _ _ _ _ _ _ _]. by destruct cl. Qed.

Lemma wp_quiet_op {A} (m : M A) s p t Q :
  quiet_op p m → setting s p t → (∀ a s', now s s' p t → setting s' p t → Q a s') → wp m s Q.
Proof.
  intros Hm Hs HQ. destruct (se_task _ _ _ Hs) as (u&Hu&Heq).
  eapply wp_mono; [by apply Hm; eauto|]. intros a s' Hq.
  assert (now s s' p t) by (by eapply now_eq; [apply Hq|]). apply HQ; [done|]. by eapply setting_now.
Qed.

Lemma wp_ops_of s p t Q :
  setting s p t → Q (other_class (sched_class t)) s → wp (ops_of p) s Q.
Proof.
  intros Hs HQ. destruct (se_task _ _ _ Hs) as (u&Hu&Heq). unfold ops_of.
  apply wp_bind. eapply wp_task; [done|]. apply wp_ret. rewrite (ae_class _ _ Heq).
  by rewrite class_ops_other by apply Hs.
Qed.

Lemma wp_enqueue_quiet s p t c flags Q :
  setting s p t → (∀ s', now s s' p t → setting s' p t → Q tt s') → wp (enqueue_task c p flags) s Q.
Proof.
  intros Hs HQ. unfold enqueue_task. apply wp_bind. eapply wp_ops_of; [done|].
  destruct (ac_enqueue _ (se_class _ _ _ Hs)) as (f&->&Hf). apply wp_bind, wp_call_null, wp_bind.
  eapply wp_quiet_op; [done|done|]. intros [] s' Hn Hs'. apply wp_bind. eapply wp_ops_of; [done|].
  unfold uclamp_rq_inc. apply wp_bind, wp_get. rewrite (se_uclamp _ _ _ Hs'). by apply wp_skip, HQ.
Qed.
Lemma wp_dequeue_quiet s p t c flags Q :
  setting s p t → (∀ b s', now s s' p t → setting s' p t → Q b s') → wp (dequeue_task c p flags) s Q.
Proof.
  intros Hs HQ. unfold dequeue_task. apply wp_bind. eapply wp_ops_of; [done|].
  unfold uclamp_rq_dec. apply wp_bind, wp_bind, wp_get. rewrite (se_uclamp _ _ _ Hs). apply wp_skip.
  destruct (ac_dequeue _ (se_class _ _ _ Hs)) as (f&->&Hf). apply wp_bind, wp_call_null.
  by eapply wp_quiet_op.
Qed.
Lemma wp_put_prev_quiet s p t c Q :
  setting s p t → (∀ s', now s s' p t → setting s' p t → Q tt s') → wp (put_prev_task c p) s Q.
Proof.
  intros Hs HQ. unfold put_prev_task. apply wp_bind. eapply wp_ops_of; [done|].
  destruct (ac_put_prev _ (se_class _ _ _ Hs)) as (f&->&Hf). apply wp_bind, wp_call_null.
  eapply wp_quiet_op; [done|done|]. intros []. by apply HQ.
Qed.
Lemma wp_set_next_quiet s p t c Q :
  setting s p t → (∀ s', now s s' p t → setting s' p t → Q tt s') → wp (set_next_task c p) s Q.
Proof.
  intros Hs HQ. unfold set_next_task. apply wp_bind. eapply wp_ops_of; [done|].
  destruct (ac_set_next _ (se_class _ _ _ Hs)) as (f&->&Hf). apply wp_bind, wp_call_null.
  eapply wp_quiet_op; [done|done|]. intros []. by apply HQ.
Qed.
Lemma now_refl s p t : setting s p t → now s s p t.
Proof. intros Hs. split; [done|]. apply Hs. Qed.
Lemma now_now s s1 s2 p t t' : now s s1 p t → now s1 s2 p t' → now s s2 p t'.
Proof. intros [H1 _] [H2 ?]. split; [by etrans|done]. Qed.

(** A field update of [p] and the task it leads to. *)
Lemma wp_upd_now s p t f Q :
  setting s p t → (∀ u, aff_eq t u → aff_eq (f t) (f u)) → sched_class (f t) = sched_class t →
  (∀ s', now s s' p (f t) → setting s' p (f t) → Q tt s') → wp (upd_task p f) s Q.
Proof.
  intros Hs Hf Hc HQ. destruct (se_task _ _ _ Hs) as (u&Hu&Heq). eapply wp_upd_task; [done|].
  assert (now s (s <| k_tasks := <[p := f u]> (k_tasks s) |>) p (f t)) as Hn.
  { eapply now_eq; [apply now_insert; eauto|auto]. }
  apply HQ; [done|]. by eapply setting_now.
Qed.

(** The mask after the change. *)
Definition set_mask t (ctx : affinity_context) : task_struct :=
  if has (ac_flags ctx) (Z.lor SCA_MIGRATE_ENABLE SCA_MIGRATE_DISABLE)
  then t <| cpus_other := if ac_own ctx then None else Some (ac_new_mask ctx) |>
  else t <| cpus_mask := ac_new_mask ctx |>.

Lemma set_cpus_common_now s p t ctx :
  setting s p t → ∃ ctx' s', set_cpus_allowed_common p ctx s = Ok (ctx', s') ∧
    ac_flags ctx' = ac_flags ctx ∧ now s s' p (set_mask t ctx).
Proof.
  intros Hs. destruct (se_task _ _ _ Hs) as (u&Hu&Heq). apply (wp_inv _ _ (λ ctx' s',
    ac_flags ctx' = ac_flags ctx ∧ now s s' p (set_mask t ctx))).
  unfold set_cpus_allowed_common, set_mask. destruct (has _ (Z.lor _ _)).
  - apply wp_bind. eapply wp_upd_task; [done|]. apply wp_ret. split; [done|].
    eapply now_eq; [apply now_insert; eauto|]. destruct Heq; by split.
  - apply wp_bind. eapply wp_upd_task; [done|]. apply wp_bind. eapply wp_task; [apply lookup_insert_eq|].
    set (s1 := s <| k_tasks := _ |>). set (u1 := u <| cpus_mask := _ |> <| nr_cpus_allowed := _ |>).
    assert (now s s1 p (t <| cpus_mask := ac_new_mask ctx |>)) as Hn.
    { eapply now_eq; [apply now_insert; eauto|]. destruct Heq; by split. }
    destruct (has _ SCA_USER); [|by apply wp_ret].
    apply wp_bind. eapply wp_upd_task; [apply lookup_insert_eq|]. apply wp_ret. split; [done|].
    eapply now_now; [done|]. eapply now_eq; [apply now_insert; eexists; apply lookup_insert_eq|]. destruct Heq; by split.
Qed.

Lemma set_mask_class t ctx : sched_class (set_mask t ctx) = sched_class t.
Proof. unfold set_mask. by case_match. Qed.

Lemma wp_do_set_cpus_allowed s p t ctx Q :
  setting s p t → is_Some (k_rqs s !! cpu t) →
  (∀ ctx' s', ac_flags ctx' = ac_flags ctx → now s s' p (set_mask t ctx) →
     setting s' p (set_mask t ctx) → Q ctx' s') →
  wp (__do_set_cpus_allowed p ctx) s Q.
Proof.
  intros Hs [r Hr] HQ. destruct (se_task _ _ _ Hs) as (u&Hu&Heq). unfold __do_set_cpus_allowed.
  apply wp_bind. eapply wp_task; [done|]. rewrite (ae_cpu _ _ Heq).
  apply wp_bind. eapply wp_rq; [done|]. set (queued := task_on_rq_queued u). set (running := task_current_donor r p).
  apply wp_bind. apply (wp_mono _ _ (λ _ s', now s s' p t ∧ setting s' p t)).
  { apply wp_when; intros _; [|by split; [apply now_refl|]].
    apply wp_bind. eapply wp_dequeue_quiet; [done|]. intros b s' ? ?. by apply wp_skip. }
  intros [] s1 [Hn1 Hs1]. apply wp_bind. apply (wp_mono _ _ (λ _ s', now s s' p t ∧ setting s' p t)).
  { apply wp_when; intros _; [|done]. eapply wp_put_prev_quiet; [done|]. intros s' ? ?.
    split; [by eapply now_now|done]. }
  intros [] s2 [Hn2 Hs2]. apply wp_bind. eapply wp_ops_of; [done|].
  destruct (ac_set_cpus _ (se_class _ _ _ Hs2)) as (f&->&Hf). apply wp_bind, wp_call_null, wp_bind.
  destruct (set_cpus_common_now s2 p t ctx Hs2) as (ctx'&s3&Hok&Hfl&Hn3).
  destruct (se_task _ _ _ Hs2) as (u2&Hu2&_). eapply wp_mono; [by apply Hf; eauto|].
  intros ctx'' s4 (s3'&Hok'&Hq). rewrite Hok in Hok'. injection Hok' as <- <-.
  assert (now s s4 p (set_mask t ctx)) as Hn4.
  { eapply now_now; [done|]. eapply now_trans; [done|]. intros v Hv Hveq. by eapply now_eq; [apply Hq|]. }
  assert (setting s4 p (set_mask t ctx)) as Hs4.
  { by eapply setting_now; [exact Hs| |apply set_mask_class]. }
  apply wp_bind. apply (wp_mono _ _ (λ _ s', now s s' p (set_mask t ctx) ∧ setting s' p (set_mask t ctx))).
  { apply wp_when; intros _; [|done]. eapply wp_enqueue_quiet; [done|]. intros s' ? ?.
    split; [by eapply now_now|done]. }
  intros [] s5 [Hn5 Hs5]. apply wp_bind.
  apply (wp_mono _ _ (λ _ s', now s s' p (set_mask t ctx) ∧ setting s' p (set_mask t ctx))).
  { apply wp_when; intros _; [|done]. eapply wp_set_next_quiet; [done|]. intros s' ? ?.
    split; [by eapply now_now|done]. }
  intros [] s6 [Hn6 Hs6]. by apply wp_ret, HQ.
Qed.

(** A queued task after its move. *)
Definition moved t (c : Z) : task_struct := t <| cpu := c |> <| on_rq := TASK_ON_RQ_QUEUED |>.

Lemma aff_frame_rescheduled s s' q t : k_tasks s !! q = Some t → rescheduled s s' q t → aff_frame s s'.
Proof.
  intros Ht [l ->]. split; try done. intros q'. cbn. rewrite lookup_insert_is_Some'. naive_solver.
Qed.
Lemma rescheduled_now s s' q tq p t :
  setting s p t → k_tasks s !! q = Some tq → rescheduled s s' q tq → now s s' p t.
Proof.
  intros Hs Hq Hre. split; [by eapply aff_frame_rescheduled|]. destruct Hre as [l ->].
  destruct (se_task _ _ _ Hs) as (u&Hu&Heq). cbn. destruct (decide (q = p)) as [->|].
  - simplify_eq. eexists. split; [apply lookup_insert_eq|]. destruct Heq. by split.
  - exists u. by rewrite lookup_insert_ne.
Qed.

Lemma wp_move_queued_task s p t c new_cpu Q :
  setting s p t → is_Some (k_rqs s !! new_cpu) →
  (∀ s', now s s' p (moved t new_cpu) → setting s' p (moved t new_cpu) → Q tt s') →
  wp (move_queued_task c p new_cpu) s Q.
Proof.
  intros Hs Hrq HQ. unfold move_queued_task, deactivate_task, activate_task.
  set (t1 := t <| on_rq := TASK_ON_RQ_MIGRATING |>). set (t2 := t1 <| cpu := new_cpu |>).
  apply wp_bind, wp_bind. eapply (wp_upd_now s p t); [done|intros u []; by split|done|]. fold t1.
  intros s1 Hn1 Hs1. apply wp_bind. eapply wp_dequeue_quiet; [done|]. intros b s2 Hn2 Hs2. apply wp_skip.
  apply wp_bind. unfold set_task_cpu, __set_task_cpu. destruct (se_task _ _ _ Hs2) as (u2&Hu2&Heq2).
  apply wp_bind. eapply wp_task; [done|].
  apply wp_bind, (wp_mono _ _ (λ _ s', now s2 s' p t1 ∧ setting s' p t1)).
  { apply wp_when; intros _; [|by split; [apply now_refl|]]. rewrite (ae_class _ _ Heq2).
    rewrite class_ops_other by apply Hs2. destruct (op_migrate_task_rq _) as [f|] eqn:Hf.
    - eapply wp_quiet_op; [by eapply ac_migrate; [apply Hs2|]|done|]. by intros [] s'.
    - apply wp_skip. by split; [apply now_refl|]. }
  intros [] s3 [Hn3 Hs3]. eapply (wp_upd_now s3 p t1); [done|intros u []; by split|done|].
  intros s4 Hn4 Hs4. apply wp_bind, wp_bind. destruct (se_task _ _ _ Hs4) as (u4&Hu4&Heq4).
  eapply wp_task; [done|]. apply wp_bind. eapply wp_enqueue_quiet; [done|]. intros s5 Hn5 Hs5.
  eapply wp_upd_now; [done|intros u []; by split|done|]. intros s6 Hn6 Hs6.
  assert (now s s6 p (moved t new_cpu)) as Hn.
  { do 5 (eapply now_now; [eassumption|]). by eapply now_eq; [exact Hn6|split]. }
  assert (setting s6 p (moved t new_cpu)) as Hs' by (eapply setting_now; [exact Hs|exact Hn|reflexivity]).
  destruct (aff_frame_rq s s6 new_cpu) as [r6 Hr6]; [apply Hn|done|].
  destruct (se_alive _ _ _ Hs' _ _ Hr6) as [td Htd]. destruct (se_task _ _ _ Hs') as (u6&Hu6&Heq6).
  unfold wakeup_preempt. apply wp_bind. eapply wp_rq; [done|]. apply wp_bind. eapply wp_task; [done|].
  apply wp_bind. eapply wp_task; [done|]. case_bool_decide as Hcl.
  - rewrite <-Hcl, (ae_class _ _ Heq6), class_ops_other by apply Hs'.
    destruct (ac_wakeup _ (se_class _ _ _ Hs')) as (f&->&Hf). apply wp_bind, wp_call_null.
    eapply wp_quiet_op; [done|done|]. intros [] s' ? ?. apply HQ; [by eapply now_now|done].
  - apply wp_when; intros _; [|by apply HQ]. eapply wp_resched_curr; [done..|]. intros s' Hre.
    assert (now s6 s' p (moved t new_cpu)) by exact (rescheduled_now s6 s' (curr r6) td p _ Hs' Htd Hre).
    apply HQ; [by eapply now_now|]. by eapply (setting_now s6); [exact Hs'|..].
Qed.
End protocol.

(** * The threads and the stoppers *)

(** A thread inside [affine_move_task]: waiting for the request of [q], or past the
    wait and waiting for the last reference to its own request. *)
Inductive caller := CWait (q : tid) | CDrain.
#[export] Instance caller_eq_dec : EqDecision caller.
Proof. solve_decision. Defined.

(** The number of threads that wait for [q], and of works queued for it. *)
Definition waiting (q : tid) (cs : gmap nat caller) : nat :=
  length (filter (λ kv, kv.2 = CWait q) (map_to_list cs)).
Definition works (q : tid) (stops : list (Z * stop_fn)) : nat :=
  length (filter (λ w, w.2 = migration_pending_work q) stops).

Lemma waiting_insert me x q cs :
  cs !! me = None → waiting q (<[me := x]> cs) = ((if decide (x = CWait q) then 1 else 0) + waiting q cs)%nat.
Proof.
  intros Hme. unfold waiting. rewrite (map_to_list_insert _ _ _ Hme), filter_cons. cbn. by case_decide.
Qed.
Lemma waiting_split me x q cs :
  cs !! me = Some x → waiting q cs = ((if decide (x = CWait q) then 1 else 0) + waiting q (delete me cs))%nat.
Proof.
  intros Hme. rewrite <-(waiting_insert me x q) by apply lookup_delete_eq. by rewrite insert_delete_id.
Qed.
Lemma waiting_change me x y q cs :
  cs !! me = Some x →
  (waiting q (<[me := y]> cs) + (if decide (x = CWait q) then 1 else 0) =
   waiting q cs + (if decide (y = CWait q) then 1 else 0))%nat.
Proof.
  intros Hme. rewrite <-insert_delete_eq, waiting_insert by apply lookup_delete_eq.
  rewrite (waiting_split me x q cs Hme). lia.
Qed.
Lemma waiting_none q cs : (∀ me, cs !! me ≠ Some (CWait q)) → waiting q cs = 0%nat.
Proof.
  intros Hno. unfold waiting. destruct (filter _ _) as [|[me x] l] eqn:Hl; [done|].
  assert ((me, x) ∈ (me, x) :: l) as Hin by set_solver. rewrite <-Hl in Hin.
  apply list_elem_of_filter in Hin as [Hx Hin]. cbn in Hx. subst x.
  by apply elem_of_map_to_list, Hno in Hin.
Qed.
Lemma waiting_some me q cs : cs !! me = Some (CWait q) → (0 < waiting q cs)%nat.
Proof. intros Hme. rewrite (waiting_split me _ q cs Hme), decide_True by done. lia. Qed.

Lemma works_app q l1 l2 : works q (l1 ++ l2) = (works q l1 + works q l2)%nat.
Proof. unfold works. by rewrite filter_app, length_app. Qed.
Lemma works_one q c w : works q [(c, w)] = if decide (w = migration_pending_work q) then 1%nat else 0%nat.
Proof. unfold works. rewrite filter_cons. cbn. by case_decide. Qed.

(** * The invariant *)

Section invariant.
Context {S : SmpLib} {AL : AffLib} {UM : UserMem}.
Implicit Types (t : task_struct) (a : affinity_pending) (cs : gmap nat caller) (p q me : tid)
  (pend : gmap nat affinity_pending) (stops : list (Z * stop_fn)).

(** The CPU of the task is in its mask. *)
Definition placed t : bool := Z.testbit (cpus_mask t) (cpu t).

(** The masks a task can get. *)
Definition mask_ok t (mask : Z) : Prop :=
  (has (t_flags t) PF_KTHREAD = true ∨ cpumask_subset mask (task_cpu_possible_mask t) = true) ∧
  cpumask_any_and_distribute cpu_online_mask mask < nr_cpu_ids.

Definition home_ok t : Prop := mask_ok t (cpus_mask t) ∧ 0 <= cpu t < nr_cpu_ids.

(** The request installed in the task: its owner waits for it, it is not complete, and
    it has a destination in the mask; without work for a stopper, the task is in a
    region with migration disabled and has been switched out there, so that the end of
    the region will look at the request ([en] and [de] say that these two hold;
    they do not while [affine_move_task] is at work). *)
Record installed (en de : bool) p t cs q a : Prop := {
  in_owner : cs !! q = Some (CWait q);
  in_task : ap_task a = p;
  in_open : ap_done a = false;
  in_enabled : en = true → ap_stop_pending a = false → migration_disabled t ≠ 0 ∧ cpus_other t ≠ None;
  in_dest : de = true → placed t = false →
    0 <= ap_dest_cpu a < nr_cpu_ids ∧ Z.testbit (cpus_mask t) (ap_dest_cpu a) = true;
}.

Record aff_inv (en de : bool) p t pend stops cs : Prop := {
  ai_slot me : is_Some (cs !! me) → ∃ a, pend !! me = Some a ∧
    ap_refs a = Z.of_nat (waiting me cs) ∧ works me stops = (if ap_stop_pending a then 1 else 0)%nat ∧
    (ap_stop_pending a = true → migration_pending t = Some me);
  ai_wait me q : cs !! me = Some (CWait q) → is_Some (cs !! q) ∧ ∃ a, pend !! q = Some a ∧
    (ap_done a = true ∨ migration_pending t = Some q);
  ai_pending q : migration_pending t = Some q → ∃ a, pend !! q = Some a ∧ installed en de p t cs q a;
  ai_works q : cs !! q = None → works q stops = 0%nat;
  ai_switched : on_cpu t = false → migration_disabled t ≠ 0 → cpus_other t ≠ None;
  ai_other : cpus_other t ≠ None → migration_disabled t ≠ 0;
  ai_mask : home_ok t;
}.

(** A change of the task that keeps the request. *)
Lemma aff_inv_task b c b' c' p t t' pend stops cs :
  aff_inv b c p t pend stops cs → migration_pending t' = migration_pending t →
  (∀ q a, migration_pending t = Some q → pend !! q = Some a → installed b c p t cs q a → installed b' c' p t' cs q a) →
  (on_cpu t' = false → migration_disabled t' ≠ 0 → cpus_other t' ≠ None) →
  (cpus_other t' ≠ None → migration_disabled t' ≠ 0) → home_ok t' →
  aff_inv b' c' p t' pend stops cs.
Proof.
  intros [Hsl Hw Hp Hk _ _ _] Hmp Hin Hsw Hot Hm. split; try done.
  - intros me Hme. destruct (Hsl me Hme) as (a&?&?&?&?). exists a. by rewrite Hmp.
  - intros me q Hq. rewrite Hmp. by apply (Hw me).
  - intros q. rewrite Hmp. intros Hq. destruct (Hp q Hq) as (a&Ha&?). exists a. eauto.
Qed.

Lemma aff_inv_stops b c p t pend stops stops' cs :
  aff_inv b c p t pend stops cs → (∀ q, works q stops' = works q stops) → aff_inv b c p t pend stops' cs.
Proof.
  intros [Hsl Hw Hp Hk Hsw Hot Hm] Hq. split; try done.
  - intros me Hme. destruct (Hsl me Hme) as (a&?&?&?&?). exists a. by rewrite Hq.
  - intros q. rewrite Hq. apply Hk.
Qed.

(** A thread prepares a request of its own. *)
Lemma aff_inv_fresh b c p t pend stops cs me :
  aff_inv b c p t pend stops cs → cs !! me = None → aff_inv b c p t (<[me := zero_pending]> pend) stops cs.
Proof.
  intros [Hsl Hw Hp Hk Hsw Hot Hm] Hme. split; try done.
  - intros q Hq. rewrite lookup_insert_ne by (intros ->; rewrite Hme in Hq; by destruct Hq). by apply Hsl.
  - intros me' q Hq. destruct (Hw me' q Hq) as [Hs ?]. split; [done|].
    by rewrite lookup_insert_ne by (intros ->; rewrite Hme in Hs; by destruct Hs).
  - intros q Hq. destruct (Hp q Hq) as (a&?&Hin). exists a.
    by rewrite lookup_insert_ne by (intros ->; pose proof (in_owner _ _ _ _ _ _ _ Hin); congruence).
Qed.

(** The request is taken out of the task and completed. *)
Lemma aff_inv_complete b c b' c' p t t' pend stops cs q a a' :
  aff_inv b c p t pend stops cs → migration_pending t = Some q → pend !! q = Some a →
  migration_pending t' = None → works q stops = 0%nat →
  ap_refs a' = ap_refs a → ap_stop_pending a' = false → ap_done a' = true →
  (on_cpu t' = false → migration_disabled t' ≠ 0 → cpus_other t' ≠ None) →
  (cpus_other t' ≠ None → migration_disabled t' ≠ 0) → home_ok t' →
  aff_inv b' c' p t' (<[q := a']> pend) stops cs.
Proof.
  intros [Hsl Hw Hp Hk _ _ _] Hq Ha Hq' Hwk Hr Hsp Hd Hsw Hot Hm. split; try done.
  - intros me Hme. destruct (decide (me = q)) as [->|].
    + destruct (Hsl q Hme) as (a0&?&Hre&_). simplify_eq. exists a'.
      rewrite lookup_insert_eq, Hsp, Hr. by split_and!.
    + destruct (Hsl me Hme) as (a0&?&?&?&Hs). exists a0. rewrite lookup_insert_ne by done.
      split_and!; try done. intros Hs'. specialize (Hs Hs'). congruence.
  - intros me q' Hq''. destruct (Hw me q' Hq'') as [? (a0&?&Hd0)]. split; [done|].
    destruct (decide (q' = q)) as [->|].
    + exists a'. rewrite lookup_insert_eq. auto.
    + exists a0. rewrite lookup_insert_ne by done. split; [done|]. destruct Hd0; [by left|congruence].
  - intros q'. by rewrite Hq'.
Qed.

(** The installed request changes: references, destination, stopper work. *)
Lemma aff_inv_update b c b' c' p t pend stops stops' cs q a a' :
  aff_inv b c p t pend stops cs → migration_pending t = Some q → pend !! q = Some a →
  ap_refs a' = ap_refs a → ap_done a' = false → installed b' c' p t cs q a' →
  (∀ q', q' ≠ q → works q' stops' = works q' stops) →
  works q stops' = (if ap_stop_pending a' then 1 else 0)%nat →
  aff_inv b' c' p t (<[q := a']> pend) stops' cs.
Proof.
  intros [Hsl Hw Hp Hk Hsw Hot Hm] Hq Ha Hr Hd Hin Hwo Hwq. split; try done.
  - intros me Hme. destruct (decide (me = q)) as [->|].
    + destruct (Hsl q Hme) as (a0&?&Hre&_). simplify_eq. exists a'.
      rewrite lookup_insert_eq, Hr. by split_and!.
    + destruct (Hsl me Hme) as (a0&?&?&?&Hs). exists a0. rewrite lookup_insert_ne, Hwo by done. by split_and!.
  - intros me q' Hq'. destruct (Hw me q' Hq') as [? (a0&?&Hd0)]. split; [done|].
    destruct (decide (q' = q)) as [->|].
    + exists a'. rewrite lookup_insert_eq. auto.
    + exists a0. by rewrite lookup_insert_ne.
  - intros q' Hq'. assert (q' = q) as -> by congruence. exists a'. by rewrite lookup_insert_eq.
  - intros q' Hq'. rewrite Hwo; [by apply Hk|]. intros ->. by rewrite (in_owner _ _ _ _ _ _ _ Hin) in Hq'.
Qed.

(** Nobody refers to the request of a thread outside the protocol. *)
Lemma no_waiters b c p t pend stops cs me :
  aff_inv b c p t pend stops cs → cs !! me = None → waiting me cs = 0%nat.
Proof.
  intros Hi Hme. apply waiting_none. intros me' Hw. destruct (ai_wait _ _ _ _ _ _ _ Hi me' me Hw) as [[? ?] _].
  congruence.
Qed.

(** A thread joins the installed request. *)
Lemma aff_inv_join p t pend stops cs me q a a' :
  aff_inv true false p t pend stops cs → cs !! me = None → pend !! me = Some zero_pending →
  migration_pending t = Some q → pend !! q = Some a →
  ap_refs a' = ap_refs a + 1 → ap_stop_pending a' = ap_stop_pending a → installed false true p t cs q a' →
  aff_inv false true p t (<[q := a']> pend) stops (<[me := CWait q]> cs).
Proof.
  intros Hi Hme Hz Hq Ha Hr Hsp [Ho Ht Hop Hen Hde]. pose proof (no_waiters _ _ _ _ _ _ _ _ Hi Hme) as Hwm.
  destruct Hi as [Hsl Hw Hp Hk Hsw Hot Hm]. assert (q ≠ me) as Hne by congruence. split; try done.
  - intros me' Hme'. rewrite waiting_insert by done. destruct (decide (me' = me)) as [->|Hm'].
    { exists zero_pending. rewrite lookup_insert_ne, decide_False, Hwm by (done || congruence).
      split_and!; [done|done|by apply Hk|done]. }
    rewrite lookup_insert_ne in Hme' by done. destruct (Hsl me' Hme') as (a0&Ha0&Hr0&Hw0&Hs0).
    destruct (decide (me' = q)) as [->|].
    + simplify_eq. exists a'. rewrite lookup_insert_eq, decide_True, Hsp by done. split_and!; [done|lia|done|done].
    + exists a0. rewrite lookup_insert_ne, decide_False by (done || congruence). done.
  - intros me' q' Hq'. assert (q' = q ∨ cs !! me' = Some (CWait q')) as Hc.
    { destruct (decide (me' = me)) as [->|]; [rewrite lookup_insert_eq in Hq'|rewrite lookup_insert_ne in Hq' by done];
        naive_solver. }
    rewrite lookup_insert_is_Some'. destruct (decide (q' = q)) as [->|].
    + split; [eauto|]. exists a'. rewrite lookup_insert_eq. auto.
    + destruct Hc as [->|Hc]; [done|]. destruct (Hw me' q' Hc) as [? (a0&?&?)]. split; [eauto|].
      exists a0. by rewrite lookup_insert_ne.
  - intros q' Hq'. assert (q' = q) as -> by congruence. exists a'. rewrite lookup_insert_eq. split; [done|].
    split; try done. by rewrite lookup_insert_ne.
  - intros q' Hq'. apply lookup_insert_None in Hq' as [? _]. by apply Hk.
Qed.

(** A thread installs its request. *)
Lemma aff_inv_install p t t' pend stops cs me a' :
  aff_inv true false p t pend stops cs → cs !! me = None → migration_pending t = None →
  migration_pending t' = Some me → ap_refs a' = 1 → ap_stop_pending a' = false →
  installed false true p t' (<[me := CWait me]> cs) me a' →
  (on_cpu t' = false → migration_disabled t' ≠ 0 → cpus_other t' ≠ None) →
  (cpus_other t' ≠ None → migration_disabled t' ≠ 0) → home_ok t' →
  aff_inv false true p t' (<[me := a']> pend) stops (<[me := CWait me]> cs).
Proof.
  intros Hi Hme Hmp Hmp' Hr Hsp Hin Hsw Hot Hm. pose proof (no_waiters _ _ _ _ _ _ _ _ Hi Hme) as Hwm.
  destruct Hi as [Hsl Hw Hp Hk _ _ _]. split; try done.
  - intros me' Hme'. rewrite waiting_insert by done. destruct (decide (me' = me)) as [->|Hm'].
    { exists a'. rewrite lookup_insert_eq, decide_True, Hwm, Hr, Hsp by done. split_and!; [done..|by apply Hk|done]. }
    rewrite lookup_insert_ne in Hme' by done. destruct (Hsl me' Hme') as (a0&Ha0&Hr0&Hw0&Hs0).
    exists a0. rewrite lookup_insert_ne, decide_False by (done || congruence). split_and!; try done.
    intros Hs. specialize (Hs0 Hs). congruence.
  - intros me' q Hq. destruct (decide (me' = me)) as [->|].
    + rewrite lookup_insert_eq in Hq. injection Hq as <-. rewrite !lookup_insert_eq. split; [eauto|].
      exists a'. auto.
    + rewrite lookup_insert_ne in Hq by done. destruct (Hw me' q Hq) as [Hqs (a0&Ha0&Hd0)].
      assert (q ≠ me) by (intros ->; rewrite Hme in Hqs; by destruct Hqs).
      rewrite lookup_insert_is_Some'. split; [eauto|]. exists a0. rewrite lookup_insert_ne by done.
      split; [done|]. destruct Hd0; [by left|congruence].
  - intros q Hq. assert (q = me) as -> by congruence. exists a'. by rewrite lookup_insert_eq.
  - intros q Hq. apply lookup_insert_None in Hq as [? _]. by apply Hk.
Qed.

(** A waiting thread sees the completion and drops its reference. *)
Lemma aff_inv_woken p t pend stops cs me q a a' :
  aff_inv true true p t pend stops cs → cs !! me = Some (CWait q) → pend !! q = Some a → ap_done a = true →
  a' = a <| ap_refs ::= λ n, n - 1 |> →
  aff_inv true true p t (<[q := a']> pend) stops (<[me := CDrain]> cs).
Proof.
  intros [Hsl Hw Hp Hk Hsw Hot Hm] Hme Ha Hd ->. split; try done.
  - intros me' Hme'. assert (is_Some (cs !! me')) as Hcs.
    { destruct (decide (me' = me)) as [->|]; [eauto|by rewrite lookup_insert_ne in Hme']. }
    destruct (Hsl me' Hcs) as (a0&Ha0&Hr0&Hw0&Hs0).
    pose proof (waiting_change me _ CDrain me' cs Hme) as Hch. rewrite (decide_False (P := CDrain = _)) in Hch by done.
    destruct (decide (me' = q)) as [->|].
    + rewrite decide_True in Hch by done. simplify_eq. eexists. rewrite lookup_insert_eq. split; [done|].
      split_and!; [cbn; lia|done|done].
    + rewrite decide_False in Hch by congruence. exists a0. rewrite lookup_insert_ne by done.
      split_and!; [done|lia|done|done].
  - intros me' q' Hq'. destruct (decide (me' = me)) as [->|]; [by rewrite lookup_insert_eq in Hq'|].
    rewrite lookup_insert_ne in Hq' by done. destruct (Hw me' q' Hq') as [? (a0&?&?)].
    rewrite lookup_insert_is_Some'. split; [eauto|]. destruct (decide (q' = q)) as [->|].
    + simplify_eq. eexists. rewrite lookup_insert_eq. split; [done|]. by left.
    + exists a0. by rewrite lookup_insert_ne.
  - intros q' Hq'. destruct (Hp q' Hq') as (a0&Ha0&[Ho Ht Hop Hen Hde]).
    assert (q' ≠ q) by (intros ->; congruence). assert (q' ≠ me) by (intros ->; congruence).
    exists a0. rewrite lookup_insert_ne by done. split; [done|]. split; try done. by rewrite lookup_insert_ne.
  - intros q' Hq'. apply lookup_insert_None in Hq' as [? _]. by apply Hk.
Qed.

(** A thread returns: nobody refers to its request any more. *)
Lemma aff_inv_return p t pend stops cs me a :
  aff_inv true true p t pend stops cs → cs !! me = Some CDrain → pend !! me = Some a → ap_refs a = 0 →
  aff_inv true true p t pend stops (delete me cs).
Proof.
  intros [Hsl Hw Hp Hk Hsw Hot Hm] Hme Ha Hr.
  assert (∀ q, waiting q (delete me cs) = waiting q cs) as Hwd.
  { intros q. rewrite (waiting_split me _ q cs Hme), decide_False by done. done. }
  destruct (Hsl me) as (a0&?&Hr0&Hw0&Hs0); [eauto|]. simplify_eq.
  assert (waiting me cs = 0%nat) as Hwm by lia. split; try done.
  - intros me' [x Hx]. apply lookup_delete_Some in Hx as [? ?]. rewrite Hwd. apply Hsl. eauto.
  - intros me' q Hq. apply lookup_delete_Some in Hq as [? Hq]. destruct (Hw me' q Hq) as [? Ha'].
    split; [|done]. rewrite lookup_delete_ne; [done|]. intros <-. apply waiting_some in Hq. lia.
  - intros q Hq. destruct (Hp q Hq) as (a1&?&[Ho Ht Hop Hen Hde]). exists a1. split; [done|].
    split; try done. rewrite lookup_delete_ne; [done|congruence].
  - intros q Hq. destruct (decide (q = me)) as [->|]; [|rewrite lookup_delete_ne in Hq by done; by apply Hk].
    rewrite Hw0. destruct (ap_stop_pending a) eqn:Hs; [|done]. destruct (Hp me (Hs0 eq_refl)) as (?&?&[Ho _ _ _ _]).
    congruence.
Qed.
End invariant.
