(* ===== verification/AffinityProto.v ===== *)
(** The affinity protocol: every operation of [Affinity] that takes part in it keeps
    the invariant of [AffinityInv], and so do the threads, the stoppers and the rest of
    the scheduler in any order. *)
From S2P Require Import Prelude Rbtree KState HvfValue HvfClass HvfSmp HvfFrame Policy Uclamp Core Schedule Load Setsched Wakeup WakeupSpec Affinity AffinityInv.

(** The CPUs of the machine, without hotplug: those online are active, a thread can run
    on the same of them throughout, and the choice of a CPU in two masks is one of
    both. *)
Class AffLaws {S : SmpLib} {CL : CpuLib} (AL : AffLib) (UM : UserMem) : Prop := {
  aff_active : cpu_active_mask = cpu_online_mask;
  aff_possible t t' : t_flags t' = t_flags t → task_cpu_possible_mask t' = task_cpu_possible_mask t;
  aff_any a b : cpumask_any_and_distribute a b < nr_cpu_ids →
    0 <= cpumask_any_and_distribute a b ∧ Z.testbit b (cpumask_any_and_distribute a b) = true;
}.

Section proto.
Context {L : RbLib} {TC : TickConfig} {S : SmpLib} {UC : UclampConfig} {E : Ext}
  {OC : OtherClasses} {CL : CpuLib} {AL : AffLib} {SL : SysLib} {UM : UserMem}
  {LW : AffLaws AL UM}.
Implicit Types (s : kstate) (t u : task_struct) (a : affinity_pending) (cs : gmap nat caller)
  (p q me : tid) (P : gmap nat affinity_pending) (T : list (Z * stop_fn)).

(** * Symbolic execution of the protocol's operations *)

(** The task [p] is [t], the requests are [P], the stopper works [T], and [me] runs. *)
Record St s p t P T me : Prop := {
  st_set : setting s p t; st_pend : k_pending s = P; st_stops : k_stops s = T;
  st_me : ∃ r, k_rqs s !! k_cpu s = Some r ∧ curr r = me;
}.

Lemma St_now s s' p t t' P T me :
  St s p t P T me → now s s' p t' → setting s' p t' → St s' p t' P T me.
Proof.
  intros [Hs Hp Ht (r&Hr&Hme)] [Hf _] Hs'. destruct Hf as [Hfp Hfs Hfc _ Hfr _].
  split; [done|congruence|congruence|]. rewrite Hfc. specialize (Hfr (k_cpu s)). rewrite Hr in Hfr.
  destruct (k_rqs s' !! k_cpu s) as [r'|]; [|done]. exists r'. split; [done|]. cbn in Hfr. congruence.
Qed.

Lemma wp_st_task s p t P T me Q :
  St s p t P T me → (∀ u, aff_eq t u → k_tasks s !! p = Some u → Q u s) → wp (task p) s Q.
Proof. intros Hs HQ. destruct (se_task _ _ _ (st_set _ _ _ _ _ _ Hs)) as (u&Hu&?). eapply wp_task; eauto. Qed.
Lemma wp_st_current s p t P T me Q : St s p t P T me → Q me s → wp current s Q.
Proof. intros [_ _ _ (r&Hr&<-)] HQ. by eapply wp_current. Qed.
Lemma wp_st_upd s p t P T me f Q :
  St s p t P T me → (∀ u, aff_eq t u → aff_eq (f t) (f u)) → sched_class (f t) = sched_class t →
  (∀ s', St s' p (f t) P T me → Q tt s') → wp (upd_task p f) s Q.
Proof.
  intros Hs Hf Hc HQ. eapply wp_upd_now; [apply Hs|done|done|]. intros s' ? ?. apply HQ. by eapply St_now.
Qed.
Lemma wp_st_rq s p t P T me c r f Q :
  St s p t P T me → k_rqs s !! c = Some r → curr (f r) = curr r →
  (∀ s', St s' p t P T me → Q tt s') → wp (upd_rq c f) s Q.
Proof.
  intros Hs Hr Hf HQ. eapply wp_upd_rq; [done|]. apply HQ.
  set (s' := s <| k_rqs := _ |>). assert (now s s' p t).
  { split; [by eapply aff_frame_upd_rq|]. destruct (se_task _ _ _ (st_set _ _ _ _ _ _ Hs)) as (u&?&?). eauto. }
  eapply St_now; [done|done|]. eapply setting_now; [apply Hs|done|done].
Qed.
Lemma St_pend s p t P P' T me : St s p t P T me → St (s <| k_pending := P' |>) p t P' T me.
Proof. intros [[] ? ? ?]. by split. Qed.
Lemma wp_st_get_pending s p t P T me q a Q :
  St s p t P T me → P !! q = Some a → Q a s → wp (get_pending q) s Q.
Proof. intros [_ <- _ _] Hq HQ. unfold wp, get_pending. by rewrite Hq. Qed.
Lemma wp_st_upd_pending s p t P T me q a f Q :
  St s p t P T me → P !! q = Some a → (∀ s', St s' p t (<[q := f a]> P) T me → Q tt s') →
  wp (upd_pending q f) s Q.
Proof.
  intros Hs Hq HQ. unfold wp, upd_pending. rewrite (st_pend _ _ _ _ _ _ Hs), Hq. apply HQ.
  by apply (St_pend s p t P).
Qed.
Lemma wp_st_fresh s p t P T me q a Q :
  St s p t P T me → (∀ s', St s' p t (<[q := a]> P) T me → Q tt s') →
  wp (modify (λ s, s <| k_pending ::= <[q := a]> |>)) s Q.
Proof.
  intros Hs HQ. apply wp_modify, HQ. destruct Hs as [[] <- ? ?]. by split.
Qed.
Lemma wp_st_stop s p t P T me c w Q :
  St s p t P T me → (∀ s', St s' p t P (T ++ [(c, w)]) me → Q tt s') → wp (stop_one_cpu_nowait c w) s Q.
Proof.
  intros Hs HQ. apply wp_modify, HQ. destruct Hs as [[] ? <- ?]. by split.
Qed.
Lemma wp_st_move s p t P T me c new_cpu Q :
  St s p t P T me → 0 <= new_cpu < nr_cpu_ids →
  (∀ s', St s' p (moved t new_cpu) P T me → Q tt s') → wp (move_queued_task c p new_cpu) s Q.
Proof.
  intros Hs Hc HQ. eapply wp_move_queued_task; [apply Hs|by eapply se_rqs; [apply Hs|]|].
  intros s' ? ?. apply HQ. by eapply St_now.
Qed.

(** * A request for a new mask *)

Implicit Types (flags dest c : Z).

(** The outcome of a locked section: the invariant with the threads that now wait. *)
Definition outcome s' p cs me t' (res : aff_result) : Prop :=
  ∃ P' T' cs', St s' p t' P' T' me ∧ aff_inv true true p t' P' T' cs' ∧
    cs' = match res with Returns _ => cs | Waits q => <[me := CWait q]> cs end.

(** The task is on no run queue and will be placed when it wakes, or it is where it
    may be, or a request will put it there. *)
Definition settled t : Prop :=
  on_rq t ≠ 0 ∨ on_cpu t = true ∨ __state t = TASK_WAKING ∨ migration_disabled t ≠ 0 →
  placed t = true ∨ migration_pending t ≠ None.

Lemma mask_ok_ext t t' mask : t_flags t' = t_flags t → mask_ok t mask → mask_ok t' mask.
Proof. intros Hf [H1 H2]. split; [|done]. by rewrite Hf, (aff_possible t). Qed.
Lemma home_ok_ext t t' :
  t_flags t' = t_flags t → cpus_mask t' = cpus_mask t → cpu t' = cpu t → home_ok t → home_ok t'.
Proof. intros Hf Hm Hc [H1 H2]. split; [rewrite Hm; by eapply mask_ok_ext|by rewrite Hc]. Qed.

(** Completing the installed request. *)
Lemma aff_inv_done b1 b2 p t P T cs q a :
  aff_inv b1 b2 p t P T cs → migration_pending t = Some q → P !! q = Some a → ap_stop_pending a = false →
  aff_inv true true p (t <| migration_pending := None |>) (<[q := a <| ap_done := true |>]> P) T cs.
Proof.
  intros Hi Hq Ha Hs. destruct (ai_pending _ _ _ _ _ _ _ Hi q Hq) as (a0&?&Hin). simplify_eq.
  destruct (ai_slot _ _ _ _ _ _ _ Hi q) as (a1&?&_&Hw&_); [by rewrite (in_owner _ _ _ _ _ _ _ Hin)|].
  simplify_eq. rewrite Hs in Hw. pose proof Hi as [].
  eapply (aff_inv_complete b1 b2 true true p t); try done. by apply (home_ok_ext t).
Qed.

(** The installed request has work for a stopper. *)
Definition armed t P : Prop :=
  ∀ q a, migration_pending t = Some q → P !! q = Some a → ap_stop_pending a = true.

(** Where the task can run on its current CPU, a request without work for a stopper is
    completed. *)
Lemma wp_affine_placed b1 b2 s p t P T me cs c dest flags Q :
  St s p t P T me → aff_inv b1 b2 p t P T cs → cs !! me = None → placed t = true →
  0 <= c < nr_cpu_ids →
  (∀ s' t' P' T', St s' p t' P' T' me → aff_inv true true p t' P' T' cs → armed t' P' →
     t' = t ∨ t' = t <| migration_pending := None |> → Q (Returns 0) s') →
  wp (affine_move_task c p dest flags) s Q.
Proof.
  intros Hs Hi Hme Hpl Hc HQ. unfold affine_move_task. apply wp_bind. eapply wp_st_current; [done|].
  apply wp_bind. eapply wp_st_fresh; [done|]. intros s1 Hs1.
  apply (aff_inv_fresh _ _ _ _ _ _ _ me) in Hi; [|done].
  apply wp_bind. eapply wp_st_task; [done|]. intros u Hu _. rewrite (ae_mask _ _ Hu), (ae_cpu _ _ Hu).
  assert (Z.testbit (cpus_mask t) (cpu t) = true) as -> by done.
  destruct (se_rqs _ _ _ (st_set _ _ _ _ _ _ Hs1) c Hc) as [r Hr].
  apply wp_bind. eapply wp_rq; [done|]. set (push := _ && _).
  apply wp_bind, (wp_mono _ _ (λ _ s', St s' p t (<[me := zero_pending]> P) T me)).
  { apply wp_when; intros _; [|done]. eapply wp_st_rq; [done|done|done|auto]. }
  clear s1 Hs1 Hr. intros [] s1 Hs1. rewrite (ae_pending _ _ Hu). set (P1 := <[me := zero_pending]> P) in *.
  assert (∀ s2 t', St s2 p t' P1 T me → wp (when push (stop_one_cpu_nowait c (push_work p))) s2
    (λ _ s', ∃ T', St s' p t' P1 T' me ∧ ∀ q, works q T' = works q T)) as Hpush.
  { intros s2 t' Hs2. apply wp_when; intros _; [|by exists T]. eapply wp_st_stop; [done|].
    intros s3 Hs3. eexists. split; [done|]. intros q. by rewrite works_app, works_one, Nat.add_0_r. }
  assert (armed t P1 → aff_inv true true p t P1 T cs) as Hit.
  { intros Harm. pose proof Hi as []. eapply (aff_inv_task b1 b2); try done.
    intros q a Hq Ha []. split; try done; [|by rewrite Hpl].
    intros _ Hx. specialize (Harm q a Hq Ha). congruence. }
  assert (∀ s2, St s2 p t P1 T me → armed t P1 →
    wp (when push (stop_one_cpu_nowait c (push_work p));; skip;; mret (Returns 0)) s2 Q) as Hkeep.
  { intros s2 Hs2 Harm. apply wp_bind. eapply wp_mono; [by apply Hpush|]. intros [] s3 (T'&Hs3&Hw).
    do 2 apply wp_bind || apply wp_skip. apply wp_ret. eapply HQ; [done| |done|by left]. by eapply aff_inv_stops; [apply Hit|]. }
  destruct (migration_pending t) as [q|] eqn:Hq; cycle 1.
  { apply wp_bind, wp_ret, Hkeep; [done|]. intros q a. congruence. }
  destruct (ai_pending _ _ _ _ _ _ _ Hi q Hq) as (a&Ha&Hin). apply wp_bind, wp_bind.
  eapply wp_st_get_pending; [done..|]. destruct (ap_stop_pending a) eqn:Hsp; cbn [negb].
  { apply wp_ret, Hkeep; [done|]. intros q' a' Hq' Ha'. simplify_eq. congruence. }
  apply wp_bind. eapply (wp_st_upd s1 p t); [done|intros ? []; by split|done|]. intros s2 Hs2.
  apply wp_ret, wp_bind. eapply wp_mono; [by apply Hpush|]. intros [] s3 (T'&Hs3&Hw).
  apply wp_bind. unfold complete_all. eapply wp_st_upd_pending; [done..|]. intros s4 Hs4. apply wp_ret.
  eapply HQ; [done| | |by right].
  - eapply aff_inv_stops; [|done]. by eapply aff_inv_done.
  - done.
Qed.

Lemma St_eq s p t t' P T me : St s p t' P T me → aff_eq t t' → St s p t P T me.
Proof.
  intros [[(u&Hu&Hue) Hcl Hrq Hal Huc] HP HT Hm] Heq. split; [|done..]. split; try done.
  - exists u. split; [done|by etrans].
  - by rewrite <-(ae_class _ _ Heq).
Qed.

(** The end of [affine_move_task] for a task that runs or is being woken: the stopper of
    its CPU is sent the request, unless it already was. *)
Lemma wp_affine_kick s p t P T me cs c q a flags Q :
  St s p t P T me → aff_inv false true p t P T cs → migration_pending t = Some q → P !! q = Some a →
  (∀ s' P' T', St s' p t P' T' me → aff_inv true true p t P' T' cs → armed t P' →
     Q (if has flags SCA_MIGRATE_ENABLE then Returns 0 else Waits q) s') →
  wp (when (negb (ap_stop_pending a)) (upd_pending q (λ a, a <| ap_stop_pending := true |>));;
      when (has flags SCA_MIGRATE_ENABLE)
        (upd_task p (λ t, t <| migration_flags ::= λ f, Z.land f (Z.lnot MDF_PUSH) |>));;
      when (negb (ap_stop_pending a)) (stop_one_cpu_nowait c (migration_pending_work q));;
      mret (if has flags SCA_MIGRATE_ENABLE then Returns 0 else Waits q)) s Q.
Proof.
  intros Hs Hi Hq Ha HQ. destruct (ai_pending _ _ _ _ _ _ _ Hi q Hq) as (a0&?&Hin). simplify_eq.
  destruct (ai_slot _ _ _ _ _ _ _ Hi q) as (a1&?&_&Hw&_); [by rewrite (in_owner _ _ _ _ _ _ _ Hin)|].
  simplify_eq. set (P1 := if ap_stop_pending a then P else <[q := a <| ap_stop_pending := true |>]> P).
  apply wp_bind, (wp_mono _ _ (λ _ s', St s' p t P1 T me)).
  { subst P1. destruct (ap_stop_pending a); [done|]. eapply wp_st_upd_pending; eauto. }
  intros [] s1 Hs1. apply wp_bind, (wp_mono _ _ (λ _ s', St s' p t P1 T me)).
  { apply wp_when; intros _; [|done]. eapply wp_st_upd; [done|intros ? []; by split|done|].
    intros s2 Hs2. eapply St_eq; [done|by split]. }
  intros [] s2 Hs2. set (T1 := if ap_stop_pending a then T else T ++ [(c, migration_pending_work q)]).
  apply wp_bind, (wp_mono _ _ (λ _ s', St s' p t P1 T1 me)).
  { subst T1. destruct (ap_stop_pending a); [done|]. eapply wp_st_stop; eauto. }
  intros [] s3 Hs3. apply wp_ret. apply (HQ s3 P1 T1); [done| |].
  - subst P1 T1. destruct (ap_stop_pending a) eqn:Hsp.
    + pose proof Hi as []. eapply (aff_inv_task false true); try done.
      intros q' a' Hq' Ha' []. split; try done. intros _ ?. congruence.
    + eapply (aff_inv_update false true); try done; [by apply Hin|..].
      * destruct Hin. by split.
      * intros q' Hne. rewrite works_app, works_one, decide_False by congruence. lia.
      * rewrite works_app, works_one, decide_True, Hw by done. done.
  - intros q' a' Hq' Ha'. assert (q' = q) as -> by congruence. subst P1.
    destruct (ap_stop_pending a) eqn:Hsp; [congruence|]. rewrite lookup_insert_eq in Ha'. by injection Ha' as <-.
Qed.

(** For a task that does not run: it is moved at once if it is queued, and the request
    completed, unless migration is disabled or a stopper will complete it. *)
Lemma wp_affine_offcpu s p t P T me cs c q a u dest Q :
  St s p t P T me → aff_inv false true p t P T cs → migration_pending t = Some q → P !! q = Some a →
  aff_eq t u → 0 <= dest < nr_cpu_ids → Z.testbit (cpus_mask t) dest = true →
  on_cpu t = false → __state t ≠ TASK_WAKING → on_rq t = 0 ∨ on_rq t = TASK_ON_RQ_QUEUED →
  (∀ s' t' P' T', St s' p t' P' T' me → aff_inv true true p t' P' T' cs → settled t' → Q (Waits q) s') →
  wp (when (negb (is_migration_disabled u))
        (when (task_on_rq_queued u) (move_queued_task c p dest);;
         a ← get_pending q;
         when (negb (ap_stop_pending a))
           (upd_task p (λ t, t <| migration_pending := None |>);; complete_all q));;
      mret (Waits q)) s Q.
Proof.
  intros Hs Hi Hq Ha Hu Hd Hdm Hoc Hw Hrq HQ. unfold is_migration_disabled. rewrite (ae_dis _ _ Hu).
  destruct (Z.eqb_spec (migration_disabled t) 0) as [Hdis|Hdis]; cbn [negb when]; cycle 1.
  { apply wp_bind, wp_skip, wp_ret. apply (HQ s t P T); [done| |].
    - pose proof Hi as []. eapply (aff_inv_task false true); try done. intros q' a' _ _ []. split; auto.
    - intros _. right. congruence. }
  unfold task_on_rq_queued. rewrite (ae_on_rq _ _ Hu).
  set (t1 := if on_rq t =? TASK_ON_RQ_QUEUED then moved t dest else t).
  apply wp_bind, wp_bind, (wp_mono _ _ (λ _ s', St s' p t1 P T me)).
  { subst t1. apply wp_when; intros ->; [|done]. by eapply wp_st_move; eauto. }
  intros [] s1 Hs1. apply wp_bind. eapply wp_st_get_pending; [done..|].
  assert (aff_inv false true p t1 P T cs) as Hi1.
  { subst t1. destruct (_ =? _); [|done]. pose proof Hi as [? ? ? ? ? ? [Hmk _]].
    eapply (aff_inv_task false true); try done.
    - intros q' a' _ _ []. split; try done. unfold placed. cbn. by rewrite Hdm.
    - split; [by apply (mask_ok_ext t)|done]. }
  assert (migration_pending t1 = Some q ∧ migration_disabled t1 = 0) as [Hq1 Hd1].
  { subst t1. by destruct (_ =? _). }
  destruct (ap_stop_pending a) eqn:Hsp; cbn [negb when].
  { apply wp_skip, wp_ret. apply (HQ s1 t1 P T); [done| |intros _; right; congruence].
    pose proof Hi1 as []. eapply (aff_inv_task false true); try done.
    intros q' a' Hq' Ha' []. split; try done. intros _ ?. congruence. }
  apply wp_bind. eapply (wp_st_upd s1 p t1); [done|intros ? []; by split|done|]. intros s2 Hs2.
  unfold complete_all. eapply wp_st_upd_pending; [done..|]. intros s3 Hs3. apply wp_ret.
  eapply HQ; [done|by eapply aff_inv_done|]. unfold settled, placed. subst t1.
  destruct (Z.eqb_spec (on_rq t) TASK_ON_RQ_QUEUED); cbn; [by left|]. intros Hact. exfalso.
  destruct Hrq; [|done]. naive_solver congruence.
Qed.

(** A request for a task that has to move. *)
Lemma wp_affine_request s p t P T me cs c dest flags Q :
  St s p t P T me → aff_inv true false p t P T cs → cs !! me = None → placed t = false →
  has flags SCA_MIGRATE_ENABLE = false → 0 <= dest < nr_cpu_ids → Z.testbit (cpus_mask t) dest = true →
  on_rq t = 0 ∨ on_rq t = TASK_ON_RQ_QUEUED →
  (∀ q s' t' P' T', St s' p t' P' T' me → aff_inv true true p t' P' T' (<[me := CWait q]> cs) →
     settled t' → Q (Waits q) s') →
  wp (affine_move_task c p dest flags) s Q.
Proof.
  intros Hs Hi Hme Hpl Hfl Hd Hdm Hrq HQ. unfold affine_move_task. apply wp_bind. eapply wp_st_current; [done|].
  apply wp_bind. eapply wp_st_fresh; [done|]. intros s1 Hs1.
  apply (aff_inv_fresh _ _ _ _ _ _ _ me) in Hi; [|done]. set (P1 := <[me := zero_pending]> P) in *.
  assert (P1 !! me = Some zero_pending) as Hz by apply lookup_insert_eq. clearbody P1. clear s Hs.
  apply wp_bind. eapply wp_st_task; [done|]. intros u Hu _. rewrite (ae_mask _ _ Hu), (ae_cpu _ _ Hu).
  assert (Z.testbit (cpus_mask t) (cpu t) = false) as -> by done. rewrite Hfl. cbn [negb when].
  rewrite (ae_pending _ _ Hu). clear u Hu.
  apply wp_bind, (wp_mono _ _ (λ _ s', ∃ q a t' P', St s' p t' P' T me ∧ P' !! q = Some a ∧
    (t' = t ∨ t' = t <| migration_pending := Some me |>) ∧ migration_pending t' = Some q ∧
    aff_inv false true p t' P' T (<[me := CWait q]> cs))).
  { destruct (migration_pending t) as [q|] eqn:Hq.
    - destruct (ai_pending _ _ _ _ _ _ _ Hi q Hq) as (a&Ha&[]).
      eapply wp_st_upd_pending; [done..|]. intros s2 Hs2. eexists q, _, t, _.
      split_and!; [done|apply lookup_insert_eq|by left|done|]. by eapply aff_inv_join.
    - apply wp_bind. eapply wp_st_upd_pending; [done..|]. intros s2 Hs2.
      eapply (wp_st_upd s2 p t); [done|intros ? []; by split|done|]. intros s3 Hs3.
      eexists me, _, _, _. split_and!; [done|apply lookup_insert_eq|by right|done|].
      pose proof Hi as [_ _ _ _ ? ? ?].
      eapply (aff_inv_install p t); try done; [|by apply (home_ok_ext t)]. split; try done.
      by rewrite lookup_insert_eq. }
  clear s1 Hs1 Hi. intros [] s1 (q&a&t'&P'&Hs1&Ha&Ht'&Hq&Hi).
  assert (on_cpu t' = on_cpu t ∧ __state t' = __state t ∧ on_rq t' = on_rq t ∧ cpus_mask t' = cpus_mask t)
    as (Ho&Hst&Hor&Hm) by (by destruct Ht' as [->| ->]).
  apply wp_bind. eapply wp_st_task; [done|]. intros u Hu _. rewrite (ae_pending _ _ Hu), Hq.
  apply wp_bind. eapply wp_st_get_pending; [done..|].
  rewrite (ae_on_cpu _ _ Hu), (ae_state _ _ Hu), Ho, Hst.
  destruct (on_cpu t || (__state t =? TASK_WAKING)) eqn:Hrun.
  - pose proof (wp_affine_kick s1 p t' P' T me _ c q a flags Q Hs1 Hi Hq Ha) as Hk. rewrite Hfl in Hk.
    apply Hk. intros s2 P2 T2 Hs2 Hi2 _. eapply HQ; [done..|]. intros _. right. congruence.
  - apply orb_false_iff in Hrun as [Hoc Hw]. apply Z.eqb_neq in Hw.
    eapply (wp_affine_offcpu s1 p t' P' T me _ c q a u dest); try done; try congruence; eauto.
Qed.

(** The end of a region with migration disabled: the task runs, and has to move. *)
Lemma wp_affine_enable s p t P T me cs c dest flags Q :
  St s p t P T me → aff_inv false true p t P T cs → cs !! me = None → placed t = false →
  has flags SCA_MIGRATE_ENABLE = true → on_cpu t = true →
  (∀ s' P' T' ret, St s' p t P' T' me → aff_inv true true p t P' T' cs → armed t P' →
     (migration_pending t ≠ None → ret = 0) → Q (Returns ret) s') →
  wp (affine_move_task c p dest flags) s Q.
Proof.
  intros Hs Hi Hme Hpl Hfl Hoc HQ. unfold affine_move_task. apply wp_bind. eapply wp_st_current; [done|].
  apply wp_bind. eapply wp_st_fresh; [done|]. intros s1 Hs1.
  apply (aff_inv_fresh _ _ _ _ _ _ _ me) in Hi; [|done]. set (P1 := <[me := zero_pending]> P) in *.
  apply wp_bind. eapply wp_st_task; [done|]. intros u Hu _. rewrite (ae_mask _ _ Hu), (ae_cpu _ _ Hu).
  assert (Z.testbit (cpus_mask t) (cpu t) = false) as -> by done. rewrite Hfl. cbn [negb when].
  apply wp_bind, wp_skip, wp_bind. eapply wp_st_task; [done|]. clear u Hu. intros u Hu _.
  rewrite (ae_pending _ _ Hu). destruct (migration_pending t) as [q|] eqn:Hq; cycle 1.
  { apply wp_ret. eapply (HQ s1 P1 T); [done| |intros q a; congruence|done].
    pose proof Hi as []. eapply (aff_inv_task false true); try done. intros q a. congruence. }
  destruct (ai_pending _ _ _ _ _ _ _ Hi q Hq) as (a&Ha&_). apply wp_bind. eapply wp_st_get_pending; [done..|].
  rewrite (ae_on_cpu _ _ Hu), Hoc. cbn [orb].
  pose proof (wp_affine_kick s1 p t P1 T me _ c q a flags Q Hs1 Hi Hq Ha) as Hk. rewrite Hfl in Hk.
  apply Hk. eauto.
Qed.

Lemma has_either f (a b : Z) : has f (Z.lor a b) = false → has f a = false ∧ has f b = false.
Proof. rewrite has_lor. by intros ?%orb_false_iff. Qed.

(** The checks leave a valid mask, or nothing changes. *)
Lemma wp_set_cpus_locked s p t P T me cs ctx Q :
  St s p t P T me → aff_inv true true p t P T cs → cs !! me = None →
  has (ac_flags ctx) (Z.lor SCA_MIGRATE_ENABLE SCA_MIGRATE_DISABLE) = false →
  on_rq t = 0 ∨ on_rq t = TASK_ON_RQ_QUEUED →
  (∀ res ctx' s' t', outcome s' p cs me t' res → (settled t → settled t') → Q (res, ctx') s') →
  wp (__set_cpus_allowed_ptr_locked p ctx) s Q.
Proof.
  intros Hs Hi Hme Hfl Hrq HQ. pose proof (has_either _ _ _ Hfl) as [Hen Hdi].
  assert (∀ ret ctx' s', St s' p t P T me → Q (Returns ret, ctx') s') as Hret.
  { intros ret ctx' s' Hs'. apply (HQ _ _ _ t); [|done]. by exists P, T, cs. }
  unfold __set_cpus_allowed_ptr_locked. apply wp_bind. eapply wp_st_task; [done|]. intros u Hu _.
  apply wp_bind. eapply wp_st_current; [done|]. rewrite Hen. cbn [negb andb].
  unfold is_migration_disabled. rewrite (ae_flags _ _ Hu), (ae_dis _ _ Hu), (ae_mask _ _ Hu), (ae_cpu _ _ Hu), aff_active.
  rewrite (aff_possible t u) by apply Hu.
  destruct (negb (has (t_flags t) PF_KTHREAD) && _) eqn:Hsub; [by apply wp_ret, Hret|].
  destruct (_ && has (t_flags t) PF_NO_SETAFFINITY); [by apply wp_ret, Hret|].
  destruct (cpus_mask t =? ac_new_mask ctx).
  { destruct (has _ SCA_USER); [|by apply wp_ret, Hret].
    apply wp_bind. eapply wp_st_upd; [done|intros ? []; by split|done|]. intros s1 Hs1.
    apply wp_ret, Hret. eapply St_eq; [done|by split]. }
  destruct (_ && negb (Z.testbit _ _)); [by apply wp_ret, Hret|].
  set (valid := if _ : bool then cpu_online_mask else cpu_online_mask).
  assert (valid = cpu_online_mask) as -> by (unfold valid; by case_match).
  set (dest := cpumask_any_and_distribute _ _). destruct (Z.leb_spec nr_cpu_ids dest) as [|Hlt];
    [by apply wp_ret, Hret|]. destruct (aff_any _ _ Hlt) as [Hd0 Hdm].
  pose proof Hi as [_ _ _ _ Hsw Hot [_ Hcpu]].
  assert (set_mask t ctx = t <| cpus_mask := ac_new_mask ctx |>) as Hsm by (unfold set_mask; by rewrite Hfl).
  apply wp_bind. eapply wp_do_set_cpus_allowed; [apply Hs|by eapply se_rqs; [apply Hs|]|].
  intros ctx' s1 Hfl' Hn1 Hs1. assert (St s1 p (set_mask t ctx) P T me) as Hst1 by by eapply St_now.
  rewrite Hsm in Hst1. set (t1 := t <| cpus_mask := ac_new_mask ctx |>) in *.
  assert (aff_inv true false p t1 P T cs) as Hi1.
  { eapply (aff_inv_task true true); try done.
    - intros q a _ _ []. by split.
    - split; [|done]. split; [|done]. apply andb_false_iff in Hsub as [Hs0|Hs0]; apply negb_false_iff in Hs0; [by left|].
      right. by rewrite (aff_possible t) by done. }
  apply wp_bind. rewrite Hfl'. destruct (placed t1) eqn:Hpl.
  - eapply (wp_affine_placed true false s1 p t1); try done. intros s2 t2 P2 T2 Hs2 Hi2 _ Ht2. apply wp_ret, (HQ _ _ _ t2).
    + by exists P2, T2, cs.
    + intros _ _. left. by destruct Ht2 as [->| ->].
  - eapply (wp_affine_request s1 p t1); try done. intros q s2 t2 P2 T2 Hs2 Hi2 Hset2.
    apply wp_ret, (HQ _ _ _ t2); [|done]. by eexists P2, T2, _.
Qed.

Lemma wp_set_cpus_start s p t P T me cs ctx Q :
  St s p t P T me → aff_inv true true p t P T cs → cs !! me = None →
  has (ac_flags ctx) (Z.lor SCA_MIGRATE_ENABLE SCA_MIGRATE_DISABLE) = false →
  on_rq t = 0 ∨ on_rq t = TASK_ON_RQ_QUEUED →
  (∀ res ctx' s' t', outcome s' p cs me t' res → (settled t → settled t') → Q (res, ctx') s') →
  wp (set_cpus_allowed_start p ctx) s Q.
Proof.
  intros Hs Hi Hme Hfl Hrq HQ. unfold set_cpus_allowed_start. apply wp_bind. eapply wp_st_task; [done|].
  intros u Hu _. eapply wp_set_cpus_locked; try done. by repeat case_match.
Qed.

(** * Regions with migration disabled *)

Definition enable_ctx t : affinity_context :=
  {| ac_new_mask := cpus_mask t; ac_own := true; ac_user_mask := None; ac_flags := SCA_MIGRATE_ENABLE |}.

(** The mask is restored at the end of the region; a request that is still installed
    then has work for a stopper. *)
Lemma wp_restore_mask s p t P T cs u Q :
  St s p t P T p → aff_inv true true p t P T cs → cs !! p = None →
  on_cpu t = true → migration_disabled t ≠ 0 → aff_eq t u →
  (∀ ret ctx' s' t' P' T', St s' p t' P' T' p → aff_inv true true p t' P' T' cs → armed t' P' →
     (settled t → ret = 0 ∧ settled t') → on_cpu t' = true → cpus_other t' = None → Q (ret, ctx') s') →
  wp (__set_cpus_allowed_ptr p (enable_ctx u)) s Q.
Proof.
  intros Hs Hi Hcs Hoc Hdis Hu HQ. pose proof Hi as [_ _ _ _ _ _ [[Hsub Hany] Hcpu]].
  unfold __set_cpus_allowed_ptr, set_cpus_allowed_start. apply wp_bind, wp_bind. eapply wp_st_task; [done|].
  intros v Hv _. change (has (ac_flags (enable_ctx u)) _) with true. cbn [negb andb].
  assert (match user_cpus_ptr v with Some _ => enable_ctx u | None => enable_ctx u end = enable_ctx u) as ->
    by by destruct (user_cpus_ptr v).
  unfold __set_cpus_allowed_ptr_locked. apply wp_bind. eapply wp_st_task; [done|]. clear v Hv. intros v Hv _.
  apply wp_bind. eapply wp_st_current; [done|]. cbn [enable_ctx ac_flags ac_new_mask].
  unfold is_migration_disabled. rewrite (ae_flags _ _ Hv), (ae_dis _ _ Hv), (ae_mask _ _ Hu), (ae_cpu _ _ Hv).
  rewrite (aff_possible t v) by apply Hv. rewrite (proj2 (Z.eqb_neq _ _) Hdis). cbn [negb]. rewrite orb_true_r.
  assert (negb (has (t_flags t) PF_KTHREAD) && negb (cpumask_subset (cpus_mask t) (task_cpu_possible_mask t)) = false)
    as -> by (destruct Hsub as [->| ->]; [done|by rewrite andb_false_r]).
  change (has SCA_MIGRATE_ENABLE SCA_CHECK) with false. change (has SCA_MIGRATE_ENABLE SCA_MIGRATE_ENABLE) with true.
  cbn [andb negb]. destruct (Z.leb_spec nr_cpu_ids (cpumask_any_and_distribute cpu_online_mask (cpus_mask t))); [lia|].
  apply wp_bind. eapply wp_do_set_cpus_allowed; [apply Hs|by eapply se_rqs; [apply Hs|]|].
  intros ctx' s1 Hfl Hn1 Hs1. cbn in Hfl. change (set_mask t _) with (t <| cpus_other := None |>) in *.
  set (t1 := t <| cpus_other := None |>) in *. assert (St s1 p t1 P T p) as Hst1 by by eapply St_now.
  assert (aff_inv false true p t1 P T cs) as Hi1.
  { pose proof Hi as []. eapply (aff_inv_task true true); try done.
    - intros q a _ _ []. by split.
    - cbn. congruence.
    - by apply (home_ok_ext t). }
  rewrite Hfl. apply wp_bind. destruct (placed t1) eqn:Hpl.
  - eapply (wp_affine_placed false true s1 p t1); try done. intros s2 t2 P2 T2 Hs2 Hi2 Harm Ht2.
    apply wp_ret, wp_bind, wp_ret, wp_ret.
    destruct Ht2 as [->| ->]; (eapply HQ; try done); intros _; (split; [done|]); intros _; by left.
  - eapply (wp_affine_enable s1 p t1); try done.
    intros s2 P2 T2 ret Hs2 Hi2 Harm Hret. apply wp_ret, wp_bind, wp_ret, wp_ret. eapply HQ; try done.
    intros Hset. split; [|done]. apply Hret. change (placed t = false) in Hpl.
    destruct Hset as [Hx|Hx]; [by right; left|congruence|done].
Qed.
End proto.
