(* ===== verification/AffinitySteps.v ===== *)
(** The affinity protocol as a system of interleaved steps: threads that change the
    mask of a task, the task itself in its regions with migration disabled, the stopper
    threads, and the rest of the scheduler. *)
From S2P Require Import Prelude Rbtree KState HvfValue HvfClass HvfSmp HvfFrame Policy Uclamp Core Schedule Load Setsched Wakeup WakeupSpec Affinity AffinityInv AffinityProto.

Section steps.
Context {L : RbLib} {TC : TickConfig} {S : SmpLib} {UC : UclampConfig} {E : Ext}
  {OC : OtherClasses} {CL : CpuLib} {AL : AffLib} {SL : SysLib} {UM : UserMem}.
Implicit Types (s : kstate) (t u : task_struct) (a : affinity_pending) (cs : gmap nat caller)
  (p q me : tid) (P : gmap nat affinity_pending) (T : list (Z * stop_fn)).

(** * The steps *)

(** Thread [me] runs on the CPU that takes the step. *)
Definition runs s me : Prop := ∃ r, k_rqs s !! k_cpu s = Some r ∧ curr r = me.

(** The task can be running, or be made to run without a new choice of its CPU. *)
Definition active t : Prop :=
  on_rq t ≠ 0 ∨ on_cpu t = true ∨ __state t = TASK_WAKING ∨ migration_disabled t ≠ 0.

(** What the rest of the scheduler does to the task: it moves it only while it does not
    run and migration is enabled, and only to a CPU it may use; it makes a sleeping task
    runnable on such a CPU; it switches a task with migration disabled out only after
    [migrate_disable_switch]. *)
Record env_moves t t' : Prop := {
  em_mask : cpus_mask t' = cpus_mask t; em_other : cpus_other t' = cpus_other t;
  em_dis : migration_disabled t' = migration_disabled t;
  em_pending : migration_pending t' = migration_pending t; em_flags : t_flags t' = t_flags t;
  em_cpu : cpu t' = cpu t ∨
    on_cpu t = false ∧ migration_disabled t = 0 ∧ 0 <= cpu t' < nr_cpu_ids ∧ Z.testbit (cpus_ptr t) (cpu t') = true;
  em_wake : active t' → active t ∨ Z.testbit (cpus_ptr t) (cpu t') = true;
  em_switch : on_cpu t' = false → migration_disabled t' ≠ 0 → cpus_other t ≠ None;
}.

(** The requests and their stopper works are the protocol's own. *)
Record env_step p s s' : Prop := {
  es_task : ∃ t t', k_tasks s !! p = Some t ∧ k_tasks s' !! p = Some t' ∧ env_moves t t' ∧ setting s' p t';
  es_pending : k_pending s' = k_pending s;
  es_works q : works q (k_stops s') = works q (k_stops s);
}.

(** The stopper of this CPU has the work of [q] to do: [p] does not run here, and is
    not being woken here, the wake-ups queued for this CPU having been served. *)
Definition stopper_here s t : Prop :=
  (on_rq t = 0 ∨ on_rq t = TASK_ON_RQ_QUEUED) ∧
  (cpu t = k_cpu s → on_cpu t = false ∧ __state t ≠ TASK_WAKING).

(** The CPU takes part in scheduling, no hotplug transition being under way on it, and
    is one the task's program can run on. *)
Definition cpu_usable t (c : Z) : Prop :=
  cpu_active c = true ∧ cpu_online c = true ∧ cpu_dying c = false ∧
  ∀ v, t_flags v = t_flags t → task_cpu_possible c v = true.

(** The stopper with request [a] does not find the task on another CPU, switched out in
    a region with migration disabled, and the CPU it is to move the task to is usable. *)
Definition stop_calm s t a : Prop :=
  (cpu t ≠ k_cpu s → cpus_other t = None) ∧ cpu_usable t (ap_dest_cpu a).

(** [chase] says whether a stopper may meet the task, or its destination, otherwise:
    then it gives the request up, or [__migrate_task] fails. *)
Inductive aff_step (chase : bool) p : kstate * gmap nat caller → kstate * gmap nat caller → Prop :=
  | step_set s cs me t ctx res ctx' s' :
      runs s me → cs !! me = None → k_tasks s !! p = Some t →
      on_rq t = 0 ∨ on_rq t = TASK_ON_RQ_QUEUED →
      has (ac_flags ctx) (Z.lor SCA_MIGRATE_ENABLE SCA_MIGRATE_DISABLE) = false →
      set_cpus_allowed_start p ctx s = Ok ((res, ctx'), s') →
      aff_step chase p (s, cs) (s', match res with Returns _ => cs | Waits q => <[me := CWait q]> cs end)
  | step_woken s cs me q a s' :
      cs !! me = Some (CWait q) → k_pending s !! q = Some a → ap_done a = true →
      affine_woken q s = Ok (tt, s') →
      aff_step chase p (s, cs) (s', <[me := CDrain]> cs)
  | step_return s cs me a :
      cs !! me = Some CDrain → k_pending s !! me = Some a → ap_refs a = 0 →
      aff_step chase p (s, cs) (s, delete me cs)
  | step_disable s cs t s' :
      runs s p → cs !! p = None → k_tasks s !! p = Some t → on_cpu t = true →
      0 <= migration_disabled t < 2 ^ 16 - 1 → migrate_disable s = Ok (tt, s') →
      aff_step chase p (s, cs) (s', cs)
  | step_enable s cs t s' :
      runs s p → cs !! p = None → k_tasks s !! p = Some t → on_cpu t = true →
      0 < migration_disabled t < 2 ^ 16 → migrate_enable s = Ok (tt, s') →
      aff_step chase p (s, cs) (s', cs)
  | step_switch s cs t s' :
      runs s p → k_tasks s !! p = Some t → on_cpu t = true → migrate_disable_switch (cpu t) p s = Ok (tt, s') →
      aff_step chase p (s, cs) (s', cs)
  | step_stop s cs me T1 T2 q a t s' :
      runs s me → k_stops s = T1 ++ (k_cpu s, migration_pending_work q) :: T2 → k_pending s !! q = Some a →
      k_tasks s !! p = Some t → stopper_here s t →
      (chase = false → stop_calm s t a) →
      migration_cpu_stop_locked (ap_task a) (ap_dest_cpu a) (Some q) (s <| k_stops := T1 ++ T2 |>) = Ok (tt, s') →
      aff_step chase p (s, cs) (s', cs)
  | step_env s cs s' :
      env_step p s s' → aff_step chase p (s, cs) (s', cs).

(** * Every step keeps the invariant *)

Context {LW : AffLaws AL UM}.

Lemma aff_inv_eq b1 b2 p t u P T cs : aff_eq t u → aff_inv b1 b2 p t P T cs → aff_inv b1 b2 p u P T cs.
Proof.
  intros [Hc Hm Ho Hd Hp _ Hoc _ Hf _] Hi. pose proof Hi as []. eapply (aff_inv_task b1 b2); try done.
  - intros q a _ _ []. split; try done; unfold placed; rewrite ?Hd, ?Ho, ?Hm, ?Hc; done.
  - by rewrite Hoc, Hd, Ho.
  - by rewrite Hd, Ho.
  - by apply (home_ok_ext t).
Qed.
Lemma settled_eq t u : aff_eq t u → settled t → settled u.
Proof. intros [Hc Hm _ Hd Hp Hr Ho Hs _ _]. unfold settled, placed. by rewrite Hc, Hm, Hd, Hp, Hr, Ho, Hs. Qed.

(** A nested or an outermost [migrate_disable]. *)
Lemma wp_migrate_disable s p t P T cs Q :
  St s p t P T p → aff_inv true true p t P T cs → on_cpu t = true → 0 <= migration_disabled t < 2 ^ 16 - 1 →
  (∀ s' t', St s' p t' P T p → aff_inv true true p t' P T cs → (settled t → settled t') → Q tt s') →
  wp migrate_disable s Q.
Proof.
  intros Hs Hi Hoc Hdis HQ. unfold migrate_disable. apply wp_bind. eapply wp_st_current; [done|].
  apply wp_bind. eapply wp_st_task; [done|]. intros u Hu _. rewrite (ae_dis _ _ Hu).
  assert (∀ s' n, St s' p (t <| migration_disabled := n |>) P T p → n ≠ 0 → Q tt s') as Hend.
  { intros s' n Hs' Hn. eapply HQ; [done| |].
    - pose proof Hi as []. eapply (aff_inv_task true true); try done; [| |by apply (home_ok_ext t)].
      + intros q a _ _ [? ? ? Hen ?]. split; try done. intros _ Hx. split; [done|by apply Hen].
      + cbn. congruence.
    - intros Hset _. apply Hset. auto. }
  destruct (Z.eqb_spec (migration_disabled t) 0); cbn [negb].
  - apply wp_bind, wp_get. destruct (st_me _ _ _ _ _ _ Hs) as (r&Hr&_). apply wp_bind.
    eapply wp_st_rq; [done..|]. intros s1 Hs1. eapply (wp_st_upd s1 p t); [done|intros ? []; by split|done|].
    intros s2 Hs2. by eapply Hend.
  - eapply (wp_st_upd s p t); [done| |done|].
    { intros v []. split; try done. cbn. congruence. }
    intros s1 Hs1. apply (Hend s1 (u16 (migration_disabled t + 1))); [done|].
    unfold u16. rewrite Z.mod_small; lia.
Qed.

(** Leaving a region. *)
Lemma wp_migrate_enable s p t P T cs Q :
  St s p t P T p → aff_inv true true p t P T cs → cs !! p = None → on_cpu t = true →
  0 < migration_disabled t < 2 ^ 16 →
  (∀ s' t' P' T', St s' p t' P' T' p → aff_inv true true p t' P' T' cs → (settled t → settled t') → Q tt s') →
  wp migrate_enable s Q.
Proof.
  intros Hs Hi Hcs Hoc Hdis HQ. unfold migrate_enable. apply wp_bind. eapply wp_st_current; [done|].
  apply wp_bind. eapply wp_st_task; [done|]. intros u Hu _. rewrite (ae_dis _ _ Hu), (ae_other _ _ Hu).
  destruct (Z.ltb_spec 1 (migration_disabled t)).
  { eapply (wp_st_upd s p t); [done| |done|].
    { intros v []. split; try done. cbn. congruence. }
    intros s1 Hs1. eapply HQ; [done| |].
    - assert (u16 (migration_disabled t - 1) ≠ 0) as Hn by (unfold u16; rewrite Z.mod_small; lia).
      pose proof Hi as []. eapply (aff_inv_task true true); try done; [| |by apply (home_ok_ext t)].
      + intros q a _ _ [? ? ? Hen ?]. split; try done. intros _ Hx. split; [done|by apply Hen].
      + cbn. congruence.
    - intros Hset _. apply Hset. auto. }
  apply wp_bind, (wp_mono _ _ (λ _ s', ∃ t' P' T', St s' p t' P' T' p ∧ aff_inv true true p t' P' T' cs ∧
    armed t' P' ∧ (settled t → settled t') ∧ on_cpu t' = true ∧ cpus_other t' = None)).
  { apply wp_when; intros Hot; [apply bool_decide_eq_true in Hot|apply bool_decide_eq_false in Hot].
    - apply wp_bind. eapply (wp_restore_mask s p t P T cs u); try done; [lia|].
      intros ret ctx' s1 t1 P1 T1 Hs1 Hi1 Harm Hset Hoc1 Hot1. apply wp_skip. exists t1, P1, T1.
      split_and!; try done. intros Hx. by apply Hset.
    - exists t, P, T. split_and!; try done; [|by apply dec_stable].
      intros q a Hq Ha. destruct (ai_pending _ _ _ _ _ _ _ Hi q Hq) as (a0&?&[_ _ _ Hen _]). simplify_eq.
      destruct (ap_stop_pending a); [done|]. by destruct (Hen eq_refl eq_refl). }
  intros [] s1 (t1&P1&T1&Hs1&Hi1&Harm&Hset&Hoc1&Hot1). apply wp_bind.
  eapply (wp_st_upd s1 p t1); [done|intros ? []; by split|done|]. intros s2 Hs2.
  apply wp_bind, wp_get. destruct (st_me _ _ _ _ _ _ Hs2) as (r&Hr&_). eapply wp_st_rq; [done..|].
  intros s3 Hs3. eapply HQ; [done| |].
  - pose proof Hi1 as []. eapply (aff_inv_task true true); try done; [|by apply (home_ok_ext t1)].
    intros q a Hq Ha []. split; try done. intros _ Hx. specialize (Harm q a Hq Ha). congruence.
  - intros Hx _. apply (Hset Hx). auto.
Qed.

(** The task is switched out in a region with migration disabled. *)
Lemma wp_disable_switch s p t P T me cs Q :
  St s p t P T me → aff_inv true true p t P T cs → on_cpu t = true →
  (∀ s' t', St s' p t' P T me → aff_inv true true p t' P T cs → (settled t → settled t') → Q tt s') →
  wp (migrate_disable_switch (cpu t) p) s Q.
Proof.
  intros Hs Hi Hoc HQ. unfold migrate_disable_switch. apply wp_bind. eapply wp_st_task; [done|].
  intros u Hu _. rewrite (ae_dis _ _ Hu), (ae_other _ _ Hu). destruct (Z.eqb_spec (migration_disabled t) 0).
  { apply wp_skip. by eapply HQ. }
  case_bool_decide; [apply wp_skip; by eapply HQ|].
  pose proof Hi as [_ _ _ _ Hsw Hot Hhome]. apply wp_bind.
  eapply wp_do_set_cpus_allowed; [apply Hs|eapply se_rqs; [apply Hs|apply Hhome]|].
  intros ctx' s1 _ Hn1 Hs1. apply wp_skip. cbn in Hn1, Hs1.
  eapply HQ; [by eapply St_now| |].
  - eapply (aff_inv_task true true); try done; [|by apply (home_ok_ext t)].
    intros q a _ _ [? ? ? Hen ?]. by split.
  - done.
Qed.

Lemma cpus_ptr_eq t u : aff_eq t u → cpus_ptr u = cpus_ptr t.
Proof. intros Hu. unfold cpus_ptr. by rewrite (ae_mask _ _ Hu), (ae_other _ _ Hu). Qed.

Lemma usable_allowed t v c :
  t_flags v = t_flags t → cpu_usable t c → Z.testbit (cpus_ptr v) c = true → is_cpu_allowed v c = true.
Proof.
  intros Hf (Ha&Ho&Hd&Hp) Hb. unfold is_cpu_allowed, task_allowed_on_cpu. rewrite Hb, (Hp v Hf), Ha, Ho, Hd, andb_false_r.
  cbn. by destruct (is_migration_disabled v), (has (t_flags v) PF_KTHREAD), (kthread_is_per_cpu v).
Qed.

(** Taking a stopper work out of the queues. *)
Lemma works_take q q' c T1 T2 :
  works q (T1 ++ (c, migration_pending_work q') :: T2) =
  ((if decide (q' = q) then 1 else 0) + works q (T1 ++ T2))%nat.
Proof.
  rewrite (cons_middle _ T1 T2), !works_app, works_one.
  destruct (decide (q' = q)) as [->|]; [rewrite decide_True by done|rewrite decide_False by congruence]; lia.
Qed.

(** The stopper of CPU [k_cpu s] serves the request of [q]. *)
Lemma wp_stop s p t P T1 T2 me cs q a Q :
  St s p t P (T1 ++ T2) me → aff_inv true true p t P (T1 ++ (k_cpu s, migration_pending_work q) :: T2) cs →
  P !! q = Some a → stopper_here s t →
  (∀ s' t' P' T', St s' p t' P' T' me → aff_inv true true p t' P' T' cs →
     (stop_calm s t a → settled t → settled t') → Q tt s') →
  wp (migration_cpu_stop_locked (ap_task a) (ap_dest_cpu a) (Some q)) s Q.
Proof.
  intros Hs Hi Ha [Hrq Hhere] HQ. pose proof (works_take q q (k_cpu s) T1 T2) as Hw. rewrite decide_True in Hw by done.
  assert (is_Some (cs !! q)) as Hq.
  { destruct (cs !! q) eqn:Hq; [done|]. apply (ai_works _ _ _ _ _ _ _ Hi) in Hq. lia. }
  destruct (ai_slot _ _ _ _ _ _ _ Hi q Hq) as (a0&?&Href&Hwk&Hmp). simplify_eq.
  destruct (ap_stop_pending a) eqn:Hsp; [|lia]. specialize (Hmp eq_refl).
  destruct (ai_pending _ _ _ _ _ _ _ Hi q Hmp) as (a0&?&Hin). simplify_eq.
  assert (works q (T1 ++ T2) = 0)%nat as Hw0 by lia.
  assert (∀ q', q' ≠ q → works q' (T1 ++ T2) = works q' (T1 ++ (k_cpu s, migration_pending_work q) :: T2)) as Hwo.
  { intros q' ?. by rewrite works_take, decide_False by congruence. }
  pose proof (in_task _ _ _ _ _ _ _ Hin) as ->. pose proof Hi as [_ _ _ _ Hsw Hot Hhome].
  set (a1 := a <| ap_stop_pending := false |>).
  assert (∀ b, (b = true → migration_disabled t ≠ 0 ∧ cpus_other t ≠ None) →
    aff_inv b true p t (<[q := a1]> P) (T1 ++ T2) cs) as Hi1.
  { intros b Hb. eapply (aff_inv_update true true); try done; [by apply Hin|]. destruct Hin. split; auto. }
  (* the request is complete, the task is [t'] *)
  assert (∀ s1 t', St s1 p (t' <| migration_pending := None |>) P (T1 ++ T2) me →
    on_cpu t' = on_cpu t → migration_disabled t' = migration_disabled t → cpus_other t' = cpus_other t →
    home_ok t' → (stop_calm s t a → active t' → placed t' = true) →
    wp (upd_pending q (λ a, a <| ap_stop_pending := false |>);; when true (complete_all q)) s1 Q) as Hdone.
  { intros s1 t' Hs1 Hoc Hdi Hco Hho Hpl. apply wp_bind. eapply wp_st_upd_pending; [done..|]. intros s2 Hs2.
    unfold when, complete_all. eapply wp_st_upd_pending; [done|apply lookup_insert_eq|]. intros s3 Hs3.
    eapply HQ; [done| |].
    - eapply (aff_inv_complete false true true true p t); [by apply Hi1|done|apply lookup_insert_eq|..]; try done.
      + cbn. by rewrite Hoc, Hdi, Hco.
      + cbn. by rewrite Hdi, Hco.
      + by apply (home_ok_ext t').
    - intros Hch _ Hact. left. by apply Hpl. }
  unfold migration_cpu_stop_locked. apply wp_bind, wp_get, wp_bind. eapply wp_st_task; [done|]. intros u Hu _.
  unfold is_migration_disabled, task_on_rq_queued.
  rewrite (ae_cpu _ _ Hu), (ae_dis _ _ Hu), (cpus_ptr_eq _ _ Hu), (ae_mask _ _ Hu), (ae_on_rq _ _ Hu).
  destruct (Z.eqb_spec (cpu t) (k_cpu s)) as [Hc|Hc]; cycle 1.
  { destruct (Z.testbit (cpus_ptr t) (cpu t)) eqn:Hok.
    - apply wp_bind. eapply (wp_st_upd s p t); [done|intros ? []; by split|done|]. intros s1 Hs1.
      eapply (Hdone s1 t); try done. intros [Hch _] _. revert Hok. unfold cpus_ptr. by rewrite Hch.
    - eapply wp_st_stop; [done|]. intros s1 Hs1. eapply (HQ s1 t); [done| |].
      + eapply aff_inv_stops; [exact Hi|]. intros q'. rewrite (works_app _ (T1 ++ T2)), works_one, works_take.
        destruct (decide (q = q')) as [->|]; [rewrite decide_True by done|rewrite decide_False by congruence]; lia.
      + intros _ _ _. right. congruence. }
  destruct (Hhere Hc) as [Hoc Hst]. destruct (Z.eqb_spec (migration_disabled t) 0) as [Hdis|Hdis]; cbn [negb]; cycle 1.
  { apply wp_bind. eapply wp_st_upd_pending; [done..|]. intros s1 Hs1. apply wp_skip.
    eapply HQ; [done|apply Hi1; auto|]. intros _ _ _. right. congruence. }
  assert (cpus_other t = None) as Hco by (destruct (cpus_other t); [by destruct Hot|done]).
  apply wp_bind. eapply (wp_st_upd s p t); [done|intros ? []; by split|done|]. intros s1 Hs1.
  destruct (Z.testbit (cpus_mask t) (cpu t)) eqn:Hpl; [by eapply (Hdone s1 t)|].
  destruct (in_dest _ _ _ _ _ _ _ Hin eq_refl Hpl) as [Hd Hdm]. apply wp_bind.
  destruct (Z.eqb_spec (on_rq t) TASK_ON_RQ_QUEUED) as [Hq1|Hq1].
  - unfold __migrate_task. apply wp_bind. eapply wp_st_task; [done|]. intros v Hv _.
    destruct (is_cpu_allowed v (ap_dest_cpu a)) eqn:Hal; cbn [negb]; cycle 1.
    { apply wp_skip. apply (Hdone s1 t); try done. intros [_ Hus] _. exfalso.
      rewrite (usable_allowed t v (ap_dest_cpu a)) in Hal; [done|apply Hv|done|].
      rewrite (cpus_ptr_eq _ _ Hv). unfold cpus_ptr. cbn. by rewrite Hco. }
    eapply wp_st_move; [done..|]. intros s2 Hs2.
    apply (Hdone s2 (moved t (ap_dest_cpu a))); try done. split; [|done]. by apply (mask_ok_ext t), Hhome.
  - eapply (wp_st_upd s1); [done|intros ? []; by split|done|]. intros s2 Hs2.
    apply (Hdone s2 t); try done; [by eapply St_eq; [exact Hs2|split]|].
    intros _ Hact. exfalso. destruct Hrq; [|done]. unfold active in Hact. naive_solver congruence.
Qed.

(** The invariant of a configuration. *)
Definition config_inv p (x : kstate * gmap nat caller) : Prop :=
  ∃ t, k_tasks x.1 !! p = Some t ∧ setting x.1 p t ∧ aff_inv true true p t (k_pending x.1) (k_stops x.1) x.2.
Definition settled_in p s : Prop := ∀ t, k_tasks s !! p = Some t → settled t.

Lemma St_config s p t P T me cs :
  St s p t P T me → aff_inv true true p t P T cs → config_inv p (s, cs).
Proof.
  intros [[(u&Hu&Heq) Hcl Hrq Hal Huc] <- <- _] Hi. exists u. split_and!; [done| |by eapply aff_inv_eq].
  split; [by exists u|by rewrite (ae_class _ _ Heq)|done..].
Qed.
Lemma St_settled s p t P T me : St s p t P T me → settled t → settled_in p s.
Proof.
  intros [[(u&Hu&Heq) _ _ _ _] _ _ _] Hset v Hv. assert (v = u) as -> by congruence. by eapply settled_eq.
Qed.
Lemma config_St p s cs t me :
  k_tasks s !! p = Some t → config_inv p (s, cs) → runs s me →
  St s p t (k_pending s) (k_stops s) me ∧ aff_inv true true p t (k_pending s) (k_stops s) cs.
Proof. intros Ht (t'&Ht'&Hs&Hi) Hr. cbn in *. simplify_eq. by split. Qed.

(** The rest of the scheduler keeps the invariant. *)
Lemma env_keeps p s s' cs :
  config_inv p (s, cs) → env_step p s s' → config_inv p (s', cs) ∧ (settled_in p s → settled_in p s').
Proof.
  intros (t&Ht&_&Hi) [(t0&t'&Ht0&Ht'&Hm&Hs') Hpe Hwk]. cbn in *. simplify_eq.
  destruct Hm as [Hmask Hoth Hdis Hpend Hfl Hcpu Hwake Hsw]. pose proof Hi as [_ _ _ _ _ Hot [Hmk Hhome]].
  assert (migration_disabled t = 0 → cpus_ptr t = cpus_mask t) as Hptr.
  { intros H0. unfold cpus_ptr. destruct (cpus_other t); [by destruct Hot|done]. }
  assert (cpu t' = cpu t ∨ placed t' = true) as Hpl.
  { destruct Hcpu as [?|(_&H0&_&Hc)]; [by left|right]. unfold placed. by rewrite Hmask, <-Hptr. }
  split.
  - exists t'. split_and!; [done..|]. cbn. rewrite Hpe. eapply aff_inv_stops; [|exact Hwk].
    eapply (aff_inv_task true true); try done.
    + intros q a _ _ [? ? ? Hen Hde]. split; try done; [by rewrite Hdis, Hoth|]. intros _ Hnp. rewrite Hmask.
      apply Hde; [done|]. destruct Hpl as [Hc|]; [|congruence]. unfold placed in *. by rewrite Hmask, Hc in Hnp.
    + rewrite Hoth. auto.
    + by rewrite Hdis, Hoth.
    + split; [rewrite Hmask; by apply (mask_ok_ext t)|]. destruct Hcpu as [->|(_&_&?&_)]; done.
  - intros Hset t0 Ht0. simplify_eq. intros Hact. rewrite Hpend.
    destruct Hpl as [Hc|]; [|by left]. unfold placed. rewrite Hmask, Hc. destruct (Hwake Hact) as [Ha|Ha]; [by apply Hset|].
    destruct (Z.eq_dec (migration_disabled t) 0) as [H0|Hne].
    + left. by rewrite <-Hptr, <-Hc.
    + apply Hset; [done|]. unfold active. tauto.
Qed.

(** Running an operation that keeps the invariant. *)
Lemma wp_run {A} (m : M A) s s' r Q : m s = Ok (r, s') → wp m s Q → Q r s'.
Proof. unfold wp. by intros ->. Qed.

(** Every step keeps the invariant; and the task stays settled unless a stopper chases
    it. *)
Lemma step_keeps chase p x y :
  config_inv p x → aff_step chase p x y →
  config_inv p y ∧ (chase = false → settled_in p x.1 → settled_in p y.1).
Proof.
  intros Hx Hst. destruct Hst as [s cs me t ctx res ctx' s' Hr Hme Ht Hrq Hfl Hop|s cs me q a s' Hme Ha Hd Hop
    |s cs me a Hme Ha Hd|s cs t s' Hr Hme Ht Hoc Hdi Hop|s cs t s' Hr Hme Ht Hoc Hdi Hop|s cs t s' Hr Ht Hoc Hop
    |s cs me T1 T2 q a t s' Hr Hk Ha Ht Hh Hch Hop|s cs s' Henv]; cbn [fst].
  - destruct (config_St p s cs t me Ht Hx Hr) as [Hs Hi]. apply (wp_run _ _ _ _ (λ r s',
      config_inv p (s', match r.1 with Returns _ => cs | Waits q => <[me:=CWait q]> cs end) ∧
      (chase = false → settled_in p s → settled_in p s')) Hop).
    eapply wp_set_cpus_start; [done..|]. intros r c s1 t1 (P1&T1&cs1&Hs1&Hi1&->) Hset.
    split; [by eapply St_config|]. intros _ Hx1. eapply St_settled; [done|auto].
  - destruct Hx as (t&Ht&Hs&Hi). cbn in *. unfold affine_woken, upd_pending in Hop. rewrite Ha in Hop.
    injection Hop as <-. split; [|done]. exists t. split_and!; [done|by destruct Hs; split|].
    by eapply aff_inv_woken.
  - destruct Hx as (t&Ht&Hs&Hi). split; [|done]. exists t. split_and!; [done..|]. by eapply aff_inv_return.
  - destruct (config_St p s cs t p Ht Hx Hr) as [Hs Hi]. apply (wp_run _ _ _ _ (λ _ s',
      config_inv p (s', cs) ∧ (chase = false → settled_in p s → settled_in p s')) Hop).
    eapply wp_migrate_disable; [done..|]. intros s1 t1 Hs1 Hi1 Hset.
    split; [by eapply St_config|]. intros _ Hx1. eapply St_settled; [done|auto].
  - destruct (config_St p s cs t p Ht Hx Hr) as [Hs Hi]. apply (wp_run _ _ _ _ (λ _ s',
      config_inv p (s', cs) ∧ (chase = false → settled_in p s → settled_in p s')) Hop).
    eapply wp_migrate_enable; [done..|]. intros s1 t1 P1 T1 Hs1 Hi1 Hset.
    split; [by eapply St_config|]. intros _ Hx1. eapply St_settled; [done|auto].
  - destruct (config_St p s cs t p Ht Hx Hr) as [Hs Hi]. apply (wp_run _ _ _ _ (λ _ s',
      config_inv p (s', cs) ∧ (chase = false → settled_in p s → settled_in p s')) Hop).
    eapply wp_disable_switch; [done..|]. intros s1 t1 Hs1 Hi1 Hset.
    split; [by eapply St_config|]. intros _ Hx1. eapply St_settled; [done|auto].
  - destruct (config_St p s cs t me Ht Hx Hr) as [Hs Hi]. rewrite Hk in Hi.
    apply (wp_run _ _ _ _ (λ _ s', config_inv p (s', cs) ∧ (chase = false → settled_in p s → settled_in p s')) Hop).
    eapply (wp_stop _ p t _ T1 T2); [|done..|].
    { destruct Hs as [[]]. by split. }
    intros s1 t1 P1 T' Hs1 Hi1 Hset. split; [by eapply St_config|]. intros Hcf Hx1.
    eapply St_settled; [done|]. apply Hset; [by apply Hch|by apply Hx1].
  - destruct (env_keeps p s s' cs Hx Henv). split; auto.
Qed.

(** * The protocol from a quiet start *)

(** No request, no stopper work, no region with migration disabled. *)
Record aff_start p s : Prop := {
  as_task : ∃ t, k_tasks s !! p = Some t ∧ setting s p t ∧ migration_pending t = None ∧
    migration_disabled t = 0 ∧ cpus_other t = None ∧ home_ok t ∧ placed t = true;
  as_stops q : works q (k_stops s) = 0%nat;
}.

Lemma start_inv p s : aff_start p s → config_inv p (s, ∅) ∧ settled_in p s.
Proof.
  intros [(t&Ht&Hs&Hp&Hd&Ho&Hh&Hpl) Hw]. split.
  - exists t. split_and!; [done..|]. split; try done.
    + intros me [x Hx]. done.
    + intros q. by rewrite Hp.
  - intros t' Ht'. simplify_eq. intros _. by left.
Qed.
Lemma rtc_keeps chase p x y :
  config_inv p x → rtc (aff_step chase p) x y →
  config_inv p y ∧ (chase = false → settled_in p x.1 → settled_in p y.1).
Proof.
  intros Hx Hr. induction Hr as [|x y z Hst _ IH]; [by split|].
  destruct (step_keeps chase p x y Hx Hst) as [Hy Hs]. destruct (IH Hy) as [? Hs']. split; auto.
Qed.

(** C19: A thread that waits for a change of the mask of a task, of a class other than
    HVF and while no CPU goes up or down, is never forgotten, and the request stays in
    memory while it is used: its owner has not returned, its reference count is the
    number of waiting threads, and until it is complete it is installed in the task and
    either exactly one stopper has it to do, or the task was switched out with migration
    disabled and [migrate_enable] will see it. *)
Theorem affinity_waiters_kept p s s' cs me q :
  aff_start p s → rtc (aff_step true p) (s, ∅) (s', cs) → cs !! me = Some (CWait q) →
  ∃ a t, k_pending s' !! q = Some a ∧ k_tasks s' !! p = Some t ∧ is_Some (cs !! q) ∧
    ap_refs a = Z.of_nat (waiting q cs) ∧
    (ap_done a = true ∨
     migration_pending t = Some q ∧ ap_task a = p ∧
     (works q (k_stops s') = 1%nat ∨ migration_disabled t ≠ 0 ∧ cpus_other t ≠ None)).
Proof.
  intros Hst Hr Hme. apply start_inv in Hst as [Hst _]. destruct (rtc_keeps _ _ _ _ Hst Hr) as [(t&Ht&_&Hi) _].
  cbn in *. destruct (ai_wait _ _ _ _ _ _ _ Hi me q Hme) as [Hq (a&Ha&Hd)].
  destruct (ai_slot _ _ _ _ _ _ _ Hi q Hq) as (a'&?&Href&Hw&_). simplify_eq. exists a, t. split_and!; try done.
  destruct Hd as [?|Hp]; [by left|right]. destruct (ai_pending _ _ _ _ _ _ _ Hi q Hp) as (a'&?&[]). simplify_eq.
  split_and!; try done. destruct (ap_stop_pending a) eqn:Hsp; [by left|right; auto].
Qed.

(** A thread that returns leaves nothing behind that refers to its stack. *)
Theorem affinity_return_safe p s s' cs me a :
  aff_start p s → rtc (aff_step true p) (s, ∅) (s', cs) → cs !! me = Some CDrain →
  k_pending s' !! me = Some a → ap_refs a = 0 →
  ap_stop_pending a = false ∧ works me (k_stops s') = 0%nat ∧ waiting me cs = 0%nat ∧
  ∀ t, k_tasks s' !! p = Some t → migration_pending t ≠ Some me.
Proof.
  intros Hst Hr Hme Ha Href. apply start_inv in Hst as [Hst _]. destruct (rtc_keeps _ _ _ _ Hst Hr) as [(t&Ht&_&Hi) _].
  cbn in *. destruct (ai_slot _ _ _ _ _ _ _ Hi me) as (a'&?&Href'&Hw&Hs); [eauto|]. simplify_eq.
  assert (migration_pending t ≠ Some me) as Hne.
  { intros Hp. destruct (ai_pending _ _ _ _ _ _ _ Hi me Hp) as (a'&?&[]). congruence. }
  destruct (ap_stop_pending a); [by destruct Hne; apply Hs|]. split_and!; try done; [lia|]. intros. by simplify_eq.
Qed.

(** None of the operations of the protocol fails, whatever was interleaved before. *)
Theorem affinity_operations_succeed p s s' cs t :
  aff_start p s → rtc (aff_step true p) (s, ∅) (s', cs) → k_tasks s' !! p = Some t →
  (∀ me ctx, runs s' me → cs !! me = None → on_rq t = 0 ∨ on_rq t = TASK_ON_RQ_QUEUED →
     has (ac_flags ctx) (Z.lor SCA_MIGRATE_ENABLE SCA_MIGRATE_DISABLE) = false →
     ∃ r, set_cpus_allowed_start p ctx s' = Ok r) ∧
  (runs s' p → cs !! p = None → on_cpu t = true → 0 < migration_disabled t < 2 ^ 16 →
     ∃ r, migrate_enable s' = Ok r) ∧
  (∀ me T1 T2 q, runs s' me → k_stops s' = T1 ++ (k_cpu s', migration_pending_work q) :: T2 → stopper_here s' t →
     ∃ a r, k_pending s' !! q = Some a ∧ ap_task a = p ∧
       migration_cpu_stop_locked (ap_task a) (ap_dest_cpu a) (Some q) (s' <| k_stops := T1 ++ T2 |>) = Ok r).
Proof.
  intros Hst Hr Ht. apply start_inv in Hst as [Hst _]. destruct (rtc_keeps _ _ _ _ Hst Hr) as [Hc _].
  split_and!.
  - intros me ctx Hrun Hme Hrq Hfl. destruct (config_St _ _ _ _ _ Ht Hc Hrun) as [Hs Hi].
    destruct (wp_inv (set_cpus_allowed_start p ctx) s' (λ _ _, True)) as (r&s1&->&_); [|eauto].
    by eapply wp_set_cpus_start.
  - intros Hrun Hme Hoc Hd. destruct (config_St _ _ _ _ _ Ht Hc Hrun) as [Hs Hi].
    destruct (wp_inv migrate_enable s' (λ _ _, True)) as (r&s1&->&_); [|eauto]. by eapply wp_migrate_enable.
  - intros me T1 T2 q Hrun Hk Hh. destruct (config_St _ _ _ _ _ Ht Hc Hrun) as [Hs Hi]. rewrite Hk in Hi.
    destruct (cs !! q) as [x|] eqn:Hq; cycle 1.
    { apply (ai_works _ _ _ _ _ _ _ Hi) in Hq. rewrite works_take, decide_True in Hq by done. lia. }
    destruct (ai_slot _ _ _ _ _ _ _ Hi q) as (a&Ha&_&Hw&Hmp); [eauto|]. rewrite works_take, decide_True in Hw by done.
    destruct (ap_stop_pending a); [|lia]. specialize (Hmp eq_refl).
    destruct (ai_pending _ _ _ _ _ _ _ Hi q Hmp) as (a'&?&Hin). simplify_eq. exists a.
    pose proof (in_task _ _ _ _ _ _ _ Hin) as Hp.
    destruct (wp_inv (migration_cpu_stop_locked (ap_task a) (ap_dest_cpu a) (Some q))
      (s' <| k_stops := T1 ++ T2 |>) (λ _ _, True)) as (r&s1&->&_); [|eauto].
    eapply (wp_stop _ p t _ T1 T2); [|done..]. destruct Hs as [[]]. by split.
Qed.

(** C20: A task of a class other than HVF ([affinity_class]) that can run is on a CPU of
    its mask, or a request that will move it there is installed, so that
    [affine_move_task] always finds the request it needs.  This is for interleavings in
    which the sets of online and active CPUs do not change ([AffLaws]), every stopper
    finds the CPU it is to move the task to usable, so that [__migrate_task] does not
    fail, and no stopper meets the task elsewhere while it is switched out with migration
    disabled ([stop_calm]); [affinity_chase_misses_mask] shows the last is needed. *)
Theorem affinity_task_settled p s s' cs t :
  aff_start p s → rtc (aff_step false p) (s, ∅) (s', cs) → k_tasks s' !! p = Some t → active t →
  Z.testbit (cpus_mask t) (cpu t) = true ∨
  ∃ q a, migration_pending t = Some q ∧ k_pending s' !! q = Some a ∧ ap_done a = false ∧
    Z.testbit (cpus_mask t) (ap_dest_cpu a) = true.
Proof.
  intros Hst Hr Ht Hact. apply start_inv in Hst as [Hst Hset]. destruct (rtc_keeps _ _ _ _ Hst Hr) as [(t'&Ht'&_&Hi) Hs].
  cbn in *. simplify_eq. destruct (placed t) eqn:Hpl; [by left|right].
  destruct (Hs eq_refl Hset t Ht Hact) as [|Hp]; [congruence|]. destruct (migration_pending t) as [q|] eqn:Hq; [|done].
  destruct (ai_pending _ _ _ _ _ _ _ Hi q Hq) as (a&Ha&[? ? ? ? Hde]). exists q, a.
  split_and!; try done. by apply Hde.
Qed.
End steps.
