(* ===== verification/Balance.v ===== *)
(** Balance callbacks and the push of tasks off a dying CPU (kernel/sched/core.c and
    sched.h): work queued under the run-queue lock for the time when the lock can be
    dropped, and the special callback that keeps a CPU that goes down free of ordinary
    tasks. *)
From S2P Require Import Prelude Rbtree KState HvfValue HvfClass HvfSmp Policy Uclamp Core Schedule Load Setsched Wakeup Affinity.

(** * The list of callbacks *)

Definition set_head (h : bcb_head) (v : bcb) (heads : bcb_head → bcb) : bcb_head → bcb :=
  λ h', if decide (h' = h) then v else heads h'.
Definition get_head (h : bcb_head) : M bcb := get (λ s, k_heads s h).
Definition upd_head (h : bcb_head) (f : bcb → bcb) : M unit :=
  modify (λ s, s <| k_heads := set_head h (f (k_heads s h)) (k_heads s) |>).

Definition queue_balance_callback (c : Z) (head : bcb_head) (func : bcb_func) : M unit :=
  b ← get_head head;
  r ← cpu_rq c;
  if bool_decide (bc_next b ≠ None) || bool_decide (balance_callback r = Some balance_push_callback) then skip
  else
    upd_head head (λ b, b <| bc_func := func |> <| bc_next := balance_callback r |>);;
    upd_rq c (λ r, r <| balance_callback := Some head |>).

Section run.
(** What the queued functions do. *)
Context (run_func : bcb_func → Z → M unit).

(** The loop of [do_balance_callbacks]; [fuel] bounds the number of rounds. *)
Fixpoint do_balance_callbacks (fuel : nat) (c : Z) (head : option bcb_head) : M unit :=
  match head with
  | None => skip
  | Some h =>
      match fuel with
      | O => oops_with out_of_fuel
      | Datatypes.S fuel' =>
          b ← get_head h;
          upd_head h (λ b, b <| bc_next := None |>);;
          run_func (bc_func b) c;;
          do_balance_callbacks fuel' c (bc_next b)
      end
  end.

Definition __splice_balance_callbacks (c : Z) (split : bool) : M (option bcb_head) :=
  r ← cpu_rq c;
  match balance_callback r with
  | None => mret None
  | Some head =>
      if split && bool_decide (head = balance_push_callback) then mret None
      else upd_rq c (λ r, r <| balance_callback := None |>);; mret (Some head)
  end.
Definition splice_balance_callbacks (c : Z) : M (option bcb_head) := __splice_balance_callbacks c true.
Definition __balance_callbacks (fuel : nat) (c : Z) : M unit :=
  head ← __splice_balance_callbacks c false;
  do_balance_callbacks fuel c head.
Definition balance_callbacks (fuel : nat) (c : Z) (head : option bcb_head) : M unit :=
  match head with Some _ => do_balance_callbacks fuel c head | None => skip end.
End run.

(** * A CPU that goes down *)

(** The wait queue of the hotplug thread of a CPU. *)
Class HotplugLib := {
  rcuwait_active : Z → kstate → bool;
  rcuwait_wake_up : Z → M unit;
}.

Section push.
Context {L : RbLib} {TC : TickConfig} {S : SmpLib} {UC : UclampConfig} {E : Ext}
  {OC : OtherClasses} {CL : CpuLib} {AL : AffLib} {SL : SysLib} {UM : UserMem} {HL : HotplugLib}.

Definition balance_push (c : Z) : M unit :=
  r ← cpu_rq c;
  let push_task := curr r in
  upd_rq c (λ r, r <| balance_callback := Some balance_push_callback |>);;
  this ← smp_processor_id;
  if negb (cpu_dying c) || negb (c =? this) then skip else
  t ← task push_task;
  if kthread_is_per_cpu t || is_migration_disabled t then
    active ← get (rcuwait_active c);
    when ((nr_running r =? 0) && negb (rq_has_pinned_tasks r) && active) (rcuwait_wake_up c)
  else stop_one_cpu_nowait c (balance_push_work push_task).

(** The result says whether the [WARN_ON_ONCE] fires. *)
Definition balance_push_set (c : Z) (on : bool) : M bool :=
  r ← cpu_rq c;
  if on then
    let warn := bool_decide (is_Some (balance_callback r)) in
    upd_rq c (λ r, r <| balance_callback := Some balance_push_callback |>);;
    mret warn
  else
    when (bool_decide (balance_callback r = Some balance_push_callback))
      (upd_rq c (λ r, r <| balance_callback := None |>));;
    mret false.

(** The condition [balance_hotplug_wait] waits for. *)
Definition hotplug_quiescent (r : rq) : bool := (nr_running r =? 1) && negb (rq_has_pinned_tasks r).

Definition __balance_push_cpu_stop (p : tid) : M unit :=
  c ← smp_processor_id;
  t ← task p;
  when ((cpu t =? c) && task_on_rq_queued t)
    (dest ← select_fallback_rq c p; __migrate_task c p dest).

(** The stopper thread of a CPU runs a queued work. *)
Definition run_stop (w : stop_fn) : M unit :=
  match w with
  | push_work p => push_cpu_stop p
  | balance_push_work p => __balance_push_cpu_stop p
  | _ => migration_cpu_stop w
  end.
End push.

(** * The list is emptied *)

Definition next_of_head (s : kstate) (h : bcb_head) : option bcb_head := bc_next (k_heads s h).

(** A callback function that ends and leaves the [next] pointers alone. *)
Definition callback_ok (run_func : bcb_func → Z → M unit) : Prop :=
  ∀ f c s, wp (run_func f c) s (λ _ s', ∀ h, k_heads s' h = k_heads s h).

Section ends.
Context (run_func : bcb_func → Z → M unit).

Lemma wp_clear_next h s Q :
  Q tt (s <| k_heads := set_head h ((k_heads s h) <| bc_next := None |>) (k_heads s) |>) →
  wp (upd_head h (λ b, b <| bc_next := None |>)) s Q.
Proof. intros HQ. by apply wp_modify. Qed.

(** Every round clears a pointer, so there are no more rounds than pointers, even if the
    list is cyclic. *)
Lemma do_callbacks_ends fuel c head s hs :
  callback_ok run_func → NoDup hs → (∀ h, next_of_head s h ≠ None → h ∈ hs) → (length hs < fuel)%nat →
  wp (do_balance_callbacks run_func fuel c head) s (λ _ s',
    ∀ h, next_of_head s' h = next_of_head s h ∨ next_of_head s' h = None).
Proof.
  intros Hrun. revert head s hs. induction fuel as [|fuel IH]; intros head s hs Hnd Hin Hlt; [lia|].
  destruct head as [h|]; cbn; [|by intros; left]. apply wp_bind, wp_get, wp_bind, wp_clear_next.
  set (s1 := s <| k_heads := _ |>). apply wp_bind. eapply wp_mono; [apply Hrun|]. intros [] s2 Hs2.
  assert (∀ h', next_of_head s2 h' = if decide (h' = h) then None else next_of_head s h') as Hnx.
  { intros h'. unfold next_of_head. rewrite Hs2. unfold s1, set_head. cbn. by case_decide. }
  assert (∀ h', next_of_head s2 h' = next_of_head s h' ∨ next_of_head s2 h' = None) as Hor.
  { intros h'. rewrite Hnx. case_decide; auto. }
  destruct (bc_next (k_heads s h)) as [h1|] eqn:Hn.
  - assert (h ∈ hs) as Hh by (apply Hin; unfold next_of_head; congruence).
    eapply wp_mono; [apply (IH _ _ (filter (λ x, x ≠ h) hs))|].
    + by apply NoDup_filter.
    + intros h' Hne. rewrite Hnx in Hne. case_decide; [done|]. apply list_elem_of_filter. auto.
    + assert (length (filter (λ x, x ≠ h) hs) < length hs)%nat; [|lia].
      clear -Hh. induction hs as [|x hs IHl]; [set_solver|]. rewrite filter_cons. cbn.
      pose proof (length_filter (λ x, x ≠ h) hs). case_decide as Hx; cbn; [|lia].
      apply elem_of_cons in Hh as [->|Hh]; [done|]. specialize (IHl Hh). lia.
    + intros [] s3 Hs3 h'. destruct (Hs3 h') as [-> | ->]; auto.
  - destruct fuel; cbn; intros h'; apply Hor.
Qed.

(** [hs] is the list that starts at [head], and [fs] the functions it was queued with. *)
Fixpoint chained (heads : bcb_head → bcb) (head : option bcb_head) (hs : list bcb_head) (fs : list bcb_func) : Prop :=
  match hs, fs with
  | [], [] => head = None
  | h :: hs', f :: fs' => head = Some h ∧ bc_func (heads h) = f ∧ chained heads (bc_next (heads h)) hs' fs'
  | _, _ => False
  end.

Lemma chained_ext heads heads' head hs fs :
  chained heads head hs fs → (∀ h, h ∈ hs → heads' h = heads h) → chained heads' head hs fs.
Proof.
  revert head fs. induction hs as [|h hs IH]; intros head [|f fs]; cbn; [done..|].
  intros (->&<-&Hc) Hx. rewrite Hx by set_solver. split_and!; [done..|]. apply IH; [done|]. set_solver.
Qed.

(** The functions of the list run one after the other: [done] says which ran so far. *)
Lemma do_callbacks_runs (done : list bcb_func → kstate → Prop) fuel c head s hs fs fs0 :
  (∀ fs f s, done fs s → wp (run_func f c) s (λ _ s', done (fs ++ [f]) s' ∧ k_heads s' = k_heads s)) →
  (∀ fs s g, done fs s → done fs (s <| k_heads := g |>)) →
  chained (k_heads s) head hs fs → NoDup hs → (length hs <= fuel)%nat → done fs0 s →
  wp (do_balance_callbacks run_func fuel c head) s (λ _ s', done (fs0 ++ fs) s').
Proof.
  intros Hf Hg. revert fuel head s fs fs0. induction hs as [|h hs IH]; intros fuel head s [|f fs] fs0 Hc Hnd Hlt Hd;
    cbn in Hc; try done.
  { subst head. rewrite app_nil_r. by destruct fuel. }
  destruct Hc as (->&Hfh&Hc). destruct fuel as [|fuel]; [cbn in Hlt; lia|]. apply NoDup_cons in Hnd as [Hh Hnd].
  cbn [do_balance_callbacks]. apply wp_bind, wp_get, wp_bind, wp_clear_next, wp_bind. rewrite Hfh.
  eapply wp_mono; [apply Hf, Hg, Hd|]. intros [] s2 [Hd2 Hh2]. rewrite (cons_middle f fs0 fs), app_assoc.
  apply (IH fuel _ s2 fs); [|done|cbn in Hlt; lia|done]. rewrite Hh2. eapply chained_ext; [exact Hc|].
  intros h' Hh'. cbn. unfold set_head. rewrite decide_False; [done|]. by intros ->.
Qed.
End ends.

(** Queueing a callback that is not in the list puts it in front. *)
Lemma wp_queue_callback s c r head func hs fs Q :
  k_rqs s !! c = Some r → chained (k_heads s) (balance_callback r) hs fs → head ∉ hs →
  next_of_head s head = None → balance_callback r ≠ Some balance_push_callback →
  (∀ s' r', k_rqs s' !! c = Some r' → chained (k_heads s') (balance_callback r') (head :: hs) (func :: fs) → Q tt s') →
  wp (queue_balance_callback c head func) s Q.
Proof.
  intros Hr Hc Hh Hn Hp HQ. unfold queue_balance_callback. apply wp_bind, wp_get, wp_bind. eapply wp_rq; [done|].
  unfold next_of_head in Hn. rewrite !bool_decide_false by (congruence || done). cbn [orb]. apply wp_bind, wp_modify.
  eapply wp_upd_rq; [done|]. eapply HQ; [apply lookup_insert_eq|]. cbn. unfold set_head.
  rewrite decide_True by done. split_and!; [done..|]. cbn. eapply chained_ext; [exact Hc|].
  intros h Hh'. cbn. rewrite decide_False; [done|]. by intros ->.
Qed.

(** The loop over the balance callbacks of a CPU ends, whatever the links between the
    heads are: if at most [length hs] heads have a successor, [length hs + 1] rounds are
    enough, also for links with a cycle, because every round clears the link it follows;
    no other link changes. *)
Theorem balance_callbacks_end run_func c s r hs :
  callback_ok run_func → k_rqs s !! c = Some r → NoDup hs → (∀ h, next_of_head s h ≠ None → h ∈ hs) →
  wp (__balance_callbacks run_func (length hs + 1) c) s (λ _ s',
    ∀ h, next_of_head s' h = next_of_head s h ∨ next_of_head s' h = None).
Proof.
  intros Hok Hr Hnd Hin. unfold __balance_callbacks, __splice_balance_callbacks. apply wp_bind, wp_bind.
  eapply wp_rq; [done|]. destruct (balance_callback r) as [h|]; cbn [andb].
  - apply wp_bind. eapply wp_upd_rq; [done|]. apply wp_ret.
    set (s1 := s <| k_rqs := _ |>). change (next_of_head s) with (next_of_head s1).
    apply do_callbacks_ends with hs; [done..|lia].
  - apply wp_ret. rewrite Nat.add_1_r. cbn. by left.
Qed.

(** The functions queued in a proper list run exactly once each, the last queued
    first. *)
Theorem balance_callbacks_lifo run_func (done : list bcb_func → kstate → Prop) c s r hs fs :
  (∀ fs f s, done fs s → wp (run_func f c) s (λ _ s', done (fs ++ [f]) s' ∧ k_heads s' = k_heads s)) →
  (∀ fs s g, done fs s → done fs (s <| k_heads := g |>)) →
  k_rqs s !! c = Some r → chained (k_heads s) (balance_callback r) hs fs → NoDup hs →
  done [] (s <| k_rqs := <[c := r <| balance_callback := None |>]> (k_rqs s) |>) → done [] s →
  wp (__balance_callbacks run_func (length hs) c) s (λ _ s', done fs s').
Proof.
  intros Hf Hg Hr Hc Hnd Hd0 Hd. unfold __balance_callbacks, __splice_balance_callbacks. apply wp_bind, wp_bind.
  eapply wp_rq; [done|]. destruct (balance_callback r) as [h|] eqn:Hb; cbn [andb].
  - apply wp_bind. eapply wp_upd_rq; [done|]. apply wp_ret.
    by apply (do_callbacks_runs run_func done) with (fs0 := []) (hs := hs).
  - apply wp_ret. destruct hs, fs; cbn in Hc; try done; destruct Hc; done.
Qed.

(** A callback that is the last of the list is not recognised as queued, its [next]
    being [NULL]: queued again, it becomes its own successor. *)
Theorem balance_requeue_last s c r h f :
  k_rqs s !! c = Some r → balance_callback r = None → next_of_head s h = None → h ≠ balance_push_callback →
  wp (queue_balance_callback c h f;; queue_balance_callback c h f) s (λ _ s', next_of_head s' h = Some h).
Proof.
  intros Hr Hb Hn Hh. apply wp_bind. unfold queue_balance_callback at 1. apply wp_bind, wp_get, wp_bind.
  eapply wp_rq; [done|]. unfold next_of_head in Hn. rewrite Hb, Hn. cbn [orb]. rewrite !bool_decide_false by (congruence || auto).
  cbn [orb]. apply wp_bind, wp_modify. eapply wp_upd_rq; [done|]. unfold queue_balance_callback.
  apply wp_bind, wp_get, wp_bind. eapply wp_rq; [apply lookup_insert_eq|]. cbn. unfold set_head. rewrite !decide_True by done. cbn.
  rewrite !bool_decide_false by (congruence || auto). cbn [orb]. apply wp_bind, wp_modify.
  eapply wp_upd_rq; [apply lookup_insert_eq|]. unfold next_of_head. cbn. unfold set_head. by rewrite !decide_True.
Qed.
