(* ===== verification/CoreSched.v ===== *)
(** Core scheduling (CONFIG_SCHED_CORE in kernel/sched/core.c and sched.h): the tree of
    tasks with a cookie, the selection of a task for every hardware thread of a core,
    stealing of tasks with the right cookie, the leader of a core during hotplug, and the
    switch that turns it all on.

    [enqueue_task], [dequeue_task] and [__schedule] elsewhere in this development are
    the code with the switch off; [pick_next_task_core] is the whole [pick_next_task] of
    this configuration. *)
From S2P Require Import Prelude Rbtree KState HvfValue HvfClass HvfSmp Policy Uclamp Core Schedule Load Setsched Wakeup Affinity Balance.

(** [include/linux/rbtree.h], the topology of the machine, and the parts of other files
    core scheduling calls: throttling and virtual run times of the fair class,
    comparisons of tasks inside a class, accounting of forced idle time
    (core_sched.c). *)
Class CoreLib := {
  rb_add : (tid → tid → bool) → tid → rbtree → rbtree;
  rb_find_first : (tid → Z) → rbtree → option tid;
  cpu_smt_mask : Z → Z;
  cpu_is_offline : Z → bool;
  sched_domain_spans : Z → list Z;
  other_is_throttled : sched_class_id → option (task_struct → Z → bool);
  task_vruntime_update : Z → tid → bool → M unit;
  sched_core_account_forceidle : Z → M unit;
  dl_deadline_of : task_struct → Z;
  dl_server_deadline : Z → Z;
  cfs_prio_less : bool → task_struct → task_struct → bool;
  scx_prio_less : bool → task_struct → task_struct → bool;
  schedstat_enabled : bool;
  rq_clock : Z → kstate → Z;
}.

(** Their documented behaviour: [rb_add] links the new node between two neighbours, the
    first of which it is not less than and the second of which it is; the search finds
    the leftmost node that compares equal, in a tree ordered by the comparison. *)
Class CoreLibLaws (CO : CoreLib) : Prop := {
  rb_add_inorder less e t : ∃ l1 l2,
    inorder t = l1 ++ l2 ∧ inorder (rb_add less e t) = l1 ++ e :: l2 ∧
    (∀ x, last l1 = Some x → less e x = false) ∧ (∀ x, head l2 = Some x → less e x = true);
  rb_find_first_inorder cmp t :
    StronglySorted (λ a b, cmp b <= cmp a) (inorder t) →
    rb_find_first cmp t = head (filter (λ e, cmp e = 0) (inorder t));
}.

Section coresched.
Context {L : RbLib} {TC : TickConfig} {S : SmpLib} {UC : UclampConfig} {E : Ext}
  {OC : OtherClasses} {CL : CpuLib} {AL : AffLib} {SL : SysLib} {UM : UserMem} {HL : HotplugLib}
  {CO : CoreLib}.

(** * State *)

Definition upd_core (c : Z) (f : core_rq → core_rq) : M unit := upd_rq c (λ r, r <| core_data ::= f |>).
(** [rq->core]: the run queue of the leader. *)
Definition core_of (c : Z) : M Z := r ← cpu_rq c; mret (core (core_data r)).
Definition core_leader (c : Z) : M core_rq := l ← core_of c; r ← cpu_rq l; mret (core_data r).
Definition upd_leader (c : Z) (f : core_rq → core_rq) : M unit := l ← core_of c; upd_core l f.

Definition sched_core_enabled (r : rq) : M bool :=
  key ← get (λ s, core_key (k_core s)); mret (key && core_enabled (core_data r)).
Definition sched_core_disabled : M bool := key ← get (λ s, core_key (k_core s)); mret (negb key).
Definition sched_core_enqueued (t : task_struct) : bool := core_enqueued t.

(** * The tree of tasks with a cookie *)

Definition core_prio_less (in_fi : bool) : task_struct → task_struct → bool :=
  prio_less dl_deadline_of dl_server_deadline (cfs_prio_less in_fi) (scx_prio_less in_fi).

(** [fi] is [!!task_rq(a)->core->core_forceidle_count]. *)
Definition __sched_core_less (fi : bool) (a b : task_struct) : bool :=
  if core_cookie a <? core_cookie b then true
  else if core_cookie b <? core_cookie a then false
  else core_prio_less fi b a.

(** The order of nodes, which are tasks. *)
Definition rb_sched_core_less (s : kstate) (fi : bool) (a b : tid) : bool :=
  match k_tasks s !! a, k_tasks s !! b with
  | Some ta, Some tb => __sched_core_less fi ta tb
  | _, _ => false
  end.

Definition rb_sched_core_cmp (s : kstate) (cookie : Z) (p : tid) : Z :=
  let p_cookie := match k_tasks s !! p with Some t => core_cookie t | None => 0 end in
  if cookie <? p_cookie then -1 else if p_cookie <? cookie then 1 else 0.

Definition sched_core_enqueue (c : Z) (p : tid) : M unit :=
  t ← task p;
  if sched_delayed t then skip else
  upd_leader c (λ k, k <| core_task_seq ::= λ n, u32 (n + 1) |>);;
  if core_cookie t =? 0 then skip else
  k ← core_leader (cpu t);
  less ← get (λ s, rb_sched_core_less s (negb (core_forceidle_count k =? 0)));
  upd_core c (λ k, k <| core_tree ::= rb_add less p |>);;
  upd_task p (λ t, t <| core_enqueued := true |>).

Definition sched_core_dequeue (c : Z) (p : tid) (flags : Z) : M unit :=
  t ← task p;
  if sched_delayed t then skip else
  upd_leader c (λ k, k <| core_task_seq ::= λ n, u32 (n + 1) |>);;
  when (sched_core_enqueued t)
    (upd_core c (λ k, k <| core_tree ::= rb_erase p |>);;
     upd_task p (λ t, t <| core_enqueued := false |>));;
  r ← cpu_rq c;
  k ← core_leader c;
  when (negb (has flags DEQUEUE_SAVE) && (nr_running r =? 1) && negb (core_forceidle_count k =? 0) &&
        bool_decide (curr r = idle r))
    (resched_curr c).

Definition sched_task_is_throttled (t : task_struct) (c : Z) : bool :=
  match sched_class t with
  | hvf_sched_class => false
  | cl => match other_is_throttled cl with Some f => f t c | None => false end
  end.

(** The loop of [sched_core_next] in the tree [tree], from the node of [p]; [c] is the
    CPU of the first task.  [fuel] bounds the number of nodes visited. *)
Fixpoint sched_core_next_loop (fuel : nat) (tree : rbtree) (c : Z) (p : tid) (cookie : Z) : M (option tid) :=
  match fuel with
  | O => oops_with out_of_fuel
  | Datatypes.S fuel' =>
      match rb_next p tree with
      | None => mret None
      | Some p' =>
          t ← task p';
          if negb (core_cookie t =? cookie) then mret None
          else if sched_task_is_throttled t c then sched_core_next_loop fuel' tree c p' cookie
          else mret (Some p')
      end
  end.

(** The tree of the task is that of its CPU; it has no more nodes than the bound. *)
Definition sched_core_next (p : tid) (cookie : Z) : M (option tid) :=
  t ← task p;
  r ← cpu_rq (cpu t);
  let tree := core_tree (core_data r) in
  sched_core_next_loop (Datatypes.S (length (inorder tree))) tree (cpu t) p cookie.

Definition sched_core_find (c : Z) (cookie : Z) : M (option tid) :=
  r ← cpu_rq c;
  cmp ← get (λ s, rb_sched_core_cmp s cookie);
  match rb_find_first cmp (core_tree (core_data r)) with
  | None => mret None
  | Some p =>
      t ← task p;
      if negb (sched_task_is_throttled t c) then mret (Some p)
      else sched_core_next p cookie
  end.

(** * Selection for a core *)

Definition is_task_rq_idle (p : tid) : M bool :=
  t ← task p; r ← cpu_rq (cpu t); mret (bool_decide (idle r = p)).
Definition cookie_equals (a : tid) (cookie : Z) : M bool :=
  b ← is_task_rq_idle a; t ← task a; mret (b || (core_cookie t =? cookie)).
Definition cookie_match (a b : tid) : M bool :=
  ia ← is_task_rq_idle a; ib ← is_task_rq_idle b;
  if ia || ib : bool then mret true else
  ta ← task a; tb ← task b; mret (core_cookie ta =? core_cookie tb).

Fixpoint pick_task_classes (c : Z) (classes : list sched_class_id) : M tid :=
  match classes with
  | [] => oops_with kernel_bug
  | class :: classes' =>
      f ← call_null (op_pick_task (class_ops class));
      p ← f c;
      match p with Some p => mret p | None => pick_task_classes c classes' end
  end.
Definition pick_task (c : Z) : M tid :=
  upd_rq c (λ r, r <| rq_dl_server := None |>);;
  pick_task_classes c for_each_active_class.

(** [for_each_cpu_wrap]. *)
Definition mask_cpus_wrap (mask : Z) (start : Z) : list Z :=
  filter (λ c, start <= c) (mask_cpus mask) ++ filter (λ c, c < start) (mask_cpus mask).

(** The first loop: a pick for each thread, and the greatest of them. *)
Fixpoint core_pick_max (cpus : list Z) (fi_before : bool) (max : option tid) : M (option tid) :=
  match cpus with
  | [] => mret max
  | i :: cpus' =>
      p ← pick_task i;
      r ← cpu_rq i;
      upd_core i (λ k, k <| core_pick := Some p |> <| core_dl_server := rq_dl_server r |>);;
      t ← task p;
      higher ← match max with
               | None => mret true
               | Some m => tm ← task m; mret (core_prio_less fi_before tm t)
               end;
      core_pick_max cpus' fi_before (if higher : bool then Some p else max)
  end.

(** The second loop: a task that matches the cookie, or idle; counts the threads that
    are not idle. *)
Fixpoint core_pick_match (c : Z) (cpus : list Z) (cookie : Z) (fi_before : bool) (occ : Z) : M Z :=
  match cpus with
  | [] => mret occ
  | i :: cpus' =>
      r ← cpu_rq i;
      p ← deref (core_pick (core_data r));
      same ← cookie_equals p cookie;
      p ← (if same : bool then mret p else
           found ← (if cookie =? 0 then mret None else sched_core_find i cookie);
           match found with
           | Some p => mret p
           | None =>
               f ← call_null (op_pick_task (class_ops idle_sched_class));
               q ← f i;
               deref q
           end);
      upd_core i (λ k, k <| core_pick := Some p |> <| core_dl_server := None |>);;
      r ← cpu_rq i;
      if bool_decide (p = idle r) then
        when (negb (nr_running r =? 0))
          (upd_leader c (λ k, k <| core_forceidle_count ::= λ n, u32 (n + 1) |>);;
           when (negb fi_before) (upd_leader c (λ k, k <| core_forceidle_seq ::= λ n, u32 (n + 1) |>)));;
        core_pick_match c cpus' cookie fi_before occ
      else core_pick_match c cpus' cookie fi_before (occ + 1)
  end.

(** The third loop: the siblings that run something else are made to reschedule. *)
Fixpoint core_resched (c : Z) (cpus : list Z) (fi_before : bool) (occ : Z) : M unit :=
  match cpus with
  | [] => skip
  | i :: cpus' =>
      r ← cpu_rq i;
      match core_pick (core_data r) with
      | None => skip
      | Some p =>
          k ← core_leader c;
          let fi := negb (core_forceidle_count k =? 0) in
          when (negb (fi_before && fi)) (task_vruntime_update i p fi);;
          upd_task p (λ t, t <| core_occupation := occ |>);;
          if (i =? c) || bool_decide (curr r = p)
          then upd_core i (λ k, k <| core_pick := None |> <| core_dl_server := None |>)
          else resched_curr i
      end;;
      core_resched c cpus' fi_before occ
  end.

Definition queue_core_balance (c : Z) : M unit :=
  r ← cpu_rq c;
  enabled ← sched_core_enabled r;
  if negb enabled then skip else
  k ← core_leader c;
  if rq_core_cookie k =? 0 then skip else
  if nr_running r =? 0 then skip else
  queue_balance_callback c (core_balance_head c) sched_core_balance_fn.

(** From [out_set_next]. *)
Definition core_set_next (c : Z) (prev next : tid) : M tid :=
  put_prev_set_next_task c prev next;;
  k ← core_leader c;
  r ← cpu_rq c;
  when (negb (core_forceidle_count k =? 0) && bool_decide (next = idle r)) (queue_core_balance c);;
  mret next.

(** The selection proper, up to the rescheduling of the siblings. *)
Definition core_select (c : Z) (fi_before : bool) : M tid :=
  let smt := mask_cpus (cpu_smt_mask c) in
  max ← core_pick_max (mask_cpus_wrap (cpu_smt_mask c) c) fi_before None;
  max ← deref max;
  t ← task max;
  let cookie := core_cookie t in
  upd_leader c (λ k, k <| rq_core_cookie := cookie |>);;
  occ ← core_pick_match c smt cookie fi_before 0;
  k ← core_leader c;
  l ← core_of c;
  clock ← get (rq_clock l);
  when (schedstat_enabled && negb (core_forceidle_count k =? 0))
    (upd_leader c (λ k, k <| core_forceidle_start := clock |> <| core_forceidle_occupation := occ |>));;
  upd_leader c (λ k, k <| core_pick_seq := core_task_seq k |>);;
  r ← cpu_rq c;
  next ← deref (core_pick (core_data r));
  k ← core_leader c;
  upd_core c (λ k', k' <| core_sched_seq := core_pick_seq k |>);;
  core_resched c smt fi_before occ;;
  mret next.

Definition pick_next_task_core (c : Z) (prev : tid) : M tid :=
  r ← cpu_rq c;
  enabled ← sched_core_enabled r;
  if negb enabled then __pick_next_task c prev else
  if cpu_is_offline c then
    upd_core c (λ k, k <| core_pick := None |> <| core_dl_server := None |>);;
    __pick_next_task c prev
  else
  k ← core_leader c;
  match (if (core_pick_seq k =? core_task_seq k) && negb (core_pick_seq k =? core_sched_seq (core_data r))
         then core_pick (core_data r) else None) with
  | Some next =>
      upd_core c (λ k', k' <| core_sched_seq := core_pick_seq k |>);;
      upd_rq c (λ r, r <| rq_dl_server := core_dl_server (core_data r) |>);;
      upd_core c (λ k, k <| core_pick := None |> <| core_dl_server := None |>);;
      core_set_next c prev next
  | None =>
      prev_balance c prev;;
      k ← core_leader c;
      let fi_before := negb (core_forceidle_count k =? 0) in
      let need_sync := negb (rq_core_cookie k =? 0) || fi_before in
      upd_leader c (λ k, k <| rq_core_cookie := 0 |>);;
      when fi_before
        (sched_core_account_forceidle c;;
         upd_leader c (λ k, k <| core_forceidle_start := 0 |> <| core_forceidle_count := 0 |>
                              <| core_forceidle_occupation := 0 |>));;
      upd_leader c (λ k, k <| core_task_seq ::= λ n, u32 (n + 1) |>);;
      fast ← (if need_sync then mret None else
              next ← pick_task c;
              t ← task next;
              mret (if core_cookie t =? 0 then Some next else None));
      match fast with
      | Some next =>
          upd_core c (λ k, k <| core_pick := None |> <| core_dl_server := None |>);;
          task_vruntime_update c next false;;
          core_set_next c prev next
      | None =>
          next ← core_select c fi_before;
          core_set_next c prev next
      end
  end.

(** * Stealing *)

(** The loop of [try_steal_cookie] over the tasks of the source CPU with the cookie. *)
Fixpoint steal_loop (fuel : nat) (this that : Z) (cookie : Z) (p : tid) : M bool :=
  match fuel with
  | O => oops_with out_of_fuel
  | Datatypes.S fuel' =>
      src ← cpu_rq that;
      dst ← cpu_rq this;
      t ← task p;
      ti ← task (idle dst);
      if bool_decide (core_pick (core_data src) = Some p) || bool_decide (p = curr src) ||
         negb (is_cpu_allowed t this) || (core_occupation ti <? core_occupation t) ||
         sched_task_is_throttled t this
      then
        next ← sched_core_next p cookie;
        match next with Some p => steal_loop fuel' this that cookie p | None => mret false end
      else
        move_queued_task_locked that this p;;
        resched_curr this;;
        mret true
  end.

Definition try_steal_cookie (this that : Z) : M bool :=
  k ← core_leader this;
  let cookie := rq_core_cookie k in
  if cookie =? 0 then mret false else
  dst ← cpu_rq this;
  if bool_decide (curr dst ≠ idle dst) then mret false else
  p ← sched_core_find that cookie;
  match p with
  | None => mret false
  | Some p =>
      src ← cpu_rq that;
      steal_loop (Datatypes.S (length (inorder (core_tree (core_data src))))) this that cookie p
  end.

(** [need_resched()]. *)
Definition current_need_resched : M bool := p ← current; t ← task p; mret (need_resched t).

Fixpoint steal_from (c : Z) (cpus : list Z) : M bool :=
  match cpus with
  | [] => mret false
  | i :: cpus' =>
      if i =? c then steal_from c cpus' else
      b ← current_need_resched;
      if b : bool then mret false else
      stolen ← try_steal_cookie c i;
      if stolen : bool then mret true else steal_from c cpus'
  end.
Definition steal_cookie_task (c : Z) (span : Z) : M bool := steal_from c (mask_cpus_wrap span (c + 1)).

Fixpoint balance_domains (c : Z) (spans : list Z) : M unit :=
  match spans with
  | [] => skip
  | span :: spans' =>
      b ← current_need_resched;
      if b : bool then skip else
      stolen ← steal_cookie_task c span;
      if stolen : bool then skip else balance_domains c spans'
  end.
Definition sched_core_balance (c : Z) : M unit := balance_domains c (sched_domain_spans c).

(** * Cookies and the choice of a CPU *)

Definition sched_cpu_cookie_match (c : Z) (t : task_struct) : M bool :=
  r ← cpu_rq c;
  enabled ← sched_core_enabled r;
  if negb enabled then mret true else
  k ← core_leader c;
  mret (rq_core_cookie k =? core_cookie t).

Fixpoint all_available_idle (cpus : list Z) : M bool :=
  match cpus with
  | [] => mret true
  | i :: cpus' => b ← available_idle_cpu i; if b : bool then all_available_idle cpus' else mret false
  end.
Definition sched_core_cookie_match (c : Z) (t : task_struct) : M bool :=
  r ← cpu_rq c;
  enabled ← sched_core_enabled r;
  if negb enabled then mret true else
  idle_core ← all_available_idle (mask_cpus (cpu_smt_mask c));
  k ← core_leader c;
  mret (idle_core || (rq_core_cookie k =? core_cookie t)).

Fixpoint any_cookie_match (cpus : list Z) (t : task_struct) : M bool :=
  match cpus with
  | [] => mret false
  | i :: cpus' => b ← sched_core_cookie_match i t; if b : bool then mret true else any_cookie_match cpus' t
  end.
Definition sched_group_cookie_match (c : Z) (t : task_struct) (span : Z) : M bool :=
  r ← cpu_rq c;
  enabled ← sched_core_enabled r;
  if negb enabled then mret true else any_cookie_match (mask_cpus (Z.land span (cpus_ptr t))) t.

Definition sched_core_idle_cpu (c : Z) : M bool :=
  r ← cpu_rq c;
  enabled ← sched_core_enabled r;
  if enabled && bool_decide (curr r = idle r) then mret true else idle_cpu c.

(** * The leader of a core *)

Definition find_leader (c : Z) (cpus : list Z) : M (option Z) :=
  get (λ s, head (filter (λ t, t ≠ c ∧ core <$> (core_data <$> k_rqs s !! t) = Some t) cpus)).

Fixpoint set_leader (cpus : list Z) (l : Z) : M unit :=
  match cpus with
  | [] => skip
  | t :: cpus' => upd_core t (λ k, k <| core := l |>);; set_leader cpus' l
  end.

(** The loop that installs the leader [l] in the CPU [c] and looks whether all follow it:
    whether its [WARN_ON_ONCE] fires. *)
Fixpoint install_leader (c l : Z) (cpus : list Z) : M bool :=
  match cpus with
  | [] => mret false
  | t :: cpus' =>
      when (t =? c) (upd_core t (λ k, k <| core := l |>));;
      r ← cpu_rq t;
      let warn := negb (core (core_data r) =? l) in
      rest ← install_leader c l cpus';
      mret (warn || rest)
  end.

(** The CPU that starts adopts the leader of its siblings; whether a [WARN_ON_ONCE]
    fires. *)
Definition sched_core_cpu_starting (c : Z) : M bool :=
  let smt := mask_cpus (cpu_smt_mask c) in
  r ← cpu_rq c;
  let warn := negb (core (core_data r) =? c) in
  if (length smt =? 1)%nat then mret warn else
  l ← find_leader c smt;
  match l with
  | None => mret true
  | Some l => rest ← install_leader c l smt; mret (warn || rest)
  end.

(** A leader that goes away hands the shared state to a sibling; whether a
    [WARN_ON_ONCE] fires. *)
Definition sched_core_cpu_deactivate (c : Z) : M bool :=
  let smt := mask_cpus (cpu_smt_mask c) in
  r ← cpu_rq c;
  if (length smt =? 1)%nat then mret (negb (core (core_data r) =? c)) else
  if negb (core (core_data r) =? c) then mret false else
  match head (filter (λ t, t ≠ c) smt) with
  | None => mret true
  | Some l =>
      let k := core_data r in
      upd_core l (λ k', k' <| core_task_seq := core_task_seq k |> <| core_pick_seq := core_pick_seq k |>
                           <| rq_core_cookie := rq_core_cookie k |>
                           <| core_forceidle_count := core_forceidle_count k |>
                           <| core_forceidle_seq := core_forceidle_seq k |>
                           <| core_forceidle_occupation := core_forceidle_occupation k |>
                           <| core_forceidle_start := 0 |>);;
      set_leader smt l;;
      mret false
  end.

Definition sched_core_cpu_dying (c : Z) : M unit :=
  r ← cpu_rq c;
  when (negb (core (core_data r) =? c)) (upd_core c (λ k, k <| core := c |>)).

(** * Turning core scheduling on and off *)

Fixpoint set_core_enabled (cpus : list Z) (enabled : bool) : M unit :=
  match cpus with
  | [] => skip
  | t :: cpus' => upd_core t (λ k, k <| core_enabled := enabled |>);; set_core_enabled cpus' enabled
  end.

(** The loop over the online cores; the mask shrinks by the threads of the core each
    round handles, and the next CPU is looked for in what is left. *)
Fixpoint flip_loop (fuel : nat) (mask start : Z) (enabled : bool) : M unit :=
  match head (filter (λ c, start <= c) (mask_cpus mask)) with
  | None => skip
  | Some c =>
      match fuel with
      | O => oops_with out_of_fuel
      | Datatypes.S fuel' =>
          set_core_enabled (mask_cpus (cpu_smt_mask c)) enabled;;
          upd_leader c (λ k, k <| core_forceidle_start := 0 |>);;
          flip_loop fuel' (Z.land mask (Z.lnot (cpu_smt_mask c))) (c + 1) enabled
      end
  end.

Definition __sched_core_flip (enabled : bool) : M unit :=
  flip_loop (Z.to_nat nr_cpu_ids) cpu_online_mask 0 enabled;;
  set_core_enabled (mask_cpus (Z.land cpu_possible_mask (Z.lnot cpu_online_mask))) enabled.

Definition upd_global (f : core_global → core_global) : M unit := modify (λ s, s <| k_core ::= f |>).
Definition __sched_core_enable : M unit :=
  upd_global (λ g, g <| core_key := true |>);;
  __sched_core_flip true.
Definition __sched_core_disable : M unit :=
  __sched_core_flip false;;
  upd_global (λ g, g <| core_key := false |>).

Definition sched_core_get : M unit :=
  n ← get (λ s, core_count (k_core s));
  when (n =? 0) __sched_core_enable;;
  upd_global (λ g, g <| core_count ::= λ n, n + 1 |>).

(** The work item. *)
Definition __sched_core_put : M unit :=
  upd_global (λ g, g <| core_count ::= λ n, n - 1 |>);;
  n ← get (λ s, core_count (k_core s));
  when (n =? 0) __sched_core_disable.

(** The result says whether the work item was scheduled. *)
Definition sched_core_put : M bool :=
  n ← get (λ s, core_count (k_core s));
  if n =? 1 then mret true
  else upd_global (λ g, g <| core_count ::= λ n, n - 1 |>);; mret false.
End coresched.
