(* ===== verification/CoreSchedSpec.v ===== *)
(** Core scheduling: the tree of tasks with a cookie stays ordered by cookie and is
    searched correctly, the tasks selected for the threads of a core have matching
    cookies, a core always has one leader, and the switch is on exactly while somebody
    uses it. *)
From S2P Require Import Prelude Rbtree KState HvfValue HvfClass HvfSmp Policy Uclamp Core Schedule Load Setsched Wakeup WakeupSpec Affinity Balance CoreSched.

Section tree.
Context {L : RbLib} {TC : TickConfig} {S : SmpLib} {UC : UclampConfig} {E : Ext}
  {OC : OtherClasses} {CL : CpuLib} {AL : AffLib} {SL : SysLib} {UM : UserMem} {HL : HotplugLib}
  {CO : CoreLib} {LL : RbLaws L} {COL : CoreLibLaws CO}.
Implicit Types (s : kstate) (t : task_struct) (r : rq) (p q : tid) (c i cookie : Z).

Definition cookie_of s p : Z := match k_tasks s !! p with Some t => core_cookie t | None => 0 end.
Definition throttled_on s c p : bool :=
  match k_tasks s !! p with Some t => sched_task_is_throttled t c | None => false end.

(** The tree of CPU [c]: its tasks, without repetition, in order of their cookies. *)
Record core_tree_ok s c (tree : rbtree) : Prop := {
  ct_nodup : NoDup (inorder tree);
  ct_sorted : StronglySorted (λ p q, cookie_of s p <= cookie_of s q) (inorder tree);
  ct_task p : p ∈ inorder tree → ∃ t, k_tasks s !! p = Some t ∧ cpu t = c ∧ core_enqueued t = true ∧ core_cookie t ≠ 0;
  ct_all p t : k_tasks s !! p = Some t → cpu t = c → core_enqueued t = true → p ∈ inorder tree;
}.

Lemma filter_none {A} (P : A → Prop) `{!∀ x, Decision (P x)} (l : list A) :
  Forall (λ x, ¬ P x) l → filter P l = [].
Proof. induction 1; [done|]. by rewrite filter_cons, decide_False. Qed.

(** What the search looks for. *)
Definition eligible s c cookie p : Prop := cookie_of s p = cookie ∧ throttled_on s c p = false.
#[local] Instance eligible_dec s c cookie p : Decision (eligible s c cookie p).
Proof. apply _. Defined.

Lemma sched_core_next_loop_spec s c tree cookie l1 p l2 fuel :
  core_tree_ok s c tree → inorder tree = l1 ++ p :: l2 → cookie_of s p = cookie → (length l2 < fuel)%nat →
  sched_core_next_loop fuel tree c p cookie s = Ok (head (filter (eligible s c cookie) l2), s).
Proof.
  intros Hok. revert l1 p l2. induction fuel as [|fuel IH]; intros l1 p l2 Hl Hp Hlt; [lia|].
  pose proof (ct_nodup _ _ _ Hok) as Hnd. pose proof (ct_sorted _ _ _ Hok) as Hs. rewrite Hl in Hnd, Hs.
  cbn [sched_core_next_loop]. rewrite rb_next_inorder by (rewrite Hl; set_solver || done).
  apply NoDup_app in Hnd as (_&Hnin&Hnd). apply NoDup_cons in Hnd as [Hp2 Hnd2]. rewrite Hl, next_of_app by set_solver.
  destruct l2 as [|p2 l2]; cbn [head]; [done|].
  destruct (ct_task _ _ _ Hok p2) as (t2&Ht2&_); [rewrite Hl; set_solver|].
  apply StronglySorted_app in Hs as (_&_&[Hle Hs2]%StronglySorted_cons).
  unfold mbind, M_bind, task. rewrite Ht2.
  assert (cookie_of s p2 = core_cookie t2) as Hc2 by (unfold cookie_of; by rewrite Ht2).
  assert (throttled_on s c p2 = sched_task_is_throttled t2 c) as Hth by (unfold throttled_on; by rewrite Ht2).
  rewrite filter_cons. destruct (Z.eqb_spec (core_cookie t2) cookie) as [Heq|Hne]; cbn [negb].
  - destruct (sched_task_is_throttled t2 c).
    + rewrite decide_False by (intros [_ ?]; congruence).
      apply (IH (l1 ++ [p])); [by rewrite <-app_assoc|congruence|cbn in Hlt; lia].
    + rewrite decide_True by (split; congruence). done.
  - rewrite decide_False by (intros [? _]; congruence).
    replace (filter (eligible s c cookie) l2) with ([] : list nat); [done|]. symmetry. apply filter_none.
    apply StronglySorted_cons in Hs2 as [Hle2 _]. rewrite Forall_forall in Hle, Hle2 |- *. intros q Hq [Hcq _].
    specialize (Hle p2 ltac:(set_solver)). specialize (Hle2 q Hq). cbn in *. lia.
Qed.

Lemma head_filter {A} (P : A → Prop) `{!∀ x, Decision (P x)} (l : list A) x :
  head (filter P l) = Some x → ∃ l1 l2, l = l1 ++ x :: l2 ∧ Forall (λ y, ¬ P y) l1 ∧ P x.
Proof.
  induction l as [|y l IH]; [done|]. rewrite filter_cons. case_decide as Hy; cbn.
  - intros [= ->]. by exists [], l.
  - intros Hx. destruct (IH Hx) as (l1&l2&->&Hl1&Hp). exists (y :: l1), l2. by split_and!; [|constructor|].
Qed.
Lemma filter_after {A} (P : A → Prop) `{!∀ x, Decision (P x)} (l1 l2 : list A) :
  Forall (λ y, ¬ P y) l1 → filter P (l1 ++ l2) = filter P l2.
Proof. intros Hl. by rewrite filter_app, filter_none. Qed.

Lemma core_find_result s c r cookie :
  k_rqs s !! c = Some r → core_tree_ok s c (core_tree (core_data r)) →
  sched_core_find c cookie s = Ok (head (filter (eligible s c cookie) (inorder (core_tree (core_data r)))), s).
Proof.
  intros Hr Hok. set (tree := core_tree (core_data r)) in *. set (l := inorder tree).
  assert (∀ p, p ∈ l → rb_sched_core_cmp s cookie p = 0 ↔ cookie_of s p = cookie) as Hcmp.
  { intros p Hp. destruct (ct_task _ _ _ Hok p Hp) as (t&Ht&_). unfold rb_sched_core_cmp. fold (cookie_of s p).
    repeat case_match; lia. }
  unfold sched_core_find, mbind, M_bind, cpu_rq, get. rewrite Hr. fold tree.
  rewrite rb_find_first_inorder; cycle 1.
  { pose proof (ct_sorted _ _ _ Hok) as Hs. fold l in Hs |- *. clear -Hs.
    induction Hs as [|p l Hs IH Hall]; constructor; [done|]. eapply Forall_impl; [exact Hall|]. cbn. intros q.
    unfold rb_sched_core_cmp. fold (cookie_of s p) (cookie_of s q). repeat case_match; lia. }
  fold l. destruct (head _) as [p|] eqn:Hh.
  - apply head_filter in Hh as (l1&l2&Hl&Hl1&Hp). apply Hcmp in Hp; [|rewrite Hl; set_solver].
    assert (Forall (λ q, ¬ eligible s c cookie q) l1) as Hn1.
    { rewrite Forall_forall in Hl1 |- *. intros q Hq [Hc _]. apply (Hl1 q Hq), Hcmp; [rewrite Hl; set_solver|done]. }
    destruct (ct_task _ _ _ Hok p) as (t&Ht&Hcpu&_); [fold l; rewrite Hl; set_solver|].
    unfold task. rewrite Ht, Hl, filter_after, filter_cons by done.
    assert (throttled_on s c p = sched_task_is_throttled t c) as Hth by (unfold throttled_on; by rewrite Ht).
    destruct (sched_task_is_throttled t c); cbn [negb].
    + rewrite decide_False by (intros [_ ?]; congruence). unfold sched_core_next, mbind, M_bind, task, cpu_rq.
      rewrite Ht, Hcpu, Hr. fold tree. eapply sched_core_next_loop_spec; [done|exact Hl|done|].
      fold l. rewrite Hl, length_app. cbn. lia.
    + by rewrite decide_True by done.
  - rewrite filter_none; [done|]. apply Forall_forall. intros p Hp [Hc _].
    assert (p ∈ filter (λ e, rb_sched_core_cmp s cookie e = 0) l) as Hf by (apply list_elem_of_filter; rewrite Hcmp; auto).
    destruct (filter _ l); [set_solver|done].
Qed.

(** [sched_core_find] returns the first task of the tree that has the cookie and is not
    throttled, and changes nothing; its loop ends. *)
Theorem sched_core_find_spec s c r cookie :
  k_rqs s !! c = Some r → core_tree_ok s c (core_tree (core_data r)) →
  sched_core_find c cookie s = Ok (head (filter (eligible s c cookie) (inorder (core_tree (core_data r)))), s).
Proof. apply core_find_result. Qed.

(** The result has the cookie and belongs to the CPU. *)
Lemma wp_sched_core_find s c r cookie Q :
  k_rqs s !! c = Some r → core_tree_ok s c (core_tree (core_data r)) →
  (∀ res, (∀ p, res = Some p → ∃ t, k_tasks s !! p = Some t ∧ cpu t = c ∧ core_cookie t = cookie) → Q res s) →
  wp (sched_core_find c cookie) s Q.
Proof.
  intros Hr Hok HQ. eapply wp_ok; [by eapply core_find_result|]. apply HQ. intros p Hp.
  apply head_filter in Hp as (l1&l2&Hl&_&[Hc _]). destruct (ct_task _ _ _ Hok p) as (t&Ht&Hcpu&_); [rewrite Hl; set_solver|].
  exists t. split_and!; [done..|]. unfold cookie_of in Hc. by rewrite Ht in Hc.
Qed.

(** ** Enqueue and dequeue *)

Lemma core_less_cookie fi ta tb :
  (__sched_core_less fi ta tb = true → core_cookie ta <= core_cookie tb) ∧
  (__sched_core_less fi ta tb = false → core_cookie tb <= core_cookie ta).
Proof. unfold __sched_core_less. split; repeat case_match; intros; lia || done. Qed.

(** Linking a task keeps the order. *)
Lemma rb_add_sorted s fi tree p t :
  StronglySorted (λ p q, cookie_of s p <= cookie_of s q) (inorder tree) → k_tasks s !! p = Some t →
  (∀ q, q ∈ inorder tree → is_Some (k_tasks s !! q)) →
  StronglySorted (λ p q, cookie_of s p <= cookie_of s q) (inorder (rb_add (rb_sched_core_less s fi) p tree)) ∧
  inorder (rb_add (rb_sched_core_less s fi) p tree) ≡ₚ p :: inorder tree.
Proof.
  intros Hs Ht Hall. destruct (rb_add_inorder (rb_sched_core_less s fi) p tree) as (l1&l2&Hl&->&Hp&Hn).
  rewrite Hl in *. split; [|by rewrite Permutation_middle].
  apply StronglySorted_app in Hs as (H12&Hs1&Hs2).
  assert (∀ x, x ∈ l1 → cookie_of s x <= cookie_of s p) as Hle1.
  { intros x Hx. destruct l1 as [|y l1' _] using rev_ind; [set_solver|]. rewrite last_snoc in Hp. specialize (Hp y eq_refl).
    destruct (Hall y) as [ty Hty]; [set_solver|]. unfold rb_sched_core_less in Hp. rewrite Ht, Hty in Hp.
    apply core_less_cookie in Hp. assert (cookie_of s y <= cookie_of s p) by (unfold cookie_of; by rewrite Ht, Hty).
    apply elem_of_app in Hx as [Hx|Hx%list_elem_of_singleton]; [|by subst].
    apply StronglySorted_app in Hs1 as (Hxy&_&_). specialize (Hxy x y Hx ltac:(set_solver)). cbn in Hxy. lia. }
  assert (∀ x, x ∈ l2 → cookie_of s p <= cookie_of s x) as Hle2.
  { intros x Hx. destruct l2 as [|y l2]; [set_solver|]. specialize (Hn y eq_refl). destruct (Hall y) as [ty Hty]; [set_solver|].
    unfold rb_sched_core_less in Hn. rewrite Ht, Hty in Hn. apply core_less_cookie in Hn.
    assert (cookie_of s p <= cookie_of s y) by (unfold cookie_of; by rewrite Ht, Hty).
    apply elem_of_cons in Hx as [->|Hx]; [done|]. apply StronglySorted_cons in Hs2 as [Hy _].
    rewrite Forall_forall in Hy. specialize (Hy x Hx). cbn in Hy. lia. }
  apply StronglySorted_app. split_and!; [|done|].
  - intros x y Hx [->|Hy]%elem_of_cons; [auto|]. by apply H12.
  - constructor; [done|]. apply Forall_forall. auto.
Qed.

(** ** What selection keeps *)

Definition view_task s p : option (Z * Z * bool) := (λ t, (cpu t, core_cookie t, core_enqueued t)) <$> k_tasks s !! p.
Definition view_rq s c : option (tid * tid * rbtree * Z) :=
  (λ r, (idle r, curr r, core_tree (core_data r), core (core_data r))) <$> k_rqs s !! c.
Definition resched_set s p : bool := match k_tasks s !! p with Some t => need_resched t | None => false end.
Definition core_at s c : option core_rq := core_data <$> k_rqs s !! c.
Definition pick_at s c : option tid := k ← core_at s c; core_pick k.

Record core_frame s s' : Prop := {
  cf_tasks p : view_task s' p = view_task s p;
  cf_rqs c : view_rq s' c = view_rq s c;
  cf_resched p : resched_set s p = true → resched_set s' p = true;
}.
#[export] Instance core_frame_preorder : PreOrder core_frame.
Proof.
  split; [by split|]. intros s1 s2 s3 [A1 A2 A3] [B1 B2 B3]. split; intros; [by rewrite B1|by rewrite B2|auto].
Qed.

Lemma core_frame_task s s' p t :
  core_frame s s' → k_tasks s !! p = Some t →
  ∃ t', k_tasks s' !! p = Some t' ∧ cpu t' = cpu t ∧ core_cookie t' = core_cookie t ∧ core_enqueued t' = core_enqueued t.
Proof.
  intros [Hf _ _] Ht. specialize (Hf p). unfold view_task in Hf. rewrite Ht in Hf.
  destruct (k_tasks s' !! p) as [t'|]; [|done]. cbn in Hf. injection Hf as ? ? ?. by exists t'.
Qed.
Lemma core_frame_rq s s' c r :
  core_frame s s' → k_rqs s !! c = Some r →
  ∃ r', k_rqs s' !! c = Some r' ∧ idle r' = idle r ∧ curr r' = curr r ∧
    core_tree (core_data r') = core_tree (core_data r) ∧ core (core_data r') = core (core_data r).
Proof.
  intros [_ Hf _] Hr. specialize (Hf c). unfold view_rq in Hf. rewrite Hr in Hf.
  destruct (k_rqs s' !! c) as [r'|]; [|done]. cbn in Hf. injection Hf as ? ? ? ?. by exists r'.
Qed.

Lemma tree_ok_ext s s' c tree : (∀ p, view_task s' p = view_task s p) → core_tree_ok s c tree → core_tree_ok s' c tree.
Proof.
  intros Hv [Hnd Hs Ht Ha]. assert (∀ p, cookie_of s' p = cookie_of s p) as Hc.
  { intros p. specialize (Hv p). unfold view_task, cookie_of in *. destruct (k_tasks s !! p), (k_tasks s' !! p); cbn in Hv; congruence. }
  split; [done| |..].
  - clear -Hs Hc. induction Hs as [|p l Hs IH Hall]; constructor; [done|]. eapply Forall_impl; [exact Hall|].
    intros q. by rewrite !Hc.
  - intros p Hp. destruct (Ht p Hp) as (t&Htp&?&?&?). specialize (Hv p). unfold view_task in Hv. rewrite Htp in Hv.
    destruct (k_tasks s' !! p) as [t'|]; [|done]. cbn in Hv. injection Hv as ? ? ?. exists t'. split_and!; congruence.
  - intros p t' Ht' Hcpu Hen. specialize (Hv p). unfold view_task in Hv. rewrite Ht' in Hv.
    destruct (k_tasks s !! p) as [t|] eqn:Htp; [|done]. cbn in Hv. injection Hv as ? ? ?. eapply Ha; [done|congruence..].
Qed.

Lemma wp_upd_core s c r f Q :
  k_rqs s !! c = Some r → Q tt (s <| k_rqs := <[c := r <| core_data ::= f |>]> (k_rqs s) |>) → wp (upd_core c f) s Q.
Proof. intros Hr HQ. by eapply wp_upd_rq. Qed.

(** An update of fields outside the frame. *)
Lemma core_frame_upd s c r f :
  k_rqs s !! c = Some r → core_tree (f (core_data r)) = core_tree (core_data r) → core (f (core_data r)) = core (core_data r) →
  core_frame s (s <| k_rqs := <[c := r <| core_data ::= f |>]> (k_rqs s) |>).
Proof.
  intros Hr Ht Hc. split; [done| |done]. intros c'. unfold view_rq. cbn. destruct (decide (c' = c)) as [->|].
  - rewrite lookup_insert_eq, Hr. cbn. by rewrite Ht, Hc.
  - by rewrite lookup_insert_ne.
Qed.
Lemma core_at_upd s c r f c' :
  k_rqs s !! c = Some r →
  core_at (s <| k_rqs := <[c := r <| core_data ::= f |>]> (k_rqs s) |>) c' =
  if decide (c' = c) then Some (f (core_data r)) else core_at s c'.
Proof.
  intros Hr. unfold core_at. cbn. case_decide as Hc; [subst; by rewrite lookup_insert_eq|by rewrite lookup_insert_ne].
Qed.

(** The leader of the core of [c] is [l]. *)
Definition led_by s c l : Prop := (∃ r, k_rqs s !! c = Some r ∧ core (core_data r) = l) ∧ is_Some (k_rqs s !! l).
Lemma led_by_frame s s' c l : core_frame s s' → led_by s c l → led_by s' c l.
Proof.
  intros Hf [(r&Hr&Hl) [rl Hrl]]. destruct (core_frame_rq _ _ _ _ Hf Hr) as (r'&Hr'&_&_&_&Hc).
  destruct (core_frame_rq _ _ _ _ Hf Hrl) as (rl'&Hrl'&_). split; [exists r'; split; [done|congruence]|eauto].
Qed.
Lemma wp_core_of s c l Q : led_by s c l → Q l s → wp (core_of c) s Q.
Proof. intros [(r&Hr&<-) _] HQ. unfold core_of. apply wp_bind. eapply wp_rq; [done|]. by apply wp_ret. Qed.
Lemma wp_core_leader s c l Q :
  led_by s c l → (∀ k, core_at s l = Some k → Q k s) → wp (core_leader c) s Q.
Proof.
  intros Hl HQ. unfold core_leader. apply wp_bind. eapply wp_core_of; [done|]. destruct Hl as [_ [rl Hrl]].
  apply wp_bind. eapply wp_rq; [done|]. apply wp_ret, HQ. unfold core_at. by rewrite Hrl.
Qed.
Lemma wp_upd_leader s c l f Q :
  led_by s c l → (∀ k, core_tree (f k) = core_tree k ∧ core (f k) = core k) →
  (∀ s' k, core_frame s s' → k_tasks s' = k_tasks s → core_at s l = Some k →
     (∀ c', core_at s' c' = if decide (c' = l) then Some (f k) else core_at s c') → Q tt s') →
  wp (upd_leader c f) s Q.
Proof.
  intros Hl Hf HQ. unfold upd_leader. apply wp_bind. eapply wp_core_of; [done|]. destruct Hl as [_ [rl Hrl]].
  eapply wp_upd_core; [done|]. apply (HQ _ (core_data rl)); [by apply core_frame_upd; [|apply Hf..]|done| |].
  - unfold core_at. by rewrite Hrl.
  - intros c'. by apply core_at_upd.
Qed.

(** ** Enqueue and dequeue *)

Definition trees_ok s : Prop := ∀ c r, k_rqs s !! c = Some r → core_tree_ok s c (core_tree (core_data r)).

(** The pick of the core was made for an older set of tasks. *)
Definition seq_bumped s s' l : Prop := ∀ k, core_at s l = Some k →
  ∃ k', core_at s' l = Some k' ∧ core_task_seq k' = u32 (core_task_seq k + 1) ∧ core_pick_seq k' = core_pick_seq k.

Lemma trees_ok_frame s s' : core_frame s s' → trees_ok s → trees_ok s'.
Proof.
  intros Hf Hok c r' Hr'. pose proof (cf_rqs _ _ Hf c) as Hv. unfold view_rq in Hv. rewrite Hr' in Hv.
  destruct (k_rqs s !! c) as [r|] eqn:Hr; [|done]. cbn in Hv. injection Hv as _ _ -> _.
  apply (tree_ok_ext s); [apply Hf|by apply Hok].
Qed.

(** The tree of [c] and the mark of [p] change together. *)
Lemma trees_ok_change s c p r t tree b :
  trees_ok s → k_tasks s !! p = Some t → cpu t = c → k_rqs s !! c = Some r →
  NoDup (inorder tree) → StronglySorted (λ p q, cookie_of s p <= cookie_of s q) (inorder tree) →
  (∀ q, q ∈ inorder tree ↔ if decide (q = p) then b = true else q ∈ inorder (core_tree (core_data r))) →
  (b = true → core_cookie t ≠ 0) →
  trees_ok (s <| k_rqs := <[c := r <| core_data ::= λ k, k <| core_tree := tree |> |>]> (k_rqs s) |>
              <| k_tasks := <[p := t <| core_enqueued := b |>]> (k_tasks s) |>).
Proof.
  intros Hok Ht Hc Hr Hnd Hs Hin Hb. set (s' := s <| k_rqs := _ |> <| k_tasks := _ |>).
  assert (∀ q, cookie_of s' q = cookie_of s q) as Hck.
  { intros q. unfold cookie_of. cbn. destruct (decide (q = p)) as [->|]; [by rewrite lookup_insert_eq, Ht|by rewrite lookup_insert_ne]. }
  assert (∀ l, StronglySorted (λ p q, cookie_of s p <= cookie_of s q) l →
    StronglySorted (λ p q, cookie_of s' p <= cookie_of s' q) l) as Hss.
  { intros l Hl. induction Hl as [|x l Hl IH Hall]; constructor; [done|]. eapply Forall_impl; [exact Hall|].
    intros y. by rewrite !Hck. }
  assert (∀ c' r' q tq, k_rqs s !! c' = Some r' → k_tasks s !! q = Some tq → q ≠ p → cpu tq = c' → core_enqueued tq = true →
    q ∈ inorder (core_tree (core_data r'))) as Hall.
  { intros c' r' q tq Hr' ? _ ? ?. by eapply (ct_all _ _ _ (Hok c' r' Hr')). }
  intros c' r' Hr'. cbn in Hr'. apply lookup_insert_Some in Hr' as [[<- <-]|[Hne Hr']]; cbn.
  - split; [done|by apply Hss| |].
    + intros q Hq. apply Hin in Hq. case_decide as Hqp.
      * subst q b. eexists. cbn. rewrite lookup_insert_eq. split_and!; [done|done|done|by apply Hb].
      * cbn. rewrite lookup_insert_ne by done. by apply (Hok c r Hr).
    + intros q tq Hq Hcq Heq. cbn in Hq. apply Hin. apply lookup_insert_Some in Hq as [[<- <-]|[? Hq]].
      * by rewrite decide_True.
      * rewrite decide_False by done. by eapply (Hall c).
  - destruct (Hok c' r' Hr') as [Hnd' Hs' Ht' Ha']. split; [done|by apply Hss| |].
    + intros q Hq. cbn. rewrite lookup_insert_ne; [by apply Ht'|]. intros ->. destruct (Ht' q Hq) as (tq&?&?&_). congruence.
    + intros q tq Hq Hcq Heq. cbn in Hq. apply lookup_insert_Some in Hq as [[<- <-]|[? Hq]]; [cbn in Hcq; congruence|by eapply Ha'].
Qed.

(** A task enters the run queue: the trees stay ordered and complete, and a pick made
    before is no longer used. *)
Theorem sched_core_enqueue_spec s c p t r l :
  trees_ok s → k_tasks s !! p = Some t → cpu t = c → sched_delayed t = false → core_enqueued t = false →
  k_rqs s !! c = Some r → led_by s c l →
  wp (sched_core_enqueue c p) s (λ _ s', trees_ok s' ∧ seq_bumped s s' l ∧
    ∃ r', k_rqs s' !! c = Some r' ∧ inorder (core_tree (core_data r')) ≡ₚ
      (if core_cookie t =? 0 then [] else [p]) ++ inorder (core_tree (core_data r))).
Proof.
  intros Hok Ht Hc Hdel Hen Hr Hl. unfold sched_core_enqueue. apply wp_bind. eapply wp_task; [done|]. rewrite Hdel.
  apply wp_bind. eapply wp_upd_leader; [done|by split|]. intros s1 k Hf1 Htk Hk Hat.
  destruct (core_frame_rq _ _ _ _ Hf1 Hr) as (r1&Hr1&_&_&Htr&Hco).
  assert (∀ s2, (∀ k', core_at s1 l = Some k' → ∃ k2, core_at s2 l = Some k2 ∧
    core_task_seq k2 = core_task_seq k' ∧ core_pick_seq k2 = core_pick_seq k') → seq_bumped s s2 l) as Hseq.
  { intros s2 Hs2 k0 Hk0. rewrite Hk in Hk0. injection Hk0 as <-. rewrite Hat, decide_True in Hs2 by done.
    destruct (Hs2 _ eq_refl) as (k2&?&?&?). by exists k2. }
  destruct (Z.eqb_spec (core_cookie t) 0) as [Hz|Hz].
  { apply wp_skip. split_and!; [by eapply trees_ok_frame|apply Hseq; eauto|]. exists r1. split; [done|]. by rewrite Htr. }
  rewrite Hc. apply wp_bind. eapply wp_core_leader; [by eapply led_by_frame|]. intros k1 _. apply wp_bind, wp_get, wp_bind.
  assert (trees_ok s1) as Hok1 by by eapply trees_ok_frame. rewrite <-Htk in Ht.
  eapply wp_upd_core; [done|]. eapply wp_upd_task; [done|]. set (fi := negb _).
  pose proof (Hok1 c r1 Hr1) as [Hnd1 Hs1 Ht1 Ha1].
  destruct (rb_add_sorted s1 fi (core_tree (core_data r1)) p t Hs1 Ht) as [Hs2 Hperm].
  { intros q Hq. destruct (Ht1 q Hq) as (?&?&_). eauto. }
  assert (p ∉ inorder (core_tree (core_data r1))) as Hnin.
  { intros Hp. destruct (Ht1 p Hp) as (?&?&_&?&_). congruence. }
  split_and!.
  - eapply (trees_ok_change s1 c p r1 t _ true); try done.
    + rewrite Hperm. by constructor.
    + intros q. rewrite Hperm, elem_of_cons. case_decide; naive_solver.
  - apply Hseq. intros k' Hk'. unfold core_at in *. cbn. destruct (decide (c = l)) as [<-|].
    + rewrite Hr1 in Hk'. injection Hk' as <-. rewrite lookup_insert_eq. eexists. by split_and!.
    + rewrite lookup_insert_ne by done. eauto.
  - eexists. split; [apply lookup_insert_eq|]. cbn. rewrite <-Htr. exact Hperm.
Qed.

Lemma rescheduled_frame s s' q t : k_tasks s !! q = Some t → rescheduled s s' q t → core_frame s s' ∧ k_rqs s' = k_rqs s.
Proof.
  intros Ht [l ->]. split; [|done]. split; [|done|].
  - intros p. unfold view_task. cbn. destruct (decide (p = q)) as [->|]; [by rewrite lookup_insert_eq, Ht|by rewrite lookup_insert_ne].
  - intros p. unfold resched_set. cbn. destruct (decide (p = q)) as [->|]; [by rewrite lookup_insert_eq|by rewrite lookup_insert_ne].
Qed.

(** A task leaves the run queue. *)
Theorem sched_core_dequeue_spec s c p t r l flags :
  trees_ok s → currs_alive s → k_tasks s !! p = Some t → cpu t = c → sched_delayed t = false →
  k_rqs s !! c = Some r → led_by s c l →
  wp (sched_core_dequeue c p flags) s (λ _ s', trees_ok s' ∧ seq_bumped s s' l ∧
    ∃ r', k_rqs s' !! c = Some r' ∧ inorder (core_tree (core_data r')) = remove_elem p (inorder (core_tree (core_data r)))).
Proof.
  intros Hok Ha Ht Hc Hdel Hr Hl. unfold sched_core_dequeue. apply wp_bind. eapply wp_task; [done|]. rewrite Hdel.
  apply wp_bind. eapply wp_upd_leader; [done|by split|]. intros s1 k Hf1 Htk Hk Hat.
  destruct (core_frame_rq _ _ _ _ Hf1 Hr) as (r1&Hr1&_&Hcu1&Htr&Hco).
  assert (trees_ok s1) as Hok1 by by eapply trees_ok_frame. pose proof (Hok1 c r1 Hr1) as [Hnd1 Hs1 Ht1 Ha1].
  rewrite <-Htk in Ht.
  apply wp_bind, (wp_mono _ _ (λ _ s2, trees_ok s2 ∧ seq_bumped s s2 l ∧ led_by s2 c l ∧ (∀ q, is_Some (k_tasks s !! q) → is_Some (k_tasks s2 !! q)) ∧
    ∃ r2, k_rqs s2 !! c = Some r2 ∧ curr r2 = curr r ∧
      inorder (core_tree (core_data r2)) = remove_elem p (inorder (core_tree (core_data r))))).
  { apply wp_when; intros Hen; unfold sched_core_enqueued in Hen.
    - assert (p ∈ inorder (core_tree (core_data r1))) as Hp by by eapply Ha1.
      apply wp_bind. eapply wp_upd_core; [done|]. eapply wp_upd_task; [done|].
      assert (inorder (rb_erase p (core_tree (core_data r1))) = remove_elem p (inorder (core_tree (core_data r1)))) as Her
        by by apply rb_erase_inorder.
      split_and!.
      + eapply (trees_ok_change s1 c p r1 t _ false); try done.
        * rewrite Her. by apply remove_elem_NoDup.
        * rewrite Her. by apply (remove_elem_sorted (cookie_of s1)).
        * intros q. rewrite Her, elem_of_remove. case_decide; naive_solver.
      + intros k0 Hk0. rewrite Hk in Hk0. injection Hk0 as <-. specialize (Hat l). rewrite decide_True in Hat by done.
        unfold core_at in *. cbn. destruct (decide (c = l)) as [<-|].
        * rewrite lookup_insert_eq. rewrite Hr1 in Hat. injection Hat as Hat. eexists. split; [done|]. cbn. by rewrite Hat.
        * rewrite lookup_insert_ne by done. eexists. split; [done|]. by split.
      + pose proof (led_by_frame _ _ _ _ Hf1 Hl) as [(r0&Hr0&Hl0) Hrl]. simplify_eq. split; cbn.
        * rewrite lookup_insert_eq. eexists. by split.
        * rewrite lookup_insert_is_Some'. auto.
      + intros q Hq. cbn. rewrite lookup_insert_is_Some', Htk. auto.
      + eexists. cbn. rewrite lookup_insert_eq. split; [done|]. cbn. rewrite Her, Htr. auto.
    - split_and!; [done| |by eapply led_by_frame|by rewrite Htk|].
      + intros k0 Hk0. rewrite Hk in Hk0. injection Hk0 as <-. rewrite Hat, decide_True by done. eexists. by split.
      + exists r1. split_and!; [done..|]. rewrite Htr, remove_elem_notin; [done|]. rewrite <-Htr. intros Hp.
        destruct (Ht1 p Hp) as (?&?&_&?&_). congruence. }
  intros [] s2 (Hok2&Hsq2&Hl2&Hdom&r2&Hr2&Hcu2&Hin2). apply wp_bind. eapply wp_rq; [done|]. apply wp_bind.
  eapply wp_core_leader; [done|]. intros k2 _. apply wp_when; intros _; [|eauto 10].
  destruct (Hdom (curr r2)) as [td Htd]; [rewrite Hcu2; by eapply Ha|]. eapply wp_resched_curr; [done..|]. intros s3 Hre.
  destruct (rescheduled_frame _ _ _ _ Htd Hre) as [Hf3 Hrq3]. split_and!; [by eapply trees_ok_frame| |].
  - intros k0 Hk0. unfold core_at. rewrite Hrq3. by apply Hsq2.
  - exists r2. by rewrite Hrq3.
Qed.
End tree.
