(* ===== verification/CoreSelect.v ===== *)
(** The selection of core scheduling: the tasks chosen for the hardware threads of a core
    have one cookie, or are idle. *)
From S2P Require Import Prelude Rbtree KState HvfValue HvfClass HvfInv HvfOps HvfSpec HvfSmp Policy Uclamp Core Schedule Load Setsched Wakeup WakeupSpec Affinity Balance CoreSched CoreSchedSpec.

Section select.
Context {L : RbLib} {TC : TickConfig} {S : SmpLib} {UC : UclampConfig} {E : Ext}
  {OC : OtherClasses} {CL : CpuLib} {AL : AffLib} {SL : SysLib} {UM : UserMem} {HL : HotplugLib}
  {CO : CoreLib} {LL : RbLaws L} {COL : CoreLibLaws CO}.
Implicit Types (s : kstate) (t : task_struct) (r : rq) (p q : tid) (c i l cookie : Z).

(** * The contract of the classes *)

Definition core_quiet s s' : Prop := core_frame s s' ∧ ∀ c, core_at s' c = core_at s c.

Lemma core_quiet_trans s1 s2 s3 : core_quiet s1 s2 → core_quiet s2 s3 → core_quiet s1 s3.
Proof. intros [F1 A1] [F2 A2]. split; [by etrans|]. intros c. by rewrite A2. Qed.

(** The selection leaves the number of the set of tasks alone, and the numbers of the
    selections the CPUs have scheduled. *)
Definition seq_at s i : option (Z * Z) := (λ k, (core_task_seq k, core_sched_seq k)) <$> core_at s i.
Record select_frame s s' : Prop := {
  slf_core :> core_frame s s';
  slf_seq i : seq_at s' i = seq_at s i;
}.
#[local] Instance select_frame_preorder : PreOrder select_frame.
Proof. split; [by split|]. intros s1 s2 s3 [A1 A2] [B1 B2]. split; [by etrans|]. intros i. by rewrite B2. Qed.
Lemma select_frame_upd s c r f :
  k_rqs s !! c = Some r → core_tree (f (core_data r)) = core_tree (core_data r) → core (f (core_data r)) = core (core_data r) →
  core_task_seq (f (core_data r)) = core_task_seq (core_data r) → core_sched_seq (f (core_data r)) = core_sched_seq (core_data r) →
  select_frame s (s <| k_rqs := <[c := r <| core_data ::= f |>]> (k_rqs s) |>).
Proof.
  intros Hr Ht Hc Hs1 Hs2. split; [by apply core_frame_upd|]. intros i. unfold seq_at. rewrite core_at_upd by done.
  case_decide as Hi; [|done]. subst i. unfold core_at. rewrite Hr. cbn. by rewrite Hs1, Hs2.
Qed.
Lemma quiet_select s s' : core_quiet s s' → select_frame s s'.
Proof. intros [F A]. split; [done|]. intros i. unfold seq_at. by rewrite A. Qed.

(** A class picks a task of the CPU and leaves the data of core scheduling alone, in
    states that satisfy the invariant [J] of the classes; the idle class picks the idle
    task.  [J] is not about the data of core scheduling. *)
Record picks_ok (J : kstate → Prop) : Prop := {
  pk_class cl : cl ∈ for_each_active_class → ∃ f, op_pick_task (class_ops cl) = Some f ∧
    ∀ i s, J s → is_Some (k_rqs s !! i) → wp (f i) s (λ res s', J s' ∧ core_quiet s s' ∧
      ∀ q, res = Some q → ∃ t, k_tasks s' !! q = Some t ∧ cpu t = i);
  pk_idle_active : idle_sched_class ∈ for_each_active_class;
  pk_idle : ∃ f, op_pick_task (class_ops idle_sched_class) = Some f ∧
    ∀ i s r, k_rqs s !! i = Some r → f i s = Ok (Some (idle r), s);
  pk_core s c r f : J s → k_rqs s !! c = Some r → J (s <| k_rqs := <[c := r <| core_data ::= f |>]> (k_rqs s) |>);
  pk_dl s c r : J s → k_rqs s !! c = Some r → J (s <| k_rqs := <[c := r <| rq_dl_server := None |>]> (k_rqs s) |>);
}.
Definition vruntime_quiet : Prop := ∀ i p b s,
  is_Some (k_tasks s !! p) → is_Some (k_rqs s !! i) → wp (task_vruntime_update i p b) s (λ _ s', core_quiet s s').

Context (J : kstate → Prop) (HJ : picks_ok J).

Lemma wp_pick_classes s i classes Q :
  J s → is_Some (k_rqs s !! i) → (∀ cl, cl ∈ classes → cl ∈ for_each_active_class) → idle_sched_class ∈ classes →
  (∀ p s' t, J s' → core_quiet s s' → k_tasks s' !! p = Some t → cpu t = i → Q p s') →
  wp (pick_task_classes i classes) s Q.
Proof.
  revert s Q. induction classes as [|cl classes IH]; intros s Q Hj Hr Hact Hidle HQ; [set_solver|]. cbn.
  destruct (pk_class _ HJ cl) as (f&Hf&Hpk); [set_solver|]. rewrite Hf. apply wp_bind, wp_call_null, wp_bind.
  destruct (decide (cl = idle_sched_class)) as [->|Hne].
  - destruct (pk_idle _ HJ) as (f'&Hf'&Hid). rewrite Hf in Hf'. injection Hf' as <-. destruct Hr as [r Hr].
    specialize (Hpk i s Hj (ex_intro _ r Hr)). unfold wp in *. rewrite (Hid i s r Hr) in *.
    destruct Hpk as (?&?&Hp). destruct (Hp _ eq_refl) as (t&?&?). by eapply HQ.
  - eapply wp_mono; [by apply Hpk|]. intros [q|] s1 (Hj1&Hq1&Hp).
    + apply wp_ret. destruct (Hp q eq_refl) as (t&?&?). by eapply HQ.
    + apply IH; [done| |set_solver|set_solver|].
      * destruct Hr as [r Hr]. destruct (core_frame_rq _ _ _ _ (proj1 Hq1) Hr) as (r'&?&_). eauto.
      * intros p s2 t Hj2 Hq2. apply HQ; [done|]. by eapply core_quiet_trans.
Qed.

Lemma wp_pick_task s i Q :
  J s → is_Some (k_rqs s !! i) →
  (∀ p s' t, J s' → core_quiet s s' → k_tasks s' !! p = Some t → cpu t = i → Q p s') →
  wp (pick_task i) s Q.
Proof.
  intros Hj [r Hr] HQ. unfold pick_task. apply wp_bind. eapply wp_upd_rq; [done|].
  set (s1 := s <| k_rqs := _ |>). assert (core_quiet s s1) as Hq1.
  { split; [split; [done| |done]|]; intros c; unfold view_rq, core_at; cbn;
      (destruct (decide (c = i)) as [->|]; [by rewrite lookup_insert_eq, Hr|by rewrite lookup_insert_ne]). }
  apply wp_pick_classes; [by apply pk_dl|cbn; rewrite lookup_insert_eq; eauto|done|apply HJ|].
  intros p s2 t Hj2 Hq2. apply HQ; [done|by eapply core_quiet_trans].
Qed.

(** * The first loop *)

Definition picked s i : Prop := ∃ p t, pick_at s i = Some p ∧ k_tasks s !! p = Some t ∧ cpu t = i.

Lemma picked_frame s s' i : core_frame s s' → pick_at s' i = pick_at s i → picked s i → picked s' i.
Proof.
  intros Hf Hp (p&t&Hpk&Ht&Hc). destruct (core_frame_task _ _ _ _ Hf Ht) as (t'&Ht'&Hc'&_). exists p, t'.
  split_and!; [congruence|done|congruence].
Qed.
Lemma quiet_pick s s' i : core_quiet s s' → pick_at s' i = pick_at s i.
Proof. intros [_ H]. unfold pick_at. by rewrite H. Qed.
Lemma pick_at_upd s c r f i :
  k_rqs s !! c = Some r →
  pick_at (s <| k_rqs := <[c := r <| core_data ::= f |>]> (k_rqs s) |>) i =
  if decide (i = c) then core_pick (f (core_data r)) else pick_at s i.
Proof. intros Hr. unfold pick_at. rewrite core_at_upd by done. by case_decide. Qed.

Lemma wp_core_pick_max cpus fi max s Q :
  J s → NoDup cpus → (∀ i, i ∈ cpus → is_Some (k_rqs s !! i)) → (∀ m, max = Some m → is_Some (k_tasks s !! m)) →
  cpus ≠ [] ∨ max ≠ None →
  (∀ m s', J s' → select_frame s s' → (∀ i, i ∈ cpus → picked s' i) → (∀ i, i ∉ cpus → pick_at s' i = pick_at s i) →
     is_Some (k_tasks s' !! m) → Q (Some m) s') →
  wp (core_pick_max cpus fi max) s Q.
Proof.
  revert max s Q. induction cpus as [|i cpus IH]; intros max s Q Hj Hnd Hrq Hmax Hne HQ; cbn [core_pick_max].
  { apply wp_ret. destruct max as [m|]; [|naive_solver]. apply HQ; [done|done|set_solver|done|by apply Hmax]. }
  apply NoDup_cons in Hnd as [Hi Hnd]. apply wp_bind, wp_pick_task; [done|apply Hrq; set_solver|].
  intros p s1 t Hj1 Hq1 Ht Hc. destruct (Hrq i) as [r Hr]; [set_solver|].
  destruct (core_frame_rq _ _ _ _ (proj1 Hq1) Hr) as (r1&Hr1&_). apply wp_bind. eapply wp_rq; [done|].
  apply wp_bind. eapply wp_upd_core; [done|]. set (s2 := s1 <| k_rqs := _ |>).
  assert (select_frame s1 s2) as Hf2 by by apply select_frame_upd. assert (select_frame s s2) as Hf by (etrans; [by apply quiet_select|done]).
  assert (picked s2 i) as Hpi.
  { exists p, t. split_and!; [|done|done]. unfold s2. by rewrite pick_at_upd, decide_True. }
  assert (J s2) as Hj2 by by eapply pk_core.
  assert (∀ m, (Some m = Some p ∨ max = Some m) → is_Some (k_tasks s2 !! m)) as Hex.
  { intros m [[= ->]|Hm]; [by eexists|]. destruct (Hmax m Hm) as [tm Htm].
    destruct (core_frame_task _ _ _ _ Hf Htm) as (tm'&?&_). eauto. }
  apply wp_bind. eapply wp_task; [done|]. apply wp_bind, (wp_mono _ _ (λ b s', s' = s2 ∧ (max = None → b = true))).
  { destruct max as [m|]; [|done]. destruct (Hex m) as [tm Htm]; [auto|]. apply wp_bind. by eapply wp_task. }
  intros higher ? [-> Hhi]. apply IH; [done|done| | | |].
  - intros j Hj'. destruct (Hrq j) as [rj Hrj]; [set_solver|]. destruct (core_frame_rq _ _ _ _ Hf Hrj) as (?&?&_). eauto.
  - intros m Hm. apply Hex. destruct higher; auto.
  - right. destruct higher; [done|]. intros Hm. by specialize (Hhi Hm).
  - intros m s3 Hj3 Hf3 Hp3 Ho3 Hm3. apply HQ; [done|by etrans| | |done].
    + intros j [->|Hj']%elem_of_cons; [|by apply Hp3]. eapply picked_frame; [exact (slf_core _ _ Hf3)|by apply Ho3|done].
    + intros j Hj'. rewrite Ho3 by set_solver. unfold s2. rewrite pick_at_upd, decide_False by (done || set_solver).
      by apply quiet_pick.
Qed.

(** * The second loop *)

(** The CPUs of the core: they have one leader, idle tasks and running tasks of their
    own, and ordered trees. *)
Record core_setting s (smt : list Z) l : Prop := {
  cs_trees : trees_ok s;
  cs_led i : i ∈ smt → led_by s i l;
  cs_idle i r : i ∈ smt → k_rqs s !! i = Some r → ∃ t, k_tasks s !! idle r = Some t ∧ cpu t = i;
  cs_curr i r : i ∈ smt → k_rqs s !! i = Some r → is_Some (k_tasks s !! curr r);
}.
Lemma core_setting_frame s s' smt l : core_frame s s' → core_setting s smt l → core_setting s' smt l.
Proof.
  intros Hf [Ht Hl Hi Hc]. assert (∀ i r', k_rqs s' !! i = Some r' → ∃ r, k_rqs s !! i = Some r ∧ idle r' = idle r ∧ curr r' = curr r) as Hb.
  { intros i r' Hr'. pose proof (cf_rqs _ _ Hf i) as Hv. unfold view_rq in Hv. rewrite Hr' in Hv.
    destruct (k_rqs s !! i) as [r|]; [|done]. cbn in Hv. injection Hv as ? ? ? ?. by exists r. }
  split; [by eapply trees_ok_frame|intros; by eapply led_by_frame; eauto|..].
  - intros i r' Hin Hr'. destruct (Hb i r' Hr') as (r&Hr&->&_). destruct (Hi i r Hin Hr) as (t&Htk&Hct).
    destruct (core_frame_task _ _ _ _ Hf Htk) as (t'&?&?&_). exists t'. split; [done|congruence].
  - intros i r' Hin Hr'. destruct (Hb i r' Hr') as (r&Hr&_&->). destruct (Hc i r Hin Hr) as [t Htk].
    destruct (core_frame_task _ _ _ _ Hf Htk) as (t'&?&_). eauto.
Qed.

(** [p] may run on CPU [i] of a core with the cookie. *)
Definition fits s i cookie p : Prop := ∃ t r, k_tasks s !! p = Some t ∧ k_rqs s !! i = Some r ∧ cpu t = i ∧
  (p = idle r ∨ core_cookie t = cookie).
Lemma fits_frame s s' i cookie p : core_frame s s' → fits s i cookie p → fits s' i cookie p.
Proof.
  intros Hf (t&r&Ht&Hr&Hc&Hor). destruct (core_frame_task _ _ _ _ Hf Ht) as (t'&Ht'&?&?&_).
  destruct (core_frame_rq _ _ _ _ Hf Hr) as (r'&Hr'&?&_). exists t', r'. split_and!; [done..|congruence|].
  destruct Hor; [left|right]; congruence.
Qed.
Definition pick_fits s i cookie : Prop := ∃ p, pick_at s i = Some p ∧ fits s i cookie p.

(** The choice for one CPU. *)
Lemma wp_match_one {A} s i p cookie smt l (k : tid → M A) Q :
  J s → core_setting s smt l → i ∈ smt → (∃ t, k_tasks s !! p = Some t ∧ cpu t = i) →
  (∀ p', fits s i cookie p' → wp (k p') s Q) →
  wp (same ← cookie_equals p cookie;
      p ← (if same : bool then mret p else
           found ← (if cookie =? 0 then mret None else sched_core_find i cookie);
           match found with
           | Some p => mret p
           | None => f ← call_null (op_pick_task (class_ops idle_sched_class)); q ← f i; deref q
           end);
      k p) s Q.
Proof.
  intros Hj Hs Hi (t&Ht&Hc) HQ. destruct (cs_led _ _ _ Hs i Hi) as [(r&Hr&_) _].
  unfold cookie_equals, is_task_rq_idle. apply wp_bind, wp_bind, wp_bind. eapply wp_task; [done|]. rewrite Hc.
  apply wp_bind. eapply wp_rq; [done|]. apply wp_ret, wp_bind. eapply wp_task; [done|]. apply wp_ret.
  apply wp_bind. destruct (bool_decide (idle r = p) || (core_cookie t =? cookie)) eqn:Hsame.
  { apply wp_ret, HQ. exists t, r. split_and!; [done..|]. apply orb_true_iff in Hsame as [Hb|Hb];
      [apply bool_decide_eq_true in Hb; auto|apply Z.eqb_eq in Hb; auto]. }
  assert (wp (f ← call_null (op_pick_task (class_ops idle_sched_class)); q ← f i; deref q) s (λ p s', wp (k p) s' Q)) as Hidle.
  { destruct (pk_idle _ HJ) as (f&->&Hf). apply wp_bind, wp_call_null, wp_bind. eapply wp_ok; [by apply Hf|].
    apply wp_deref, HQ. destruct (cs_idle _ _ _ Hs i r Hi Hr) as (ti&?&?). exists ti, r. auto. }
  apply wp_bind. destruct (cookie =? 0); [by apply wp_ret|].
  eapply wp_sched_core_find; [done|by apply (cs_trees _ _ _ Hs)|]. intros [q|] Hq; [|done].
  apply wp_ret, HQ. destruct (Hq q eq_refl) as (tq&?&?&?). exists tq, r. auto.
Qed.

(** Nothing but counters of the core changed. *)
Definition cookie_at s i : option Z := rq_core_cookie <$> core_at s i.
Definition steady s s' : Prop :=
  J s' ∧ select_frame s s' ∧ (∀ j, pick_at s' j = pick_at s j) ∧ (∀ j, cookie_at s' j = cookie_at s j).
Lemma steady_trans s1 s2 s3 : steady s1 s2 → steady s2 s3 → steady s1 s3.
Proof. intros (_&F1&P1&C1) (J2&F2&P2&C2). split_and!; [done|by etrans|..]; intros j; by rewrite ?P2, ?C2. Qed.

Lemma wp_leader_steady s c smt l f :
  J s → core_setting s smt l → c ∈ smt → (∀ x, core_tree (f x) = core_tree x ∧ core (f x) = core x) →
  (∀ x, core_pick (f x) = core_pick x ∧ rq_core_cookie (f x) = rq_core_cookie x) →
  (∀ x, core_task_seq (f x) = core_task_seq x ∧ core_sched_seq (f x) = core_sched_seq x) →
  wp (upd_leader c f) s (λ _ s', steady s s').
Proof.
  intros Hj Hs Hc Hfr Hfp Hfs. destruct (cs_led _ _ _ Hs c Hc) as [(rc&Hrc&Hl) [rl Hrl]].
  unfold upd_leader, core_of. apply wp_bind, wp_bind. eapply wp_rq; [done|]. apply wp_ret. rewrite Hl.
  eapply wp_upd_core; [done|]. split_and!; [by eapply pk_core|by apply select_frame_upd; [|apply Hfr|apply Hfr|apply Hfs|apply Hfs]|..]; intros j.
  - rewrite pick_at_upd by done. destruct (decide (j = l)) as [->|]; [|done].
    rewrite (proj1 (Hfp _)). unfold pick_at, core_at. by rewrite Hrl.
  - unfold cookie_at. rewrite core_at_upd by done. destruct (decide (j = l)) as [->|]; [|done].
    unfold core_at. rewrite Hrl. cbn. by rewrite (proj2 (Hfp _)).
Qed.

Lemma wp_core_pick_match c cpus smt l cookie fi occ s Q :
  J s → core_setting s smt l → c ∈ smt → (∀ i, i ∈ cpus → i ∈ smt) → NoDup cpus → (∀ i, i ∈ cpus → picked s i) →
  (∀ n s', J s' → select_frame s s' → (∀ i, i ∈ cpus → pick_fits s' i cookie) →
     (∀ i, i ∉ cpus → pick_at s' i = pick_at s i) → (∀ i, cookie_at s' i = cookie_at s i) → Q n s') →
  wp (core_pick_match c cpus cookie fi occ) s Q.
Proof.
  revert occ s Q. induction cpus as [|i cpus IH]; intros occ s Q Hj Hs Hc Hin Hnd Hpk HQ; cbn [core_pick_match].
  { apply wp_ret, HQ; [done|done|set_solver|done|done]. }
  apply NoDup_cons in Hnd as [Hi Hnd]. destruct (Hpk i) as (p&t&Hp&Ht&Hct); [set_solver|].
  destruct (cs_led _ _ _ Hs i) as [(r&Hr&_) _]; [set_solver|]. apply wp_bind. eapply wp_rq; [done|].
  assert (core_pick (core_data r) = Some p) as -> by (unfold pick_at, core_at in Hp; by rewrite Hr in Hp).
  apply wp_bind, wp_deref. eapply wp_match_one; [done|done|set_solver|eauto|]. clear p t Hp Ht Hct. intros p Hfit.
  apply wp_bind. eapply wp_upd_core; [done|]. set (s1 := s <| k_rqs := _ |>).
  assert (select_frame s s1) as Hf1 by by apply select_frame_upd. assert (J s1) as Hj1 by by eapply pk_core.
  assert (∀ j, pick_at s1 j = if decide (j = i) then Some p else pick_at s j) as Hp1.
  { intros j. unfold s1. by rewrite pick_at_upd. }
  apply wp_bind. eapply wp_rq; [apply lookup_insert_eq|].
  assert (∀ j, cookie_at s1 j = cookie_at s j) as Hck1.
  { intros j. unfold cookie_at, s1. rewrite core_at_upd by done. destruct (decide (j = i)) as [->|]; [|done].
    unfold core_at. by rewrite Hr. }
  assert (∀ n s2, steady s1 s2 → wp (core_pick_match c cpus cookie fi n) s2 Q) as Hrest.
  { intros n s2 (Hj2&Hf2&Hp2&Hck2). assert (select_frame s s2) as Hf by by etrans.
    apply IH; [done|by eapply core_setting_frame; [exact (slf_core _ _ Hf)|]|done|set_solver|done| |].
    - intros j Hj'. eapply picked_frame; [exact (slf_core _ _ Hf)| |apply Hpk; set_solver]. rewrite Hp2, Hp1, decide_False; [done|]. by intros ->.
    - intros m s3 Hj3 Hf3 Hp3 Ho3 Hck3. apply HQ; [done|by etrans| | |intros j; by rewrite Hck3, Hck2].
      + intros j [->|Hj']%elem_of_cons; [|by apply Hp3]. exists p. rewrite Ho3, Hp2, Hp1, decide_True by done.
        split; [done|]. eapply fits_frame; [|exact Hfit]. apply slf_core. by etrans.
      + intros j Hj'. rewrite Ho3, Hp2, Hp1, decide_False by set_solver. done. }
  assert (core_setting s1 smt l) as Hs1 by (by eapply core_setting_frame; [exact (slf_core _ _ Hf1)|]).
  case_bool_decide; [|by apply Hrest].
  apply wp_bind, (wp_mono _ _ (λ _ s3, steady s1 s3)); [|intros [] s3; auto].
  apply wp_when; intros _; [|done].
  apply wp_bind. eapply wp_mono; [by eapply wp_leader_steady|]. intros [] s2 Hst2.
  apply wp_when; intros _; [|done].
  eapply wp_mono; [eapply (wp_leader_steady s2); [apply Hst2|eapply core_setting_frame; [apply slf_core, Hst2|done]|done..]|].
  intros [] s3 Hst3. by eapply steady_trans.
Qed.

(** * The third loop *)

Definition seqs_at s i : option (Z * Z * Z * Z) :=
  (λ k, (core_task_seq k, core_pick_seq k, core_sched_seq k, rq_core_cookie k)) <$> core_at s i.

(** Sibling [i] runs its pick already, or is told to reschedule and will find it. *)
Definition dispatched s s' i : Prop := ∀ p r, pick_at s i = Some p → k_rqs s !! i = Some r →
  curr r = p ∧ pick_at s' i = None ∨ pick_at s' i = Some p ∧ resched_set s' (curr r) = true.

Lemma wp_core_resched c cpus fi occ s smt l Q :
  vruntime_quiet → core_setting s smt l → c ∈ smt → (∀ i, i ∈ cpus → i ∈ smt) → NoDup cpus →
  (∀ i, i ∈ cpus → picked s i) →
  (∀ s', core_frame s s' → (∀ i, i ∈ cpus → i ≠ c → dispatched s s' i) → (∀ i, i ∉ cpus → pick_at s' i = pick_at s i) →
     (∀ i, seqs_at s' i = seqs_at s i) → Q tt s') →
  wp (core_resched c cpus fi occ) s Q.
Proof.
  intros Hvr. revert s Q. induction cpus as [|i cpus IH]; intros s Q Hs Hc Hin Hnd Hpk HQ; cbn [core_resched].
  { apply wp_skip, HQ; [done|set_solver|done|done]. }
  apply NoDup_cons in Hnd as [Hi Hnd]. destruct (Hpk i) as (p&t&Hp&Ht&Hct); [set_solver|].
  destruct (cs_led _ _ _ Hs i) as [(r&Hr&_) _]; [set_solver|]. apply wp_bind. eapply wp_rq; [done|].
  assert (core_pick (core_data r) = Some p) as -> by (unfold pick_at, core_at in Hp; by rewrite Hr in Hp).
  apply wp_bind, wp_bind. eapply wp_core_leader; [by eapply cs_led|]. intros k _. apply wp_bind.
  set (fi' := negb (core_forceidle_count k =? 0)).
  apply (wp_mono _ _ (λ _ s1, core_quiet s s1)).
  { apply wp_when; intros _; [apply Hvr; eauto|]. by split. }
  intros [] s1 Hq1. destruct (core_frame_task _ _ _ _ (proj1 Hq1) Ht) as (t1&Ht1&_). apply wp_bind. eapply wp_upd_task; [done|].
  set (s2 := s1 <| k_tasks := _ |>). assert (core_quiet s s2) as Hq2.
  { eapply core_quiet_trans; [done|]. split; [|done]. split; [|done|].
    - intros q. unfold view_task. cbn. destruct (decide (q = p)) as [->|]; [by rewrite lookup_insert_eq, Ht1|by rewrite lookup_insert_ne].
    - intros q. unfold resched_set. cbn. destruct (decide (q = p)) as [->|]; [by rewrite lookup_insert_eq, Ht1|by rewrite lookup_insert_ne]. }
  destruct (core_frame_rq _ _ _ _ (proj1 Hq2) Hr) as (r2&Hr2&_&Hcu&_).
  apply (wp_mono _ _ (λ _ s3, core_frame s s3 ∧ (i ≠ c → dispatched s s3 i) ∧ (∀ j, j ≠ i → pick_at s3 j = pick_at s j) ∧
    ∀ j, seqs_at s3 j = seqs_at s j)).
  { assert (∀ j, seqs_at s2 j = seqs_at s j) as Hsq by (intros j; unfold seqs_at; by rewrite (proj2 Hq2)).
    destruct ((i =? c) || bool_decide (curr r = p)) eqn:Hb.
    - eapply wp_upd_core; [done|]. split_and!.
      + etrans; [apply Hq2|by apply core_frame_upd].
      + intros Hne p' r' Hp' Hr'. rewrite Hp in Hp'. rewrite Hr in Hr'. injection Hp' as <-. injection Hr' as <-. left. rewrite pick_at_upd, decide_True by done. split; [|done].
        apply orb_true_iff in Hb as [Hb|Hb]; [lia|by apply bool_decide_eq_true in Hb].
      + intros j Hj. rewrite pick_at_upd, decide_False by done. by apply quiet_pick.
      + intros j. rewrite <-Hsq. unfold seqs_at. rewrite core_at_upd by done. destruct (decide (j = i)) as [->|Hji].
        * unfold core_at. by rewrite Hr2.
        * done.
    - assert (core_setting s2 smt l) as Hs2 by (eapply core_setting_frame; [apply Hq2|done]).
      destruct (cs_curr _ _ _ Hs2 i r2) as [td Htd]; [set_solver|done|]. eapply wp_resched_curr; [done..|].
      intros s3 Hre. destruct (rescheduled_frame _ _ _ _ Htd Hre) as [Hf3 Hrq3].
      assert (∀ j, pick_at s3 j = pick_at s j) as Hp3.
      { intros j. rewrite <-(quiet_pick s s2) by done. unfold pick_at, core_at. by rewrite Hrq3. }
      split_and!; [etrans; [apply Hq2|done]| |auto|].
      + intros _ p' r' Hp' Hr'. rewrite Hp in Hp'. rewrite Hr in Hr'. injection Hp' as <-. injection Hr' as <-. right. split; [by rewrite Hp3|]. rewrite <-Hcu.
        destruct Hre as [lt ->]. unfold resched_set. cbn. by rewrite lookup_insert_eq.
      + intros j. rewrite <-Hsq. unfold seqs_at, core_at. by rewrite Hrq3. }
  intros [] s3 (Hf3&Hd3&Hp3&Hq3). apply IH; [by eapply core_setting_frame|done|set_solver|done| |].
  - intros j Hj. eapply picked_frame; [done|apply Hp3; by intros ->|apply Hpk; set_solver].
  - intros s4 Hf4 Hd4 Ho4 Hsq4. apply HQ; [by etrans| | |intros j; by rewrite Hsq4].
    + intros j [->|Hj]%elem_of_cons Hne p' r' Hp' Hr'.
      * rewrite Ho4 by done. destruct (Hd3 Hne p' r' Hp' Hr') as [?|[? ?]]; [auto|right].
        split; [done|]. by apply (cf_resched _ _ Hf4).
      * destruct (core_frame_rq _ _ _ _ Hf3 Hr') as (r3&Hr3&_&Hcu3&_). rewrite <-Hcu3.
        eapply Hd4; [done|done| |done]. rewrite Hp3; [done|]. by intros ->.
    + intros j Hj. rewrite Ho4, Hp3 by set_solver. done.
Qed.

(** * The whole selection *)

Lemma mask_cpus_nodup mask : NoDup (mask_cpus mask).
Proof. apply NoDup_filter, NoDup_seqZ. Qed.
Lemma mask_cpus_wrap_perm mask c : mask_cpus_wrap mask c ≡ₚ mask_cpus mask.
Proof.
  unfold mask_cpus_wrap. induction (mask_cpus mask) as [|x l IH]; [done|]. rewrite !filter_cons.
  destruct (decide (c <= x)), (decide (x < c)); try lia; cbn; [by rewrite IH|]. rewrite <-Permutation_middle. by rewrite IH.
Qed.

Lemma wp_leader_cookie s c smt l cookie :
  J s → core_setting s smt l → c ∈ smt →
  wp (upd_leader c (λ k, k <| rq_core_cookie := cookie |>)) s (λ _ s',
    J s' ∧ select_frame s s' ∧ (∀ j, pick_at s' j = pick_at s j) ∧ cookie_at s' l = Some cookie).
Proof.
  intros Hj Hs Hc. destruct (cs_led _ _ _ Hs c Hc) as [(rc&Hrc&Hl) [rl Hrl]].
  unfold upd_leader, core_of. apply wp_bind, wp_bind. eapply wp_rq; [done|]. apply wp_ret. rewrite Hl.
  eapply wp_upd_core; [done|]. split_and!; [by eapply pk_core|by apply select_frame_upd| |].
  - intros j. rewrite pick_at_upd by done. destruct (decide (j = l)) as [->|]; [|done].
    unfold pick_at, core_at. by rewrite Hrl.
  - unfold cookie_at. by rewrite core_at_upd, decide_True.
Qed.

(** The end of the selection: the sequence numbers say that a selection was made for the
    current set of tasks and that this CPU has scheduled it. *)
Lemma wp_core_select_end c l smt fi occ s Q :
  vruntime_quiet → core_setting s smt l → c ∈ smt → NoDup smt → (∀ i, i ∈ smt → picked s i) →
  (∀ next s' k kc, pick_at s c = Some next → core_frame s s' → (∀ i, i ∈ smt → i ≠ c → dispatched s s' i) →
     core_at s' l = Some k → core_at s' c = Some kc → core_pick_seq k = core_task_seq k →
     core_sched_seq kc = core_pick_seq k → Some (rq_core_cookie k) = cookie_at s l →
     fst <$> seq_at s l = Some (core_task_seq k) → (∀ i, i ≠ c → snd <$> seq_at s' i = snd <$> seq_at s i) → Q next s') →
  wp (upd_leader c (λ k, k <| core_pick_seq := core_task_seq k |>);;
      r ← cpu_rq c;
      next ← deref (core_pick (core_data r));
      k ← core_leader c;
      upd_core c (λ k', k' <| core_sched_seq := core_pick_seq k |>);;
      core_resched c smt fi occ;;
      mret next) s Q.
Proof.
  intros Hvr Hs Hc Hnd Hpk HQ. apply wp_bind. eapply wp_upd_leader; [by apply (cs_led _ _ _ Hs)|done|].
  intros s1 k Hf1 Htk1 Hk Hat1. assert (∀ j, pick_at s1 j = pick_at s j) as Hp1.
  { intros j. unfold pick_at. rewrite Hat1. destruct (decide (j = l)) as [->|]; [by rewrite Hk|done]. }
  assert (core_setting s1 smt l) as Hs1 by by eapply core_setting_frame.
  destruct (cs_led _ _ _ Hs1 c Hc) as [(r1&Hr1&_) _]. apply wp_bind. eapply wp_rq; [done|].
  destruct (Hpk c Hc) as (next&t&Hnext&_).
  assert (core_pick (core_data r1) = Some next) as -> by (rewrite <-Hp1 in Hnext; unfold pick_at, core_at in Hnext; by rewrite Hr1 in Hnext).
  apply wp_bind, wp_deref, wp_bind. eapply wp_core_leader; [by apply (cs_led _ _ _ Hs1)|]. intros k1 Hk1.
  rewrite Hat1, decide_True in Hk1 by done. injection Hk1 as <-. apply wp_bind. eapply wp_upd_core; [done|].
  set (s2 := s1 <| k_rqs := _ |>). assert (core_frame s1 s2) as Hf2 by by apply core_frame_upd.
  assert (∀ j, pick_at s2 j = pick_at s j) as Hp2.
  { intros j. rewrite <-Hp1. unfold s2. rewrite pick_at_upd by done. destruct (decide (j = c)) as [->|]; [|done].
    unfold pick_at, core_at. by rewrite Hr1. }
  assert (core_frame s s2) as Hf by by etrans.
  apply wp_bind. eapply (wp_core_resched c smt fi occ s2 smt l); try done.
  { by eapply core_setting_frame. }
  { intros i Hi. eapply picked_frame; [done|by apply Hp2|by apply Hpk]. }
  intros s3 Hf3 Hd3 _ Hsq3. apply wp_ret.
  assert (∃ k2 kc, core_at s2 l = Some k2 ∧ core_at s2 c = Some kc ∧ core_pick_seq k2 = core_task_seq k2 ∧
    core_sched_seq kc = core_pick_seq k2 ∧ Some (rq_core_cookie k2) = cookie_at s l ∧ fst <$> seq_at s l = Some (core_task_seq k2))
    as (k2&kc&Hk2&Hkc&Hps&Hss&Hck&Htsq).
  { unfold s2. rewrite !core_at_upd by done. rewrite (decide_True (P := c = c)) by done.
    assert (core_at s1 c = Some (core_data r1)) as Hc1 by (unfold core_at; by rewrite Hr1).
    assert (cookie_at s l = Some (rq_core_cookie k)) as -> by (unfold cookie_at; by rewrite Hk). unfold seq_at. rewrite Hk.
    destruct (decide (l = c)) as [->|Hlc].
    - rewrite Hat1, decide_True in Hc1 by done. injection Hc1 as <-. eexists _, _. by split_and!.
    - rewrite Hat1, decide_True by done. eexists _, _. by split_and!. }
  pose proof (Hsq3 l) as Hl3. pose proof (Hsq3 c) as Hc3. unfold seqs_at in Hl3, Hc3. rewrite Hk2 in Hl3. rewrite Hkc in Hc3.
  destruct (core_at s3 l) as [k3|] eqn:Hk3; [|done]. destruct (core_at s3 c) as [kc3|] eqn:Hkc3; [|done].
  cbn in Hl3, Hc3. injection Hl3 as ? ? ? ?. injection Hc3 as ? ? ? ?.
  eapply (HQ next s3 k3 kc3); try done; try congruence; [by etrans| |].
  2: { intros i Hi. transitivity (snd <$> seq_at s2 i).
       - specialize (Hsq3 i). unfold seqs_at in Hsq3. unfold seq_at. destruct (core_at s3 i), (core_at s2 i); try done. cbn in *. by injection Hsq3 as ? ? -> ?.
       - unfold seq_at, s2. rewrite core_at_upd, decide_False by done. rewrite Hat1. case_decide as Hil; [subst i; by rewrite Hk|done]. }
  intros i Hi Hne p r Hp Hr. destruct (core_frame_rq _ _ _ _ Hf Hr) as (r2&Hr2&_&Hcu2&_). rewrite <-Hcu2.
  apply (Hd3 i Hi Hne); [by rewrite Hp2|done].
Qed.

(** C11: The core-wide selection gives every hardware thread a task with the cookie of the
    core, or the idle task: for the calling CPU it is the result; every sibling either
    runs its task already, or has it as its pick and is told to reschedule.  No sibling is
    taken to have scheduled the selection, if none has scheduled the set of tasks that
    [core_task_seq] stands for, which the caller has just advanced: so the test of
    [pick_next_task] makes it take the pick. *)
Theorem core_select_matches c l s fi :
  let smt := mask_cpus (cpu_smt_mask c) in
  vruntime_quiet → J s → core_setting s smt l → c ∈ smt →
  (∀ i ki k, i ∈ smt → i ≠ c → core_at s i = Some ki → core_at s l = Some k → core_sched_seq ki ≠ core_task_seq k) →
  wp (core_select c fi) s (λ next s', ∃ k kc, core_at s' l = Some k ∧ core_at s' c = Some kc ∧
    fits s' c (rq_core_cookie k) next ∧
    (∀ i, i ∈ smt → i ≠ c → ∃ p r, k_rqs s' !! i = Some r ∧ fits s' i (rq_core_cookie k) p ∧
       (curr r = p ∧ pick_at s' i = None ∨ pick_at s' i = Some p ∧ resched_set s' (curr r) = true) ∧
       core_sched_seq (core_data r) ≠ core_pick_seq k) ∧
    core_pick_seq k = core_task_seq k ∧ core_sched_seq kc = core_pick_seq k).
Proof.
  intros smt Hvr Hj Hs Hc Hfresh. unfold core_select. apply wp_bind.
  assert (∀ i, i ∈ mask_cpus_wrap (cpu_smt_mask c) c ↔ i ∈ smt) as Hw by (intros i; by rewrite mask_cpus_wrap_perm).
  apply wp_core_pick_max; [done|rewrite mask_cpus_wrap_perm; apply mask_cpus_nodup| |done| |].
  { intros i Hi. apply Hw, (cs_led _ _ _ Hs) in Hi as [(r&?&_) _]. eauto. }
  { left. intros Hn. apply Hw in Hc. rewrite Hn in Hc. set_solver. }
  intros m s1 Hj1 Hf1 Hp1 _ [tm Htm]. apply wp_bind, wp_deref, wp_bind. eapply wp_task; [done|]. set (cookie := core_cookie tm).
  assert (core_setting s1 smt l) as Hs1 by (by eapply core_setting_frame; [exact (slf_core _ _ Hf1)|]).
  apply wp_bind. eapply wp_mono; [by eapply wp_leader_cookie|]. intros [] s2 (Hj2&Hf2&Hp2&Hck2).
  assert (core_setting s2 smt l) as Hs2 by (by eapply core_setting_frame; [exact (slf_core _ _ Hf2)|]).
  apply wp_bind. eapply (wp_core_pick_match c smt smt l); [done|done|done|done|apply mask_cpus_nodup| |].
  { intros i Hi. eapply picked_frame; [exact (slf_core _ _ Hf2)|apply Hp2|apply Hp1; by apply Hw]. }
  intros occ s3 Hj3 Hf3 Hp3 _ Hck3. assert (core_setting s3 smt l) as Hs3 by (by eapply core_setting_frame; [exact (slf_core _ _ Hf3)|]).
  apply wp_bind. eapply wp_core_leader; [by apply (cs_led _ _ _ Hs3)|]. intros k3 _. apply wp_bind.
  eapply wp_core_of; [by apply (cs_led _ _ _ Hs3)|]. apply wp_bind, wp_get, wp_bind.
  apply (wp_mono _ _ (λ _ s4, steady s3 s4)).
  { apply wp_when; intros _; [by eapply wp_leader_steady|]. by split_and!. }
  intros [] s4 (Hj4&Hf4&Hp4&Hck4). eapply (wp_core_select_end c l smt); [done|by eapply core_setting_frame; [exact (slf_core _ _ Hf4)|]|done|apply mask_cpus_nodup| |].
  { intros i Hi. destruct (Hp3 i Hi) as (p&Hpk&t&r&Ht&Hr&Hct&_). eapply picked_frame; [exact (slf_core _ _ Hf4)|apply Hp4|]. by exists p, t. }
  intros next s5 k kc Hnext Hf5 Hd5 Hk Hkc Hps Hss Hck Htsq Hssq. exists k, kc.
  assert (∀ j, seq_at s4 j = seq_at s j) as Hsq4 by (intros j; by rewrite (slf_seq _ _ Hf4), (slf_seq _ _ Hf3), (slf_seq _ _ Hf2), (slf_seq _ _ Hf1)).
  assert (rq_core_cookie k = cookie) as Hcookie by (rewrite Hck4, Hck3, Hck2 in Hck; by injection Hck).
  assert (core_frame s3 s5) as Hf35 by (etrans; [apply Hf4|done]). rewrite Hcookie. split_and!; [done|done| | |done|congruence].
  - destruct (Hp3 c Hc) as (p&Hpk&Hfit). rewrite Hp4, Hpk in Hnext. injection Hnext as <-. by eapply fits_frame.
  - intros i Hi Hne. destruct (Hp3 i Hi) as (p&Hpk&Hfit). pose proof Hfit as (t&r&_&Hr&_).
    destruct (core_frame_rq _ _ _ _ Hf4 Hr) as (r4&Hr4&_). destruct (core_frame_rq _ _ _ _ Hf5 Hr4) as (r5&Hr5&_&Hcu5&_).
    exists p, r5. split_and!; [done|by eapply fits_frame|rewrite Hcu5; apply (Hd5 i Hi Hne); [by rewrite Hp4|done]|].
    rewrite Hsq4 in Htsq. specialize (Hssq i Hne). rewrite Hsq4 in Hssq. unfold seq_at, core_at in Htsq, Hssq. rewrite Hr5 in Hssq.
    destruct (k_rqs s !! i) as [ri|] eqn:Hri; [|done]. destruct (k_rqs s !! l) as [rl|] eqn:Hrl; [|done]. cbn in Htsq, Hssq.
    injection Htsq as Htsq. injection Hssq as ->. rewrite Hps, <-Htsq. apply (Hfresh i); [done|done|unfold core_at; by rewrite Hri|unfold core_at; by rewrite Hrl].
Qed.
End select.

(** * The HVF class meets the contract *)

Section hvf.
Context {L : RbLib} {TC : TickConfig} {S : SmpLib} {UC : UclampConfig} {E : Ext}
  {OC : OtherClasses} {CL : CpuLib} {AL : AffLib} {SL : SysLib} {UM : UserMem} {HL : HotplugLib}
  {CO : CoreLib} {LL : RbLaws L}.

(** The run queues of the HVF class are in order and idle tasks belong to their CPU. *)
Definition hvf_core_inv (s : kstate) : Prop :=
  hvf_inv s ∧ ∀ i r, k_rqs s !! i = Some r → ∃ t, k_tasks s !! idle r = Some t ∧ cpu t = i.

(** With other classes that pick tasks of the CPU and change nothing. *)
Lemma hvf_picks_ok :
  (∀ cl, cl ≠ hvf_sched_class → cl ∈ for_each_active_class → ∃ f, op_pick_task (other_class cl) = Some f ∧
     ∀ i s, hvf_core_inv s → is_Some (k_rqs s !! i) → ∃ res, f i s = Ok (res, s) ∧
       ∀ q, res = Some q → ∃ t, k_tasks s !! q = Some t ∧ cpu t = i) →
  idle_sched_class ∈ for_each_active_class →
  (∃ f, op_pick_task (other_class idle_sched_class) = Some f ∧
     ∀ i s r, k_rqs s !! i = Some r → f i s = Ok (Some (idle r), s)) →
  picks_ok hvf_core_inv.
Proof.
  intros Hoth Hact Hidle. split; [|done|done|..].
  - intros cl Hcl. destruct (decide (cl = hvf_sched_class)) as [->|Hne].
    + exists pick_task_hvf. split; [done|]. intros i s [Hi Hid] [r Hr]. eapply wp_pick_task_hvf; [done..|].
      split_and!; [by split|by split|]. intros q [= <-]. unfold next_hvf, queue_of, hq. rewrite Hr. cbn.
      destruct (last (queue (rq_hvf r))) as [p|] eqn:Hl; [|by apply Hid].
      destruct (q_mem _ _ _ (Hi i (rq_hvf r) ltac:(unfold hq; by rewrite Hr)) p) as (v&He&_); [by eapply last_Some_elem_of|].
      unfold ent in He. destruct (k_tasks s !! p) as [t|] eqn:Ht; [|done]. injection He as _ _ Hc. cbn. by exists t.
    + destruct (Hoth cl Hne Hcl) as (f&Hf&Hpk). exists f. split; [by destruct cl|]. intros i s Hj Hr.
      destruct (Hpk i s Hj Hr) as (res&Hok&Hres). eapply wp_ok; [done|]. by split_and!; [|by split|].
  - intros s c r f [Hi Hid] Hr. split.
    + eapply hvf_inv_ext, Hi; [done|]. intros c'. unfold hq. cbn. destruct (decide (c' = c)) as [->|];
        [by rewrite lookup_insert_eq, Hr|by rewrite lookup_insert_ne].
    + intros i r'. cbn. intros [[<- <-]|[_ Hr']]%lookup_insert_Some; [exact (Hid c r Hr)|by apply Hid].
  - intros s c r [Hi Hid] Hr. split.
    + eapply hvf_inv_ext, Hi; [done|]. intros c'. unfold hq. cbn. destruct (decide (c' = c)) as [->|];
        [by rewrite lookup_insert_eq, Hr|by rewrite lookup_insert_ne].
    + intros i r'. cbn. intros [[<- <-]|[_ Hr']]%lookup_insert_Some; [exact (Hid c r Hr)|by apply Hid].
Qed.
End hvf.
