(* ===== verification/CoreSwitch.v ===== *)
(** Core scheduling and hotplug: a core keeps one leader, which inherits the shared
    state; and the switch, which is on for all CPUs exactly while it is used. *)
From S2P Require Import Prelude Rbtree KState HvfValue HvfClass HvfSmp Policy Uclamp Core Schedule Load Setsched Wakeup WakeupSpec Affinity Balance CoreSched CoreSchedSpec CoreSelect.

Section switch.
Context {L : RbLib} {TC : TickConfig} {S : SmpLib} {UC : UclampConfig} {E : Ext}
  {OC : OtherClasses} {CL : CpuLib} {AL : AffLib} {SL : SysLib} {UM : UserMem} {HL : HotplugLib}
  {CO : CoreLib}.
Implicit Types (s : kstate) (c i l t : Z) (cpus : list Z).

(** * The leader *)

(** The CPUs [cpus] follow the leader [l], which is one of them. *)
Definition led s cpus l : Prop := l ∈ cpus ∧ ∀ i, i ∈ cpus → core <$> core_at s i = Some l.

(** The state the threads of a core share. *)
Definition shared (k : core_rq) : Z * Z * Z * Z * Z * Z :=
  (core_task_seq k, core_pick_seq k, rq_core_cookie k, core_forceidle_count k, core_forceidle_seq k,
   core_forceidle_occupation k).

Lemma core_at_rq s c k : core_at s c = Some k → ∃ r, k_rqs s !! c = Some r ∧ core_data r = k.
Proof. unfold core_at. destruct (k_rqs s !! c) as [r|]; [|done]. intros [= <-]. by exists r. Qed.

Lemma wp_upd_core_at s c k f Q :
  core_at s c = Some k →
  (∀ s', (∀ i, core_at s' i = if decide (i = c) then Some (f k) else core_at s i) → k_core s' = k_core s → Q tt s') →
  wp (upd_core c f) s Q.
Proof.
  intros Hk HQ. destruct (core_at_rq s c k Hk) as (r&Hr&<-). eapply wp_upd_core; [done|]. apply HQ; [|done].
  intros i. by apply core_at_upd.
Qed.

(** Updating a field on a list of CPUs, as [set_leader] and [set_core_enabled] do. *)
Lemma wp_upd_each (g : list Z → M unit) f cpus s Q :
  (g [] = skip) → (∀ t cpus, g (t :: cpus) = (upd_core t f;; g cpus)) → (∀ k, f (f k) = f k) →
  (∀ i, i ∈ cpus → is_Some (core_at s i)) →
  (∀ s', (∀ i, core_at s' i = if decide (i ∈ cpus) then f <$> core_at s i else core_at s i) → k_core s' = k_core s → Q tt s') →
  wp (g cpus) s Q.
Proof.
  intros Hnil Hcons Hff. revert s Q. induction cpus as [|t cpus IH]; intros s Q Hall HQ.
  { rewrite Hnil. apply wp_skip, HQ; [|done]. intros i. by rewrite decide_False by set_solver. }
  rewrite Hcons. destruct (Hall t) as [k Hk]; [set_solver|]. apply wp_bind. eapply wp_upd_core_at; [done|]. intros s1 Hat Hg.
  apply IH.
  - intros i Hi. rewrite Hat. case_decide; [eauto|]. apply Hall. set_solver.
  - intros s2 Hat2 Hg2. apply HQ; [|congruence]. intros i. rewrite Hat2, Hat. destruct (decide (i = t)) as [->|Hne].
    + rewrite (decide_True (P := t ∈ t :: cpus)), Hk by set_solver. cbn. case_decide; [by rewrite Hff|done].
    + destruct (decide (i ∈ cpus)); [rewrite decide_True by set_solver|rewrite decide_False by set_solver]; done.
Qed.

Lemma wp_set_leader cpus l s Q :
  (∀ i, i ∈ cpus → is_Some (core_at s i)) →
  (∀ s', (∀ i, core_at s' i = if decide (i ∈ cpus) then (λ k, k <| core := l |>) <$> core_at s i else core_at s i) →
     k_core s' = k_core s → Q tt s') → wp (set_leader cpus l) s Q.
Proof. apply (wp_upd_each (λ cpus, set_leader cpus l)); done. Qed.

Lemma led_exist s cpus l i : led s cpus l → i ∈ cpus → ∃ k, core_at s i = Some k ∧ core k = l.
Proof. intros [_ Hl] Hi. specialize (Hl i Hi). destruct (core_at s i) as [k|]; [|done]. injection Hl as <-. by exists k. Qed.

(** A CPU of a core with other threads goes down: the core keeps one leader, which is
    another thread if the CPU led the core, and the shared state of the leader stays what
    it was; no warning is printed. *)
Theorem core_leader_handover s c l :
  let smt := mask_cpus (cpu_smt_mask c) in
  led s smt l → c ∈ smt → (1 < length smt)%nat →
  wp (sched_core_cpu_deactivate c) s (λ warn s', warn = false ∧ ∃ l', l' ≠ c ∧ led s' smt l' ∧
    shared <$> core_at s' l' = shared <$> core_at s l).
Proof.
  intros smt Hl Hc Hlen. unfold sched_core_cpu_deactivate. fold smt.
  destruct (led_exist s smt l c Hl Hc) as (kc&Hkc&Hcc).
  destruct (core_at_rq s c kc Hkc) as (r&Hr&Hrk). apply wp_bind. eapply wp_rq; [done|]. rewrite Hrk, Hcc.
  destruct (Nat.eqb_spec (length smt) 1); [lia|].
  destruct (Z.eqb_spec l c) as [->|Hne]; cbn [negb]; [|apply wp_ret; split; [done|]; by exists l].
  destruct (head (filter (λ t, t ≠ c) smt)) as [l'|] eqn:Hh; cycle 1.
  { exfalso. pose proof (mask_cpus_nodup (cpu_smt_mask c)) as Hnd. fold smt in Hnd.
    assert (∀ i, i ∈ smt → i = c) as Hone.
    { intros i Hi. apply dec_stable. intros Hne. assert (i ∈ filter (λ t, t ≠ c) smt) as Hf by (apply list_elem_of_filter; auto).
      destruct (filter _ smt); [set_solver|done]. }
    destruct smt as [|a [|b smt']]; cbn in Hlen; try lia. apply NoDup_cons in Hnd as [Hab _].
    assert (a = c) by (apply Hone; set_solver). assert (b = c) by (apply Hone; set_solver). set_solver. }
  assert (l' ≠ c ∧ l' ∈ smt) as [Hl'c Hl'].
  { assert (l' ∈ filter (λ t, t ≠ c) smt) as Hin by (destruct (filter _ smt); [done|injection Hh as <-; set_solver]).
    apply list_elem_of_filter in Hin. tauto. }
  destruct (led_exist s smt c l' Hl Hl') as (kl&Hkl&_). apply wp_bind. eapply wp_upd_core_at; [done|]. intros s1 Hat1 _.
  apply wp_bind, wp_set_leader.
  { intros i Hi. rewrite Hat1. case_decide; [eauto|]. destruct (led_exist s smt c i Hl Hi) as (?&?&_). eauto. }
  intros s2 Hat2 _. apply wp_ret. split; [done|]. exists l'. split_and!; [done| |].
  - split; [done|]. intros i Hi. rewrite Hat2, decide_True, Hat1 by done. destruct (decide (i = l')); [done|].
    destruct (led_exist s smt c i Hl Hi) as (k&->&_). done.
  - rewrite Hat2, decide_True, Hat1, decide_True, Hkc by done. done.
Qed.

Lemma head_unique {A} (P : A → Prop) `{!∀ x, Decision (P x)} (l : list A) x :
  x ∈ l → P x → (∀ y, y ∈ l → P y → y = x) → head (filter P l) = Some x.
Proof.
  intros Hx HP Hu. destruct (head (filter P l)) as [y|] eqn:Hh.
  - apply head_filter in Hh as (l1&l2&->&_&HPy). f_equal. apply Hu; [set_solver|done].
  - assert (x ∈ filter P l) by (apply list_elem_of_filter; auto). destruct (filter P l); [set_solver|done].
Qed.

(** Once the CPU [c] follows [l], all the CPUs [cpus] do. *)
Lemma wp_install_leader c l cpus s kc Q :
  (∀ i, i ∈ cpus → i ≠ c → core <$> core_at s i = Some l) → core_at s c = Some kc →
  (∀ s', (∀ i, i ≠ c → core_at s' i = core_at s i) →
     core_at s' c = Some kc ∧ c ∉ cpus ∨ core_at s' c = Some (kc <| core := l |>) → Q false s') →
  wp (install_leader c l cpus) s Q.
Proof.
  revert s kc Q. induction cpus as [|t cpus IH]; intros s kc Q Hall Hkc HQ.
  { apply wp_ret, HQ; [done|]. left. split; [done|set_solver]. }
  cbn [install_leader]. apply wp_bind.
  apply (wp_mono _ _ (λ _ s', (∀ i, i ≠ c → core_at s' i = core_at s i) ∧
    core_at s' c = Some (if decide (t = c) then kc <| core := l |> else kc))).
  { destruct (Z.eqb_spec t c) as [->|Hne]; cbn [when].
    - eapply wp_upd_core_at; [done|]. intros s' Hat _. split; [intros i Hi; by rewrite Hat, decide_False|by rewrite Hat, !decide_True].
    - apply wp_skip. by rewrite decide_False. }
  intros [] s1 [Hat Hc]. assert (∃ kt, core_at s1 t = Some kt ∧ core kt = l) as (kt&Hkt&Ht).
  { destruct (decide (t = c)) as [->|Hne]; [by eexists|]. rewrite (Hat t Hne). specialize (Hall t (list_elem_of_here _ _) Hne).
    destruct (core_at s t) as [kt|]; [|done]. injection Hall as ?. by exists kt. }
  destruct (core_at_rq s1 t kt Hkt) as (r&Hr&Hrk). apply wp_bind. eapply wp_rq; [done|]. rewrite Hrk, Ht, Z.eqb_refl. cbn [negb orb].
  apply wp_bind. eapply IH; [|exact Hc|].
  - intros i Hi Hne. rewrite (Hat i Hne). apply Hall; [by apply list_elem_of_further|done].
  - intros s2 Hat2 Hc2. apply wp_ret, HQ; [intros i Hi; by rewrite Hat2, Hat|].
    destruct (decide (t = c)) as [->|Hne]; [right; by destruct Hc2 as [[-> _]| ->]|].
    destruct Hc2 as [[-> Hn]|Hc2]; [left; split; [done|set_solver]|by right].
Qed.

(** A CPU that comes up joins the core of its siblings, and one that dies is its own
    leader again, ready to come up; no warning is printed. *)
Theorem core_leader_starting s c l :
  let smt := mask_cpus (cpu_smt_mask c) in
  led s (filter (λ t, t ≠ c) smt) l → c ∈ smt → core <$> core_at s c = Some c →
  wp (sched_core_cpu_starting c) s (λ warn s', warn = false ∧ led s' smt l ∧ shared <$> core_at s' l = shared <$> core_at s l).
Proof.
  intros smt [Hl Hled] Hc Hself. apply list_elem_of_filter in Hl as [Hlc Hl].
  destruct (core_at s c) as [kc|] eqn:Hkc; [|done]. injection Hself as Hself. destruct (core_at_rq s c kc Hkc) as (r&Hr&Hrk).
  unfold sched_core_cpu_starting. fold smt. apply wp_bind. eapply wp_rq; [done|]. rewrite Hrk, Hself, Z.eqb_refl. cbn [negb].
  destruct (Nat.eqb_spec (length smt) 1) as [H1|_].
  { destruct smt as [|a [|b smt']]; try done. set_solver. }
  assert (∀ i, i ∈ smt → i ≠ c → core <$> core_at s i = Some l) as Hcore by (intros i ? ?; apply Hled, list_elem_of_filter; auto).
  apply wp_bind. unfold find_leader. apply wp_get. rewrite (head_unique _ smt l); [|done| |].
  - apply wp_bind. eapply wp_install_leader; [done|exact Hkc|]. intros s1 Hat Hc1. apply wp_ret. split; [done|]. split; [split; [done|]|].
    + intros i Hi. destruct (decide (i = c)) as [->|Hne]; [by destruct Hc1 as [[_ ?]| ->]|]. rewrite Hat by done. by apply Hcore.
    + by rewrite Hat.
  - split; [done|]. by apply Hcore.
  - intros y Hy [Hyc Hcy]. specialize (Hcore y Hy Hyc). unfold core_at in Hcore. congruence.
Qed.
Lemma wp_core_dying s c :
  is_Some (core_at s c) → wp (sched_core_cpu_dying c) s (λ _ s', core <$> core_at s' c = Some c).
Proof.
  intros [k Hk]. destruct (core_at_rq s c k Hk) as (r&Hr&Hrk). unfold sched_core_cpu_dying. apply wp_bind.
  eapply wp_rq; [done|]. rewrite Hrk. destruct (Z.eqb_spec (core k) c) as [Hc|Hc]; cbn [negb when].
  - apply wp_skip. rewrite Hk. cbn. congruence.
  - eapply wp_upd_core_at; [done|]. intros s' Hat _. by rewrite Hat, decide_True.
Qed.

(** * The switch *)

(** The topology: an online CPU is a thread of its core, whose threads are possible
    CPUs. *)
Record topology : Prop := {
  tp_self c : c ∈ mask_cpus cpu_online_mask → c ∈ mask_cpus (cpu_smt_mask c);
  tp_smt c i : c ∈ mask_cpus cpu_online_mask → i ∈ mask_cpus (cpu_smt_mask c) → i ∈ mask_cpus cpu_possible_mask;
  tp_online c : c ∈ mask_cpus cpu_online_mask → c ∈ mask_cpus cpu_possible_mask;
}.
(** Possible CPUs have run queues and online CPUs a leader among them. *)
Record core_machine s : Prop := {
  cm_rq c : c ∈ mask_cpus cpu_possible_mask → is_Some (core_at s c);
  cm_leader c : c ∈ mask_cpus cpu_online_mask → ∃ k, core_at s c = Some k ∧ is_Some (core_at s (core k));
}.
Definition enabled_at s c : option bool := core_enabled <$> core_at s c.

(** The change of the switch of some CPUs to [b]. *)
Record flipped (b : bool) s s' : Prop := {
  fl_core c : core <$> core_at s' c = core <$> core_at s c;
  fl_enabled c : enabled_at s' c = enabled_at s c ∨ enabled_at s' c = Some b;
  fl_global : k_core s' = k_core s;
}.
Lemma flipped_trans b s1 s2 s3 : flipped b s1 s2 → flipped b s2 s3 → flipped b s1 s3.
Proof.
  intros [C1 E1 G1] [C2 E2 G2]. split; [intros; by rewrite C2| |congruence].
  intros c. destruct (E2 c) as [-> | ->]; auto.
Qed.
Lemma flipped_some b s s' c : flipped b s s' → is_Some (core_at s c) → is_Some (core_at s' c).
Proof. intros [Hc _ _] [k Hk]. specialize (Hc c). rewrite Hk in Hc. destruct (core_at s' c); [eauto|done]. Qed.
Lemma flipped_machine b s s' : flipped b s s' → core_machine s → core_machine s'.
Proof.
  intros Hf [Hr Hl]. split; [intros; eapply flipped_some; eauto|]. intros c Hc. destruct (Hl c Hc) as (k&Hk&Hs).
  pose proof (fl_core _ _ _ Hf c) as Hcc. rewrite Hk in Hcc. destruct (core_at s' c) as [k'|] eqn:Hk'; [|done].
  exists k'. split; [done|]. injection Hcc as ->. by eapply flipped_some.
Qed.
Lemma flipped_stays b s s' c : flipped b s s' → enabled_at s c = Some b → enabled_at s' c = Some b.
Proof. intros Hf He. destruct (fl_enabled _ _ _ Hf c) as [-> | ->]; done. Qed.

Lemma wp_set_enabled cpus b s Q :
  (∀ i, i ∈ cpus → is_Some (core_at s i)) →
  (∀ s', flipped b s s' → (∀ i, i ∈ cpus → enabled_at s' i = Some b) → Q tt s') → wp (set_core_enabled cpus b) s Q.
Proof.
  intros Hall HQ. apply (wp_upd_each (λ cpus, set_core_enabled cpus b) (λ k, k <| core_enabled := b |>)); [done..|].
  intros s' Hat Hg. apply HQ.
  - split; [| |done]; intros c; unfold enabled_at; rewrite Hat; case_decide as Hc; auto.
    + destruct (core_at s c); done.
    + destruct (Hall c Hc) as [k ->]. auto.
  - intros i Hi. unfold enabled_at. rewrite Hat, decide_True by done. by destruct (Hall i Hi) as [k ->].
Qed.

Lemma elem_of_mask mask c : c ∈ mask_cpus mask ↔ Z.testbit mask c = true ∧ 0 <= c < nr_cpu_ids.
Proof. unfold mask_cpus. rewrite list_elem_of_filter, elem_of_seqZ. split; intros []; split; try done; lia. Qed.
Lemma elem_of_minus a b c : c ∈ mask_cpus (Z.land a (Z.lnot b)) ↔ c ∈ mask_cpus a ∧ c ∉ mask_cpus b.
Proof.
  rewrite !elem_of_mask, Z.land_spec. destruct (decide (0 <= c < nr_cpu_ids)) as [Hc|Hc]; [|naive_solver].
  rewrite Z.lnot_spec by lia. destruct (Z.testbit a c), (Z.testbit b c); cbn; naive_solver.
Qed.

(** The CPUs of a mask are visited in increasing order. *)
Lemma seqZ_sorted n m : StronglySorted Z.lt (seqZ m (Z.of_nat n)).
Proof.
  revert m. induction n as [|n IH]; intros m; [constructor|].
  rewrite seqZ_cons by lia. replace (Z.pred (Z.of_nat (Datatypes.S n))) with (Z.of_nat n) by lia.
  constructor; [apply IH|]. apply Forall_forall. intros x Hx%elem_of_seqZ. lia.
Qed.
Lemma filter_sorted (P : Z → Prop) `{!∀ x, Decision (P x)} (l : list Z) : StronglySorted Z.lt l → StronglySorted Z.lt (filter P l).
Proof.
  induction 1 as [|x l Hl IH Hx]; [constructor|]. rewrite filter_cons. case_decide; [|done]. constructor; [done|].
  rewrite Forall_forall in Hx |- *. intros y Hy%list_elem_of_filter. apply Hx. tauto.
Qed.
Lemma mask_cpus_before mask (l1 l2 : list Z) c i : mask_cpus mask = l1 ++ c :: l2 → i ∈ mask_cpus mask → i < c → i ∈ l1.
Proof.
  intros Hl Hi Hlt. assert (StronglySorted Z.lt (mask_cpus mask)) as Hs.
  { unfold mask_cpus. apply filter_sorted. destruct (Z.le_gt_cases 0 nr_cpu_ids) as [H0|H0].
    - rewrite <-(Z2Nat.id nr_cpu_ids) by done. apply seqZ_sorted.
    - rewrite seqZ_nil by lia. constructor. }
  rewrite Hl in Hs, Hi. apply StronglySorted_app in Hs as (_&_&[Hc _]%StronglySorted_cons).
  apply elem_of_app in Hi as [Hi|[->|Hi]%elem_of_cons]; [done|lia|]. rewrite Forall_forall in Hc. specialize (Hc i Hi). lia.
Qed.

Lemma wp_leader_flipped b s c Q :
  core_machine s → c ∈ mask_cpus cpu_online_mask →
  (∀ s', flipped b s s' → (∀ i, enabled_at s' i = enabled_at s i) → Q tt s') →
  wp (upd_leader c (λ k, k <| core_forceidle_start := 0 |>)) s Q.
Proof.
  intros Hm Hc HQ. destruct (cm_leader _ Hm c Hc) as (k&Hk&[kl Hkl]). destruct (core_at_rq s c k Hk) as (r&Hr&Hrk).
  unfold upd_leader, core_of. apply wp_bind, wp_bind. eapply wp_rq; [done|]. apply wp_ret. rewrite Hrk.
  eapply wp_upd_core_at; [done|]. intros s' Hat Hg.
  assert (∀ i, enabled_at s' i = enabled_at s i) as He.
  { intros i. unfold enabled_at. rewrite Hat. destruct (decide (i = core k)) as [->|]; [by rewrite Hkl|done]. }
  apply HQ; [|done]. split; [|auto|done]. intros i. rewrite Hat. destruct (decide (i = core k)) as [->|]; [by rewrite Hkl|done].
Qed.

(** The loop ends, since every round starts above the CPU of the one before, and it
    reaches every CPU of the mask. *)
Lemma wp_flip_loop b fuel mask start s :
  topology → core_machine s → (∀ c, c ∈ mask_cpus mask → c ∈ mask_cpus cpu_online_mask) → 0 <= start →
  nr_cpu_ids - start <= Z.of_nat fuel →
  wp (flip_loop fuel mask start b) s (λ _ s', flipped b s s' ∧
    ∀ c, c ∈ mask_cpus mask → start <= c → enabled_at s' c = Some b).
Proof.
  intros Htp. revert mask start s. induction fuel as [|fuel IH]; intros mask start s Hm Hon Hst Hfuel; cbn [flip_loop].
  all: destruct (head _) as [c|] eqn:Hh.
  2, 4: apply wp_skip; split; [by split; auto|]; intros c Hc Hle; exfalso;
    assert (c ∈ filter (λ c, start <= c) (mask_cpus mask)) as Hin by (by apply list_elem_of_filter);
    destruct (filter _ _); [set_solver|done].
  all: apply head_filter in Hh as (l1&l2&Hl&Hl1&Hsc); assert (c ∈ mask_cpus mask) as Hc by (rewrite Hl; set_solver);
    pose proof (proj1 (elem_of_mask _ _) Hc) as [_ Hcr].
  { lia. }
  pose proof (Hon c Hc) as Hco. apply wp_bind, wp_set_enabled.
  { intros i Hi. apply (cm_rq _ Hm). by eapply (tp_smt Htp). }
  intros s1 Hf1 He1. apply wp_bind. eapply (wp_leader_flipped b); [by eapply flipped_machine|done|]. intros s2 Hf2 He2.
  assert (flipped b s s2) as Hf12 by by eapply flipped_trans.
  eapply wp_mono; [apply IH; [by eapply flipped_machine| |lia|lia]|].
  { intros i [Hi _]%elem_of_minus. auto. }
  intros [] s3 [Hf3 He3]. split; [by eapply flipped_trans|]. intros i Hi Hle.
  destruct (decide (i ∈ mask_cpus (cpu_smt_mask c))) as [Hsm|Hsm].
  - eapply flipped_stays; [done|]. rewrite He2. auto.
  - apply He3; [by apply elem_of_minus|]. assert (i ≠ c) by (intros ->; by apply Hsm, (tp_self Htp)).
    assert (¬ i < c); [|lia]. intros Hlt. rewrite Forall_forall in Hl1.
    apply (Hl1 i); [by eapply mask_cpus_before|done].
Qed.

(** All possible CPUs end up with the new setting. *)
Lemma wp_core_flip b s :
  topology → core_machine s →
  wp (__sched_core_flip b) s (λ _ s', flipped b s s' ∧ ∀ c, c ∈ mask_cpus cpu_possible_mask → enabled_at s' c = Some b).
Proof.
  intros Htp Hm. unfold __sched_core_flip. apply wp_bind. eapply wp_mono; [apply wp_flip_loop; [done..|lia]|].
  intros [] s1 [Hf1 He1]. apply wp_set_enabled.
  { intros i [Hi _]%elem_of_minus. apply (cm_rq _ (flipped_machine _ _ _ Hf1 Hm) i Hi). }
  intros s2 Hf2 He2. split; [by eapply flipped_trans|]. intros c Hc. destruct (decide (c ∈ mask_cpus cpu_online_mask)) as [Ho|Ho].
  - eapply flipped_stays; [done|]. apply He1; [done|]. apply elem_of_mask in Ho. lia.
  - apply He2. by apply elem_of_minus.
Qed.

(** The users of core scheduling: [refs] of them hold a reference, [work] says that the
    work item of a last [sched_core_put] has not run yet. *)
Inductive switch_step : kstate * (nat * bool) → kstate * (nat * bool) → Prop :=
  | sw_get s refs work s' :
      sched_core_get s = Ok (tt, s') → switch_step (s, (refs, work)) (s', (Datatypes.S refs, work))
  | sw_put s refs work b s' :
      sched_core_put s = Ok (b, s') → switch_step (s, (Datatypes.S refs, work)) (s', (refs, work || b))
  | sw_work s refs s' :
      __sched_core_put s = Ok (tt, s') → switch_step (s, (refs, true)) (s', (refs, false)).

(** The count covers the references and the work item; the key and the setting of every
    CPU say whether it is positive. *)
Record switch_inv (x : kstate * (nat * bool)) : Prop := {
  si_machine : core_machine x.1;
  si_count : core_count (k_core x.1) = Z.of_nat x.2.1 + (if x.2.2 then 1 else 0);
  si_key : core_key (k_core x.1) = bool_decide (0 < core_count (k_core x.1));
  si_cpus c : c ∈ mask_cpus cpu_possible_mask → enabled_at x.1 c = Some (core_key (k_core x.1));
}.

Lemma machine_global s f : core_machine s → core_machine (s <| k_core ::= f |>).
Proof. intros [H1 H2]. by split. Qed.

Lemma wp_sched_core_get s refs work :
  topology → switch_inv (s, (refs, work)) → wp sched_core_get s (λ _ s', switch_inv (s', (Datatypes.S refs, work))).
Proof.
  intros Htp [Hm Hn Hk Hc]. cbn in *. unfold sched_core_get. apply wp_bind, wp_get.
  destruct (Z.eqb_spec (core_count (k_core s)) 0) as [H0|H0]; cbn [when]; apply wp_bind.
  - unfold __sched_core_enable, upd_global. apply wp_bind, wp_modify. eapply wp_mono; [by apply wp_core_flip, machine_global|].
    intros [] s1 [Hf He]. apply wp_modify. pose proof (fl_global _ _ _ Hf) as Hg. cbn in Hg.
    split; cbn; [by eapply machine_global, flipped_machine, machine_global|rewrite Hg; cbn; lia|rewrite Hg; cbn|].
    + symmetry. apply bool_decide_eq_true. lia.
    + intros c Hcp. rewrite Hg. by apply He.
  - apply wp_skip, wp_modify. assert (core_key (k_core s) = true) as Hkt by (rewrite Hk; apply bool_decide_eq_true; destruct work; lia).
    split; cbn; [by apply machine_global|lia| |by apply Hc].
    rewrite Hkt. symmetry. apply bool_decide_eq_true. destruct work; lia.
Qed.

(** Core scheduling is on, for all CPUs, exactly while somebody holds a reference or the
    work item of the last put is still to run; the work item is never needed twice. *)
Theorem core_switch_invariant x y : topology → switch_inv x → rtc switch_step x y → switch_inv y.
Proof.
  intros Htp Hx Hr. induction Hr as [|x y z Hst _ IH]; [done|]. apply IH. clear IH z.
  destruct Hst as [s refs work s' Hop|s refs work b s' Hop|s refs s' Hop].
  - pose proof (wp_sched_core_get s refs work Htp Hx) as Hw. unfold wp in Hw. by rewrite Hop in Hw.
  - destruct Hx as [Hm Hn Hk Hc]. cbn in *. unfold sched_core_put, mbind, M_bind, get in Hop.
    destruct (Z.eqb_spec (core_count (k_core s)) 1) as [H1|H1].
    + injection Hop as <- <-. destruct work; [lia|]. split; cbn; [done|lia|done|done].
    + unfold upd_global, modify, mret, M_ret in Hop. injection Hop as <- <-. rewrite orb_false_r.
      split; cbn; [by apply machine_global|lia| |done]. rewrite Hk. apply bool_decide_ext. destruct work; lia.
  - destruct Hx as [Hm Hn Hk Hc]. cbn in *.
    assert (wp __sched_core_put s (λ _ s', switch_inv (s', (refs, false)))) as Hw; [|unfold wp in Hw; by rewrite Hop in Hw].
    unfold __sched_core_put, upd_global. apply wp_bind, wp_modify, wp_bind, wp_get. cbn.
    destruct (Z.eqb_spec (core_count (k_core s) - 1) 0) as [H0|H0]; cbn [when].
    + unfold __sched_core_disable, upd_global. apply wp_bind. eapply wp_mono; [by apply wp_core_flip, machine_global|].
      intros [] s1 [Hf He]. apply wp_modify. pose proof (fl_global _ _ _ Hf) as Hg. cbn in Hg.
      split; cbn; [by eapply machine_global, flipped_machine, machine_global|rewrite Hg; cbn; lia|rewrite Hg; cbn|].
      * symmetry. apply bool_decide_eq_false. lia.
      * intros c Hcp. by apply He.
    + apply wp_skip. split; cbn; [by apply machine_global|lia| |done]. rewrite Hk. apply bool_decide_ext. lia.
Qed.
End switch.
