(* ===== verification/Hotplug.v ===== *)
(** CPU hotplug (kernel/sched/core.c): what the scheduler does when a CPU starts, becomes
    active, is deactivated and dies, with the remote tick of CPUs that have none of their
    own; the machine of all CPUs that go up and down, with its invariant; and suspend.

    [cpu_up] and [cpu_down] of kernel/cpu.c are not in the repository: the machine is the
    order of the calls they make, one CPU at a time.  Memory maps of idle tasks and the
    run-queue clock are not part of the state. *)
From stdpp Require Import sets.
From S2P Require Import Prelude Rbtree KState HvfValue HvfClass HvfSmp Policy Uclamp Core Schedule Load Setsched Wakeup WakeupSpec Affinity Balance CoreSched CoreSchedSpec CoreSelect CoreSwitch.

(** * State *)

Definition TICK_SCHED_REMOTE_OFFLINE := 0.
Definition TICK_SCHED_REMOTE_OFFLINING := 1.
Definition TICK_SCHED_REMOTE_RUNNING := 2.

(** [struct tick_work]: its state; whether its work is queued; how many handlers run and
    have yet to look at the state, and how many have found it running and have yet to queue
    the work again. *)
Record tick_work := { tw_state : Z; tw_pending : bool; tw_run : nat; tw_requeue : nat }.
#[export] Instance eta_tick_work : Eta tick_work := λ r,
  {| tw_state := tw_state r; tw_pending := tw_pending r; tw_run := tw_run r; tw_requeue := tw_requeue r |}.

(** [struct root_domain]: its CPUs and those online. *)
Record root_domain := { rd_span : Z; rd_online : Z }.
#[export] Instance eta_root_domain : Eta root_domain := λ r, {| rd_span := rd_span r; rd_online := rd_online r |}.

(** The fields of [struct rq] that only hotplug uses. *)
Record hp_rq := {
  rq_online : bool; rq_rd : option nat; rq_calc_load_update : Z; rq_calc_load_active : Z; rq_hrtick_active : bool
}.
#[export] Instance eta_hp_rq : Eta hp_rq := λ r,
  {| rq_online := rq_online r; rq_rd := rq_rd r; rq_calc_load_update := rq_calc_load_update r;
     rq_calc_load_active := rq_calc_load_active r; rq_hrtick_active := rq_hrtick_active r |}.

(** The [WARN_ON_ONCE] of a callback list that is in use when the push is installed, of
    the leader of a core, of the state of a remote tick, of a remote tick that is late,
    and of a CPU that dies with tasks. *)
Inductive hp_warning :=
| warn_callbacks (c : Z) | warn_leader (c : Z) | warn_tick_state (c : Z) | warn_late_tick (c : Z) | warn_not_vacated (c : Z).

(** Calls of functions whose effects are not part of the state, and warnings. *)
Inductive hp_call :=
| call_rq_online (class : sched_class_id) (c : Z) | call_rq_offline (class : sched_class_id) (c : Z)
| call_scx_activate (c : Z) | call_scx_deactivate (c : Z)
| call_update_numa (c : Z) (online : bool) | call_numa_masks_set (c : Z) | call_numa_masks_clear (c : Z)
| call_nohz_exit_idle (c : Z) | call_synchronize_rcu | call_update_max_interval | call_force_init_mm
| call_calc_load_nohz_remote (c : Z)
| call_cpuset_reset | call_cpuset_force_rebuild | call_cpuset_update
| call_printk (tasks : list tid)
| call_warn (w : hp_warning).

(** [h_online] are the online CPUs, which the architecture has put into the masks of
    siblings. *)
Record hstate := {
  h_k : kstate; h_rqs : gmap Z hp_rq; h_rds : gmap nat root_domain; h_ticks : gmap Z tick_work;
  h_online : Z; h_active : Z; h_smt_present : Z;
  cpuhp_tasks_frozen : bool; num_cpus_frozen : Z; sched_smp_initialized : bool;
  h_calc_load_update : Z; h_calc_load_tasks : Z; h_log : list hp_call
}.
#[export] Instance eta_hstate : Eta hstate := λ r,
  {| h_k := h_k r; h_rqs := h_rqs r; h_rds := h_rds r; h_ticks := h_ticks r; h_online := h_online r;
     h_active := h_active r; h_smt_present := h_smt_present r; cpuhp_tasks_frozen := cpuhp_tasks_frozen r;
     num_cpus_frozen := num_cpus_frozen r; sched_smp_initialized := sched_smp_initialized r;
     h_calc_load_update := h_calc_load_update r; h_calc_load_tasks := h_calc_load_tasks r; h_log := h_log r |}.
Implicit Types (h : hstate) (c : Z).

(** * The monad *)

Definition HM (A : Type) : Type := hstate → res (A * hstate).
#[export] Instance HM_ret : MRet HM := λ A a h, Ok (a, h).
#[export] Instance HM_bind : MBind HM := λ A B k m h, match m h with Ok (a, h') => k a h' | Oops o => Oops o end.
Definition hget {A} (f : hstate → A) : HM A := λ h, Ok (f h, h).
Definition hmod (f : hstate → hstate) : HM unit := λ h, Ok (tt, f h).
Definition hskip : HM unit := mret tt.
Definition hwhen (b : bool) (m : HM unit) : HM unit := if b then m else hskip.
Definition hbug : HM unit := λ _, Oops kernel_bug.
Definition call (e : hp_call) : HM unit := hmod (λ h, h <| h_log ::= λ l, l ++ [e] |>).
Definition warn_on (w : hp_warning) (b : bool) : HM unit := hwhen b (call (call_warn w)).
Definition hfind {K A} `{Countable K} (f : hstate → gmap K A) (k : K) : HM A := λ h,
  match f h !! k with Some a => Ok (a, h) | None => Oops bad_pointer end.
Definition hp_rq_of (c : Z) : HM hp_rq := hfind h_rqs c.
Definition upd_hp_rq (c : Z) (f : hp_rq → hp_rq) : HM unit :=
  q ← hp_rq_of c; hmod (λ h, h <| h_rqs := <[c := f q]> (h_rqs h) |>).
Definition upd_rd (d : nat) (f : root_domain → root_domain) : HM unit :=
  R ← hfind h_rds d; hmod (λ h, h <| h_rds := <[d := f R]> (h_rds h) |>).
Definition upd_tick (c : Z) (f : tick_work → tick_work) : HM unit :=
  w ← hfind h_ticks c; hmod (λ h, h <| h_ticks := <[c := f w]> (h_ticks h) |>).
(** The code of the other files runs on the kernel state. *)
Definition lift {A} (m : M A) : HM A := λ h,
  match m (h_k h) with Ok (a, k) => Ok (a, h <| h_k := k |>) | Oops o => Oops o end.

(** * What hotplug calls *)

(** The threads of a core, present or not; bandwidth of deadline tasks; the rebuild of
    scheduling domains, by the topology code on behalf of cpusets; which classes have
    callbacks; CPUs with a tick of their own; load averages: the change of a CPU's share
    and the new share; and the time since the running task was charged, the difference of
    the run-queue clock and [se.exec_start] once the clock is up to date. *)
Class HpLib := {
  core_threads : Z → Z;
  dl_bw_deactivate : Z → hstate → Z;
  cpuset_reset_domains : hstate → hstate;
  cpuset_rebuild_flag : hstate → hstate;
  cpuset_update_domains : hstate → hstate;
  class_has_rq_online : sched_class_id → bool;
  class_has_rq_offline : sched_class_id → bool;
  housekeeping_cpu : Z → bool;
  tick_nohz_tick_stopped_cpu : Z → bool;
  calc_load_fold_active : rq → Z → Z → Z * Z;
  tick_delta : rq → task_struct → Z;
}.

Section hotplug.
Context {L : RbLib} {TC : TickConfig} {S : SmpLib} {UC : UclampConfig} {E : Ext}
  {OC : OtherClasses} {CL : CpuLib} {AL : AffLib} {SL : SysLib} {UM : UserMem} {HL : HotplugLib}
  {CO : CoreLib} {HP : HpLib}.

(** Core scheduling with the masks of siblings of this moment. *)
Definition smt_mask h c : Z := Z.land (h_online h) (core_threads c).
Definition smt_now h : CoreLib := {|
  rb_add := rb_add; rb_find_first := rb_find_first; cpu_smt_mask := smt_mask h; cpu_is_offline := cpu_is_offline;
  sched_domain_spans := sched_domain_spans; other_is_throttled := other_is_throttled;
  task_vruntime_update := task_vruntime_update; sched_core_account_forceidle := sched_core_account_forceidle;
  dl_deadline_of := dl_deadline_of; dl_server_deadline := dl_server_deadline; cfs_prio_less := cfs_prio_less;
  scx_prio_less := scx_prio_less; schedstat_enabled := schedstat_enabled; rq_clock := rq_clock |}.
Definition with_smt {A} (m : CoreLib → M A) : HM A := h ← hget id; lift (m (smt_now h)).

(** * Run queues on and off line *)

Fixpoint calls (l : list hp_call) : HM unit := match l with [] => hskip | e :: l' => call e;; calls l' end.

Definition set_rq_online (c : Z) : HM unit :=
  q ← hp_rq_of c;
  if rq_online q then hskip else
  match rq_rd q with
  | None => λ _, Oops bad_pointer
  | Some d =>
      upd_rd d (λ R, R <| rd_online ::= λ o, Z.setbit o c |>);;
      upd_hp_rq c (λ q, q <| rq_online := true |>);;
      calls ((λ k, call_rq_online k c) <$> filter (λ k, class_has_rq_online k = true) SCHED_DATA)
  end.

Definition set_rq_offline (c : Z) : HM unit :=
  q ← hp_rq_of c;
  if negb (rq_online q) then hskip else
  calls ((λ k, call_rq_offline k c) <$> filter (λ k, class_has_rq_offline k = true) SCHED_DATA);;
  match rq_rd q with
  | None => λ _, Oops bad_pointer
  | Some d =>
      upd_rd d (λ R, R <| rd_online ::= λ o, Z.clearbit o c |>);;
      upd_hp_rq c (λ q, q <| rq_online := false |>)
  end.

Definition in_root_domain (c : Z) (m : HM unit) : HM unit :=
  q ← hp_rq_of c;
  match rq_rd q with
  | None => hskip
  | Some d => R ← hfind h_rds d; if negb (Z.testbit (rd_span R) c) then hbug else m
  end.
Definition sched_set_rq_online (c : Z) : HM unit := in_root_domain c (set_rq_online c).
Definition sched_set_rq_offline (c : Z) : HM unit := in_root_domain c (set_rq_offline c).

(** * Cpusets *)

Definition cpuset_reset_sched_domains : HM unit := call call_cpuset_reset;; hmod cpuset_reset_domains.
Definition cpuset_force_rebuild : HM unit := call call_cpuset_force_rebuild;; hmod cpuset_rebuild_flag.
Definition cpuset_update_active_cpus : HM unit := call call_cpuset_update;; hmod cpuset_update_domains.

Definition cpuset_cpu_active : HM unit :=
  frozen ← hget cpuhp_tasks_frozen;
  if (frozen : bool) then
    cpuset_reset_sched_domains;;
    hmod (λ h, h <| num_cpus_frozen ::= λ n, wrap32 (n - 1) |>);;
    n ← hget num_cpus_frozen;
    if negb (n =? 0) then hskip else cpuset_force_rebuild;; cpuset_update_active_cpus
  else cpuset_update_active_cpus.

Definition cpuset_cpu_inactive : HM unit :=
  frozen ← hget cpuhp_tasks_frozen;
  if negb frozen then cpuset_update_active_cpus
  else hmod (λ h, h <| num_cpus_frozen ::= λ n, wrap32 (n + 1) |>);; cpuset_reset_sched_domains.

(** * The number of cores with several threads *)

Definition sched_smt_present_inc (c : Z) : HM unit :=
  h ← hget id; hwhen (cpumask_weight (smt_mask h c) =? 2) (hmod (λ h, h <| h_smt_present ::= λ n, n + 1 |>)).
Definition sched_smt_present_dec (c : Z) : HM unit :=
  h ← hget id; hwhen (cpumask_weight (smt_mask h c) =? 2) (hmod (λ h, h <| h_smt_present ::= λ n, n - 1 |>)).
Definition sched_smt_active : HM bool := hget (λ h, negb (h_smt_present h <=? 0)).

Definition set_cpu_active (c : Z) (on : bool) : HM unit :=
  hmod (λ h, h <| h_active ::= λ a, if on then Z.setbit a c else Z.clearbit a c |>).

(** * The remote tick *)

(** [queue_delayed_work] does nothing for a work that is queued. *)
Definition queue_delayed_work (c : Z) : HM unit := upd_tick c (λ w, w <| tw_pending := true |>).

(** The works are allocated at boot, before a CPU that needs one starts. *)
Definition sched_tick_start (c : Z) : HM unit :=
  if housekeeping_cpu c then hskip else
  w ← hfind h_ticks c;
  let os := tw_state w in
  upd_tick c (λ w, w <| tw_state := TICK_SCHED_REMOTE_RUNNING |>);;
  warn_on (warn_tick_state c) (os =? TICK_SCHED_REMOTE_RUNNING);;
  hwhen (os =? TICK_SCHED_REMOTE_OFFLINE)
    (upd_tick c (λ w, w <| tw_pending := false |>);; queue_delayed_work c).

Definition sched_tick_stop (c : Z) : HM unit :=
  if housekeeping_cpu c then hskip else
  w ← hfind h_ticks c;
  let os := tw_state w in
  upd_tick c (λ w, w <| tw_state := TICK_SCHED_REMOTE_OFFLINING |>);;
  warn_on (warn_tick_state c) (negb (os =? TICK_SCHED_REMOTE_RUNNING)).

(** The work: the tick itself, the look at the state, and queueing the work again. *)
Definition remote_tick (c : Z) : M unit :=
  r ← cpu_rq c;
  o ← ops_of (curr r);
  f ← call_null (op_task_tick o);
  f c (curr r) 0.
(** The flag is PF_IDLE; [donor] is [curr] in this configuration. *)
Definition is_idle_task (t : task_struct) : bool := has (t_flags t) 0x00000002.
Definition tick_is_late (r : rq) (t : task_struct) : bool :=
  negb (is_idle_task t) && (1000000000 * 3 <? tick_delta r t).
Definition sched_tick_remote_tick (c : Z) : HM unit :=
  online ← hget (λ h, Z.testbit (h_online h) c);
  hwhen (tick_nohz_tick_stopped_cpu c && online)
    (r ← lift (cpu_rq c);
     t ← lift (task (curr r));
     warn_on (warn_late_tick c) (tick_is_late r t);;
     lift (remote_tick c);;
     call (call_calc_load_nohz_remote c)).
Definition sched_tick_remote_state (c : Z) : HM bool :=
  w ← hfind h_ticks c;
  let os := tw_state w in
  hwhen (negb (os =? TICK_SCHED_REMOTE_RUNNING)) (upd_tick c (λ w, w <| tw_state ::= λ n, n + -1 |>));;
  warn_on (warn_tick_state c) (os =? TICK_SCHED_REMOTE_OFFLINE);;
  mret (os =? TICK_SCHED_REMOTE_RUNNING).
Definition sched_tick_remote (c : Z) : HM unit :=
  sched_tick_remote_tick c;;
  again ← sched_tick_remote_state c;
  hwhen again (queue_delayed_work c).

(** * The callbacks of hotplug *)

Definition sched_rq_cpu_starting (c : Z) : HM unit :=
  u ← hget h_calc_load_update;
  upd_hp_rq c (λ q, q <| rq_calc_load_update := u |>);;
  call call_update_max_interval.

Definition sched_cpu_starting (c : Z) : HM Z :=
  w ← with_smt (λ CO', sched_core_cpu_starting (CO := CO') c);
  warn_on (warn_leader c) w;;
  sched_rq_cpu_starting c;;
  sched_tick_start c;;
  mret 0.

Definition sched_cpu_activate (c : Z) : HM Z :=
  w ← lift (balance_push_set c false);
  warn_on (warn_callbacks c) w;;
  sched_smt_present_inc c;;
  set_cpu_active c true;;
  init ← hget sched_smp_initialized;
  hwhen init (call (call_update_numa c true);; call (call_numa_masks_set c);; cpuset_cpu_active);;
  call (call_scx_activate c);;
  sched_set_rq_online c;;
  mret 0.

Definition sched_cpu_deactivate (c : Z) : HM Z :=
  ret ← hget (dl_bw_deactivate c);
  if negb (ret =? 0) then mret ret else
  call (call_nohz_exit_idle c);;
  set_cpu_active c false;;
  w ← lift (balance_push_set c true);
  warn_on (warn_callbacks c) w;;
  call call_synchronize_rcu;;
  sched_set_rq_offline c;;
  call (call_scx_deactivate c);;
  sched_smt_present_dec c;;
  w ← with_smt (λ CO', sched_core_cpu_deactivate (CO := CO') c);
  warn_on (warn_leader c) w;;
  init ← hget sched_smp_initialized;
  if negb init then mret 0 else
  call (call_update_numa c false);;
  cpuset_cpu_inactive;;
  call (call_numa_masks_clear c);;
  mret 0.

(** After the wait: the condition of [balance_hotplug_wait] holds. *)
Definition sched_cpu_wait_empty (c : Z) : HM (option Z) :=
  r ← lift (cpu_rq c);
  if hotplug_quiescent r then call call_force_init_mm;; mret (Some 0) else mret None.

Definition calc_load_migrate (c : Z) : HM unit :=
  r ← lift (cpu_rq c);
  q ← hp_rq_of c;
  let '(delta, active) := calc_load_fold_active r (rq_calc_load_active q) 1 in
  upd_hp_rq c (λ q, q <| rq_calc_load_active := active |>);;
  hwhen (negb (delta =? 0)) (hmod (λ h, h <| h_calc_load_tasks ::= λ n, wrap64 (n + delta) |>)).

Definition dump_rq_tasks (c : Z) : HM unit :=
  ts ← hget (λ h, k_tasks (h_k h));
  call (call_printk (fst <$> filter (λ pt, cpu (snd pt) = c ∧ task_on_rq_queued (snd pt) = true) (map_to_list ts))).

Definition hrtick_clear (c : Z) : HM unit :=
  q ← hp_rq_of c; hwhen (rq_hrtick_active q) (upd_hp_rq c (λ q, q <| rq_hrtick_active := false |>)).

Definition sched_cpu_dying (c : Z) : HM Z :=
  sched_tick_stop c;;
  r ← lift (cpu_rq c);
  hwhen (negb (nr_running r =? 1) || rq_has_pinned_tasks r) (call (call_warn (warn_not_vacated c));; dump_rq_tasks c);;
  calc_load_migrate c;;
  call call_update_max_interval;;
  hrtick_clear c;;
  lift (sched_core_cpu_dying c);;
  mret 0.

Definition migration_init : HM Z := c ← lift smp_processor_id; sched_cpu_starting c;; mret 0.

(** * The machine of CPUs that go up and down *)

(** The steps of the hotplug thread, the wait for the CPU to be empty and its death being
    two of them; of code that queues balance callbacks while it holds the lock of the run
    queue, and takes them off the list before it lets go of it; of the push; and of the
    remote tick. *)
Inductive hp_op :=
| op_start (c : Z) | op_activate (c : Z) | op_deactivate (c : Z) | op_wait (c : Z) | op_dying (c : Z)
| op_queue (c : Z) (cbs : list (bcb_head * bcb_func)) | op_push (c : Z)
| op_tick (c : Z) | op_tick_state (c : Z) | op_tick_queue (c : Z).

Definition run_push (f : bcb_func) (c : Z) : M unit :=
  match f with balance_push_fn => balance_push c | _ => skip end.

Fixpoint queue_all (c : Z) (cbs : list (bcb_head * bcb_func)) : M unit :=
  match cbs with [] => skip | (head, func) :: cbs' => queue_balance_callback c head func;; queue_all c cbs' end.

(** [mid] is the CPU that is online and not active; the result says which one it is
    afterwards. *)
Definition run_op (op : hp_op) (mid : option Z) : HM (option Z) :=
  match op with
  | op_start c => hmod (λ h, h <| h_online ::= λ o, Z.setbit o c |>);; sched_cpu_starting c;; mret (Some c)
  | op_activate c => sched_cpu_activate c;; mret None
  | op_deactivate c => ret ← sched_cpu_deactivate c; mret (if ret =? 0 then Some c else None)
  | op_wait c => sched_cpu_wait_empty c;; mret mid
  | op_dying c => sched_cpu_dying c;; hmod (λ h, h <| h_online ::= λ o, Z.clearbit o c |>);; mret None
  | op_queue c cbs => lift (queue_all c cbs;; splice_balance_callbacks c);; mret mid
  | op_push c => lift (__balance_callbacks run_push 1 c);; mret mid
  | op_tick c =>
      upd_tick c (λ w, w <| tw_pending := false |> <| tw_run ::= Datatypes.S |>);;
      sched_tick_remote_tick c;; mret mid
  | op_tick_state c =>
      again ← sched_tick_remote_state c;
      upd_tick c (λ w, w <| tw_run ::= pred |> <| tw_requeue ::= λ n, if (again : bool) then Datatypes.S n else n |>);;
      mret mid
  | op_tick_queue c => upd_tick c (λ w, w <| tw_requeue ::= pred |>);; queue_delayed_work c;; mret mid
  end.

(** The rest of the scheduler changes neither who leads a core nor whether a CPU pushes
    its tasks away, and leaves no callback behind when it lets go of a run queue. *)
Definition callback_of (k : kstate) c : option (option bcb_head) := balance_callback <$> k_rqs k !! c.
Record sched_frame (k k' : kstate) : Prop := {
  sf_core c : core <$> core_at k' c = core <$> core_at k c;
  sf_cb c : callback_of k' c = callback_of k c;
  sf_head : k_heads k' balance_push_callback = k_heads k balance_push_callback;
}.

Definition possible c : Prop := c ∈ mask_cpus cpu_possible_mask.
Definition may_run (op : hp_op) h (mid : option Z) : Prop :=
  match op with
  | op_start c => mid = None ∧ possible c ∧ Z.testbit (h_online h) c = false
  | op_activate c | op_wait c | op_dying c => mid = Some c
  | op_deactivate c => mid = None ∧ Z.testbit (h_online h) c = true
  | op_queue c cbs => possible c ∧ Forall (λ cb, cb.1 ≠ balance_push_callback) cbs
  | op_push c => ∃ r, k_rqs (h_k h) !! c = Some r ∧ balance_callback r = Some balance_push_callback ∧ is_Some (k_tasks (h_k h) !! curr r)
  | op_tick c => (∃ w, h_ticks h !! c = Some w ∧ tw_pending w = true) ∧
      wp (remote_tick c) (h_k h) (λ _ k, sched_frame (h_k h) k)
  | op_tick_state c => ∃ w, h_ticks h !! c = Some w ∧ (0 < tw_run w)%nat
  | op_tick_queue c => ∃ w, h_ticks h !! c = Some w ∧ (0 < tw_requeue w)%nat
  end.

Inductive hp_step : hstate * option Z → hstate * option Z → Prop :=
| hp_step_op op h mid h' mid' : may_run op h mid → run_op op mid h = Ok (mid', h') → hp_step (h, mid) (h', mid')
| hp_step_sched h mid k : sched_frame (h_k h) k → hp_step (h, mid) (h <| h_k := k |>, mid)
| hp_step_freeze h mid b : hp_step (h, mid) (h <| cpuhp_tasks_frozen := b |>, mid).

(** * The invariant *)

(** The CPUs that run ordinary tasks. *)
Definition in_use h (mid : option Z) : Z := match mid with Some c => Z.clearbit (h_online h) c | None => h_online h end.

(** The cores with several threads among the CPUs of a mask. *)
Definition threads_in (mask core : Z) : list Z := mask_cpus (Z.land mask core).
Definition smt_cores (mask : Z) : gset Z :=
  filter (λ m, (2 <= length (threads_in mask m))%nat) (list_to_set (core_threads <$> mask_cpus cpu_possible_mask)).

(** A run queue is in a root domain, which has it on line when it is. *)
Definition attached (rds : gmap nat root_domain) c (q : hp_rq) : Prop :=
  ∃ d R, rq_rd q = Some d ∧ rds !! d = Some R ∧ Z.testbit (rd_span R) c = true ∧ Z.testbit (rd_online R) c = rq_online q.
Definition rqs_ok (P : Z → Prop) h (mask : Z) : Prop :=
  ∀ c, possible c → ∃ q, h_rqs h !! c = Some q ∧ attached (h_rds h) c q ∧ (P c → rq_online q = Z.testbit mask c).

(** Every CPU that is not in use pushes its tasks away, and no callback waits on those
    that are. *)
Record push_ok (k : kstate) (mask : Z) : Prop := {
  po_cb c : possible c → callback_of k c = Some (if Z.testbit mask c then None else Some balance_push_callback);
  po_head : bc_next (k_heads k balance_push_callback) = None ∧ bc_func (k_heads k balance_push_callback) = balance_push_fn;
}.
(** The online threads of a core have one leader, which is in use if there is a choice. *)
Definition lead_ok (k : kstate) (online : Z) (mid : option Z) : Prop :=
  (∀ c, possible c → Z.testbit online c = true →
     ∃ l, led k (threads_in online (core_threads c)) l ∧ (mid = Some l → threads_in online (core_threads c) = [l])) ∧
  (∀ c, possible c → Z.testbit online c = false → core <$> core_at k c = Some c).

(** The remote tick of a CPU: while it is not off line, its work is queued, runs or is
    about to be queued, in one place only. *)
Definition tick_places (w : tick_work) : nat := ((if tw_pending w then 1 else 0) + tw_run w + tw_requeue w)%nat.
Definition tick_ok (w : tick_work) (on : bool) : Prop :=
  tick_places w = (if decide (tw_state w = TICK_SCHED_REMOTE_OFFLINE) then 0 else 1)%nat ∧
  (if on then tw_state w = TICK_SCHED_REMOTE_RUNNING
   else tw_state w = TICK_SCHED_REMOTE_OFFLINE ∨ tw_state w = TICK_SCHED_REMOTE_OFFLINING).
Definition ticks_ok (ts : gmap Z tick_work) (online : Z) : Prop :=
  (∀ c, possible c → is_Some (ts !! c)) ∧
  ∀ c w, ts !! c = Some w → tick_ok w (Z.testbit online c && negb (housekeeping_cpu c)).

Record hp_inv (x : hstate * option Z) : Prop := {
  hi_online c : Z.testbit (h_online x.1) c = true → possible c;
  hi_mid c : x.2 = Some c → Z.testbit (h_online x.1) c = true;
  hi_active : h_active x.1 = in_use x.1 x.2;
  hi_smt : h_smt_present x.1 = Z.of_nat (size (smt_cores (in_use x.1 x.2)));
  hi_rqs : rqs_ok (λ _, True) x.1 (in_use x.1 x.2);
  hi_push : push_ok (h_k x.1) (in_use x.1 x.2);
  hi_lead : lead_ok (h_k x.1) (h_online x.1) x.2;
  hi_ticks : ticks_ok (h_ticks x.1) (h_online x.1);
}.

(** The warnings printed so far, and those a step is expected to print: that a CPU dies
    with more than the hotplug thread on its run queue, or with tasks that cannot leave it,
    and that a remote tick comes more than three seconds after the last charge. *)
Definition warning_of (e : hp_call) : option hp_warning := match e with call_warn w => Some w | _ => None end.
Definition warnings h : list hp_warning := omap warning_of (h_log h).
Definition due_warnings (op : hp_op) h : list hp_warning :=
  match op with
  | op_dying c => match k_rqs (h_k h) !! c with
                  | Some r => if hotplug_quiescent r then [] else [warn_not_vacated c] | None => [] end
  | op_tick c => match k_rqs (h_k h) !! c ≫= λ r, (λ t, (r, t)) <$> k_tasks (h_k h) !! curr r with
                 | Some (r, t) => if tick_nohz_tick_stopped_cpu c && Z.testbit (h_online h) c && tick_is_late r t
                                  then [warn_late_tick c] else []
                 | None => [] end
  | _ => []
  end.

(** What hotplug relies on: the threads of a core agree on it; rebuilding the domains
    moves run queues between root domains, puts the run queues of active CPUs on line at
    most, and touches nothing else; waking the hotplug thread leaves the run queues alone. *)
Record rebuilds (f : hstate → hstate) : Prop := {
  rb_same h : ∃ rqs rds, f h = h <| h_rqs := rqs |> <| h_rds := rds |>;
  rb_attached h c q : h_rqs h !! c = Some q → attached (h_rds h) c q →
    ∃ q', h_rqs (f h) !! c = Some q' ∧ attached (h_rds (f h)) c q' ∧
      (rq_online q' = rq_online q ∨ rq_online q' = Z.testbit (h_active h) c);
}.
Class HpLaws : Prop := {
  threads_self c : possible c → Z.testbit (core_threads c) c = true;
  threads_same c d : possible c → possible d → Z.testbit (core_threads c) d = true → core_threads d = core_threads c;
  reset_rebuilds : rebuilds cpuset_reset_domains;
  flag_rebuilds : rebuilds cpuset_rebuild_flag;
  update_rebuilds : rebuilds cpuset_update_domains;
  wake_up_frame c k : wp (rcuwait_wake_up c) k (λ _ k', sched_frame k k');
}.
End hotplug.
