(* ===== verification/HotplugParts.v ===== *)
(** The parts of CPU hotplug: rules for its code, masks of CPUs, the leaders of cores, run
    queues on line, cpusets, and what each part of a callback leaves alone. *)
From stdpp Require Import sets.
From S2P Require Import Prelude Rbtree KState HvfValue HvfClass HvfSmp Policy Uclamp Core Schedule Load Setsched Wakeup WakeupSpec Affinity Balance CoreSched CoreSchedSpec CoreSelect CoreSwitch Hotplug.
Implicit Types (h : hstate) (c : Z).

(** The groups of fields a part of a callback may change. *)
Inductive hfield := f_k | f_rqs | f_ticks | f_active | f_smt | f_frozen | f_warn.
#[export] Instance hfield_eq_dec : EqDecision hfield.
Proof. solve_decision. Defined.
(** Membership in a list of fields is decided by computation. *)
Ltac fields := solve [done | apply (bool_decide_unpack _); vm_compute; exact I].

Section parts.
Context {L : RbLib} {TC : TickConfig} {S : SmpLib} {UC : UclampConfig} {E : Ext}
  {OC : OtherClasses} {CL : CpuLib} {AL : AffLib} {SL : SysLib} {UM : UserMem} {HL : HotplugLib}
  {CO : CoreLib} {HP : HpLib} {HPL : HpLaws}.

(** * Rules *)

Definition hwp {A} (m : HM A) h (Q : A → hstate → Prop) : Prop := match m h with Ok (a, h') => Q a h' | Oops _ => False end.
Section rules.
Context {A B : Type}.
Implicit Types (Q : A → hstate → Prop).
Lemma hwp_ret (a : A) h Q : Q a h → hwp (mret a) h Q.
Proof. done. Qed.
Lemma hwp_bind (m : HM B) (k : B → HM A) h Q : hwp m h (λ b h', hwp (k b) h' Q) → hwp (m ≫= k) h Q.
Proof. unfold hwp, mbind, HM_bind. by destruct (m h) as [[? ?]|]. Qed.
Lemma hwp_mono (m : HM A) h Q Q' : hwp m h Q → (∀ a h', Q a h' → Q' a h') → hwp m h Q'.
Proof. unfold hwp. destruct (m h) as [[? ?]|]; auto. Qed.
Lemma hwp_get (f : hstate → A) h Q : Q (f h) h → hwp (hget f) h Q.
Proof. done. Qed.
Lemma hwp_lift (m : M A) h Q : wp m (h_k h) (λ a k, Q a (h <| h_k := k |>)) → hwp (lift m) h Q.
Proof. unfold hwp, lift, wp. by destruct (m (h_k h)) as [[? ?]|]. Qed.
Lemma hwp_find {K} `{Countable K} (f : hstate → gmap K A) i a h Q : f h !! i = Some a → Q a h → hwp (hfind f i) h Q.
Proof. unfold hwp, hfind. by intros ->. Qed.
End rules.
Lemma hwp_mod f h Q : Q tt (f h) → hwp (hmod f) h Q.
Proof. done. Qed.
Lemma hwp_when (b : bool) m h Q : (b = true → hwp m h Q) → (b = false → Q tt h) → hwp (hwhen b m) h Q.
Proof. destruct b; intros H1 H2; [by apply H1|by apply H2]. Qed.
Lemma hwp_upd_tick c f w h Q : h_ticks h !! c = Some w → Q tt (h <| h_ticks := <[c := f w]> (h_ticks h) |>) → hwp (upd_tick c f) h Q.
Proof. intros Hw HQ. apply hwp_bind. eapply hwp_find; [done|]. by apply hwp_mod. Qed.
Lemma hwp_upd_rq c f q h Q : h_rqs h !! c = Some q → Q tt (h <| h_rqs := <[c := f q]> (h_rqs h) |>) → hwp (upd_hp_rq c f) h Q.
Proof. intros Hq HQ. apply hwp_bind. eapply hwp_find; [done|]. by apply hwp_mod. Qed.
Lemma hwp_upd_rd d f R h Q : h_rds h !! d = Some R → Q tt (h <| h_rds := <[d := f R]> (h_rds h) |>) → hwp (upd_rd d f) h Q.
Proof. intros HR HQ. apply hwp_bind. eapply hwp_find; [done|]. by apply hwp_mod. Qed.

(** * Masks *)

Lemma possible_range c : possible c → 0 <= c < nr_cpu_ids.
Proof. intros [_ ?]%elem_of_mask. done. Qed.
Lemma elem_of_threads mask m c : c ∈ threads_in mask m ↔ Z.testbit mask c = true ∧ Z.testbit m c = true ∧ 0 <= c < nr_cpu_ids.
Proof. unfold threads_in. rewrite elem_of_mask, Z.land_spec, andb_true_iff. tauto. Qed.
Lemma testbit_clear mask c i : Z.testbit (Z.clearbit mask c) i = Z.testbit mask i && negb (c =? i).
Proof. apply Z.clearbit_eqb. Qed.
Lemma testbit_set mask c i : 0 <= c → Z.testbit (Z.setbit mask c) i = (c =? i) || Z.testbit mask i.
Proof. intros. by rewrite Z.setbit_eqb. Qed.
Lemma clear_set mask c : 0 <= c → Z.testbit mask c = false → Z.clearbit (Z.setbit mask c) c = mask.
Proof.
  intros Hc Hm. apply Z.bits_inj'. intros i Hi. rewrite testbit_clear, testbit_set by done.
  destruct (Z.eqb_spec c i) as [->|]; [by rewrite Hm|]. by rewrite andb_true_r.
Qed.
Lemma set_clear mask c : 0 <= c → Z.testbit mask c = true → Z.setbit (Z.clearbit mask c) c = mask.
Proof.
  intros Hc Hm. apply Z.bits_inj'. intros i Hi. rewrite testbit_set, testbit_clear by done.
  destruct (Z.eqb_spec c i) as [->|]; [by rewrite Hm|]. by rewrite andb_true_r.
Qed.
Lemma threads_clear_out mask m c : Z.testbit m c = false → threads_in (Z.clearbit mask c) m = threads_in mask m.
Proof.
  intros Hm. unfold threads_in, mask_cpus. apply list_filter_iff. intros i. rewrite !Z.land_spec, testbit_clear.
  destruct (Z.eqb_spec c i) as [<-|]; [rewrite Hm, !andb_false_r; done|]. by rewrite andb_true_r.
Qed.
Lemma threads_clear_in mask m c :
  0 <= c < nr_cpu_ids → Z.testbit m c = true → Z.testbit mask c = true → threads_in mask m ≡ₚ c :: threads_in (Z.clearbit mask c) m.
Proof.
  intros Hc Hm Hk. apply NoDup_Permutation; [apply mask_cpus_nodup|constructor; [|apply mask_cpus_nodup]|].
  - rewrite elem_of_threads, testbit_clear, Z.eqb_refl, andb_false_r. naive_solver.
  - intros i. rewrite elem_of_cons, !elem_of_threads, testbit_clear. destruct (Z.eqb_spec c i) as [<-|Hne]; [naive_solver|].
    rewrite andb_true_r. naive_solver.
Qed.
Lemma threads_clear mask m c : threads_in (Z.clearbit mask c) m = filter (λ i, i ≠ c) (threads_in mask m).
Proof.
  unfold threads_in, mask_cpus. rewrite list_filter_filter. apply list_filter_iff. intros i. rewrite !Z.land_spec, testbit_clear.
  destruct (Z.eqb_spec c i) as [<-|Hne]; [|rewrite andb_true_r; naive_solver]. rewrite andb_false_r. naive_solver.
Qed.

(** A CPU less: one core less with several threads exactly if two were online. *)
Lemma smt_cores_clear mask c :
  possible c → Z.testbit mask c = true →
  Z.of_nat (size (smt_cores mask)) =
  Z.of_nat (size (smt_cores (Z.clearbit mask c))) + (if cpumask_weight (Z.land mask (core_threads c)) =? 2 then 1 else 0).
Proof.
  intros Hp Hm. pose proof (possible_range c Hp) as Hr.
  pose proof (threads_clear_in mask _ c Hr (threads_self c Hp) Hm) as Hperm. apply Permutation_length in Hperm. cbn in Hperm.
  assert (∀ m, m ∈ (list_to_set (core_threads <$> mask_cpus cpu_possible_mask) : gset Z) → m ≠ core_threads c →
    threads_in (Z.clearbit mask c) m = threads_in mask m) as Hother.
  { intros m Hin Hne. apply threads_clear_out, not_true_is_false. intros Ht. apply elem_of_list_to_set, list_elem_of_fmap in Hin as (d&->&Hd).
    apply Hne. symmetry. by apply threads_same. }
  unfold cpumask_weight. change (mask_cpus (Z.land mask (core_threads c))) with (threads_in mask (core_threads c)).
  assert (core_threads c ∈ (list_to_set (core_threads <$> mask_cpus cpu_possible_mask) : gset Z)) as Hcc.
  { apply elem_of_list_to_set, list_elem_of_fmap. by exists c. }
  destruct (Z.eqb_spec (Z.of_nat (length (threads_in mask (core_threads c)))) 2) as [H2|H2].
  - assert (smt_cores mask = {[core_threads c]} ∪ smt_cores (Z.clearbit mask c)) as ->; [|rewrite size_union, size_singleton; [lia|]].
    + apply set_eq. intros m. unfold smt_cores. rewrite elem_of_union, !elem_of_filter, elem_of_singleton.
      destruct (decide (m = core_threads c)) as [->|Hne]; [split; [auto|intros _; split; [lia|done]]|].
      split; [intros [? ?]; right; rewrite Hother by done; done|intros [?|[Ha Hb]]; [done|]]. rewrite Hother in Ha by done. done.
    + apply disjoint_singleton_l. unfold smt_cores. rewrite elem_of_filter. lia.
  - rewrite Z.add_0_r. do 2 f_equal. apply set_eq. intros m. unfold smt_cores. rewrite !elem_of_filter.
    destruct (decide (m = core_threads c)) as [->|Hne]; [split; intros [? ?]; split; try done; lia|].
    split; intros [Ha Hb]; (split; [|done]); [rewrite Hother|rewrite Hother in Ha]; done.
Qed.

(** * What changes the leaders and the push callbacks *)

Record k_core (cs : list Z) (k k' : kstate) : Prop := {
  kc_core i : i ∉ cs → core_at k' i = core_at k i;
  kc_cb i : balance_callback <$> k_rqs k' !! i = balance_callback <$> k_rqs k !! i;
  kc_heads : k_heads k' = k_heads k;
}.
Lemma k_core_refl cs k : k_core cs k k.
Proof. by split. Qed.
Lemma k_core_trans cs k1 k2 k3 : k_core cs k1 k2 → k_core cs k2 k3 → k_core cs k1 k3.
Proof. intros [A1 A2 A3] [B1 B2 B3]. split; [intros i Hi; by rewrite B1, A1|intros i; by rewrite B2|congruence]. Qed.

(** Code that changes the core data of the CPUs [cs] only, if it ends. *)
Definition cores_only {A} (cs : list Z) (m : M A) : Prop := ∀ k a k', m k = Ok (a, k') → k_core cs k k'.
Lemma cores_ret {A} cs (a : A) : cores_only cs (mret a).
Proof. intros k ? ? [= <- <-]. apply k_core_refl. Qed.
Lemma cores_get {A} cs (f : kstate → A) : cores_only cs (get f).
Proof. intros k ? ? [= <- <-]. apply k_core_refl. Qed.
Lemma cores_rq cs c : cores_only cs (cpu_rq c).
Proof. intros k r k'. unfold cpu_rq. destruct (k_rqs k !! c); [|done]. intros [= <- <-]. apply k_core_refl. Qed.
Lemma cores_bind {A B} cs (m : M A) (f : A → M B) : cores_only cs m → (∀ a, cores_only cs (f a)) → cores_only cs (m ≫= f).
Proof.
  intros Hm Hf k b k'. unfold mbind, M_bind. destruct (m k) as [[a k1]|] eqn:Hk; [|done]. intros Hk'.
  eapply k_core_trans; [by eapply Hm|by eapply Hf].
Qed.
Lemma cores_upd cs c f : c ∈ cs → cores_only cs (upd_core c f).
Proof.
  intros Hc k [] k'. unfold upd_core, upd_rq. destruct (k_rqs k !! c) as [r|] eqn:Hr; [|done]. intros [= <-]. split; [| |done].
  - intros i Hi. rewrite core_at_upd, decide_False by (done || congruence). done.
  - intros i. cbn. destruct (decide (i = c)) as [->|]; [by rewrite lookup_insert_eq, Hr|by rewrite lookup_insert_ne].
Qed.
Lemma wp_cores {A} cs (m : M A) k Q : cores_only cs m → wp m k Q → wp m k (λ a k', Q a k' ∧ k_core cs k k').
Proof. unfold wp. intros Hm. specialize (Hm k). destruct (m k) as [[a k']|]; [|done]. eauto. Qed.

Lemma cores_install {CO' : CoreLib} c l cpus : cores_only [c] (install_leader c l cpus).
Proof.
  induction cpus as [|t cpus IH]; [apply cores_ret|]. apply cores_bind.
  { destruct (Z.eqb_spec t c) as [->|]; [apply cores_upd; set_solver|apply cores_ret]. }
  intros _. apply cores_bind; [apply cores_rq|]. intros r. apply cores_bind; [exact IH|]. intros w. apply cores_ret.
Qed.
Lemma cores_starting {CO' : CoreLib} c : cores_only [c] (sched_core_cpu_starting c).
Proof.
  apply cores_bind; [apply cores_rq|]. intros r. destruct (_ =? 1)%nat; [apply cores_ret|]. apply cores_bind; [apply cores_get|].
  intros [l|]; [|apply cores_ret]. apply cores_bind; [apply cores_install|]. intros w. apply cores_ret.
Qed.
Lemma cores_set_leader {CO' : CoreLib} cs l cpus : cpus ⊆ cs → cores_only cs (set_leader cpus l).
Proof.
  induction cpus as [|t cpus IH]; intros Hs; [apply cores_ret|]. apply cores_bind; [apply cores_upd; set_solver|]. intros _. apply IH. set_solver.
Qed.
Lemma cores_deactivate {CO' : CoreLib} c : cores_only (mask_cpus (cpu_smt_mask c)) (sched_core_cpu_deactivate c).
Proof.
  apply cores_bind; [apply cores_rq|]. intros r. destruct (_ =? 1)%nat; [apply cores_ret|].
  destruct (negb _); [apply cores_ret|]. destruct (head _) as [l|] eqn:Hl; [|apply cores_ret].
  apply head_filter in Hl as (l1&l2&Hs&_). apply cores_bind; [apply cores_upd; rewrite Hs; set_solver|]. intros _.
  apply cores_bind; [by apply cores_set_leader|]. intros _. apply cores_ret.
Qed.
Lemma cores_dying {CO' : CoreLib} c : cores_only [c] (sched_core_cpu_dying c).
Proof. apply cores_bind; [apply cores_rq|]. intros r. destruct (negb _); [apply cores_upd; set_solver|apply cores_ret]. Qed.

Lemma rq_some_core k c : is_Some (k_rqs k !! c) ↔ is_Some (core_at k c).
Proof. unfold core_at. by rewrite fmap_is_Some. Qed.
Lemma push_ok_core cs k k' mask : k_core cs k k' → push_ok k mask → push_ok k' mask.
Proof.
  intros [H1 H2 H3] [P1 P2]. split; [|by rewrite H3]. intros c Hc. unfold callback_of. rewrite H2. by apply P1.
Qed.
Lemma push_ok_frame k k' mask : sched_frame k k' → push_ok k mask → push_ok k' mask.
Proof.
  intros [H1 H2 H3] [P1 P2]. split; [|by rewrite H3]. intros c Hc. rewrite H2. by apply P1.
Qed.
Lemma push_ok_rq k mask c : push_ok k mask → possible c → is_Some (k_rqs k !! c).
Proof. intros [P1 _] Hc. specialize (P1 c Hc). unfold callback_of in P1. by destruct (k_rqs k !! c). Qed.
Lemma led_core k k' cpus l : (∀ i, i ∈ cpus → core <$> core_at k' i = core <$> core_at k i) → led k cpus l → led k' cpus l.
Proof. intros Hk [Hl Hall]. split; [done|]. intros i Hi. rewrite Hk; auto. Qed.
Lemma lead_ok_core k k' online mid :
  (∀ i, core <$> core_at k' i = core <$> core_at k i) → lead_ok k online mid → lead_ok k' online mid.
Proof.
  intros Hk [H1 H2]. split.
  - intros c Hc Ho. destruct (H1 c Hc Ho) as (l&Hl&Hm). exists l. split; [|done]. eapply led_core; [auto|done].
  - intros c Hc Ho. rewrite Hk. auto.
Qed.

(** * The leaders *)

Lemma online_threads online c d :
  (∀ i, Z.testbit online i = true → possible i) → possible c → d ∈ threads_in online (core_threads c) →
  possible d ∧ Z.testbit online d = true ∧ core_threads d = core_threads c.
Proof. intros Hp Hc (Ho&Ht&_)%elem_of_threads. split_and!; [auto|done|]. apply threads_same; auto. Qed.
Lemma threads_mem online c : possible c → Z.testbit online c = true → c ∈ threads_in online (core_threads c).
Proof. intros Hc Ho. apply elem_of_threads. split_and!; [done|by apply threads_self|by apply possible_range..]. Qed.

(** The cores other than that of [c] do not see it. *)
Lemma other_core online c d :
  possible c → possible d → core_threads d ≠ core_threads c → threads_in (Z.clearbit online c) (core_threads d) = threads_in online (core_threads d).
Proof. intros Hc Hd Hne. apply threads_clear_out, not_true_is_false. intros Ht. apply Hne. symmetry. by apply threads_same. Qed.
Lemma other_core_in online c d i :
  (∀ i, Z.testbit online i = true → possible i) → possible c → possible d → core_threads d ≠ core_threads c →
  i ∈ threads_in online (core_threads d) → (i ∉ threads_in online (core_threads c)) ∧ i ≠ c.
Proof.
  intros Hp Hc Hd Hne Hi. destruct (online_threads _ d i Hp Hd Hi) as (Hpi&_&He). split.
  - intros Hi'. destruct (online_threads _ c i Hp Hc Hi') as (_&_&?). congruence.
  - intros ->. congruence.
Qed.

Lemma other_core_led online c d cs k k' l :
  (∀ i, Z.testbit online i = true → possible i) → possible c → possible d → core_threads d ≠ core_threads c →
  (∀ i, i ∈ cs → i = c ∨ i ∈ threads_in online (core_threads c)) → k_core cs k k' →
  led k (threads_in online (core_threads d)) l → led k' (threads_in online (core_threads d)) l ∧ l ≠ c.
Proof.
  intros Hp Hc Hd Hne Hcs Hk Hl. split.
  - eapply led_core; [|done]. intros i Hi. destruct (other_core_in _ c d i Hp Hc Hd Hne Hi). rewrite (kc_core _ _ _ Hk); [done|naive_solver].
  - destruct Hl as [Hl _]. by destruct (other_core_in _ c d l Hp Hc Hd Hne Hl).
Qed.

Lemma lead_starting h c :
  let o := Z.setbit (h_online h) c in
  (∀ i, Z.testbit (h_online h) i = true → possible i) →
  lead_ok (h_k h) (h_online h) None → possible c → Z.testbit (h_online h) c = false →
  wp (sched_core_cpu_starting (CO := smt_now (h <| h_online := o |>)) c) (h_k h) (λ w k,
    w = false ∧ lead_ok k o (Some c) ∧ k_core [c] (h_k h) k).
Proof.
  intros o Hpos [Hon Hoff] Hc Hno. pose proof (possible_range c Hc) as Hr. set (m := core_threads c).
  assert (∀ i, Z.testbit o i = (c =? i) || Z.testbit (h_online h) i) as Ho by (intros; unfold o; by rewrite testbit_set by lia).
  assert (Z.clearbit o c = h_online h) as Hoc by (apply clear_set; [lia|done]).
  assert (∀ i, Z.testbit o i = true → possible i) as Hpo.
  { intros i. rewrite Ho, orb_true_iff, Z.eqb_eq. intros [<-|?]; auto. }
  assert (Z.testbit o c = true) as Hco by (by rewrite Ho, Z.eqb_refl).
  assert (∃ kc, core_at (h_k h) c = Some kc ∧ core kc = c) as (kc&Hkc&Hcc).
  { specialize (Hoff c Hc Hno). destruct (core_at (h_k h) c) as [kc|]; [|done]. injection Hoff as ?. eauto. }
  eapply wp_mono; [apply (wp_cores [c] _ _ (λ w k, w = false ∧ ∃ l, led k (threads_in o m) l ∧ (l = c → threads_in o m = [l]))); [apply cores_starting|]|].
  - pose proof (threads_clear_in o m c Hr (threads_self c Hc) Hco) as Hperm. rewrite Hoc in Hperm.
    destruct (threads_in (h_online h) m) as [|d ds] eqn:Hth.
    + apply Permutation_singleton_r in Hperm. unfold sched_core_cpu_starting, cpu_smt_mask, smt_now, smt_mask. cbn -[threads_in].
      fold m. change (mask_cpus (Z.land o m)) with (threads_in o m). destruct (core_at_rq _ c kc Hkc) as (r&Hrr&Hrk). apply wp_bind.
      eapply wp_rq; [done|]. rewrite Hperm, Hrk, Hcc, Z.eqb_refl. cbn [length Nat.eqb negb]. apply wp_ret. split; [done|]. exists c.
      split; [|done]. split; [set_solver|]. intros i ->%list_elem_of_singleton. by rewrite Hkc, <-Hcc at 1.
    + assert (d ∈ threads_in (h_online h) m) as Hd by (rewrite Hth; set_solver).
      destruct (online_threads _ c d Hpos Hc Hd) as (Hpd&Hod&Hed). destruct (Hon d Hpd Hod) as (l&Hl&_). rewrite Hed in Hl. fold m in Hl.
      eapply wp_mono; [apply (core_leader_starting (CO := smt_now (h <| h_online := o |>)) (h_k h) c l)|].
      * change (led (h_k h) (filter (λ t, t ≠ c) (threads_in o m)) l). by rewrite <-threads_clear, Hoc.
      * by apply threads_mem.
      * rewrite Hkc. cbn. by rewrite Hcc.
      * intros w k (->&Hk&_). split; [done|]. exists l. split; [exact Hk|]. intros ->. destruct Hl as [Hl _]. apply elem_of_threads in Hl as [? _]. congruence.
  - intros w k [(->&l&Hl&Hlc) Hk]. split; [done|]. split; [|done]. split.
    + intros d Hd Hod. destruct (decide (core_threads d = m)) as [->|Hne]; [exists l; split; [done|]; intros [= ->]; auto|].
      assert (Z.testbit (h_online h) d = true) as Hd'.
      { rewrite Ho in Hod. destruct (Z.eqb_spec c d) as [<-|]; [done|exact Hod]. }
      destruct (Hon d Hd Hd') as (l'&Hl'&_). pose proof (other_core o c d Hc Hd Hne) as Ht. rewrite Hoc in Ht. rewrite Ht in Hl'.
      destruct (other_core_led o c d [c] (h_k h) k l' Hpo Hc Hd Hne) as [? ?]; [set_solver|done..|]. exists l'. split; [done|congruence].
    + intros i Hi Hoi. rewrite Ho in Hoi. destruct (Z.eqb_spec c i) as [<-|Hne]; [done|]. rewrite (kc_core _ _ _ Hk) by set_solver. by apply Hoff.
Qed.

Lemma lead_deactivate h c :
  (∀ i, Z.testbit (h_online h) i = true → possible i) →
  lead_ok (h_k h) (h_online h) None → Z.testbit (h_online h) c = true →
  wp (sched_core_cpu_deactivate (CO := smt_now h) c) (h_k h) (λ w k,
    w = false ∧ lead_ok k (h_online h) (Some c) ∧ k_core (threads_in (h_online h) (core_threads c)) (h_k h) k).
Proof.
  intros Hpos [Hon Hoff] Hco. pose proof (Hpos c Hco) as Hc. set (th := threads_in (h_online h) (core_threads c)).
  assert (c ∈ th) as Hin by (by apply threads_mem). destruct (Hon c Hc Hco) as (l&Hl&_). fold th in Hl.
  eapply wp_mono; [apply (wp_cores th _ _ (λ w k, w = false ∧ ∃ l, led k th l ∧ (l = c → th = [l]))); [apply (cores_deactivate (CO' := smt_now h))|]|].
  - destruct (decide (length th = 1%nat)) as [H1|H1].
    + destruct th as [|x [|]] eqn:Hth; [done| |done]. apply list_elem_of_singleton in Hin as ->.
      unfold sched_core_cpu_deactivate, cpu_smt_mask, smt_now, smt_mask. change (mask_cpus (Z.land (h_online h) (core_threads x))) with (threads_in (h_online h) (core_threads x)).
      unfold th in Hth. destruct (led_exist _ _ _ x Hl) as (kx&Hkx&Hx); [set_solver|]. destruct (core_at_rq _ x kx Hkx) as (r&Hr&Hrk).
      assert (l = x) as -> by (destruct Hl as [Hl _]; set_solver).
      apply wp_bind. eapply wp_rq; [done|]. rewrite Hth, Hrk, Hx, Z.eqb_refl. cbn [length Nat.eqb negb]. apply wp_ret. split; [done|].
      exists x. split; [done|]. by intros _.
    + eapply wp_mono; [apply (core_leader_handover (CO := smt_now h) (h_k h) c l); [exact Hl|exact Hin|]|].
      * change (1 < length th)%nat. destruct th as [|? [|]]; [set_solver|done|cbn; lia].
      * intros w k (->&l'&Hne&Hl'&_). split; [done|]. exists l'. split; [exact Hl'|done].
  - intros w k [(->&l'&Hl'&Hlc) Hk]. split; [done|]. split; [|done]. split.
    + intros d Hd Hod. destruct (decide (core_threads d = core_threads c)) as [->|Hne]; [exists l'; split; [done|]; intros [= ->]; auto|].
      destruct (Hon d Hd Hod) as (ld&Hld&_).
      destruct (other_core_led (h_online h) c d th (h_k h) k ld Hpos Hc Hd Hne) as [? ?]; [auto|done..|]. exists ld. split; [done|congruence].
    + intros i Hi Hoi. rewrite (kc_core _ _ _ Hk); [by apply Hoff|]. unfold th. intros (?&_)%elem_of_threads. congruence.
Qed.

Lemma lead_dying k online c :
  (∀ i, Z.testbit online i = true → possible i) → lead_ok k online (Some c) → Z.testbit online c = true →
  wp (sched_core_cpu_dying c) k (λ _ k', lead_ok k' (Z.clearbit online c) None ∧ k_core [c] k k').
Proof.
  intros Hpos [Hon Hoff] Hco. pose proof (Hpos c Hco) as Hc. destruct (Hon c Hc Hco) as (l&Hl&Hlc).
  destruct (led_exist k _ l c Hl (threads_mem _ _ Hc Hco)) as (kc&Hkc&_).
  eapply wp_mono; [apply (wp_cores [c]); [apply cores_dying|]; apply wp_core_dying; by rewrite Hkc|].
  intros _ k' [Hcc Hk]. split; [|done]. split.
  - intros d Hd. rewrite testbit_clear, andb_true_iff, negb_true_iff, Z.eqb_neq. intros [Hod Hcd]. destruct (Hon d Hd Hod) as (ld&Hld&Hdc).
    destruct (decide (core_threads d = core_threads c)) as [He|Hne].
    + exists ld. split; [|done]. assert (ld ≠ c) as Hldc.
      { intros ->. specialize (Hdc eq_refl). pose proof (threads_mem _ d Hd Hod) as Hin. rewrite Hdc in Hin. set_solver. }
      rewrite threads_clear. destruct Hld as [Hin Hall]. clear Hcc. split; [by apply list_elem_of_filter|].
      intros i [Hic Hi]%list_elem_of_filter. rewrite (kc_core _ _ _ Hk) by set_solver. auto.
    + rewrite other_core by done. destruct (other_core_led online c d [c] k k' ld Hpos Hc Hd Hne) as [? ?]; [intros i Hi; apply list_elem_of_singleton in Hi; auto|done..|]. by exists ld.
  - intros i Hi. rewrite testbit_clear. destruct (Z.eqb_spec c i) as [<-|Hne]; [done|]. rewrite andb_true_r. intros Hoi.
    rewrite (kc_core _ _ _ Hk) by set_solver. auto.
Qed.

(** * What the parts of the callbacks change *)

(** The calls for cpusets. *)
Definition for_cpusets (e : hp_call) : bool :=
  match e with call_cpuset_reset | call_cpuset_force_rebuild | call_cpuset_update => true | _ => false end.
Definition cpuset_calls h : list hp_call := filter (λ e, for_cpusets e = true) (h_log h).

(** Only the fields [fs] differ, no warning is printed unless [f_warn] is one of them, and
    there is no call for cpusets unless the count of frozen CPUs differs. *)
Record hframe (fs : list hfield) h h' : Prop := {
  fr_k : f_k ∉ fs → h_k h' = h_k h;
  fr_rqs : f_rqs ∉ fs → h_rqs h' = h_rqs h ∧ h_rds h' = h_rds h;
  fr_ticks : f_ticks ∉ fs → h_ticks h' = h_ticks h;
  fr_active : f_active ∉ fs → h_active h' = h_active h;
  fr_smt : f_smt ∉ fs → h_smt_present h' = h_smt_present h;
  fr_frozen : f_frozen ∉ fs → num_cpus_frozen h' = num_cpus_frozen h ∧ cpuset_calls h' = cpuset_calls h;
  fr_online : h_online h' = h_online h;
  fr_tasks : cpuhp_tasks_frozen h' = cpuhp_tasks_frozen h;
  fr_init : sched_smp_initialized h' = sched_smp_initialized h;
  fr_warn : f_warn ∉ fs → warnings h' = warnings h;
}.
Lemma hframe_refl fs h : hframe fs h h.
Proof. by split. Qed.
Lemma hframe_trans fs h1 h2 h3 : hframe fs h1 h2 → hframe fs h2 h3 → hframe fs h1 h3.
Proof.
  intros [A1 A2 A3 A4 A5 A6 A7 A8 A9 A10] [B1 B2 B3 B4 B5 B6 B7 B8 B9 B10]. split; try congruence; auto; intros Hn.
  - by rewrite B1, A1.
  - destruct (A2 Hn), (B2 Hn). split; congruence.
  - by rewrite B3, A3.
  - by rewrite B4, A4.
  - by rewrite B5, A5.
  - destruct (A6 Hn), (B6 Hn). split; congruence.
  - by rewrite B10, A10.
Qed.
Lemma hframe_sub fs fs' h h' : hframe fs h h' → Forall (λ f, f ∈ fs') fs → hframe fs' h h'.
Proof. rewrite Forall_forall. intros [A1 A2 A3 A4 A5 A6 A7 A8 A9 A10] Hs. split; auto; intros Hn; auto. Qed.

Lemma cpuset_calls_snoc h h' e : h_log h' = h_log h ++ [e] → cpuset_calls h' = cpuset_calls h ++ (if for_cpusets e then [e] else []).
Proof.
  intros He. unfold cpuset_calls. rewrite He, filter_app. f_equal.
  rewrite filter_cons. case_decide as Hd; [by rewrite Hd|]. apply not_true_is_false in Hd. by rewrite Hd.
Qed.
Definition quiet (e : hp_call) : Prop := warning_of e = None ∧ for_cpusets e = false.
Lemma warnings_snoc h h' e : h_log h' = h_log h ++ [e] → warnings h' = warnings h ++ match warning_of e with Some w => [w] | None => [] end.
Proof. intros He. unfold warnings. rewrite He, omap_app. done. Qed.
Lemma hwp_call e h Q : quiet e → (∀ h', hframe [] h h' → Q tt h') → hwp (call e) h Q.
Proof.
  intros [Hw Hc] HQ. apply HQ. set (h' := h <| h_log ::= _ |>). pose proof (cpuset_calls_snoc h h' e eq_refl) as Hs.
  rewrite Hc, app_nil_r in Hs. pose proof (warnings_snoc h h' e eq_refl) as Hws. rewrite Hw, app_nil_r in Hws. by split.
Qed.
Lemma hwp_calls es h Q : Forall quiet es → (∀ h', hframe [] h h' → Q tt h') → hwp (calls es) h Q.
Proof.
  intros He. revert h. induction He as [|e es He Hes IH]; intros h HQ; [apply HQ, hframe_refl|].
  apply hwp_bind, hwp_call; [done|]. intros h1 H1. apply IH. intros h2 H2. apply HQ. by eapply hframe_trans.
Qed.

Record k_push c (on : bool) (k k' : kstate) : Prop := {
  kp_core i : core_at k' i = core_at k i;
  kp_cb i : callback_of k' i = if decide (i = c) then Some (if on then Some balance_push_callback else None) else callback_of k i;
  kp_heads : k_heads k' = k_heads k;
}.
Lemma k_push_set c (on : bool) k r :
  k_rqs k !! c = Some r →
  k_push c on k (k <| k_rqs := <[c := r <| balance_callback := if on then Some balance_push_callback else None |>]> (k_rqs k) |>).
Proof.
  intros Hr. split; [| |done]; intros i.
  - unfold core_at. cbn. destruct (decide (i = c)) as [->|]; [by rewrite lookup_insert_eq, Hr|by rewrite lookup_insert_ne].
  - unfold callback_of. cbn. case_decide as Hi; [subst; by rewrite lookup_insert_eq|by rewrite lookup_insert_ne].
Qed.
Lemma wp_push_set c (on : bool) k :
  callback_of k c = Some (if on then None else Some balance_push_callback) →
  wp (balance_push_set c on) k (λ w k', w = false ∧ k_push c on k k').
Proof.
  unfold callback_of. destruct (k_rqs k !! c) as [r|] eqn:Hr; [|done]. intros [= Hb]. apply wp_bind. eapply wp_rq; [done|].
  destruct on; rewrite Hb.
  - apply wp_bind. eapply wp_upd_rq; [done|]. apply wp_ret. split; [done|]. by apply (k_push_set c true).
  - apply wp_bind. cbn [when]. rewrite bool_decide_true by done. eapply wp_upd_rq; [done|]. apply wp_ret. split; [done|]. by apply (k_push_set c false).
Qed.
Lemma push_ok_set c on k k' mask : possible c → k_push c on k k' → push_ok k mask →
  push_ok k' (if on then Z.clearbit mask c else Z.setbit mask c).
Proof.
  intros Hc [K1 K2 K3] [P1 P2]. pose proof (possible_range c Hc). split; [|by rewrite K3].
  intros i Hi. rewrite K2. destruct on; rewrite ?testbit_clear, ?testbit_set by lia; case_decide as He.
  - subst. by rewrite Z.eqb_refl, andb_false_r.
  - rewrite P1 by done. destruct (Z.eqb_spec c i); [congruence|]. by rewrite andb_true_r.
  - subst. by rewrite Z.eqb_refl.
  - rewrite P1 by done. by destruct (Z.eqb_spec c i); [congruence|].
Qed.

Lemma attached_upd rds d R x i q :
  rds !! d = Some R → Z.testbit x i = Z.testbit (rd_online R) i → attached rds i q → attached (<[d := R <| rd_online := x |>]> rds) i q.
Proof.
  intros HR Hx (d'&R'&Hq&HR'&Hs&Ho). destruct (decide (d' = d)) as [->|Hne].
  - exists d, (R <| rd_online := x |>). rewrite lookup_insert_eq. assert (R' = R) as -> by congruence. split_and!; [done..|]. cbn. congruence.
  - exists d', R'. by rewrite lookup_insert_ne.
Qed.
Lemma rqs_ok_sub (P Q : Z → Prop) h mask : rqs_ok Q h mask → (∀ c, P c → Q c) → rqs_ok P h mask.
Proof. intros Hq Hsub c Hc. destruct (Hq c Hc) as (q&?&?&?). exists q. auto. Qed.
Lemma rqs_ok_mask P h mask mask' : rqs_ok P h mask → (∀ c, P c → Z.testbit mask' c = Z.testbit mask c) → rqs_ok P h mask'.
Proof. intros Hq Hsub c Hc. destruct (Hq c Hc) as (q&?&?&He). exists q. split_and!; [done..|]. intros Hp. by rewrite Hsub, He. Qed.
Lemma rqs_ok_frame fs P h h' mask : hframe fs h h' → f_rqs ∉ fs → rqs_ok P h mask → rqs_ok P h' mask.
Proof. intros Hf Hn Hq. destruct (fr_rqs _ _ _ Hf Hn) as [H1 H2]. unfold rqs_ok. by rewrite H1, H2. Qed.

(** The run queue of [c] with its bit of the domain set to [b]. *)
Lemma rqs_ok_flip h h' c d R q b mask mask' :
  possible c → rqs_ok (λ i, i ≠ c) h mask → h_rqs h !! c = Some q → attached (h_rds h) c q → rq_rd q = Some d → h_rds h !! d = Some R →
  let x := if b : bool then Z.setbit (rd_online R) c else Z.clearbit (rd_online R) c in
  h_rqs h' = <[c := q <| rq_online := b |>]> (h_rqs h) → h_rds h' = <[d := R <| rd_online := x |>]> (h_rds h) →
  (∀ i, possible i → Z.testbit mask' i = if decide (i = c) then b else Z.testbit mask i) → rqs_ok (λ _, True) h' mask'.
Proof.
  intros Hc Hok Hq Ha Hd HR x Hrqs Hrds Hm i Hi. pose proof (possible_range c Hc) as Hr. rewrite Hrqs, Hrds, Hm by done.
  assert (∀ j, Z.testbit x j = if decide (j = c) then b else Z.testbit (rd_online R) j) as Hx.
  { intros j. unfold x. destruct b; rewrite ?testbit_set, ?testbit_clear by lia; case_decide as Hj; [subst; by rewrite Z.eqb_refl| |subst; by rewrite Z.eqb_refl, andb_false_r|];
      destruct (Z.eqb_spec c j); try congruence; [done|by rewrite andb_true_r]. }
  destruct (decide (i = c)) as [->|Hne].
  - exists (q <| rq_online := b |>). rewrite lookup_insert_eq. split_and!; [done| |done]. destruct Ha as (d'&R'&?&?&?&?).
    exists d, (R <| rd_online := x |>). rewrite lookup_insert_eq. assert (R' = R) as -> by congruence. split_and!; [done..|]. cbn. by rewrite Hx, decide_True.
  - destruct (Hok i Hi) as (qi&Hqi&Hai&Hoi). exists qi. rewrite lookup_insert_ne by done. split_and!; [done| |auto].
    apply attached_upd; [done| |done]. by rewrite Hx, decide_False.
Qed.
Lemma in_root_domain_hwp c m h q Q : h_rqs h !! c = Some q → attached (h_rds h) c q → hwp m h Q → hwp (in_root_domain c m) h Q.
Proof.
  intros Hq (d&R&Hd&HR&Hs&_) HQ. apply hwp_bind. eapply hwp_find; [done|]. rewrite Hd. apply hwp_bind. eapply hwp_find; [done|]. by rewrite Hs.
Qed.
Lemma quiet_calls {A} (f : A → hp_call) (l : list A) : (∀ a, quiet (f a)) → Forall quiet (f <$> l).
Proof. intros Hf. apply Forall_fmap, Forall_true. exact Hf. Qed.

Lemma hwp_rq_online c h mask Q :
  possible c → rqs_ok (λ i, i ≠ c) h mask →
  (∀ h', hframe [f_rqs] h h' → rqs_ok (λ _, True) h' (Z.setbit mask c) → Q tt h') → hwp (sched_set_rq_online c) h Q.
Proof.
  intros Hc Hok HQ. pose proof (possible_range c Hc) as Hr. destruct (Hok c Hc) as (q&Hq&Ha&_). eapply in_root_domain_hwp; [done..|].
  assert (∀ i, Z.testbit (Z.setbit mask c) i = if decide (i = c) then true else Z.testbit mask i) as Hm.
  { intros i. rewrite testbit_set by lia. case_decide; destruct (Z.eqb_spec c i); congruence || done. }
  apply hwp_bind. eapply hwp_find; [done|]. destruct (rq_online q) eqn:Hon.
  - apply HQ; [apply hframe_refl|]. intros i Hi. rewrite Hm. destruct (Hok i Hi) as (qi&?&?&?). exists qi. split_and!; [done..|].
    intros _. case_decide; [subst; congruence|auto].
  - pose proof Ha as (d&R&Hd&HR&_). rewrite Hd. apply hwp_bind. eapply hwp_upd_rd; [done|]. apply hwp_bind. eapply hwp_upd_rq; [exact Hq|].
    apply hwp_calls; [by apply quiet_calls|]. intros h' Hf. apply HQ.
    + eapply hframe_trans; [|by eapply hframe_sub; [exact Hf|fields]]. split; set_solver.
    + eapply rqs_ok_frame; [exact Hf|fields|]. eapply (rqs_ok_flip h _ c d R q true mask); [done..|auto].
Qed.
Lemma hwp_rq_offline c h mask Q :
  possible c → rqs_ok (λ _, True) h mask →
  (∀ h', hframe [f_rqs] h h' → rqs_ok (λ _, True) h' (Z.clearbit mask c) → Q tt h') → hwp (sched_set_rq_offline c) h Q.
Proof.
  intros Hc Hok HQ. destruct (Hok c Hc) as (q&Hq&Ha&He). eapply in_root_domain_hwp; [done..|].
  assert (∀ i, Z.testbit (Z.clearbit mask c) i = if decide (i = c) then false else Z.testbit mask i) as Hm.
  { intros i. rewrite testbit_clear. case_decide; destruct (Z.eqb_spec c i); try congruence; [by rewrite andb_false_r|by rewrite andb_true_r]. }
  apply hwp_bind. eapply hwp_find; [done|]. destruct (rq_online q) eqn:Hon; cbn [negb].
  - apply hwp_bind, hwp_calls; [by apply quiet_calls|]. intros h1 Hf1. destruct (fr_rqs _ _ _ Hf1) as [Hrq1 Hrd1]; [set_solver|].
    pose proof Ha as (d&R&Hd&HR&_). rewrite Hd. apply hwp_bind. eapply hwp_upd_rd; [by rewrite Hrd1|]. eapply hwp_upd_rq; [cbn; by rewrite Hrq1|].
    apply HQ; [eapply hframe_trans; [by eapply hframe_sub; [exact Hf1|fields]|]; split; set_solver|].
    eapply (rqs_ok_flip h _ c d R q false mask); [done|by eapply rqs_ok_sub; [done|]|done..|cbn; by rewrite Hrq1|cbn; by rewrite Hrd1|auto].
  - apply HQ; [apply hframe_refl|]. eapply rqs_ok_mask; [done|]. intros i _. rewrite Hm. case_decide; [subst; by rewrite <-He|done].
Qed.

(** * Cpusets and the count of cores *)

(** The domains are rebuilt: the run queues [P] stay as the CPUs in use are. *)
Lemma hwp_rebuild (P : Z → Prop) e f h mask Q :
  rebuilds f → for_cpusets e = true → rqs_ok P h mask → (∀ c, P c → Z.testbit (h_active h) c = Z.testbit mask c) →
  (∀ h', hframe [f_rqs; f_frozen] h h' → num_cpus_frozen h' = num_cpus_frozen h → cpuset_calls h' = cpuset_calls h ++ [e] →
     rqs_ok P h' mask → Q tt h') → hwp (call e;; hmod f) h Q.
Proof.
  intros [Hsame Hatt] He Hok Ha HQ. apply hwp_bind, hwp_mod, hwp_mod. set (h1 := h <| h_log ::= _ |>).
  destruct (Hsame h1) as (rqs&rds&Hf). assert (h_log h1 = h_log h ++ [e]) as Hlog by done. apply HQ.
  - assert (warnings h1 = warnings h) as Hw by (rewrite (warnings_snoc h h1 e Hlog); destruct e; try done; apply app_nil_r).
    rewrite Hf. split; try done; cbn; try set_solver.
  - by rewrite Hf.
  - rewrite (cpuset_calls_snoc h _ e); [by rewrite He|]. by rewrite Hf.
  - intros c Hc. destruct (Hok c Hc) as (q&Hq&Hat&Ho). destruct (Hatt h1 c q Hq Hat) as (q'&Hq'&Hat'&Ho'). exists q'.
    split_and!; [done..|]. intros Hp. destruct Ho' as [-> | ->]; [auto|]. by apply Ha.
Qed.

(** What the calls for cpusets and the count of frozen CPUs are after a CPU has become
    active, or inactive. *)
Definition active_calls h h' : Prop :=
  if cpuhp_tasks_frozen h then
    num_cpus_frozen h' = wrap32 (num_cpus_frozen h - 1) ∧
    cpuset_calls h' = cpuset_calls h ++ [call_cpuset_reset] ++
      (if num_cpus_frozen h' =? 0 then [call_cpuset_force_rebuild; call_cpuset_update] else [])
  else num_cpus_frozen h' = num_cpus_frozen h ∧ cpuset_calls h' = cpuset_calls h ++ [call_cpuset_update].
Definition inactive_calls h h' : Prop :=
  if cpuhp_tasks_frozen h then
    num_cpus_frozen h' = wrap32 (num_cpus_frozen h + 1) ∧ cpuset_calls h' = cpuset_calls h ++ [call_cpuset_reset]
  else num_cpus_frozen h' = num_cpus_frozen h ∧ cpuset_calls h' = cpuset_calls h ++ [call_cpuset_update].

Lemma hwp_cpuset_active (P : Z → Prop) h mask Q :
  rqs_ok P h mask → (∀ c, P c → Z.testbit (h_active h) c = Z.testbit mask c) →
  (∀ h', hframe [f_rqs; f_frozen] h h' → active_calls h h' → rqs_ok P h' mask → Q tt h') → hwp cpuset_cpu_active h Q.
Proof.
  intros Hok Ha HQ. apply hwp_bind, hwp_get. unfold active_calls in HQ. destruct (cpuhp_tasks_frozen h) eqn:Hfr; cycle 1.
  { eapply (hwp_rebuild P); [apply update_rebuilds|done..|]. auto. }
  apply hwp_bind. eapply (hwp_rebuild P); [apply reset_rebuilds|done..|]. intros h1 Hf1 Hn1 Hc1 Hok1.
  apply hwp_bind, hwp_mod. set (h2 := h1 <| num_cpus_frozen ::= _ |>). assert (hframe [f_rqs; f_frozen] h1 h2) as Hf2 by (split; done || set_solver).
  assert (num_cpus_frozen h2 = wrap32 (num_cpus_frozen h - 1)) as Hn2 by (cbn; by rewrite Hn1). assert (cpuset_calls h2 = cpuset_calls h1) as Hc2 by done.
  assert (rqs_ok P h2 mask) as Hok2 by exact Hok1. assert (h_active h2 = h_active h) as Ha2 by (cbn; apply Hf1; set_solver). clearbody h2.
  assert (hframe [f_rqs; f_frozen] h h2) as Hf by (by eapply hframe_trans). apply hwp_bind, hwp_get. destruct (Z.eqb_spec (num_cpus_frozen h2) 0) as [H0|H0]; cbn [negb].
  - apply hwp_bind. eapply (hwp_rebuild P); [apply flag_rebuilds|done|done|by rewrite Ha2|]. intros h3 Hf3 Hn3 Hc3 Hok3.
    assert (h_active h3 = h_active h) as Ha3 by (rewrite (fr_active _ _ _ Hf3); [done|set_solver]).
    eapply (hwp_rebuild P); [apply update_rebuilds|done|done|by rewrite Ha3|]. intros h4 Hf4 Hn4 Hc4 Hok4. apply HQ; [|split|done].
    + eapply hframe_trans; [done|]. by eapply hframe_trans.
    + congruence.
    + rewrite Hc4, Hc3, Hc2, Hc1, Hn4, Hn3, H0, <-!app_assoc. done.
  - apply HQ; [done| |done]. split; [done|]. rewrite Hc2, Hc1, (proj2 (Z.eqb_neq _ _) H0). done.
Qed.
Lemma hwp_cpuset_inactive h mask Q :
  rqs_ok (λ _, True) h mask → h_active h = mask →
  (∀ h', hframe [f_rqs; f_frozen] h h' → inactive_calls h h' → rqs_ok (λ _, True) h' mask → Q tt h') → hwp cpuset_cpu_inactive h Q.
Proof.
  intros Hok Ha HQ. apply hwp_bind, hwp_get. unfold inactive_calls in HQ. destruct (cpuhp_tasks_frozen h) eqn:Hfr; cbn [negb]; cycle 1.
  { eapply (hwp_rebuild (λ _, True)); [apply update_rebuilds|done|done|by rewrite Ha|]. auto. }
  apply hwp_bind, hwp_mod. set (h1 := h <| num_cpus_frozen ::= _ |>). assert (hframe [f_rqs; f_frozen] h h1) as Hf1 by (split; done || set_solver).
  eapply (hwp_rebuild (λ _, True)); [apply reset_rebuilds|done|exact Hok|by rewrite <-Ha|]. intros h2 Hf2 Hn2 Hc2 Hok2.
  apply HQ; [by eapply hframe_trans|done|done].
Qed.

Lemma hwp_smt_inc c h Q :
  (∀ h', hframe [f_smt] h h' → h_smt_present h' = h_smt_present h + (if cpumask_weight (smt_mask h c) =? 2 then 1 else 0) → Q tt h') →
  hwp (sched_smt_present_inc c) h Q.
Proof.
  intros HQ. apply hwp_bind, hwp_get. change (id h) with h. apply hwp_when; intros Hb; [apply hwp_mod|];
    (apply HQ; [split; done || set_solver|rewrite Hb; cbn; lia]).
Qed.
Lemma hwp_smt_dec c h Q :
  (∀ h', hframe [f_smt] h h' → h_smt_present h' = h_smt_present h - (if cpumask_weight (smt_mask h c) =? 2 then 1 else 0) → Q tt h') →
  hwp (sched_smt_present_dec c) h Q.
Proof.
  intros HQ. apply hwp_bind, hwp_get. change (id h) with h. apply hwp_when; intros Hb; [apply hwp_mod|];
    (apply HQ; [split; done || set_solver|rewrite Hb; cbn; lia]).
Qed.
Lemma hwp_set_active c on h Q :
  (∀ h', hframe [f_active] h h' → h_active h' = (if on : bool then Z.setbit (h_active h) c else Z.clearbit (h_active h) c) → Q tt h') →
  hwp (set_cpu_active c on) h Q.
Proof. intros HQ. apply hwp_mod, HQ; [split; done || set_solver|done]. Qed.
Lemma hwp_lift_k {A} (m : M A) h (P : A → kstate → Prop) Q :
  wp m (h_k h) P → (∀ a h', hframe [f_k] h h' → P a (h_k h') → Q a h') → hwp (lift m) h Q.
Proof. intros Hm HQ. apply hwp_lift. eapply wp_mono; [done|]. intros a k Hp. apply HQ; [split; done || set_solver|done]. Qed.

Lemma cpus_clear mask c : possible c → Z.testbit mask c = true → cpumask_weight mask = cpumask_weight (Z.clearbit mask c) + 1.
Proof.
  intros Hc Hm. pose proof (threads_clear_in mask (-1) c (possible_range c Hc) (Z.bits_m1 c (proj1 (possible_range c Hc))) Hm) as Hp.
  apply Permutation_length in Hp. unfold threads_in in Hp. rewrite !Z.land_m1_r in Hp. unfold cpumask_weight. cbn in Hp. lia.
Qed.

(** * The remote tick *)

Lemma ticks_upd ts o o' c w :
  ticks_ok ts o → tick_ok w (Z.testbit o' c && negb (housekeeping_cpu c)) → (∀ i, i ≠ c → Z.testbit o' i = Z.testbit o i) → ticks_ok (<[c := w]> ts) o'.
Proof.
  intros [H1 H2] Hw Ho. split.
  - intros i Hi. destruct (decide (i = c)) as [->|]; [by rewrite lookup_insert_eq|rewrite lookup_insert_ne; auto].
  - intros i wi. destruct (decide (i = c)) as [->|]; [rewrite lookup_insert_eq; by intros [= <-]|]. rewrite lookup_insert_ne, Ho by done. auto.
Qed.
Lemma ticks_housekeeping ts o o' c :
  ticks_ok ts o → housekeeping_cpu c = true → (∀ i, i ≠ c → Z.testbit o' i = Z.testbit o i) → ticks_ok ts o'.
Proof.
  intros [H1 H2] Hk Ho. split; [done|]. intros i w Hw. specialize (H2 i w Hw). destruct (decide (i = c)) as [->|]; [|by rewrite Ho].
  by rewrite Hk, andb_false_r in *.
Qed.
Lemma hwp_tick_start c h o Q :
  possible c → ticks_ok (h_ticks h) o → Z.testbit o c = false →
  (∀ h', hframe [f_ticks] h h' → ticks_ok (h_ticks h') (Z.setbit o c) → Q tt h') → hwp (sched_tick_start c) h Q.
Proof.
  intros Hc Ht Ho HQ. pose proof (possible_range c Hc) as Hr.
  assert (∀ i, i ≠ c → Z.testbit (Z.setbit o c) i = Z.testbit o i) as Hoi by (intros i Hi; rewrite testbit_set by lia; by destruct (Z.eqb_spec c i)).
  unfold sched_tick_start. destruct (housekeeping_cpu c) eqn:Hk; [apply HQ; [apply hframe_refl|by eapply ticks_housekeeping]|].
  destruct Ht as [H1 H2]. destruct (H1 c Hc) as [w Hw]. pose proof (H2 c w Hw) as [Hp Hs]. rewrite Ho in Hs. cbn in Hs.
  apply hwp_bind. eapply hwp_find; [done|]. apply hwp_bind. eapply hwp_upd_tick; [done|]. apply hwp_bind.
  assert (Z.testbit (Z.setbit o c) c && negb (housekeeping_cpu c) = true) as Hon by (by rewrite testbit_set, Z.eqb_refl, Hk by lia).
  destruct Hs as [Hs|Hs]; rewrite Hs in Hp |- *; unfold tick_places in Hp.
  - apply hwp_bind. eapply hwp_upd_tick; [apply lookup_insert_eq|]. eapply hwp_upd_tick; [apply lookup_insert_eq|].
    apply HQ; [split; done || set_solver|]. cbn. rewrite !insert_insert_eq. apply (ticks_upd _ o); [by split| |done].
    rewrite Hon. split; [|done]. unfold tick_places. cbn in *. repeat case_decide; destruct (tw_pending w); done || lia.
  - apply HQ; [split; done || set_solver|]. cbn. apply (ticks_upd _ o); [by split| |done]. rewrite Hon. split; [|done]. unfold tick_places. cbn in *. repeat case_decide; done || lia.
Qed.
Lemma hwp_tick_stop c h o Q :
  possible c → ticks_ok (h_ticks h) o → Z.testbit o c = true →
  (∀ h', hframe [f_ticks] h h' → ticks_ok (h_ticks h') (Z.clearbit o c) → Q tt h') → hwp (sched_tick_stop c) h Q.
Proof.
  intros Hc Ht Ho HQ.
  assert (∀ i, i ≠ c → Z.testbit (Z.clearbit o c) i = Z.testbit o i) as Hoi.
  { intros i Hi. rewrite testbit_clear. destruct (Z.eqb_spec c i); [congruence|by rewrite andb_true_r]. }
  unfold sched_tick_stop. destruct (housekeeping_cpu c) eqn:Hk; [apply HQ; [apply hframe_refl|by eapply ticks_housekeeping]|].
  destruct Ht as [H1 H2]. destruct (H1 c Hc) as [w Hw]. pose proof (H2 c w Hw) as [Hp Hs]. rewrite Ho, Hk in Hs. cbn in Hs.
  apply hwp_bind. eapply hwp_find; [done|]. apply hwp_bind. eapply hwp_upd_tick; [done|]. rewrite Hs in Hp |- *. cbn.
  apply HQ; [split; done || set_solver|]. cbn. apply (ticks_upd _ o); [by split| |done]. rewrite testbit_clear, Z.eqb_refl, andb_false_r. cbn.
  split; [|auto]. unfold tick_places in *. cbn in *. repeat case_decide; done || lia.
Qed.
End parts.
