(* ===== verification/HotplugInv.v ===== *)
(** CPU hotplug as a machine: every step keeps its invariant, and suspend and resume rebuild
    the scheduling domains once. *)
From stdpp Require Import sets.
From S2P Require Import Prelude Rbtree KState HvfValue HvfClass HvfSmp Policy Uclamp Core Schedule Load Setsched Wakeup WakeupSpec Affinity Balance CoreSched CoreSchedSpec CoreSelect CoreSwitch Hotplug HotplugParts.
Implicit Types (h : hstate) (c : Z).

(** Frames compose. *)
Ltac framed := repeat match goal with
  | |- hframe _ ?h ?h => apply hframe_refl
  | H : hframe _ _ ?h' |- hframe _ _ ?h' => eapply hframe_trans; [|eapply hframe_sub; [exact H|fields]]
  end.

Section machine.
Context {L : RbLib} {TC : TickConfig} {S : SmpLib} {UC : UclampConfig} {E : Ext}
  {OC : OtherClasses} {CL : CpuLib} {AL : AffLib} {SL : SysLib} {UM : UserMem} {HL : HotplugLib}
  {CO : CoreLib} {HP : HpLib} {HPL : HpLaws}.

(** * The steps keep the invariant *)

(** How many CPUs are in use, and what becomes of the count of frozen CPUs. *)
Definition cpus_in_use (x : hstate * option Z) : Z := cpumask_weight (in_use x.1 x.2).
Record counted (x x' : hstate * option Z) : Prop := {
  ct_init : sched_smp_initialized x'.1 = sched_smp_initialized x.1;
  ct_count : sched_smp_initialized x.1 = true →
    (cpus_in_use x' = cpus_in_use x ∧ num_cpus_frozen x'.1 = num_cpus_frozen x.1 ∧ cpuset_calls x'.1 = cpuset_calls x.1) ∨
    (cpus_in_use x' = cpus_in_use x - 1 ∧ inactive_calls x.1 x'.1) ∨
    (cpus_in_use x' = cpus_in_use x + 1 ∧ active_calls x.1 x'.1);
}.
(** The step ends well, and prints the warnings [ws]. *)
Definition stepped h mid (ws : list hp_warning) mid' h' : Prop :=
  hp_inv (h', mid') ∧ counted (h, mid) (h', mid') ∧ warnings h' = warnings h ++ ws.
Definition op_ok (op : hp_op) h mid : Prop := hwp (run_op op mid) h (stepped h mid (due_warnings op h)).
Lemma silent h h' : warnings h' = warnings h → warnings h' = warnings h ++ [].
Proof. by rewrite app_nil_r. Qed.

(** The CPU is active, and its run queue may be on line already. *)
Record activating c h h' : Prop := {
  av_frame : hframe [f_k; f_smt; f_active; f_rqs; f_frozen] h h';
  av_push : k_push c false (h_k h) (h_k h');
  av_active : h_active h' = h_online h;
  av_smt : h_smt_present h' = Z.of_nat (size (smt_cores (h_online h)));
  av_rqs : rqs_ok (λ i, i ≠ c) h' (Z.clearbit (h_online h) c);
}.
Lemma activating_frame c h h1 h2 :
  activating c h h1 → hframe [f_rqs; f_frozen] h1 h2 → rqs_ok (λ i, i ≠ c) h2 (Z.clearbit (h_online h) c) → activating c h h2.
Proof.
  intros [A1 A2 A3 A4 A5] F Hq. split; [framed|..|done].
  - by rewrite (fr_k _ _ _ F) by fields.
  - by rewrite (fr_active _ _ _ F) by fields.
  - by rewrite (fr_smt _ _ _ F) by fields.
Qed.
Lemma activate_begin c h (k : HM Z) Q :
  hp_inv (h, Some c) →
  (∀ h', activating c h h' → num_cpus_frozen h' = num_cpus_frozen h → cpuset_calls h' = cpuset_calls h → hwp k h' Q) →
  hwp (w ← lift (balance_push_set c false); warn_on (warn_callbacks c) w;; sched_smt_present_inc c;; set_cpu_active c true;; k) h Q.
Proof.
  intros [I1 I2 I3 I4 I5 I6 I7 I8] HQ. cbn in *. specialize (I2 c eq_refl). pose proof (I1 c I2) as Hc. pose proof (possible_range c Hc) as Hr.
  apply hwp_bind. eapply hwp_lift_k; [apply (wp_push_set c false)|].
  { rewrite (po_cb _ _ I6 c Hc). by rewrite testbit_clear, Z.eqb_refl, andb_false_r. }
  intros w h1 F1 [-> K1]. apply hwp_bind, hwp_ret.
  apply hwp_bind, hwp_smt_inc. intros h2 F2 S2. apply hwp_bind, hwp_set_active. intros h3 F3 A3.
  destruct (fr_frozen _ _ _ F1), (fr_frozen _ _ _ F2), (fr_frozen _ _ _ F3); [fields..|]. apply HQ; [split|congruence..].
  - framed.
  - by rewrite (fr_k _ _ _ F3), (fr_k _ _ _ F2) by fields.
  - rewrite A3, (fr_active _ _ _ F2), (fr_active _ _ _ F1), I3 by fields. apply set_clear; [lia|done].
  - rewrite (fr_smt _ _ _ F3), S2, (fr_smt _ _ _ F1), I4, (smt_cores_clear (h_online h) c) by fields. unfold smt_mask. by rewrite (fr_online _ _ _ F1).
  - eapply rqs_ok_frame; [exact F3|fields|]. eapply rqs_ok_frame; [exact F2|fields|]. eapply rqs_ok_frame; [exact F1|fields|]. by eapply rqs_ok_sub.
Qed.
Lemma active_calls_ext h h1 h2 h' :
  cpuhp_tasks_frozen h1 = cpuhp_tasks_frozen h → num_cpus_frozen h1 = num_cpus_frozen h → cpuset_calls h1 = cpuset_calls h →
  num_cpus_frozen h' = num_cpus_frozen h2 → cpuset_calls h' = cpuset_calls h2 → active_calls h1 h2 → active_calls h h'.
Proof. unfold active_calls. intros -> -> -> -> ->. done. Qed.
Lemma inactive_calls_ext h h1 h2 h' :
  cpuhp_tasks_frozen h1 = cpuhp_tasks_frozen h → num_cpus_frozen h1 = num_cpus_frozen h → cpuset_calls h1 = cpuset_calls h →
  num_cpus_frozen h' = num_cpus_frozen h2 → cpuset_calls h' = cpuset_calls h2 → inactive_calls h1 h2 → inactive_calls h h'.
Proof. unfold inactive_calls. intros -> -> -> -> ->. done. Qed.

Lemma activate_end c h h1 :
  hp_inv (h, Some c) → activating c h h1 → (sched_smp_initialized h = true → active_calls h h1) →
  hwp (call (call_scx_activate c);; sched_set_rq_online c;; mret 0) h1 (λ _ h', stepped h (Some c) [] None h').
Proof.
  intros [I1 I2 I3 I4 I5 I6 I7 I8] [A1 A2 A3 A4 A5] Hcalls. cbn in *. specialize (I2 c eq_refl). pose proof (I1 c I2) as Hc.
  pose proof (possible_range c Hc) as Hr. assert (Z.setbit (Z.clearbit (h_online h) c) c = h_online h) as Hu by (apply set_clear; [lia|done]).
  apply hwp_bind, hwp_call; [done|]. intros h2 F2. apply hwp_bind.
  eapply hwp_rq_online; [done|eapply rqs_ok_frame; [exact F2|fields|exact A5]|]. intros h3 F3 Hrq. rewrite Hu in Hrq. apply hwp_ret.
  assert (hframe [f_rqs] h1 h3) as F by framed. assert (hframe [f_k; f_smt; f_active; f_rqs; f_frozen] h h3) as G by framed.
  destruct (fr_frozen _ _ _ F) as [Hn Hl]; [fields|]. pose proof (fr_online _ _ _ G) as Ho. split; [|split; [|apply silent, (fr_warn _ _ _ G); fields]]; split; cbn; rewrite ?Ho.
  - exact I1.
  - done.
  - by rewrite (fr_active _ _ _ F) by fields.
  - by rewrite (fr_smt _ _ _ F) by fields.
  - exact Hrq.
  - rewrite (fr_k _ _ _ F), <-Hu by fields. by apply (push_ok_set c false (h_k h)).
  - rewrite (fr_k _ _ _ F) by fields. eapply (lead_ok_core (h_k h)); [intros i; by rewrite (kp_core _ _ _ _ A2)|].
    destruct I7 as [L1 L2]. split; [|done]. intros d Hd Hod. destruct (L1 d Hd Hod) as (l&Hl'&_). by exists l.
  - by rewrite (fr_ticks _ _ _ G) by fields.
  - apply (fr_init _ _ _ G).
  - intros Hi. right. right. split; [unfold cpus_in_use; cbn; rewrite Ho; by apply cpus_clear|]. by eapply (active_calls_ext h h); [..|apply Hcalls].
Qed.
Lemma activate_ok c h : hp_inv (h, Some c) → op_ok (op_activate c) h (Some c).
Proof.
  intros Hi. apply hwp_bind, activate_begin; [done|]. intros h1 Av Hn Hl. apply hwp_bind, hwp_get, hwp_bind. pose proof (av_frame _ _ _ Av) as G. apply hwp_when; intros Hinit.
  - apply hwp_bind, hwp_call; [done|]. intros h2 F2. apply hwp_bind, hwp_call; [done|]. intros h3 F3.
    assert (hframe [] h1 h3) as F by framed. destruct (fr_frozen _ _ _ F) as [Hn3 Hl3]; [fields|].
    eapply (hwp_cpuset_active (λ i, i ≠ c) h3); [eapply rqs_ok_frame; [exact F|fields|apply Av]| |].
    + intros i Hic. rewrite (fr_active _ _ _ F), (av_active _ _ _ Av), testbit_clear by fields. destruct (Z.eqb_spec c i); [congruence|by rewrite andb_true_r].
    + intros h4 F4 Hc4 Hrq4. eapply hwp_mono; [apply (activate_end c h h4 Hi)|by intros].
      * eapply activating_frame; [exact Av|framed|done].
      * intros _. eapply (active_calls_ext h h3 h4); [|congruence..|done]. by rewrite (fr_tasks _ _ _ F), (fr_tasks _ _ _ G).
  - eapply hwp_mono; [apply (activate_end c h h1 Hi Av)|by intros]. rewrite (fr_init _ _ _ G) in Hinit. congruence.
Qed.

(** The CPU is neither active nor on line, and pushes its tasks away. *)
Lemma deactivate_begin c h (k : HM Z) Q :
  hp_inv (h, None) → Z.testbit (h_online h) c = true →
  (∀ h', hframe [f_k; f_smt; f_active; f_rqs] h h' → h_active h' = Z.clearbit (h_online h) c →
     h_smt_present h' = Z.of_nat (size (smt_cores (Z.clearbit (h_online h) c))) →
     rqs_ok (λ _, True) h' (Z.clearbit (h_online h) c) → push_ok (h_k h') (Z.clearbit (h_online h) c) →
     lead_ok (h_k h') (h_online h) (Some c) → hwp k h' Q) →
  hwp (call (call_nohz_exit_idle c);; set_cpu_active c false;; w ← lift (balance_push_set c true); warn_on (warn_callbacks c) w;; call call_synchronize_rcu;;
       sched_set_rq_offline c;; call (call_scx_deactivate c);; sched_smt_present_dec c;;
       w ← with_smt (λ CO', sched_core_cpu_deactivate (CO := CO') c); warn_on (warn_leader c) w;; k) h Q.
Proof.
  intros [I1 I2 I3 I4 I5 I6 I7 I8] Ho HQ. cbn in *. pose proof (I1 c Ho) as Hc.
  apply hwp_bind, hwp_call; [done|]. intros h1 F1. apply hwp_bind, hwp_set_active. intros h2 F2 A2.
  assert (h_k h2 = h_k h) as Hk2 by (by rewrite (fr_k _ _ _ F2), (fr_k _ _ _ F1) by fields).
  apply hwp_bind. eapply hwp_lift_k; [apply (wp_push_set c true)|].
  { rewrite Hk2, (po_cb _ _ I6 c Hc). by rewrite Ho. }
  intros w3 h3 F3 [-> K3]. rewrite Hk2 in K3. apply hwp_bind, hwp_ret.
  apply hwp_bind, hwp_call; [done|]. intros h4 F4. assert (hframe [f_k; f_active] h h4) as G4 by framed.
  apply hwp_bind. eapply hwp_rq_offline; [done|eapply rqs_ok_frame; [exact G4|fields|exact I5]|]. intros h5 F5 Hrq5.
  apply hwp_bind, hwp_call; [done|]. intros h6 F6. apply hwp_bind, hwp_smt_dec. intros h7 F7 S7. assert (hframe [f_rqs; f_smt] h3 h7) as G7 by framed.
  assert (hframe [f_k; f_smt; f_active; f_rqs] h h7) as G by framed. pose proof (fr_online _ _ _ G) as Ho7.
  assert (h_k h7 = h_k h3) as Hk7 by (by apply G7; fields). apply hwp_bind, hwp_bind, hwp_get. change (id h7) with h7.
  assert (lead_ok (h_k h7) (h_online h7) None) as Hlead.
  { rewrite Hk7, Ho7. eapply (lead_ok_core (h_k h)); [intros i; by rewrite (kp_core _ _ _ _ K3)|done]. }
  eapply hwp_lift_k; [apply lead_deactivate; [by rewrite Ho7|done|by rewrite Ho7]|]. intros w8 h8 F8 (->&Hl8&Hk8). apply hwp_bind, hwp_ret. rewrite Ho7 in Hl8. apply HQ.
  - framed.
  - assert (h_active h8 = h_active h2) as -> by (transitivity (h_active h3); [transitivity (h_active h7); [apply F8|apply G7]|apply F3]; fields).
    by rewrite A2, (fr_active _ _ _ F1), I3 by fields.
  - assert (h_smt_present h6 = h_smt_present h) as Hs by (assert (hframe [f_k; f_active; f_rqs] h h6) as G6 by framed; apply G6; fields).
    rewrite (fr_smt _ _ _ F8), S7, Hs, I4, (smt_cores_clear (h_online h) c) by fields. unfold smt_mask.
    rewrite <-(fr_online _ _ _ F7), Ho7. lia.
  - eapply rqs_ok_frame; [exact F8|fields|]. eapply rqs_ok_frame; [exact F7|fields|]. eapply rqs_ok_frame; [exact F6|fields|exact Hrq5].
  - eapply push_ok_core; [exact Hk8|]. rewrite Hk7. by apply (push_ok_set c true (h_k h2)); rewrite ?Hk2.
  - done.
Qed.
Lemma counted_refl x : counted x x.
Proof. split; [done|]. auto. Qed.
Lemma deactivate_ok c h : hp_inv (h, None) → Z.testbit (h_online h) c = true → op_ok (op_deactivate c) h None.
Proof.
  intros Hi Ho. apply hwp_bind. unfold sched_cpu_deactivate. apply hwp_bind, hwp_get.
  destruct (Z.eqb_spec (dl_bw_deactivate c h) 0) as [_|Hret]; cbn [negb]; cycle 1.
  { apply hwp_ret. rewrite (proj2 (Z.eqb_neq _ _) Hret). apply hwp_ret. split; [done|]. split; [apply counted_refl|by apply silent]. }
  apply deactivate_begin; [done..|]. intros h1 F1 Ha Hs Hq Hp Hl. destruct (fr_frozen _ _ _ F1) as [Hn1 Hc1]; [fields|].
  pose proof (hi_online _ Hi) as Hpos. cbn in Hpos.
  assert (∀ h', hframe [f_rqs; f_frozen] h1 h' → rqs_ok (λ _, True) h' (Z.clearbit (h_online h) c) →
    (sched_smp_initialized h = true → inactive_calls h h') → stepped h None [] (Some c) h') as Hend.
  { intros h' F Hq' Hcalls. assert (hframe [f_k; f_smt; f_active; f_rqs; f_frozen] h h') as G by framed. pose proof (fr_online _ _ _ G) as Ho'.
    split; [|split; [|apply silent, (fr_warn _ _ _ G); fields]]; split; cbn; rewrite ?Ho'; try done.
    - by intros i [= <-].
    - by rewrite (fr_active _ _ _ F) by fields.
    - by rewrite (fr_smt _ _ _ F) by fields.
    - by rewrite (fr_k _ _ _ F) by fields.
    - by rewrite (fr_k _ _ _ F) by fields.
    - rewrite (fr_ticks _ _ _ G) by fields. apply Hi.
    - apply (fr_init _ _ _ G).
    - intros Hin. right. left. split; [unfold cpus_in_use; cbn; rewrite Ho', (cpus_clear (h_online h) c) by auto; lia|auto]. }
  apply hwp_bind, hwp_get. destruct (sched_smp_initialized h1) eqn:Hin; cbn [negb]; cycle 1.
  { apply hwp_ret, hwp_ret, Hend; [apply hframe_refl|done|]. rewrite (fr_init _ _ _ F1) in Hin. congruence. }
  apply hwp_bind, hwp_call; [done|]. intros h2 F2. apply hwp_bind.
  eapply hwp_cpuset_inactive; [eapply rqs_ok_frame; [exact F2|fields|exact Hq]|by rewrite (fr_active _ _ _ F2) by fields|]. intros h3 F3 Hc3 Hq3.
  apply hwp_bind, hwp_call; [done|]. intros h4 F4. apply hwp_ret, hwp_ret, Hend; [framed|eapply rqs_ok_frame; [exact F4|fields|done]|].
  intros _. destruct (fr_frozen _ _ _ F2) as [Hn2 Hc2]; [fields|]. destruct (fr_frozen _ _ _ F4) as [Hn4 Hc4]; [fields|].
  eapply (inactive_calls_ext h h2 h3); [|congruence..|done]. by rewrite (fr_tasks _ _ _ F2), (fr_tasks _ _ _ F1).
Qed.

(** A change that concerns neither cpusets nor the CPUs in use. *)
Lemma counted_frame fs h h1 h' mid mid' :
  hframe fs h1 h' → f_frozen ∉ fs → in_use h' mid' = in_use h mid → num_cpus_frozen h1 = num_cpus_frozen h → cpuset_calls h1 = cpuset_calls h →
  sched_smp_initialized h1 = sched_smp_initialized h → counted (h, mid) (h', mid').
Proof.
  intros F Hf Hu Hn Hc Hi. destruct (fr_frozen _ _ _ F Hf). split; cbn; [rewrite (fr_init _ _ _ F); done|].
  intros _. left. unfold cpus_in_use. cbn. rewrite Hu. split_and!; congruence.
Qed.
Lemma start_ok c h : hp_inv (h, None) → possible c → Z.testbit (h_online h) c = false → op_ok (op_start c) h None.
Proof.
  intros [I1 I2 I3 I4 I5 I6 I7 I8] Hc Hno. cbn in *. pose proof (possible_range c Hc) as Hr. apply hwp_bind, hwp_mod.
  set (o := Z.setbit (h_online h) c). change (h <| h_online ::= _ |>) with (h <| h_online := o |>). set (h1 := h <| h_online := o |>).
  assert (Z.clearbit o c = h_online h) as Hoc by (apply clear_set; [lia|done]). pose proof (lead_starting h c I1 I7 Hc Hno) as Hlead. cbn in Hlead.
  assert (∀ i, Z.testbit o i = true → possible i) as Hpo.
  { intros i. unfold o. rewrite testbit_set, orb_true_iff, Z.eqb_eq by lia. intros [<-|?]; auto. }
  apply hwp_bind, hwp_bind, hwp_bind, hwp_get. change (id h1) with h1. eapply (hwp_lift_k _ h1); [exact Hlead|]. intros w h2 F2 (->&Hl2&Hk2).
  apply hwp_bind, hwp_ret.
  destruct (I5 c Hc) as (q&Hq&Hat&Hon). apply hwp_bind, hwp_bind, hwp_get, hwp_bind.
  eapply (hwp_upd_rq c _ q); [by destruct (fr_rqs _ _ _ F2) as [-> _]; [fields|]|]. set (h3 := h2 <| h_rqs := _ |>).
  assert (hframe [f_rqs] h2 h3) as F3 by (split; done || set_solver).
  assert (rqs_ok (λ _, True) h3 (h_online h)) as Hq3.
  { destruct (fr_rqs _ _ _ F2) as [Hr2 Hd2]; [fields|]. intros i Hi. unfold h3. cbn. rewrite Hr2, Hd2. cbn. destruct (decide (i = c)) as [->|].
    - rewrite lookup_insert_eq. eexists. split_and!; [done|exact Hat|exact Hon].
    - rewrite lookup_insert_ne by done. by apply I5. }
  clearbody h3. apply hwp_call; [done|]. intros h4 F4. assert (hframe [f_k; f_rqs] h1 h4) as G4 by framed.
  apply hwp_bind. eapply (hwp_tick_start c h4 (h_online h)); [done|by rewrite (fr_ticks _ _ _ G4) by fields|done|]. intros h5 F5 Ht5.
  apply hwp_ret, hwp_ret. assert (hframe [f_k; f_rqs; f_ticks] h1 h5) as G by framed. pose proof (fr_online _ _ _ G) as Ho5. cbn in Ho5.
  assert (hframe [f_rqs; f_ticks] h2 h5) as G2 by framed.
  split; [|split; [eapply (counted_frame _ h h1); [exact G|fields|cbn; by rewrite Ho5|done..]|apply silent, (fr_warn _ _ _ G); fields]].
  split; cbn; rewrite ?Ho5, ?Hoc; try done.
  - intros i [= <-]. unfold o. by rewrite testbit_set, Z.eqb_refl by lia.
  - by rewrite (fr_active _ _ _ G) by fields.
  - by rewrite (fr_smt _ _ _ G) by fields.
  - eapply rqs_ok_frame; [exact F5|fields|]. eapply rqs_ok_frame; [exact F4|fields|done].
  - rewrite (fr_k _ _ _ G2) by fields. by eapply push_ok_core.
  - by rewrite (fr_k _ _ _ G2) by fields.
Qed.
Lemma hwp_rq_keep c f h mask Q :
  (∀ q, rq_online (f q) = rq_online q ∧ rq_rd (f q) = rq_rd q) → possible c → rqs_ok (λ _, True) h mask →
  (∀ h', hframe [f_rqs] h h' → rqs_ok (λ _, True) h' mask → Q tt h') → hwp (upd_hp_rq c f) h Q.
Proof.
  intros Hf Hc Hok HQ. destruct (Hok c Hc) as (q&Hq&Ha&Ho). eapply hwp_upd_rq; [done|]. apply HQ; [split; done || set_solver|].
  intros i Hi. cbn. destruct (decide (i = c)) as [->|]; [|rewrite lookup_insert_ne by done; by apply Hok].
  rewrite lookup_insert_eq. destruct (Hf q) as [Hf1 Hf2]. exists (f q). unfold attached. rewrite Hf1, Hf2. by split_and!.
Qed.
Lemma hwp_lift_rq c r h Q : k_rqs (h_k h) !! c = Some r → Q r h → hwp (lift (cpu_rq c)) h Q.
Proof. destruct h. intros Hr HQ. apply hwp_lift. by eapply wp_rq. Qed.
Lemma hwp_calc_load c h mask Q :
  possible c → is_Some (k_rqs (h_k h) !! c) → rqs_ok (λ _, True) h mask →
  (∀ h', hframe [f_rqs] h h' → rqs_ok (λ _, True) h' mask → Q tt h') → hwp (calc_load_migrate c) h Q.
Proof.
  intros Hc [r Hr] Hok HQ. apply hwp_bind. eapply hwp_lift_rq; [done|]. destruct (Hok c Hc) as (q&Hq&_). apply hwp_bind.
  eapply hwp_find; [exact Hq|]. destruct (calc_load_fold_active r (rq_calc_load_active q) 1) as [delta active]. apply hwp_bind.
  apply (hwp_rq_keep c _ _ mask); [done..|]. intros h1 F1 Hok1. apply hwp_when; intros _; [|by apply HQ].
  apply hwp_mod, HQ; [|exact Hok1]. destruct F1; by split.
Qed.
Lemma hwp_hrtick_clear c h mask Q :
  possible c → rqs_ok (λ _, True) h mask →
  (∀ h', hframe [f_rqs] h h' → rqs_ok (λ _, True) h' mask → Q tt h') → hwp (hrtick_clear c) h Q.
Proof.
  intros Hc Hok HQ. destruct (Hok c Hc) as (q&Hq&_). apply hwp_bind. eapply hwp_find; [done|].
  apply hwp_when; intros _; [by apply (hwp_rq_keep c _ _ mask)|apply HQ; [apply hframe_refl|done]].
Qed.

Lemma hp_inv_log h h' mid : hframe [] h h' → hp_inv (h, mid) → hp_inv (h', mid).
Proof.
  intros F [I1 I2 I3 I4 I5 I6 I7 I8]. cbn in *. pose proof (fr_online _ _ _ F) as Ho. assert (in_use h' mid = in_use h mid) as Hu by (unfold in_use; by rewrite Ho).
  split; cbn; rewrite ?Hu, ?Ho, ?(fr_k _ _ _ F), ?(fr_active _ _ _ F), ?(fr_smt _ _ _ F), ?(fr_ticks _ _ _ F) by fields; try done.
  eapply rqs_ok_frame; [exact F|fields|done].
Qed.
Lemma wait_empty_ok c h : hp_inv (h, Some c) → op_ok (op_wait c) h (Some c).
Proof.
  intros Hi. pose proof (hi_online _ Hi c (hi_mid _ Hi c eq_refl)) as Hc. destruct (push_ok_rq _ _ c (hi_push _ Hi) Hc) as [r Hr]. cbn in Hr.
  apply hwp_bind, hwp_bind. eapply hwp_lift_rq; [done|]. destruct (hotplug_quiescent r); [apply hwp_bind, hwp_call; [done|]; intros h' F|];
    apply hwp_ret, hwp_ret; (split; [|split]); try by (apply silent; first [done | apply (fr_warn _ _ _ F); fields]).
  - by eapply hp_inv_log.
  - by eapply (counted_frame _ h h); [exact F|fields|cbn; rewrite (fr_online _ _ _ F)|..].
  - done.
  - apply counted_refl.
Qed.

(** The warning of a CPU that dies with tasks, and the list of them. *)
Lemma hwp_vacated c r h Q :
  k_rqs (h_k h) !! c = Some r →
  (∀ h', hframe [f_warn] h h' →
     warnings h' = warnings h ++ (if hotplug_quiescent r then [] else [warn_not_vacated c]) → Q tt h') →
  hwp (hwhen (negb (nr_running r =? 1) || rq_has_pinned_tasks r) (call (call_warn (warn_not_vacated c));; dump_rq_tasks c)) h Q.
Proof.
  intros Hr HQ. assert (negb (nr_running r =? 1) || rq_has_pinned_tasks r = negb (hotplug_quiescent r)) as ->.
  { unfold hotplug_quiescent. by destruct (nr_running r =? 1), (rq_has_pinned_tasks r). }
  destruct (hotplug_quiescent r); cbn [negb hwhen]; [apply HQ; [apply hframe_refl|by rewrite app_nil_r]|].
  apply hwp_bind, hwp_mod. set (h1 := h <| h_log ::= _ |>). apply hwp_bind, hwp_get, hwp_mod. set (h2 := h1 <| h_log ::= _ |>). apply HQ.
  - assert (cpuset_calls h2 = cpuset_calls h) as Hc.
    { unfold h2. erewrite (cpuset_calls_snoc h1), (cpuset_calls_snoc h h1) by reflexivity. by rewrite !app_nil_r. }
    split; done || set_solver.
  - unfold h2. erewrite (warnings_snoc h1), (warnings_snoc h h1) by reflexivity. by rewrite app_nil_r.
Qed.
Lemma dying_ok c h : hp_inv (h, Some c) → op_ok (op_dying c) h (Some c).
Proof.
  intros [I1 I2 I3 I4 I5 I6 I7 I8]. cbn in *. specialize (I2 c eq_refl). pose proof (I1 c I2) as Hc. destruct (push_ok_rq _ _ c I6 Hc) as [r Hr].
  set (u := Z.clearbit (h_online h) c) in *. apply hwp_bind, hwp_bind.
  eapply (hwp_tick_stop c h (h_online h)); [done..|]. intros h1 F1 Ht1. assert (h_k h1 = h_k h) as Hk1 by (by rewrite (fr_k _ _ _ F1) by fields).
  apply hwp_bind. eapply (hwp_lift_rq _ r); [by rewrite Hk1|]. apply hwp_bind, (hwp_vacated c r h1); [by rewrite Hk1|]. intros h2 F2 W2.
  assert (hframe [f_ticks; f_warn] h h2) as G2 by framed. apply hwp_bind.
  eapply (hwp_calc_load c h2 u); [done|by rewrite (fr_k _ _ _ G2), Hr by fields|eapply rqs_ok_frame; [exact G2|fields|done]|]. intros h3 F3 Hq3.
  apply hwp_bind, hwp_call; [done|]. intros h4 F4. apply hwp_bind.
  eapply (hwp_hrtick_clear c h4 u); [done|eapply rqs_ok_frame; [exact F4|fields|done]|]. intros h5 F5 Hq5.
  assert (hframe [f_rqs; f_ticks; f_warn] h h5) as G5 by framed. apply hwp_bind.
  eapply (hwp_lift_k _ h5); [rewrite (fr_k _ _ _ G5) by fields; by apply lead_dying|]. intros [] h6 F6 [Hl6 Hk6]. apply hwp_ret, hwp_bind, hwp_mod, hwp_ret.
  assert (hframe [f_rqs; f_warn] h1 h5) as G15 by framed. assert (hframe [f_k; f_rqs] h2 h6) as G26 by framed.
  assert (hframe [f_k; f_rqs; f_ticks; f_warn] h h6) as G by framed. pose proof (fr_online _ _ _ G) as Ho.
  destruct (fr_frozen _ _ _ G) as [Hn6 Hc6]; [fields|]. split; [|split]; [split|split|]; cbn; rewrite ?Ho; fold u; try done.
  - intros i. unfold u. rewrite testbit_clear, andb_true_iff. intros [? _]. auto.
  - by rewrite (fr_active _ _ _ G) by fields.
  - by rewrite (fr_smt _ _ _ G) by fields.
  - change (rqs_ok (λ _, True) h6 u). eapply rqs_ok_frame; [exact F6|fields|done].
  - by eapply push_ok_core.
  - by rewrite (fr_ticks _ _ _ F6), (fr_ticks _ _ _ G15) by fields.
  - apply (fr_init _ _ _ G).
  - intros _. left. unfold cpus_in_use. cbn. rewrite Ho. done.
  - rewrite Hr. change (warnings h6 = warnings h ++ if hotplug_quiescent r then [] else [warn_not_vacated c]).
    rewrite (fr_warn _ _ _ G26), W2, (fr_warn _ _ _ F1) by fields. done.
Qed.

(** * Balance callbacks and ticks *)

Lemma sched_frame_refl k : sched_frame k k.
Proof. by split. Qed.
Lemma sched_frame_trans k1 k2 k3 : sched_frame k1 k2 → sched_frame k2 k3 → sched_frame k1 k3.
Proof. intros [A1 A2 A3] [B1 B2 B3]. split; [intros c; by rewrite B1|intros c; by rewrite B2|congruence]. Qed.
(** Queueing callbacks under the lock: the list of this CPU is empty, or has the push
    alone if that is installed. *)
Record queueing c (pushes : bool) (k k' : kstate) : Prop := {
  qu_core i : core <$> core_at k' i = core <$> core_at k i;
  qu_cb i : i ≠ c → callback_of k' i = callback_of k i;
  qu_here : ∃ b, callback_of k' c = Some b ∧ (b = Some balance_push_callback ↔ pushes = true);
  qu_head : k_heads k' balance_push_callback = k_heads k balance_push_callback;
}.
Lemma core_at_cb k c r b i :
  k_rqs k !! c = Some r → core_at (k <| k_rqs := <[c := r <| balance_callback := b |>]> (k_rqs k) |>) i = core_at k i.
Proof.
  intros Hr. unfold core_at. cbn. destruct (decide (i = c)) as [->|]; [by rewrite lookup_insert_eq, Hr|by rewrite lookup_insert_ne].
Qed.
Lemma queueing_refl c k b : callback_of k c = Some b → queueing c (bool_decide (b = Some balance_push_callback)) k k.
Proof. intros Hb. split; [done..| |done]. exists b. split; [done|]. by rewrite bool_decide_eq_true. Qed.
Lemma queueing_rq c pushes k k' :
  queueing c pushes k k' → ∃ r, k_rqs k' !! c = Some r ∧ (balance_callback r = Some balance_push_callback ↔ pushes = true).
Proof.
  intros [_ _ (b&Hb&Hp) _]. unfold callback_of in Hb. destruct (k_rqs k' !! c) as [r|]; [|done]. injection Hb as <-. by exists r.
Qed.
Lemma queue_one c pushes k0 k head func Q :
  queueing c pushes k0 k → head ≠ balance_push_callback → (∀ k', queueing c pushes k0 k' → Q tt k') →
  wp (queue_balance_callback c head func) k Q.
Proof.
  intros Hq Hh HQ. destruct (queueing_rq _ _ _ _ Hq) as (r&Hr&Hp). apply wp_bind, wp_get, wp_bind. eapply wp_rq; [done|].
  destruct (_ || _) eqn:Hb; [by apply wp_skip, HQ|]. apply orb_false_iff in Hb as [_ Hb]. apply bool_decide_eq_false in Hb.
  apply wp_bind, wp_modify. set (k1 := k <| k_heads := _ |>). assert (k_rqs k1 !! c = Some r) as Hr1 by done. eapply wp_upd_rq; [done|]. apply HQ.
  destruct Hq as [Q1 Q2 _ Q4]. split.
  - intros i. rewrite core_at_cb by done. apply Q1.
  - intros i Hi. rewrite <-Q2 by done. unfold callback_of. cbn. by rewrite lookup_insert_ne.
  - unfold callback_of. cbn. rewrite lookup_insert_eq. eexists. split; [done|]. rewrite <-Hp. naive_solver.
  - rewrite <-Q4. cbn. unfold set_head. by rewrite decide_False.
Qed.
Lemma queue_all_ok c pushes k0 cbs k Q :
  queueing c pushes k0 k → Forall (λ cb, cb.1 ≠ balance_push_callback) cbs → (∀ k', queueing c pushes k0 k' → Q tt k') →
  wp (queue_all c cbs) k Q.
Proof.
  intros Hq Hf HQ. revert k Hq. induction Hf as [|[head func] cbs Hh _ IH]; intros k Hq; [by apply wp_skip, HQ|].
  cbn [queue_all]. apply wp_bind. by eapply queue_one.
Qed.
Lemma queue_frame c cbs k b :
  callback_of k c = Some b → b = None ∨ b = Some balance_push_callback → Forall (λ cb, cb.1 ≠ balance_push_callback) cbs →
  wp (queue_all c cbs;; splice_balance_callbacks c) k (λ _ k', sched_frame k k').
Proof.
  intros Hb Hor Hf. apply wp_bind. eapply queue_all_ok; [by apply queueing_refl|done|]. intros k1 Hq.
  destruct (queueing_rq _ _ _ _ Hq) as (r&Hr&Hp). rewrite bool_decide_eq_true in Hp. destruct Hq as [Q1 Q2 (b1&Hb1&_) Q4].
  assert (callback_of k1 c = Some (balance_callback r)) as Hc1 by (unfold callback_of; by rewrite Hr).
  assert (balance_callback r = b → sched_frame k k1) as Hsame.
  { intros He. split; [done| |done]. intros i. destruct (decide (i = c)) as [->|]; [congruence|auto]. }
  apply wp_bind. eapply wp_rq; [done|]. destruct (balance_callback r) as [x|] eqn:Hx.
  2:{ apply wp_ret, Hsame. destruct Hor as [->|Hor]; [done|]. by apply Hp in Hor. }
  cbn [andb]. case_bool_decide as Hxp; [apply wp_ret, Hsame; naive_solver|].
  apply wp_bind. eapply wp_upd_rq; [done|]. apply wp_ret. split; [intros i; rewrite core_at_cb by done; apply Q1| |done].
  intros i. unfold callback_of. cbn. destruct (decide (i = c)) as [->|]; [|rewrite lookup_insert_ne by done; by apply Q2].
  rewrite lookup_insert_eq. change (Some (@None bcb_head) = callback_of k c). rewrite Hb. destruct Hor as [->|Hor]; [done|]. apply Hp in Hor. naive_solver.
Qed.

(** What the push does before and after it puts its callback back. *)
Lemma push_frame c k r :
  k_rqs k !! c = Some r → balance_callback r = Some balance_push_callback → is_Some (k_tasks k !! curr r) →
  bc_next (k_heads k balance_push_callback) = None → bc_func (k_heads k balance_push_callback) = balance_push_fn →
  wp (__balance_callbacks run_push 1 c) k (λ _ k', sched_frame k k').
Proof.
  intros Hr Hb [t Ht] Hn Hf. apply wp_bind, wp_bind. eapply wp_rq; [done|]. rewrite Hb. cbn [andb]. apply wp_bind. eapply wp_upd_rq; [done|]. apply wp_ret.
  cbn [do_balance_callbacks]. apply wp_bind, wp_get, wp_bind, wp_modify, wp_bind. cbn. rewrite Hf, Hn. cbn [run_push].
  set (k1 := k <| k_rqs := _ |> <| k_heads := _ |>). set (r1 := r <| balance_callback := None |>). assert (k_rqs k1 !! c = Some r1) as Hr1 by apply lookup_insert_eq.
  apply wp_bind. eapply wp_rq; [done|]. apply wp_bind. eapply wp_upd_rq; [done|]. set (k2 := k1 <| k_rqs := _ |>).
  assert (sched_frame k k2) as F2.
  { split; cbn.
    - intros i. unfold core_at. cbn. rewrite insert_insert_eq. destruct (decide (i = c)) as [->|]; [by rewrite lookup_insert_eq, Hr|by rewrite lookup_insert_ne].
    - intros i. unfold callback_of. cbn. rewrite insert_insert_eq. destruct (decide (i = c)) as [->|]; [rewrite lookup_insert_eq, Hr; cbn; by rewrite Hb|by rewrite lookup_insert_ne].
    - unfold set_head. rewrite decide_True by done. destruct (k_heads k balance_push_callback). cbn in *. by rewrite Hn. }
  assert (k_tasks k2 !! curr r1 = Some t) as Ht2 by done. clearbody k2. apply wp_bind, wp_get.
  destruct (_ || _); [by apply wp_skip|]. apply wp_bind. eapply wp_task; [done|]. destruct (_ || _).
  - apply wp_bind, wp_get, wp_when; intros _; [|by apply wp_skip]. eapply wp_mono; [apply wake_up_frame|]. intros ? k3 F3. apply wp_skip. by eapply sched_frame_trans.
  - apply wp_modify, wp_skip. destruct F2 as [F2a F2b F2c]. by split.
Qed.

Lemma inv_step h h' mid :
  hp_inv (h, mid) → hframe [f_k; f_ticks; f_warn] h h' → sched_frame (h_k h) (h_k h') → ticks_ok (h_ticks h') (h_online h) →
  hp_inv (h', mid) ∧ counted (h, mid) (h', mid).
Proof.
  intros [I1 I2 I3 I4 I5 I6 I7 I8] F Hk Ht. cbn in *. pose proof (fr_online _ _ _ F) as Ho. assert (in_use h' mid = in_use h mid) as Hu by (unfold in_use; by rewrite Ho).
  split; [split|by eapply (counted_frame _ h h); [exact F|fields|..]]; cbn; rewrite ?Hu, ?Ho; try done.
  - by rewrite (fr_active _ _ _ F) by fields.
  - by rewrite (fr_smt _ _ _ F) by fields.
  - eapply rqs_ok_frame; [exact F|fields|done].
  - by eapply push_ok_frame.
  - eapply lead_ok_core; [apply Hk|done].
Qed.
Lemma sched_op_ok {A} (m : M A) h mid :
  hp_inv (h, mid) → wp m (h_k h) (λ _ k, sched_frame (h_k h) k) →
  hwp (lift m;; mret mid) h (stepped h mid []).
Proof.
  intros Hi Hm. apply hwp_bind. eapply hwp_lift_k; [exact Hm|]. intros a h' F Hk. apply hwp_ret.
  destruct (inv_step h h' mid Hi) as [? ?]; [framed|done|rewrite (fr_ticks _ _ _ F) by fields; apply Hi|].
  split; [done|]. split; [done|]. apply silent, (fr_warn _ _ _ F). fields.
Qed.

(** A change of the tick of a CPU. *)
Lemma tick_step h h' mid c w :
  hp_inv (h, mid) → hframe [f_ticks] h h' → h_ticks h' = <[c := w]> (h_ticks h) →
  tick_ok w (Z.testbit (h_online h) c && negb (housekeeping_cpu c)) → stepped h mid [] mid h'.
Proof.
  intros Hi F Ht Hw. destruct (inv_step h h' mid Hi) as [? ?]; [framed|rewrite (fr_k _ _ _ F) by fields; apply sched_frame_refl| |].
  - rewrite Ht. eapply ticks_upd; [apply Hi|done|done].
  - split; [done|]. split; [done|]. apply silent, (fr_warn _ _ _ F). fields.
Qed.
Lemma remote_tick_reads c k Q :
  wp (remote_tick c) k Q → ∃ r t, k_rqs k !! c = Some r ∧ k_tasks k !! curr r = Some t.
Proof.
  unfold wp, remote_tick, mbind, M_bind, cpu_rq. destruct (k_rqs k !! c) as [r|]; [|done]. cbn.
  unfold ops_of, mbind, M_bind, task. destruct (k_tasks k !! curr r) as [t|] eqn:Ht; [|done]. intros _. by exists r, t.
Qed.
Lemma hwp_lift_task p t h Q : k_tasks (h_k h) !! p = Some t → Q t h → hwp (lift (task p)) h Q.
Proof. destruct h. intros Ht HQ. apply hwp_lift. by eapply wp_task. Qed.
Lemma hwp_warn w b h Q :
  (∀ h', hframe [f_warn] h h' → warnings h' = warnings h ++ (if b : bool then [w] else []) → Q tt h') → hwp (warn_on w b) h Q.
Proof.
  intros HQ. destruct b; cbn [warn_on hwhen]; [|apply HQ; [apply hframe_refl|by rewrite app_nil_r]].
  apply hwp_mod. set (h1 := h <| h_log ::= _ |>). apply HQ; [|by apply (warnings_snoc h h1 (call_warn w))].
  assert (cpuset_calls h1 = cpuset_calls h) as Hc by (unfold h1; erewrite (cpuset_calls_snoc h) by reflexivity; apply app_nil_r).
  split; done || set_solver.
Qed.
Lemma tick_run_ok c h mid : hp_inv (h, mid) → may_run (op_tick c) h mid → op_ok (op_tick c) h mid.
Proof.
  intros Hi [(w&Hw&Hp) Hrun]. pose proof (proj2 (hi_ticks _ Hi) c w Hw) as [Hpl Hs]. cbn in Hs.
  destruct (remote_tick_reads _ _ _ Hrun) as (r&t&Hr&Ht). apply hwp_bind. eapply hwp_upd_tick; [done|].
  set (w1 := w <| tw_pending := _ |> <| tw_run ::= _ |>). set (h1 := h <| h_ticks := _ |>). assert (hframe [f_ticks] h h1) as F1 by (split; done || set_solver).
  assert (ticks_ok (h_ticks h1) (h_online h)) as Ht1.
  { eapply ticks_upd; [apply Hi| |done]. split; [|exact Hs]. unfold tick_places in *. cbn. rewrite Hp in Hpl. cbn in Hpl. lia. }
  assert (h_k h1 = h_k h) as Hk1 by done. clearbody h1. apply hwp_bind, hwp_bind, hwp_get. rewrite (fr_online _ _ _ F1).
  assert (∀ h2 ws, hframe [f_k; f_warn] h1 h2 → sched_frame (h_k h) (h_k h2) → warnings h2 = warnings h1 ++ ws → stepped h mid ws mid h2) as Hend.
  { intros h2 ws F2 Hk2 Hws. destruct (inv_step h h2 mid Hi) as [? ?]; [framed|done|by rewrite (fr_ticks _ _ _ F2) by fields|]. split; [done|]. split; [done|].
    by rewrite Hws, (fr_warn _ _ _ F1) by fields. }
  cbn [due_warnings]. rewrite Hr. cbn [mbind option_bind]. rewrite Ht. cbn [fmap option_fmap option_map].
  apply hwp_when; intros Hc; rewrite Hc; cbn [andb]; [|apply hwp_ret, Hend; [apply hframe_refl|rewrite Hk1; apply sched_frame_refl|by rewrite app_nil_r]].
  apply hwp_bind. eapply hwp_lift_rq; [by rewrite Hk1|]. apply hwp_bind. eapply hwp_lift_task; [by rewrite Hk1|].
  apply hwp_bind, hwp_warn. intros h2 F2 W2. assert (h_k h2 = h_k h) as Hk2 by (by rewrite (fr_k _ _ _ F2) by fields).
  apply hwp_bind. eapply (hwp_lift_k _ h2); [rewrite Hk2; exact Hrun|]. intros [] h3 F3 Hk3. apply hwp_call; [done|]. intros h4 F4.
  apply hwp_ret, Hend; [framed|by rewrite (fr_k _ _ _ F4) by fields|]. by rewrite (fr_warn _ _ _ F4), (fr_warn _ _ _ F3), W2 by fields.
Qed.
Lemma tick_state_ok c h mid : hp_inv (h, mid) → may_run (op_tick_state c) h mid → op_ok (op_tick_state c) h mid.
Proof.
  intros Hi (w&Hw&Hrun). pose proof (proj2 (hi_ticks _ Hi) c w Hw) as [Hpl Hs]. cbn in Hs. unfold tick_places in Hpl.
  apply hwp_bind, hwp_bind. eapply hwp_find; [done|]. case_decide as Hoff; [lia|].
  assert (tw_state w = TICK_SCHED_REMOTE_RUNNING ∨ tw_state w = TICK_SCHED_REMOTE_OFFLINING ∧ Z.testbit (h_online h) c && negb (housekeeping_cpu c) = false) as [Hr|[Hr Hon]].
  { destruct (_ && _); [by left|]. destruct Hs; [done|by right]. }
  - rewrite Hr. apply hwp_bind, hwp_ret, hwp_bind, hwp_ret, hwp_ret, hwp_bind. eapply hwp_upd_tick; [done|]. apply hwp_ret.
    eapply (tick_step h _ mid c); [done|split; done || set_solver|done|]. split; cbn; [|exact Hs]. unfold tick_places. cbn. rewrite decide_False by done. lia.
  - rewrite Hr. apply hwp_bind. eapply hwp_upd_tick; [done|]. apply hwp_bind, hwp_ret, hwp_ret, hwp_bind. eapply hwp_upd_tick; [apply lookup_insert_eq|]. apply hwp_ret.
    eapply (tick_step h _ mid c); [done|split; done || set_solver|apply insert_insert_eq|]. rewrite Hon. split; cbn; [|rewrite Hr; by left].
    unfold tick_places. cbn. case_decide as Hd; [lia|]. rewrite Hr in Hd. done.
Qed.
Lemma tick_queue_ok c h mid : hp_inv (h, mid) → may_run (op_tick_queue c) h mid → op_ok (op_tick_queue c) h mid.
Proof.
  intros Hi (w&Hw&Hrun). pose proof (proj2 (hi_ticks _ Hi) c w Hw) as [Hpl Hs]. cbn in Hs. unfold tick_places in Hpl. case_decide as Hoff; [lia|].
  apply hwp_bind. eapply hwp_upd_tick; [done|]. apply hwp_bind. eapply hwp_upd_tick; [apply lookup_insert_eq|]. apply hwp_ret.
  eapply (tick_step h _ mid c); [done|split; done || set_solver|apply insert_insert_eq|]. split; [|exact Hs].
  unfold tick_places. cbn. rewrite decide_False by done. destruct (tw_pending w); lia.
Qed.

Lemma all_ops_ok op h mid : hp_inv (h, mid) → may_run op h mid → op_ok op h mid.
Proof.
  intros Hi Hm. destruct op; cbn in Hm.
  - destruct Hm as (->&?&?). by apply start_ok.
  - subst mid. by apply activate_ok.
  - destruct Hm as [-> ?]. by apply deactivate_ok.
  - subst mid. by apply wait_empty_ok.
  - subst mid. by apply dying_ok.
  - destruct Hm as [Hc Hf]. apply sched_op_ok; [done|]. eapply queue_frame; [by apply (po_cb _ _ (hi_push _ Hi))| |done].
    destruct (Z.testbit _ c); auto.
  - destruct Hm as (r&Hr&Hb&Ht). apply sched_op_ok; [done|]. destruct (po_head _ _ (hi_push _ Hi)). by eapply push_frame.
  - by apply tick_run_ok.
  - by apply tick_state_ok.
  - by apply tick_queue_ok.
Qed.
Lemma step_ok x x' : hp_inv x → hp_step x x' → hp_inv x' ∧ counted x x'.
Proof.
  intros Hi Hs. destruct Hs as [op h mid h' mid' Hm Hr|h mid k Hk|h mid b].
  - pose proof (all_ops_ok op h mid Hi Hm) as Hok. unfold op_ok, hwp in Hok. rewrite Hr in Hok. by destruct Hok as (?&?&_).
  - apply inv_step; [done|split; done || set_solver|done|apply Hi].
  - split; [|split; [done|auto]]. destruct Hi; by split.
Qed.

(** C29: CPUs that go up and down in any order, one at a time, with steps back and failed
    attempts, while tasks run, callbacks are queued and taken off under the lock of a run
    queue and ticks are sent to the CPUs: the CPUs in use are the active ones, those whose
    run queues are on line in their root domains, and those that do not push their tasks
    away, on which no callback waits; [sched_smt_present] counts the cores with several of
    them; the online threads of every core follow one leader; the remote tick of a CPU is
    in one place while the CPU is up.  No step ends in an oops, and the warnings a step
    prints are exactly those of [due_warnings]: none about callbacks, leaders and the state
    of remote ticks; that a CPU was not vacated exactly if it dies when its run queue has
    more than the hotplug thread or tasks that cannot leave; and that a remote tick is late
    exactly if the running task was not charged for three seconds. *)
Theorem hotplug_invariant x x' op :
  hp_inv x → rtc hp_step x x' → hp_inv x' ∧
  (may_run op x'.1 x'.2 → ∃ mid h', run_op op x'.2 x'.1 = Ok (mid, h') ∧ warnings h' = warnings x'.1 ++ due_warnings op x'.1).
Proof.
  intros Hi Hs. assert (hp_inv x') as Hi' by (induction Hs as [|x y z Hxy Hyz IH]; [done|]; by apply IH, (step_ok x)). split; [done|].
  intros Hm. destruct x' as [h mid]. pose proof (all_ops_ok op h mid Hi' Hm) as Hok. unfold op_ok, hwp in Hok. cbn.
  destruct (run_op op mid h) as [[mid' h']|]; [|done]. destruct Hok as (_&_&Hw). eauto.
Qed.

(** * Suspend *)

Lemma cpus_in_use_bounds x : 0 <= cpus_in_use x <= Z.max 0 nr_cpu_ids.
Proof.
  unfold cpus_in_use, cpumask_weight, mask_cpus. pose proof (length_filter (λ c, Z.testbit (in_use x.1 x.2) c = true) (seqZ 0 nr_cpu_ids)) as Hl.
  rewrite length_seqZ in Hl. lia.
Qed.
(** Since suspend began in [x0], no cpuset has been updated, and the CPUs taken out of use
    have been counted. *)
Record suspended (x0 x : hstate * option Z) : Prop := {
  su_inv : hp_inv x;
  su_init : sched_smp_initialized x.1 = true;
  su_count : num_cpus_frozen x.1 = cpus_in_use x0 - cpus_in_use x;
  su_calls : ∃ l, cpuset_calls x.1 = cpuset_calls x0.1 ++ l ∧ call_cpuset_update ∉ l;
}.
Lemma suspended_step x0 x x' :
  nr_cpu_ids < 2 ^ 31 → suspended x0 x → hp_step x x' → cpuhp_tasks_frozen x.1 = true → cpus_in_use x' < cpus_in_use x0 → suspended x0 x'.
Proof.
  intros Hnr [S1 S2 S3 (l&S4&S5)] Hs Hf Hlt. destruct (step_ok x x' S1 Hs) as [Hi [C1 C2]]. pose proof (cpus_in_use_bounds x0). pose proof (cpus_in_use_bounds x').
  destruct (C2 S2) as [(Hu&Hn&Hl)|[[Hu Hl]|[Hu Hl]]]; unfold inactive_calls, active_calls in Hl; rewrite ?Hf in Hl; (split; [done|congruence|..]).
  - lia.
  - exists l. by rewrite Hl.
  - destruct Hl as [-> _]. rewrite wrap32_small by (unfold is_int; lia). lia.
  - destruct Hl as [_ ->]. rewrite S4, <-app_assoc. eexists. split; [done|]. set_solver.
  - destruct Hl as [-> _]. rewrite wrap32_small by (unfold is_int; lia). lia.
  - destruct Hl as [Hn ->]. rewrite wrap32_small in Hn by (unfold is_int; lia). destruct (Z.eqb_spec (num_cpus_frozen x'.1) 0); [lia|].
    rewrite S4, app_nil_r, <-app_assoc. eexists. split; [done|]. set_solver.
Qed.

(** C30: Suspend and resume, in which CPUs go down and come up again with tasks frozen: as long
    as CPUs are missing the cpusets are not updated, and [num_cpus_frozen] is the number of
    CPUs missing; the step that brings back the last of them rebuilds the domains by the
    cpusets once, and leaves the count at zero. *)
Theorem suspend_resume x0 x x' :
  hp_inv x0 → sched_smp_initialized x0.1 = true → num_cpus_frozen x0.1 = 0 → nr_cpu_ids < 2 ^ 31 →
  rtc (λ a b, hp_step a b ∧ cpuhp_tasks_frozen a.1 = true ∧ cpus_in_use b < cpus_in_use x0) x0 x →
  num_cpus_frozen x.1 = cpus_in_use x0 - cpus_in_use x ∧
  (∃ l, cpuset_calls x.1 = cpuset_calls x0.1 ++ l ∧ call_cpuset_update ∉ l) ∧
  (hp_step x x' → cpuhp_tasks_frozen x.1 = true → cpus_in_use x < cpus_in_use x0 → cpus_in_use x' = cpus_in_use x0 →
   num_cpus_frozen x'.1 = 0 ∧
   cpuset_calls x'.1 = cpuset_calls x.1 ++ [call_cpuset_reset; call_cpuset_force_rebuild; call_cpuset_update]).
Proof.
  intros Hi Hin Hn Hnr Hrun. assert (suspended x0 x) as Hsu.
  { refine (rtc_ind_r (suspended x0) x0 _ _ x Hrun); [|intros y z _ (Hs&Hf&Hlt) IH; by eapply suspended_step].
    split; [done..|lia|]. exists []. rewrite app_nil_r. split; [done|set_solver]. }
  destruct Hsu as [S1 S2 S3 S4]. split_and!; [done..|]. intros Hs Hf Hlt Heq. destruct (step_ok x x' S1 Hs) as [_ [C1 C2]].
  pose proof (cpus_in_use_bounds x0). pose proof (cpus_in_use_bounds x).
  destruct (C2 S2) as [(Hu&_)|[[Hu _]|[Hu Hl]]]; [lia..|]. unfold active_calls in Hl. rewrite Hf in Hl. destruct Hl as [Hn' Hl].
  rewrite wrap32_small in Hn' by (unfold is_int; lia). assert (num_cpus_frozen x'.1 = 0) as Hz by lia. by rewrite Hl, Hz.
Qed.
End machine.
