(* ===== verification/TaskGroup.v ===== *)
(** Task groups (kernel/sched/core.c): the walk over the tree of groups, the bandwidth
    limits of the fair class with their hierarchy, and the cgroup files [cpu.cfs_*],
    [cpu.max], [cpu.shares] and [cpu.uclamp].

    A group is identified by a number standing for its address; [root_task_group] is 0.
    Locks, RCU and the lists of [struct list_head] are not part of the state: the
    children of a group are a sequence. *)
From S2P Require Import Prelude Rbtree KState HvfValue HvfClass HvfSmp Policy Uclamp Core Load.
From Stdlib Require Import Ascii.

(** * The walk *)

Section walk.
Context {X : Type} (children : nat → list nat) (parent : nat → option nat).

(** Where [walk_tg_tree_from] is: at the label [down], after the visit of [child] in the
    loop over the children of [p], or at the call of [up]. *)
Inductive walk_pc := at_down (p : nat) | at_next (p child : nat) | at_up (p : nat).

(** One step of the gotos; [inr] is the returned value. *)
Definition walk_step (from : nat) (down up : nat → X → Z * X) (pc : walk_pc) (x : X) : walk_pc * X + Z * X :=
  match pc with
  | at_down p =>
      let '(ret, x) := down p x in
      if negb (ret =? 0) then inr (ret, x)
      else match children p with c :: _ => inl (at_down c, x) | [] => inl (at_up p, x) end
  | at_next p child =>
      match next_of child (children p) with Some c => inl (at_down c, x) | None => inl (at_up p, x) end
  | at_up p =>
      let '(ret, x) := up p x in
      if negb (ret =? 0) || (p =? from)%nat then inr (ret, x)
      else match parent p with Some q => inl (at_next q p, x) | None => inr (ret, x) end
  end.

(** [fuel] bounds the number of steps. *)
Fixpoint walk_run (fuel : nat) (from : nat) (down up : nat → X → Z * X) (pc : walk_pc) (x : X) : option (Z * X) :=
  match walk_step from down up pc x with
  | inr res => Some res
  | inl (pc', x') => match fuel with O => None | S fuel' => walk_run fuel' from down up pc' x' end
  end.
Definition walk_tg_tree_from (fuel : nat) (from : nat) (down up : nat → X → Z * X) (x : X) : option (Z * X) :=
  walk_run fuel from down up (at_down from) x.

Definition tg_nop (tg : nat) (x : X) : Z * X := (0, x).
End walk.

(** * Bandwidth *)

Definition RUNTIME_INF := 2 ^ 64 - 1.
Definition BW_SHIFT := 20.
Definition BW_UNIT := Z.shiftl 1 BW_SHIFT.
Definition MAX_BW_BITS := 64 - BW_SHIFT.
Definition MAX_BW := Z.shiftl 1 MAX_BW_BITS - 1.
Definition NSEC_PER_USEC := 1000.
Definition U64_MAX := 2 ^ 64 - 1.
Definition max_cfs_quota_period := 1000000000.
Definition min_cfs_quota_period := 1000000.
Definition max_cfs_runtime := MAX_BW * NSEC_PER_USEC.

Definition to_ratio (period runtime : Z) : Z :=
  if runtime =? RUNTIME_INF then BW_UNIT
  else if period =? 0 then 0
  else u64 (Z.shiftl runtime BW_SHIFT) / period.

(** [struct cfs_bandwidth]; [cb_data] holds the words of the timers and of the run time,
    which belong to fair.c. *)
Record cfs_bandwidth := {
  cb_period : Z; cb_quota : Z; cb_burst : Z; hierarchical_quota : Z; cb_data : list Z
}.
#[export] Instance eta_cfs_bandwidth : Eta cfs_bandwidth := λ r,
  {| cb_period := cb_period r; cb_quota := cb_quota r; cb_burst := cb_burst r;
     hierarchical_quota := hierarchical_quota r; cb_data := cb_data r |}.

(** The fields of the [struct cfs_rq] of a group on a CPU. *)
Record cfs_rq_bw := {
  runtime_enabled : bool; runtime_remaining : Z; throttled : bool
}.
#[export] Instance eta_cfs_rq_bw : Eta cfs_rq_bw := λ r,
  {| runtime_enabled := runtime_enabled r; runtime_remaining := runtime_remaining r; throttled := throttled r |}.

Record task_group := {
  tg_parent : option nat; tg_children : list nat; tg_bandwidth : cfs_bandwidth;
  tg_cfs_rq : gmap Z cfs_rq_bw; tg_shares : Z
}.
#[export] Instance eta_task_group : Eta task_group := λ r,
  {| tg_parent := tg_parent r; tg_children := tg_children r; tg_bandwidth := tg_bandwidth r;
     tg_cfs_rq := tg_cfs_rq r; tg_shares := tg_shares r |}.

(** The groups, and how many have a limit ([cfs_bandwidth_usage_inc] and [_dec]). *)
Record groups := {
  tgs : gmap nat task_group; cfs_bandwidth_used : Z
}.
#[export] Instance eta_groups : Eta groups := λ r, {| tgs := tgs r; cfs_bandwidth_used := cfs_bandwidth_used r |}.

Definition root_task_group : nat := 0.

(** The functions of fair.c that refill a group's run time, start its timer and
    unthrottle a run queue; whether the unified hierarchy is used; the online CPUs. *)
Class GroupLib := {
  __refill_cfs_bandwidth_runtime : cfs_bandwidth → list Z;
  start_cfs_bandwidth : cfs_bandwidth → list Z;
  unthrottle_cfs_rq : cfs_rq_bw → cfs_rq_bw;
  cgroup_on_dfl : bool;
  group_cpus : list Z;
}.

Definition tg_get_cfs_quota (b : cfs_bandwidth) : Z :=
  if cb_quota b =? RUNTIME_INF then -1 else wrap64 (cb_quota b / NSEC_PER_USEC).
Definition tg_get_cfs_period (b : cfs_bandwidth) : Z := wrap64 (cb_period b / NSEC_PER_USEC).
Definition tg_get_cfs_burst (b : cfs_bandwidth) : Z := wrap64 (cb_burst b / NSEC_PER_USEC).

(** [struct cfs_schedulable_data]: the group whose limit is to change, and the limit. *)
Record cfs_schedulable_data := {
  csd_tg : nat; csd_period : Z; csd_quota : Z
}.

Definition normalize_cfs_quota (tg : nat) (b : cfs_bandwidth) (d : cfs_schedulable_data) : Z :=
  let period := if (tg =? csd_tg d)%nat then csd_period d else u64 (tg_get_cfs_period b) in
  let quota := if (tg =? csd_tg d)%nat then csd_quota d else u64 (tg_get_cfs_quota b) in
  if quota =? RUNTIME_INF then RUNTIME_INF else to_ratio period quota.

Section bandwidth.
Context {GL : GroupLib}.

(** The quotas are signed 64-bit numbers here, [RUNTIME_INF] being -1. *)
Definition INF64 := wrap64 RUNTIME_INF.

(** [None]: -EINVAL. *)
Definition combined_quota (quota parent_quota : Z) : option Z :=
  if cgroup_on_dfl then
    Some (if quota =? INF64 then parent_quota
          else if negb (parent_quota =? INF64) then Z.min quota parent_quota else quota)
  else if quota =? INF64 then Some parent_quota
  else if negb (parent_quota =? INF64) && (parent_quota <? quota) then None
  else Some quota.

Definition tg_cfs_schedulable_down (d : cfs_schedulable_data) (tg : nat) (gs : gmap nat task_group)
    : Z * gmap nat task_group :=
  match gs !! tg with
  | None => (- EINVAL, gs)
  | Some g =>
      let b := tg_bandwidth g in
      let quota :=
        match tg_parent g with
        | None => Some INF64
        | Some q =>
            match gs !! q with
            | None => None
            | Some gp => combined_quota (wrap64 (normalize_cfs_quota tg b d)) (hierarchical_quota (tg_bandwidth gp))
            end
        end in
      match quota with
      | None => (- EINVAL, gs)
      | Some quota => (0, <[tg := g <| tg_bandwidth ::= λ b, b <| hierarchical_quota := quota |> |>]> gs)
      end
  end.

Definition children_of (gs : gmap nat task_group) (tg : nat) : list nat :=
  match gs !! tg with Some g => tg_children g | None => [] end.
Definition parent_of (gs : gmap nat task_group) (tg : nat) : option nat :=
  match gs !! tg with Some g => tg_parent g | None => None end.

(** The links of the groups do not change during the walk.  [None]: the bound on the
    steps of the walk was reached. *)
Definition __cfs_schedulable (tg : nat) (period quota : Z) (gs : gmap nat task_group)
    : option (Z * gmap nat task_group) :=
  let d := if quota =? RUNTIME_INF then {| csd_tg := tg; csd_period := period; csd_quota := quota |}
           else {| csd_tg := tg; csd_period := period / NSEC_PER_USEC; csd_quota := quota / NSEC_PER_USEC |} in
  walk_tg_tree_from (children_of gs) (parent_of gs) (3 * size gs) root_task_group
    (tg_cfs_schedulable_down d) tg_nop gs.

(** The run queues of the group on the online CPUs. *)
Definition set_runtime_enabled (enabled : bool) (rqs : gmap Z cfs_rq_bw) : gmap Z cfs_rq_bw :=
  foldl (λ m i, alter (λ q,
    let q := q <| runtime_enabled := enabled |> <| runtime_remaining := 0 |> in
    if throttled q then unthrottle_cfs_rq q else q) i m) rqs group_cpus.

(** The checks on the numbers. *)
Definition cfs_limits_ok (period quota burst : Z) : bool :=
  negb ((quota <? min_cfs_quota_period) || (period <? min_cfs_quota_period)) &&
  negb (max_cfs_quota_period <? period) &&
  negb (negb (quota =? RUNTIME_INF) && (max_cfs_runtime <? quota)) &&
  negb (negb (quota =? RUNTIME_INF) && ((quota <? burst) || (max_cfs_runtime <? u64 (burst + quota)))).

Definition tg_set_cfs_bandwidth (tg : nat) (period quota burst : Z) (st : groups) : option (Z * groups) :=
  if (tg =? root_task_group)%nat then Some (- EINVAL, st) else
  if negb (cfs_limits_ok period quota burst) then Some (- EINVAL, st) else
  match __cfs_schedulable tg period quota (tgs st) with
  | None => None
  | Some (ret, gs) =>
      if negb (ret =? 0) then Some (ret, st <| tgs := gs |>) else
      match gs !! tg with
      | None => None
      | Some g =>
          let runtime_enabled := negb (quota =? RUNTIME_INF) in
          let runtime_was_enabled := negb (cb_quota (tg_bandwidth g) =? RUNTIME_INF) in
          let b := (tg_bandwidth g) <| cb_period := period |> <| cb_quota := quota |> <| cb_burst := burst |> in
          let b := b <| cb_data := __refill_cfs_bandwidth_runtime b |> in
          let b := if runtime_enabled then b <| cb_data := start_cfs_bandwidth b |> else b in
          let g := g <| tg_bandwidth := b |> <| tg_cfs_rq ::= set_runtime_enabled runtime_enabled |> in
          let used :=
            cfs_bandwidth_used st + (if runtime_enabled && negb runtime_was_enabled then 1 else 0)
                                  - (if runtime_was_enabled && negb runtime_enabled then 1 else 0) in
          Some (0, {| tgs := <[tg := g]> gs; cfs_bandwidth_used := used |})
      end
  end.

Definition tg_set_cfs_quota (tg : nat) (cfs_quota_us : Z) (st : groups) : option (Z * groups) :=
  g ← tgs st !! tg;
  let b := tg_bandwidth g in
  if cfs_quota_us <? 0 then tg_set_cfs_bandwidth tg (cb_period b) RUNTIME_INF (cb_burst b) st
  else if u64 cfs_quota_us <=? U64_MAX / NSEC_PER_USEC
  then tg_set_cfs_bandwidth tg (cb_period b) (u64 (u64 cfs_quota_us * NSEC_PER_USEC)) (cb_burst b) st
  else Some (- EINVAL, st).
Definition tg_set_cfs_period (tg : nat) (cfs_period_us : Z) (st : groups) : option (Z * groups) :=
  g ← tgs st !! tg;
  let b := tg_bandwidth g in
  if U64_MAX / NSEC_PER_USEC <? u64 cfs_period_us then Some (- EINVAL, st)
  else tg_set_cfs_bandwidth tg (u64 (u64 cfs_period_us * NSEC_PER_USEC)) (cb_quota b) (cb_burst b) st.
Definition tg_set_cfs_burst (tg : nat) (cfs_burst_us : Z) (st : groups) : option (Z * groups) :=
  g ← tgs st !! tg;
  let b := tg_bandwidth g in
  if U64_MAX / NSEC_PER_USEC <? u64 cfs_burst_us then Some (- EINVAL, st)
  else tg_set_cfs_bandwidth tg (cb_period b) (cb_quota b) (u64 (u64 cfs_burst_us * NSEC_PER_USEC)) st.

(** The files of the first hierarchy. *)
Definition cpu_cfs_quota_read_s64 (g : task_group) : Z := tg_get_cfs_quota (tg_bandwidth g).
Definition cpu_cfs_quota_write_s64 : nat → Z → groups → option (Z * groups) := tg_set_cfs_quota.
Definition cpu_cfs_period_read_u64 (g : task_group) : Z := u64 (tg_get_cfs_period (tg_bandwidth g)).
Definition cpu_cfs_period_write_u64 (tg : nat) (v : Z) : groups → option (Z * groups) := tg_set_cfs_period tg (wrap64 v).
Definition cpu_cfs_burst_read_u64 (g : task_group) : Z := u64 (tg_get_cfs_burst (tg_bandwidth g)).
Definition cpu_cfs_burst_write_u64 (tg : nat) (v : Z) : groups → option (Z * groups) := tg_set_cfs_burst tg (wrap64 v).

Definition tg_weight (g : task_group) : Z := scale_load_down (tg_shares g).
Definition MAX_SHARES := Z.shiftl 1 18.
(** [set_shares] is [sched_group_set_shares] of fair.c: the error and the new shares. *)
Definition cpu_shares_write_u64 (set_shares : Z → Z → Z * Z) (shares shareval : Z) : Z * Z :=
  let shareval := if scale_load_down (2 ^ 64 - 1) <? shareval then MAX_SHARES else shareval in
  set_shares shares (u64 (scale_load shareval)).
Definition cpu_shares_read_u64 (g : task_group) : Z := tg_weight g.
End bandwidth.

(** * Text *)

(** Decimal digits, most significant first; 20 digits are enough for 64 bits. *)
Fixpoint dec_digits (fuel : nat) (n : Z) : list Z :=
  match fuel with
  | O => []
  | S fuel' => if n <? 10 then [n] else dec_digits fuel' (n / 10) ++ [n mod 10]
  end.
Definition digit_char (d : Z) : ascii := ascii_of_nat (48 + Z.to_nat d).
Definition char_digit (c : ascii) : option Z :=
  let n := Z.of_nat (nat_of_ascii c) in if (48 <=? n) && (n <=? 57) then Some (n - 48) else None.
(** ["%ld"] of a number that is not negative. *)
Definition print_long (n : Z) : list ascii := digit_char <$> dec_digits 20 n.

(** The word "max". *)
Definition str_max : list ascii := ["m"; "a"; "x"]%char.

(** [isspace]. *)
Definition isspace (c : ascii) : bool :=
  let n := nat_of_ascii c in (n =? 32)%nat || ((9 <=? n)%nat && (n <=? 13)%nat).
Fixpoint skip_spaces (l : list ascii) : list ascii :=
  match l with c :: l' => if isspace c then skip_spaces l' else l | [] => [] end.
(** ["%<width>s"]: the word and the rest. *)
Fixpoint take_word (width : nat) (l : list ascii) : list ascii * list ascii :=
  match width, l with
  | S width', c :: l' => if isspace c then ([], l) else let '(w, rest) := take_word width' l' in (c :: w, rest)
  | _, _ => ([], l)
  end.
(** ["%llu"] without the leading spaces: the value of the leading digits, modulo 2^64. *)
Fixpoint take_number (acc : Z) (l : list ascii) : Z :=
  match l with
  | c :: l' => match char_digit c with Some d => take_number (u64 (acc * 10 + d)) l' | None => acc end
  | [] => acc
  end.
Definition scan_llu (l : list ascii) : option Z :=
  match l with
  | c :: _ => match char_digit c with Some _ => Some (take_number 0 l) | None => None end
  | [] => None
  end.

Definition cpu_period_quota_print (period quota : Z) : list ascii :=
  (if quota <? 0 then str_max else print_long quota) ++ [" "%char] ++ print_long period ++ [ascii_of_nat 10].

(** The error, the period and the quota; [period] is the current period in
    microseconds. *)
Definition cpu_period_quota_parse (buf : list ascii) (period : Z) : option (Z * Z) :=
  let '(tok, rest) := take_word 20 (skip_spaces buf) in
  match tok with
  | [] => None
  | _ =>
      let period := match scan_llu (skip_spaces rest) with Some p => p | None => period end in
      let period := u64 (period * NSEC_PER_USEC) in
      match scan_llu tok with
      | Some q => Some (period, u64 (q * NSEC_PER_USEC))
      | None => if bool_decide (tok = str_max) then Some (period, RUNTIME_INF) else None
      end
  end.

Definition cpu_max_show (g : task_group) : list ascii :=
  cpu_period_quota_print (tg_get_cfs_period (tg_bandwidth g)) (tg_get_cfs_quota (tg_bandwidth g)).
Definition cpu_max_write {GL : GroupLib} (tg : nat) (buf : list ascii) (st : groups) : option (Z * groups) :=
  g ← tgs st !! tg;
  let b := tg_bandwidth g in
  match cpu_period_quota_parse buf (u64 (tg_get_cfs_period b)) with
  | None => Some (- EINVAL, st)
  | Some (period, quota) =>
      '(ret, st) ← tg_set_cfs_bandwidth tg period quota (cb_burst b) st;
      Some (if ret =? 0 then Z.of_nat (length buf) else ret, st)
  end.

(** * Clamps of groups *)

(** The clamps of a group (CONFIG_UCLAMP_TASK_GROUP): the requested values with the
    percentages they were written as, and the effective values. *)
Record tg_clamps := {
  tc_tg : nat; tc_req : uclamp_id → uclamp_se; tc_pct : uclamp_id → Z; tc_eff : uclamp_id → uclamp_se
}.
#[export] Instance eta_tg_clamps : Eta tg_clamps := λ r,
  {| tc_tg := tc_tg r; tc_req := tc_req r; tc_pct := tc_pct r; tc_eff := tc_eff r |}.
Inductive cg_tree := CGNode (g : tg_clamps) (ts : list cg_tree).

Definition UCLAMP_PERCENT_SHIFT := 2.
Definition POW10_PERCENT := 100.
Definition UCLAMP_PERCENT_SCALE := 100 * POW10_PERCENT.

(** [struct uclamp_request]. *)
Record uclamp_request := {
  ureq_percent : Z; ureq_util : Z; ureq_ret : Z
}.

Section clamps.
Context {UC : UclampConfig}.
(** [cgroup_parse_float] with two digits after the point: the error and the value. *)
Context (cgroup_parse_float : list ascii → Z * Z).

(** [strim]. *)
Definition strim (buf : list ascii) : list ascii := reverse (skip_spaces (reverse (skip_spaces buf))).

Definition capacity_from_percent (buf : list ascii) : uclamp_request :=
  let buf := strim buf in
  if bool_decide (buf = str_max) then
    {| ureq_percent := UCLAMP_PERCENT_SCALE; ureq_util := SCHED_CAPACITY_SCALE; ureq_ret := 0 |}
  else
    let '(ret, percent) := cgroup_parse_float buf in
    if negb (ret =? 0) then {| ureq_percent := percent; ureq_util := SCHED_CAPACITY_SCALE; ureq_ret := ret |}
    else if UCLAMP_PERCENT_SCALE <? u64 percent then
      {| ureq_percent := percent; ureq_util := SCHED_CAPACITY_SCALE; ureq_ret := - ERANGE |}
    else
      {| ureq_percent := percent;
         ureq_util := DIV_ROUND_CLOSEST_ULL (Z.shiftl percent SCHED_FIXEDPOINT_SHIFT) UCLAMP_PERCENT_SCALE;
         ureq_ret := 0 |}.

Definition set_clamp (id : uclamp_id) (v : uclamp_se) (f : uclamp_id → uclamp_se) : uclamp_id → uclamp_se :=
  λ i, if decide (i = id) then v else f i.

(** The effective values [cpu_util_update_eff] computes for a group from those of its
    parent. *)
Definition capped (parent : option (uclamp_id → uclamp_se)) (g : tg_clamps) (id : uclamp_id) : Z :=
  let eff := uc_value (tc_req g id) in
  match parent with
  | Some p => if uc_value (p id) <? eff then uc_value (p id) else eff
  | None => eff
  end.
Definition eff_value (parent : option (uclamp_id → uclamp_se)) (g : tg_clamps) (id : uclamp_id) : Z :=
  match id with
  | UCLAMP_MIN => Z.min (capped parent g UCLAMP_MIN) (capped parent g UCLAMP_MAX)
  | UCLAMP_MAX => capped parent g UCLAMP_MAX
  end.
Definition refresh_clamp (eff : uclamp_id → Z) (g : tg_clamps) (id : uclamp_id) : uclamp_se :=
  if eff id =? uc_value (tc_eff g id) then tc_eff g id
  else (tc_eff g id) <| uc_value := eff id |> <| uc_bucket_id := uclamp_bucket_id (eff id) |>.

(** The walk over the descendants in pre-order: where nothing changed the descendants
    are skipped; elsewhere the tasks of the group are updated.  The list holds the groups
    whose tasks are updated, in order. *)
Fixpoint cpu_util_update_eff (parent : option (uclamp_id → uclamp_se)) (t : cg_tree) : cg_tree * list nat :=
  let '(CGNode g ts) := t in
  let eff := eff_value parent g in
  if (eff UCLAMP_MIN =? uc_value (tc_eff g UCLAMP_MIN)) && (eff UCLAMP_MAX =? uc_value (tc_eff g UCLAMP_MAX))
  then (t, [])
  else
    let g' := g <| tc_eff := refresh_clamp eff g |> in
    let res := map (cpu_util_update_eff (Some (tc_eff g'))) ts in
    (CGNode g' (fst <$> res), tc_tg g :: mjoin (snd <$> res)).

(** A new group asks for nothing ([alloc_uclamp_sched_group], the values) and starts with the
    effective values of its parent; when it comes online they are brought up to date. *)
Definition new_group_clamps (tg : nat) (parent : uclamp_id → uclamp_se) : tg_clamps := {|
  tc_tg := tg;
  tc_req := λ id, uclamp_se_set (uclamp_none id) false {| uc_value := 0; uc_bucket_id := 0; uc_active := false; uc_user_defined := false |};
  tc_pct := λ _, 0; tc_eff := parent
|}.
Definition online_group_clamps (tg : nat) (parent : uclamp_id → uclamp_se) : cg_tree * list nat :=
  cpu_util_update_eff (Some parent) (CGNode (new_group_clamps tg parent) []).

(** The value returned, the groups and those whose tasks were updated. *)
Definition cpu_uclamp_write (parent : option (uclamp_id → uclamp_se)) (id : uclamp_id) (buf : list ascii) (t : cg_tree)
    : Z * cg_tree * list nat :=
  let req := capacity_from_percent buf in
  if negb (ureq_ret req =? 0) then (ureq_ret req, t, []) else
  let '(CGNode g ts) := t in
  let g := if uc_value (tc_req g id) =? ureq_util req then g
           else g <| tc_req := set_clamp id (uclamp_se_set (ureq_util req) false (tc_req g id)) (tc_req g) |> in
  let g := g <| tc_pct := λ i, if decide (i = id) then ureq_percent req else tc_pct g i |> in
  let '(t, updated) := cpu_util_update_eff parent (CGNode g ts) in
  (Z.of_nat (length buf), t, updated).

(** ["%llu.%02u\n"], or "max". *)
Definition cpu_uclamp_print (id : uclamp_id) (g : tg_clamps) : list ascii :=
  if uc_value (tc_req g id) =? SCHED_CAPACITY_SCALE then str_max ++ [ascii_of_nat 10]
  else
    let percent := tc_pct g id / POW10_PERCENT in
    let rem := tc_pct g id mod POW10_PERCENT in
    print_long percent ++ ["."%char; digit_char (rem / 10); digit_char (rem mod 10); ascii_of_nat 10].
End clamps.
