(* ===== verification/TaskGroupSpec.v ===== *)
(** Task groups: the walk with gotos visits the tree like a recursive traversal and
    ends, and the trees of groups the other theorems speak of. *)
From S2P Require Import Prelude Rbtree KState HvfValue HvfClass HvfSmp Policy Uclamp Core Load TaskGroup.
From Stdlib Require Import Ascii.

(** * The walk *)

(** The tree the links stand for. *)
Inductive tg_tree := TGNode (tg : nat) (ts : list tg_tree).
Definition tg_root (t : tg_tree) : nat := let '(TGNode tg _) := t in tg.

Section tree_ind.
Context (P : tg_tree → Prop) (Hnode : ∀ tg ts, Forall P ts → P (TGNode tg ts)).
Fixpoint tg_tree_ind' (t : tg_tree) : P t :=
  let '(TGNode tg ts) := t in
  Hnode tg ts ((fix go ts := match ts return Forall P ts with
                             | [] => Forall_nil_2 P
                             | t :: ts' => Forall_cons_2 P t ts' (tg_tree_ind' t) (go ts')
                             end) ts).
End tree_ind.

Fixpoint tg_size (t : tg_tree) : nat := let '(TGNode _ ts) := t in S (sum_list (tg_size <$> ts)).
Fixpoint tg_ids (t : tg_tree) : list nat := let '(TGNode tg ts) := t in tg :: mjoin (tg_ids <$> ts).

(** Three steps for each group of a tree: down, up and the way back to the parent. *)
Definition steps (ts : list tg_tree) : nat := 3 * sum_list (tg_size <$> ts).
Lemma steps_cons t ts : steps (t :: ts) = (3 * tg_size t + steps ts)%nat.
Proof. unfold steps. change (sum_list (tg_size <$> t :: ts)) with (tg_size t + sum_list (tg_size <$> ts))%nat. lia. Qed.
Lemma steps_node tg ts : (3 * tg_size (TGNode tg ts) = 3 + steps ts)%nat.
Proof. unfold steps. change (tg_size (TGNode tg ts)) with (S (sum_list (tg_size <$> ts))). lia. Qed.

Section walk.
Context {X : Type} (children : nat → list nat) (parent : nat → option nat).
Context (from : nat) (down up : nat → X → Z * X).

(** The reference: enter, visit the children, leave; the first error ends it. *)
Definition then_visit (res : Z * X) (k : X → Z * X) : Z * X := if res.1 =? 0 then k res.2 else res.
Fixpoint visit (t : tg_tree) (x : X) : Z * X :=
  let '(TGNode tg ts) := t in
  then_visit (down tg x) (λ x,
    then_visit ((fix go ts x := match ts with [] => (0, x) | t :: ts' => then_visit (visit t x) (go ts') end) ts x)
      (up tg)).
Definition visit_all : list tg_tree → X → Z * X :=
  fix go ts x := match ts with [] => (0, x) | t :: ts' => then_visit (visit t x) (go ts') end.

Lemma visit_node tg ts x :
  visit (TGNode tg ts) x = then_visit (down tg x) (λ x, then_visit (visit_all ts x) (up tg)).
Proof. done. Qed.

(** The links of [t] are those of the groups. *)
Inductive linked : tg_tree → Prop :=
  | linked_node tg ts :
      children tg = tg_root <$> ts → NoDup (tg_root <$> ts) →
      Forall (λ t, parent (tg_root t) = Some tg) ts → Forall linked ts → linked (TGNode tg ts).

Lemma run_step fuel pc x :
  walk_run children parent (S fuel) from down up pc x =
  match walk_step children parent from down up pc x with inr r => Some r | inl (pc', x') => walk_run children parent fuel from down up pc' x' end.
Proof. done. Qed.

(** The walk below [p], then the continuation in its parent [q]. *)
Definition below_ok (t : tg_tree) : Prop := ∀ q x fuel R,
  linked t → parent (tg_root t) = Some q → from ∉ tg_ids t →
  (let '(ret, x') := visit t x in
   if ret =? 0 then walk_run children parent fuel from down up (at_next q (tg_root t)) x' = Some R else Some (ret, x') = Some R) →
  walk_run children parent (3 * tg_size t - 1 + fuel) from down up (at_down (tg_root t)) x = Some R.

Lemma children_ok tg pre ts x fuel R :
  Forall below_ok ts → Forall linked ts → children tg = pre ++ (tg_root <$> ts) → NoDup (children tg) →
  Forall (λ t, parent (tg_root t) = Some tg) ts → from ∉ mjoin (tg_ids <$> ts) →
  (let '(ret, x') := visit_all ts x in
   if ret =? 0 then walk_run children parent fuel from down up (at_up tg) x' = Some R else Some (ret, x') = Some R) →
  walk_run children parent (steps ts + fuel) from down up
    (match ts with t :: _ => at_down (tg_root t) | [] => at_up tg end) x = Some R.
Proof.
  intros Hb Hl Hc Hnd Hp Hf. revert pre Hc x. induction ts as [|t ts IH]; intros pre Hc x Hv; [done|].
  apply Forall_cons in Hb as [Hbt Hb]. apply Forall_cons in Hl as [Hlt Hl]. apply Forall_cons in Hp as [Hpt Hp].
  cbn in Hf. rewrite elem_of_app in Hf. assert (from ∉ tg_ids t ∧ from ∉ mjoin (tg_ids <$> ts)) as [Hft Hfs] by tauto.
  assert (1 <= tg_size t)%nat as Hsz by (destruct t; cbn; lia). rewrite steps_cons.
  replace (3 * tg_size t + steps ts + fuel)%nat
    with (3 * tg_size t - 1 + S (steps ts + fuel))%nat by lia.
  eapply Hbt; [done..|]. cbn in Hv. unfold then_visit in Hv. destruct (visit t x) as [ret x1]. cbn in Hv.
  destruct (Z.eqb_spec ret 0) as [->|Hne].
  - rewrite run_step. cbn [walk_step]. rewrite Hc in Hnd |- *. cbn [fmap list_fmap] in Hnd |- *.
    apply NoDup_app in Hnd as (_&Hnin&_). rewrite next_of_app by (intros Hx; eapply Hnin; [done|set_solver]).
    specialize (IH Hb Hl Hp Hfs (pre ++ [tg_root t]) ltac:(by rewrite Hc; cbn; rewrite <-app_assoc) x1 Hv).
    by destruct ts.
  - by apply Z.eqb_neq in Hne; rewrite Hne in Hv.
Qed.

Lemma walk_below t : below_ok t.
Proof.
  induction t as [tg ts IH] using tg_tree_ind'. intros q x fuel R Hl Hq Hf Hv. inversion Hl as [? ? Hc Hnd Hp Hls]; subst.
  cbn in Hf. apply not_elem_of_cons in Hf as [Hft Hfs]. cbn [tg_root] in *.
  assert (3 * tg_size (TGNode tg ts) - 1 + fuel = S (steps ts + S fuel))%nat as -> by (rewrite steps_node; lia).
  rewrite run_step. cbn [walk_step]. rewrite visit_node in Hv. unfold then_visit in Hv. destruct (down tg x) as [r1 x1]. cbn in Hv.
  destruct (Z.eqb_spec r1 0) as [->|Hne]; cbn [negb]; cycle 1.
  { apply Z.eqb_neq in Hne. by rewrite Hne in Hv. }
  assert (walk_run children parent (steps ts + S fuel) from down up
    (match ts with t :: _ => at_down (tg_root t) | [] => at_up tg end) x1 = Some R) as Hrun.
  { eapply (children_ok tg []); [done|done|done|by rewrite Hc|done|done|].
    destruct (visit_all ts x1) as [r2 x2]. cbn in Hv.
    destruct (Z.eqb_spec r2 0) as [->|Hne]; [|apply Z.eqb_neq in Hne; by rewrite Hne in Hv].
    rewrite run_step. cbn [walk_step]. destruct (up tg x2) as [r3 x3].
    destruct (Z.eqb_spec r3 0) as [->|Hne]; cbn [negb orb]; [|done].
    destruct (Nat.eqb_spec tg from); [done|]. by rewrite Hq. }
  rewrite Hc. by destruct ts.
Qed.

Lemma walk_visits t x :
  linked t → tg_root t = from → from ∉ mjoin (tg_ids <$> (let '(TGNode _ ts) := t in ts)) →
  walk_tg_tree_from children parent (3 * tg_size t) from down up x = Some (visit t x).
Proof.
  intros Hl Hr Hf. destruct t as [tg ts]. cbn in Hr, Hf. subst tg. inversion Hl as [? ? Hc Hnd Hp Hls]; subst.
  unfold walk_tg_tree_from.
  assert (3 * tg_size (TGNode from ts) = S (steps ts + 2))%nat as -> by (rewrite steps_node; lia).
  rewrite run_step, visit_node. cbn [walk_step]. unfold then_visit. destruct (down from x) as [r1 x1]. cbn.
  destruct (Z.eqb_spec r1 0) as [->|Hne]; cbn [negb]; [|done]. rewrite Hc.
  assert (walk_run children parent (steps ts + 2) from down up
    (match ts with t :: _ => at_down (tg_root t) | [] => at_up from end) x1 =
    Some (if (visit_all ts x1).1 =? 0 then up from (visit_all ts x1).2 else visit_all ts x1)) as Hrun.
  { eapply (children_ok from []); [|done|done|by rewrite Hc|done|done|].
    - apply Forall_forall. intros t _. apply walk_below.
    - destruct (visit_all ts x1) as [r2 x2]. cbn. destruct (Z.eqb_spec r2 0) as [->|Hne]; [|done].
      cbn. destruct (up from x2) as [r3 x3]. rewrite Nat.eqb_refl, orb_true_r. done. }
  by destruct ts.
Qed.

(** C32: [walk_tg_tree_from], a loop of gotos over parent and sibling links, ends after at most
    three steps per group, and does what the recursive traversal of the tree does: it
    enters a group before its children and leaves it after them, and stops at the first
    error. *)
Theorem walk_tg_tree_from_correct t x :
  linked t → tg_root t = from → from ∉ mjoin (tg_ids <$> (let '(TGNode _ ts) := t in ts)) →
  walk_tg_tree_from children parent (3 * tg_size t) from down up x = Some (visit t x).
Proof. apply walk_visits. Qed.
End walk.

(** * Bandwidth *)

(** The record without the cached hierarchical quota. *)
Definition forget (g : task_group) : task_group := g <| tg_bandwidth ::= λ b, b <| hierarchical_quota := 0 |> |>.
(** [gs'] is [gs] but for the hierarchical quotas of the groups in [ids]. *)
Definition requota (ids : list nat) (gs gs' : gmap nat task_group) : Prop :=
  (∀ i, forget <$> gs !! i = forget <$> gs' !! i) ∧ (∀ i, i ∉ ids → gs !! i = gs' !! i).

(** [t] is the tree of the groups [gs]. *)
Record group_tree (t : tg_tree) (gs : gmap nat task_group) : Prop := {
  gt_linked : linked (children_of gs) (parent_of gs) t;
  gt_root : tg_root t = root_task_group;
  gt_top : parent_of gs root_task_group = None;
  gt_nodup : NoDup (tg_ids t);
  gt_ids i : i ∈ tg_ids t ↔ is_Some (gs !! i);
}.

Lemma requota_refl ids gs : requota ids gs gs.
Proof. done. Qed.
Lemma requota_trans ids1 ids2 ids gs1 gs2 gs3 :
  requota ids1 gs1 gs2 → requota ids2 gs2 gs3 → ids1 ⊆ ids → ids2 ⊆ ids → requota ids gs1 gs3.
Proof.
  intros [Hf1 Hi1] [Hf2 Hi2] H1 H2. split; intros i; [by rewrite Hf1|]. intros Hi.
  rewrite Hi1, Hi2; [done|set_solver|set_solver].
Qed.
Lemma requota_lookup ids gs gs' i g' :
  requota ids gs gs' → gs' !! i = Some g' → ∃ g, gs !! i = Some g ∧ forget g = forget g'.
Proof. intros [Hf _] Hg'. specialize (Hf i). rewrite Hg' in Hf. destruct (gs !! i) as [g|]; [|done]. exists g. split; [done|]. cbn [fmap option_fmap option_map] in Hf. by apply (inj Some) in Hf. Qed.
Lemma requota_lookup' ids gs gs' i g :
  requota ids gs gs' → gs !! i = Some g → ∃ g', gs' !! i = Some g' ∧ forget g = forget g'.
Proof. intros [Hf _] Hg'. specialize (Hf i). rewrite Hg' in Hf. destruct (gs' !! i) as [g'|]; [|done]. exists g'. split; [done|]. cbn [fmap option_fmap option_map] in Hf. by apply (inj Some) in Hf. Qed.

Lemma forget_fields g g' :
  forget g = forget g' →
  tg_parent g = tg_parent g' ∧ tg_children g = tg_children g' ∧ cb_period (tg_bandwidth g) = cb_period (tg_bandwidth g') ∧
  cb_quota (tg_bandwidth g) = cb_quota (tg_bandwidth g').
Proof. destruct g as [?? [] ??], g' as [?? [] ??]. intros [=]; subst. done. Qed.

Lemma requota_links ids gs gs' :
  requota ids gs gs' → (∀ i, children_of gs i = children_of gs' i) ∧ (∀ i, parent_of gs i = parent_of gs' i).
Proof.
  intros [Hf _]. split; intros i; unfold children_of, parent_of; specialize (Hf i);
    destruct (gs !! i), (gs' !! i); try done; cbn [fmap option_fmap option_map] in Hf; apply (inj Some), forget_fields in Hf; naive_solver.
Qed.

Lemma linked_ext c c' p p' t : (∀ i, c i = c' i) → (∀ i, p i = p' i) → linked c p t → linked c' p' t.
Proof.
  intros Hc Hp. induction t as [tg ts IH] using tg_tree_ind'. inversion 1 as [? ? H1 H2 H3 H4]; subst.
  constructor; [by rewrite <-Hc|done| |].
  - eapply Forall_impl; [exact H3|]. cbn. intros t. by rewrite <-Hp.
  - eapply Forall_impl; [apply Forall_and; split; [exact IH|exact H4]|]. naive_solver.
Qed.

Lemma group_tree_links t gs gs' :
  group_tree t gs → (∀ i, children_of gs i = children_of gs' i) → (∀ i, parent_of gs i = parent_of gs' i) →
  (∀ i, is_Some (gs !! i) ↔ is_Some (gs' !! i)) → group_tree t gs'.
Proof.
  intros [Hl Hr Ht Hn Hi] Hc Hp Hs. split; [by eapply linked_ext|done|by rewrite <-Hp|done|].
  intros i. by rewrite Hi, Hs.
Qed.
Lemma group_tree_requota ids t gs gs' : requota ids gs gs' → group_tree t gs → group_tree t gs'.
Proof.
  intros Hr Ht. destruct (requota_links _ _ _ Hr). eapply group_tree_links; [done..|].
  intros i. rewrite <-(fmap_is_Some forget), (proj1 Hr), fmap_is_Some. done.
Qed.

(** The size of the tree is the number of groups. *)
Lemma tg_size_ids t : tg_size t = length (tg_ids t).
Proof.
  induction t as [tg ts IH] using tg_tree_ind'.
  change (S (sum_list (tg_size <$> ts)) = S (length (mjoin (tg_ids <$> ts)))). f_equal.
  induction IH as [|t ts Ht _ IHts]; [done|].
  change (tg_size t + sum_list (tg_size <$> ts) = length (tg_ids t ++ mjoin (tg_ids <$> ts)))%nat.
  rewrite length_app. lia.
Qed.
Lemma group_tree_size t gs : group_tree t gs → tg_size t = size gs.
Proof.
  intros [_ _ _ Hn Hi]. rewrite tg_size_ids, <-size_dom, <-(size_list_to_set (C:=gset nat) (tg_ids t)) by done.
  f_equal. apply set_eq. intros i. by rewrite elem_of_list_to_set, Hi, elem_of_dom.
Qed.
