(* ===== verification/BandwidthSpec.v ===== *)
(** Bandwidth limits of groups: a change of a limit always ends, keeps the tree and the
    count of limited groups, and leaves hierarchical quotas in which no group exceeds the
    limit of an ancestor. *)
From S2P Require Import Prelude Rbtree KState HvfValue HvfClass HvfSmp Policy Uclamp Core Load TaskGroup TaskGroupSpec.

Section spec.
Context {GL : GroupLib}.
Implicit Types (gs : gmap nat task_group) (st : groups).

Definition hquota (g : task_group) : Z := hierarchical_quota (tg_bandwidth g).

(** The cached quota of [tg] is what its own limit and its parent's quota give. *)
Definition hq_at (ratio : nat → cfs_bandwidth → Z) gs (tg : nat) : Prop :=
  ∃ g, gs !! tg = Some g ∧
    match tg_parent g with
    | None => hquota g = INF64
    | Some q => ∃ gp, gs !! q = Some gp ∧ combined_quota (ratio tg (tg_bandwidth g)) (hquota gp) = Some (hquota g)
    end.

(** The limit of a group as the walk sees it: with the requested change of [d]. *)
Definition asked (d : cfs_schedulable_data) (tg : nat) (b : cfs_bandwidth) : Z := wrap64 (normalize_cfs_quota tg b d).

Section down.
Context (d : cfs_schedulable_data).

Lemma down_spec tg gs :
  let '(ret, gs') := tg_cfs_schedulable_down d tg gs in
  requota [tg] gs gs' ∧ (ret = 0 ∨ ret = - EINVAL) ∧
  (ret = 0 → parent_of gs tg ≠ Some tg → hq_at (asked d) gs' tg) ∧
  (cgroup_on_dfl = true → is_Some (gs !! tg) → (∀ q, parent_of gs tg = Some q → is_Some (gs !! q)) → ret = 0).
Proof.
  unfold tg_cfs_schedulable_down, parent_of. destruct (gs !! tg) as [g|] eqn:Hg; cycle 1.
  { split_and!; [done|by right|done|]. intros _ [? ?]. done. }
  assert (∀ quota, requota [tg] gs (<[tg:=g <| tg_bandwidth ::= λ b, b <| hierarchical_quota := quota |> |>]> gs)) as Hrq.
  { intros quota. split; intros i.
    - destruct (decide (i = tg)) as [->|]; [rewrite lookup_insert_eq, Hg|by rewrite lookup_insert_ne]. by destruct g as [?? [] ??].
    - intros Hi. rewrite lookup_insert_ne by set_solver. done. }
  destruct (tg_parent g) as [q|] eqn:Hq; cycle 1.
  { split_and!; [apply Hrq|by left| |done]. intros _ _. eexists. rewrite lookup_insert_eq. split; [done|]. cbn. by rewrite Hq. }
  destruct (gs !! q) as [gp|] eqn:Hgp; cycle 1.
  { split_and!; [done|by right|done|]. intros _ _ Hp. destruct (Hp q eq_refl). congruence. }
  destruct (combined_quota _ _) as [quota|] eqn:Hc.
  - split_and!; [apply Hrq|by left| |done]. intros _ Hne. eexists. rewrite lookup_insert_eq. split; [done|]. cbn. rewrite Hq.
    exists gp. split; [rewrite lookup_insert_ne by congruence; done|]. exact Hc.
  - split_and!; [done|by right|done|]. intros Hdfl. by unfold combined_quota in Hc; rewrite Hdfl in Hc.
Qed.

Lemma hq_at_frame ratio ids gs gs' tg :
  requota ids gs gs' → hq_at ratio gs tg → tg ∉ ids → (∀ q, parent_of gs tg = Some q → q ∉ ids) → hq_at ratio gs' tg.
Proof.
  intros [_ Hi] (g&Hg&Hq) Htg Hp. exists g. split; [by rewrite <-Hi|]. unfold parent_of in Hp. rewrite Hg in Hp.
  destruct (tg_parent g) as [q|]; [|done]. destruct Hq as (gp&Hgp&Hq). exists gp. split; [rewrite <-Hi; auto|done].
Qed.

Lemma linked_parent c p t i :
  linked c p t → i ∈ tg_ids t → i = tg_root t ∨ ∃ q, p i = Some q ∧ q ∈ tg_ids t.
Proof.
  induction t as [tg ts IH] using tg_tree_ind'. inversion 1 as [? ? _ _ Hp Hl]; subst. cbn.
  rewrite elem_of_cons, list_elem_of_join. intros [->|(l&Hi&(t&->&Ht)%list_elem_of_fmap)]; [by left|right].
  rewrite Forall_forall in IH, Hl, Hp. destruct (IH t Ht (Hl t Ht) Hi) as [->|(q&Hq&Hqt)].
  - exists tg. split; [by apply Hp|set_solver].
  - exists q. split; [done|]. rewrite elem_of_cons, list_elem_of_join. right. exists (tg_ids t). split; [done|].
    by apply list_elem_of_fmap_2.
Qed.

(** What a part of the walk over the groups [ids] does, when the parents of their tops are
    outside. *)
Definition walked (ids : list nat) gs (res : Z * gmap nat task_group) : Prop :=
  requota ids gs res.2 ∧ (res.1 = 0 ∨ res.1 = - EINVAL) ∧
  (res.1 = 0 → ∀ i, i ∈ ids → hq_at (asked d) res.2 i) ∧
  (cgroup_on_dfl = true → (∀ i, i ∈ ids → is_Some (gs !! i) ∧ ∀ q, parent_of gs i = Some q → is_Some (gs !! q)) →
   res.1 = 0).

Lemma walked_nil gs : walked [] gs (0, gs).
Proof. split_and!; [done|by left|set_solver|done]. Qed.

Lemma walked_then ids1 ids2 gs res k :
  walked ids1 gs res → (∀ i, i ∈ ids1 → i ∉ ids2) →
  (∀ i q, i ∈ ids1 → parent_of gs i = Some q → q ∉ ids2) →
  (res.1 = 0 → walked ids2 res.2 (k res.2)) →
  walked (ids1 ++ ids2) gs (then_visit res k).
Proof.
  intros (Hr1&He1&Hh1&Hd1) Hdis Hpar H2. destruct res as [ret1 gs1]. cbn in *. unfold then_visit. cbn.
  destruct (Z.eqb_spec ret1 0) as [->|Hne]; cycle 1.
  { split_and!; [eapply requota_trans; [done|apply (requota_refl ids1)|set_solver|set_solver]|done|done|].
    intros Hdfl Hin. cbn. apply Hd1; [done|]. set_solver. }
  destruct (H2 eq_refl) as (Hr2&He2&Hh2&Hd2). destruct (k gs1) as [ret2 gs2]. cbn in *.
  destruct (requota_links _ _ _ Hr1) as [_ Hlp].
  split_and!; cbn; [by eapply requota_trans; [done|done|set_solver|set_solver]|done| |].
  - intros Hz i [Hi|Hi]%elem_of_app; [|by apply Hh2].
    eapply hq_at_frame; [exact Hr2|by apply Hh1|by apply Hdis|]. intros q. rewrite <-Hlp. by apply Hpar.
  - intros Hdfl Hin. apply Hd2; [done|]. intros i Hi. rewrite <-Hlp.
    assert (∀ j, is_Some (gs1 !! j) ↔ is_Some (gs !! j)) as Hsome.
    { intros j. by rewrite <-(fmap_is_Some forget), <-(proj1 Hr1), fmap_is_Some. }
    setoid_rewrite Hsome. apply Hin. set_solver.
Qed.

Lemma walked_down c p tg ts gs :
  linked c p (TGNode tg ts) → (∀ i, parent_of gs i = p i) → p tg ≠ Some tg →
  walked [tg] gs (tg_cfs_schedulable_down d tg gs).
Proof.
  intros Hl Hp Hne. pose proof (down_spec tg gs) as H. destruct (tg_cfs_schedulable_down d tg gs) as [ret gs'].
  destruct H as (H1&H2&H3&H4). split_and!; cbn; [done|done| |].
  - intros Hz i ->%list_elem_of_singleton. apply H3; [done|]. by rewrite Hp.
  - intros Hdfl Hin. destruct (Hin tg ltac:(set_solver)). by apply H4.
Qed.

Lemma walked_up tg ids gs res : walked ids gs res → walked ids gs (then_visit res (tg_nop tg)).
Proof. unfold then_visit, tg_nop. destruct res as [ret gs']. cbn. by destruct (Z.eqb_spec ret 0) as [->|]. Qed.

Lemma walked_links ids gs res : walked ids gs res → ∀ i, parent_of res.2 i = parent_of gs i.
Proof. intros (Hr&_) i. by destruct (requota_links _ _ _ Hr) as [_ ->]. Qed.

Lemma walked_forest c p tg ts gs :
  Forall (λ t, ∀ gs, linked c p t → NoDup (tg_ids t) → (∀ i, parent_of gs i = p i) →
                 (∀ q, p (tg_root t) = Some q → q ∉ tg_ids t) →
                 walked (tg_ids t) gs (visit (tg_cfs_schedulable_down d) tg_nop t gs)) ts →
  Forall (linked c p) ts → NoDup (mjoin (tg_ids <$> ts)) → (∀ i, parent_of gs i = p i) →
  Forall (λ t, p (tg_root t) = Some tg) ts → tg ∉ mjoin (tg_ids <$> ts) →
  walked (mjoin (tg_ids <$> ts)) gs (visit_all (tg_cfs_schedulable_down d) tg_nop ts gs).
Proof.
  intros IH. revert gs. induction IH as [|t ts Ht _ IHts]; intros gs Hl Hnd Hp Hpt Htg; [apply walked_nil|].
  apply Forall_cons in Hl as [Hlt Hl]. apply Forall_cons in Hpt as [Hpt Hpts]. cbn in Hnd, Htg |- *.
  apply NoDup_app in Hnd as (Hndt&Hdis&Hnd). rewrite elem_of_app in Htg.
  apply walked_then; [|done| |].
  - apply Ht; [done..|]. rewrite Hpt. intros q [= <-]. tauto.
  - intros i q Hi Hq. rewrite Hp in Hq. destruct (linked_parent _ _ _ _ Hlt Hi) as [->|(q'&Hq'&Hin)].
    + rewrite Hpt in Hq. injection Hq as <-. tauto.
    + rewrite Hq in Hq'. injection Hq' as <-. by apply Hdis.
  - intros _. assert (walked (tg_ids t) gs (visit (tg_cfs_schedulable_down d) tg_nop t gs)) as Hw.
    { apply Ht; [done..|]. rewrite Hpt. intros q [= <-]. tauto. }
    apply IHts; [done|done| |done|tauto]. intros i. by rewrite (walked_links _ _ _ Hw).
Qed.

Lemma walked_visit c p t gs :
  linked c p t → NoDup (tg_ids t) → (∀ i, parent_of gs i = p i) → (∀ q, p (tg_root t) = Some q → q ∉ tg_ids t) →
  walked (tg_ids t) gs (visit (tg_cfs_schedulable_down d) tg_nop t gs).
Proof.
  revert gs. induction t as [tg ts IH] using tg_tree_ind'. intros gs Hlt Hnd Hp Hroot. inversion Hlt as [? ? _ _ Hpt Hl]; subst.
  rewrite visit_node. cbn [tg_ids] in *. cbn [tg_root] in Hroot. apply NoDup_cons in Hnd as [Hnin Hnd].
  assert (walked [tg] gs (tg_cfs_schedulable_down d tg gs)) as Hw.
  { eapply walked_down; [done..|]. intros Hq. apply (Hroot tg Hq). set_solver. }
  change (tg :: mjoin (tg_ids <$> ts)) with ([tg] ++ mjoin (tg_ids <$> ts)). apply walked_then; [done| | |].
  - intros i ->%list_elem_of_singleton. done.
  - intros i q ->%list_elem_of_singleton. rewrite Hp. intros Hq. specialize (Hroot _ Hq). set_solver.
  - intros _. apply walked_up. eapply walked_forest; [done..| |done|done]. intros i. by rewrite (walked_links _ _ _ Hw).
Qed.
End down.

(** The walk of [__cfs_schedulable] always ends within its bound. *)
Definition asked_data (tg : nat) (period quota : Z) : cfs_schedulable_data :=
  if quota =? RUNTIME_INF then {| csd_tg := tg; csd_period := period; csd_quota := quota |}
  else {| csd_tg := tg; csd_period := period / NSEC_PER_USEC; csd_quota := quota / NSEC_PER_USEC |}.
Lemma cfs_schedulable_walked t tg period quota gs :
  group_tree t gs →
  ∃ res, __cfs_schedulable tg period quota gs = Some res ∧ walked (asked_data tg period quota) (tg_ids t) gs res.
Proof.
  intros Ht. eexists. split.
  - unfold __cfs_schedulable. rewrite <-(group_tree_size t gs Ht). destruct Ht as [Hl Hr _ Hnd _].
    apply walk_visits; [done..|]. rewrite <-Hr. destruct t as [r ts]. cbn in *. by apply NoDup_cons in Hnd as [? _].
  - destruct Ht as [Hl Hr Htop Hnd _]. eapply walked_visit; [done|done|done|]. rewrite Hr, Htop. done.
Qed.

(** ** Limits *)

(** The share of a CPU a group is limited to, in units of 2^-20; [INF64] for none. *)
Definition own_ratio (b : cfs_bandwidth) : Z :=
  if cb_quota b =? RUNTIME_INF then INF64 else to_ratio (cb_period b / NSEC_PER_USEC) (cb_quota b / NSEC_PER_USEC).

Definition limit_range (period quota : Z) : Prop :=
  min_cfs_quota_period <= period <= max_cfs_quota_period ∧ (quota = RUNTIME_INF ∨ 0 <= quota <= max_cfs_runtime).
Definition limits_range gs : Prop :=
  ∀ i g, gs !! i = Some g → limit_range (cb_period (tg_bandwidth g)) (cb_quota (tg_bandwidth g)).

(** Every cached quota follows from the limits. *)
Definition hierarchy_ok gs : Prop := ∀ i, is_Some (gs !! i) → hq_at (λ _, own_ratio) gs i.

Definition is_limited (p : nat * task_group) : Prop := cb_quota (tg_bandwidth p.2) ≠ RUNTIME_INF.
#[global] Instance is_limited_dec p : Decision (is_limited p).
Proof. unfold is_limited. apply _. Defined.
(** The counter of limited groups is exact. *)
Definition usage_ok st : Prop := cfs_bandwidth_used st = Z.of_nat (size (filter is_limited (tgs st))).

Lemma max_cfs_runtime_val : max_cfs_runtime = 17592186044415000.
Proof. reflexivity. Qed.

Lemma ratio_range period quota :
  limit_range period quota → quota ≠ RUNTIME_INF →
  0 <= to_ratio (period / NSEC_PER_USEC) (quota / NSEC_PER_USEC) < 2 ^ 55.
Proof.
  intros [Hp Hq] Hne. destruct Hq as [|Hq]; [done|]. unfold min_cfs_quota_period, max_cfs_quota_period in Hp.
  rewrite max_cfs_runtime_val in Hq. unfold to_ratio, NSEC_PER_USEC.
  assert (1000 <= period / 1000) by (apply Z.div_le_lower_bound; lia).
  assert (0 <= quota / 1000 <= 17592186044415) by (split; [apply Z.div_pos; lia|apply Z.div_le_upper_bound; lia]).
  destruct (Z.eqb_spec (quota / 1000) RUNTIME_INF) as [He|_]; [unfold RUNTIME_INF in He; lia|].
  destruct (Z.eqb_spec (period / 1000) 0); [lia|].
  rewrite Z.shiftl_mul_pow2 by done. unfold BW_SHIFT, u64.
  change (2 ^ 20) with 1048576. change (2 ^ 64) with 18446744073709551616. change (2 ^ 55) with 36028797018963968.
  rewrite Z.mod_small by lia.
  split; [apply Z.div_pos; lia|apply Z.div_lt_upper_bound; lia].
Qed.
Lemma INF64_val : INF64 = -1.
Proof. reflexivity. Qed.

Lemma wrap64_small' x : 0 <= x < 2 ^ 55 → wrap64 x = x.
Proof. intros H. apply wrap64_small. unfold is_long. lia. Qed.

Lemma limit_small period quota :
  limit_range period quota → quota ≠ RUNTIME_INF →
  u64 (wrap64 (period / NSEC_PER_USEC)) = period / NSEC_PER_USEC ∧ u64 (wrap64 (quota / NSEC_PER_USEC)) = quota / NSEC_PER_USEC.
Proof.
  intros [Hp [?|Hq]] Hne; [done|]. unfold max_cfs_quota_period, min_cfs_quota_period in Hp.
  rewrite max_cfs_runtime_val in Hq. unfold NSEC_PER_USEC, u64.
  assert (∀ x, 0 <= x <= 17592186044415000 → wrap64 (x / 1000) mod 2 ^ 64 = x / 1000) as Hx; [|split; apply Hx; lia].
  intros x Hx. assert (0 <= x / 1000 <= 17592186044415000) by (split; [apply Z.div_pos; lia|apply Z.div_le_upper_bound; lia]).
  rewrite wrap64_small' by lia. apply Z.mod_small. lia.
Qed.

(** The data of the request and the limits afterwards are the same. *)
Lemma asked_own tg period quota i b :
  limit_range period quota → limit_range (cb_period b) (cb_quota b) →
  asked (asked_data tg period quota) i b =
  own_ratio (if decide (i = tg) then b <| cb_period := period |> <| cb_quota := quota |> else b).
Proof.
  intros Hd Hb. unfold asked, normalize_cfs_quota, asked_data.
  assert (∀ p q, limit_range p q → q ≠ RUNTIME_INF → (q / NSEC_PER_USEC =? RUNTIME_INF) = false) as Hninf.
  { intros p q [_ [?|Hq]] ?; [done|]. apply Z.eqb_neq. rewrite max_cfs_runtime_val in Hq.
    unfold NSEC_PER_USEC, RUNTIME_INF in *. apply Z.lt_neq. apply Z.div_lt_upper_bound; lia. }
  assert (csd_tg (asked_data tg period quota) = tg) as Htg by (unfold asked_data; by destruct (_ =? _)).
  unfold asked_data in Htg. rewrite Htg. unfold own_ratio.
  destruct (Nat.eqb_spec i tg), (decide (i = tg)); [|done|done|].
  - cbn -[to_ratio INF64 RUNTIME_INF Z.div NSEC_PER_USEC wrap64 Z.eqb]. destruct (Z.eqb_spec quota RUNTIME_INF) as [->|Hne]; [done|]. cbn [csd_quota csd_period].
    erewrite Hninf by done. by apply wrap64_small', ratio_range.
  - unfold tg_get_cfs_quota, tg_get_cfs_period. destruct (Z.eqb_spec (cb_quota b) RUNTIME_INF) as [_|Hne]; [done|].
    destruct (limit_small _ _ Hb Hne) as [-> ->]. erewrite Hninf by done. by apply wrap64_small', ratio_range.
Qed.

(** ** Changing a limit *)

Lemma is_limited_forget i g g' : forget g = forget g' → is_limited (i, g) ↔ is_limited (i, g').
Proof. intros (_&_&_&Hq)%forget_fields. unfold is_limited. cbn. by rewrite Hq. Qed.

Lemma requota_limited ids gs gs' :
  requota ids gs gs' → size (filter is_limited gs) = size (filter is_limited gs').
Proof.
  intros Hr. rewrite <-!size_dom. f_equal. apply set_eq. intros i. rewrite !elem_of_dom. unfold is_Some.
  setoid_rewrite map_lookup_filter_Some. split; intros (g&Hg&Hl).
  - destruct (requota_lookup' _ _ _ _ _ Hr Hg) as (g'&Hg'&Hf). exists g'. by rewrite <-(is_limited_forget i _ _ Hf).
  - destruct (requota_lookup _ _ _ _ _ Hr Hg) as (g'&Hg'&Hf). exists g'. by rewrite (is_limited_forget i _ _ Hf).
Qed.

Lemma limited_insert gs i g g' :
  gs !! i = Some g →
  Z.of_nat (size (filter is_limited (<[i := g']> gs))) =
  Z.of_nat (size (filter is_limited gs)) + (if cb_quota (tg_bandwidth g') =? RUNTIME_INF then 0 else 1)
                                         - (if cb_quota (tg_bandwidth g) =? RUNTIME_INF then 0 else 1).
Proof.
  assert (∀ g, (if cb_quota (tg_bandwidth g) =? RUNTIME_INF then 0 else 1) = if decide (is_limited (i, g)) then 1 else 0) as Hb.
  { intros g0. unfold is_limited. destruct (Z.eqb_spec (cb_quota (tg_bandwidth g0)) RUNTIME_INF), (decide _); naive_solver. }
  rewrite !Hb. intros Hg. rewrite map_filter_insert. destruct (decide (is_limited (i, g'))) as [Hl'|Hl'].
  - rewrite map_size_insert. destruct (decide (is_limited (i, g))) as [Hl|Hl].
    + rewrite (map_lookup_filter_Some_2 _ _ _ _ Hg Hl). unfold id. lia.
    + rewrite map_lookup_filter_None_2 by (right; naive_solver). lia.
  - rewrite map_filter_delete. destruct (decide (is_limited (i, g))) as [Hl|Hl].
    + rewrite map_size_delete, (map_lookup_filter_Some_2 _ _ _ _ Hg Hl).
      pose proof (map_size_ne_0_lookup_2 _ i (ex_intro _ g (map_lookup_filter_Some_2 _ _ _ _ Hg Hl))) as Hne. lia.
    + rewrite delete_id by (apply map_lookup_filter_None_2; right; naive_solver). lia.
Qed.

Lemma limits_ok_range period quota burst :
  cfs_limits_ok period quota burst = true → limit_range period quota.
Proof.
  unfold cfs_limits_ok, limit_range. intros H. rewrite !andb_true_iff, !negb_true_iff, orb_false_iff, !Z.ltb_ge in H.
  destruct H as [[[[Hq Hp] Hpm] Hqm] _]. split; [done|]. destruct (Z.eqb_spec quota RUNTIME_INF); [by left|right].
  cbn in Hqm. apply Z.ltb_ge in Hqm. unfold min_cfs_quota_period in Hq. lia.
Qed.

(** The group after its limit was set. *)
Definition relimited (period quota burst : Z) (g g' : task_group) : Prop :=
  tg_parent g' = tg_parent g ∧ tg_children g' = tg_children g ∧ hquota g' = hquota g ∧
  cb_period (tg_bandwidth g') = period ∧ cb_quota (tg_bandwidth g') = quota ∧ cb_burst (tg_bandwidth g') = burst.

Lemma relimited_tree t gs tg period quota burst g g' :
  gs !! tg = Some g → relimited period quota burst g g' → group_tree t gs → group_tree t (<[tg := g']> gs).
Proof.
  intros Hg (Hp&Hc&_) Ht. eapply group_tree_links; [exact Ht|intros i..]; unfold children_of, parent_of;
    (destruct (decide (i = tg)) as [->|]; [rewrite Hg, lookup_insert_eq; naive_solver|by rewrite lookup_insert_ne]).
Qed.

Lemma relimited_hierarchy gs tg period quota burst g g' :
  gs !! tg = Some g → relimited period quota burst g g' → limit_range period quota → limits_range gs →
  (∀ i, is_Some (gs !! i) → hq_at (asked (asked_data tg period quota)) gs i) → hierarchy_ok (<[tg := g']> gs).
Proof.
  intros Hg (Hp&Hc&Hh&Hpe&Hqu&_) Hr Hrs Hall i Hi.
  assert (∀ q gp, gs !! q = Some gp → ∃ gp', <[tg := g']> gs !! q = Some gp' ∧ hquota gp' = hquota gp ∧ tg_parent gp' = tg_parent gp ∧
    own_ratio (tg_bandwidth gp') = asked (asked_data tg period quota) q (tg_bandwidth gp)) as Hkeep.
  { intros q gp Hgp. rewrite asked_own by eauto. destruct (decide (q = tg)) as [->|Hne].
    - exists g'. rewrite lookup_insert_eq. rewrite Hg in Hgp. injection Hgp as <-. split_and!; [done..|].
      unfold own_ratio. cbn. by rewrite Hpe, Hqu.
    - exists gp. rewrite lookup_insert_ne by done. done. }
  assert (is_Some (gs !! i)) as Hi' by (destruct (decide (i = tg)) as [->|]; [done|by rewrite lookup_insert_ne in Hi]).
  destruct (Hall i Hi') as (g0&Hg0&Hq). destruct (Hkeep i g0 Hg0) as (g0'&Hg0'&Hh0&Hp0&Hr0).
  exists g0'. split; [done|]. rewrite Hp0. destruct (tg_parent g0) as [q|]; [|by rewrite Hh0].
  destruct Hq as (gp&Hgp&Hq). destruct (Hkeep q gp Hgp) as (gp'&Hgp'&Hhp&_). exists gp'. split; [done|].
  by rewrite Hr0, Hhp, Hh0.
Qed.

Lemma group_tree_closed t gs i :
  group_tree t gs → i ∈ tg_ids t → is_Some (gs !! i) ∧ ∀ q, parent_of gs i = Some q → is_Some (gs !! q).
Proof.
  intros Ht Hi. split; [by apply (gt_ids _ _ Ht)|]. intros q Hq.
  destruct (linked_parent _ _ _ _ (gt_linked _ _ Ht) Hi) as [->|(q'&Hq'&Hin)].
  - rewrite (gt_root _ _ Ht), (gt_top _ _ Ht) in Hq. done.
  - rewrite Hq in Hq'. injection Hq' as <-. by apply (gt_ids _ _ Ht).
Qed.

(** C31: A change of the bandwidth limit of a group always ends.  An error, -EINVAL, changes no
    limit of any group; success sets the three numbers of the group, changes no other
    limit, and leaves every cached hierarchical quota as the limits of the tree determine
    it.  The tree, the ranges of the limits and the exact count of the limited groups are
    kept in all cases; in the unified hierarchy a limit with valid numbers is never
    refused. *)
Theorem tg_set_cfs_bandwidth_spec t tg period quota burst st :
  group_tree t (tgs st) → limits_range (tgs st) → usage_ok st → is_Some (tgs st !! tg) →
  ∃ ret st', tg_set_cfs_bandwidth tg period quota burst st = Some (ret, st') ∧
    (ret = 0 ∨ ret = - EINVAL) ∧
    group_tree t (tgs st') ∧ limits_range (tgs st') ∧ usage_ok st' ∧
    (∀ i, ret ≠ 0 ∨ i ≠ tg → forget <$> tgs st' !! i = forget <$> tgs st !! i) ∧
    (ret = 0 → hierarchy_ok (tgs st') ∧
       ∃ g', tgs st' !! tg = Some g' ∧ cb_period (tg_bandwidth g') = period ∧ cb_quota (tg_bandwidth g') = quota ∧
             cb_burst (tg_bandwidth g') = burst) ∧
    (cgroup_on_dfl = true → tg ≠ root_task_group → cfs_limits_ok period quota burst = true → ret = 0).
Proof.
  intros Ht Hr Hu Hg. unfold tg_set_cfs_bandwidth.
  destruct (Nat.eqb_spec tg root_task_group) as [->|Hroot]; [by eexists _, _; split_and!; eauto|].
  destruct (cfs_limits_ok period quota burst) eqn:Hok; cbn [negb]; [|by eexists _, _; split_and!; eauto].
  pose proof (limits_ok_range _ _ _ Hok) as Hrange.
  destruct (cfs_schedulable_walked t tg period quota (tgs st) Ht) as ([ret gs]&->&Hrq&Hret&Hhier&Hdfl). cbn in *.
  assert (group_tree t gs) as Ht' by by eapply group_tree_requota.
  assert (limits_range gs) as Hr'.
  { intros i g' Hg'. destruct (requota_lookup _ _ _ _ _ Hrq Hg') as (g0&Hg0&(_&_&<-&<-)%forget_fields). by apply (Hr i). }
  destruct (Z.eqb_spec ret 0) as [->|Hne]; cbn [negb]; cycle 1.
  { eexists _, _; split_and!; [done|done|done|done| |by intros; rewrite (proj1 Hrq)|done|].
    - unfold usage_ok. cbn. by rewrite Hu, (requota_limited _ _ _ Hrq).
    - intros Hd _ _. apply Hdfl; [done|]. intros i. by apply group_tree_closed. }
  destruct (requota_lookup' _ _ _ tg (is_Some_proj Hg) Hrq) as (g&Hg'&_); [by destruct (tgs st !! tg), Hg|].
  rewrite Hg'. match goal with |- context [<[tg := ?x]> gs] => set (g' := x) end.
  assert (relimited period quota burst g g') as Hre.
  { unfold g', relimited. destruct (quota =? RUNTIME_INF); cbn; done. }
  clearbody g'.
  eexists _, _. split_and!; [done|by left|by eapply relimited_tree| | | | |done].
  - intros i g0. cbn. destruct (decide (i = tg)) as [->|]; [rewrite lookup_insert_eq; intros [= <-]|rewrite lookup_insert_ne by done; apply Hr'].
    by destruct Hre as (_&_&_&->&->&_).
  - unfold usage_ok. cbn. rewrite Hu, (requota_limited _ _ _ Hrq), (limited_insert _ _ _ _ Hg').
    destruct Hre as (_&_&_&_&->&_). destruct (quota =? RUNTIME_INF), (cb_quota (tg_bandwidth g) =? RUNTIME_INF); cbn; lia.
  - intros i [?|Hne]; [done|]. cbn. rewrite lookup_insert_ne by done. symmetry. apply Hrq.
  - intros _. split.
    + eapply relimited_hierarchy; [done..|]. intros i Hi. apply Hhier; [done|]. by apply (gt_ids _ _ Ht').
    + exists g'. cbn. rewrite lookup_insert_eq. by destruct Hre as (_&_&_&?&?&?).
Qed.

(** ** What the quotas mean *)

Definition parent_rel gs (i q : nat) : Prop := parent_of gs i = Some q.

Lemma combined_below ratio hp h :
  (ratio = INF64 ∨ 0 <= ratio) → 0 <= hp → combined_quota ratio hp = Some h → 0 <= h <= hp.
Proof.
  rewrite INF64_val. unfold combined_quota. rewrite INF64_val. intros Hr Hp.
  destruct cgroup_on_dfl, (Z.eqb_spec ratio (-1)), (Z.eqb_spec hp (-1)), (Z.ltb_spec hp ratio); cbn; intros [=]; lia.
Qed.
Lemma combined_own ratio hp h :
  0 <= ratio → (hp = INF64 ∨ 0 <= hp) → combined_quota ratio hp = Some h → 0 <= h <= ratio.
Proof.
  rewrite INF64_val. unfold combined_quota. rewrite INF64_val. intros Hr Hp.
  destruct cgroup_on_dfl, (Z.eqb_spec ratio (-1)), (Z.eqb_spec hp (-1)), (Z.ltb_spec hp ratio); cbn; intros [=]; lia.
Qed.
Lemma own_ratio_range b :
  limit_range (cb_period b) (cb_quota b) → own_ratio b = INF64 ∨ 0 <= own_ratio b.
Proof.
  intros Hr. unfold own_ratio. destruct (Z.eqb_spec (cb_quota b) RUNTIME_INF); [by left|right].
  by apply ratio_range.
Qed.

(** No cached quota is out of range. *)
Lemma hquota_range t gs i g :
  group_tree t gs → limits_range gs → hierarchy_ok gs → gs !! i = Some g → hquota g = INF64 ∨ 0 <= hquota g.
Proof.
  intros Ht Hr Hh. revert i g.
  assert (∀ t', linked (children_of gs) (parent_of gs) t' → (∀ q gq, parent_of gs (tg_root t') = Some q → gs !! q = Some gq → hquota gq = INF64 ∨ 0 <= hquota gq) →
    ∀ i g, i ∈ tg_ids t' → gs !! i = Some g → hquota g = INF64 ∨ 0 <= hquota g) as Hgen.
  { intros t'. induction t' as [tg ts IH] using tg_tree_ind'. inversion 1 as [? ? _ _ Hp Hl]; subst. intros Hroot.
    assert (∀ g, gs !! tg = Some g → hquota g = INF64 ∨ 0 <= hquota g) as Htg.
    { intros g Hg. destruct (Hh tg (ex_intro _ g Hg)) as (g0&Hg0&Hq). rewrite Hg in Hg0. injection Hg0 as <-.
      destruct (tg_parent g) as [q|] eqn:Hpar; [|by left]. destruct Hq as (gp&Hgp&Hq).
      assert (parent_of gs tg = Some q) as Hpq by (unfold parent_of; by rewrite Hg).
      destruct (own_ratio_range _ (Hr _ _ Hg)) as [Ho|Ho], (Hroot q gp Hpq Hgp) as [Hx|Hx].
      - left. unfold combined_quota in Hq. rewrite Ho, Hx, Z.eqb_refl in Hq. by destruct cgroup_on_dfl; injection Hq.
      - right. eapply combined_below in Hq; [lia|auto|done].
      - right. eapply combined_own in Hq; [lia|done|auto].
      - right. eapply combined_own in Hq; [lia|done|auto]. }
    intros i g. cbn. rewrite elem_of_cons, list_elem_of_join. intros [->|(l&Hi&(t1&->&Ht1)%list_elem_of_fmap)]; [apply Htg|].
    rewrite Forall_forall in IH, Hl, Hp. apply (IH t1 Ht1 (Hl t1 Ht1)); [|done]. intros q gq. rewrite (Hp t1 Ht1).
    intros [= <-]. apply Htg. }
  intros i g Hg. refine (Hgen t (gt_linked _ _ Ht) _ i g _ Hg); [|by apply (gt_ids _ _ Ht)].
  intros q gq. by rewrite (gt_root _ _ Ht), (gt_top _ _ Ht).
Qed.

(** In a hierarchy whose cached quotas are exact, the quota of a group never exceeds the
    limit of the group itself or of any of its ancestors, in both versions of the
    hierarchy. *)
Theorem cfs_quota_below_ancestors t gs i a g ga :
  group_tree t gs → limits_range gs → hierarchy_ok gs → rtc (parent_rel gs) i a →
  gs !! i = Some g → gs !! a = Some ga → a ≠ root_task_group → own_ratio (tg_bandwidth ga) ≠ INF64 →
  0 <= hquota g <= own_ratio (tg_bandwidth ga).
Proof.
  intros Ht Hr Hh Hia Hg Hga Hnr Hne. revert g Hg. induction Hia as [a|i q a Hiq _ IH]; intros g Hg.
  - rewrite Hg in Hga. injection Hga as <-. destruct (Hh a (ex_intro _ g Hg)) as (g0&Hg0&Hq). rewrite Hg in Hg0. injection Hg0 as <-.
    destruct (own_ratio_range _ (Hr _ _ Hg)) as [?|Hpos]; [done|].
    destruct (tg_parent g) as [q|] eqn:Hp; [|].
    + destruct Hq as (gp&Hgp&Hq). eapply combined_own; [done|by eapply hquota_range|done].
    + exfalso. assert (a ∈ tg_ids t) as Hin by by apply (gt_ids _ _ Ht).
      destruct (linked_parent _ _ _ _ (gt_linked _ _ Ht) Hin) as [->|(q&Hq'&_)]; [by rewrite (gt_root _ _ Ht) in Hnr|].
      unfold parent_of in Hq'. by rewrite Hg, Hp in Hq'.
  - specialize (IH Hga Hnr). destruct (Hh i (ex_intro _ g Hg)) as (g0&Hg0&Hq). rewrite Hg in Hg0. injection Hg0 as <-.
    unfold parent_rel, parent_of in Hiq. rewrite Hg in Hiq. rewrite Hiq in Hq. destruct Hq as (gp&Hgp&Hq).
    specialize (IH gp Hgp). eapply combined_below in Hq; [lia|by apply own_ratio_range, (Hr i)|lia].
Qed.
End spec.
