(* ===== verification/CgroupSpec.v ===== *)
(** The cgroup files: [cpu.max] asks back for the limits it showed; a write to
    [cpu.uclamp.*] leaves effective clamps that are capped by those of the parent, and
    updates the tasks of exactly the groups whose clamps changed. *)
From S2P Require Import Prelude Rbtree KState HvfValue HvfClass HvfSmp Policy Uclamp Core Load TaskGroup TaskGroupSpec BandwidthSpec.
From Stdlib Require Import Ascii.

(** * Numbers as text *)

Lemma digit_cases (P : Z → Prop) : P 0 → P 1 → P 2 → P 3 → P 4 → P 5 → P 6 → P 7 → P 8 → P 9 → ∀ d, 0 <= d <= 9 → P d.
Proof.
  intros. assert (d = 0 ∨ d = 1 ∨ d = 2 ∨ d = 3 ∨ d = 4 ∨ d = 5 ∨ d = 6 ∨ d = 7 ∨ d = 8 ∨ d = 9) as Hd by lia.
  by decompose [or] Hd; subst.
Qed.
Lemma char_digit_digit d : 0 <= d <= 9 → char_digit (digit_char d) = Some d.
Proof. revert d. by apply digit_cases. Qed.
Lemma digit_not_space d : 0 <= d <= 9 → isspace (digit_char d) = false.
Proof. revert d. by apply digit_cases. Qed.

Lemma dec_digits_range fuel n : 0 <= n → Forall (λ d, 0 <= d <= 9) (dec_digits fuel n).
Proof.
  revert n. induction fuel as [|fuel IH]; intros n Hn; cbn; [done|]. destruct (Z.ltb_spec n 10); [constructor; [lia|done]|].
  apply Forall_app. split; [apply IH, Z.div_pos; lia|]. constructor; [|done]. pose proof (Z.mod_pos_bound n 10). lia.
Qed.
Lemma dec_digits_nonempty fuel n : dec_digits (S fuel) n ≠ [].
Proof. cbn. destruct (_ <? _); [done|]. by destruct (dec_digits fuel _). Qed.
Lemma dec_digits_length fuel n : (length (dec_digits fuel n) <= fuel)%nat.
Proof.
  revert n. induction fuel as [|fuel IH]; intros n; cbn; [done|]. destruct (_ <? _); cbn; [lia|].
  rewrite length_app. cbn. specialize (IH (n / 10)). lia.
Qed.

Lemma take_number_digits fuel n rest :
  0 <= n < 2 ^ 64 → n < 10 ^ Z.of_nat fuel →
  take_number 0 ((digit_char <$> dec_digits fuel n) ++ rest) = take_number n rest.
Proof.
  revert n rest. induction fuel as [|fuel IH]; intros n rest Hn Hf; [change (n < 1) in Hf; by replace n with 0 by lia|].
  cbn [dec_digits]. destruct (Z.ltb_spec n 10) as [Hlt|Hge].
  - cbn -[u64 digit_char char_digit]. rewrite char_digit_digit by lia. unfold u64. by rewrite Z.mod_small by lia.
  - rewrite fmap_app, <-app_assoc. rewrite Nat2Z.inj_succ, Z.pow_succ_r in Hf by lia.
    pose proof (Z.div_mod n 10 ltac:(lia)) as Hdm. pose proof (Z.mod_pos_bound n 10 ltac:(lia)) as Hm.
    rewrite IH; [|split; [apply Z.div_pos; lia|apply Z.div_lt_upper_bound; lia]|apply Z.div_lt_upper_bound; lia].
    cbn -[u64 digit_char char_digit Z.div Z.modulo]. rewrite char_digit_digit by lia. f_equal. unfold u64. rewrite Z.mod_small; lia.
Qed.

Lemma print_scan n rest :
  0 <= n < 2 ^ 64 → (∀ c rest', rest = c :: rest' → char_digit c = None) → scan_llu (print_long n ++ rest) = Some n.
Proof.
  intros Hn Hrest. unfold scan_llu, print_long.
  pose proof (dec_digits_range 20 n ltac:(lia)) as Hr. pose proof (dec_digits_nonempty 19 n) as Hne.
  pose proof (take_number_digits 20 n rest Hn ltac:(cbn; lia)) as Ht.
  destruct (dec_digits 20 n) as [|d ds]; [done|]. apply Forall_cons in Hr as [Hd _].
  rewrite fmap_cons in *. cbn [app] in *. rewrite char_digit_digit by done. f_equal. rewrite Ht.
  destruct rest as [|c rest']; [done|]. cbn. by rewrite (Hrest c rest' eq_refl).
Qed.

Lemma take_word_exact width w rest :
  Forall (λ c, isspace c = false) w → (length w <= width)%nat → (∀ c rest', rest = c :: rest' → isspace c = true) →
  take_word width (w ++ rest) = (w, rest).
Proof.
  intros Hw. revert width. induction Hw as [|c w Hc _ IH]; intros width Hlen Hrest; cbn in *.
  - destruct width, rest as [|c rest']; cbn; try done. by rewrite (Hrest c rest' eq_refl).
  - destruct width as [|width]; [lia|]. cbn. rewrite Hc, IH; [done|lia|done].
Qed.
Lemma skip_spaces_word w rest : w ≠ [] → Forall (λ c, isspace c = false) w → skip_spaces (w ++ rest) = w ++ rest.
Proof. intros Hne Hw. destruct Hw as [|c w Hc _]; [done|]. cbn. by rewrite Hc. Qed.

Lemma print_long_word n : 0 <= n → Forall (λ c, isspace c = false) (print_long n) ∧ (length (print_long n) <= 20)%nat ∧ print_long n ≠ [].
Proof.
  intros Hn. unfold print_long. split_and!.
  - apply Forall_fmap. eapply Forall_impl; [by apply dec_digits_range|]. intros d. apply digit_not_space.
  - rewrite length_fmap. apply dec_digits_length.
  - intros He%fmap_nil_inv. by apply (dec_digits_nonempty 19 n).
Qed.

(** The parser on what the printer writes. *)
Lemma parse_print period quota p0 :
  0 <= period < 2 ^ 63 → quota < 2 ^ 63 →
  cpu_period_quota_parse (cpu_period_quota_print period quota) p0 =
  Some (u64 (period * NSEC_PER_USEC), if quota <? 0 then RUNTIME_INF else u64 (quota * NSEC_PER_USEC)).
Proof.
  intros Hp Hq. unfold cpu_period_quota_parse, cpu_period_quota_print.
  set (w := if quota <? 0 then str_max else print_long quota).
  assert (Forall (λ c, isspace c = false) w ∧ (length w <= 20)%nat ∧ w ≠ []) as (Hw&Hlen&Hne).
  { unfold w. destruct (Z.ltb_spec quota 0); [|by apply print_long_word]. split_and!; [by repeat constructor|cbn; lia|done]. }
  destruct (print_long_word period ltac:(lia)) as (Hpw&_&Hpne).
  rewrite skip_spaces_word, take_word_exact by (naive_solver || done).
  change (skip_spaces ([" "%char] ++ print_long period ++ [ascii_of_nat 10])) with (skip_spaces (print_long period ++ [ascii_of_nat 10])).
  rewrite skip_spaces_word, print_scan by (done || lia || naive_solver).
  destruct w as [|c w'] eqn:Hwe; [done|]. rewrite <-Hwe. unfold w. destruct (Z.ltb_spec quota 0); [done|].
  rewrite <-(app_nil_r (print_long quota)), print_scan by (lia || done). done.
Qed.

(** * cpu.max *)

(** Limits of whole microseconds, the unit of the file. *)
Definition whole_us (b : cfs_bandwidth) : Prop :=
  cb_period b mod NSEC_PER_USEC = 0 ∧ (cb_quota b ≠ RUNTIME_INF → cb_quota b mod NSEC_PER_USEC = 0).

Lemma whole_back x : 0 <= x <= 2 ^ 60 → x mod NSEC_PER_USEC = 0 →
  wrap64 (x / NSEC_PER_USEC) = x / NSEC_PER_USEC ∧ 0 <= x / NSEC_PER_USEC < 2 ^ 60 ∧ u64 (x / NSEC_PER_USEC * NSEC_PER_USEC) = x.
Proof.
  intros Hx Hm. unfold NSEC_PER_USEC in *. pose proof (Z.div_mod x 1000 ltac:(lia)) as Hdm.
  assert (0 <= x / 1000 < 2 ^ 60) by (split; [apply Z.div_pos; lia|apply Z.div_lt_upper_bound; lia]).
  split_and!; [apply wrap64_small; unfold is_long; lia|lia|lia|]. unfold u64. rewrite Z.mod_small; lia.
Qed.

Lemma show_parse g p0 :
  limit_range (cb_period (tg_bandwidth g)) (cb_quota (tg_bandwidth g)) → whole_us (tg_bandwidth g) →
  cpu_period_quota_parse (cpu_max_show g) p0 = Some (cb_period (tg_bandwidth g), cb_quota (tg_bandwidth g)).
Proof.
  intros [Hp Hq] [Hpw Hqw]. unfold cpu_max_show, tg_get_cfs_period, tg_get_cfs_quota.
  unfold min_cfs_quota_period, max_cfs_quota_period in Hp. rewrite max_cfs_runtime_val in Hq.
  destruct (whole_back (cb_period (tg_bandwidth g)) ltac:(lia) Hpw) as (->&Hb&Hbk).
  destruct (Z.eqb_spec (cb_quota (tg_bandwidth g)) RUNTIME_INF) as [Hi|Hi].
  - rewrite parse_print by lia. rewrite Hbk. by rewrite Hi.
  - destruct Hq as [|Hq]; [done|]. destruct (whole_back (cb_quota (tg_bandwidth g)) ltac:(lia) (Hqw Hi)) as (->&Hb'&Hbk').
    rewrite parse_print, Hbk, Hbk' by lia. by destruct (Z.ltb_spec (cb_quota (tg_bandwidth g) / NSEC_PER_USEC) 0); [lia|].
Qed.

(** C33: For a group whose period and quota are whole microseconds and in the range of
    limits that are accepted, writing to [cpu.max] the text the file shows asks for exactly
    the limits the group has, burst included.  A quota that is not, such as the one
    [cpu_max_wraps] reaches through the same file, is shown rounded down. *)
Theorem cpu_max_roundtrip {GL : GroupLib} tg g st :
  tgs st !! tg = Some g →
  limit_range (cb_period (tg_bandwidth g)) (cb_quota (tg_bandwidth g)) → whole_us (tg_bandwidth g) →
  cpu_max_write tg (cpu_max_show g) st =
  ('(ret, st') ← tg_set_cfs_bandwidth tg (cb_period (tg_bandwidth g)) (cb_quota (tg_bandwidth g)) (cb_burst (tg_bandwidth g)) st;
   Some (if ret =? 0 then Z.of_nat (length (cpu_max_show g)) else ret, st')).
Proof. intros Hg Hr Hw. unfold cpu_max_write. rewrite Hg. cbn -[cpu_max_show]. by rewrite show_parse. Qed.

(** * cpu.uclamp *)

Section clamps.
Context {UC : UclampConfig}.

Definition eff_of (g : tg_clamps) (id : uclamp_id) : Z := uc_value (tc_eff g id).

(** Every effective clamp is what the request of the group and the clamps of its parent
    give. *)
Inductive eff_ok : option (uclamp_id → uclamp_se) → cg_tree → Prop :=
  | eff_ok_node parent g ts :
      (∀ id, eff_of g id = eff_value parent g id) →
      Forall (eff_ok (Some (tc_eff g))) ts → eff_ok parent (CGNode g ts).
(** The same below the top, whose own request may just have changed. *)
Definition below_top (t : cg_tree) : Prop := let '(CGNode g ts) := t in Forall (eff_ok (Some (tc_eff g))) ts.

Section cg_ind.
Context (P : cg_tree → Prop) (Hnode : ∀ g ts, Forall P ts → P (CGNode g ts)).
Fixpoint cg_tree_ind' (t : cg_tree) : P t :=
  let '(CGNode g ts) := t in
  Hnode g ts ((fix go ts := match ts return Forall P ts with
                            | [] => Forall_nil_2 P
                            | t :: ts' => Forall_cons_2 P t ts' (cg_tree_ind' t) (go ts')
                            end) ts).
End cg_ind.

(** The groups whose effective clamps differ, in pre-order. *)
Definition same_eff (g g' : tg_clamps) : bool :=
  (eff_of g' UCLAMP_MIN =? eff_of g UCLAMP_MIN) && (eff_of g' UCLAMP_MAX =? eff_of g UCLAMP_MAX).
Fixpoint changed (t t' : cg_tree) : list nat :=
  let '(CGNode g ts) := t in let '(CGNode g' ts') := t' in
  (if same_eff g g' then [] else [tc_tg g]) ++ mjoin (zip_with changed ts ts').

Lemma changed_node g ts g' ts' :
  changed (CGNode g ts) (CGNode g' ts') = (if same_eff g g' then [] else [tc_tg g]) ++ mjoin (zip_with changed ts ts').
Proof. done. Qed.

Lemma changed_refl t : changed t t = [].
Proof.
  induction t as [g ts IH] using cg_tree_ind'. rewrite changed_node. unfold same_eff. rewrite !Z.eqb_refl. cbn [andb app].
  induction IH as [|t ts Ht _ IHts]; [done|]. change (changed t t ++ mjoin (zip_with changed ts ts) = []). by rewrite Ht, IHts.
Qed.

Lemma update_node parent g ts :
  cpu_util_update_eff parent (CGNode g ts) =
  let eff := eff_value parent g in
  if (eff UCLAMP_MIN =? eff_of g UCLAMP_MIN) && (eff UCLAMP_MAX =? eff_of g UCLAMP_MAX) then (CGNode g ts, [])
  else let res := cpu_util_update_eff (Some (refresh_clamp eff g)) <$> ts in
       (CGNode (g <| tc_eff := refresh_clamp eff g |>) (fst <$> res), tc_tg g :: mjoin (snd <$> res)).
Proof. done. Qed.

Lemma refresh_value eff g id : uc_value (refresh_clamp eff g id) = eff id.
Proof. unfold refresh_clamp. destruct (Z.eqb_spec (eff id) (uc_value (tc_eff g id))); [done|]. done. Qed.

Lemma eff_ok_below parent t : eff_ok parent t → below_top t.
Proof. by destruct 1. Qed.

Lemma update_eff_ok parent t : below_top t → eff_ok parent (cpu_util_update_eff parent t).1.
Proof.
  revert parent. induction t as [g ts IH] using cg_tree_ind'. intros parent Hb. cbn in Hb. rewrite update_node. cbn zeta.
  destruct (_ && _) eqn:Hsame; cbn [fst].
  - rewrite andb_true_iff, !Z.eqb_eq in Hsame. destruct Hsame. constructor; [|done]. intros []; done.
  - constructor; [intros id; apply refresh_value|]. rewrite !Forall_fmap. apply Forall_forall. intros t Ht. cbn.
    rewrite Forall_forall in IH, Hb. apply IH; [done|]. by eapply eff_ok_below, Hb.
Qed.

Lemma update_changed parent t :
  (cpu_util_update_eff parent t).2 = changed t (cpu_util_update_eff parent t).1.
Proof.
  revert parent. induction t as [g ts IH] using cg_tree_ind'. intros parent. rewrite update_node. cbn zeta.
  destruct (_ && _) eqn:Hsame; cbn [fst snd]; [by rewrite changed_refl|]. rewrite changed_node.
  assert (same_eff g (g <| tc_eff := refresh_clamp (eff_value parent g) g |>) = false) as ->.
  { rewrite <-Hsame. unfold same_eff. f_equal; f_equal; apply refresh_value. }
  cbn [app]. f_equal. generalize (Some (refresh_clamp (eff_value parent g) g)) as p. intros p.
  induction IH as [|t ts Ht _ IHts]; [done|].
  change ((cpu_util_update_eff p t).2 ++ mjoin (snd <$> (cpu_util_update_eff p <$> ts)) =
    changed t (cpu_util_update_eff p t).1 ++ mjoin (zip_with changed ts (fst <$> (cpu_util_update_eff p <$> ts)))).
  by rewrite <-Ht, <-IHts.
Qed.

(** Effective clamps are ordered, and capped by the request of the group and by the
    clamps of its parent. *)
Lemma eff_value_capped p g :
  eff_value p g UCLAMP_MIN <= eff_value p g UCLAMP_MAX ∧
  (∀ id, eff_value p g id <= uc_value (tc_req g id)) ∧
  (∀ q id, p = Some q → eff_value p g id <= uc_value (q id)).
Proof.
  assert (∀ id, capped p g id <= uc_value (tc_req g id)) as H1.
  { intros id. unfold capped. destruct p as [q|]; [|lia]. destruct (Z.ltb_spec (uc_value (q id)) (uc_value (tc_req g id))); lia. }
  assert (∀ q id, p = Some q → capped p g id <= uc_value (q id)) as H2.
  { intros q id ->. unfold capped. destruct (Z.ltb_spec (uc_value (q id)) (uc_value (tc_req g id))); lia. }
  split_and!.
  - cbn. lia.
  - intros []; cbn; [pose proof (H1 UCLAMP_MIN)|pose proof (H1 UCLAMP_MAX)]; lia.
  - intros q [] Hq; cbn; [pose proof (H2 q UCLAMP_MIN Hq)|pose proof (H2 q UCLAMP_MAX Hq)]; lia.
Qed.

(** The bounds of the effective clamps in a whole tree. *)
Inductive capped_tree : option (uclamp_id → uclamp_se) → cg_tree → Prop :=
  | capped_node parent g ts :
      eff_of g UCLAMP_MIN <= eff_of g UCLAMP_MAX →
      (∀ id, eff_of g id <= uc_value (tc_req g id)) →
      (∀ q id, parent = Some q → eff_of g id <= uc_value (q id)) →
      Forall (capped_tree (Some (tc_eff g))) ts → capped_tree parent (CGNode g ts).
Lemma eff_ok_capped t : ∀ parent, eff_ok parent t → capped_tree parent t.
Proof.
  induction t as [g ts IH] using cg_tree_ind'. intros parent. inversion 1 as [? ? ? Hv Hts]; subst.
  destruct (eff_value_capped parent g) as (H1&H2&H3). constructor.
  - by rewrite !Hv.
  - intros id. by rewrite Hv.
  - intros q id Hq. rewrite Hv. by apply H3.
  - eapply Forall_impl; [apply Forall_and; split; [exact IH|exact Hts]|]. cbn. naive_solver.
Qed.

(** After a write to [cpu.uclamp.min] or [cpu.uclamp.max] of a group, accepted or refused,
    every effective clamp of the group and of its descendants is the one its request and
    its ancestors determine: the minimum is at most the maximum, and neither exceeds the
    request or the effective clamp of the parent.  The tasks that are updated are those of
    exactly the groups whose effective clamps changed, although unchanged parts of the
    tree are not visited. *)
Theorem cpu_uclamp_write_spec parse parent id buf t :
  eff_ok parent t →
  let '(ret, t', updated) := cpu_uclamp_write parse parent id buf t in
  eff_ok parent t' ∧ capped_tree parent t' ∧ updated = changed t t' ∧ (ret < 0 → t' = t).
Proof.
  intros Hok. unfold cpu_uclamp_write. destruct (ureq_ret _ =? 0); cbn [negb]; cycle 1.
  { split_and!; [done|by apply eff_ok_capped|by rewrite changed_refl|done]. }
  destruct t as [g ts].
  match goal with |- context [cpu_util_update_eff parent (CGNode ?x ts)] => set (g' := x) end.
  assert (tc_eff g' = tc_eff g ∧ tc_tg g' = tc_tg g) as [He Ht] by (unfold g'; by destruct (_ =? _)). clearbody g'.
  assert (below_top (CGNode g' ts)) as Hb by (cbn; rewrite He; by apply (eff_ok_below parent (CGNode g ts))).
  pose proof (update_eff_ok parent _ Hb) as Heff. pose proof (update_changed parent (CGNode g' ts)) as Hch.
  destruct (cpu_util_update_eff parent (CGNode g' ts)) as [[gt tst] updated]. cbn [fst snd] in *.
  split_and!; [done|by apply eff_ok_capped| |lia]. rewrite Hch, !changed_node. unfold same_eff, eff_of. by rewrite He, Ht.
Qed.

(** A new group has, once it is online, the effective clamps its ancestors allow: no boost, and
    the limit of its parent. *)
Theorem online_group_clamps_spec tg parent :
  (∀ id, 0 <= uc_value (parent id) <= SCHED_CAPACITY_SCALE) →
  eff_ok (Some parent) (online_group_clamps tg parent).1 ∧
  let '(CGNode g ts) := (online_group_clamps tg parent).1 in
  ts = [] ∧ tc_tg g = tg ∧ eff_of g UCLAMP_MIN = 0 ∧ eff_of g UCLAMP_MAX = uc_value (parent UCLAMP_MAX).
Proof.
  intros Hp. unfold online_group_clamps. assert (below_top (CGNode (new_group_clamps tg parent) [])) as Hb by constructor.
  pose proof (update_eff_ok (Some parent) _ Hb) as Heff. split; [exact Heff|].
  destruct (cpu_util_update_eff (Some parent) (CGNode (new_group_clamps tg parent) [])) as [[g ts] l] eqn:Hu. cbn [fst] in *.
  assert (ts = [] ∧ tc_tg g = tg ∧ tc_req g = tc_req (new_group_clamps tg parent)) as (->&Ht&Hr).
  { cbn in Hu. destruct (_ && _); injection Hu as <- <- _; done. }
  inversion Heff as [? ? ? Hv _]; subst. pose proof (Hp UCLAMP_MIN). pose proof (Hp UCLAMP_MAX).
  assert (uc_value (tc_req g UCLAMP_MIN) = 0 ∧ uc_value (tc_req g UCLAMP_MAX) = SCHED_CAPACITY_SCALE) as [Hmin Hmax] by (rewrite Hr; by split).
  split_and!; [done|done|..]; rewrite Hv; unfold eff_value, capped; rewrite ?Hmin, ?Hmax; repeat case_match; lia.
Qed.
End clamps.
