(* ===== verification/Fork.v ===== *)
(** Process creation (kernel/fork.c): the checks on the clone flags, [copy_process] with
    its ladder of cleanups, [kernel_clone] and the system calls on top of it.

    The state adds to that of the scheduler the structures a process shares with others
    (open files, file system, signal handlers, signals, memory), which are counted, and
    the set of what other subsystems hold for a task.  A task under construction is not
    yet in the list of processes.  The results of functions outside the repository are a
    record [fork_env], one for each call.

    Times, accounting, tracing, task names, the fields that belong to other subsystems and
    the locks are not part of the state. *)
From S2P Require Import Prelude Rbtree KState HvfValue HvfClass HvfSmp Policy Uclamp Core Schedule Load Setsched Wakeup Affinity.

Definition ERESTARTNOINTR := 513.
Definition SIGCHLD := 17.
Definition INT_MAX := 2 ^ 31 - 1.

Definition CSIGNAL := 0x000000ff.
Definition CLONE_VM := 0x00000100.
Definition CLONE_FS := 0x00000200.
Definition CLONE_FILES := 0x00000400.
Definition CLONE_SIGHAND := 0x00000800.
Definition CLONE_PIDFD := 0x00001000.
Definition CLONE_VFORK := 0x00004000.
Definition CLONE_PARENT := 0x00008000.
Definition CLONE_THREAD := 0x00010000.
Definition CLONE_NEWNS := 0x00020000.
Definition CLONE_SYSVSEM := 0x00040000.
Definition CLONE_PARENT_SETTID := 0x00100000.
Definition CLONE_CHILD_CLEARTID := 0x00200000.
Definition CLONE_DETACHED := 0x00400000.
Definition CLONE_UNTRACED := 0x00800000.
Definition CLONE_CHILD_SETTID := 0x01000000.
Definition CLONE_NEWCGROUP := 0x02000000.
Definition CLONE_NEWUTS := 0x04000000.
Definition CLONE_NEWIPC := 0x08000000.
Definition CLONE_NEWUSER := 0x10000000.
Definition CLONE_NEWPID := 0x20000000.
Definition CLONE_NEWNET := 0x40000000.
Definition CLONE_IO := 0x80000000.
Definition CLONE_CLEAR_SIGHAND := 0x100000000.
Definition CLONE_INTO_CGROUP := 0x200000000.
Definition CLONE_NEWTIME := 0x00000080.
Definition CLONE_LEGACY_FLAGS := 0xffffffff.

Definition PF_IDLE := 0x00000002.
Definition PF_IO_WORKER := 0x00000010.
Definition PF_WQ_WORKER := 0x00000020.
Definition PF_FORKNOEXEC := 0x00000040.
Definition PF_SUPERPRIV := 0x00000100.
Definition PF_NPROC_EXCEEDED := 0x00001000.
Definition PF_USER_WORKER := 0x00004000.
Definition SIGNAL_UNKILLABLE := 0x00000040.

(** Union of flags. *)
Definition flags (l : list Z) : Z := foldr Z.lor 0 l.
(** All of [mask] are set. *)
Definition has_all (f mask : Z) : bool := Z.land f mask =? mask.

(** * State *)

(** What is held for a task by other subsystems; the last two are credentials and
    namespaces that are prepared and not yet installed. *)
Inductive resource :=
  | res_delayed | res_creds | res_nproc | res_delayacct | res_kthread | res_mempolicy | res_perf | res_audit
  | res_security | res_semundo | res_namespaces | res_io | res_thread | res_pid | res_pidfd | res_cgroup | res_core
  | res_new_creds | res_new_namespaces.
#[export] Instance resource_eq_dec : EqDecision resource.
Proof. solve_decision. Defined.
Definition resources : list resource :=
  [res_delayed; res_creds; res_nproc; res_delayacct; res_kthread; res_mempolicy; res_perf; res_audit;
   res_security; res_semundo; res_namespaces; res_io; res_thread; res_pid; res_pidfd; res_cgroup; res_core;
   res_new_creds; res_new_namespaces].
Definition resource_code (r : resource) : nat :=
  match r with
  | res_delayed => 0 | res_creds => 1 | res_nproc => 2 | res_delayacct => 3 | res_kthread => 4 | res_mempolicy => 5
  | res_perf => 6 | res_audit => 7 | res_security => 8 | res_semundo => 9 | res_namespaces => 10 | res_io => 11
  | res_thread => 12 | res_pid => 13 | res_pidfd => 14 | res_cgroup => 15 | res_core => 16
  | res_new_creds => 17 | res_new_namespaces => 18
  end.
#[export] Instance resource_countable : Countable resource.
Proof. refine (inj_countable resource_code (λ n, resources !! n) _). by intros []. Defined.

Record signal_struct := {
  sig_nr_threads : Z; sig_quick_threads : Z; sig_live : Z; sig_sigcnt : Z; sig_flags : Z
}.
#[export] Instance eta_signal_struct : Eta signal_struct := λ r,
  {| sig_nr_threads := sig_nr_threads r; sig_quick_threads := sig_quick_threads r; sig_live := sig_live r;
     sig_sigcnt := sig_sigcnt r; sig_flags := sig_flags r |}.

(** The fields of [task_struct] that belong to the process; pointers to shared
    structures are numbers. *)
Record proc := {
  pr_files : option nat; pr_fs : option nat; pr_sighand : option nat; pr_signal : option nat; pr_mm : option nat;
  pr_active_mm : option nat; pr_io_context : bool; pr_pid : Z; pr_tgid : Z; pr_group_leader : tid; pr_real_parent : tid;
  pr_exit_signal : Z; pr_parent_exec_id : Z; pr_self_exec_id : Z; pr_set_child_tid : Z; pr_clear_child_tid : Z;
  pr_vfork_done : option tid
}.
#[export] Instance eta_proc : Eta proc := λ r,
  {| pr_files := pr_files r; pr_fs := pr_fs r; pr_sighand := pr_sighand r; pr_signal := pr_signal r; pr_mm := pr_mm r;
     pr_active_mm := pr_active_mm r; pr_io_context := pr_io_context r; pr_pid := pr_pid r; pr_tgid := pr_tgid r;
     pr_group_leader := pr_group_leader r; pr_real_parent := pr_real_parent r; pr_exit_signal := pr_exit_signal r;
     pr_parent_exec_id := pr_parent_exec_id r; pr_self_exec_id := pr_self_exec_id r;
     pr_set_child_tid := pr_set_child_tid r; pr_clear_child_tid := pr_clear_child_tid r; pr_vfork_done := pr_vfork_done r |}.

(** [ps_procs] are the tasks of the task list, [ps_new] those under construction; the
    counts of open file tables ([count]), file system structures ([users]), signal
    handlers ([count]) and memory ([mm_users]). *)
Record pstate := {
  ps_k : kstate; ps_procs : gmap tid proc; ps_new : gmap tid proc; ps_files : gmap nat Z; ps_fs : gmap nat Z;
  ps_in_exec : gset nat; ps_sighand : gmap nat Z; ps_mm : gmap nat Z; ps_signal : gmap nat signal_struct;
  ps_held : gset (tid * resource); ps_nr_threads : Z; ps_max_threads : Z; ps_total_forks : Z; ps_processes : Z
}.
#[export] Instance eta_pstate : Eta pstate := λ r,
  {| ps_k := ps_k r; ps_procs := ps_procs r; ps_new := ps_new r; ps_files := ps_files r; ps_fs := ps_fs r;
     ps_in_exec := ps_in_exec r; ps_sighand := ps_sighand r; ps_mm := ps_mm r; ps_signal := ps_signal r;
     ps_held := ps_held r; ps_nr_threads := ps_nr_threads r; ps_max_threads := ps_max_threads r;
     ps_total_forks := ps_total_forks r; ps_processes := ps_processes r |}.

(** * The monad *)

Definition F (A : Type) : Type := pstate → res (A * pstate).
#[export] Instance F_ret : MRet F := λ A a s, Ok (a, s).
#[export] Instance F_bind : MBind F := λ A B k m s,
  match m s with Ok (a, s') => k a s' | Oops o => Oops o end.
Definition fskip : F unit := mret tt.
Definition fget {A} (f : pstate → A) : F A := λ s, Ok (f s, s).
Definition fmodify (f : pstate → pstate) : F unit := λ s, Ok (tt, f s).
Definition fwhen (b : bool) (m : F unit) : F unit := if b then m else fskip.
Definition fderef {A} (o : option A) : F A := λ s, match o with Some a => Ok (a, s) | None => Oops bad_pointer end.
(** The code of the scheduler. *)
Definition sched {A} (m : M A) : F A := λ s,
  match m (ps_k s) with Ok (a, k) => Ok (a, s <| ps_k := k |>) | Oops o => Oops o end.

Definition process (p : tid) : F proc := λ s,
  match ps_procs s !! p with Some pr => Ok (pr, s) | None => Oops bad_pointer end.
Definition new_proc (p : tid) : F proc := λ s,
  match ps_new s !! p with Some pr => Ok (pr, s) | None => Oops bad_pointer end.
Definition upd_new (p : tid) (f : proc → proc) : F unit :=
  pr ← new_proc p; fmodify (λ s, s <| ps_new := <[p := f pr]> (ps_new s) |>).

Definition hold (p : tid) (r : resource) : F unit := fmodify (λ s, s <| ps_held := {[(p, r)]} ∪ ps_held s |>).
(** To give back what is not held is to use an object that is freed already or was never
    made. *)
Definition release (p : tid) (r : resource) : F unit := λ s,
  if decide ((p, r) ∈ ps_held s) then Ok (tt, s <| ps_held := ps_held s ∖ {[(p, r)]} |>) else Oops bad_pointer.
(** The calls that may find nothing to give back: [hlist_del_init], [free_kthread_struct],
    which takes NULL, and [exit_sem]. *)
Definition unhold (p : tid) (r : resource) : F unit := fmodify (λ s, s <| ps_held := ps_held s ∖ {[(p, r)]} |>).

(** Reference counts: the last reference that is put frees the structure. *)
Definition get_ref (i : nat) (m : gmap nat Z) : gmap nat Z := alter (λ n, n + 1) i m.
Definition put_ref (i : nat) (m : gmap nat Z) : gmap nat Z :=
  match m !! i with Some n => if n - 1 =? 0 then delete i m else <[i := n - 1]> m | None => m end.
(** A structure with one reference. *)
Definition new_ref (m : gmap nat Z) : nat := fresh (dom m).

(** [struct kernel_clone_args]; user pointers are numbers, 0 is NULL. *)
Record kernel_clone_args := {
  ka_flags : Z; ka_pidfd : Z; ka_child_tid : Z; ka_parent_tid : Z; ka_exit_signal : Z; ka_stack : Z; ka_stack_size : Z;
  ka_tls : Z; ka_set_tid : list Z; ka_set_tid_size : Z; ka_cgroup : Z; ka_kthread : bool; ka_io_thread : bool;
  ka_user_worker : bool; ka_no_files : bool; ka_idle : bool
}.
#[export] Instance eta_kernel_clone_args : Eta kernel_clone_args := λ r,
  {| ka_flags := ka_flags r; ka_pidfd := ka_pidfd r; ka_child_tid := ka_child_tid r; ka_parent_tid := ka_parent_tid r;
     ka_exit_signal := ka_exit_signal r; ka_stack := ka_stack r; ka_stack_size := ka_stack_size r; ka_tls := ka_tls r;
     ka_set_tid := ka_set_tid r; ka_set_tid_size := ka_set_tid_size r; ka_cgroup := ka_cgroup r; ka_kthread := ka_kthread r;
     ka_io_thread := ka_io_thread r; ka_user_worker := ka_user_worker r; ka_no_files := ka_no_files r; ka_idle := ka_idle r |}.

(** What the functions outside the repository answer during one fork: an error is
    negative; [env_pid] is the number of the new pid or an error, [env_pidfd] the
    descriptor or an error, [env_vnr] the pid as the caller sees it. *)
Record fork_env := {
  env_same_pid_ns : bool; env_sigpending : bool; env_dup_task : bool; env_creds : Z; env_overlimit : bool;
  env_init_user : bool; env_capable : Z → bool; env_kthread : bool; env_mempolicy : Z; env_perf : Z; env_audit : Z;
  env_security : Z; env_semundo : Z; env_dup_fd : Z; env_copy_fs : bool; env_sighand : bool; env_signal : bool;
  env_dup_mm : bool; env_namespaces : Z; env_io : Z; env_io_context : bool; env_thread : Z; env_pid : Z; env_pidfd : Z;
  env_put_user : Z; env_cgroup : Z; env_pidns_dying : bool; env_fatal_signal : bool; env_child_reaper : bool;
  env_vnr : Z
}.

Definition CAP_SYS_RESOURCE := 24.
Definition CAP_SYS_ADMIN := 21.

(** Code of the file layer that drops the references of a task (fs/file.c,
    fs/fs_struct.c), and what happens while a parent waits for its child to release the
    memory: the result says whether a signal ended the wait. *)
Class ProcLib := {
  exit_files : tid → F unit;
  exit_fs : tid → F unit;
  wait_for_vfork : tid → F bool;
}.

Section fork.
Context {L : RbLib} {TC : TickConfig} {S : SmpLib} {UC : UclampConfig} {E : Ext} {OC : OtherClasses} {CL : CpuLib}
  {FL : ForkLib} {SL : SysLib} {AL : AffLib} {PL : ProcLib}.

(** * Parts of a process *)

Definition current_task : F tid := sched current.
Definition current_proc : F proc := p ← current_task; process p.

Definition copy_files (env : fork_env) (clone_flags : Z) (tsk : tid) (no_files : bool) : F Z :=
  pc ← current_proc;
  match pr_files pc with
  | None => mret 0
  | Some oldf =>
      if no_files then upd_new tsk (λ p, p <| pr_files := None |>);; mret 0 else
      if has clone_flags CLONE_FILES then fmodify (λ s, s <| ps_files := get_ref oldf (ps_files s) |>);; mret 0 else
      if env_dup_fd env <? 0 then mret (env_dup_fd env) else
      newf ← fget (λ s, new_ref (ps_files s));
      fmodify (λ s, s <| ps_files := <[newf := 1]> (ps_files s) |>);;
      upd_new tsk (λ p, p <| pr_files := Some newf |>);;
      mret 0
  end.

Definition copy_fs (env : fork_env) (clone_flags : Z) (tsk : tid) : F Z :=
  pc ← current_proc;
  if has clone_flags CLONE_FS then
    fs ← fderef (pr_fs pc);
    in_exec ← fget (λ s, bool_decide (fs ∈ ps_in_exec s));
    if in_exec : bool then mret (- EAGAIN) else
    fmodify (λ s, s <| ps_fs := get_ref fs (ps_fs s) |>);;
    mret 0
  else if negb (env_copy_fs env) then upd_new tsk (λ p, p <| pr_fs := None |>);; mret (- ENOMEM) else
  fs ← fget (λ s, new_ref (ps_fs s));
  fmodify (λ s, s <| ps_fs := <[fs := 1]> (ps_fs s) |>);;
  upd_new tsk (λ p, p <| pr_fs := Some fs |>);;
  mret 0.

(** The handlers themselves are not part of the state. *)
Definition copy_sighand (env : fork_env) (clone_flags : Z) (tsk : tid) : F Z :=
  pc ← current_proc;
  if has clone_flags CLONE_SIGHAND then
    sh ← fderef (pr_sighand pc);
    fmodify (λ s, s <| ps_sighand := get_ref sh (ps_sighand s) |>);;
    mret 0
  else if negb (env_sighand env) then upd_new tsk (λ p, p <| pr_sighand := None |>);; mret (- ENOMEM) else
  sig ← fget (λ s, new_ref (ps_sighand s));
  fmodify (λ s, s <| ps_sighand := <[sig := 1]> (ps_sighand s) |>);;
  upd_new tsk (λ p, p <| pr_sighand := Some sig |>);;
  mret 0.

Definition __cleanup_sighand (sighand : nat) : F unit :=
  fmodify (λ s, s <| ps_sighand := put_ref sighand (ps_sighand s) |>).

Definition fresh_signal : signal_struct :=
  {| sig_nr_threads := 1; sig_quick_threads := 1; sig_live := 1; sig_sigcnt := 1; sig_flags := 0 |}.
Definition copy_signal (env : fork_env) (clone_flags : Z) (tsk : tid) : F Z :=
  if has clone_flags CLONE_THREAD then mret 0 else
  if negb (env_signal env) then upd_new tsk (λ p, p <| pr_signal := None |>);; mret (- ENOMEM) else
  sig ← fget (λ s, fresh (dom (ps_signal s)));
  fmodify (λ s, s <| ps_signal := <[sig := fresh_signal]> (ps_signal s) |>);;
  upd_new tsk (λ p, p <| pr_signal := Some sig |>);;
  mret 0.
Definition free_signal_struct (sig : nat) : F unit := fmodify (λ s, s <| ps_signal := delete sig (ps_signal s) |>).

Definition mmput (mm : nat) : F unit := fmodify (λ s, s <| ps_mm := put_ref mm (ps_mm s) |>).
Definition copy_mm (env : fork_env) (clone_flags : Z) (tsk : tid) : F Z :=
  upd_new tsk (λ p, p <| pr_mm := None |> <| pr_active_mm := None |>);;
  pc ← current_proc;
  match pr_mm pc with
  | None => mret 0
  | Some oldmm =>
      if has clone_flags CLONE_VM then
        fmodify (λ s, s <| ps_mm := get_ref oldmm (ps_mm s) |>);;
        upd_new tsk (λ p, p <| pr_mm := Some oldmm |> <| pr_active_mm := Some oldmm |>);;
        mret 0
      else if negb (env_dup_mm env) then mret (- ENOMEM) else
      mm ← fget (λ s, new_ref (ps_mm s));
      fmodify (λ s, s <| ps_mm := <[mm := 1]> (ps_mm s) |>);;
      upd_new tsk (λ p, p <| pr_mm := Some mm |> <| pr_active_mm := Some mm |>);;
      mret 0
  end.

(** The task and its copy; [None] when memory is short. *)
Definition dup_task_struct (env : fork_env) (orig : tid) : F (option tid) :=
  if negb (env_dup_task env) then mret None else
  pr ← process orig;
  t ← sched (task orig);
  tsk ← fget (λ s, fresh (dom (k_tasks (ps_k s)) ∪ dom (ps_procs s) ∪ dom (ps_new s)));
  fmodify (λ s, s <| ps_new := <[tsk := pr]> (ps_new s) |>
                  <| ps_k ::= λ k, k <| k_tasks := <[tsk := t <| need_resched := false |>]> (k_tasks k) |> |>);;
  sched (dup_user_cpus_ptr tsk orig);;
  mret (Some tsk).

Definition free_task (tsk : tid) : F unit :=
  t ← sched (task tsk);
  fwhen (has (t_flags t) PF_KTHREAD) (unhold tsk res_kthread);;
  fmodify (λ s, s <| ps_new := delete tsk (ps_new s) |> <| ps_k ::= λ k, k <| k_tasks := delete tsk (k_tasks k) |> |>).

(** * copy_process *)

(** The checks at the top; [unkillable] is a flag of the signals of the caller. *)
Definition bad_clone_flags (clone_flags : Z) (unkillable same_pid_ns : bool) : bool :=
  has_all clone_flags (Z.lor CLONE_NEWNS CLONE_FS) ||
  has_all clone_flags (Z.lor CLONE_NEWUSER CLONE_FS) ||
  (has clone_flags CLONE_THREAD && negb (has clone_flags CLONE_SIGHAND)) ||
  (has clone_flags CLONE_SIGHAND && negb (has clone_flags CLONE_VM)) ||
  (has clone_flags CLONE_PARENT && unkillable) ||
  (has clone_flags CLONE_THREAD && (has clone_flags (Z.lor CLONE_NEWUSER CLONE_NEWPID) || negb same_pid_ns)) ||
  (has clone_flags CLONE_PIDFD && has clone_flags CLONE_DETACHED).

(** The labels of the cleanups, in their order. *)
Inductive label :=
  | bad_fork_core_free | bad_fork_cancel_cgroup | bad_fork_put_pidfd | bad_fork_free_pid | bad_fork_cleanup_thread
  | bad_fork_cleanup_io | bad_fork_cleanup_namespaces | bad_fork_cleanup_mm | bad_fork_cleanup_signal
  | bad_fork_cleanup_sighand | bad_fork_cleanup_fs | bad_fork_cleanup_files | bad_fork_cleanup_semundo
  | bad_fork_cleanup_security | bad_fork_cleanup_audit | bad_fork_cleanup_perf | bad_fork_sched_cancel_fork
  | bad_fork_cleanup_policy | bad_fork_cleanup_delayacct | bad_fork_cleanup_count | bad_fork_free | fork_out.
#[export] Instance label_eq_dec : EqDecision label.
Proof. solve_decision. Defined.

(** A statement [retval = f(); if (retval) goto l]: the error of [f], and [l]. *)
Definition stage : Type := F (option Z) * label.
Fixpoint run_stages (ss : list stage) : F (option (Z * label)) :=
  match ss with
  | [] => mret None
  | (m, l) :: ss' => e ← m; match e with Some e => mret (Some (e, l)) | None => run_stages ss' end
  end.
Definition failing (ret : F Z) : F (option Z) := r ← ret; mret (if r =? 0 then None else Some r).
(** A call to another subsystem that holds [r] for the task when it succeeds. *)
Definition acquire (p : tid) (r : resource) (ret : Z) : F (option Z) :=
  if ret =? 0 then hold p r;; mret None else mret (Some ret).
Definition check (bad : bool) (err : Z) : F (option Z) := mret (if bad then Some err else None).

Section copy.
Context (env : fork_env) (init_pid : bool) (args : kernel_clone_args) (cur p : tid).

Definition child_flags (t : task_struct) : Z :=
  let f := Z.land (t_flags t) (Z.lnot PF_KTHREAD) in
  let f := if ka_kthread args then Z.lor f PF_KTHREAD else f in
  let f := if ka_user_worker args then Z.lor f PF_USER_WORKER else f in
  if ka_io_thread args then Z.lor f PF_IO_WORKER else f.

Definition stage_creds : F (option Z) :=
  sched (upd_task p (λ t, t <| t_flags := child_flags t |>));;
  upd_new p (λ pr, pr
    <| pr_set_child_tid := if has (ka_flags args) CLONE_CHILD_SETTID then ka_child_tid args else 0 |>
    <| pr_clear_child_tid := if has (ka_flags args) CLONE_CHILD_CLEARTID then ka_child_tid args else 0 |>);;
  if env_creds env <? 0 then mret (Some (env_creds env)) else
  hold p res_creds;; hold p res_nproc;; mret None.

Definition stage_threads : F (option Z) :=
  sched (upd_task cur (λ t, t <| t_flags ::= λ f, Z.land f (Z.lnot PF_NPROC_EXCEEDED) |>));;
  many ← fget (λ s, ps_max_threads s <=? ps_nr_threads s);
  check many (- EAGAIN).

Definition stage_kthread : F (option Z) :=
  hold p res_delayacct;;
  sched (upd_task p (λ t, t <| t_flags ::= λ f,
    Z.lor (Z.land f (Z.lnot (flags [PF_SUPERPRIV; PF_WQ_WORKER; PF_IDLE; PF_NO_SETAFFINITY]))) PF_FORKNOEXEC |>));;
  upd_new p (λ pr, pr <| pr_vfork_done := None |> <| pr_io_context := false |>);;
  tc ← sched (task cur);
  sched (upd_task p (λ t, t <| default_timer_slack_ns := timer_slack_ns tc |>));;
  if ka_kthread args then (if env_kthread env then hold p res_kthread;; mret None else mret (Some (- EAGAIN)))
  else mret None.

Definition stage_io : F (option Z) :=
  if env_io env =? 0 then
    fwhen (env_io_context env) (upd_new p (λ pr, pr <| pr_io_context := true |>);; hold p res_io);; mret None
  else mret (Some (env_io env)).

Definition stage_pid : F (option Z) :=
  if init_pid then mret None else
  if env_pid env <? 0 then mret (Some (env_pid env)) else hold p res_pid;; mret None.

Definition stage_pidfd : F (option Z) :=
  if has (ka_flags args) CLONE_PIDFD then
    if env_pidfd env <? 0 then mret (Some (env_pidfd env)) else hold p res_pidfd;; mret None
  else mret None.
Definition stage_put_pidfd : F (option Z) :=
  check (has (ka_flags args) CLONE_PIDFD && negb (env_put_user env =? 0)) (env_put_user env).

(** The numbers of the process, before the control group may refuse it. *)
Definition stage_cgroup : F (option Z) :=
  pc ← process cur;
  upd_new p (λ pr,
    let nr := if init_pid then 0 else env_pid env in
    if has (ka_flags args) CLONE_THREAD
    then pr <| pr_pid := nr |> <| pr_group_leader := pr_group_leader pc |> <| pr_tgid := pr_tgid pc |>
    else pr <| pr_pid := nr |> <| pr_group_leader := p |> <| pr_tgid := nr |>);;
  acquire p res_cgroup (env_cgroup env).

Definition stage_family : F (option Z) :=
  pc ← process cur;
  leader ← process (pr_group_leader pc);
  upd_new p (λ pr,
    if has (ka_flags args) (Z.lor CLONE_PARENT CLONE_THREAD)
    then pr <| pr_real_parent := pr_real_parent pc |> <| pr_parent_exec_id := pr_parent_exec_id pc |>
            <| pr_exit_signal := if has (ka_flags args) CLONE_THREAD then -1 else pr_exit_signal leader |>
    else pr <| pr_real_parent := cur |> <| pr_parent_exec_id := pr_self_exec_id pc |>
            <| pr_exit_signal := ka_exit_signal args |>);;
  hold p res_core;;
  check (env_pidns_dying env) (- ENOMEM).

Definition fork_stages : list stage :=
  [(stage_creds, bad_fork_free);
   (check (env_overlimit env && negb (env_init_user env) && negb (env_capable env CAP_SYS_RESOURCE) &&
           negb (env_capable env CAP_SYS_ADMIN)) (- EAGAIN), bad_fork_cleanup_count);
   (stage_threads, bad_fork_cleanup_count);
   (stage_kthread, bad_fork_cleanup_delayacct);
   (acquire p res_mempolicy (env_mempolicy env), bad_fork_cleanup_delayacct);
   (failing (sched (sched_fork p)), bad_fork_cleanup_policy);
   (acquire p res_perf (env_perf env), bad_fork_sched_cancel_fork);
   (acquire p res_audit (env_audit env), bad_fork_cleanup_perf);
   (acquire p res_security (env_security env), bad_fork_cleanup_audit);
   (acquire p res_semundo (env_semundo env), bad_fork_cleanup_security);
   (failing (copy_files env (ka_flags args) p (ka_no_files args)), bad_fork_cleanup_semundo);
   (failing (copy_fs env (ka_flags args) p), bad_fork_cleanup_files);
   (failing (copy_sighand env (ka_flags args) p), bad_fork_cleanup_fs);
   (failing (copy_signal env (ka_flags args) p), bad_fork_cleanup_sighand);
   (failing (copy_mm env (ka_flags args) p), bad_fork_cleanup_signal);
   (acquire p res_namespaces (env_namespaces env), bad_fork_cleanup_mm);
   (stage_io, bad_fork_cleanup_namespaces);
   (acquire p res_thread (env_thread env), bad_fork_cleanup_io);
   (stage_pid, bad_fork_cleanup_thread);
   (stage_pidfd, bad_fork_free_pid);
   (stage_put_pidfd, bad_fork_put_pidfd);
   (stage_cgroup, bad_fork_put_pidfd);
   (failing (sched (sched_cgroup_fork p)), bad_fork_cancel_cgroup);
   (stage_family, bad_fork_core_free);
   (check (env_fatal_signal env) (- EINTR), bad_fork_core_free)].

(** The cleanups: a jump to a label runs everything from it on. *)
Definition cleanup_ladder : list (label * F unit) :=
  [(bad_fork_core_free, release p res_core);
   (bad_fork_cancel_cgroup, release p res_cgroup);
   (bad_fork_put_pidfd, fwhen (has (ka_flags args) CLONE_PIDFD) (release p res_pidfd));
   (bad_fork_free_pid, fwhen (negb init_pid) (release p res_pid));
   (bad_fork_cleanup_thread, release p res_thread);
   (bad_fork_cleanup_io, pr ← new_proc p; fwhen (pr_io_context pr) (release p res_io));
   (bad_fork_cleanup_namespaces, release p res_namespaces);
   (bad_fork_cleanup_mm, pr ← new_proc p; match pr_mm pr with Some mm => mmput mm | None => fskip end);
   (bad_fork_cleanup_signal,
    if has (ka_flags args) CLONE_THREAD then fskip
    else pr ← new_proc p; sig ← fderef (pr_signal pr); free_signal_struct sig);
   (bad_fork_cleanup_sighand, pr ← new_proc p; sighand ← fderef (pr_sighand pr); __cleanup_sighand sighand);
   (bad_fork_cleanup_fs, exit_fs p);
   (bad_fork_cleanup_files, exit_files p);
   (bad_fork_cleanup_semundo, release p res_semundo);
   (bad_fork_cleanup_security, release p res_security);
   (bad_fork_cleanup_audit, release p res_audit);
   (bad_fork_cleanup_perf, release p res_perf);
   (bad_fork_sched_cancel_fork, sched (sched_cancel_fork p));
   (bad_fork_cleanup_policy, release p res_mempolicy);
   (bad_fork_cleanup_delayacct, release p res_delayacct);
   (bad_fork_cleanup_count, release p res_nproc;; release p res_creds);
   (bad_fork_free, sched (upd_task p (λ t, t <| __state := TASK_DEAD |>));; free_task p);
   (fork_out, unhold cur res_delayed)].

Fixpoint goto (l : label) (ladder : list (label * F unit)) : F unit :=
  match ladder with
  | [] => fskip
  | (l', m) :: ladder' => if decide (l' = l) then foldr (λ lm k, lm.2;; k) fskip ladder else goto l ladder'
  end.

(** [thread_group_leader]. *)
Definition group_leader_of (pr : proc) : bool := 0 <=? pr_exit_signal pr.

(** The new task becomes visible. *)
Definition attach : F unit :=
  pr ← new_proc p;
  pc ← process cur;
  fwhen (negb (pr_pid pr =? 0))
    (fmodify (λ s, s <| ps_procs := <[p := pr]> (ps_procs s) |> <| ps_new := delete p (ps_new s) |>);;
     (if group_leader_of pr then
        sig ← fderef (pr_signal pr);
        fmodify (λ s, s <| ps_signal ::= alter (λ g,
          if env_child_reaper env then g <| sig_flags ::= λ f, Z.lor f SIGNAL_UNKILLABLE |> else g) sig |>
                        <| ps_processes ::= λ n, n + 1 |>)
      else
        sig ← fderef (pr_signal pc);
        fmodify (λ s, s <| ps_signal ::= alter (λ g,
          g <| sig_nr_threads ::= λ n, n + 1 |> <| sig_quick_threads ::= λ n, n + 1 |> <| sig_live ::= λ n, n + 1 |>
            <| sig_sigcnt ::= λ n, n + 1 |>) sig |>));;
     fmodify (λ s, s <| ps_nr_threads ::= λ n, n + 1 |>));;
  fmodify (λ s, s <| ps_total_forks ::= λ n, n + 1 |>);;
  unhold cur res_delayed.
End copy.

(** [inl]: the error.  [init_pid]: the pid of the first task is used. *)
Definition copy_process (env : fork_env) (init_pid : bool) (args : kernel_clone_args) : F (Z + tid) :=
  cur ← current_task;
  pc ← process cur;
  sig ← fderef (pr_signal pc);
  unkillable ← fget (λ s, match ps_signal s !! sig with Some g => has (sig_flags g) SIGNAL_UNKILLABLE | None => false end);
  if bad_clone_flags (ka_flags args) unkillable (env_same_pid_ns env) then mret (inl (- EINVAL)) else
  fwhen (negb (has (ka_flags args) CLONE_THREAD)) (hold cur res_delayed);;
  if env_sigpending env then unhold cur res_delayed;; mret (inl (- ERESTARTNOINTR)) else
  dup ← dup_task_struct env cur;
  match dup with
  | None => unhold cur res_delayed;; mret (inl (- ENOMEM))
  | Some p =>
      failed ← run_stages (fork_stages env init_pid args cur p);
      match failed with
      | Some (err, l) => goto l (cleanup_ladder init_pid args cur p);; mret (inl err)
      | None =>
          attach env cur p;;
          sched (sched_post_fork p);;
          sched (reset_hvf_params p);;
          mret (inr p)
      end
  end.

(** * Clone *)

Definition upd_process (p : tid) (f : proc → proc) : F unit :=
  pr ← process p; fmodify (λ s, s <| ps_procs := <[p := f pr]> (ps_procs s) |>).

(** A released memory map lets the parent of a vfork go on. *)
Definition complete_vfork_done (tsk : tid) : F unit :=
  pr ← process tsk;
  match pr_vfork_done pr with Some _ => upd_process tsk (λ pr, pr <| pr_vfork_done := None |>) | None => fskip end.
Definition mm_release (tsk : tid) : F unit :=
  upd_process tsk (λ pr, pr <| pr_clear_child_tid := 0 |>);;
  complete_vfork_done tsk.
Definition wait_for_vfork_done (child : tid) : F bool :=
  killed ← wait_for_vfork child;
  fwhen killed (upd_process child (λ pr, pr <| pr_vfork_done := None |>));;
  mret killed.

(** The reports to a tracer and the numbers written to user memory are not part of the
    state. *)
Definition kernel_clone (env : fork_env) (args : kernel_clone_args) : F Z :=
  let clone_flags := ka_flags args in
  if has clone_flags CLONE_PIDFD && has clone_flags CLONE_PARENT_SETTID && (ka_pidfd args =? ka_parent_tid args)
  then mret (- EINVAL) else
  r ← copy_process env false args;
  match r with
  | inl err => mret err
  | inr p =>
      cur ← current_task;
      fwhen (has clone_flags CLONE_VFORK) (upd_process p (λ pr, pr <| pr_vfork_done := Some cur |>));;
      sched (wake_up_new_task p);;
      fwhen (has clone_flags CLONE_VFORK) (wait_for_vfork_done p;; fskip);;
      mret (env_vnr env)
  end.

Definition no_args : kernel_clone_args :=
  {| ka_flags := 0; ka_pidfd := 0; ka_child_tid := 0; ka_parent_tid := 0; ka_exit_signal := 0; ka_stack := 0;
     ka_stack_size := 0; ka_tls := 0; ka_set_tid := []; ka_set_tid_size := 0; ka_cgroup := 0; ka_kthread := false;
     ka_io_thread := false; ka_user_worker := false; ka_no_files := false; ka_idle := false |}.
Definition lower_32_bits (n : Z) : Z := Z.land n 0xffffffff.
Definition thread_args (fl : Z) : kernel_clone_args :=
  no_args <| ka_flags := Z.land (flags [lower_32_bits fl; CLONE_VM; CLONE_UNTRACED]) (Z.lnot CSIGNAL) |>
          <| ka_exit_signal := Z.land (lower_32_bits fl) CSIGNAL |>.
Definition create_io_thread (env : fork_env) : F (Z + tid) :=
  let fl := flags [CLONE_FS; CLONE_FILES; CLONE_SIGHAND; CLONE_THREAD; CLONE_IO] in
  copy_process env false ((thread_args fl) <| ka_io_thread := true |> <| ka_user_worker := true |>).
Definition kernel_thread (env : fork_env) (fl : Z) : F Z := kernel_clone env ((thread_args fl) <| ka_kthread := true |>).
Definition user_mode_thread (env : fork_env) (fl : Z) : F Z := kernel_clone env (thread_args fl).
Definition sys_fork (env : fork_env) : F Z := kernel_clone env (no_args <| ka_exit_signal := SIGCHLD |>).
Definition sys_vfork (env : fork_env) : F Z :=
  kernel_clone env (no_args <| ka_flags := Z.lor CLONE_VFORK CLONE_VM |> <| ka_exit_signal := SIGCHLD |>).
Definition sys_clone (env : fork_env) (clone_flags newsp parent_tidptr child_tidptr tls : Z) : F Z :=
  kernel_clone env (no_args
    <| ka_flags := Z.land (lower_32_bits clone_flags) (Z.lnot CSIGNAL) |>
    <| ka_pidfd := parent_tidptr |> <| ka_child_tid := child_tidptr |> <| ka_parent_tid := parent_tidptr |>
    <| ka_exit_signal := Z.land (lower_32_bits clone_flags) CSIGNAL |> <| ka_stack := newsp |> <| ka_tls := tls |>).

(** * clone3 *)

Definition CLONE_ARGS_SIZE_VER0 := 64.
Definition CLONE_ARGS_SIZE_VER2 := 88.
Definition MAX_PID_NS_LEVEL := 32.
Definition _NSIG := 64.

(** [struct clone_args]: words of 64 bits. *)
Record clone_args := {
  ua_flags : Z; ua_pidfd : Z; ua_child_tid : Z; ua_parent_tid : Z; ua_exit_signal : Z; ua_stack : Z; ua_stack_size : Z;
  ua_tls : Z; ua_set_tid : Z; ua_set_tid_size : Z; ua_cgroup : Z
}.
Definition valid_signal (sig : Z) : bool := sig <=? _NSIG.

(** [uargs]: what [copy_struct_from_user] copies for the given size, or its error;
    [tids]: the array of pids, when it can be read. *)
Definition copy_clone_args_from_user (uargs : Z + clone_args) (tids : option (list Z)) (usize : Z) : Z + kernel_clone_args :=
  if PAGE_SIZE <? usize then inl (- E2BIG) else
  if usize <? CLONE_ARGS_SIZE_VER0 then inl (- EINVAL) else
  match uargs with
  | inl err => inl err
  | inr a =>
      if MAX_PID_NS_LEVEL <? ua_set_tid_size a then inl (- EINVAL) else
      if (ua_set_tid a =? 0) && (0 <? ua_set_tid_size a) then inl (- EINVAL) else
      if negb (ua_set_tid a =? 0) && (ua_set_tid_size a =? 0) then inl (- EINVAL) else
      if negb (Z.land (ua_exit_signal a) (Z.lnot CSIGNAL) =? 0) || negb (valid_signal (ua_exit_signal a)) then inl (- EINVAL) else
      if has (ua_flags a) CLONE_INTO_CGROUP && ((INT_MAX <? ua_cgroup a) || (usize <? CLONE_ARGS_SIZE_VER2)) then inl (- EINVAL) else
      let k := no_args <| ka_flags := ua_flags a |> <| ka_pidfd := ua_pidfd a |> <| ka_child_tid := ua_child_tid a |>
                       <| ka_parent_tid := ua_parent_tid a |> <| ka_exit_signal := ua_exit_signal a |>
                       <| ka_stack := ua_stack a |> <| ka_stack_size := ua_stack_size a |> <| ka_tls := ua_tls a |>
                       <| ka_set_tid_size := ua_set_tid_size a |> <| ka_cgroup := ua_cgroup a |> in
      if negb (ua_set_tid a =? 0) then
        match tids with Some l => inr (k <| ka_set_tid := l |>) | None => inl (- EFAULT) end
      else inr k
  end.

(** [access_ok] for the stack. *)
Context (access_ok : Z → Z → bool).
Definition clone3_stack_valid (k : kernel_clone_args) : option kernel_clone_args :=
  if ka_stack k =? 0 then (if 0 <? ka_stack_size k then None else Some k)
  else if ka_stack_size k =? 0 then None
  else if negb (access_ok (ka_stack k) (ka_stack_size k)) then None
  else Some (k <| ka_stack := u64 (ka_stack k + ka_stack_size k) |>).

Definition clone3_args_valid (k : kernel_clone_args) : option kernel_clone_args :=
  if negb (Z.land (ka_flags k) (Z.lnot (flags [CLONE_LEGACY_FLAGS; CLONE_CLEAR_SIGHAND; CLONE_INTO_CGROUP])) =? 0) then None else
  if has (ka_flags k) (Z.lor CLONE_DETACHED (Z.land CSIGNAL (Z.lnot CLONE_NEWTIME))) then None else
  if has_all (ka_flags k) (Z.lor CLONE_SIGHAND CLONE_CLEAR_SIGHAND) then None else
  if has (ka_flags k) (Z.lor CLONE_THREAD CLONE_PARENT) && negb (ka_exit_signal k =? 0) then None else
  clone3_stack_valid k.

Definition sys_clone3 (env : fork_env) (uargs : Z + clone_args) (tids : option (list Z)) (size : Z) : F Z :=
  match copy_clone_args_from_user uargs tids size with
  | inl err => mret err
  | inr k => match clone3_args_valid k with None => mret (- EINVAL) | Some k => kernel_clone env k end
  end.
End fork.
