(* ===== verification/ForkSched.v ===== *)
(** What the scheduler's part of a fork touches: [sched_fork], [sched_cgroup_fork],
    [sched_cancel_fork] and [sched_post_fork] end without an oops and change nothing but
    the new task. *)
From S2P Require Import Prelude Rbtree KState HvfValue HvfClass HvfSmp Policy Uclamp Core Schedule Load Setsched Wakeup.

(** Only the task [p] differs, and its flags do not. *)
Record klocal (p : tid) (k k' : kstate) : Prop := {
  kl_rqs : k_rqs k' = k_rqs k;
  kl_cpu : k_cpu k' = k_cpu k;
  kl_tasks q : q ≠ p → k_tasks k' !! q = k_tasks k !! q;
  kl_flags : t_flags <$> k_tasks k' !! p = t_flags <$> k_tasks k !! p;
}.
Definition prio_ok (t : task_struct) : Prop := MAX_RT_PRIO <= static_prio t < MAX_RT_PRIO + NICE_WIDTH.
(** [p] is a task that is not running, with a priority in range. *)
Definition kpre (p : tid) (k : kstate) : Prop :=
  ∃ r tc t, k_rqs k !! k_cpu k = Some r ∧ k_tasks k !! curr r = Some tc ∧ curr r ≠ p ∧ k_tasks k !! p = Some t ∧ prio_ok t.
Definition local_op {A} (p : tid) (m : M A) : Prop := ∀ k, kpre p k → wp m k (λ _ k', klocal p k k' ∧ kpre p k').

(** The interface [copy_process] is verified against. *)
Class SchedFork {OC : OtherClasses} {E : Ext} {UC : UclampConfig} {L : RbLib} {TC : TickConfig} {SM : SmpLib} {FL : ForkLib} : Prop := {
  fork_local p : local_op p (sched_fork p);
  cgroup_fork_local p : local_op p (sched_cgroup_fork p);
  cancel_fork_local p : local_op p (sched_cancel_fork p);
  post_fork_local p : local_op p (sched_post_fork p);
}.

Lemma klocal_refl p k : klocal p k k.
Proof. by split. Qed.
Lemma klocal_trans p k1 k2 k3 : klocal p k1 k2 → klocal p k2 k3 → klocal p k1 k3.
Proof. intros [] []. split; [congruence..| |congruence]. intros q Hq. rewrite kl_tasks1, kl_tasks0; done. Qed.

Lemma local_ret {A} p (a : A) : local_op p (mret a).
Proof. intros k Hk. apply wp_ret. by split; [apply klocal_refl|]. Qed.
Lemma local_bind {A B} p (m : M A) (f : A → M B) : local_op p m → (∀ a, local_op p (f a)) → local_op p (m ≫= f).
Proof.
  intros Hm Hf k Hk. apply wp_bind. eapply wp_mono; [by apply Hm|]. intros a k' [Hl Hk'].
  eapply wp_mono; [by apply Hf|]. intros b k'' [Hl' Hk'']. split; [by eapply klocal_trans|done].
Qed.
Lemma local_when p b (m : M unit) : local_op p m → local_op p (when b m).
Proof. destruct b; [done|]. intros _. apply local_ret. Qed.
Lemma local_get {A} p (f : kstate → A) : local_op p (get f).
Proof. intros k Hk. apply wp_get. by split; [apply klocal_refl|]. Qed.
Lemma local_upd p f :
  (∀ t, t_flags (f t) = t_flags t) → (∀ t, prio_ok t → prio_ok (f t)) → local_op p (upd_task p f).
Proof.
  intros Hf Hp k (r&tc&t&Hr&Htc&Hne&Ht&Hok). eapply wp_upd_task; [done|]. split.
  - split; cbn; [done|done|intros q Hq; by rewrite lookup_insert_ne|]. rewrite lookup_insert_eq, Ht. cbn. by rewrite Hf.
  - exists r, tc, (f t). cbn. rewrite lookup_insert_eq, lookup_insert_ne by done. split_and!; auto.
Qed.
(** What is read of the task is in range. *)
Lemma local_task {B} p (f : task_struct → M B) : (∀ t, prio_ok t → local_op p (f t)) → local_op p (task p ≫= f).
Proof.
  intros Hf k Hk. pose proof Hk as (r&tc&t&Hr&Htc&Hne&Ht&Hok). apply wp_bind. eapply wp_task; [done|]. by apply Hf.
Qed.
Lemma local_current {B} p (f : task_struct → M B) :
  (∀ t, local_op p (f t)) → local_op p (cur ← current; t ← task cur; f t).
Proof.
  intros Hf k Hk. pose proof Hk as (r&tc&t&Hr&Htc&Hne&Ht&Hok). apply wp_bind. eapply wp_current; [done|].
  apply wp_bind. eapply wp_task; [done|]. by apply Hf.
Qed.
Lemma local_clamps p ids f : (∀ id, local_op p (f id)) → local_op p (for_each_clamp_id ids f).
Proof. intros Hf. induction ids as [|id ids IH]; [apply local_ret|]. apply local_bind; auto. Qed.

(** A hook that leaves tasks and run queues alone. *)
Definition quiet_hook {A} (m : M A) : Prop :=
  ∀ k, wp m k (λ _ k', k_tasks k' = k_tasks k ∧ k_rqs k' = k_rqs k ∧ k_cpu k' = k_cpu k).
Lemma local_quiet {A} p (m : M A) : quiet_hook m → local_op p m.
Proof.
  intros Hm k (r&tc&t&Hr&Htc&Hne&Ht&Hok). eapply wp_mono; [apply Hm|]. intros a k' (Hkt&Hkr&Hkc). split.
  - split; [done|done|by intros; rewrite Hkt|by rewrite Hkt].
  - exists r, tc, t. by rewrite Hkt, Hkr, Hkc.
Qed.

Section local.
Context {OC : OtherClasses} {E : Ext} {UC : UclampConfig} {L : RbLib} {TC : TickConfig} {SM : SmpLib} {FL : ForkLib}.

(** The hooks of the other classes. *)
Record quiet_hooks : Prop := {
  qh_pre p : quiet_hook (scx_pre_fork p);
  qh_fork p : quiet_hook (scx_fork p);
  qh_cancel p : quiet_hook (scx_cancel_fork p);
  qh_post p : quiet_hook (scx_post_fork p);
  qh_task_fork cl f p : op_task_fork (other_class cl) = Some f → quiet_hook (f p);
}.

Lemma local_uclamp_fork p : local_op p (uclamp_fork p).
Proof.
  unfold uclamp_fork. apply local_bind; [apply local_clamps; intros []; apply local_upd; done|intros _].
  apply local_task. intros t _. destruct (sched_reset_on_fork t); [|apply local_ret].
  apply local_clamps. intros []; apply local_upd; done.
Qed.

Lemma local_table p (l : list Z) i : (0 <= i < Z.of_nat (length l)) → local_op p (table_entry l i).
Proof.
  intros Hi. unfold table_entry. destruct (Z.ltb_spec i 0); [lia|].
  destruct (lookup_lt_is_Some_2 l (Z.to_nat i)) as [w ->]; [lia|]. apply local_ret.
Qed.
Lemma local_weight p : local_op p (set_load_weight p false).
Proof.
  unfold set_load_weight. apply local_task. intros t Hok. unfold prio_ok, MAX_RT_PRIO, NICE_WIDTH in Hok.
  apply local_bind.
  - destruct (task_has_idle_policy t); [apply local_ret|].
    apply local_bind; [apply local_table; unfold MAX_RT_PRIO; cbn; lia|intros w].
    apply local_bind; [apply local_table; unfold MAX_RT_PRIO; cbn; lia|intros iw]. apply local_ret.
  - intros lw. case_match; apply local_upd; done.
Qed.

Lemma local_sched_fork p : quiet_hooks → local_op p (sched_fork p).
Proof.
  intros Hh. unfold sched_fork, __sched_fork. do 2 (apply local_bind; [by apply local_upd|intros _]).
  apply local_current. intros tc. apply local_bind; [by apply local_upd|intros _].
  apply local_bind; [apply local_uclamp_fork|intros _]. apply local_task. intros t _.
  apply local_bind; [apply local_when|intros _].
  - apply local_bind; [apply local_upd|intros _].
    + intros t'. by repeat case_match.
    + intros t' Ht'. unfold prio_ok, NICE_TO_PRIO, MAX_RT_PRIO, NICE_WIDTH, DEFAULT_PRIO in *. repeat case_match; cbn; done || lia.
    + apply local_bind; [by apply local_upd|intros _]. apply local_bind; [apply local_weight|intros _]. by apply local_upd.
  - apply local_task. intros t1 _. destruct (dl_prio (prio t1)); [apply local_ret|].
    apply local_bind; [apply local_quiet, Hh|intros _]. do 2 (apply local_bind; [by apply local_upd|intros _]). apply local_ret.
Qed.

Lemma local_ops {B} p (f : sched_class_ops → M B) : (∀ cl, local_op p (f (class_ops cl))) → local_op p (ops_of p ≫= f).
Proof.
  intros Hf k Hk. pose proof Hk as (r&tc&t&Hr&Htc&Hne&Ht&Hok). unfold ops_of. apply wp_bind, wp_bind. eapply wp_task; [done|].
  apply wp_ret. by apply Hf.
Qed.

Lemma local_cgroup_fork p : quiet_hooks → local_op p (sched_cgroup_fork p).
Proof.
  intros Hh. unfold sched_cgroup_fork, __set_task_cpu. apply local_bind; [apply local_get|intros c].
  apply local_bind; [by apply local_upd|intros _]. apply local_ops. intros cl.
  apply local_bind; [|intros _; apply local_quiet, Hh].
  destruct (op_task_fork (class_ops cl)) as [f|] eqn:Hf; [|apply local_ret].
  destruct cl; try (by eapply local_quiet, qh_task_fork). injection Hf as <-. unfold task_fork_hvf, clear_hvf_values.
  apply local_task. intros t _. apply local_when. by apply local_upd.
Qed.

Lemma local_post_fork p : quiet_hooks → local_op p (sched_post_fork p).
Proof.
  intros Hh. unfold sched_post_fork. apply local_bind; [|intros _; apply local_quiet, Hh].
  unfold uclamp_post_fork, uclamp_update_util_min_rt_default, __uclamp_update_util_min_rt_default.
  apply local_task. intros t _. destruct (rt_task t); [|apply local_ret]. apply local_task. intros t1 _.
  destruct (uc_user_defined _); [apply local_ret|]. apply local_bind; [apply local_get|intros g]. by apply local_upd.
Qed.

(** The scheduler provides the interface, whatever the classes do on their own data. *)
Lemma sched_fork_interface : quiet_hooks → SchedFork.
Proof.
  intros Hh. split; intros p; [by apply local_sched_fork|by apply local_cgroup_fork| |by apply local_post_fork].
  apply local_quiet, Hh.
Qed.
End local.
