(* ===== verification/ForkBuild.v ===== *)
(** The construction of a process: how far [copy_process] has come, what it holds at each
    point, and that each statement and each cleanup moves it by one step. *)
From S2P Require Import Prelude Rbtree KState HvfValue HvfClass HvfSmp Policy Uclamp Core Schedule Load Setsched Wakeup Affinity Fork ForkSched.

(** * Weakest preconditions of the monad *)

Definition fwp {A} (m : F A) (s : pstate) (Q : A → pstate → Prop) : Prop :=
  match m s with Ok (a, s') => Q a s' | Oops _ => False end.
Lemma fwp_ret {A} (a : A) s Q : Q a s → fwp (mret a) s Q.
Proof. done. Qed.
Lemma fwp_bind {A B} (m : F A) (k : A → F B) s Q : fwp m s (λ a s', fwp (k a) s' Q) → fwp (m ≫= k) s Q.
Proof. unfold fwp, mbind, F_bind. by destruct (m s) as [[? ?]|]. Qed.
Lemma fwp_mono {A} (m : F A) s Q Q' : fwp m s Q → (∀ a s', Q a s' → Q' a s') → fwp m s Q'.
Proof. unfold fwp. destruct (m s) as [[? ?]|]; auto. Qed.
Lemma fwp_get {A} (f : pstate → A) s Q : Q (f s) s → fwp (fget f) s Q.
Proof. done. Qed.
Lemma fwp_modify f s Q : Q tt (f s) → fwp (fmodify f) s Q.
Proof. done. Qed.
Lemma fwp_skip s Q : Q tt s → fwp fskip s Q.
Proof. done. Qed.
Lemma fwp_process p pr s Q : ps_procs s !! p = Some pr → Q pr s → fwp (process p) s Q.
Proof. unfold fwp, process. by intros ->. Qed.
Lemma fwp_new_proc p pr s Q : ps_new s !! p = Some pr → Q pr s → fwp (new_proc p) s Q.
Proof. unfold fwp, new_proc. by intros ->. Qed.
Lemma fwp_deref {A} (a : A) s Q : Q a s → fwp (fderef (Some a)) s Q.
Proof. done. Qed.
Lemma fwp_sched {A} (m : M A) s (Q : A → pstate → Prop) : wp m (ps_k s) (λ a k, Q a (s <| ps_k := k |>)) → fwp (sched m) s Q.
Proof. unfold wp, fwp, sched. by destruct (m (ps_k s)) as [[? ?]|]. Qed.
Lemma ps_k_id s : s <| ps_k := ps_k s |> = s.
Proof. by destruct s. Qed.
Lemma fwp_inv {A} (m : F A) s Q : fwp m s Q → ∃ a s', m s = Ok (a, s') ∧ Q a s'.
Proof. unfold fwp. destruct (m s) as [[a s']|]; [eauto|done]. Qed.

(** * References *)

(** The reference [new] of a child, shared with its parent or fresh, was added to the
    counts [m0]. *)
Definition taken (share : bool) (old new : option nat) (m0 m : gmap nat Z) : Prop :=
  match new with
  | None => m = m0
  | Some f => if share then old = Some f ∧ m = get_ref f m0 else m0 !! f = None ∧ m = <[f := 1]> m0
  end.
Definition drop_ref (o : option nat) (m : gmap nat Z) : gmap nat Z :=
  match o with Some f => put_ref f m | None => m end.
(** The parent's own reference is counted. *)
Definition counted (o : option nat) (m : gmap nat Z) : Prop := ∀ f, o = Some f → ∃ n, m !! f = Some n ∧ 1 <= n.

Lemma put_get f m n : m !! f = Some n → 1 <= n → put_ref f (get_ref f m) = m.
Proof.
  intros Hf Hn. unfold put_ref, get_ref. rewrite lookup_alter_eq, Hf. cbn.
  destruct (Z.eqb_spec (n + 1 - 1) 0); [lia|]. replace (n + 1 - 1) with n by lia.
  apply map_eq. intros i. destruct (decide (i = f)) as [->|]; [by rewrite lookup_insert_eq|].
  by rewrite lookup_insert_ne, lookup_alter_ne.
Qed.
Lemma put_new f m : m !! f = None → put_ref f (<[f := 1]> m) = m.
Proof. intros Hf. unfold put_ref. rewrite lookup_insert_eq. cbn. by rewrite delete_insert_id. Qed.
Lemma taken_drop share old new m0 m : counted old m0 → taken share old new m0 m → drop_ref new m = m0.
Proof.
  intros Hc. destruct new as [f|]; [|done]. cbn. destruct share.
  - intros [Ho ->]. destruct (Hc f Ho) as (n&Hn&Hge). by eapply put_get.
  - intros [Hf ->]. by apply put_new.
Qed.
Lemma new_ref_fresh m : m !! new_ref m = None.
Proof. apply (not_elem_of_dom (D:=gset nat)). unfold new_ref. apply is_fresh. Qed.

(** What the code of the file layer does. *)
Class ProcLaws (PL : ProcLib) : Prop := {
  exit_files_law p s pr : ps_new s !! p = Some pr →
    exit_files p s = Ok (tt, s <| ps_files := drop_ref (pr_files pr) (ps_files s) |>
                               <| ps_new := <[p := pr <| pr_files := None |>]> (ps_new s) |>);
  exit_fs_law p s pr : ps_new s !! p = Some pr →
    exit_fs p s = Ok (tt, s <| ps_fs := drop_ref (pr_fs pr) (ps_fs s) |>
                            <| ps_new := <[p := pr <| pr_fs := None |>]> (ps_new s) |>);
}.

(** * Levels *)

(** How many steps of the construction a label undoes. *)
Definition level (l : label) : nat :=
  match l with
  | fork_out => 0 | bad_fork_free => 1 | bad_fork_cleanup_count => 2 | bad_fork_cleanup_delayacct => 3
  | bad_fork_cleanup_policy => 4 | bad_fork_sched_cancel_fork => 5 | bad_fork_cleanup_perf => 6
  | bad_fork_cleanup_audit => 7 | bad_fork_cleanup_security => 8 | bad_fork_cleanup_semundo => 9
  | bad_fork_cleanup_files => 10 | bad_fork_cleanup_fs => 11 | bad_fork_cleanup_sighand => 12
  | bad_fork_cleanup_signal => 13 | bad_fork_cleanup_mm => 14 | bad_fork_cleanup_namespaces => 15
  | bad_fork_cleanup_io => 16 | bad_fork_cleanup_thread => 17 | bad_fork_free_pid => 18 | bad_fork_put_pidfd => 19
  | bad_fork_cancel_cgroup => 20 | bad_fork_core_free => 21
  end.
(** The level at which a resource is acquired; the structure of a kernel thread stays
    until the task is freed. *)
Definition res_level (r : resource) : nat :=
  match r with
  | res_delayed | res_new_creds | res_new_namespaces => 0 | res_kthread => 1 | res_creds => 2 | res_nproc => 2 | res_delayacct => 3 | res_mempolicy => 4
  | res_perf => 6 | res_audit => 7 | res_security => 8 | res_semundo => 9 | res_namespaces => 15 | res_io => 16
  | res_thread => 17 | res_pid => 18 | res_pidfd => 19 | res_cgroup => 20 | res_core => 21
  end.

Section build.
Context {L : RbLib} {TC : TickConfig} {SM : SmpLib} {UC : UclampConfig} {E : Ext} {OC : OtherClasses} {CL : CpuLib}
  {FL : ForkLib} {SL : SysLib} {AL : AffLib} {PL : ProcLib} {PW : ProcLaws PL} {SF : SchedFork}.
Context (env : fork_env) (init_pid : bool) (args : kernel_clone_args) (s0 : pstate) (cur p : tid) (pc : proc).

(** The kernel the fork started in, for the tasks other than the child. *)
Definition clear_exceeded (t : task_struct) : task_struct := t <| t_flags ::= λ f, Z.land f (Z.lnot PF_NPROC_EXCEEDED) |>.
Record krel (k : kstate) : Prop := {
  kr_rqs : k_rqs k = k_rqs (ps_k s0);
  kr_cpu : k_cpu k = k_cpu (ps_k s0);
  kr_tasks q : q ≠ p → q ≠ cur → k_tasks k !! q = k_tasks (ps_k s0) !! q;
  kr_cur : k_tasks k !! cur = k_tasks (ps_k s0) !! cur ∨ k_tasks k !! cur = clear_exceeded <$> k_tasks (ps_k s0) !! cur;
}.

(** The caller before the fork. *)
Record forkable : Prop := {
  fb_cur : ∃ r, k_rqs (ps_k s0) !! k_cpu (ps_k s0) = Some r ∧ curr r = cur;
  fb_proc : ps_procs s0 !! cur = Some pc;
  fb_leader : is_Some (ps_procs s0 !! pr_group_leader pc);
  fb_task : ∃ t, k_tasks (ps_k s0) !! cur = Some t ∧ prio_ok t;
  fb_files : counted (pr_files pc) (ps_files s0);
  fb_fs : is_Some (pr_fs pc) ∧ counted (pr_fs pc) (ps_fs s0);
  fb_sighand : is_Some (pr_sighand pc) ∧ counted (pr_sighand pc) (ps_sighand s0);
  fb_mm : counted (pr_mm pc) (ps_mm s0);
  fb_signal : ∃ sig, pr_signal pc = Some sig ∧ is_Some (ps_signal s0 !! sig);
  fb_held q r : (q, r) ∈ ps_held s0 → is_Some (k_tasks (ps_k s0) !! q);
  fb_delayed : (cur, res_delayed) ∉ ps_held s0;
}.

(** What may be held at a level; but for the structure of a kernel thread, whose allocation
    is not the last thing its statement does, it is held. *)
Definition may_hold (n : nat) (pr : proc) (q : tid) (r : resource) : Prop :=
  q = cur ∧ r = res_delayed ∨
  q = p ∧ (1 <= res_level r <= n)%nat ∧
    match r with
    | res_pid => init_pid = false | res_pidfd => has (ka_flags args) CLONE_PIDFD = true
    | res_io => pr_io_context pr = true | res_kthread => ka_kthread args = true | _ => True
    end.

Definition at_level (n k : nat) (taken untouched : Prop) : Prop := if (k <=? n)%nat then taken else untouched.

Record built (n : nat) (s : pstate) (pr : proc) : Prop := {
  b_new : ps_new s = <[p := pr]> (ps_new s0);
  b_procs : ps_procs s = ps_procs s0;
  b_counts : (ps_nr_threads s, ps_max_threads s, ps_total_forks s, ps_processes s, ps_in_exec s) =
             (ps_nr_threads s0, ps_max_threads s0, ps_total_forks s0, ps_processes s0, ps_in_exec s0);
  b_k : krel (ps_k s);
  b_pre : kpre p (ps_k s);
  b_flags : ∀ t, k_tasks (ps_k s) !! p = Some t → has (t_flags t) PF_KTHREAD = ka_kthread args;
  b_held : ps_held s0 ⊆ ps_held s;
  b_may q r : (q, r) ∈ ps_held s → (q, r) ∈ ps_held s0 ∨ may_hold n pr q r;
  b_must r : r ≠ res_kthread → may_hold n pr p r → (p, r) ∈ ps_held s;
  b_files : at_level n 10 (taken (has (ka_flags args) CLONE_FILES) (pr_files pc) (pr_files pr) (ps_files s0) (ps_files s))
              (ps_files s = ps_files s0);
  b_fs : at_level n 11 (taken (has (ka_flags args) CLONE_FS) (pr_fs pc) (pr_fs pr) (ps_fs s0) (ps_fs s)) (ps_fs s = ps_fs s0);
  b_sighand : at_level n 12 (is_Some (pr_sighand pr) ∧
                taken (has (ka_flags args) CLONE_SIGHAND) (pr_sighand pc) (pr_sighand pr) (ps_sighand s0) (ps_sighand s))
                (ps_sighand s = ps_sighand s0);
  b_signal : at_level n 13 (if has (ka_flags args) CLONE_THREAD then pr_signal pr = pr_signal pc ∧ ps_signal s = ps_signal s0
                else ∃ sig, pr_signal pr = Some sig ∧ ps_signal s0 !! sig = None ∧ ps_signal s = <[sig := fresh_signal]> (ps_signal s0))
                (ps_signal s = ps_signal s0);
  b_mm : at_level n 14 (taken (has (ka_flags args) CLONE_VM) (pr_mm pc) (pr_mm pr) (ps_mm s0) (ps_mm s)) (ps_mm s = ps_mm s0);
}.

(** Nothing is left of the child, and nothing else has changed. *)
Record restored (s : pstate) : Prop := {
  rs_new : ps_new s = ps_new s0;
  rs_procs : ps_procs s = ps_procs s0;
  rs_counts : (ps_nr_threads s, ps_max_threads s, ps_total_forks s, ps_processes s, ps_in_exec s) =
              (ps_nr_threads s0, ps_max_threads s0, ps_total_forks s0, ps_processes s0, ps_in_exec s0);
  rs_refs : (ps_files s, ps_fs s, ps_sighand s, ps_mm s) = (ps_files s0, ps_fs s0, ps_sighand s0, ps_mm s0);
  rs_signal : ps_signal s = ps_signal s0;
  rs_held : ps_held s = ps_held s0;
  rs_rqs : k_rqs (ps_k s) = k_rqs (ps_k s0);
  rs_tasks q : q ≠ cur → k_tasks (ps_k s) !! q = k_tasks (ps_k s0) !! q;
  rs_cur : k_tasks (ps_k s) !! cur = k_tasks (ps_k s0) !! cur ∨ k_tasks (ps_k s) !! cur = clear_exceeded <$> k_tasks (ps_k s0) !! cur;
}.

Context (Hfb : forkable) (Hnew : p ≠ cur) (Hfresh : k_tasks (ps_k s0) !! p = None) (Hnewp : ps_new s0 !! p = None).

(** ** Moving between states *)

Lemma not_held r : (p, r) ∉ ps_held s0.
Proof. intros Hr. apply (fb_held Hfb) in Hr. rewrite Hfresh in Hr. by destruct Hr. Qed.

Lemma may_hold_mono n m pr q r : (n <= m)%nat → may_hold n pr q r → may_hold m pr q r.
Proof. intros Hn [?|(?&?&?)]; [by left|right]. split_and!; [done|lia|lia|done]. Qed.

Lemma may_below n pr r : res_level r ≠ S n → may_hold (S n) pr p r → may_hold n pr p r.
Proof. intros Hl [?|(?&?&?)]; [by left|right]. split_and!; [done|lia|lia|done]. Qed.

(** A step that takes nothing counted: what it acquires is what the level asks for. *)
Lemma built_raise n s pr held' :
  n ∉ [9; 10; 11; 12; 13]%nat → built n s pr → ps_held s ⊆ held' →
  (∀ q r, (q, r) ∈ held' → (q, r) ∈ ps_held s ∨ may_hold (S n) pr q r) →
  (∀ r, res_level r = S n → r ≠ res_kthread → may_hold (S n) pr p r → (p, r) ∈ held') →
  built (S n) (s <| ps_held := held' |>) pr.
Proof.
  intros Hn [] Hsub Hmay Hmust.
  assert (∀ k (P Q : Prop), (10 <= k <= 14)%nat → at_level n k P Q → at_level (S n) k P Q) as Hlv.
  { intros k P Q Hk. unfold at_level. destruct (Nat.leb_spec k n), (Nat.leb_spec k (S n)); try done; [lia|].
    assert (k = S n) as -> by lia. exfalso. apply Hn. assert (n = 9 ∨ n = 10 ∨ n = 11 ∨ n = 12 ∨ n = 13)%nat by lia. set_solver. }
  split; try done; try (apply Hlv; [lia|done]); cbn.
  - set_solver.
  - intros q r [Hr|]%Hmay; [|by right]. destruct (b_may0 q r Hr); [by left|right]. eapply may_hold_mono; [|done]. lia.
  - intros r Hk Hr. destruct (decide (res_level r = S n)); [by apply Hmust|]. apply Hsub, b_must0; [done|]. by apply may_below.
Qed.
Lemma held_id s : s <| ps_held := ps_held s |> = s.
Proof. by destruct s. Qed.
(** A step that acquires nothing. *)
Lemma built_next n s pr :
  n ∉ [9; 10; 11; 12; 13]%nat → (∀ r, res_level r = S n → r ≠ res_kthread → ¬ may_hold (S n) pr p r) →
  built n s pr → built (S n) s pr.
Proof.
  intros Hn Hr Hb. rewrite <-(held_id s). apply built_raise; [done|done|done|by left|]. intros r Hl Hk Hm. by destruct (Hr r Hl Hk).
Qed.
(** A step that acquires one thing. *)
Lemma built_acquire n s pr r :
  n ∉ [9; 10; 11; 12; 13]%nat → (∀ r', res_level r' = S n → r' = r) → may_hold (S n) pr p r →
  built n s pr → built (S n) (s <| ps_held := {[(p, r)]} ∪ ps_held s |>) pr.
Proof.
  intros Hn Hr Hm Hb. apply built_raise; [done|done|set_solver| |].
  - intros q r' [[= -> ->]%elem_of_singleton|?]%elem_of_union; [by right|by left].
  - intros r' ->%Hr _ _. set_solver.
Qed.
Lemma built_hold n s pr q r :
  built n s pr → may_hold n pr q r → built n (s <| ps_held := {[(q, r)]} ∪ ps_held s |>) pr.
Proof.
  intros [] Hm. split; try done; cbn; [set_solver| |].
  - intros q' r' [[= -> ->]%elem_of_singleton|Hr]%elem_of_union; [by right|]. by apply b_may0.
  - intros r' Hk Hr. apply elem_of_union_r. by apply b_must0.
Qed.
(** The fields of the child that the cleanups use. *)
Definition same_refs (pr pr' : proc) : Prop :=
  (pr_files pr', pr_fs pr', pr_sighand pr', pr_signal pr', pr_mm pr') =
  (pr_files pr, pr_fs pr, pr_sighand pr, pr_signal pr, pr_mm pr).
Lemma built_new n s pr pr' :
  built n s pr → same_refs pr pr' → ((16 <= n)%nat → pr_io_context pr' = pr_io_context pr) →
  built n (s <| ps_new := <[p := pr']> (ps_new s) |>) pr'.
Proof.
  intros [] [= Hf Hfs Hsh Hsg Hmm] Hio. split; try done; cbn.
  - by rewrite b_new0, insert_insert_eq.
  - intros q r Hr. destruct (b_may0 q r Hr) as [?|[?|(->&Hl&Hc)]]; [by left|by right; left|right; right].
    split_and!; [done|lia|lia|]. destruct r; try done. cbn in Hl. by rewrite Hio by lia.
  - intros r Hk [[??]|(_&Hl&Hc)]; [done|]. apply b_must0; [done|]. right. split_and!; [done|lia|lia|].
    destruct r; try done. cbn in Hl. by rewrite <-Hio by lia.
  - by rewrite Hf.
  - by rewrite Hfs.
  - by rewrite Hsh.
  - by rewrite Hsg.
  - by rewrite Hmm.
Qed.
(** The scheduler works on the child. *)
Lemma built_local n s pr k :
  built n s pr → klocal p (ps_k s) k → kpre p k → built n (s <| ps_k := k |>) pr.
Proof.
  intros [] [Hrqs Hcpu Htasks Hflags] Hpre. split; try done; cbn.
  - destruct b_k0. split; [congruence|congruence|intros; by rewrite Htasks, kr_tasks0|]. by rewrite Htasks.
  - intros t Ht. rewrite Ht in Hflags. destruct (k_tasks (ps_k s) !! p) as [t'|] eqn:Ht'; [|done].
    injection Hflags as ->. by apply b_flags0.
Qed.

(** The flags of the child change, but not whether it is a kernel thread. *)
Lemma built_flags n s pr t f :
  built n s pr → k_tasks (ps_k s) !! p = Some t → has f PF_KTHREAD = ka_kthread args →
  built n (s <| ps_k ::= λ k, k <| k_tasks := <[p := t <| t_flags := f |>]> (k_tasks k) |> |>) pr.
Proof.
  intros [] Ht Hf. split; try done; cbn.
  - destruct b_k0. split; cbn; [done|done|intros; by rewrite lookup_insert_ne, kr_tasks0|by rewrite lookup_insert_ne].
  - destruct b_pre0 as (r&tc&t'&Hr&Htc&Hne&Ht'&Hok). exists r, tc, (t <| t_flags := f |>). simplify_eq.
    split_and!; try done; [cbn; by rewrite lookup_insert_ne|apply lookup_insert_eq].
  - intros t'. rewrite lookup_insert_eq. by intros [= <-].
Qed.

Lemma built_lookup n s pr : built n s pr → ps_new s !! p = Some pr.
Proof. intros []. by rewrite b_new0, lookup_insert_eq. Qed.
Lemma built_current n s pr : built n s pr → ∃ r, k_rqs (ps_k s) !! k_cpu (ps_k s) = Some r ∧ curr r = cur.
Proof. intros []. destruct b_k0, (fb_cur Hfb) as (r&?&?). exists r. by rewrite kr_rqs0, kr_cpu0. Qed.
Lemma built_proc n s pr : built n s pr → ps_procs s !! cur = Some pc.
Proof. intros []. rewrite b_procs0. apply Hfb. Qed.

Lemma fwp_current_proc n s pr Q : built n s pr → Q pc s → fwp current_proc s Q.
Proof.
  intros Hb HQ. destruct (built_current _ _ _ Hb) as (r&Hr&He). unfold current_proc, current_task.
  apply fwp_bind, fwp_sched. eapply wp_current; [done|]. rewrite ps_k_id, He. eapply fwp_process; [by eapply built_proc|done].
Qed.
Lemma fwp_upd_child s pr f Q :
  ps_new s !! p = Some pr → Q tt (s <| ps_new := <[p := f pr]> (ps_new s) |>) → fwp (upd_new p f) s Q.
Proof. intros Hp HQ. apply fwp_bind. eapply fwp_new_proc; [done|]. by apply fwp_modify. Qed.
Lemma fwp_upd_new n s pr f Q :
  built n s pr → Q tt (s <| ps_new := <[p := f pr]> (ps_new s) |>) → fwp (upd_new p f) s Q.
Proof. intros Hb. apply fwp_upd_child. by eapply built_lookup. Qed.
Lemma fwp_local {A} n s pr (m : M A) Q :
  built n s pr → local_op p m → (∀ a k, built n (s <| ps_k := k |>) pr → Q a (s <| ps_k := k |>)) → fwp (sched m) s Q.
Proof.
  intros Hb Hm HQ. apply fwp_sched. eapply wp_mono; [apply Hm, Hb|]. intros a k [Hl Hpre]. apply HQ. by apply built_local.
Qed.

Lemma fwp_current_task n s pr Q : built n s pr → (∀ tc, Q tc s) → fwp (sched (task cur)) s Q.
Proof.
  intros Hb HQ. destruct (b_pre _ _ _ Hb) as (r&tc&_&Hr&Htc&_), (built_current _ _ _ Hb) as (r'&Hr'&<-). simplify_eq.
  apply fwp_sched. eapply wp_task; [done|]. rewrite ps_k_id. apply HQ.
Qed.

(** ** Cleanups *)

Lemma at_level_down n k (P Q : Prop) : k ≠ S n → at_level (S n) k P Q → at_level n k P Q.
Proof. intros Hk. unfold at_level. destruct (Nat.leb_spec k (S n)), (Nat.leb_spec k n); done || lia. Qed.

(** The resources of the level are gone. *)
Lemma built_lower n s pr held' :
  built (S n) s pr → S n ∉ [10; 11; 12; 13; 14]%nat → ps_held s0 ⊆ held' → held' ⊆ ps_held s →
  (∀ r, res_level r = S n → (p, r) ∉ held') → (∀ r, res_level r ≠ S n → (p, r) ∈ ps_held s → (p, r) ∈ held') →
  built n (s <| ps_held := held' |>) pr.
Proof.
  intros [] Hn H1 H2 Hr Hk. split; try done; try (apply at_level_down; [set_solver|done]); cbn.
  - intros q r Hq. destruct (b_may0 q r (H2 _ Hq)) as [?|[?|(->&Hl&Hc)]]; [by left|by right; left|right; right].
    split_and!; try done; [lia|]. destruct (decide (res_level r = S n)) as [He|]; [by apply Hr in He|lia].
  - intros r Hkt Hm. apply Hk; [destruct Hm as [[??]|(_&?&_)]; [done|lia]|]. apply b_must0; [done|]. eapply may_hold_mono; [|done]. lia.
Qed.
Lemma built_unhold n s pr r :
  built (S n) s pr → S n ∉ [10; 11; 12; 13; 14]%nat → res_level r = S n → (∀ r', res_level r' = S n → r' = r) →
  built n (s <| ps_held := ps_held s ∖ {[(p, r)]} |>) pr.
Proof.
  intros Hb Hn Hl Hr. apply built_lower; [done|done| |set_solver| |].
  - pose proof (not_held r). pose proof (b_held _ _ _ Hb). set_solver.
  - intros r' ->%Hr. set_solver.
  - intros r' Hne Hin. apply elem_of_difference. split; [done|]. intros [= ->]%elem_of_singleton. done.
Qed.
(** Nothing was acquired at the level. *)
Lemma built_skip n s pr :
  built (S n) s pr → S n ∉ [10; 11; 12; 13; 14]%nat →
  (∀ r, res_level r = S n → ¬ may_hold (S n) pr p r) → built n s pr.
Proof.
  intros Hb Hn Hr. rewrite <-(held_id s). apply built_lower; [done|done|apply Hb|done| |done].
  intros r Hl Hin. destruct (b_may _ _ _ Hb p r Hin) as [Hh|Hh]; [by apply not_held in Hh|by apply (Hr r)].
Qed.

(** One entry of the ladder. *)
Definition lowers (n : nat) (m : F unit) : Prop := ∀ s pr, built (S n) s pr → fwp m s (λ _ s', ∃ pr', built n s' pr').

Lemma fwp_release q r s Q :
  (q, r) ∈ ps_held s → Q tt (s <| ps_held := ps_held s ∖ {[(q, r)]} |>) → fwp (release q r) s Q.
Proof. intros Hr HQ. unfold fwp, release. by rewrite decide_True. Qed.
Lemma release_lowers n r s pr :
  S n ∉ [10; 11; 12; 13; 14]%nat → res_level r = S n → (∀ r', res_level r' = S n → r' = r) → r ≠ res_kthread →
  may_hold (S n) pr p r → built (S n) s pr → fwp (release p r) s (λ _ s', ∃ pr', built n s' pr').
Proof.
  intros Hn Hl Hr Hk Hm Hb. apply fwp_release; [by eapply b_must|]. exists pr. by apply built_unhold.
Qed.
Lemma may_own n pr r :
  res_level r = n → (1 <= n)%nat → match r with res_pid | res_pidfd | res_io | res_kthread => False | _ => True end → may_hold n pr p r.
Proof. intros Hl Hn Hr. right. split_and!; [done|lia|lia|]. by destruct r. Qed.
Lemma lowers_release n r :
  S n ∉ [10; 11; 12; 13; 14]%nat → res_level r = S n → (∀ r', res_level r' = S n → r' = r) →
  match r with res_pid | res_pidfd | res_io | res_kthread => False | _ => True end → lowers n (release p r).
Proof. intros Hn Hl Hr Hc s pr Hb. eapply release_lowers; [done..|by destruct r|by apply may_own; [|lia|]|done]. Qed.
Lemma lowers_when n r b :
  S n ∉ [10; 11; 12; 13; 14]%nat → res_level r = S n → (∀ r', res_level r' = S n → r' = r) → r ≠ res_kthread →
  (∀ pr, may_hold (S n) pr p r ↔ b = true) → lowers n (fwhen b (release p r)).
Proof.
  intros Hn Hl Hr Hk Hb s pr Hs. destruct b; cbn [fwhen].
  - eapply release_lowers; [done..|by apply Hb|done].
  - apply fwp_skip. exists pr. apply built_skip; [done|done|]. intros r' ->%Hr Hm. by apply Hb in Hm.
Qed.
Lemma lowers_io : lowers 15 (pr ← new_proc p; fwhen (pr_io_context pr) (release p res_io)).
Proof.
  intros s pr Hs. apply fwp_bind. eapply fwp_new_proc; [by eapply built_lookup|].
  destruct (pr_io_context pr) eqn:Hio; cbn [fwhen].
  - eapply release_lowers; [set_solver|done|by intros []|done| |done]. right. cbn. split_and!; [done|lia|lia|done].
  - apply fwp_skip. exists pr. apply built_skip; [done|set_solver|]. intros r Hr Hm. destruct r; try done.
    destruct Hm as [[??]|(_&_&Hm)]; [done|]. congruence.
Qed.

(** The levels of the counted structures acquire no other resource. *)
Lemma may_counted n pr pr' q r :
  S n ∈ [10; 11; 12; 13; 14]%nat → pr_io_context pr' = pr_io_context pr → may_hold (S n) pr q r → may_hold n pr' q r.
Proof.
  intros Hn Hio [?|(->&Hl&Hc)]; [by left|right]. unfold may_hold. rewrite Hio. split_and!; try done; [lia|].
  assert (res_level r ≠ S n); [|lia]. intros He. rewrite <-He in Hn. clear -Hn. destruct r; cbn in Hn; set_solver.
Qed.
Lemma may_uncounted n pr pr' r :
  pr_io_context pr' = pr_io_context pr → may_hold n pr' p r → may_hold (S n) pr p r.
Proof. intros Hio [?|(?&?&Hc)]; [by left|right]. rewrite Hio in Hc. split_and!; [done|lia|lia|done]. Qed.
Ltac lower_counted Hs :=
  split; cbn; try apply Hs;
  try first
    [ done
    | rewrite (b_new _ _ _ Hs); by rewrite ?insert_insert_eq
    | let q := fresh in let r := fresh in let Hq := fresh in intros q r Hq;
      destruct (b_may _ _ _ Hs q r Hq); [by left|right; eapply may_counted; [|done|done]; set_solver]
    | let r := fresh in let Hk := fresh in let Hm := fresh in intros r Hk Hm;
      apply (b_must _ _ _ Hs r Hk); eapply may_uncounted; [|exact Hm]; done
    | apply at_level_down; [done|apply Hs] ].

Lemma lowers_mm : lowers 13 (pr ← new_proc p; match pr_mm pr with Some mm => mmput mm | None => fskip end).
Proof.
  intros s pr Hs. apply fwp_bind. eapply fwp_new_proc; [by eapply built_lookup|].
  pose proof (taken_drop _ _ _ _ _ (fb_mm Hfb) (b_mm _ _ _ Hs)) as Hd.
  destruct (pr_mm pr) as [mm|]; cbn in Hd; (exists pr; lower_counted Hs).
Qed.
Lemma lowers_signal :
  lowers 12 (if has (ka_flags args) CLONE_THREAD then fskip
             else pr ← new_proc p; sig ← fderef (pr_signal pr); free_signal_struct sig).
Proof.
  intros s pr Hs. pose proof (b_signal _ _ _ Hs) as Hsig. cbn in Hsig. destruct (has (ka_flags args) CLONE_THREAD) eqn:Hth.
  - destruct Hsig as [_ Hsig]. exists pr. lower_counted Hs.
  - destruct Hsig as (sig&Hsg&Hf&Hsig). apply fwp_bind. eapply fwp_new_proc; [by eapply built_lookup|]. rewrite Hsg.
    apply fwp_bind, fwp_deref, fwp_modify. exists pr. lower_counted Hs. unfold at_level. cbn. by rewrite Hsig, delete_insert_id.
Qed.
Lemma lowers_sighand : lowers 11 (pr ← new_proc p; sighand ← fderef (pr_sighand pr); __cleanup_sighand sighand).
Proof.
  intros s pr Hs. pose proof (b_sighand _ _ _ Hs) as [[sh Hsh] Ht]. apply fwp_bind. eapply fwp_new_proc; [by eapply built_lookup|].
  pose proof (taken_drop _ _ _ _ _ (proj2 (fb_sighand Hfb)) Ht) as Hd. rewrite Hsh in Hd |- *.
  apply fwp_bind, fwp_deref, fwp_modify. exists pr. lower_counted Hs.
Qed.
Lemma lowers_fs : lowers 10 (exit_fs p).
Proof.
  intros s pr Hs. pose proof (taken_drop _ _ _ _ _ (proj2 (fb_fs Hfb)) (b_fs _ _ _ Hs)) as Hd.
  unfold fwp. erewrite exit_fs_law by by eapply built_lookup. exists (pr <| pr_fs := None |>). lower_counted Hs.
Qed.
Lemma lowers_files : lowers 9 (exit_files p).
Proof.
  intros s pr Hs. pose proof (taken_drop _ _ _ _ _ (fb_files Hfb) (b_files _ _ _ Hs)) as Hd.
  unfold fwp. erewrite exit_files_law by by eapply built_lookup. exists (pr <| pr_files := None |>). lower_counted Hs.
Qed.

(** The child is freed; only the delayed signals are still collected. *)
Definition freed (s : pstate) : Prop :=
  restored (s <| ps_held := ps_held s0 |>) ∧ ps_held s0 ⊆ ps_held s ∧ ps_held s ⊆ {[(cur, res_delayed)]} ∪ ps_held s0.

Lemma freed_restored s : freed s → fwp (unhold cur res_delayed) s (λ _ s', restored s').
Proof.
  intros ([]&H1&H2). apply fwp_modify. split; try done. cbn. pose proof (fb_delayed Hfb). set_solver.
Qed.

Lemma lowers_free s pr :
  built 1 s pr → fwp (sched (upd_task p (λ t, t <| __state := TASK_DEAD |>));; free_task p) s (λ _ s', freed s').
Proof.
  intros Hs. apply fwp_bind. eapply fwp_local; [done|by apply local_upd|]. intros [] k Hb. cbn beta.
  set (s1 := s <| ps_k := k |>) in *. clearbody s1. clear s k Hs. destruct (b_pre _ _ _ Hb) as (r&tc&t&_&_&_&Ht&_).
  unfold free_task. apply fwp_bind, fwp_sched. eapply wp_task; [done|]. rewrite ps_k_id.
  pose proof (b_flags _ _ _ Hb t Ht) as Hfl.
  assert (∀ held', ps_held s0 ⊆ held' → held' ⊆ ps_held s1 → (p, res_kthread) ∉ held' →
    freed (s1 <| ps_held := held' |> <| ps_new := delete p (ps_new s1) |>
              <| ps_k ::= λ k, k <| k_tasks := delete p (k_tasks k) |> |>)) as Hfree.
  { intros held' H1 H2 H3. destruct Hb, b_k0. split_and!; [split|done|]; cbn; try done.
    - by rewrite b_new0, delete_insert_id.
    - unfold at_level in *. cbn in *. congruence.
    - intros q Hq. destruct (decide (q = p)) as [->|]; [by rewrite lookup_delete_eq|]. rewrite lookup_delete_ne by done. by apply kr_tasks0.
    - by rewrite lookup_delete_ne by done.
    - intros [q r'] Hx. destruct (b_may0 q r' (H2 _ Hx)) as [?|[[-> ->]|(->&Hl&_)]]; [set_solver|set_solver|].
      destruct r'; cbn in Hl; try lia. done. }
  rewrite Hfl. destruct (ka_kthread args) eqn:Hkt; cbn [fwhen].
  - apply fwp_bind, fwp_modify, fwp_modify. apply (Hfree (ps_held s1 ∖ {[(p, res_kthread)]})); [|set_solver|set_solver].
    pose proof (not_held res_kthread). pose proof (b_held _ _ _ Hb). set_solver.
  - apply fwp_bind, fwp_skip, fwp_modify. specialize (Hfree (ps_held s1)). rewrite held_id in Hfree.
    apply Hfree; [apply Hb|done|]. intros Hin. destruct (b_may _ _ _ Hb _ _ Hin) as [Hh|[[??]|(_&_&Hk)]]; [by apply not_held in Hh|done|congruence].
Qed.

Definition run_all (ladder : list (label * F unit)) : F unit := foldr (λ lm k, lm.2;; k) fskip ladder.

(** Each entry lowers the level by one. *)
Lemma ladder_entry n : (1 <= n <= 20)%nat →
  ∃ lm, cleanup_ladder init_pid args cur p !! (20 - n)%nat = Some lm ∧ lowers n lm.2.
Proof.
  intros Hn. destruct n as [|[|[|[|[|[|[|[|[|[|[|[|[|[|[|[|[|[|[|[|[|n]]]]]]]]]]]]]]]]]]]]]; try lia;
    (eexists; split; [reflexivity|]; cbn [snd]).
  - intros s pr Hb. assert (∀ r, res_level r = 2%nat → (p, r) ∈ ps_held s) as Hm.
    { intros r Hr. apply (b_must _ _ _ Hb); [by intros ->|]. apply may_hold_mono with 2%nat; [lia|]. by apply may_own; [|lia|destruct r]. }
    apply fwp_bind, fwp_release; [by apply Hm|]. apply fwp_release; [cbn; pose proof (Hm res_creds eq_refl); set_solver|]. exists pr. cbn.
    change (built 1 (s <| ps_held := ps_held s ∖ {[(p, res_nproc)]} ∖ {[(p, res_creds)]} |>) pr).
    apply built_lower; [done|set_solver| |set_solver|by intros []; set_solver|intros []; set_solver].
    pose proof (not_held res_nproc). pose proof (not_held res_creds). pose proof (b_held _ _ _ Hb). set_solver.
  - apply lowers_release; [set_solver|done|by intros []|done].
  - apply lowers_release; [set_solver|done|by intros []|done].
  - intros s pr Hb. eapply fwp_local; [done|apply cancel_fork_local|]. intros [] k Hk. exists pr.
    apply built_skip; [done|set_solver|by intros []].
  - apply lowers_release; [set_solver|done|by intros []|done].
  - apply lowers_release; [set_solver|done|by intros []|done].
  - apply lowers_release; [set_solver|done|by intros []|done].
  - apply lowers_release; [set_solver|done|by intros []|done].
  - apply lowers_files.
  - apply lowers_fs.
  - apply lowers_sighand.
  - apply lowers_signal.
  - apply lowers_mm.
  - apply lowers_release; [set_solver|done|by intros []|done].
  - apply lowers_io.
  - apply lowers_release; [set_solver|done|by intros []|done].
  - apply lowers_when; [set_solver|done|by intros []|done|]. intros pr. rewrite negb_true_iff. split.
    + by intros [[??]|(_&_&Hc)].
    + intros Hc. right. cbn. split_and!; [done|lia|lia|done].
  - apply lowers_when; [set_solver|done|by intros []|done|]. intros pr. split.
    + by intros [[??]|(_&_&Hc)].
    + intros Hc. right. cbn. split_and!; [done|lia|lia|done].
  - apply lowers_release; [set_solver|done|by intros []|done].
  - apply lowers_release; [set_solver|done|by intros []|done].
Qed.

(** The ladder, entered at a level, leaves nothing. *)
Lemma ladder_restores n s pr :
  (1 <= n <= 21)%nat → built n s pr →
  fwp (run_all (drop (21 - n) (cleanup_ladder init_pid args cur p))) s (λ _ s', restored s').
Proof.
  revert s pr. induction n as [|n IH]; intros s pr Hn Hb; [lia|]. destruct (decide (n = 0%nat)) as [->|Hn0].
  - change (fwp ((sched (upd_task p (λ t, t <| __state := TASK_DEAD |>));; free_task p);;
      (unhold cur res_delayed;; fskip)) s (λ _ s', restored s')).
    apply fwp_bind. eapply fwp_mono; [by eapply lowers_free|]. intros [] s' Hf. apply fwp_bind.
    eapply fwp_mono; [by apply freed_restored|]. intros [] s'' Hr. by apply fwp_skip.
  - destruct (ladder_entry n ltac:(lia)) as (lm&Hlm&Hlow). replace (21 - S n)%nat with (20 - n)%nat by lia.
    rewrite (drop_S _ lm) by done. apply fwp_bind. eapply fwp_mono; [by eapply Hlow|]. intros [] s' [pr' Hb'].
    replace (S (20 - n)) with (21 - n)%nat by lia. eapply IH; [lia|done].
Qed.

Lemma goto_level l : goto l (cleanup_ladder init_pid args cur p) = run_all (drop (21 - level l) (cleanup_ladder init_pid args cur p)).
Proof. by destruct l. Qed.

(** ** Statements *)

(** The numbers and the parents a child gets. *)
Definition new_nr : Z := if init_pid then 0 else env_pid env.
Definition ids (pr : proc) : Prop :=
  pr_pid pr = new_nr ∧
  if has (ka_flags args) CLONE_THREAD then pr_tgid pr = pr_tgid pc ∧ pr_group_leader pr = pr_group_leader pc
  else pr_tgid pr = new_nr ∧ pr_group_leader pr = p.
Definition family (pr : proc) : Prop :=
  if has (ka_flags args) CLONE_THREAD then pr_exit_signal pr = -1 ∧ pr_real_parent pr = pr_real_parent pc
  else if has (ka_flags args) CLONE_PARENT then
    (∃ l, ps_procs s0 !! pr_group_leader pc = Some l ∧ pr_exit_signal pr = pr_exit_signal l) ∧ pr_real_parent pr = pr_real_parent pc
  else pr_exit_signal pr = ka_exit_signal args ∧ pr_real_parent pr = cur.

(** What the next statements rely on: the references that are not yet taken are those of
    the parent. *)
Record ready (n : nat) (s : pstate) (pr : proc) : Prop := {
  rd_built : built n s pr;
  rd_files : (n < 10)%nat → pr_files pr = pr_files pc;
  rd_fs : (n < 11)%nat → pr_fs pr = pr_fs pc;
  rd_sighand : (n < 12)%nat → pr_sighand pr = pr_sighand pc;
  rd_signal : (n < 13)%nat → pr_signal pr = pr_signal pc;
  rd_files_kept : (10 <= n)%nat → pr_files pr = None → pr_files pc = None ∨ ka_no_files args = true;
  rd_fs_kept : (11 <= n)%nat → is_Some (pr_fs pr);
  rd_mm_kept : (14 <= n)%nat → pr_mm pr = None → pr_mm pc = None;
  rd_io : (3 <= n < 16)%nat → pr_io_context pr = false;
  rd_ids : (20 <= n)%nat → ids pr;
  rd_family : (21 <= n)%nat → family pr;
}.

Definition advances (n : nat) (st : stage) (n' : nat) : Prop := ∀ s pr, ready n s pr →
  fwp st.1 s (λ e s', match e with Some e => e ≠ 0 ∧ ∃ pr', built (level st.2) s' pr' | None => ∃ pr', ready n' s' pr' end).

(** A step that leaves the references of the child alone. *)
Lemma ready_next n s s' pr : n ∉ [2; 9; 10; 11; 12; 13; 15; 19; 20]%nat → ready n s pr → built (S n) s' pr → ready (S n) s' pr.
Proof.
  intros Hn [] Hb. assert (n ≠ 2 ∧ n ≠ 9 ∧ n ≠ 10 ∧ n ≠ 11 ∧ n ≠ 12 ∧ n ≠ 13 ∧ n ≠ 19 ∧ n ≠ 20)%nat by set_solver.
  split; [exact Hb|..]; intros; eauto with lia.
Qed.
(** A step after which the child has no I/O context, or one of its own. *)
Lemma ready_step n s s' pr pr' :
  n ∈ [2; 15]%nat → ready n s pr → built (S n) s' pr' → same_refs pr pr' → (n = 2%nat → pr_io_context pr' = false) →
  ready (S n) s' pr'.
Proof.
  intros Hn [] Hb [= Hf Hfs Hsh Hsg Hmm] Hio. assert (n = 2 ∨ n = 15)%nat by set_solver.
  split; [exact Hb|..]; rewrite ?Hf, ?Hfs, ?Hsh, ?Hsg, ?Hmm; intros; first [lia | eauto with lia].
Qed.
Lemma ready_state n s s' pr : ready n s pr → built n s' pr → ready n s' pr.
Proof. intros [] Hb. by split. Qed.

Lemma advances_check n bad err l : err ≠ 0 → level l = n → advances n (check bad err, l) n.
Proof. intros He Hl s pr Hs. apply fwp_ret. destruct bad; [|by exists pr]. split; [done|]. exists pr. cbn. rewrite Hl. apply Hs. Qed.

Lemma advances_acquire n r ret l :
  n ∉ [2; 9; 10; 11; 12; 13; 15; 19; 20]%nat → res_level r = S n → (∀ r', res_level r' = S n → r' = r) → match r with res_pid | res_pidfd | res_io | res_kthread => False | _ => True end →
  level l = n → advances n (acquire p r ret, l) (S n).
Proof.
  intros Hn Hr Hu Hc Hl s pr Hs. unfold acquire. cbn. destruct (Z.eqb_spec ret 0) as [->|Hne].
  - apply fwp_bind, fwp_modify, fwp_ret. exists pr. eapply ready_next; [done|done|].
    apply built_acquire; [set_solver|done|by apply may_own; [|lia|]|apply Hs].
  - apply fwp_ret. split; [done|]. exists pr. rewrite Hl. apply Hs.
Qed.

Lemma advances_failing n (m : F Z) l n' :
  (∀ s pr, ready n s pr → fwp m s (λ r s', if r =? 0 then ∃ pr', ready n' s' pr' else ∃ pr', built (level l) s' pr')) →
  advances n (failing m, l) n'.
Proof.
  intros Hm s pr Hs. apply fwp_bind. eapply fwp_mono; [by eapply Hm|]. intros r s' Hr. cbn beta in Hr. apply fwp_ret.
  destruct (Z.eqb_spec r 0); [done|]. by split.
Qed.

Lemma advances_local n (m : M Z) l n' :
  local_op p m → level l = n → n' = S n ∧ n ∉ [2; 9; 10; 11; 12; 13; 15; 19; 20]%nat ∧ (∀ r, res_level r ≠ S n) ∨ n' = n → advances n (failing (sched m), l) n'.
Proof.
  intros Hm Hl Hn. apply advances_failing. intros s pr Hs. eapply fwp_local; [apply Hs|done|]. intros r k Hb.
  destruct (r =? 0); [|exists pr; by rewrite Hl]. exists pr. destruct Hn as [(->&Hn&Hno)| ->].
  - eapply ready_next; [done|done|]. apply built_next; [set_solver|intros ??; by destruct (Hno r0)|done].
  - by eapply ready_state.
Qed.

Lemma clear_twice t : clear_exceeded (clear_exceeded t) = clear_exceeded t.
Proof.
  destruct t. unfold clear_exceeded, upd. cbn -[Z.land Z.lnot].
  by rewrite <-Z.land_assoc, Z.land_diag.
Qed.

(** The flag of kernel threads is a bit. *)
Lemma has_kthread f : has f PF_KTHREAD = Z.testbit f 21.
Proof.
  unfold has. destruct (Z.testbit f 21) eqn:Hb.
  - destruct (Z.eqb_spec (Z.land f PF_KTHREAD) 0) as [He|]; [|done]. apply (f_equal (λ z, Z.testbit z 21)) in He.
    by rewrite Z.land_spec, Hb in He.
  - replace (Z.land f PF_KTHREAD) with 0; [done|]. symmetry. apply Z.bits_inj'. intros n Hn. rewrite Z.land_spec, Z.bits_0.
    change PF_KTHREAD with (2 ^ 21). rewrite Z.pow2_bits_eqb by done. destruct (Z.eqb_spec 21 n) as [<-|]; [by rewrite Hb|apply andb_false_r].
Qed.

Lemma advances_threads : advances 2 (stage_threads cur, bad_fork_cleanup_count) 2.
Proof.
  intros s pr Hs. pose proof (rd_built _ _ _ Hs) as Hb. pose proof Hb as []. cbn [fst].
  destruct (fb_task Hfb) as (t0&Ht0&_). destruct b_k0. destruct b_pre0 as (r&tc&t&Hr&Htc&Hne&Ht&Hok).
  assert (curr r = cur) as Hcr by (destruct (built_current _ _ _ Hb) as (r'&Hr'&<-); congruence).
  apply fwp_bind, fwp_sched. eapply wp_upd_task; [by rewrite <-Hcr|]. apply fwp_bind, fwp_get.
  refine (advances_check 2 _ (- EAGAIN) bad_fork_cleanup_count _ eq_refl _ pr _); [done|].
  eapply ready_state; [done|]. split; try done; cbn.
  - split; cbn; [done|done|intros q Hp Hq; rewrite lookup_insert_ne by done; by apply kr_tasks0|].
    rewrite lookup_insert_eq. right. rewrite Hcr in Htc. destruct kr_cur0 as [Hk|Hk]; rewrite Htc, Ht0 in Hk; injection Hk as ->.
    + by rewrite Ht0.
    + rewrite Ht0. exact (f_equal Some (clear_twice t0)).
  - exists r, (clear_exceeded tc), t. cbn. split_and!; try done.
    + rewrite Hcr. apply lookup_insert_eq.
    + by rewrite lookup_insert_ne.
  - intros t'. rewrite lookup_insert_ne by done. apply b_flags0.
Qed.

Lemma advances_kthread : advances 2 (stage_kthread env args cur p, bad_fork_cleanup_delayacct) 3.
Proof.
  intros s pr Hs. cbn [fst snd level]. unfold stage_kthread. apply fwp_bind, fwp_modify.
  assert (built 3 (s <| ps_held := {[(p, res_delayacct)]} ∪ ps_held s |>) pr) as Hb
    by (apply built_acquire; [set_solver|by intros []|by apply may_own; [|lia|]|apply Hs]).
  set (s1 := s <| ps_held := _ |>) in *. clearbody s1. destruct (b_pre _ _ _ Hb) as (_&_&t&_&_&_&Ht&_).
  assert (∀ s2, built 3 s2 pr →
    ready 3 (s2 <| ps_new := <[p := pr <| pr_vfork_done := None |> <| pr_io_context := false |>]> (ps_new s2) |>)
      (pr <| pr_vfork_done := None |> <| pr_io_context := false |>)) as Hgo.
  { intros s2 Hb2. eapply (ready_step 2); [set_solver|exact Hs| |done|done]. apply built_new with pr; [exact Hb2|done|lia]. }
  apply fwp_bind, fwp_sched. eapply wp_upd_task; [done|].
  pose proof (built_flags _ _ _ t (Z.lor (Z.land (t_flags t) (Z.lnot (flags [PF_SUPERPRIV; PF_WQ_WORKER; PF_IDLE; PF_NO_SETAFFINITY]))) PF_FORKNOEXEC) Hb Ht) as Hb2.
  rewrite <-(b_flags _ _ _ Hb t Ht), !has_kthread, Z.lor_spec, Z.land_spec in Hb2. specialize (Hb2 ltac:(cbn -[Z.testbit]; by rewrite andb_true_r, orb_false_r)).
  apply fwp_bind. eapply fwp_upd_new; [exact Hb2|].
  specialize (Hgo _ Hb2). match type of Hgo with ready _ _ ?x => set (pr1 := x) in * end. set (s2 := _ <| ps_new := _ |>) in *. clearbody s2 pr1.
  apply fwp_bind. eapply fwp_current_task; [apply Hgo|]. intros tc. apply fwp_bind.
  eapply fwp_local; [apply Hgo|by apply local_upd|]. intros [] k Hb3.
  assert (ready 3 (s2 <| ps_k := k |>) pr1) as Hr3 by by eapply ready_state. set (s3 := s2 <| ps_k := k |>) in *. clearbody s3.
  destruct (ka_kthread args) eqn:Hkt; [destruct (env_kthread env)|].
  - apply fwp_bind, fwp_modify, fwp_ret. exists pr1. eapply ready_state; [exact Hr3|]. apply built_hold; [apply Hr3|].
    right. cbn. split_and!; [done|lia|lia|done].
  - apply fwp_ret. split; [done|]. exists pr1. apply Hr3.
  - apply fwp_ret. by exists pr1.
Qed.

(** *** The counted structures *)

Lemma at_level_up n k (P Q : Prop) : k ≠ S n → at_level n k P Q → at_level (S n) k P Q.
Proof. intros Hk. unfold at_level. destruct (Nat.leb_spec k (S n)), (Nat.leb_spec k n); done || lia. Qed.

(** The same level or the next one, for a child that differs in the structure at hand. *)
Ltac keep_counted Hs :=
  split; cbn; try apply Hs;
  try first
    [ done
    | rewrite (b_new _ _ _ Hs); by rewrite ?insert_insert_eq
    | let q := fresh in let r := fresh in let Hq := fresh in intros q r Hq;
      destruct (b_may _ _ _ Hs q r Hq) as [|Hm]; [by left|right; refine (may_hold_mono _ _ _ _ _ _ Hm); lia]
    | let r := fresh in let Hk := fresh in let Hm := fresh in intros r Hk Hm;
      apply (b_must _ _ _ Hs r Hk); first [exact Hm | refine (may_counted _ _ _ _ _ _ _ Hm); [set_solver|done]]
    | apply at_level_up; [done|apply Hs] ].
Ltac raise_counted Hr Hs := split; [keep_counted Hs|..]; cbn; try (intros; apply Hr; done || lia); try lia.

Lemma advances_files : advances 9 (failing (copy_files env (ka_flags args) p (ka_no_files args)), bad_fork_cleanup_semundo) 10.
Proof.
  apply advances_failing. intros s pr Hr. pose proof (rd_built _ _ _ Hr) as Hs. pose proof (b_files _ _ _ Hs) as Hm0. cbn in Hm0.
  pose proof (rd_files _ _ _ Hr ltac:(lia)) as Hf. unfold copy_files. apply fwp_bind. eapply fwp_current_proc; [done|].
  destruct (pr_files pc) as [oldf|] eqn:Hold.
  2: { apply fwp_ret. exists pr. raise_counted Hr Hs; [by rewrite Hf|auto]. }
  destruct (ka_no_files args) eqn:Hno.
  { apply fwp_bind. eapply fwp_upd_new; [done|]. apply fwp_ret. exists (pr <| pr_files := None |>). raise_counted Hr Hs; auto. }
  destruct (has (ka_flags args) CLONE_FILES) eqn:Hsh.
  { apply fwp_bind, fwp_modify, fwp_ret. exists pr. raise_counted Hr Hs; [|congruence].
    rewrite Hf, Hsh, Hm0. by split. }
  destruct (Z.ltb_spec (env_dup_fd env) 0).
  { apply fwp_ret. destruct (Z.eqb_spec (env_dup_fd env) 0); [lia|]. by exists pr. }
  apply fwp_bind, fwp_get. apply fwp_bind, fwp_modify. apply fwp_bind.
  eapply fwp_upd_child; [exact (built_lookup _ _ _ Hs)|]. apply fwp_ret.
  exists (pr <| pr_files := Some (new_ref (ps_files s)) |>). raise_counted Hr Hs; try done.
  rewrite Hsh, Hm0. split; [apply new_ref_fresh|done].
Qed.

Lemma advances_fs : advances 10 (failing (copy_fs env (ka_flags args) p), bad_fork_cleanup_files) 11.
Proof.
  apply advances_failing. intros s pr Hr. pose proof (rd_built _ _ _ Hr) as Hs. pose proof (b_fs _ _ _ Hs) as Hm0. cbn in Hm0.
  pose proof (rd_fs _ _ _ Hr ltac:(lia)) as Hf. destruct (fb_fs Hfb) as [[old Hold] _]. unfold copy_fs.
  apply fwp_bind. eapply fwp_current_proc; [done|]. destruct (has (ka_flags args) CLONE_FS) eqn:Hsh.
  - rewrite Hold. apply fwp_bind, fwp_deref. apply fwp_bind, fwp_get. destruct (bool_decide _); [apply fwp_ret; by exists pr|].
    apply fwp_bind, fwp_modify, fwp_ret. exists pr. raise_counted Hr Hs; rewrite Hf, Hold; [|done].
    rewrite Hsh, Hm0. by split.
  - destruct (env_copy_fs env); cbn [negb].
    + apply fwp_bind, fwp_get. apply fwp_bind, fwp_modify. apply fwp_bind.
      eapply fwp_upd_child; [exact (built_lookup _ _ _ Hs)|]. apply fwp_ret.
      exists (pr <| pr_fs := Some (new_ref (ps_fs s)) |>). raise_counted Hr Hs; try done.
      rewrite Hsh, Hm0. split; [apply new_ref_fresh|done].
    + apply fwp_bind. eapply fwp_upd_new; [done|]. apply fwp_ret. exists (pr <| pr_fs := None |>). keep_counted Hs.
Qed.

Lemma advances_sighand : advances 11 (failing (copy_sighand env (ka_flags args) p), bad_fork_cleanup_fs) 12.
Proof.
  apply advances_failing. intros s pr Hr. pose proof (rd_built _ _ _ Hr) as Hs. pose proof (b_sighand _ _ _ Hs) as Hm0. cbn in Hm0.
  pose proof (rd_sighand _ _ _ Hr ltac:(lia)) as Hf. destruct (fb_sighand Hfb) as [[old Hold] _]. unfold copy_sighand.
  apply fwp_bind. eapply fwp_current_proc; [done|]. destruct (has (ka_flags args) CLONE_SIGHAND) eqn:Hsh.
  - rewrite Hold. apply fwp_bind, fwp_deref. apply fwp_bind, fwp_modify, fwp_ret. exists pr.
    raise_counted Hr Hs. unfold at_level. cbn. rewrite Hf, Hold, Hsh, Hm0. done.
  - destruct (env_sighand env); cbn [negb].
    + apply fwp_bind, fwp_get. apply fwp_bind, fwp_modify. apply fwp_bind.
      eapply fwp_upd_child; [exact (built_lookup _ _ _ Hs)|]. apply fwp_ret.
      exists (pr <| pr_sighand := Some (new_ref (ps_sighand s)) |>). raise_counted Hr Hs.
      unfold at_level. cbn. rewrite Hsh, Hm0. split_and!; [done|apply new_ref_fresh|done].
    + apply fwp_bind. eapply fwp_upd_new; [done|]. apply fwp_ret. exists (pr <| pr_sighand := None |>). keep_counted Hs.
Qed.

Lemma advances_signal : advances 12 (failing (copy_signal env (ka_flags args) p), bad_fork_cleanup_sighand) 13.
Proof.
  apply advances_failing. intros s pr Hr. pose proof (rd_built _ _ _ Hr) as Hs. pose proof (b_signal _ _ _ Hs) as Hm0. cbn in Hm0.
  pose proof (rd_signal _ _ _ Hr ltac:(lia)) as Hf. unfold copy_signal. destruct (has (ka_flags args) CLONE_THREAD) eqn:Hth.
  - apply fwp_ret. exists pr. raise_counted Hr Hs. unfold at_level. cbn. by rewrite Hth.
  - destruct (env_signal env); cbn [negb].
    + apply fwp_bind, fwp_get. apply fwp_bind, fwp_modify. apply fwp_bind.
      eapply fwp_upd_child; [exact (built_lookup _ _ _ Hs)|]. apply fwp_ret.
      exists (pr <| pr_signal := Some (fresh (dom (ps_signal s))) |>). raise_counted Hr Hs.
      unfold at_level. cbn. rewrite Hth, Hm0. eexists. split_and!; [done| |done].
      apply (not_elem_of_dom (D:=gset nat)), is_fresh.
    + apply fwp_bind. eapply fwp_upd_new; [done|]. apply fwp_ret. exists (pr <| pr_signal := None |>). keep_counted Hs.
Qed.

Lemma advances_mm : advances 13 (failing (copy_mm env (ka_flags args) p), bad_fork_cleanup_signal) 14.
Proof.
  apply advances_failing. intros s pr Hr. pose proof (rd_built _ _ _ Hr) as Hs. pose proof (b_mm _ _ _ Hs) as Hm0. cbn in Hm0.
  unfold copy_mm. apply fwp_bind. eapply fwp_upd_new; [done|].
  set (pr1 := pr <| pr_mm := None |> <| pr_active_mm := None |>). set (s1 := s <| ps_new := _ |>).
  assert (built 13 s1 pr1) as Hs1 by keep_counted Hs.
  assert (ready 13 s1 pr1) as Hr1 by (split; [done|..]; cbn; try apply Hr; lia).
  assert (pr_mm pr1 = None ∧ ps_mm s1 = ps_mm s0) as [Hn1 Hm1] by done. clearbody s1 pr1. clear s pr Hr Hs Hm0.
  apply fwp_bind. eapply fwp_current_proc; [done|]. destruct (pr_mm pc) as [old|] eqn:Hold.
  2: { apply fwp_ret. exists pr1. raise_counted Hr1 Hs1; [by rewrite Hn1|done]. }
  destruct (has (ka_flags args) CLONE_VM) eqn:Hsh.
  - apply fwp_bind, fwp_modify. apply fwp_bind. eapply fwp_upd_child; [exact (built_lookup _ _ _ Hs1)|]. apply fwp_ret.
    exists (pr1 <| pr_mm := Some old |> <| pr_active_mm := Some old |>). raise_counted Hr1 Hs1; try done.
    by rewrite Hsh, Hm1.
  - destruct (env_dup_mm env); cbn [negb]; [|apply fwp_ret; by exists pr1].
    apply fwp_bind, fwp_get. apply fwp_bind, fwp_modify. apply fwp_bind. eapply fwp_upd_child; [exact (built_lookup _ _ _ Hs1)|].
    apply fwp_ret. set (mm := new_ref (ps_mm s1)). exists (pr1 <| pr_mm := Some mm |> <| pr_active_mm := Some mm |>).
    raise_counted Hr1 Hs1; try done. rewrite Hsh. subst mm. rewrite Hm1. split; [apply new_ref_fresh|done].
Qed.

(** *** Numbers, control groups and parents *)

Lemma advances_io : advances 15 (stage_io env p, bad_fork_cleanup_namespaces) 16.
Proof.
  intros s pr Hr. unfold stage_io. cbn [fst snd level]. destruct (Z.eqb_spec (env_io env) 0).
  2: { apply fwp_ret. split; [done|]. exists pr. apply Hr. }
  destruct (env_io_context env); cbn [fwhen].
  2: { apply fwp_bind, fwp_skip, fwp_ret. exists pr. eapply ready_step; [set_solver|done| |done|done].
    apply built_next; [set_solver| |apply Hr]. intros [] Hl _; try done. intros [[??]|(_&_&Hm)]; [done|].
    rewrite (rd_io _ _ _ Hr) in Hm by lia. done. }
  apply fwp_bind, fwp_bind. eapply fwp_upd_new; [apply Hr|]. apply fwp_modify, fwp_ret.
  exists (pr <| pr_io_context := true |>). eapply ready_step; [set_solver|exact Hr| |done|done].
  apply (built_acquire 15 (s <| ps_new := <[p := pr <| pr_io_context := true |>]> (ps_new s) |>) _ res_io); [set_solver|by intros []| |].
  - right. split_and!; [done|cbn; lia|cbn; lia|done].
  - apply built_new with pr; [apply Hr|done|lia].
Qed.

Lemma advances_pid : advances 17 (stage_pid env init_pid p, bad_fork_cleanup_thread) 18.
Proof.
  intros s pr Hr. unfold stage_pid. cbn [fst snd level]. destruct init_pid eqn:Hi.
  { apply fwp_ret. exists pr. eapply ready_next; [set_solver|done|]. apply built_next; [set_solver| |apply Hr].
    intros [] Hl _; try done. intros [[??]|(_&_&Hm)]; congruence. }
  destruct (Z.ltb_spec (env_pid env) 0).
  { apply fwp_ret. split; [lia|]. exists pr. apply Hr. }
  apply fwp_bind, fwp_modify, fwp_ret. exists pr. eapply ready_next; [set_solver|done|].
  apply built_acquire; [set_solver|by intros []| |apply Hr]. right. split_and!; [done|cbn; lia|cbn; lia|done].
Qed.

Lemma advances_pidfd : advances 18 (stage_pidfd env args p, bad_fork_free_pid) 19.
Proof.
  intros s pr Hr. unfold stage_pidfd. cbn [fst snd level]. destruct (has (ka_flags args) CLONE_PIDFD) eqn:Hf.
  2: { apply fwp_ret. exists pr. eapply ready_next; [set_solver|done|]. apply built_next; [set_solver| |apply Hr].
    intros [] Hl _; try done. intros [[??]|(_&_&Hm)]; congruence. }
  destruct (Z.ltb_spec (env_pidfd env) 0).
  { apply fwp_ret. split; [lia|]. exists pr. apply Hr. }
  apply fwp_bind, fwp_modify, fwp_ret. exists pr. eapply ready_next; [set_solver|done|].
  apply built_acquire; [set_solver|by intros []| |apply Hr]. right. split_and!; [done|cbn; lia|cbn; lia|done].
Qed.

Lemma advances_put_pidfd : advances 19 (stage_put_pidfd env args, bad_fork_put_pidfd) 19.
Proof.
  intros s pr Hr. unfold stage_put_pidfd, check. apply fwp_ret. destruct (Z.eqb_spec (env_put_user env) 0); cbn [negb].
  - rewrite andb_false_r. by exists pr.
  - destruct (has _ _ && true); [|by exists pr]. split; [done|]. exists pr. apply Hr.
Qed.

Lemma advances_cgroup : advances 19 (stage_cgroup env init_pid args cur p, bad_fork_put_pidfd) 20.
Proof.
  intros s pr Hr. unfold stage_cgroup. apply fwp_bind. eapply fwp_process; [by eapply built_proc, Hr|].
  apply fwp_bind. eapply fwp_upd_new; [apply Hr|].
  match goal with |- context [<[p := ?x]> (ps_new s)] => set (pr1 := x); set (s1 := s <| ps_new := <[p := pr1]> (ps_new s) |>) end.
  assert (same_refs pr pr1 ∧ pr_io_context pr1 = pr_io_context pr ∧ ids pr1) as (Hsame&Hio&Hids).
  { subst pr1. cbn beta. unfold ids, new_nr. by destruct (has (ka_flags args) CLONE_THREAD). }
  assert (built 19 s1 pr1) as Hb by (apply built_new with pr; [apply Hr|done|done]). clearbody pr1.
  unfold acquire. destruct (Z.eqb_spec (env_cgroup env) 0).
  - apply fwp_bind, fwp_modify, fwp_ret. exists pr1.
    pose proof (built_acquire 19 _ _ res_cgroup ltac:(set_solver) ltac:(by intros []) (may_own 20 _ res_cgroup eq_refl ltac:(lia) I) Hb) as Hb'.
    destruct Hr. injection Hsame as Hf Hfs Hsh Hsg Hmm. split; [exact Hb'|..]; rewrite ?Hf, ?Hfs, ?Hsh, ?Hsg, ?Hmm; intros; first [lia | auto with lia].
  - apply fwp_ret. split; [done|]. by exists pr1.
Qed.

Lemma advances_family : advances 20 (stage_family env args cur p, bad_fork_core_free) 21.
Proof.
  intros s pr Hr. unfold stage_family. apply fwp_bind. eapply fwp_process; [by eapply built_proc, Hr|].
  destruct (fb_leader Hfb) as [leader Hl]. apply fwp_bind. eapply fwp_process; [by rewrite (b_procs _ _ _ (rd_built _ _ _ Hr))|].
  apply fwp_bind. eapply fwp_upd_new; [apply Hr|].
  match goal with |- context [<[p := ?x]> (ps_new s)] => set (pr1 := x); set (s1 := s <| ps_new := <[p := pr1]> (ps_new s) |>) end.
  assert (same_refs pr pr1 ∧ pr_io_context pr1 = pr_io_context pr ∧ (ids pr → ids pr1) ∧ family pr1) as (Hsame&Hio&Hids&Hfam).
  { subst pr1. cbn beta. unfold family. rewrite has_lor.
    destruct (has (ka_flags args) CLONE_THREAD), (has (ka_flags args) CLONE_PARENT); split_and!; try done. by exists leader. }
  assert (built 20 s1 pr1) as Hb by (apply built_new with pr; [apply Hr|done|done]). clearbody pr1.
  pose proof (built_acquire 20 _ _ res_core ltac:(set_solver) ltac:(by intros []) (may_own 21 _ res_core eq_refl ltac:(lia) I) Hb) as Hb'.
  apply fwp_bind, fwp_modify, fwp_ret. destruct (env_pidns_dying env); [split; [done|]; by exists pr1|]. exists pr1.
  destruct Hr. injection Hsame as Hf Hfs Hsh Hsg Hmm. split; [exact Hb'|..]; rewrite ?Hf, ?Hfs, ?Hsh, ?Hsg, ?Hmm; intros; first [lia | auto with lia].
Qed.

(** *** From the copy of the task to the last statement *)

Definition outcome (r : option (Z * label)) (s : pstate) : Prop :=
  match r with
  | Some (e, l) => e ≠ 0 ∧ (1 <= level l <= 21)%nat ∧ ∃ pr, built (level l) s pr
  | None => ∃ pr, ready 21 s pr
  end.

Inductive route : nat → list stage → Prop :=
  | route_end : route 21 []
  | route_step n n' st ss : (1 <= level st.2)%nat → advances n st n' → route n' ss → route n (st :: ss).
Lemma route_outcome n ss s pr : route n ss → ready n s pr → fwp (run_stages ss) s outcome.
Proof.
  intros Hrt. revert s pr. induction Hrt as [|n n' [m l] ss Hl Hadv _ IH]; intros s pr Hr; [apply fwp_ret; by exists pr|].
  cbn [run_stages]. apply fwp_bind. eapply fwp_mono; [exact (Hadv s pr Hr)|]. intros [e|] s' He; cbn in He.
  - apply fwp_ret. destruct He as (?&pr'&Hb). split_and!; [done|done|destruct l; cbn; lia|by exists pr'].
  - destruct He as [pr' Hr']. by eapply IH.
Qed.

(** The copy of the caller, whose flags are still those of the caller. *)
Definition copied (s : pstate) (pr : proc) : Prop :=
  (pr_files pr, pr_fs pr, pr_sighand pr, pr_signal pr) = (pr_files pc, pr_fs pc, pr_sighand pc, pr_signal pc) ∧
  ∃ t, k_tasks (ps_k s) !! p = Some t ∧
    ∀ f, has f PF_KTHREAD = ka_kthread args →
      built 1 (s <| ps_k ::= λ k, k <| k_tasks := <[p := t <| t_flags := f |>]> (k_tasks k) |> |>) pr.

Lemma child_flags_kthread t : has (child_flags args t) PF_KTHREAD = ka_kthread args.
Proof.
  unfold child_flags. rewrite has_kthread. destruct (ka_kthread args), (ka_user_worker args), (ka_io_thread args);
    rewrite ?Z.lor_spec, Z.land_spec; cbn -[Z.testbit]; by rewrite ?andb_false_r, ?orb_true_r.
Qed.

Lemma creds_outcome s pr :
  copied s pr → fwp (stage_creds env args p) s (λ e s', match e with
    | Some e => e ≠ 0 ∧ ∃ pr', built 1 s' pr' | None => ∃ pr', ready 2 s' pr' end).
Proof.
  intros ([= Hf Hfs Hsh Hsg]&t&Ht&Hb). unfold stage_creds. apply fwp_bind, fwp_sched. eapply wp_upd_task; [done|].
  specialize (Hb _ (child_flags_kthread t)). apply fwp_bind. eapply fwp_upd_new; [exact Hb|].
  match goal with |- context [<[p := ?x]> (ps_new _)] => set (pr1 := x) end.
  apply (built_new _ _ _ pr1) in Hb; [|done|lia]. destruct (Z.ltb_spec (env_creds env) 0).
  - apply fwp_ret. split; [lia|]. exists pr1. exact Hb.
  - apply fwp_bind, fwp_modify. apply fwp_bind, fwp_modify. apply fwp_ret. exists pr1.
    apply (built_raise _ _ _ ({[(p, res_nproc)]} ∪ ({[(p, res_creds)]} ∪ ps_held s))) in Hb; [|set_solver|set_solver|..].
    + split; [exact Hb|..]; cbn; intros; done || lia.
    + intros q r [[= -> ->]%elem_of_singleton|[[= -> ->]%elem_of_singleton|?]%elem_of_union]%elem_of_union; [right|right|by left]; by apply may_own; [|lia|].
    + intros [] Hl _ _; try done; set_solver.
Qed.

Lemma stages_outcome s pr : copied s pr → fwp (run_stages (fork_stages env init_pid args cur p)) s outcome.
Proof.
  intros Hc. unfold fork_stages.
  match goal with |- fwp (run_stages (_ :: ?r)) _ _ => set (rest := r) end. cbn [run_stages].
  apply fwp_bind. eapply fwp_mono; [by eapply creds_outcome|]. intros [e|] s' He; [apply fwp_ret; destruct He as [? Hb]; by split_and!; [|cbn; lia|cbn; lia|]|]. destruct He as [pr' Hr].
  refine (route_outcome 2 rest _ _ _ Hr). subst rest.
  repeat (eapply route_step; [cbn; lia| |]); [..|apply route_end].
  - by apply advances_check.
  - apply advances_threads.
  - apply advances_kthread.
  - apply advances_acquire; [set_solver|done|by intros []|done|done].
  - apply advances_local; [apply fork_local|done|left; split_and!; [done|set_solver|by intros []]].
  - apply advances_acquire; [set_solver|done|by intros []|done|done].
  - apply advances_acquire; [set_solver|done|by intros []|done|done].
  - apply advances_acquire; [set_solver|done|by intros []|done|done].
  - apply advances_acquire; [set_solver|done|by intros []|done|done].
  - apply advances_files.
  - apply advances_fs.
  - apply advances_sighand.
  - apply advances_signal.
  - apply advances_mm.
  - apply advances_acquire; [set_solver|done|by intros []|done|done].
  - apply advances_io.
  - apply advances_acquire; [set_solver|done|by intros []|done|done].
  - apply advances_pid.
  - apply advances_pidfd.
  - apply advances_put_pidfd.
  - apply advances_cgroup.
  - apply advances_local; [apply cgroup_fork_local|done|by right].
  - apply advances_family.
  - by apply advances_check.
Qed.

(** A statement that fails leaves nothing behind. *)
Lemma failed_stage l s pr :
  (1 <= level l <= 21)%nat → built (level l) s pr →
  fwp (goto l (cleanup_ladder init_pid args cur p)) s (λ _ s', restored s').
Proof. intros Hl Hb. rewrite goto_level. by eapply ladder_restores. Qed.
End build.
