(* ===== verification/ForkSpec.v ===== *)
(** Process creation as its callers see it: a fork either leaves everything as it was or
    makes one child that shares with its parent what the flags say, and the counts of
    references and of threads stay exact. *)
From S2P Require Import Prelude Rbtree KState HvfValue HvfClass HvfSmp Policy Uclamp Core Schedule Load Setsched Wakeup Affinity Fork ForkSched ForkBuild.

(** The group a thread joins. *)
Definition join_group (g : signal_struct) : signal_struct :=
  g <| sig_nr_threads ::= λ n, n + 1 |> <| sig_quick_threads ::= λ n, n + 1 |> <| sig_live ::= λ n, n + 1 |>
    <| sig_sigcnt ::= λ n, n + 1 |>.

(** [s] is [s0] with the child [p], whose process is [pr]. *)
Record created (env : fork_env) (args : kernel_clone_args) (s0 : pstate) (cur : tid) (pc : proc) (p : tid) (pr : proc) (s : pstate) : Prop := {
  cr_fresh : ps_procs s0 !! p = None ∧ k_tasks (ps_k s0) !! p = None;
  cr_procs : ps_procs s = <[p := pr]> (ps_procs s0);
  cr_new : ps_new s = ps_new s0;
  cr_ids : ids env false args p pc pr;
  cr_family : family args s0 cur pc pr;
  cr_files : taken (has (ka_flags args) CLONE_FILES) (pr_files pc) (pr_files pr) (ps_files s0) (ps_files s) ∧
             (pr_files pr = None → pr_files pc = None ∨ ka_no_files args = true);
  cr_fs : taken (has (ka_flags args) CLONE_FS) (pr_fs pc) (pr_fs pr) (ps_fs s0) (ps_fs s) ∧ is_Some (pr_fs pr);
  cr_sighand : taken (has (ka_flags args) CLONE_SIGHAND) (pr_sighand pc) (pr_sighand pr) (ps_sighand s0) (ps_sighand s) ∧
               is_Some (pr_sighand pr);
  cr_mm : taken (has (ka_flags args) CLONE_VM) (pr_mm pc) (pr_mm pr) (ps_mm s0) (ps_mm s) ∧ (pr_mm pr = None → pr_mm pc = None);
  cr_signal : if has (ka_flags args) CLONE_THREAD
              then pr_signal pr = pr_signal pc ∧ ∃ sig, pr_signal pc = Some sig ∧ ps_signal s = alter join_group sig (ps_signal s0)
              else ∃ sig g, pr_signal pr = Some sig ∧ ps_signal s0 !! sig = None ∧ ps_signal s = <[sig := g]> (ps_signal s0) ∧
                            sig_nr_threads g = 1;
  cr_threads : ps_nr_threads s = ps_nr_threads s0 + 1;
  cr_forks : ps_total_forks s = ps_total_forks s0 + 1;
  cr_processes : ps_processes s = ps_processes s0 + (if has (ka_flags args) CLONE_THREAD then 0 else 1);
  cr_others : krel s0 cur p (ps_k s);
  cr_child : ∃ t, k_tasks (ps_k s) !! p = Some t ∧ pars_set t = false ∧ deadline_1 t = 0 ∧ deadline_2 t = 0 ∧ computation_time t = 0;
  cr_held : ((cur, res_delayed) ∉ ps_held s) ∧ ps_held s0 ⊆ ps_held s ∧ (∀ q r, (q, r) ∈ ps_held s → (q, r) ∈ ps_held s0 ∨ q = p);
}.

(** Threads share their signal handlers, and who shares the handlers shares the memory. *)
Definition flags_nested (fl : Z) : Prop :=
  (has fl CLONE_THREAD = true → has fl CLONE_SIGHAND = true) ∧ (has fl CLONE_SIGHAND = true → has fl CLONE_VM = true).
Lemma good_flags_nested fl unkillable same_ns : bad_clone_flags fl unkillable same_ns = false → flags_nested fl.
Proof.
  unfold bad_clone_flags, flags_nested.
  destruct (has fl CLONE_THREAD), (has fl CLONE_SIGHAND), (has fl CLONE_VM); cbn; rewrite ?orb_true_r; cbn; done.
Qed.

Section spec.
Context {L : RbLib} {TC : TickConfig} {SM : SmpLib} {UC : UclampConfig} {E : Ext} {OC : OtherClasses} {CL : CpuLib}
  {FL : ForkLib} {SL : SysLib} {AL : AffLib} {PL : ProcLib} {PW : ProcLaws PL} {SF : SchedFork}.
Context (env : fork_env) (args : kernel_clone_args) (s0 : pstate) (cur : tid) (pc : proc) (Hfb : forkable s0 cur pc).

(** The signals of the caller may be collected from here on. *)
Definition collecting (s : pstate) : Prop :=
  s = s0 ∨ s = s0 <| ps_held := {[(cur, res_delayed)]} ∪ ps_held s0 |>.

Lemma collecting_held s : collecting s →
  ps_held s0 ⊆ ps_held s ∧ ps_held s ⊆ {[(cur, res_delayed)]} ∪ ps_held s0 ∧ s <| ps_held := ps_held s0 |> = s0.
Proof. intros [-> | ->]; cbn; (split_and!; [set_solver|set_solver|by destruct s0]). Qed.
Lemma collecting_stop s : collecting s → fwp (unhold cur res_delayed) s (λ _ s', s' = s0).
Proof.
  intros Hc. apply fwp_modify. pose proof (fb_delayed _ _ _ Hfb) as Hd. destruct (collecting_held s Hc) as (H1&H2&H3).
  rewrite <-H3 at 1. assert (ps_held s ∖ {[(cur, res_delayed)]} = ps_held s0) as -> by set_solver. done.
Qed.
Lemma restored_refl : restored s0 cur s0.
Proof. by split; try done; left. Qed.

(** The copy of the caller is a new task. *)
Lemma dup_user_local p k tc :
  kpre p k → k_tasks k !! cur = Some tc → p ≠ cur → wp (dup_user_cpus_ptr p cur) k (λ _ k', klocal p k k' ∧ kpre p k').
Proof.
  intros Hk Hc Hp. unfold dup_user_cpus_ptr. apply wp_bind. eapply wp_mono; [by apply local_upd|]. intros [] k1 [Hl1 Hk1].
  apply wp_bind. eapply wp_task; [rewrite (kl_tasks _ _ _ Hl1) by done; exact Hc|].
  assert (∀ m : M Z, local_op p m → wp m k1 (λ _ k', klocal p k k' ∧ kpre p k')) as Hm.
  { intros m Hm. eapply wp_mono; [by apply Hm|]. intros a k2 [Hl2 Hk2]. split; [by eapply klocal_trans|done]. }
  destruct (user_cpus_ptr tc); [|apply Hm, local_ret]. destruct alloc_user_cpus_ptr; [|apply Hm, local_ret].
  apply Hm. cbn [negb]. apply local_bind; [by apply local_upd|]. intros []. apply local_ret.
Qed.

Definition dup_post (init_pid : bool) (s : pstate) (r : option tid) (s' : pstate) : Prop :=
  match r with
  | None => s' = s
  | Some p => p ≠ cur ∧ k_tasks (ps_k s0) !! p = None ∧ ps_new s0 !! p = None ∧ ps_procs s0 !! p = None ∧
              copied init_pid args s0 cur p pc s' pc
  end.
Lemma dup_task_struct_copies init_pid s :
  collecting s → fwp (dup_task_struct env cur) s (dup_post init_pid s).
Proof.
  intros Hc. unfold dup_task_struct. destruct (env_dup_task env); cbn [negb]; [|by apply fwp_ret].
  destruct (collecting_held s Hc) as (Hh1&Hh2&Hs0).
  assert (ps_procs s = ps_procs s0 ∧ ps_k s = ps_k s0 ∧ ps_new s = ps_new s0) as (Hpr&Hk&Hn) by (destruct Hc as [-> | ->]; done).
  destruct (fb_task _ _ _ Hfb) as (t&Ht&Hok). destruct (fb_cur _ _ _ Hfb) as (r&Hr&Hcr).
  apply fwp_bind. eapply fwp_process; [rewrite Hpr; apply Hfb|]. apply fwp_bind, fwp_sched. eapply wp_task; [by rewrite Hk|].
  rewrite ps_k_id. apply fwp_bind, fwp_get. rewrite Hpr, Hk, Hn.
  match goal with |- context [fresh ?X] => pose proof (is_fresh X) as Hfr; set (p := fresh X) in * end. clearbody p.
  apply not_elem_of_union in Hfr as [[Hf1 Hf2]%not_elem_of_union Hf3]. apply not_elem_of_dom in Hf1, Hf2, Hf3.
  assert (p ≠ cur) as Hne by (intros ->; congruence).
  apply fwp_bind, fwp_modify. cbn beta. set (t1 := t <| need_resched := false |>).
  set (s1 := s <| ps_new := _ |> <| ps_k ::= _ |>).
  assert (kpre p (ps_k s1)) as Hpre.
  { exists r, t, t1. cbn. rewrite Hk. rewrite lookup_insert_eq, Hcr, lookup_insert_ne by done. by split_and!. }
  apply fwp_bind, fwp_sched. eapply wp_mono; [eapply (dup_user_local p _ t); [done| |done]|].
  { cbn. rewrite Hk. by rewrite lookup_insert_ne. }
  intros a k [[Hk1 Hk2 Hk3 Hk4] Hpre']. apply fwp_ret. cbn [dup_post]. split_and!; try done. split; [done|].
  pose proof Hpre' as (r'&tc'&t'&Hr'&Htc'&Hne'&Ht'&Hok'). exists t'. split; [done|]. intros f Hf. cbn in Hk1, Hk2, Hk3.
  assert (curr r' = cur) as Hcr' by (cbn; congruence).
  assert (∀ n m P, at_level 1 (S (S n)) m P = P) as Hlv by done.
  split; rewrite ?Hlv; cbn; try by destruct Hc as [-> | ->].
  - split; cbn; [congruence|congruence| |].
    + intros q Hq Hq'. by rewrite lookup_insert_ne, Hk3, lookup_insert_ne, Hk.
    + left. by rewrite lookup_insert_ne, Hk3, lookup_insert_ne, Hk.
  - exists r', tc', (t' <| t_flags := f |>). cbn. rewrite lookup_insert_eq, lookup_insert_ne by done. by split_and!.
  - intros t2. rewrite lookup_insert_eq. by intros [= <-].
  - intros q r2 [[= -> ->]%elem_of_singleton|?]%Hh2%elem_of_union; [right; by left|by left].
  - intros r2 Hk2' [[??]|(_&Hl&_)]; [done|]. destruct r2; cbn in Hl; done || lia.
Qed.

(** ** The two endings *)

Lemma failed_copy p init_pid :
  p ≠ cur → k_tasks (ps_k s0) !! p = None → ps_new s0 !! p = None →
  ∀ e l s, outcome env init_pid args s0 cur p pc (Some (e, l)) s →
  fwp (goto l (cleanup_ladder init_pid args cur p);; mret (inl e : Z + tid)) s (λ r s', r = inl e ∧ e ≠ 0 ∧ restored s0 cur s').
Proof.
  intros Hp Hk Hn e l s (He&Hl&pr&Hb). apply fwp_bind. eapply fwp_mono; [by eapply failed_stage|]. intros [] s' Hr. by apply fwp_ret.
Qed.

Section success.
Context (Hpid : env_pid env ≠ 0) (Hsig : 0 <= ka_exit_signal args)
  (Hlead : ∀ l, ps_procs s0 !! pr_group_leader pc = Some l → 0 <= pr_exit_signal l).

Lemma family_leader pr : family args s0 cur pc pr → group_leader_of pr = negb (has (ka_flags args) CLONE_THREAD).
Proof.
  unfold family, group_leader_of. destruct (has (ka_flags args) CLONE_THREAD); [by intros [-> _]|].
  intros Hf. apply Z.leb_le. destruct (has (ka_flags args) CLONE_PARENT); [|by destruct Hf as [-> _]].
  destruct Hf as [(l&Hl&->) _]. by apply Hlead.
Qed.

Record attached (p : tid) (pr : proc) (s s' : pstate) : Prop := {
  at_k : ps_k s' = ps_k s;
  at_procs : ps_procs s' = <[p := pr]> (ps_procs s);
  at_new : ps_new s' = delete p (ps_new s);
  at_refs : (ps_files s', ps_fs s', ps_sighand s', ps_mm s') = (ps_files s, ps_fs s, ps_sighand s, ps_mm s);
  at_signal :
    if has (ka_flags args) CLONE_THREAD then ∃ sig, pr_signal pc = Some sig ∧ ps_signal s' = alter join_group sig (ps_signal s)
    else ∃ sig f, pr_signal pr = Some sig ∧ ps_signal s' = alter (λ g : signal_struct, g <| sig_flags ::= f |>) sig (ps_signal s);
  at_processes : ps_processes s' = ps_processes s + (if has (ka_flags args) CLONE_THREAD then 0 else 1);
  at_counts : (ps_nr_threads s', ps_total_forks s') = (ps_nr_threads s + 1, ps_total_forks s + 1);
  at_held : ps_held s' = ps_held s ∖ {[(cur, res_delayed)]};
}.

Lemma attach_attaches p s pr :
  p ≠ cur → ready env false args s0 cur p pc 21 s pr → fwp (attach env cur p) s (λ _ s', attached p pr s s').
Proof.
  intros Hp [Hb _ _ _ _ _ _ _ _ Hi Hf]. specialize (Hi ltac:(lia)). specialize (Hf ltac:(lia)).
  pose proof (family_leader pr Hf) as Hgl. unfold attach. apply fwp_bind. eapply fwp_new_proc; [by eapply built_lookup|].
  apply fwp_bind. eapply fwp_process; [by eapply built_proc|]. destruct Hi as [Hnr _]. unfold new_nr in Hnr.
  apply fwp_bind. rewrite Hnr. destruct (Z.eqb_spec (env_pid env) 0); [done|]. cbn [negb fwhen].
  apply fwp_bind, fwp_modify. pose proof (b_signal _ _ _ _ _ _ _ _ _ Hb) as Hsg. unfold at_level in Hsg. cbn in Hsg.
  rewrite Hgl. destruct (has (ka_flags args) CLONE_THREAD) eqn:Hth; cbn [negb].
  - destruct (fb_signal _ _ _ Hfb) as (sig&Hs&_). rewrite Hs. apply fwp_bind, fwp_bind, fwp_deref, fwp_modify, fwp_modify.
    apply fwp_bind, fwp_modify. apply fwp_modify. split; rewrite ?Hth; try reflexivity; [by exists sig|]. symmetry. apply Z.add_0_r.
  - destruct Hsg as (sig&Hs&_). rewrite Hs. apply fwp_bind, fwp_bind, fwp_deref, fwp_modify, fwp_modify.
    apply fwp_bind, fwp_modify. apply fwp_modify. split; rewrite ?Hth; try reflexivity.
    exists sig, (λ f, if env_child_reaper env then Z.lor f SIGNAL_UNKILLABLE else f). split; [done|].
    cbn. apply map_eq. intros i. destruct (decide (i = sig)) as [->|]; [rewrite !lookup_alter_eq|by rewrite !lookup_alter_ne].
    destruct (ps_signal s !! sig) as [[]|]; [|done]. by destruct (env_child_reaper env).
Qed.

Lemma new_child_created p s pr :
  p ≠ cur → k_tasks (ps_k s0) !! p = None → ps_new s0 !! p = None → ps_procs s0 !! p = None →
  ready env false args s0 cur p pc 21 s pr →
  fwp (attach env cur p;; sched (sched_post_fork p);; sched (reset_hvf_params p);; mret (inr p : Z + tid)) s
    (λ r s', r = inr p ∧ created env args s0 cur pc p pr s').
Proof.
  intros Hp Hk Hn Hpr Hr. apply fwp_bind. eapply fwp_mono; [by apply attach_attaches|]. intros [] s1 Ha.
  pose proof (rd_built _ _ _ _ _ _ _ _ _ _ Hr) as Hb.
  apply fwp_bind, fwp_sched. rewrite (at_k _ _ _ _ Ha). eapply wp_mono; [apply post_fork_local; apply Hb|].
  intros [] k1 [[Hl1 Hl2 Hl3 _] Hpre1]. pose proof Hpre1 as (_&_&t1&_&_&_&Ht1&_).
  apply fwp_bind, fwp_sched. cbn [ps_k]. unfold reset_hvf_params. eapply wp_upd_task; [exact Ht1|]. apply fwp_ret. split; [done|].
  destruct Ha as [_ Hprocs Hnew Hrefs Hsg Hnp Hcnt Hheld]. injection Hrefs as Hf Hfs Hsh Hmm. injection Hcnt as Hth Htf.
  destruct Hr as [_ _ _ _ _ Hkf Hkfs Hkm _ Hids Hfam]. destruct Hb. injection b_counts as Hc1 _ Hc2 Hc3 _.
  unfold at_level in *. cbn in b_files, b_fs, b_sighand, b_signal, b_mm.
  split; cbn; rewrite ?Hf, ?Hfs, ?Hsh, ?Hmm; auto with lia.
  - congruence.
  - by rewrite Hnew, b_new, delete_insert_id.
  - tauto.
  - destruct (has (ka_flags args) CLONE_THREAD).
    + destruct b_signal as [Hs1 Hs2], Hsg as (sig&Hs3&Hs4). split; [done|]. exists sig. by rewrite <-Hs2.
    + destruct b_signal as (sig&Hs1&Hs2&Hs3), Hsg as (sig'&f&Hs4&Hs5). simplify_eq. exists sig'. eexists. split_and!; [done|done| |].
      * rewrite Hs5, Hs3, alter_insert_eq. done.
      * done.
  - destruct b_k. split; cbn; [congruence|congruence| |].
    + intros q Hq Hq'. by rewrite lookup_insert_ne, Hl3, kr_tasks.
    + by rewrite lookup_insert_ne, Hl3.
  - eexists. split; [apply lookup_insert_eq|done].
  - rewrite Hheld. pose proof (fb_delayed _ _ _ Hfb) as Hd. split_and!; [set_solver|set_solver|].
    intros q r [Hin Hne]%elem_of_difference. destruct (b_may q r Hin) as [?|[[-> ->]|(->&_)]]; [by left|set_solver|by right].
Qed.

(** [copy_process] ends, and it fails without a trace or makes a child. *)
Lemma copy_process_ends :
  fwp (copy_process env false args) s0 (λ r s', match r with
    | inl e => e ≠ 0 ∧ restored s0 cur s'
    | inr p => flags_nested (ka_flags args) ∧ ∃ pr, created env args s0 cur pc p pr s'
    end).
Proof.
  destruct (fb_cur _ _ _ Hfb) as (r&Hr&Hcr), (fb_signal _ _ _ Hfb) as (sig&Hs&_). unfold copy_process, current_task.
  apply fwp_bind, fwp_sched. eapply wp_current; [exact Hr|]. rewrite ps_k_id, Hcr.
  apply fwp_bind. eapply fwp_process; [apply Hfb|]. rewrite Hs. apply fwp_bind, fwp_deref. apply fwp_bind, fwp_get.
  destruct (bad_clone_flags _ _ _) eqn:Hbad; [apply fwp_ret; split; [done|apply restored_refl]|].
  apply fwp_bind. apply fwp_mono with (Q := λ _ s, collecting s).
  { destruct (has (ka_flags args) CLONE_THREAD); [apply fwp_skip; by left|apply fwp_modify; by right]. }
  intros [] s1 Hc. assert (∀ e, e ≠ 0 → fwp (unhold cur res_delayed;; mret (inl e : Z + tid)) s1 (λ r s', match r with
    | inl e => e ≠ 0 ∧ restored s0 cur s' | inr p => flags_nested (ka_flags args) ∧ ∃ pr, created env args s0 cur pc p pr s' end)) as Hstop.
  { intros e He. apply fwp_bind. eapply fwp_mono; [by apply collecting_stop|]. intros [] s' ->. apply fwp_ret.
    split; [done|apply restored_refl]. }
  destruct (env_sigpending env); [by apply Hstop|]. apply fwp_bind.
  eapply fwp_mono; [by apply (dup_task_struct_copies false)|]. intros [p|] s2 Hd; cbn [dup_post] in Hd; [|subst; by apply Hstop].
  destruct Hd as (Hp&Hk&Hn&Hpr&Hcp). apply fwp_bind. eapply fwp_mono; [by eapply stages_outcome|].
  intros [[e l]|] s3 Ho.
  - eapply fwp_mono; [by eapply failed_copy|]. by intros x s' (->&?&?).
  - destruct Ho as [pr Hrd]. eapply fwp_mono; [by eapply new_child_created|]. intros x s' [-> Hcr'].
    split; [by eapply good_flags_nested|by exists pr].
Qed.
End success.
End spec.

(** * Counts *)

(** How many processes refer to [f]. *)
Definition holders (ref : proc → option nat) (f : nat) (procs : gmap tid proc) : Z :=
  Z.of_nat (size (filter (λ kv, ref kv.2 = Some f) procs)).
(** A count is the number of processes that refer to the structure and of the references
    [ext] held elsewhere. *)
Definition exact (ref : proc → option nat) (ext : nat → Z) (procs : gmap tid proc) (m : gmap nat Z) : Prop :=
  ∀ f, 0 <= ext f ∧ match m !! f with Some n => n = ext f + holders ref f procs ∧ 1 <= n | None => ext f + holders ref f procs = 0 end.

Lemma holders_insert ref f procs p pr :
  procs !! p = None → holders ref f (<[p := pr]> procs) = holders ref f procs + (if decide (ref pr = Some f) then 1 else 0).
Proof.
  intros Hp. unfold holders. destruct (decide (ref pr = Some f)) as [Hr|Hr].
  - rewrite map_filter_insert_True by done. rewrite map_size_insert_None; [lia|]. apply map_lookup_filter_None. by left.
  - rewrite map_filter_insert_False by done. rewrite delete_id by done. lia.
Qed.
Definition refers (ref : proc → option nat) (pr : proc) (f : nat) : Z := if decide (ref pr = Some f) then 1 else 0.
Lemma holders_replace ref f procs q pr pr' :
  procs !! q = Some pr → holders ref f (<[q := pr']> procs) = holders ref f procs - refers ref pr f + refers ref pr' f.
Proof.
  intros Hq. rewrite <-(insert_delete_id procs q pr) at 2 by done. rewrite <-insert_delete_eq.
  rewrite !holders_insert by apply lookup_delete_eq. unfold refers. lia.
Qed.
Lemma holders_pos ref f procs q pr : procs !! q = Some pr → ref pr = Some f → 1 <= holders ref f procs.
Proof.
  intros Hq Hr. unfold holders. assert (filter (λ kv, ref kv.2 = Some f) procs !! q = Some pr) as Hl by by apply map_lookup_filter_Some.
  destruct (decide (size (filter (λ kv : tid * proc, ref kv.2 = Some f) procs) = 0%nat)) as [Hz|]; [|lia].
  apply map_size_empty_inv in Hz. by rewrite Hz in Hl.
Qed.
Lemma exact_counted ref ext procs m q pr : exact ref ext procs m → procs !! q = Some pr → counted (ref pr) m.
Proof.
  intros He Hq f Hf. pose proof (holders_pos ref f procs q pr Hq Hf). destruct (He f) as [Hx Hm].
  destruct (m !! f) as [n|]; [exists n; split; [done|lia]|lia].
Qed.

(** A child's reference is counted. *)
Lemma exact_taken ref ext procs m0 m p pr share old :
  procs !! p = None → taken share old (ref pr) m0 m → (∀ f, old = Some f → is_Some (m0 !! f)) →
  exact ref ext procs m0 → exact ref ext (<[p := pr]> procs) m.
Proof.
  intros Hp Ht Hold He f. destruct (He f) as [Hx Hm]. split; [done|]. rewrite holders_insert by done.
  unfold taken in Ht. destruct (ref pr) as [g|]; [|subst m; by rewrite decide_False, Z.add_0_r].
  destruct (decide (g = f)) as [->|Hne].
  - rewrite decide_True by done. destruct share.
    + destruct Ht as [Ho ->]. destruct (Hold f Ho) as [n Hn]. unfold get_ref. rewrite lookup_alter_eq, Hn in *. cbn. lia.
    + destruct Ht as [Hn ->]. rewrite lookup_insert_eq. rewrite Hn in Hm. lia.
  - rewrite decide_False by congruence. rewrite Z.add_0_r. destruct share.
    + destruct Ht as [_ ->]. unfold get_ref. by rewrite lookup_alter_ne.
    + destruct Ht as [_ ->]. by rewrite lookup_insert_ne.
Qed.

(** A process that changes other parts keeps the count exact, and so does one that leaves
    a shared structure for a structure of its own. *)
Lemma exact_same ref ext procs m q pr pr' :
  procs !! q = Some pr → ref pr' = ref pr → exact ref ext procs m → exact ref ext (<[q := pr']> procs) m.
Proof.
  intros Hq Hr He f. rewrite (holders_replace _ _ _ _ _ _ Hq). unfold refers. rewrite Hr.
  replace (_ - _ + _) with (holders ref f procs) by lia. apply He.
Qed.
Lemma exact_leave ref ext procs m q pr pr' f n i :
  procs !! q = Some pr → ref pr = Some f → ref pr' = Some i → m !! f = Some n → 1 < n → m !! i = None →
  exact ref ext procs m → exact ref ext (<[q := pr']> procs) (alter (λ n, n - 1) f (<[i := 1]> m)).
Proof.
  intros Hq Hr Hr' Hf Hn Hi He g. destruct (He g) as [Hx Hm]. split; [done|]. rewrite (holders_replace _ _ _ _ _ _ Hq).
  assert (f ≠ i) by congruence. unfold refers. rewrite Hr, Hr'. destruct (decide (g = f)) as [->|Hgf].
  - rewrite lookup_alter_eq, lookup_insert_ne, Hf by done. rewrite Hf in Hm. cbn. rewrite decide_True, decide_False by congruence. lia.
  - rewrite lookup_alter_ne by done. rewrite (decide_False (P := Some f = Some g)) by congruence. destruct (decide (g = i)) as [->|Hgi].
    + rewrite lookup_insert_eq, decide_True by done. rewrite Hi in Hm. lia.
    + rewrite lookup_insert_ne, decide_False by congruence. by rewrite Z.sub_0_r, Z.add_0_r.
Qed.

(** References held outside the processes (of a debugger, a kernel thread that borrows a
    memory map, an open pidfd). *)
Record ext_refs := { x_files : nat → Z; x_fs : nat → Z; x_sighand : nat → Z; x_mm : nat → Z }.

(** The processes of the system. *)
Record processes_ok (x : ext_refs) (s : pstate) : Prop := {
  ok_files : exact pr_files (x_files x) (ps_procs s) (ps_files s);
  ok_fs : exact pr_fs (x_fs x) (ps_procs s) (ps_fs s);
  ok_sighand : exact pr_sighand (x_sighand x) (ps_procs s) (ps_sighand s);
  ok_mm : exact pr_mm (x_mm x) (ps_procs s) (ps_mm s);
  ok_parts q pr : ps_procs s !! q = Some pr → is_Some (pr_fs pr) ∧ is_Some (pr_sighand pr);
  ok_signal q pr : ps_procs s !! q = Some pr → ∃ sig, pr_signal pr = Some sig ∧ is_Some (ps_signal s !! sig);
  ok_threads sig g : ps_signal s !! sig = Some g → sig_nr_threads g = holders pr_signal sig (ps_procs s);
  ok_group q1 q2 pr1 pr2 : ps_procs s !! q1 = Some pr1 → ps_procs s !! q2 = Some pr2 → pr_signal pr1 = pr_signal pr2 →
    pr_tgid pr1 = pr_tgid pr2 ∧ pr_group_leader pr1 = pr_group_leader pr2 ∧ pr_sighand pr1 = pr_sighand pr2;
  ok_memory q1 q2 pr1 pr2 : ps_procs s !! q1 = Some pr1 → ps_procs s !! q2 = Some pr2 → pr_sighand pr1 = pr_sighand pr2 →
    pr_mm pr1 = pr_mm pr2;
  ok_leader q pr : ps_procs s !! q = Some pr →
    ∃ l, ps_procs s !! pr_group_leader pr = Some l ∧ pr_signal l = pr_signal pr ∧ 0 <= pr_exit_signal l;
}.

(** A caller of a well-formed system may fork. *)
Record caller (s : pstate) (cur : tid) (pc : proc) : Prop := {
  ca_cur : ∃ r, k_rqs (ps_k s) !! k_cpu (ps_k s) = Some r ∧ curr r = cur;
  ca_proc : ps_procs s !! cur = Some pc;
  ca_task : ∃ t, k_tasks (ps_k s) !! cur = Some t ∧ prio_ok t;
  ca_held q r : (q, r) ∈ ps_held s → is_Some (k_tasks (ps_k s) !! q);
  ca_delayed : (cur, res_delayed) ∉ ps_held s;
}.
Lemma caller_forkable x s cur pc : processes_ok x s → caller s cur pc → forkable s cur pc.
Proof.
  intros Hok [Hcur Hpc Ht Hh Hd]. destruct (ok_parts x s Hok _ _ Hpc) as [Hfs Hsh].
  destruct (ok_leader x s Hok _ _ Hpc) as (l&Hl&_). split; try done.
  - eapply exact_counted; [apply Hok|done].
  - split; [done|]. eapply exact_counted; [apply Hok|done].
  - split; [done|]. eapply exact_counted; [apply Hok|done].
  - eapply exact_counted; [apply Hok|done].
  - by eapply ok_signal.
Qed.

Lemma restored_ok x s0 cur s : restored s0 cur s → processes_ok x s0 → processes_ok x s.
Proof.
  intros [_ Hp _ [= Hf Hfs Hsh Hmm] Hsg _ _ _ _] [].
  split; rewrite ?Hp, ?Hf, ?Hfs, ?Hsh, ?Hmm, ?Hsg; done.
Qed.

(** Two processes of which one may be the new one. *)
Lemma pair_insert (R : proc → proc → Prop) (procs : gmap tid proc) p pr :
  (∀ a, R a a) → (∀ a b, R a b → R b a) →
  (∀ q1 q2 pr1 pr2, procs !! q1 = Some pr1 → procs !! q2 = Some pr2 → R pr1 pr2) →
  (∀ q' pr', procs !! q' = Some pr' → R pr' pr) →
  ∀ q1 q2 pr1 pr2, <[p := pr]> procs !! q1 = Some pr1 → <[p := pr]> procs !! q2 = Some pr2 → R pr1 pr2.
Proof.
  intros Hrefl Hsym Hold Hnew q1 q2 pr1 pr2 [[<- <-]|[_ H1]]%lookup_insert_Some [[<- <-]|[_ H2]]%lookup_insert_Some; eauto.
Qed.

(** A reference of a child that matches that of some process is the parent's. *)
Lemma taken_shared ref ext procs m0 m share old new q pr :
  exact ref ext procs m0 → taken share old new m0 m → is_Some new → procs !! q = Some pr → ref pr = new → share = true ∧ old = new.
Proof.
  intros He Ht [f ->] Hq Hr. unfold taken in Ht. destruct share; [by destruct Ht|]. destruct Ht as [Hn _].
  destruct (exact_counted ref ext procs m0 q pr He Hq f Hr) as (n&Hm&_). congruence.
Qed.

Section keeps.
Context (env : fork_env) (args : kernel_clone_args) (x : ext_refs) (s0 s : pstate) (cur p : tid) (pc pr : proc).
Context (Hok : processes_ok x s0) (Hca : ps_procs s0 !! cur = Some pc) (Hcr : created env args s0 cur pc p pr s)
  (Hsig : 0 <= ka_exit_signal args) (Hfl : flags_nested (ka_flags args)).

Lemma created_memory q pr' : ps_procs s0 !! q = Some pr' → pr_sighand pr' = pr_sighand pr → pr_mm pr' = pr_mm pr.
Proof.
  intros Hq He. destruct (cr_sighand _ _ _ _ _ _ _ _ Hcr) as [Ht Hs], (cr_mm _ _ _ _ _ _ _ _ Hcr) as [Htm Hm].
  destruct (taken_shared _ _ _ _ _ _ _ _ _ _ (ok_sighand _ _ Hok) Ht Hs Hq He) as [Hsh Hsp].
  rewrite (ok_memory _ _ Hok _ _ _ _ Hq Hca) by congruence. destruct Hfl as [_ Hvm]. rewrite Hvm in Htm by done.
  unfold taken in Htm. destruct (pr_mm pr); [by destruct Htm as [-> _]|auto].
Qed.
Lemma created_group q pr' : ps_procs s0 !! q = Some pr' → pr_signal pr' = pr_signal pr →
  pr_tgid pr' = pr_tgid pr ∧ pr_group_leader pr' = pr_group_leader pr ∧ pr_sighand pr' = pr_sighand pr.
Proof.
  intros Hq He. pose proof (cr_signal _ _ _ _ _ _ _ _ Hcr) as Hsg. pose proof (cr_ids _ _ _ _ _ _ _ _ Hcr) as [_ Hids].
  destruct (cr_sighand _ _ _ _ _ _ _ _ Hcr) as [Hsh _], (cr_sighand _ _ _ _ _ _ _ _ Hcr) as [_ [sh Hshp]].
  destruct (has (ka_flags args) CLONE_THREAD) eqn:Hth.
  - destruct Hsg as [Hs _], Hids as [-> ->]. destruct (ok_group _ _ Hok _ _ _ _ Hq Hca) as (?&?&Hsp); [congruence|].
    split_and!; [done|done|]. rewrite (proj1 Hfl Hth), Hshp in Hsh. destruct Hsh as [Ho _]. congruence.
  - destruct Hsg as (sig&g&Hs&Hn&_). destruct (ok_signal _ _ Hok _ _ Hq) as (sig'&Hs'&[g' Hg']). congruence.
Qed.

Lemma created_threads sig g : ps_signal s !! sig = Some g → sig_nr_threads g = holders pr_signal sig (ps_procs s).
Proof.
  destruct (cr_fresh _ _ _ _ _ _ _ _ Hcr) as [Hfr _]. rewrite (cr_procs _ _ _ _ _ _ _ _ Hcr), holders_insert by done.
  pose proof (cr_signal _ _ _ _ _ _ _ _ Hcr) as Hsg. destruct (has (ka_flags args) CLONE_THREAD).
  - destruct Hsg as (Hs&sig'&Hs'&->). rewrite Hs, Hs'. destruct (decide (sig = sig')) as [->|Hne].
    + rewrite lookup_alter_eq, decide_True by done. destruct (ps_signal s0 !! sig') as [g0|] eqn:Hg0; [|done].
      intros [= <-]. cbn. by rewrite (ok_threads _ _ Hok _ _ Hg0).
    + rewrite lookup_alter_ne, decide_False by congruence. intros Hg. rewrite (ok_threads _ _ Hok _ _ Hg). lia.
  - destruct Hsg as (sig'&g'&Hs&Hn&->&Hone). rewrite Hs. destruct (decide (sig = sig')) as [->|Hne].
    + rewrite lookup_insert_eq, decide_True by done. intros [= <-]. rewrite Hone.
      assert (holders pr_signal sig' (ps_procs s0) = 0) as ->; [|done]. unfold holders.
      rewrite map_empty_filter_2; [done|]. intros q pr' Hq He. destruct (ok_signal _ _ Hok _ _ Hq) as (sig''&Hs''&[]). cbn in He. congruence.
    + rewrite lookup_insert_ne, decide_False by congruence. intros Hg. rewrite (ok_threads _ _ Hok _ _ Hg). lia.
Qed.

Lemma created_signal q pr' : ps_procs s !! q = Some pr' → ∃ sig, pr_signal pr' = Some sig ∧ is_Some (ps_signal s !! sig).
Proof.
  assert (∀ sig, is_Some (ps_signal s0 !! sig) → is_Some (ps_signal s !! sig)) as Hkeep.
  { intros sig [g Hg]. pose proof (cr_signal _ _ _ _ _ _ _ _ Hcr) as Hsg. destruct (has (ka_flags args) CLONE_THREAD).
    - destruct Hsg as (_&sig'&_&->). by rewrite lookup_alter_is_Some, Hg.
    - destruct Hsg as (sig'&g'&_&_&->&_). rewrite lookup_insert_is_Some. destruct (decide (sig' = sig)); eauto. }
  rewrite (cr_procs _ _ _ _ _ _ _ _ Hcr). intros [[<- <-]|[_ Hq]]%lookup_insert_Some.
  - pose proof (cr_signal _ _ _ _ _ _ _ _ Hcr) as Hsg. destruct (has (ka_flags args) CLONE_THREAD).
    + destruct Hsg as (->&_). destruct (ok_signal _ _ Hok _ _ Hca) as (sig&Hs&Hg). eauto.
    + destruct Hsg as (sig&g&Hs&_&->&_). exists sig. by rewrite lookup_insert_eq.
  - destruct (ok_signal _ _ Hok _ _ Hq) as (sig&Hs&Hg). eauto.
Qed.

Lemma created_leader q pr' : ps_procs s !! q = Some pr' →
  ∃ l, ps_procs s !! pr_group_leader pr' = Some l ∧ pr_signal l = pr_signal pr' ∧ 0 <= pr_exit_signal l.
Proof.
  destruct (cr_fresh _ _ _ _ _ _ _ _ Hcr) as [Hfr _]. rewrite (cr_procs _ _ _ _ _ _ _ _ Hcr).
  assert (∀ q' pr', ps_procs s0 !! q' = Some pr' →
    ∃ l, <[p := pr]> (ps_procs s0) !! pr_group_leader pr' = Some l ∧ pr_signal l = pr_signal pr' ∧ 0 <= pr_exit_signal l) as Hold.
  { intros q' pr2 Hq. destruct (ok_leader _ _ Hok _ _ Hq) as (l&Hl&?&?). exists l. rewrite lookup_insert_ne by congruence. done. }
  intros [[<- <-]|[_ Hq]]%lookup_insert_Some; [|eauto].
  pose proof (cr_ids _ _ _ _ _ _ _ _ Hcr) as [_ Hids]. pose proof (cr_signal _ _ _ _ _ _ _ _ Hcr) as Hsg.
  pose proof (cr_family _ _ _ _ _ _ _ _ Hcr) as Hfam. unfold family in Hfam. destruct (has (ka_flags args) CLONE_THREAD).
  - destruct Hids as [_ ->], Hsg as [-> _]. eauto.
  - destruct Hids as [_ ->]. exists pr. rewrite lookup_insert_eq. split_and!; [done|done|].
    destruct (has (ka_flags args) CLONE_PARENT); [|by destruct Hfam as [-> _]]. destruct Hfam as [(l&Hl&->) _].
    destruct (ok_leader _ _ Hok _ _ Hca) as (l'&Hl'&_&?). congruence.
Qed.

Lemma created_ok : processes_ok x s.
Proof.
  pose proof (cr_procs _ _ _ _ _ _ _ _ Hcr) as Hp. destruct (cr_fresh _ _ _ _ _ _ _ _ Hcr) as [Hfr _].
  assert (∀ ref ext m f, exact ref ext (ps_procs s0) m → ref pc = Some f → is_Some (m !! f)) as Hold.
  { intros ref ext m f He Hf. destruct (exact_counted _ _ _ _ _ _ He Hca f Hf) as (n&Hn&_). by exists n. }
  split.
  - rewrite Hp. eapply exact_taken; [done|apply Hcr|intros; eapply Hold; [apply Hok|done]|apply Hok].
  - rewrite Hp. eapply exact_taken; [done|apply Hcr|intros; eapply Hold; [apply Hok|done]|apply Hok].
  - rewrite Hp. eapply exact_taken; [done|apply Hcr|intros; eapply Hold; [apply Hok|done]|apply Hok].
  - rewrite Hp. eapply exact_taken; [done|apply Hcr|intros; eapply Hold; [apply Hok|done]|apply Hok].
  - rewrite Hp. intros q pr' [[<- <-]|[_ Hq]]%lookup_insert_Some; [split; apply Hcr|by eapply ok_parts].
  - apply created_signal.
  - apply created_threads.
  - rewrite Hp. intros q1 q2 pr1 pr2 H1 H2.
    apply (pair_insert (λ a b, pr_signal a = pr_signal b → pr_tgid a = pr_tgid b ∧ pr_group_leader a = pr_group_leader b ∧ pr_sighand a = pr_sighand b)
             (ps_procs s0) p pr) with q1 q2; try done; [|apply Hok|apply created_group].
    intros a b Hab He. symmetry in He. destruct (Hab He) as (?&?&?). done.
  - rewrite Hp. intros q1 q2 pr1 pr2 H1 H2.
    apply (pair_insert (λ a b, pr_sighand a = pr_sighand b → pr_mm a = pr_mm b) (ps_procs s0) p pr) with q1 q2; try done.
    + intros a b Hab He. symmetry in He |- *. auto.
    + apply Hok.
    + apply created_memory.
  - apply created_leader.
Qed.
End keeps.

Section theorems.
Context {L : RbLib} {TC : TickConfig} {SM : SmpLib} {UC : UclampConfig} {E : Ext} {OC : OtherClasses} {CL : CpuLib}
  {FL : ForkLib} {SL : SysLib} {AL : AffLib} {PL : ProcLib} {PW : ProcLaws PL} {SF : SchedFork}.

Lemma ok_leader_signal x s0 cur pc : processes_ok x s0 → ps_procs s0 !! cur = Some pc →
  ∀ l, ps_procs s0 !! pr_group_leader pc = Some l → 0 <= pr_exit_signal l.
Proof. intros Hok Hpc l Hl. destruct (ok_leader _ _ Hok _ _ Hpc) as (l'&Hl'&_&?). congruence. Qed.

(** C22: In a system whose counts are exact, [copy_process] never oopses, whatever the flags
    and whichever of the calls it makes fail.  On an error every reference count, every
    resource held by another subsystem, every process, run queue and task is as before,
    but for a flag of the caller; otherwise there is one new process, which shares with
    the caller what the flags say and has copies of the rest. *)
Theorem copy_process_all_or_nothing env args x s0 cur pc :
  processes_ok x s0 → caller s0 cur pc → env_pid env ≠ 0 → 0 <= ka_exit_signal args →
  ∃ r s, copy_process env false args s0 = Ok (r, s) ∧
    match r with
    | inl e => e ≠ 0 ∧ restored s0 cur s
    | inr p => ∃ pr, created env args s0 cur pc p pr s
    end.
Proof.
  intros Hok Hca Hpid Hsig. pose proof (caller_forkable _ _ _ _ Hok Hca) as Hfb.
  destruct (fwp_inv _ _ _ (copy_process_ends env args s0 cur pc Hfb Hpid Hsig (ok_leader_signal _ _ _ _ Hok (ca_proc _ _ _ Hca)))) as (r&s&Hr&Hp).
  exists r, s. split; [done|]. destruct r; [done|apply Hp].
Qed.

(** C23: Failed or not, [copy_process] keeps the counts of shared structures equal to the number
    of processes that refer to them, the thread counts exact, threads of a group with one
    leader, number and set of handlers, and processes with the same handlers in the same
    memory. *)
Theorem copy_process_keeps_processes env args x s0 cur pc r s :
  processes_ok x s0 → caller s0 cur pc → env_pid env ≠ 0 → 0 <= ka_exit_signal args →
  copy_process env false args s0 = Ok (r, s) → processes_ok x s.
Proof.
  intros Hok Hca Hpid Hsig Hr. pose proof (caller_forkable _ _ _ _ Hok Hca) as Hfb.
  pose proof (copy_process_ends env args s0 cur pc Hfb Hpid Hsig (ok_leader_signal _ _ _ _ Hok (ca_proc _ _ _ Hca))) as Hp.
  unfold fwp in Hp. rewrite Hr in Hp. destruct r as [e|p].
  - eapply restored_ok; [apply Hp|done].
  - destruct Hp as (Hfl&pr&Hcr). eapply created_ok; [done|apply Hca|done..].
Qed.

(** ** clone and clone3 *)

(** The structure that asks [clone3] for what the arguments ask [clone] for. *)
Definition clone3_of (clone_flags parent_tidptr child_tidptr tls stack size : Z) : clone_args :=
  {| ua_flags := Z.land (lower_32_bits clone_flags) (Z.lnot CSIGNAL); ua_pidfd := parent_tidptr; ua_child_tid := child_tidptr;
     ua_parent_tid := parent_tidptr; ua_exit_signal := Z.land (lower_32_bits clone_flags) CSIGNAL; ua_stack := stack;
     ua_stack_size := size; ua_tls := tls; ua_set_tid := 0; ua_set_tid_size := 0; ua_cgroup := 0 |}.

Lemma legacy_bits fl m :
  Z.land (Z.land (lower_32_bits fl) (Z.lnot CSIGNAL)) m = Z.land fl (Z.land (Z.land 0xffffffff (Z.lnot CSIGNAL)) m).
Proof. unfold lower_32_bits. by rewrite !Z.land_assoc. Qed.
Lemma legacy_signal fl :
  Z.land (Z.land (lower_32_bits fl) CSIGNAL) (Z.lnot CSIGNAL) = 0.
Proof. rewrite <-!Z.land_assoc. change (Z.land CSIGNAL (Z.lnot CSIGNAL)) with 0. by rewrite !Z.land_0_r. Qed.

(** [clone] is [clone3] with the signal taken out of the flags and the end of the stack
    computed from its start and size, for the flags both admit. *)
Theorem clone_is_clone3 access_ok env clone_flags newsp parent_tidptr child_tidptr tls stack size :
  has clone_flags CLONE_DETACHED = false →
  (has clone_flags (Z.lor CLONE_THREAD CLONE_PARENT) = true → Z.land (lower_32_bits clone_flags) CSIGNAL = 0) →
  valid_signal (Z.land (lower_32_bits clone_flags) CSIGNAL) = true →
  (stack = 0 ∧ size = 0 ∧ newsp = 0 ∨ stack ≠ 0 ∧ 0 < size ∧ access_ok stack size = true ∧ newsp = u64 (stack + size)) →
  sys_clone3 access_ok env (inr (clone3_of clone_flags parent_tidptr child_tidptr tls stack size)) None CLONE_ARGS_SIZE_VER2 =
  sys_clone env clone_flags newsp parent_tidptr child_tidptr tls.
Proof.
  intros Hdet Hsig Hval Hstk. unfold sys_clone3, copy_clone_args_from_user, clone3_of. cbn -[Z.land Z.lnot valid_signal has].
  rewrite legacy_signal, Hval. unfold has at 1. rewrite legacy_bits. change (Z.land (Z.land 0xffffffff (Z.lnot CSIGNAL)) CLONE_INTO_CGROUP) with 0.
  rewrite Z.land_0_r. cbn -[Z.land Z.lnot has]. unfold clone3_args_valid. cbn -[Z.land Z.lnot has clone3_stack_valid flags has_all Z.lor].
  rewrite legacy_bits. change (Z.land (Z.land 0xffffffff (Z.lnot CSIGNAL)) _) with 0 at 1. rewrite Z.land_0_r. cbn -[Z.land Z.lnot has clone3_stack_valid flags has_all Z.lor].
  assert (∀ m m', Z.land (Z.land 0xffffffff (Z.lnot CSIGNAL)) m = m' →
    has (Z.land (lower_32_bits clone_flags) (Z.lnot CSIGNAL)) m = has clone_flags m') as Hhas.
  { intros m m' <-. unfold has. by rewrite legacy_bits. }
  rewrite (Hhas (Z.lor CLONE_DETACHED (Z.land CSIGNAL (Z.lnot CLONE_NEWTIME))) CLONE_DETACHED eq_refl), Hdet.
  assert (has_all (Z.land (lower_32_bits clone_flags) (Z.lnot CSIGNAL)) (Z.lor CLONE_SIGHAND CLONE_CLEAR_SIGHAND) = false) as ->.
  { unfold has_all. rewrite legacy_bits. apply Z.eqb_neq. intros He. apply (f_equal (λ z, Z.testbit z 32)) in He.
    rewrite Z.land_spec in He. cbn in He. by rewrite andb_false_r in He. }
  rewrite (Hhas (Z.lor CLONE_THREAD CLONE_PARENT) (Z.lor CLONE_THREAD CLONE_PARENT) eq_refl).
  assert (has clone_flags (Z.lor CLONE_THREAD CLONE_PARENT) && negb (Z.land (lower_32_bits clone_flags) CSIGNAL =? 0) = false) as ->.
  { destruct (has clone_flags (Z.lor CLONE_THREAD CLONE_PARENT)); [|done]. by rewrite Hsig. }
  unfold clone3_stack_valid. cbn -[Z.land Z.lnot kernel_clone].
  destruct Hstk as [(->&->&->)|(Hs&Hz&Ha&->)]; [done|]. destruct (Z.eqb_spec stack 0); [done|]. destruct (Z.eqb_spec size 0); [lia|].
  rewrite Ha. reflexivity.
Qed.
End theorems.
