(* ===== verification/Unshare.v ===== *)
(** Undoing what a clone shares (kernel/fork.c): [unshare] replaces the file system
    structure and the open files of the caller by copies of their own, and the limit on
    the number of threads.  A failed [unshare] leaves the process as it was; it leaks the
    namespaces it has prepared when the last check fails. *)
From S2P Require Import Prelude Rbtree KState HvfValue HvfClass HvfSmp Policy Uclamp Core Schedule Load Setsched Wakeup Affinity Fork ForkSched ForkBuild ForkSpec.

(** What the functions outside the repository answer: errors of the copies and of the
    namespaces, whether new credentials and namespaces were prepared, and the two tests on
    the threads of the caller. *)
Record unshare_env := {
  ue_group_empty : bool; ue_single_threaded : bool; ue_copy_fs : bool; ue_dup_fd : Z; ue_userns : Z; ue_new_cred : bool;
  ue_nsproxy : Z; ue_new_nsproxy : bool; ue_ucounts : Z
}.

Section unshare.
Context {L : RbLib} {TC : TickConfig} {SM : SmpLib} {UC : UclampConfig} {E : Ext} {OC : OtherClasses} {CL : CpuLib}
  {FL : ForkLib} {SL : SysLib} {AL : AffLib} {PL : ProcLib}.
Context (u : unshare_env).

Definition unshare_known : Z :=
  flags [CLONE_THREAD; CLONE_FS; CLONE_NEWNS; CLONE_SIGHAND; CLONE_VM; CLONE_FILES; CLONE_SYSVSEM; CLONE_NEWUTS;
         CLONE_NEWIPC; CLONE_NEWNET; CLONE_NEWUSER; CLONE_NEWPID; CLONE_NEWCGROUP; CLONE_NEWTIME].
Definition check_unshare_flags (unshare_flags : Z) : F Z :=
  pc ← current_proc;
  if negb (Z.land unshare_flags (Z.lnot unshare_known) =? 0) then mret (- EINVAL) else
  if has unshare_flags (flags [CLONE_THREAD; CLONE_SIGHAND; CLONE_VM]) && negb (ue_group_empty u) then mret (- EINVAL) else
  shared ← (if has unshare_flags (Z.lor CLONE_SIGHAND CLONE_VM) then
              sh ← fderef (pr_sighand pc);
              fget (λ s, match ps_sighand s !! sh with Some n => 1 <? n | None => false end)
            else mret false);
  if shared : bool then mret (- EINVAL) else
  if has unshare_flags CLONE_VM && negb (ue_single_threaded u) then mret (- EINVAL) else
  mret 0.

(** The error and the new structure. *)
Definition unshare_fs (unshare_flags : Z) : F (Z * option nat) :=
  pc ← current_proc;
  match pr_fs pc with
  | None => mret (0, None)
  | Some fs =>
      if negb (has unshare_flags CLONE_FS) then mret (0, None) else
      users ← fget (λ s, default 0 (ps_fs s !! fs));
      if users =? 1 then mret (0, None) else
      if negb (ue_copy_fs u) then mret (- ENOMEM, None) else
      new_fs ← fget (λ s, new_ref (ps_fs s));
      fmodify (λ s, s <| ps_fs := <[new_fs := 1]> (ps_fs s) |>);;
      mret (0, Some new_fs)
  end.
Definition unshare_fd (unshare_flags : Z) : F (Z * option nat) :=
  pc ← current_proc;
  match pr_files pc with
  | None => mret (0, None)
  | Some fd =>
      count ← fget (λ s, default 0 (ps_files s !! fd));
      if has unshare_flags CLONE_FILES && (1 <? count) then
        if ue_dup_fd u <? 0 then mret (ue_dup_fd u, None) else
        new_fd ← fget (λ s, new_ref (ps_files s));
        fmodify (λ s, s <| ps_files := <[new_fd := 1]> (ps_files s) |>);;
        mret (0, Some new_fd)
      else mret (0, None)
  end.

Definition put_files_struct (f : nat) : F unit := fmodify (λ s, s <| ps_files := put_ref f (ps_files s) |>).
Definition free_fs_struct (f : nat) : F unit := fmodify (λ s, s <| ps_fs := delete f (ps_fs s) |>).
Definition opt_do {A} (o : option A) (f : A → F unit) : F unit := match o with Some a => f a | None => fskip end.

(** What the caller asked for implies. *)
Definition widen (unshare_flags : Z) : Z :=
  let f := unshare_flags in
  let f := if has f CLONE_NEWUSER then Z.lor f (Z.lor CLONE_THREAD CLONE_FS) else f in
  let f := if has f CLONE_VM then Z.lor f CLONE_SIGHAND else f in
  let f := if has f CLONE_SIGHAND then Z.lor f CLONE_THREAD else f in
  if has f CLONE_NEWNS then Z.lor f CLONE_FS else f.

(** The end of the function, from each label. *)
Definition bad_unshare_cleanup_fs (new_fs : option nat) (err : Z) : F Z := opt_do new_fs free_fs_struct;; mret err.
Definition bad_unshare_cleanup_fd (new_fd new_fs : option nat) (err : Z) : F Z :=
  opt_do new_fd put_files_struct;; bad_unshare_cleanup_fs new_fs err.
Definition bad_unshare_cleanup_cred (cur : tid) (new_cred : bool) (new_fd new_fs : option nat) (err : Z) : F Z :=
  fwhen new_cred (release cur res_new_creds);; bad_unshare_cleanup_fd new_fd new_fs err.

(** The new file system structure is installed; the result is what is left to free. *)
Definition install_fs (cur : tid) (new_fs : option nat) : F (option nat) :=
  match new_fs with
  | None => mret None
  | Some new =>
      pc ← process cur;
      fs ← fderef (pr_fs pc);
      upd_process cur (λ pr, pr <| pr_fs := Some new |>);;
      fmodify (λ s, s <| ps_fs := alter (λ n, n - 1) fs (ps_fs s) |>);;
      users ← fget (λ s, default 0 (ps_fs s !! fs));
      mret (if users =? 0 then Some fs else None)
  end.
Definition install_fd (cur : tid) (new_fd : option nat) : F (option nat) :=
  match new_fd with
  | None => mret None
  | Some new =>
      pc ← process cur;
      upd_process cur (λ pr, pr <| pr_files := Some new |>);;
      mret (pr_files pc)
  end.

Definition ksys_unshare (unshare_flags : Z) : F Z :=
  let unshare_flags := widen unshare_flags in
  err ← check_unshare_flags unshare_flags;
  if negb (err =? 0) then mret err else
  cur ← current_task;
  let do_sysvsem := has unshare_flags (Z.lor CLONE_NEWIPC CLONE_SYSVSEM) in
  '(err, new_fs) ← unshare_fs unshare_flags;
  if negb (err =? 0) then mret err else
  '(err, new_fd) ← unshare_fd unshare_flags;
  if negb (err =? 0) then bad_unshare_cleanup_fs new_fs err else
  if negb (ue_userns u =? 0) then bad_unshare_cleanup_fd new_fd new_fs (ue_userns u) else
  fwhen (ue_new_cred u) (hold cur res_new_creds);;
  if negb (ue_nsproxy u =? 0) then bad_unshare_cleanup_cred cur (ue_new_cred u) new_fd new_fs (ue_nsproxy u) else
  fwhen (ue_new_nsproxy u) (hold cur res_new_namespaces);;
  if ue_new_cred u && negb (ue_ucounts u =? 0)
  then bad_unshare_cleanup_cred cur (ue_new_cred u) new_fd new_fs (ue_ucounts u) else
  fwhen do_sysvsem (unhold cur res_semundo);;
  fwhen (ue_new_nsproxy u) (release cur res_new_namespaces);;
  new_fs ← install_fs cur new_fs;
  new_fd ← install_fd cur new_fd;
  fwhen (ue_new_cred u) (release cur res_new_creds);;
  bad_unshare_cleanup_cred cur false new_fd new_fs 0.

Definition unshare_files : F Z :=
  '(error, copy) ← unshare_fd CLONE_FILES;
  match copy with
  | None => mret error
  | Some copy =>
      if negb (error =? 0) then mret error else
      task ← current_task;
      pc ← process task;
      upd_process task (λ pr, pr <| pr_files := Some copy |>);;
      opt_do (pr_files pc) put_files_struct;;
      mret 0
  end.

(** * The number of threads *)

Definition MIN_THREADS := 20.
(** [FUTEX_TID_MASK]. *)
Definition MAX_THREADS := 0x3fffffff.
Definition fls64 (n : Z) : Z := if n =? 0 then 0 else Z.log2 n + 1.

(** [thread_size] is [THREAD_SIZE] of the architecture; products are of 64 bits. *)
Definition max_threads_for (nr_pages thread_size max_threads_suggested : Z) : Z :=
  let threads := if 64 <? fls64 nr_pages + fls64 PAGE_SIZE then MAX_THREADS
                 else u64 (nr_pages * PAGE_SIZE) / u64 (thread_size * 8) in
  let threads := if max_threads_suggested <? threads then max_threads_suggested else threads in
  Z.min (Z.max threads MIN_THREADS) MAX_THREADS.
Definition set_max_threads (nr_pages thread_size max_threads_suggested : Z) : F unit :=
  fmodify (λ s, s <| ps_max_threads := max_threads_for nr_pages thread_size max_threads_suggested |>).

(** [value]: what [proc_dointvec_minmax] parses between the bounds it is given, or its
    error. *)
Definition sysctl_max_threads (value : Z → Z → Z + Z) (write : bool) : F Z :=
  match value 1 MAX_THREADS with
  | inl ret => mret ret
  | inr threads => if negb write then mret 0 else fmodify (λ s, s <| ps_max_threads := threads |>);; mret 0
  end.

(** * What unshare does *)

(** A state in which only the parts [unshare] works on differ from [s]. *)
Definition mid (s : pstate) (procs : gmap tid proc) (fs files : gmap nat Z) (held : gset (tid * resource)) : pstate :=
  s <| ps_procs := procs |> <| ps_fs := fs |> <| ps_files := files |> <| ps_held := held |>.
Lemma mid_id s : mid s (ps_procs s) (ps_fs s) (ps_files s) (ps_held s) = s.
Proof. by destruct s. Qed.

Section run.
Context (x : ext_refs) (s0 : pstate) (cur : tid) (pc : proc) (Hok : processes_ok x s0) (Hca : caller s0 cur pc).
Context (Hno : ∀ r, r ∈ [res_new_creds; res_new_namespaces] → (cur, r) ∉ ps_held s0).

Lemma drop_new (y : tid * resource) (h : gset (tid * resource)) : (y ∉ h) → ({[y]} ∪ h) ∖ {[y]} = h.
Proof. set_solver. Qed.
Lemma drop_other (y z : tid * resource) (h : gset (tid * resource)) : y ≠ z → ({[y]} ∪ h) ∖ {[z]} = {[y]} ∪ h ∖ {[z]}.
Proof. set_solver. Qed.
Lemma not_dropped (y z : tid * resource) (h : gset (tid * resource)) : (y ∉ h) → (y ∉ h ∖ {[z]}).
Proof. set_solver. Qed.

Lemma still_held (y z : tid * resource) (h : gset (tid * resource)) : y ≠ z → y ∈ h → y ∈ h ∖ {[z]}.
Proof. set_solver. Qed.
Lemma not_added (y z : tid * resource) (h : gset (tid * resource)) : y ≠ z → (y ∉ h) → (y ∉ {[z]} ∪ h).
Proof. set_solver. Qed.

Lemma mid_fs g procs fs files held Q :
  Q tt (mid s0 procs (g fs) files held) → fwp (fmodify (λ s, s <| ps_fs := g (ps_fs s) |>)) (mid s0 procs fs files held) Q.
Proof. done. Qed.
Lemma mid_files g procs fs files held Q :
  Q tt (mid s0 procs fs (g files) held) → fwp (fmodify (λ s, s <| ps_files := g (ps_files s) |>)) (mid s0 procs fs files held) Q.
Proof. done. Qed.
Lemma mid_held g procs fs files held Q :
  Q tt (mid s0 procs fs files (g held)) → fwp (fmodify (λ s, s <| ps_held := g (ps_held s) |>)) (mid s0 procs fs files held) Q.
Proof. done. Qed.
Lemma mid_hold b r procs fs files held Q :
  Q tt (mid s0 procs fs files (if b : bool then {[(cur, r)]} ∪ held else held)) → fwp (fwhen b (hold cur r)) (mid s0 procs fs files held) Q.
Proof. by destruct b. Qed.
Lemma mid_unhold b r procs fs files held Q :
  Q tt (mid s0 procs fs files (if b : bool then held ∖ {[(cur, r)]} else held)) → fwp (fwhen b (unhold cur r)) (mid s0 procs fs files held) Q.
Proof. by destruct b. Qed.
Lemma mid_release (b : bool) r procs fs files held Q :
  (b = true → (cur, r) ∈ held) →
  Q tt (mid s0 procs fs files (if b then held ∖ {[(cur, r)]} else held)) → fwp (fwhen b (release cur r)) (mid s0 procs fs files held) Q.
Proof. intros Hin HQ. destruct b; cbn [fwhen]; [|done]. apply fwp_release; [by apply Hin|exact HQ]. Qed.
Lemma mid_current procs fs files held Q :
  Q cur (mid s0 procs fs files held) → fwp current_task (mid s0 procs fs files held) Q.
Proof.
  intros HQ. destruct (ca_cur _ _ _ Hca) as (r&Hr&Hcr). unfold current_task. apply fwp_sched. eapply wp_current; [exact Hr|].
  rewrite Hcr. exact HQ.
Qed.
Lemma mid_process procs fs files held pr Q :
  procs !! cur = Some pr → Q pr (mid s0 procs fs files held) → fwp (process cur) (mid s0 procs fs files held) Q.
Proof. intros Hp. by apply fwp_process. Qed.
Lemma mid_upd f procs fs files held pr Q :
  procs !! cur = Some pr → Q tt (mid s0 (<[cur := f pr]> procs) fs files held) → fwp (upd_process cur f) (mid s0 procs fs files held) Q.
Proof. intros Hp HQ. unfold upd_process. apply fwp_bind. by eapply mid_process. Qed.
Lemma mid_current_proc procs fs files held pr Q :
  procs !! cur = Some pr → Q pr (mid s0 procs fs files held) → fwp current_proc (mid s0 procs fs files held) Q.
Proof. intros Hp HQ. unfold current_proc. apply fwp_bind, mid_current. by eapply mid_process. Qed.

(** The new structure, if there is one, has one reference. *)
Definition grown (o : option nat) (m : gmap nat Z) : gmap nat Z := match o with Some i => <[i := 1]> m | None => m end.
(** Why there is a new structure, or none: it is shared, or asked for it is already the
    caller's own. *)
Definition needed (asked : bool) (old o : option nat) (m : gmap nat Z) : Prop :=
  match o with
  | Some i => m !! i = None ∧ ∃ f n, old = Some f ∧ m !! f = Some n ∧ 1 < n
  | None => asked = true → ∀ f, old = Some f → m !! f = Some 1
  end.

Lemma needed_nothing asked old m : asked = false ∨ old = None → needed asked old None m.
Proof. by intros [-> | ->]. Qed.

Lemma unshare_fs_spec fl files held :
  fwp (unshare_fs fl) (mid s0 (ps_procs s0) (ps_fs s0) files held) (λ r s', ∃ o,
    s' = mid s0 (ps_procs s0) (grown o (ps_fs s0)) files held ∧
    if r.1 =? 0 then r.2 = o ∧ needed (has fl CLONE_FS) (pr_fs pc) o (ps_fs s0) else o = None).
Proof.
  unfold unshare_fs. apply fwp_bind. eapply mid_current_proc; [apply Hca|]. destruct (pr_fs pc) as [f|] eqn:Hf.
  2: { apply fwp_ret. exists None. split; [done|split; [done|apply needed_nothing; by right]]. }
  destruct (has fl CLONE_FS); cbn [negb]; [|apply fwp_ret; exists None; split; [done|split; [done|apply needed_nothing; by left]]].
  destruct (exact_counted _ _ _ _ _ _ (ok_fs _ _ Hok) (ca_proc _ _ _ Hca) f Hf) as (n&Hn&Hge).
  apply fwp_bind, fwp_get. change (ps_fs (mid _ _ _ _ _)) with (ps_fs s0). rewrite Hn. cbn [default from_option id].
  destruct (Z.eqb_spec n 1) as [->|Hn1].
  { apply fwp_ret. exists None. do 2 (split; [done|]). intros _ f' [= <-]. done. }
  destruct (ue_copy_fs u); cbn [negb]; cbv iota; [|apply fwp_ret; by exists None].
  apply fwp_bind, fwp_get. apply fwp_bind. apply (mid_fs (λ m, <[_ := 1]> m)). apply fwp_ret. eexists (Some _). do 2 (split; [done|]). split.
  - apply new_ref_fresh.
  - exists f, n. split_and!; [done|done|lia].
Qed.
Lemma unshare_fd_spec fl fs held :
  fwp (unshare_fd fl) (mid s0 (ps_procs s0) fs (ps_files s0) held) (λ r s', ∃ o,
    s' = mid s0 (ps_procs s0) fs (grown o (ps_files s0)) held ∧
    if r.1 =? 0 then r.2 = o ∧ needed (has fl CLONE_FILES) (pr_files pc) o (ps_files s0) else o = None).
Proof.
  unfold unshare_fd. apply fwp_bind. eapply mid_current_proc; [apply Hca|]. destruct (pr_files pc) as [f|] eqn:Hf.
  2: { apply fwp_ret. exists None. split; [done|split; [done|apply needed_nothing; by right]]. }
  destruct (exact_counted _ _ _ _ _ _ (ok_files _ _ Hok) (ca_proc _ _ _ Hca) f Hf) as (n&Hn&Hge).
  apply fwp_bind, fwp_get. change (ps_files (mid _ _ _ _ _)) with (ps_files s0). rewrite Hn. cbn [default from_option id].
  destruct (has fl CLONE_FILES); cbn [andb]; [|apply fwp_ret; exists None; split; [done|split; [done|apply needed_nothing; by left]]].
  destruct (Z.ltb_spec 1 n).
  - destruct (Z.ltb_spec (ue_dup_fd u) 0).
    { apply fwp_ret. exists None. split; [done|]. cbn. destruct (Z.eqb_spec (ue_dup_fd u) 0); [lia|done]. }
    apply fwp_bind, fwp_get. apply fwp_bind. apply (mid_files (λ m, <[_ := 1]> m)). apply fwp_ret. eexists (Some _). do 2 (split; [done|]). split.
    + apply new_ref_fresh.
    + by exists f, n.
  - apply fwp_ret. exists None. do 2 (split; [done|]). intros _ f' [= <-]. assert (n = 1) as -> by lia. done.
Qed.

(** The cleanups undo the copies. *)
Lemma cleanup_fs o asked err files held (Q : Z → pstate → Prop) :
  needed asked (pr_fs pc) o (ps_fs s0) → Q err (mid s0 (ps_procs s0) (ps_fs s0) files held) →
  fwp (bad_unshare_cleanup_fs o err) (mid s0 (ps_procs s0) (grown o (ps_fs s0)) files held) Q.
Proof.
  intros Hn HQ. apply fwp_bind. destruct o as [i|]; cbn [opt_do grown]; [|by apply fwp_skip, fwp_ret].
  apply (mid_fs (λ m, delete i m)). destruct Hn as [Hi _]. rewrite delete_insert_id by done. by apply fwp_ret.
Qed.
Lemma cleanup_fd o o' asked asked' err held (Q : Z → pstate → Prop) :
  needed asked (pr_fs pc) o (ps_fs s0) → needed asked' (pr_files pc) o' (ps_files s0) →
  Q err (mid s0 (ps_procs s0) (ps_fs s0) (ps_files s0) held) →
  fwp (bad_unshare_cleanup_fd o' o err) (mid s0 (ps_procs s0) (grown o (ps_fs s0)) (grown o' (ps_files s0)) held) Q.
Proof.
  intros Hn Hn' HQ. apply fwp_bind. destruct o' as [i|]; cbn [opt_do grown]; [|apply fwp_skip; by eapply cleanup_fs].
  apply (mid_files (put_ref i)). destruct Hn' as [Hi _]. rewrite put_new by done. by eapply cleanup_fs.
Qed.

(** The caller afterwards. *)
Definition own (o : option nat) (old : option nat) : option nat := match o with Some i => Some i | None => old end.
Definition unshared_proc (o o' : option nat) : proc := pc <| pr_fs := own o (pr_fs pc) |> <| pr_files := own o' (pr_files pc) |>.
Definition left (o old : option nat) (m : gmap nat Z) : gmap nat Z :=
  match o, old with Some i, Some f => alter (λ n, n - 1) f (<[i := 1]> m) | _, _ => m end.

Lemma left_own o old m f : needed true old o m → own o old = Some f → left o old m !! f = Some 1.
Proof.
  destruct o as [i|]; cbn; [|auto]. intros (Hi&f'&n&->&Hf&Hn) [= ->]. rewrite lookup_alter_ne by congruence. apply lookup_insert_eq.
Qed.
Lemma left_exact ref ext procs o m q pr pr' asked :
  exact ref ext procs m → procs !! q = Some pr → ref pr' = own o (ref pr) → needed asked (ref pr) o m →
  exact ref ext (<[q := pr']> procs) (left o (ref pr) m).
Proof.
  intros He Hq Hr Hn. destruct o as [i|]; cbn in *; [|by eapply exact_same].
  destruct Hn as (Hi&f&n&Hf&Hm&Hgt). rewrite Hf. by eapply exact_leave.
Qed.
Lemma put_left i f n m : m !! i = None → m !! f = Some n → 1 < n → put_ref f (<[i := 1]> m) = alter (λ n, n - 1) f (<[i := 1]> m).
Proof.
  intros Hi Hf Hn. assert (i ≠ f) by congruence. unfold put_ref. rewrite lookup_insert_ne, Hf by done.
  destruct (Z.eqb_spec (n - 1) 0); [lia|]. apply map_eq. intros j. destruct (decide (j = f)) as [->|].
  - by rewrite lookup_insert_eq, lookup_alter_eq, lookup_insert_ne, Hf.
  - by rewrite lookup_insert_ne, lookup_alter_ne.
Qed.

Lemma install_fs_spec o asked files held (Q : option nat → pstate → Prop) :
  needed asked (pr_fs pc) o (ps_fs s0) →
  Q None (mid s0 (<[cur := unshared_proc o None]> (ps_procs s0)) (left o (pr_fs pc) (ps_fs s0)) files held) →
  fwp (install_fs cur o) (mid s0 (ps_procs s0) (grown o (ps_fs s0)) files held) Q.
Proof.
  intros Hn HQ. pose proof (ca_proc _ _ _ Hca) as Hpc. unfold unshared_proc in HQ.
  destruct o as [i|]; cbn [install_fs grown left own] in *.
  - destruct Hn as (Hi&f&n&Hf&Hm&Hgt). apply fwp_bind. eapply mid_process; [done|]. rewrite Hf in HQ |- *. apply fwp_bind, fwp_deref.
    apply fwp_bind. eapply mid_upd; [done|]. apply fwp_bind. apply (mid_fs (alter (λ n, n - 1) f)).
    apply fwp_bind, fwp_get. apply fwp_ret. cbn [mid ps_fs].
    change (ps_fs (mid _ _ ?m _ _)) with m. rewrite lookup_alter_eq, lookup_insert_ne, Hm by congruence. cbn [default from_option id fmap option_fmap option_map].
    destruct (Z.eqb_spec (n - 1) 0); [lia|]. destruct pc; exact HQ.
  - apply fwp_ret. rewrite insert_id in HQ; [done|]. rewrite Hpc. by destruct pc.
Qed.
Lemma install_fd_spec o o' asked fs held (Q : option nat → pstate → Prop) :
  needed asked (pr_files pc) o' (ps_files s0) →
  Q (match o' with Some _ => pr_files pc | None => None end)
    (mid s0 (<[cur := unshared_proc o o']> (ps_procs s0)) fs (grown o' (ps_files s0)) held) →
  fwp (install_fd cur o') (mid s0 (<[cur := unshared_proc o None]> (ps_procs s0)) fs (grown o' (ps_files s0)) held) Q.
Proof.
  intros Hn HQ. unfold unshared_proc in *. destruct o' as [i|]; cbn [install_fd grown own] in *; [|by apply fwp_ret].
  apply fwp_bind. eapply mid_process; [apply lookup_insert_eq|]. apply fwp_bind. eapply mid_upd; [apply lookup_insert_eq|].
  rewrite insert_insert_eq. apply fwp_ret. exact HQ.
Qed.

(** What a successful [unshare] makes of the state. *)
Definition unshared (fl : Z) (s : pstate) : Prop :=
  ∃ o o', needed (has fl CLONE_FS) (pr_fs pc) o (ps_fs s0) ∧ needed (has fl CLONE_FILES) (pr_files pc) o' (ps_files s0) ∧
    s = mid s0 (<[cur := unshared_proc o o']> (ps_procs s0)) (left o (pr_fs pc) (ps_fs s0)) (left o' (pr_files pc) (ps_files s0))
          (if has fl (Z.lor CLONE_NEWIPC CLONE_SYSVSEM) then ps_held s0 ∖ {[(cur, res_semundo)]} else ps_held s0).
(** What a failed one leaves: nothing, or the namespaces when the last check failed. *)
Definition leaks : bool := ue_new_cred u && ue_new_nsproxy u && negb (ue_ucounts u =? 0).
Definition not_unshared (s : pstate) : Prop :=
  s = s0 ∨ leaks = true ∧ s = s0 <| ps_held := {[(cur, res_new_namespaces)]} ∪ ps_held s0 |>.

(** What the check of the flags has found when it passes: no unknown flag, and nothing
    to unshare among the parts it does not implement. *)
Record checked (fl : Z) : Prop := {
  ck_known : Z.land fl (Z.lnot unshare_known) = 0;
  ck_group : has fl (flags [CLONE_THREAD; CLONE_SIGHAND; CLONE_VM]) = true → ue_group_empty u = true;
  ck_sighand : has fl (Z.lor CLONE_SIGHAND CLONE_VM) = true → ∀ f, pr_sighand pc = Some f → ps_sighand s0 !! f = Some 1;
  ck_vm : has fl CLONE_VM = true → ue_single_threaded u = true;
}.

Lemma check_flags_spec fl :
  fwp (check_unshare_flags fl) s0 (λ err s', s' = s0 ∧ (err = 0 ∧ checked fl ∨ err = - EINVAL)).
Proof.
  destruct (ok_parts _ _ Hok _ _ (ca_proc _ _ _ Hca)) as [_ [sh Hsh]].
  unfold check_unshare_flags. apply fwp_bind. rewrite <-(mid_id s0) at 1. eapply mid_current_proc; [apply Hca|]. rewrite mid_id.
  destruct (Z.eqb_spec (Z.land fl (Z.lnot unshare_known)) 0) as [Hkn|]; cbn [negb]; [|apply fwp_ret; auto].
  destruct (_ && negb (ue_group_empty u)) eqn:Hge; [apply fwp_ret; auto|]. apply fwp_bind.
  assert (∀ b : bool, (b = false → has fl (Z.lor CLONE_SIGHAND CLONE_VM) = true → ∀ f, pr_sighand pc = Some f → ps_sighand s0 !! f = Some 1) →
    fwp (if b then mret (- EINVAL) else if has fl CLONE_VM && negb (ue_single_threaded u) then mret (- EINVAL) else mret 0)
    s0 (λ err s', s' = s0 ∧ (err = 0 ∧ checked fl ∨ err = - EINVAL))) as Hend.
  { intros [] Hb; [apply fwp_ret; auto|]. destruct (_ && negb (ue_single_threaded u)) eqn:Hvm; apply fwp_ret; [auto|].
    split; [done|left]. split; [done|]. split; [done| |auto|].
    - intros Hf. rewrite Hf in Hge. by destruct (ue_group_empty u).
    - intros Hf. rewrite Hf in Hvm. by destruct (ue_single_threaded u). }
  destruct (has fl (Z.lor CLONE_SIGHAND CLONE_VM)) eqn:Hf; [|by apply fwp_ret, (Hend false)].
  rewrite Hsh. apply fwp_bind, fwp_deref. apply fwp_get, Hend. intros Hb _ f Heq. assert (f = sh) as -> by congruence.
  destruct (exact_counted _ _ _ _ _ _ (ok_sighand _ _ Hok) (ca_proc _ _ _ Hca) sh Hsh) as (n&Hn&Hgt). rewrite Hn in Hb |- *.
  apply Z.ltb_ge in Hb. f_equal. lia.
Qed.

Lemma cleanup_cred cred o o' asked asked' err held held' (Q : Z → pstate → Prop) :
  needed asked (pr_fs pc) o (ps_fs s0) → needed asked' (pr_files pc) o' (ps_files s0) →
  (cred = true → (cur, res_new_creds) ∈ held) → held' = (if cred : bool then held ∖ {[(cur, res_new_creds)]} else held) →
  Q err (mid s0 (ps_procs s0) (ps_fs s0) (ps_files s0) held') →
  fwp (bad_unshare_cleanup_cred cur cred o' o err) (mid s0 (ps_procs s0) (grown o (ps_fs s0)) (grown o' (ps_files s0)) held) Q.
Proof.
  intros Hn Hn' Hin -> HQ. apply fwp_bind, mid_release; [done|]. by eapply cleanup_fd.
Qed.

(** The new structures are installed. *)
Lemma install_spec fl o o' held held' :
  needed (has fl CLONE_FS) (pr_fs pc) o (ps_fs s0) → needed (has fl CLONE_FILES) (pr_files pc) o' (ps_files s0) →
  (ue_new_cred u = true → (cur, res_new_creds) ∈ held) → held' = (if ue_new_cred u then held ∖ {[(cur, res_new_creds)]} else held) →
  held' = (if has fl (Z.lor CLONE_NEWIPC CLONE_SYSVSEM) then ps_held s0 ∖ {[(cur, res_semundo)]} else ps_held s0) →
  fwp (new_fs ← install_fs cur o; new_fd ← install_fd cur o';
       fwhen (ue_new_cred u) (release cur res_new_creds);; bad_unshare_cleanup_cred cur false new_fd new_fs 0)
    (mid s0 (ps_procs s0) (grown o (ps_fs s0)) (grown o' (ps_files s0)) held)
    (λ err s', err = 0 ∧ unshared fl s').
Proof.
  intros Hn Hn' Hin Hh Hh'. apply fwp_bind. eapply install_fs_spec; [done|]. apply fwp_bind. eapply install_fd_spec; [done|].
  apply fwp_bind. apply fwp_mono with (Q := λ _ s', s' =
    mid s0 (<[cur := unshared_proc o o']> (ps_procs s0)) (left o (pr_fs pc) (ps_fs s0)) (grown o' (ps_files s0)) held').
  { subst held'. by apply mid_release. }
  intros [] s' ->. apply fwp_bind, fwp_skip. apply fwp_bind.
  apply fwp_mono with (Q := λ _ s', s' =
    mid s0 (<[cur := unshared_proc o o']> (ps_procs s0)) (left o (pr_fs pc) (ps_fs s0)) (left o' (pr_files pc) (ps_files s0)) held').
  { destruct o' as [i|]; [|by apply fwp_skip]. destruct Hn' as (Hi&f&n&Hf&Hm&Hgt). rewrite Hf. cbn [opt_do grown left].
    apply (mid_files (put_ref f)). by erewrite put_left. }
  intros [] s' ->. apply fwp_bind, fwp_skip, fwp_ret. split; [done|]. exists o, o'. by rewrite <-Hh'.
Qed.

Lemma ksys_unshare_ends fl :
  fwp (ksys_unshare fl) s0 (λ err s', if err =? 0 then checked (widen fl) ∧ unshared (widen fl) s' else not_unshared s').
Proof.
  unfold ksys_unshare. set (wf := widen fl). clearbody wf. apply fwp_bind. eapply fwp_mono; [apply check_flags_spec|].
  intros err s' [-> Hck]. assert (∀ e, e ≠ 0 → not_unshared s0 → if e =? 0 then checked wf ∧ unshared wf s0 else not_unshared s0) as Herr.
  { intros e He Hs. destruct (Z.eqb_spec e 0); done. }
  destruct (Z.eqb_spec err 0) as [->|Hne]; cbn [negb]; [|apply fwp_ret, Herr; [done|by left]].
  assert (checked wf) as Hch by (destruct Hck as [[_ ?]|]; done).
  rewrite <-(mid_id s0) at 1. apply fwp_bind, mid_current. apply fwp_bind.
  eapply fwp_mono; [apply unshare_fs_spec|]. intros [e o] s' (o1&->&Ho). cbn [fst snd] in Ho.
  destruct (Z.eqb_spec e 0) as [->|Hne]; cbn [negb].
  2: { subst o1. apply fwp_ret. rewrite mid_id. apply Herr; [done|by left]. }
  destruct Ho as [<- Hn]. apply fwp_bind. eapply fwp_mono; [apply unshare_fd_spec|]. intros [e o'] s' (o1&->&Ho'). cbn [fst snd] in Ho'.
  destruct (Z.eqb_spec e 0) as [->|Hne]; cbn [negb].
  2: { subst o1. eapply cleanup_fs; [done|]. rewrite mid_id. apply Herr; [done|by left]. }
  destruct Ho' as [<- Hn']. destruct (Z.eqb_spec (ue_userns u) 0); cbn [negb].
  2: { eapply cleanup_fd; [done..|]. rewrite mid_id. apply Herr; [done|by left]. }
  assert (((cur, res_new_creds) ∉ ps_held s0) ∧ ((cur, res_new_namespaces) ∉ ps_held s0)) as [Hc Hns] by (split; apply Hno; set_solver).
  apply fwp_bind, mid_hold. destruct (Z.eqb_spec (ue_nsproxy u) 0); cbn [negb].
  2: { eapply (cleanup_cred _ _ _ _ _ _ _ (ps_held s0)); [done|done|intros ->; set_solver| |].
    - destruct (ue_new_cred u); [|done]. by rewrite drop_new.
    - rewrite mid_id. apply Herr; [done|by left]. }
  apply fwp_bind, mid_hold. destruct (ue_new_cred u && negb (ue_ucounts u =? 0)) eqn:Huc.
  - apply andb_true_iff in Huc as [Hcr Huc]. rewrite Hcr.
    eapply (cleanup_cred _ _ _ _ _ _ _ (if ue_new_nsproxy u then {[(cur, res_new_namespaces)]} ∪ ps_held s0 else ps_held s0)); [done|done|destruct (ue_new_nsproxy u); set_solver| |].
    + destruct (ue_new_nsproxy u); rewrite ?drop_other, ?drop_new by done; done.
    + destruct (Z.eqb_spec (ue_ucounts u) 0); [done|]. destruct (ue_new_nsproxy u) eqn:Hpx.
      * right. unfold leaks. rewrite Hcr, Hpx. split; [by apply negb_true_iff, Z.eqb_neq|]. by destruct s0.
      * left. apply mid_id.
  - apply fwp_bind, mid_unhold. apply fwp_bind, mid_release; [intros ->; destruct (has wf (Z.lor CLONE_NEWIPC CLONE_SYSVSEM)); [apply still_held; [done|]|]; by apply elem_of_union_l, elem_of_singleton|].
    eapply fwp_mono; [eapply (install_spec wf); [done|done| |reflexivity|]|by intros err s' [-> ?]].
    { intros ->. destruct (ue_new_nsproxy u), (has wf (Z.lor CLONE_NEWIPC CLONE_SYSVSEM)); repeat (apply still_held; [done|]);
        first [by apply elem_of_union_l, elem_of_singleton | by apply elem_of_union_r, elem_of_union_l, elem_of_singleton]. }
    destruct (ue_new_cred u), (ue_new_nsproxy u), (has wf (Z.lor CLONE_NEWIPC CLONE_SYSVSEM));
      rewrite ?(drop_other _ (cur, res_semundo)) by done; rewrite ?drop_new by (repeat first [done | apply not_dropped | apply not_added]); done.
Qed.

Lemma unshared_ok fl s : unshared fl s → processes_ok x s.
Proof.
  intros (o&o'&Hn&Hn'&->). pose proof (ca_proc _ _ _ Hca) as Hpc. destruct Hok. set (pr := unshared_proc o o').
  assert (∀ q pr', <[cur := pr]> (ps_procs s0) !! q = Some pr' → ∃ pr0, ps_procs s0 !! q = Some pr0 ∧
    (is_Some (pr_fs pr0) → is_Some (pr_fs pr')) ∧ pr_sighand pr' = pr_sighand pr0 ∧ pr_signal pr' = pr_signal pr0 ∧ pr_mm pr' = pr_mm pr0 ∧
    pr_tgid pr' = pr_tgid pr0 ∧ pr_group_leader pr' = pr_group_leader pr0 ∧ pr_exit_signal pr' = pr_exit_signal pr0) as Hq.
  { intros q pr' [[<- <-]|[_ Hl]]%lookup_insert_Some; [exists pc|by exists pr']. split_and!; try done. subst pr. cbn. by destruct o. }
  assert (∀ q pr0, ps_procs s0 !! q = Some pr0 → ∃ pr', <[cur := pr]> (ps_procs s0) !! q = Some pr' ∧
    pr_signal pr' = pr_signal pr0 ∧ pr_exit_signal pr' = pr_exit_signal pr0) as Hq'.
  { intros q pr0 Hl. destruct (decide (q = cur)) as [->|]; [exists pr; rewrite lookup_insert_eq|exists pr0; by rewrite lookup_insert_ne].
    by simplify_eq. }
  split; cbn.
  - by eapply left_exact.
  - by eapply left_exact.
  - by eapply exact_same.
  - by eapply exact_same.
  - intros q pr' (pr0&Hl&Hf&Hs&_)%Hq. destruct (ok_parts _ _ Hl). rewrite Hs. auto.
  - intros q pr' (pr0&Hl&_&_&->&_)%Hq. eauto.
  - intros sig g Hg. rewrite (holders_replace _ _ _ _ _ _ Hpc), (ok_threads _ _ Hg). unfold refers. cbn. lia.
  - intros q1 q2 pr1 pr2 (p1&H1&_&->&->&_&->&->&_)%Hq (p2&H2&_&->&->&_&->&->&_)%Hq. eauto.
  - intros q1 q2 pr1 pr2 (p1&H1&_&->&_&->&_)%Hq (p2&H2&_&->&_&->&_)%Hq. eauto.
  - intros q pr' (pr0&Hl&_&_&->&_&_&->&_)%Hq. destruct (ok_leader _ _ Hl) as (l&Hll&Hsl&Hel).
    destruct (Hq' _ _ Hll) as (l'&Hl'&Hs'&He'). exists l'. split_and!; congruence.
Qed.
End run.

(** The caller's own structures. *)
Definition private (ref : proc → option nat) (cnt : pstate → gmap nat Z) (cur : tid) (s : pstate) : Prop :=
  ∀ pr f, ps_procs s !! cur = Some pr → ref pr = Some f → cnt s !! f = Some 1.

(** No other process refers to the structure of the caller. *)
Definition alone (ref : proc → option nat) (cur : tid) (s : pstate) : Prop :=
  ∀ pr q pr' f, ps_procs s !! cur = Some pr → ps_procs s !! q = Some pr' → ref pr = Some f → ref pr' = Some f → q = cur.

(** The two tests on the threads of the caller, as documented (thread_group_empty,
    lib/is_single_threaded.c): one that succeeds finds no other thread in the group, no
    other process with the caller's memory. *)
Record thread_tests (cur : tid) (s : pstate) : Prop := {
  tt_group : ue_group_empty u = true → alone pr_signal cur s;
  tt_single : ue_single_threaded u = true → alone pr_mm cur s;
}.

(** The flags that set a flag. *)
Definition implied (f c m : Z) : Z := if has f c then Z.lor f m else f.
Lemma implied_has f c m b : has (implied f c m) b = has f b || has f c && has m b.
Proof.
  unfold implied. destruct (has f c); cbn [andb]; [|by rewrite orb_false_r]. unfold has. rewrite !(Z.land_comm _ b). apply (has_lor b f m).
Qed.
Lemma implied_land f c m k : Z.land m k = 0 → Z.land (implied f c m) k = Z.land f k.
Proof. intros Hm. unfold implied. destruct (has f c); [|done]. by rewrite Z.land_lor_distr_l, Hm, Z.lor_0_r. Qed.
Lemma has_flags f l : has f (flags l) = existsb (has f) l.
Proof.
  induction l as [|b l IH]; [unfold has; by rewrite Z.land_0_r|]. change (flags (b :: l)) with (Z.lor b (flags l)).
  by rewrite has_lor, IH.
Qed.
Lemma widen_implied fl : widen fl =
  implied (implied (implied (implied fl CLONE_NEWUSER (Z.lor CLONE_THREAD CLONE_FS)) CLONE_VM CLONE_SIGHAND) CLONE_SIGHAND CLONE_THREAD)
    CLONE_NEWNS CLONE_FS.
Proof. done. Qed.
Lemma widen_unknown fl : Z.land (widen fl) (Z.lnot unshare_known) = Z.land fl (Z.lnot unshare_known).
Proof. rewrite widen_implied. by rewrite !implied_land. Qed.

(** Decides which flags of the caller imply a flag, by cases on them. *)
Ltac by_flags :=
  rewrite widen_implied; cbn [existsb]; rewrite ?has_lor, !implied_has;
  repeat match goal with
  | |- context [has ?a ?b] => tryif is_var a then fail else
      (let v := eval vm_compute in (has a b) in change (has a b) with v)
  end;
  repeat match goal with |- context [has ?a ?b] => destruct (has a b) end; done.
Lemma asked_fs fl : has fl (flags [CLONE_FS; CLONE_NEWNS; CLONE_NEWUSER]) = true → has (widen fl) CLONE_FS = true.
Proof. rewrite has_flags. by_flags. Qed.
Lemma asked_files fl : has fl (flags [CLONE_FILES]) = true → has (widen fl) CLONE_FILES = true.
Proof. rewrite has_flags. by_flags. Qed.
Lemma asked_sighand fl : has fl (flags [CLONE_SIGHAND; CLONE_VM]) = true → has (widen fl) (Z.lor CLONE_SIGHAND CLONE_VM) = true.
Proof. rewrite has_flags. by_flags. Qed.
Lemma asked_thread fl :
  has fl (flags [CLONE_THREAD; CLONE_SIGHAND; CLONE_VM; CLONE_NEWUSER]) = true →
  has (widen fl) (flags [CLONE_THREAD; CLONE_SIGHAND; CLONE_VM]) = true.
Proof. rewrite !has_flags. by_flags. Qed.
Lemma asked_vm fl : has fl (flags [CLONE_VM]) = true → has (widen fl) CLONE_VM = true.
Proof. rewrite has_flags. by_flags. Qed.
Lemma asked_sysv fl : has fl (flags [CLONE_SYSVSEM; CLONE_NEWIPC]) = true → has (widen fl) (Z.lor CLONE_NEWIPC CLONE_SYSVSEM) = true.
Proof. rewrite has_flags. by_flags. Qed.

(** The caller keeps what is not unshared, and stays alone with it. *)
Lemma alone_unshared ref cur pc pr s0 fs files held :
  ps_procs s0 !! cur = Some pc → ref pr = ref pc → alone ref cur s0 →
  alone ref cur (mid s0 (<[cur := pr]> (ps_procs s0)) fs files held).
Proof.
  intros Hpc Hr Ha pr1 q pr' f Hpr Hq H1 H2. destruct (decide (q = cur)) as [|Hne]; [done|]. cbn in Hpr, Hq.
  rewrite lookup_insert_eq in Hpr. rewrite lookup_insert_ne in Hq by done. simplify_eq. apply (Ha pc q pr' f); congruence.
Qed.

(** C24: [unshare] ends, keeps the counts of shared structures exact and changes no process but
    the caller.  On success every flag asked for is one it knows, and what the flags ask
    for or imply is the caller's own: the file system structure for CLONE_FS, CLONE_NEWNS
    and CLONE_NEWUSER, the open files for CLONE_FILES, the signal handlers for
    CLONE_SIGHAND and CLONE_VM; the thread group has no other thread for CLONE_THREAD,
    CLONE_SIGHAND, CLONE_VM and CLONE_NEWUSER, and no other process has the memory for
    CLONE_VM, the two tests outside this file being as documented; the semaphore undo
    list is given up for CLONE_SYSVSEM and CLONE_NEWIPC.  On an error nothing has changed,
    but for namespaces that were prepared and are not released when the last check
    fails. *)
Theorem ksys_unshare_all_or_nothing x s0 cur pc fl :
  processes_ok x s0 → caller s0 cur pc → (∀ r, r ∈ [res_new_creds; res_new_namespaces] → (cur, r) ∉ ps_held s0) →
  thread_tests cur s0 →
  ∃ err s, ksys_unshare fl s0 = Ok (err, s) ∧ processes_ok x s ∧
    (∀ q, q ≠ cur → ps_procs s !! q = ps_procs s0 !! q) ∧
    let asked l := has fl (flags l) = true in
    if err =? 0 then
      ¬ asked [Z.lnot unshare_known] ∧
      (asked [CLONE_FS; CLONE_NEWNS; CLONE_NEWUSER] → private pr_fs ps_fs cur s) ∧
      (asked [CLONE_FILES] → private pr_files ps_files cur s) ∧
      (asked [CLONE_SIGHAND; CLONE_VM] → private pr_sighand ps_sighand cur s) ∧
      (asked [CLONE_THREAD; CLONE_SIGHAND; CLONE_VM; CLONE_NEWUSER] → alone pr_signal cur s) ∧
      (asked [CLONE_VM] → alone pr_mm cur s) ∧
      (asked [CLONE_SYSVSEM; CLONE_NEWIPC] → (cur, res_semundo) ∉ ps_held s)
    else not_unshared s0 cur s.
Proof.
  intros Hok Hca Hno [Htg Hts]. destruct (fwp_inv _ _ _ (ksys_unshare_ends x s0 cur pc Hok Hca Hno fl)) as (err&s&Hr&Hp).
  exists err, s. split; [done|]. cbv zeta. destruct (err =? 0); cycle 1.
  { split_and!; [| |done]; destruct Hp as [->|[_ ->]]; try done. destruct Hok. by split. }
  destruct Hp as [[Hkn Hgr Hsh Hvm] Hp]. pose proof Hp as (o&o'&Hn&Hn'&Hs). split_and!.
  - by eapply unshared_ok.
  - intros q Hq. subst s. by apply lookup_insert_ne.
  - cbn [flags foldr]. rewrite Z.lor_0_r. unfold has. by rewrite <-widen_unknown, Hkn.
  - intros Hf pr f. apply asked_fs in Hf. rewrite Hf in Hn. subst s. cbn. rewrite lookup_insert_eq. intros [= <-]. by apply left_own.
  - intros Hf pr f. apply asked_files in Hf. rewrite Hf in Hn'. subst s. cbn. rewrite lookup_insert_eq. intros [= <-]. by apply left_own.
  - intros Hf pr f. subst s. cbn. rewrite lookup_insert_eq. intros [= <-]. by apply Hsh, asked_sighand.
  - intros Hf. subst s. eapply alone_unshared; [apply Hca|done|]. by apply Htg, Hgr, asked_thread.
  - intros Hf. subst s. eapply alone_unshared; [apply Hca|done|]. by apply Hts, Hvm, asked_vm.
  - intros Hf. apply asked_sysv in Hf. subst s. cbn. rewrite Hf. set_solver.
Qed.

(** The limit on threads lies between the fixed bounds, and the product it is computed from
    does not overflow. *)
Theorem max_threads_bounds nr_pages thread_size suggested :
  0 <= nr_pages →
  MIN_THREADS <= max_threads_for nr_pages thread_size suggested <= MAX_THREADS ∧
  (fls64 nr_pages + fls64 PAGE_SIZE <= 64 → u64 (nr_pages * PAGE_SIZE) = nr_pages * PAGE_SIZE).
Proof.
  intros Hn. split; [unfold max_threads_for, MIN_THREADS, MAX_THREADS; lia|]. unfold fls64.
  destruct (Z.eqb_spec nr_pages 0) as [->|Hnz]; [done|]. change (PAGE_SIZE) with 4096. cbn [Z.eqb]. change (Z.log2 4096) with 12.
  intros Hl. unfold u64. apply Z.mod_small. assert (nr_pages < 2 ^ 51); [|lia].
  apply Z.log2_lt_pow2; lia.
Qed.
End unshare.
