(* ===== verification/Interleave.v ===== *)
(** Concurrent programs: sequences of atomic accesses to a shared memory, their interleaving
    in a pool of threads, and a rely-guarantee logic for them.

    A program is a tree of accesses; a loop is a node of its own, which a step unrolls, so
    that loops that wait for other threads need no bound.  A protocol says what an access
    does, which invariant the memory keeps together with a ghost state, and what a thread
    may rely on while others run. *)
From S2P Require Import Prelude.

(** * Programs *)

(** [Loop body s k] runs [body] from the state [s]: with [inl s'] it goes on from [s'], with
    [inr x] it ends and [k x] follows. *)
Inductive prog (E A : Type) : Type :=
  | Ret (a : A)
  | Act (e : E) (k : Z → prog E A)
  | Loop (body : Z → prog E (Z + Z)) (s : Z) (k : Z → prog E A).
Arguments Ret {E A} a.
Arguments Act {E A} e k.
Arguments Loop {E A} body s k.

Fixpoint prog_bind {E A B} (f : A → prog E B) (m : prog E A) : prog E B :=
  match m with
  | Ret a => f a
  | Act e k => Act e (λ r, prog_bind f (k r))
  | Loop body s k => Loop body s (λ x, prog_bind f (k x))
  end.
#[export] Instance prog_ret E : MRet (prog E) := @Ret E.
#[export] Instance prog_mbind E : MBind (prog E) := @prog_bind E.

Definition access_ {E} (e : E) : prog E Z := Act e Ret.
Definition do_ {E} (e : E) : prog E unit := Act e (λ _, Ret tt).
Definition test {E} (e : E) : prog E bool := Act e (λ r, Ret (negb (r =? 0))).
Definition of_bool (b : bool) : Z := if b then 1 else 0.
Definition loop {E} (body : Z → prog E (Z + Z)) (s : Z) : prog E Z := Loop body s Ret.
Definition again {E} (s : Z) : prog E (Z + Z) := Ret (inl s).
Definition break {E} (x : Z) : prog E (Z + Z) := Ret (inr x).
Definition unroll {E A} (body : Z → prog E (Z + Z)) (s : Z) (k : Z → prog E A) : prog E A :=
  body s ≫= λ x, match x with inl s => Loop body s k | inr x => k x end.

(** Update of a total map. *)
Definition fset {A} (f : Z → A) (c : Z) (v : A) : Z → A := λ c', if decide (c' = c) then v else f c'.
Lemma fset_eq {A} (f : Z → A) c v : fset f c v c = v.
Proof. unfold fset. by rewrite decide_True. Qed.
Lemma fset_ne {A} (f : Z → A) c c' v : c' ≠ c → fset f c v c' = f c'.
Proof. intros. unfold fset. by rewrite decide_False. Qed.

(** * Pools of threads *)

(** Each thread has a program and a label. *)
Record pool (E M L : Type) := { cf_mem : M; cf_pool : gmap nat (prog E unit * L) }.
Arguments cf_mem {E M L} p.
Arguments cf_pool {E M L} p.
Arguments Build_pool {E M L} cf_mem cf_pool.

(** Thread [i] does one access, or unrolls a loop. *)
Definition do_step {E M L} (exec : nat → E → M → option (Z * M)) (i : nat) (s : pool E M L) : option (pool E M L) :=
  match cf_pool s !! i with
  | Some (Act e k, l) =>
      match exec i e (cf_mem s) with
      | Some (r, m') => Some {| cf_mem := m'; cf_pool := <[i := (k r, l)]> (cf_pool s) |}
      | None => None
      end
  | Some (Loop body x k, l) => Some {| cf_mem := cf_mem s; cf_pool := <[i := (unroll body x k, l)]> (cf_pool s) |}
  | _ => None
  end.

(** * Threads that run alone *)

(** Thread [i], not disturbed, runs [p] to its end. *)
Inductive alone {E M : Type} (exec : nat → E → M → option (Z * M)) (i : nat) : ∀ A : Type, prog E A → M → A → M → Prop :=
  | alone_ret A (a : A) m : alone exec i A (Ret a) m a m
  | alone_act A e (k : Z → prog E A) m r m1 a m2 :
      exec i e m = Some (r, m1) → alone exec i A (k r) m1 a m2 → alone exec i A (Act e k) m a m2
  | alone_again A body s (k : Z → prog E A) m s' m1 a m2 :
      alone exec i (Z + Z) (body s) m (inl s') m1 → alone exec i A (Loop body s' k) m1 a m2 → alone exec i A (Loop body s k) m a m2
  | alone_break A body s (k : Z → prog E A) m x m1 a m2 :
      alone exec i (Z + Z) (body s) m (inr x) m1 → alone exec i A (k x) m1 a m2 → alone exec i A (Loop body s k) m a m2.
Arguments alone {E M} exec i {A} p m a m'.

(** In a pool, these are steps of the thread. *)
Lemma alone_steps {E M L A : Type} (exec : nat → E → M → option (Z * M)) i (p : prog E A) m a m' (f : A → prog E unit) (l : L) (pl : gmap nat (prog E unit * L)) :
  alone exec i p m a m' →
  rtc (λ s s', do_step exec i s = Some s') {| cf_mem := m; cf_pool := <[i := (p ≫= f, l)]> pl |}
    {| cf_mem := m'; cf_pool := <[i := (f a, l)]> pl |}.
Proof.
  assert (∀ m1 m2 p1 p2, do_step exec i {| cf_mem := m1; cf_pool := <[i := (p1, l)]> pl |} =
      Some {| cf_mem := m2; cf_pool := <[i := (p2, l)]> (<[i := (p1, l)]> pl) |} →
    do_step exec i {| cf_mem := m1; cf_pool := <[i := (p1, l)]> pl |} = Some {| cf_mem := m2; cf_pool := <[i := (p2, l)]> pl |}) as Hins
    by (intros m1 m2 p1 p2 ->; by rewrite insert_insert_eq).
  intros Ha. revert f. induction Ha as [A a m|A e k m r m1 a m2 He _ IH|A body s k m s' m1 a m2 _ IHb _ IH|A body s k m x m1 a m2 _ IHb _ IH]; intros f.
  - apply rtc_refl.
  - eapply rtc_l; [|apply IH]. apply Hins. unfold do_step. cbn. by rewrite lookup_insert_eq, He.
  - eapply rtc_l; [|etrans; [apply (IHb (λ x, match x with inl s => Loop body s (λ x, k x ≫= f) | inr x => k x ≫= f end))|apply (IH f)]].
    apply Hins. unfold do_step. cbn. by rewrite lookup_insert_eq.
  - eapply rtc_l; [|etrans; [apply (IHb (λ x, match x with inl s => Loop body s (λ x, k x ≫= f) | inr x => k x ≫= f end))|apply (IH f)]].
    apply Hins. unfold do_step. cbn. by rewrite lookup_insert_eq.
Qed.

(** [p] ends, with a result and a memory that satisfy [Q]. *)
Section ends.
Context {E M : Type} (exec : nat → E → M → option (Z * M)) (i : nat).
Definition ends_in {A} (p : prog E A) (m : M) (Q : A → M → Prop) : Prop := ∃ a m', alone exec i p m a m' ∧ Q a m'.
Lemma ends_ret {A} (a : A) m (Q : A → M → Prop) : Q a m → ends_in (mret a) m Q.
Proof. intros HQ. exists a, m. split; [apply alone_ret|done]. Qed.
Lemma alone_bind {A B} (p : prog E A) (f : A → prog E B) m a m1 b m2 :
  alone exec i p m a m1 → alone exec i (f a) m1 b m2 → alone exec i (p ≫= f) m b m2.
Proof.
  intros Ha. revert f. induction Ha as [A a m|A e k m r m1 a m3 He _ IH|A body s k m s' m1 a m3 Hb _ _ IH|A body s k m x m1 a m3 Hb _ _ IH]; intros f Hf; cbn.
  - done.
  - eapply alone_act; [done|by apply IH].
  - eapply alone_again; [done|by apply (IH f)].
  - eapply alone_break; [done|by apply IH].
Qed.
Lemma ends_bind {A B} (p : prog E A) (f : A → prog E B) m R Q :
  ends_in p m R → (∀ a m', R a m' → ends_in (f a) m' Q) → ends_in (p ≫= f) m Q.
Proof.
  intros (a&m1&Hp&HR) Hf. destruct (Hf a m1 HR) as (b&m2&Hb&HQ). exists b, m2. split; [by eapply alone_bind|done].
Qed.
Lemma ends_access {B} e r m m1 (f : Z → prog E B) Q : exec i e m = Some (r, m1) → ends_in (f r) m1 Q → ends_in (access_ e ≫= f) m Q.
Proof. intros He (b&m2&Hb&HQ). exists b, m2. split; [|done]. by eapply alone_act. Qed.
Lemma ends_do {B} e r m m1 (p : prog E B) Q : exec i e m = Some (r, m1) → ends_in p m1 Q → ends_in (do_ e;; p) m Q.
Proof. intros He (b&m2&Hb&HQ). exists b, m2. split; [|done]. by eapply alone_act. Qed.
Lemma ends_last e r m m1 (Q : unit → M → Prop) : exec i e m = Some (r, m1) → Q tt m1 → ends_in (do_ e) m Q.
Proof. intros He HQ. exists tt, m1. split; [|done]. eapply alone_act; [done|apply alone_ret]. Qed.
Lemma ends_test {B} e r m m1 (f : bool → prog E B) Q :
  exec i e m = Some (r, m1) → ends_in (f (negb (r =? 0))) m1 Q → ends_in (test e ≫= f) m Q.
Proof. intros He (b&m2&Hb&HQ). exists b, m2. split; [|done]. by eapply alone_act. Qed.
(** One round of a loop. *)
Lemma ends_round body s m R (Q : Z → M → Prop) :
  ends_in (body s) m R →
  (∀ x m', R x m' → match x with inl s' => ends_in (loop body s') m' Q | inr x => Q x m' end) → ends_in (loop body s) m Q.
Proof.
  intros (x&m1&Hb&HR) Hx. specialize (Hx x m1 HR). destruct x as [s'|x].
  - destruct Hx as (a&m2&Ha&HQ). exists a, m2. split; [|done]. by eapply alone_again.
  - exists x, m1. split; [|done]. eapply alone_break; [done|apply alone_ret].
Qed.
End ends.

(** * The logic *)

Record protocol (E M G : Type) := {
  px_exec : nat → E → M → option (Z * M);
  px_inv : M → G → Prop;
  px_rely : nat → M → G → M → G → Prop;
  (** what has to hold when a thread is about to do an access *)
  px_safe : nat → E → M → G → Prop;
}.
Arguments px_exec {E M G} p.
Arguments px_inv {E M G} p.
Arguments px_rely {E M G} p.
Arguments px_safe {E M G} p.

Section logic.
Context {E M G : Type} (X : protocol E M G).
Local Abbreviation inv := (px_inv X).
Local Abbreviation rely := (px_rely X).

Definition assn : Type := M → G → Prop.
Definition both (P Q : assn) : assn := λ m g, P m g ∧ Q m g.
Definition stable (i : nat) (P : assn) : Prop := ∀ m g m' g', rely i m g m' g' → P m g → P m' g'.
(** A move of thread [i] that keeps the invariant and what the others rely on. *)
Definition ok_step (i : nat) (m : M) (g : G) (m' : M) (g' : G) : Prop := inv m' g' ∧ ∀ j, j ≠ i → rely j m g m' g'.

Fixpoint rg {A : Type} (i : nat) (P : assn) (p : prog E A) (Q : A → assn) : Prop :=
  match p with
  | Ret a => ∀ m g, inv m g → P m g → Q a m g
  | Act e k => ∀ m g, inv m g → P m g → px_safe X i e m g ∧
      ∀ r m', px_exec X i e m = Some (r, m') → ∃ g' P', ok_step i m g m' g' ∧ stable i P' ∧ P' m' g' ∧ rg i P' (k r) Q
  | Loop body s k => ∀ m g, inv m g → P m g → ∃ I R : Z → assn,
      I s m g ∧ (∀ s, stable i (I s)) ∧
      (∀ s, rg i (I s) (body s) (λ x, match x with inl s' => I s' | inr x => R x end)) ∧ (∀ x, rg i (R x) (k x) Q)
  end.

Lemma rg_pre {A} i (P P' : assn) (p : prog E A) Q : (∀ m g, inv m g → P m g → P' m g) → rg i P' p Q → rg i P p Q.
Proof. intros HP. destruct p; cbn; auto. Qed.
Lemma rg_post {A} i P (p : prog E A) (Q Q' : A → assn) : (∀ a m g, inv m g → Q a m g → Q' a m g) → rg i P p Q → rg i P p Q'.
Proof.
  revert P Q Q'. induction p as [A a|A e k IH|A body _ s k IH]; intros P Q Q' HQ; cbn; auto; intros Hp m g Hi HPm.
  - destruct (Hp m g Hi HPm) as [Hs He]. split; [done|]. intros r m' Hx.
    destruct (He r m' Hx) as (g'&P'&?&?&?&Hk). exists g', P'. eauto.
  - destruct (Hp m g Hi HPm) as (I&R&?&?&?&?). exists I, R. split_and!; eauto.
Qed.
Lemma rg_bind {A B} i P (p : prog E A) (f : A → prog E B) (R : A → assn) Q :
  rg i P p R → (∀ a, rg i (R a) (f a) Q) → rg i P (p ≫= f) Q.
Proof.
  intros Hp Hf. revert P R Hp f Q Hf. induction p as [A a|A e k IH|A body _ s k IH]; intros P R' Hp f Q Hf; cbn in *.
  - eapply rg_pre; [|apply Hf]. auto.
  - intros m g Hi HPm. destruct (Hp m g Hi HPm) as [Hs He]. split; [done|]. intros r m' Hx.
    destruct (He r m' Hx) as (g'&P'&?&?&?&Hk). exists g', P'. split_and!; [done|done|done|]. by eapply (IH r).
  - intros m g Hi HPm. destruct (Hp m g Hi HPm) as (I&R&?&?&?&Hk). exists I, R. split_and!; [done|done|done|].
    intros x. by eapply (IH x).
Qed.
Lemma rg_pure {A} i (P : assn) (Y : Prop) (p : prog E A) Q : (Y → rg i P p Q) → rg i (λ m g, P m g ∧ Y) p Q.
Proof. intros Hp. destruct p; cbn in *; intros m g Hi [HP HY]; exact (Hp HY m g Hi HP). Qed.
Lemma rg_ex {A B} i (P : B → assn) (p : prog E A) Q : (∀ b, rg i (P b) p Q) → rg i (λ m g, ∃ b, P b m g) p Q.
Proof. intros Hp. destruct p; cbn in *; intros m g Hi [b HP]; exact (Hp b m g Hi HP). Qed.
Lemma rg_ret {A} i (P : assn) (a : A) (Q : A → assn) : (∀ m g, inv m g → P m g → Q a m g) → rg i P (mret a) Q.
Proof. done. Qed.
(** A loop with the invariant [I]. *)
Lemma rg_loop i (I R : Z → assn) body s :
  (∀ s, stable i (I s)) → (∀ s, rg i (I s) (body s) (λ x, match x with inl s' => I s' | inr x => R x end)) → rg i (I s) (loop body s) R.
Proof. intros Hst Hb m g Hi HI. exists I, R. split_and!; [exact HI|exact Hst|exact Hb|]. by intros x m' g' _. Qed.
Lemma rg_unroll {A} i (I R : Z → assn) body s (k : Z → prog E A) Q :
  (∀ s, stable i (I s)) → (∀ s, rg i (I s) (body s) (λ x, match x with inl s' => I s' | inr x => R x end)) →
  (∀ x, rg i (R x) (k x) Q) → rg i (I s) (unroll body s k) Q.
Proof.
  intros Hst Hb Hk. eapply rg_bind; [apply Hb|]. intros [s'|x]; [|apply Hk]. intros m g Hi HI. exists I, R. split_and!; [exact HI|exact Hst|exact Hb|exact Hk].
Qed.

(** One access. *)
Lemma rg_access i (P : assn) (Q : Z → assn) e :
  (∀ r, stable i (Q r)) →
  (∀ m g, inv m g → P m g → px_safe X i e m g ∧ ∀ r m', px_exec X i e m = Some (r, m') → ∃ g', ok_step i m g m' g' ∧ Q r m' g') →
  rg i P (access_ e) Q.
Proof.
  intros Hst He m g Hi HP. destruct (He m g Hi HP) as [Hs Hx]. split; [done|]. intros r m' Hr. destruct (Hx r m' Hr) as (g'&?&?).
  exists g', (Q r). split_and!; [done|done|done|by cbn].
Qed.
Lemma rg_do i (P Q : assn) e :
  stable i Q →
  (∀ m g, inv m g → P m g → px_safe X i e m g ∧ ∀ r m', px_exec X i e m = Some (r, m') → ∃ g', ok_step i m g m' g' ∧ Q m' g') →
  rg i P (do_ e) (λ _, Q).
Proof.
  intros Hst He m g Hi HP. destruct (He m g Hi HP) as [Hs Hx]. split; [done|]. intros r m' Hr. destruct (Hx r m' Hr) as (g'&?&?).
  exists g', Q. split_and!; [done|done|done|by cbn].
Qed.
Lemma rg_test i (P : assn) (Q : bool → assn) e :
  (∀ b, stable i (Q b)) →
  (∀ m g, inv m g → P m g → px_safe X i e m g ∧ ∀ r m', px_exec X i e m = Some (r, m') → ∃ g', ok_step i m g m' g' ∧ Q (negb (r =? 0)) m' g') →
  rg i P (test e) Q.
Proof.
  intros Hst He m g Hi HP. destruct (He m g Hi HP) as [Hs Hx]. split; [done|]. intros r m' Hr. destruct (Hx r m' Hr) as (g'&?&?).
  exists g', (Q (negb (r =? 0))). split_and!; [done|done|done|by cbn].
Qed.

Lemma ok_trans i m1 g1 m2 g2 m3 g3 :
  (∀ j m1 g1 m2 g2 m3 g3, rely j m1 g1 m2 g2 → rely j m2 g2 m3 g3 → rely j m1 g1 m3 g3) →
  ok_step i m1 g1 m2 g2 → ok_step i m2 g2 m3 g3 → ok_step i m1 g1 m3 g3.
Proof. intros Htr [_ H1] [? H2]. split; [done|]. intros j Hj. eapply Htr; eauto. Qed.
Lemma both_stable i P Q : stable i P → stable i Q → stable i (both P Q).
Proof. intros HP HQ m g m' g' Hr [? ?]. split; eauto. Qed.
Lemma true_stable i : stable i (λ _ _, True).
Proof. done. Qed.
Lemma ex_stable {B} i (P : B → assn) : (∀ b, stable i (P b)) → stable i (λ m g, ∃ b, P b m g).
Proof. intros HP m g m' g' Hr [b Hb]. exists b. by eapply HP. Qed.
Lemma pure_stable i (Y : Prop) P : stable i P → stable i (λ m g, P m g ∧ Y).
Proof. intros HP m g m' g' Hr [? ?]. split; eauto. Qed.

(** ** Pools *)

(** [fin i l] holds where a thread labelled [l] is done, [out i] of a thread that is not in
    the pool. *)
Section pools.
Context {L : Type} (fin : nat → L → assn) (out : nat → assn).
Record pool_inv (s : pool E M L) (g : G) : Prop := {
  p_inv : inv (cf_mem s) g;
  p_rg i p l : cf_pool s !! i = Some (p, l) → ∃ P, stable i P ∧ P (cf_mem s) g ∧ rg i P p (λ _, fin i l);
  p_out i : cf_pool s !! i = None → out i (cf_mem s) g;
}.
Context (out_stable : ∀ i, stable i (out i)).

(** A move of thread [i]. *)
Lemma pool_step i s m' g g' pool' :
  pool_inv s g → ok_step i (cf_mem s) g m' g' → (∀ j, j ≠ i → pool' !! j = cf_pool s !! j) →
  match pool' !! i with
  | Some (p, l) => ∃ P, stable i P ∧ P m' g' ∧ rg i P p (λ _, fin i l)
  | None => out i m' g'
  end → pool_inv {| cf_mem := m'; cf_pool := pool' |} g'.
Proof.
  intros [Hi Hrg Hno] [Hi' Hr] Hpool Hp. split; [done| |]; cbn.
  - intros j p l Hj. destruct (decide (j = i)) as [->|Hne]; [by rewrite Hj in Hp|]. rewrite Hpool in Hj by done.
    destruct (Hrg j p l Hj) as (P&HP&HPm&Hk). exists P. split_and!; [done|by eapply HP; [apply Hr|]|done].
  - intros j Hj. destruct (decide (j = i)) as [->|Hne]; [by rewrite Hj in Hp|]. rewrite Hpool in Hj by done.
    eapply out_stable; [by apply Hr|auto].
Qed.
(** A change by no thread. *)
Lemma outside_step s m' g : pool_inv s g → inv m' g → (∀ j, rely j (cf_mem s) g m' g) → pool_inv {| cf_mem := m'; cf_pool := cf_pool s |} g.
Proof.
  intros [Hi Hrg Hno] Hi' Hr. split; [done| |].
  - intros j p l Hj. destruct (Hrg j p l Hj) as (P&HP&HPm&Hk). exists P. split_and!; [done|by eapply HP; [apply Hr|]|done].
  - intros j Hj. eapply out_stable; [apply Hr|by apply Hno].
Qed.
Lemma do_step_inv i s s' g :
  (∀ j m g, rely j m g m g) → pool_inv s g → do_step (px_exec X) i s = Some s' → ∃ g', pool_inv s' g'.
Proof.
  intros Hrefl Hp Hs. unfold do_step in Hs. destruct (cf_pool s !! i) as [[p l]|] eqn:Hpi; [|done].
  destruct (p_rg _ _ Hp i _ _ Hpi) as (P&HP&HPm&Hk). destruct p as [|e k|body x k]; [done| |].
  - destruct (px_exec X i e (cf_mem s)) as [[r m']|] eqn:He; [|done]. injection Hs as <-.
    destruct (proj2 (Hk _ _ (p_inv _ _ Hp) HPm) _ _ He) as (g'&P'&Hok&Hst&HP'&Hk').
    exists g'. apply (pool_step i s m' g); [done|done| |].
    + intros j Hj. by rewrite lookup_insert_ne.
    + rewrite lookup_insert_eq. by exists P'.
  - injection Hs as <-. destruct (Hk _ _ (p_inv _ _ Hp) HPm) as (I&R&HI&Hst&Hb&Hk'). exists g.
    apply (pool_step i s (cf_mem s) g); [done|split; [apply Hp|auto]| |].
    + intros j Hj. by rewrite lookup_insert_ne.
    + rewrite lookup_insert_eq. exists (I x). split_and!; [done|done|by eapply rg_unroll].
Qed.
Lemma pool_safe s g i e k l : pool_inv s g → cf_pool s !! i = Some (Act e k, l) → px_safe X i e (cf_mem s) g.
Proof. intros Hp Hpi. destruct (p_rg _ _ Hp i _ _ Hpi) as (P&_&HP&Hk). by apply (Hk _ _ (p_inv _ _ Hp)). Qed.
End pools.
End logic.
