(* ===== verification/RqLock.v ===== *)
(** The locks of the run queues (core.c, sched.h).

    A run queue is locked by its own lock, or, while core scheduling is on, by the lock of
    the leader of its core; the switch happens while other CPUs take and wait for locks.  A
    task is locked by its own lock and that of the run queue it is on, which may change while
    one waits.  The functions are programs of atomic accesses ([Interleave]). *)
From S2P Require Import Prelude Interleave.

(** The CPU that leads the core of a CPU ([rq->core->cpu]), the threads of each online core
    in the order of their numbers ([cpu_smt_mask]), the offline CPUs; whether the kernel is
    preemptible. *)
Class Topology := {
  core_of : Z → Z;
  smt_masks : list (list Z);
  offline_cpus : list Z;
  preemption : bool;
}.

Definition LK_QUEUED := 1.
Definition LK_MIGRATING := 2.

(** [lk_owner]: the holders of [rq->__lock]; [lk_pi]: of [p->pi_lock]; [lk_mutex]: of
    [sched_core_mutex].  [lk_key] is the static key of core scheduling and [lk_readers] the
    threads that have found it off and have preemption disabled since; [lk_enabled] is
    [rq->core_enabled]; [lk_cpu] and [lk_on_rq] are the CPU and the state of each task. *)
Record lk_mem := {
  lk_owner : gmap Z nat; lk_pi : gmap Z nat; lk_mutex : option nat; lk_key : bool; lk_readers : gset nat;
  lk_enabled : Z → bool; lk_cpu : Z → Z; lk_on_rq : Z → Z
}.
#[export] Instance eta_lk_mem : Eta lk_mem := λ r,
  {| lk_owner := lk_owner r; lk_pi := lk_pi r; lk_mutex := lk_mutex r; lk_key := lk_key r; lk_readers := lk_readers r;
     lk_enabled := lk_enabled r; lk_cpu := lk_cpu r; lk_on_rq := lk_on_rq r |}.

(** [Queued t c] asks whether task [t] is in the queue of run queue [c].  [Touch c] stands for
    what is done to run queue [c], [TouchTask t c] to task [t] there. *)
Inductive lk_access :=
  | ReadKey | WriteKey (b : bool) | SyncRcu | MutexLock | MutexUnlock | Lockp (c : Z) | LockpKey (c : Z)
  | SpinLock (l : Z) | SpinTrylock (l : Z) | SpinUnlock (l : Z) | PiLock (t : Z) | PiUnlock (t : Z)
  | ReadCpu (t : Z) | Queued (t c : Z) | WriteCpu (t c : Z) | ReadOnRq (t : Z) | WriteOnRq (t v : Z) | WriteEnabled (c : Z) (b : bool)
  | Touch (c : Z) | TouchTask (t c : Z).
Abbreviation lprog := (prog lk_access).
Abbreviation lk_config := (pool lk_access lk_mem unit).

Section code.
Context {TP : Topology}.

(** * Run queues *)

Definition __rq_lockp (m : lk_mem) (c : Z) : Z := if lk_enabled m c then core_of c else c.
Definition rq_lockp (m : lk_mem) (c : Z) : Z := if lk_key m && lk_enabled m c then core_of c else c.

Definition rq_lock_round (c s : Z) : lprog (Z + Z) :=
  lock ← access_ (Lockp c);
  do_ (SpinLock lock);;
  now ← access_ (Lockp c);
  if lock =? now then break 0 else do_ (SpinUnlock lock);; again s.
Definition raw_spin_rq_lock_nested (c : Z) : lprog unit :=
  enabled ← test ReadKey;
  if negb enabled then do_ (SpinLock c) else loop (rq_lock_round c) 0;; mret tt.
Definition raw_spin_rq_lock (c : Z) : lprog unit := raw_spin_rq_lock_nested c.

Definition rq_trylock_round (c s : Z) : lprog (Z + Z) :=
  lock ← access_ (Lockp c);
  ret ← test (SpinTrylock lock);
  if negb ret then break 0 else
  now ← access_ (Lockp c);
  if lock =? now then break 1 else do_ (SpinUnlock lock);; again s.
Definition raw_spin_rq_trylock (c : Z) : lprog bool :=
  enabled ← test ReadKey;
  if negb enabled then test (SpinTrylock c) else r ← loop (rq_trylock_round c) 0; mret (negb (r =? 0)).

Definition raw_spin_rq_unlock (c : Z) : lprog unit := lock ← access_ (LockpKey c); do_ (SpinUnlock lock).

(** * Two run queues *)

Definition rq_order_less (c1 c2 : Z) : bool :=
  if core_of c1 <? core_of c2 then true else if core_of c2 <? core_of c1 then false else c1 <? c2.

Definition double_rq_lock (rq1 rq2 : Z) : lprog unit :=
  let '(rq1, rq2) := if rq_order_less rq2 rq1 then (rq2, rq1) else (rq1, rq2) in
  raw_spin_rq_lock rq1;;
  lock1 ← access_ (Lockp rq1);
  lock2 ← access_ (Lockp rq2);
  if negb (lock1 =? lock2) then raw_spin_rq_lock_nested rq2 else mret tt.

Definition double_rq_unlock (rq1 rq2 : Z) : lprog unit :=
  lock1 ← access_ (Lockp rq1);
  lock2 ← access_ (Lockp rq2);
  (if negb (lock1 =? lock2) then raw_spin_rq_unlock rq2 else mret tt);;
  raw_spin_rq_unlock rq1.

(** With the lock of [this_rq] held; whether it was given up in between. *)
Definition _double_lock_balance (this_rq busiest : Z) : lprog bool :=
  if preemption then raw_spin_rq_unlock this_rq;; double_rq_lock this_rq busiest;; mret true else
  lock1 ← access_ (Lockp this_rq);
  lock2 ← access_ (Lockp busiest);
  have ← (if lock1 =? lock2 then mret true else raw_spin_rq_trylock busiest);
  if have : bool then mret false else
  if rq_order_less this_rq busiest then raw_spin_rq_lock_nested busiest;; mret false else
  raw_spin_rq_unlock this_rq;; double_rq_lock this_rq busiest;; mret true.
Definition double_lock_balance (this_rq busiest : Z) : lprog bool := _double_lock_balance this_rq busiest.
Definition double_unlock_balance (this_rq busiest : Z) : lprog unit :=
  lock1 ← access_ (Lockp this_rq);
  lock2 ← access_ (Lockp busiest);
  if negb (lock1 =? lock2) then raw_spin_rq_unlock busiest else mret tt.

(** * Tasks *)

(** [while (task_on_rq_migrating(p)) cpu_relax();] *)
Definition wait_migrating (t : Z) : lprog Z :=
  loop (λ s, on_rq ← access_ (ReadOnRq t); if on_rq =? LK_MIGRATING then again s else break 0) 0.

Definition __task_rq_lock (t : Z) : lprog Z :=
  loop (λ s,
    rq ← access_ (ReadCpu t);
    raw_spin_rq_lock rq;;
    now ← access_ (ReadCpu t);
    on_rq ← access_ (ReadOnRq t);
    if (rq =? now) && negb (on_rq =? LK_MIGRATING) then break rq else
    raw_spin_rq_unlock rq;;
    wait_migrating t;;
    again s) 0.
Definition task_rq_lock (t : Z) : lprog Z :=
  loop (λ s,
    do_ (PiLock t);;
    rq ← access_ (ReadCpu t);
    raw_spin_rq_lock rq;;
    now ← access_ (ReadCpu t);
    on_rq ← access_ (ReadOnRq t);
    if (rq =? now) && negb (on_rq =? LK_MIGRATING) then break rq else
    raw_spin_rq_unlock rq;;
    do_ (PiUnlock t);;
    wait_migrating t;;
    again s) 0.
Definition __task_rq_unlock (rq : Z) : lprog unit := raw_spin_rq_unlock rq.
Definition task_rq_unlock (rq t : Z) : lprog unit := raw_spin_rq_unlock rq;; do_ (PiUnlock t).

(** * Core scheduling *)

Fixpoint each (cs : list Z) (f : Z → lprog unit) : lprog unit := match cs with [] => mret tt | c :: cs => f c;; each cs f end.
Definition sched_core_lock (smt : list Z) : lprog unit := each smt (λ t, do_ (SpinLock t)).
Definition sched_core_unlock (smt : list Z) : lprog unit := each smt (λ t, do_ (SpinUnlock t)).
Fixpoint flip_online (masks : list (list Z)) (enabled : bool) : lprog unit :=
  match masks with
  | [] => mret tt
  | smt :: masks =>
      sched_core_lock smt;;
      each smt (λ t, do_ (WriteEnabled t enabled));;
      sched_core_unlock smt;;
      flip_online masks enabled
  end.
Definition core_flip (enabled : bool) : lprog unit :=
  flip_online smt_masks enabled;; each offline_cpus (λ c, do_ (WriteEnabled c enabled)).
Definition core_enable : lprog unit := do_ (WriteKey true);; do_ SyncRcu;; core_flip true.
Definition core_disable : lprog unit := core_flip false;; do_ (WriteKey false).

(** * The users of the locks *)

(** A task is moved to another CPU without both locks, or with both; is woken up; blocks. *)
Definition migrate_queued (src t new : Z) : lprog unit :=
  raw_spin_rq_lock src;;
  queued ← test (Queued t src);
  if queued : bool then
    do_ (WriteOnRq t LK_MIGRATING);;
    do_ (WriteCpu t new);;
    raw_spin_rq_unlock src;;
    raw_spin_rq_lock new;;
    do_ (WriteOnRq t LK_QUEUED);;
    raw_spin_rq_unlock new
  else raw_spin_rq_unlock src.
Definition migrate_both (src t dst : Z) : lprog unit :=
  double_rq_lock src dst;;
  queued ← test (Queued t src);
  (if queued : bool then
     do_ (WriteOnRq t LK_MIGRATING);; do_ (WriteCpu t dst);; do_ (WriteOnRq t LK_QUEUED)
   else mret tt);;
  double_rq_unlock src dst.
Definition wake (t new : Z) : lprog unit :=
  do_ (PiLock t);;
  on_rq ← access_ (ReadOnRq t);
  (if on_rq =? 0 then
     do_ (WriteCpu t new);;
     raw_spin_rq_lock new;;
     do_ (WriteOnRq t LK_QUEUED);;
     raw_spin_rq_unlock new
   else
     rq ← __task_rq_lock t;
     do_ (TouchTask t rq);;
     __task_rq_unlock rq);;
  do_ (PiUnlock t).
Definition block (c t : Z) : lprog unit :=
  raw_spin_rq_lock c;;
  queued ← test (Queued t c);
  (if queued : bool then do_ (WriteOnRq t 0) else mret tt);;
  raw_spin_rq_unlock c.

Inductive user :=
  | use_rq (c : Z) | use_double (c1 c2 : Z) | use_balance (this_rq busiest : Z) | use_task (t : Z)
  | use_migrate (src t new : Z) | use_migrate_both (src t dst : Z) | use_wake (t new : Z) | use_block (c t : Z) | use_core (enable : bool).
Definition user_prog (u : user) : lprog unit :=
  match u with
  | use_rq c => raw_spin_rq_lock c;; do_ (Touch c);; raw_spin_rq_unlock c
  | use_double c1 c2 => double_rq_lock c1 c2;; do_ (Touch c1);; do_ (Touch c2);; double_rq_unlock c1 c2
  | use_balance this_rq busiest =>
      raw_spin_rq_lock this_rq;; double_lock_balance this_rq busiest;; do_ (Touch this_rq);; do_ (Touch busiest);;
      double_unlock_balance this_rq busiest;; raw_spin_rq_unlock this_rq
  | use_task t => rq ← task_rq_lock t; do_ (TouchTask t rq);; task_rq_unlock rq t
  | use_migrate src t new => migrate_queued src t new
  | use_migrate_both src t dst => migrate_both src t dst
  | use_wake t new => wake t new
  | use_block c t => block c t
  | use_core enable => do_ MutexLock;; (if enable then core_enable else core_disable);; do_ MutexUnlock
  end.

(** * Semantics *)

(** A thread without a run-queue lock is preemptible again: after it has released the last
    one, or tried in vain to take one. *)
Definition leave (i : nat) (m : lk_mem) : lk_mem :=
  m <| lk_readers := if bool_decide (map_Forall (λ _ j, j ≠ i) (lk_owner m)) then lk_readers m ∖ {[i]} else lk_readers m |>.
Definition spin_unlock (i : nat) (l : Z) (m : lk_mem) : lk_mem := leave i (m <| lk_owner := delete l (lk_owner m) |>).
Definition lk_exec (i : nat) (e : lk_access) (m : lk_mem) : option (Z * lk_mem) :=
  match e with
  | ReadKey => Some (of_bool (lk_key m), if lk_key m then m else m <| lk_readers := {[i]} ∪ lk_readers m |>)
  | WriteKey b => Some (0, m <| lk_key := b |>)
  | SyncRcu => if bool_decide (lk_readers m = ∅) then Some (0, m) else None
  | MutexLock => match lk_mutex m with Some _ => None | None => Some (0, m <| lk_mutex := Some i |>) end
  | MutexUnlock => Some (0, m <| lk_mutex := None |>)
  | Lockp c => Some (__rq_lockp m c, m)
  | LockpKey c => Some (rq_lockp m c, m)
  | SpinLock l => match lk_owner m !! l with Some _ => None | None => Some (0, m <| lk_owner := <[l := i]> (lk_owner m) |>) end
  | SpinTrylock l =>
      match lk_owner m !! l with Some _ => Some (0, leave i m) | None => Some (1, m <| lk_owner := <[l := i]> (lk_owner m) |>) end
  | SpinUnlock l => Some (0, spin_unlock i l m)
  | PiLock t => match lk_pi m !! t with Some _ => None | None => Some (0, m <| lk_pi := <[t := i]> (lk_pi m) |>) end
  | PiUnlock t => Some (0, m <| lk_pi := delete t (lk_pi m) |>)
  | ReadCpu t => Some (lk_cpu m t, m)
  | Queued t c => Some (of_bool ((lk_cpu m t =? c) && (lk_on_rq m t =? LK_QUEUED)), m)
  | WriteCpu t c => Some (0, m <| lk_cpu := fset (lk_cpu m) t c |>)
  | ReadOnRq t => Some (lk_on_rq m t, m)
  | WriteOnRq t v => Some (0, m <| lk_on_rq := fset (lk_on_rq m) t v |>)
  | WriteEnabled c b => Some (0, m <| lk_enabled := fset (lk_enabled m) c b |>)
  | Touch _ | TouchTask _ _ => Some (0, m)
  end.

(** Threads begin to use locks, do an access, or are done. *)
Inductive lk_move := LkBegin (i : nat) (u : user) | LkDo (i : nat) | LkEnd (i : nat).
Definition lk_step (mv : lk_move) (s : lk_config) : option lk_config :=
  match mv with
  | LkBegin i u =>
      match cf_pool s !! i with
      | Some _ => None
      | None => Some {| cf_mem := cf_mem s; cf_pool := <[i := (user_prog u, tt)]> (cf_pool s) |}
      end
  | LkDo i => do_step lk_exec i s
  | LkEnd i =>
      match cf_pool s !! i with Some (Ret _, _) => Some {| cf_mem := cf_mem s; cf_pool := delete i (cf_pool s) |} | _ => None end
  end.
Fixpoint lk_run (mvs : list lk_move) (s : lk_config) : option lk_config :=
  match mvs with [] => Some s | mv :: mvs => match lk_step mv s with Some s => lk_run mvs s | None => None end end.
End code.
