(* ===== verification/RqLockLogic.v ===== *)
(** The protocol of the run-queue locks: what holds of the locks and the switch to core
    scheduling, what a holder may rely on, and the accesses that change them. *)
From S2P Require Import Prelude Interleave RqLock.

Definition all_cpus {TP : Topology} : list Z := concat smt_masks ++ offline_cpus.
(** The leader of a core is one of its threads; an online core is taken with all its threads,
    in increasing order; an offline CPU is a core of its own. *)
Class TopologyLaws (TP : Topology) : Prop := {
  core_idem c : core_of (core_of c) = core_of c;
  smt_sorted smt : smt ∈ smt_masks → StronglySorted Z.lt smt;
  smt_core smt t c : smt ∈ smt_masks → t ∈ smt → core_of c = core_of t ↔ c ∈ smt;
  offline_core c d : c ∈ offline_cpus → core_of d = core_of c ↔ d = c;
}.

(** The thread that migrates each task that is on its way. *)
Abbreviation lk_ghost := (gmap Z nat).
Create HintDb lk.

Section logic.
Context {TP : Topology} {TW : TopologyLaws TP}.

Implicit Types (m : lk_mem) (g : lk_ghost) (i j : nat).
Local Abbreviation lockp := __rq_lockp.

(** The order in which locks are taken. *)
Definition less (h l : Z) : Prop := core_of h < core_of l ∨ (core_of h = core_of l ∧ h < l).

Lemma lockp_core m c : core_of (lockp m c) = core_of c.
Proof. unfold __rq_lockp. destruct (lk_enabled m c); [apply core_idem|done]. Qed.

Record lk_inv m g : Prop := {
  v_on c : lk_enabled m c = true → lk_key m = true ∧ lk_readers m = ∅ ∧ c ∈ all_cpus;
  (** the flags of a core differ only while it is switched, with all its locks held *)
  v_uniform c c' : core_of c = core_of c' → lk_enabled m c ≠ lk_enabled m c' →
    ∃ j, lk_mutex m = Some j ∧ ∀ l, core_of l = core_of c → lk_owner m !! l = Some j;
  v_mig t : lk_on_rq m t = LK_MIGRATING ↔ is_Some (g !! t);
}.

(** What thread [j] has a say in: a task on a run queue it has locked, a sleeping task whose
    lock it has, a task it migrates. *)
Definition mine_task j t m g : Prop :=
  (lk_owner m !! lockp m (lk_cpu m t) = Some j ∧ lk_on_rq m t ≠ 0) ∨ (lk_pi m !! t = Some j ∧ lk_on_rq m t = 0) ∨ g !! t = Some j.
Record lk_rely j m g m' g' : Prop := {
  y_own l : lk_owner m' !! l = Some j ↔ lk_owner m !! l = Some j;
  y_pi t : lk_pi m' !! t = Some j ↔ lk_pi m !! t = Some j;
  y_mutex : lk_mutex m' = Some j ↔ lk_mutex m = Some j;
  y_read : j ∈ lk_readers m' ↔ j ∈ lk_readers m;
  y_mig t : g' !! t = Some j ↔ g !! t = Some j;
  y_lockp l c : lk_owner m !! l = Some j → core_of l = core_of c → lockp m' c = lockp m c;
  y_flip : lk_mutex m = Some j → lk_key m' = lk_key m ∧ (∀ c, lk_enabled m' c = lk_enabled m c) ∧ (lk_key m = true → lk_readers m' ⊆ lk_readers m);
  y_task t : mine_task j t m g → lk_cpu m' t = lk_cpu m t ∧ lk_on_rq m' t = lk_on_rq m t;
}.

Lemma mine_task_rely j t m g m' g' : lk_rely j m g m' g' → mine_task j t m g → mine_task j t m' g'.
Proof.
  intros Hr Hm. destruct (y_task _ _ _ _ _ Hr t Hm) as [Hc Ho]. unfold mine_task. rewrite Hc, Ho.
  destruct Hm as [[Hl ?]|[[? ?]|?]]; [left|right; left|right; right].
  - rewrite (y_lockp _ _ _ _ _ Hr _ _ Hl (lockp_core _ _)). split; [by apply (y_own _ _ _ _ _ Hr)|done].
  - split; [by apply (y_pi _ _ _ _ _ Hr)|done].
  - by apply (y_mig _ _ _ _ _ Hr).
Qed.
Lemma lk_rely_refl j m g : lk_rely j m g m g.
Proof. by split. Qed.
Lemma lk_rely_trans j m1 g1 m2 g2 m3 g3 : lk_rely j m1 g1 m2 g2 → lk_rely j m2 g2 m3 g3 → lk_rely j m1 g1 m3 g3.
Proof.
  intros H1 H2. pose proof (λ t, mine_task_rely j t _ _ _ _ H1) as Hmt. destruct H1, H2. split.
  - intros l. by rewrite y_own1, y_own0.
  - intros t. by rewrite y_pi1, y_pi0.
  - by rewrite y_mutex1, y_mutex0.
  - by rewrite y_read1, y_read0.
  - intros t. by rewrite y_mig1, y_mig0.
  - intros l c Hl Hc. rewrite (y_lockp1 l c), (y_lockp0 l c); [done|done|done|by apply y_own0|done].
  - intros Hm. destruct (y_flip0 Hm) as (Hk&He&Hs). destruct y_flip1 as (Hk'&He'&Hs'); [by apply y_mutex0|].
    split_and!; [congruence|intros c; by rewrite He', He|]. intros Ht. etrans; [apply Hs'; congruence|auto].
  - intros t Ht. destruct (y_task0 t Ht), (y_task1 t (Hmt t Ht)). split; congruence.
Qed.

(** What has to hold at an access: run-queue locks are taken upwards, the lock of a task
    before them and the mutex first; the grace period is awaited without them; a run queue
    and a task are touched under their locks. *)
Definition lk_safe (i : nat) (e : lk_access) m g : Prop :=
  match e with
  | SpinLock l => ∀ h, lk_owner m !! h = Some i → less h l
  | PiLock _ => (∀ h, lk_owner m !! h ≠ Some i) ∧ (∀ t, lk_pi m !! t ≠ Some i) ∧ (i ∉ lk_readers m)
  | SyncRcu => (∀ h, lk_owner m !! h ≠ Some i) ∧ (∀ t, lk_pi m !! t ≠ Some i) ∧ (i ∉ lk_readers m)
  | MutexLock => (∀ h, lk_owner m !! h ≠ Some i) ∧ (∀ t, lk_pi m !! t ≠ Some i) ∧ (i ∉ lk_readers m) ∧ lk_mutex m ≠ Some i
  | Touch c => lk_owner m !! lockp m c = Some i
  | TouchTask t c => lk_owner m !! lockp m c = Some i ∧ lk_pi m !! t = Some i ∧ lk_cpu m t = c ∧ lk_on_rq m t ≠ LK_MIGRATING
  | WriteCpu t _ => mine_task i t m g
  | WriteOnRq t _ => lk_owner m !! lockp m (lk_cpu m t) = Some i
  | _ => True
  end.
Definition lks : protocol lk_access lk_mem lk_ghost :=
  {| px_exec := lk_exec; px_inv := lk_inv; px_rely := lk_rely; px_safe := lk_safe |}.
Local Abbreviation assn := (@assn lk_mem lk_ghost).
Local Abbreviation stable := (stable lks).
Local Abbreviation ok_step := (ok_step lks).
Local Abbreviation rg := (rg lks).

(** * Assertions *)

(** The locks a thread holds, whether it may be one of the readers, the task it migrates. *)
Record held := { h_rq : gset Z; h_pi : option Z; h_mutex : bool; h_rcu : bool; h_mig : option Z }.
#[export] Instance eta_held : Eta held := λ r,
  {| h_rq := h_rq r; h_pi := h_pi r; h_mutex := h_mutex r; h_rcu := h_rcu r; h_mig := h_mig r |}.
Definition nothing : held := {| h_rq := ∅; h_pi := None; h_mutex := false; h_rcu := false; h_mig := None |}.
Record base (i : nat) (h : held) (m : lk_mem) (g : lk_ghost) : Prop := {
  b_rq l : lk_owner m !! l = Some i ↔ l ∈ h_rq h;
  b_pi t : lk_pi m !! t = Some i ↔ h_pi h = Some t;
  b_mutex : lk_mutex m = Some i ↔ h_mutex h = true;
  b_rcu : i ∈ lk_readers m → h_rcu h = true;
  b_mig t : g !! t = Some i ↔ h_mig h = Some t;
}.
(** Run queue [c] is locked, by the lock [l]. *)
Definition rq_held (i : nat) (c l : Z) : assn := λ m g, lockp m c = l ∧ lk_owner m !! l = Some i.
(** Task [t] is on CPU [c] in the state [v], and the thread has a say in that. *)
Definition task_at (i : nat) (t c v : Z) : assn := λ m g, lk_cpu m t = c ∧ lk_on_rq m t = v ∧ mine_task i t m g.

Lemma base_stable i h : stable i (base i h).
Proof. intros m g m' g' [] []. split; intros; rewrite ?y_own0, ?y_pi0, ?y_mutex0, ?y_mig0; auto. apply b_rcu0. by apply y_read0. Qed.
Lemma rq_held_stable i c l : stable i (rq_held i c l).
Proof.
  intros m g m' g' Hr [Hl Ho]. split; [|by apply (y_own _ _ _ _ _ Hr)]. rewrite <- Hl. apply (y_lockp _ _ _ _ _ Hr l); [done|].
  by rewrite <- Hl, lockp_core.
Qed.
Lemma task_at_stable i t c v : stable i (task_at i t c v).
Proof.
  intros m g m' g' Hr (Hc&Hv&Hm). destruct (y_task _ _ _ _ _ Hr t Hm) as [Hc' Hv']. split_and!; [congruence|congruence|].
  by eapply mine_task_rely.
Qed.
Lemma lk_both_stable i (P Q : assn) : stable i P → stable i Q → stable i (both P Q).
Proof. apply both_stable. Qed.
Lemma lk_true_stable i : stable i (λ _ _, True).
Proof. done. Qed.
Lemma lk_pure_stable i (Y : Prop) (P : assn) : stable i P → stable i (λ m g, P m g ∧ Y).
Proof. apply pure_stable. Qed.
Hint Resolve base_stable rq_held_stable task_at_stable lk_both_stable lk_true_stable lk_pure_stable : lk.
Lemma lk_trans i m1 g1 m2 g2 m3 g3 : ok_step i m1 g1 m2 g2 → ok_step i m2 g2 m3 g3 → ok_step i m1 g1 m3 g3.
Proof. apply ok_trans. intros. by eapply lk_rely_trans. Qed.

(** * Accesses *)

(** A change of locks only: the switch, the tasks and the readers stay. *)
Definition same_rest m m' : Prop :=
  lk_key m' = lk_key m ∧ lk_enabled m' = lk_enabled m ∧ lk_cpu m' = lk_cpu m ∧ lk_on_rq m' = lk_on_rq m.
Lemma same_lockp m m' c : same_rest m m' → lockp m' c = lockp m c.
Proof. intros (_&He&_). unfold __rq_lockp. by rewrite He. Qed.
Lemma locks_rely j m g m' :
  same_rest m m' → (∀ l, lk_owner m' !! l = Some j ↔ lk_owner m !! l = Some j) → (∀ t, lk_pi m' !! t = Some j ↔ lk_pi m !! t = Some j) →
  (lk_mutex m' = Some j ↔ lk_mutex m = Some j) → (j ∈ lk_readers m' ↔ j ∈ lk_readers m) →
  (lk_key m = true → lk_readers m' ⊆ lk_readers m) → lk_rely j m g m' g.
Proof.
  intros Hs Ho Hp Hx Hr Hsub. split; auto.
  - intros l c _ _. by apply same_lockp.
  - intros _. destruct Hs as (->&->&_). auto.
  - intros t _. by destruct Hs as (_&_&->&->).
Qed.

Lemma ok_spin_lock i m g l : lk_inv m g → lk_owner m !! l = None → ok_step i m g (m <| lk_owner := <[l := i]> (lk_owner m) |>) g.
Proof.
  intros Hi Hl. split.
  - destruct Hi. split; try done. intros c c' Hc He. destruct (v_uniform0 c c' Hc He) as (j&Hj&Hall). exists j. split; [done|].
    intros l' Hl'. cbn. rewrite lookup_insert_ne; [by apply Hall|]. intros <-. rewrite Hall in Hl; done.
  - intros j Hj. apply locks_rely; try done. intros l'. cbn. destruct (decide (l = l')) as [<-|].
    + rewrite lookup_insert_eq, Hl. split; congruence.
    + by rewrite lookup_insert_ne.
Qed.
(** A release, by the thread that switches a core only when the core is uniform again. *)
Lemma ok_spin_unlock i m g l :
  lk_inv m g → lk_owner m !! l = Some i →
  (lk_mutex m = Some i → ∀ c c', core_of c = core_of l → core_of c' = core_of l → lk_enabled m c = lk_enabled m c') →
  ok_step i m g (spin_unlock i l m) g.
Proof.
  intros Hi Hl Hun. split.
  - destruct Hi. split; try done.
    + intros c Hc. destruct (v_on0 c Hc) as (?&Hr&?). split_and!; [done| |done]. cbn. rewrite Hr. by destruct (bool_decide _); set_solver.
    + intros c c' Hc He. cbn in He. destruct (v_uniform0 c c' Hc He) as (j&Hj&Hall). exists j. split; [done|]. intros l' Hl'. cbn.
      rewrite lookup_delete_ne; [by apply Hall|]. intros <-. assert (j = i) as -> by (apply Hall in Hl'; congruence).
      destruct He. apply Hun; congruence.
  - intros j Hj. apply locks_rely; try done; cbn.
    + intros l'. rewrite lookup_delete_Some. split; [by intros []|]. intros Hl'. split; [congruence|done].
    + destruct (bool_decide _); set_solver.
    + intros _. destruct (bool_decide _); set_solver.
Qed.
Lemma ok_leave i m g : lk_inv m g → ok_step i m g (leave i m) g.
Proof.
  intros Hi. split.
  - destruct Hi. split; try done. intros c Hc. destruct (v_on0 c Hc) as (?&Hr&?). split_and!; [done| |done]. cbn. rewrite Hr.
    by destruct (bool_decide _); set_solver.
  - intros j Hj. apply locks_rely; try done; cbn; [destruct (bool_decide _); set_solver|]. intros _. destruct (bool_decide _); set_solver.
Qed.
Lemma ok_pi_lock i m g t : lk_inv m g → lk_pi m !! t = None → ok_step i m g (m <| lk_pi := <[t := i]> (lk_pi m) |>) g.
Proof.
  intros Hi Hl. split; [by destruct Hi|]. intros j Hj. apply locks_rely; try done. intros t'. cbn. destruct (decide (t = t')) as [<-|].
  - rewrite lookup_insert_eq, Hl. split; congruence.
  - by rewrite lookup_insert_ne.
Qed.
Lemma ok_pi_unlock i m g t : lk_inv m g → lk_pi m !! t = Some i → ok_step i m g (m <| lk_pi := delete t (lk_pi m) |>) g.
Proof.
  intros Hi Hl. split; [by destruct Hi|]. intros j Hj. apply locks_rely; try done. intros t'. cbn. rewrite lookup_delete_Some.
  split; [by intros []|]. intros Ht. split; [congruence|done].
Qed.
Lemma ok_read_key i m g : lk_inv m g → lk_key m = false → ok_step i m g (m <| lk_readers := {[i]} ∪ lk_readers m |>) g.
Proof.
  intros Hi Hk. split.
  - destruct Hi. split; try done. intros c Hc. cbn in Hc. destruct (v_on0 c Hc). congruence.
  - intros j Hj. apply locks_rely; try done; cbn; [set_solver|congruence].
Qed.
(** ** Tasks *)

Lemma tasks_rely i j m g m' g' t :
  j ≠ i → lk_owner m' = lk_owner m → lk_pi m' = lk_pi m → lk_mutex m' = lk_mutex m → lk_readers m' = lk_readers m →
  lk_key m' = lk_key m → lk_enabled m' = lk_enabled m →
  (∀ t', t' ≠ t → lk_cpu m' t' = lk_cpu m t' ∧ lk_on_rq m' t' = lk_on_rq m t') → (∀ t', g' !! t' = Some j ↔ g !! t' = Some j) →
  ¬ mine_task j t m g → lk_rely j m g m' g'.
Proof.
  intros Hne Ho Hp Hx Hr Hk He Ht Hg Hnot. split; intros; rewrite ?Ho, ?Hp, ?Hx, ?Hr; auto.
  - unfold __rq_lockp. by rewrite He.
  - rewrite Hk, He. auto.
  - apply Ht. by intros ->.
Qed.
Lemma mine_other i j t m g : lk_owner m !! lockp m (lk_cpu m t) = Some i → lk_on_rq m t ≠ 0 → (∀ k, g !! t = Some k → k = i) → j ≠ i → ¬ mine_task j t m g.
Proof. intros Ho Hr Hg Hne [[Ho' _]|[[_ Hr']|Hm]]; [congruence|done|apply Hg in Hm; congruence]. Qed.

(** A queued task blocks, or sets out to migrate; a sleeping one is given a CPU, then
    queued; a migrating one arrives. *)
Lemma ok_block i m g t :
  lk_inv m g → lk_owner m !! lockp m (lk_cpu m t) = Some i → lk_on_rq m t = LK_QUEUED →
  ok_step i m g (m <| lk_on_rq := fset (lk_on_rq m) t 0 |>) g.
Proof.
  intros Hi Ho Hq. assert (∀ k, g !! t = Some k → k = i) as Hg.
  { intros k Hk. assert (lk_on_rq m t = LK_MIGRATING) by (apply (v_mig _ _ Hi); by eexists). rewrite Hq in *. done. }
  split.
  - destruct Hi. split; try done. intros t'. cbn. destruct (decide (t' = t)) as [->|]; [|by rewrite fset_ne].
    rewrite fset_eq, <- v_mig0, Hq. done.
  - intros j Hj. eapply (tasks_rely i j _ _ _ _ t); try done.
    + intros t' Hne. cbn. by rewrite fset_ne.
    + apply (mine_other i); [done|by rewrite Hq|done|done].
Qed.
Lemma ok_depart i m g t :
  lk_inv m g → lk_owner m !! lockp m (lk_cpu m t) = Some i → lk_on_rq m t = LK_QUEUED →
  ok_step i m g (m <| lk_on_rq := fset (lk_on_rq m) t LK_MIGRATING |>) (<[t := i]> g).
Proof.
  intros Hi Ho Hq. assert (g !! t = None) as Hg.
  { apply eq_None_not_Some. intros Hs. apply (v_mig _ _ Hi) in Hs. rewrite Hq in Hs. done. }
  split.
  - destruct Hi. split; try done. intros t'. cbn. destruct (decide (t' = t)) as [->|]; [by rewrite fset_eq, lookup_insert_eq|].
    by rewrite fset_ne, lookup_insert_ne.
  - intros j Hj. eapply (tasks_rely i j _ _ _ _ t); try done.
    + intros t' Hne. cbn. by rewrite fset_ne.
    + intros t'. destruct (decide (t = t')) as [<-|]; [rewrite lookup_insert_eq, Hg; split; congruence|by rewrite lookup_insert_ne].
    + apply (mine_other i); [done|by rewrite Hq| |done]. intros k. by rewrite Hg.
Qed.
Lemma ok_move i m g t c :
  lk_inv m g → lk_owner m !! lockp m (lk_cpu m t) = Some i → lk_on_rq m t = LK_MIGRATING → g !! t = Some i →
  ok_step i m g (m <| lk_cpu := fset (lk_cpu m) t c |>) g.
Proof.
  intros Hi Ho Hq Hg. split; [by destruct Hi|]. intros j Hj. eapply (tasks_rely i j _ _ _ _ t); try done.
  - intros t' Hne. cbn. by rewrite fset_ne.
  - apply (mine_other i); [done|by rewrite Hq| |done]. intros k. congruence.
Qed.
Lemma ok_arrive i m g t :
  lk_inv m g → lk_owner m !! lockp m (lk_cpu m t) = Some i → lk_on_rq m t = LK_MIGRATING → g !! t = Some i →
  ok_step i m g (m <| lk_on_rq := fset (lk_on_rq m) t LK_QUEUED |>) (delete t g).
Proof.
  intros Hi Ho Hq Hg. split.
  - destruct Hi. split; try done. intros t'. cbn. destruct (decide (t' = t)) as [->|]; [|by rewrite fset_ne, lookup_delete_ne].
    rewrite fset_eq, lookup_delete_eq. split; [done|by intros []].
  - intros j Hj. eapply (tasks_rely i j _ _ _ _ t); try done.
    + intros t' Hne. cbn. by rewrite fset_ne.
    + intros t'. rewrite lookup_delete_Some. split; [by intros []|]. intros Ht. split; [congruence|done].
    + apply (mine_other i); [done|by rewrite Hq| |done]. intros k. congruence.
Qed.
Lemma sleeping_other i j t m g : lk_inv m g → lk_pi m !! t = Some i → lk_on_rq m t = 0 → j ≠ i → ¬ mine_task j t m g.
Proof.
  intros Hi Hp Hr Hne [[_ ?]|[[? _]|Hm]]; [done|congruence|]. assert (lk_on_rq m t = LK_MIGRATING) by (apply (v_mig _ _ Hi); by eexists).
  rewrite Hr in *. done.
Qed.
Lemma ok_place i m g t c :
  lk_inv m g → lk_pi m !! t = Some i → lk_on_rq m t = 0 → ok_step i m g (m <| lk_cpu := fset (lk_cpu m) t c |>) g.
Proof.
  intros Hi Hp Hr. split; [by destruct Hi|]. intros j Hj. eapply (tasks_rely i j _ _ _ _ t); try done.
  - intros t' Hne. cbn. by rewrite fset_ne.
  - by eapply sleeping_other.
Qed.
Lemma ok_activate i m g t :
  lk_inv m g → lk_pi m !! t = Some i → lk_on_rq m t = 0 → ok_step i m g (m <| lk_on_rq := fset (lk_on_rq m) t LK_QUEUED |>) g.
Proof.
  intros Hi Hp Hr. split.
  - destruct Hi. split; try done. intros t'. cbn. destruct (decide (t' = t)) as [->|]; [|by rewrite fset_ne]. rewrite fset_eq, <- v_mig0, Hr. done.
  - intros j Hj. eapply (tasks_rely i j _ _ _ _ t); try done; [|by eapply sleeping_other]. intros t' Hne. cbn. by rewrite fset_ne.
Qed.

(** ** The switch *)

Lemma ok_mutex_lock i m g : lk_inv m g → lk_mutex m = None → ok_step i m g (m <| lk_mutex := Some i |>) g.
Proof.
  intros Hi Hx. split.
  - destruct Hi. split; try done. intros c c' Hc He. destruct (v_uniform0 c c' Hc He) as (j&Hj&_). congruence.
  - intros j Hj. apply locks_rely; try done. cbn. rewrite Hx. split; congruence.
Qed.
Lemma ok_mutex_unlock i m g : lk_inv m g → lk_mutex m = Some i → (∀ l, lk_owner m !! l ≠ Some i) → ok_step i m g (m <| lk_mutex := None |>) g.
Proof.
  intros Hi Hx Hno. split.
  - destruct Hi. split; try done. intros c c' Hc He. destruct (v_uniform0 c c' Hc He) as (j&Hj&Hall).
    assert (j = i) as -> by congruence. destruct (Hno c). by apply Hall.
  - intros j Hj. apply locks_rely; try done. cbn. rewrite Hx. split; congruence.
Qed.
(** The holder of the mutex sets the key; it turns it off when no flag is set. *)
Lemma ok_write_key i m g b :
  lk_inv m g → lk_mutex m = Some i → (b = false → ∀ c, lk_enabled m c = false) → ok_step i m g (m <| lk_key := b |>) g.
Proof.
  intros Hi Hx Hb. split.
  - destruct Hi. split; try done. intros c Hc. cbn in *. destruct (v_on0 c Hc) as (?&?&?). split_and!; [|done|done].
    destruct b; [done|]. by rewrite Hb in Hc.
  - intros j Hj. split; try done. cbn. congruence.
Qed.
(** It sets a flag with the locks of the whole core held, or on a core of one thread. *)
Lemma ok_write_enabled i m g c b :
  lk_inv m g → lk_mutex m = Some i → (b = true → lk_key m = true ∧ lk_readers m = ∅ ∧ c ∈ all_cpus) →
  (∀ l, core_of l = core_of c → lk_owner m !! l = Some i) ∨ (∀ d, core_of d = core_of c → d = c) →
  ok_step i m g (m <| lk_enabled := fset (lk_enabled m) c b |>) g.
Proof.
  intros Hi Hx Hb Hall. split.
  - destruct Hi. split; try done; cbn.
    + intros c'. destruct (decide (c' = c)) as [->|]; [rewrite fset_eq; by destruct b; [intros _; apply Hb|]|rewrite fset_ne by done; auto].
    + intros c1 c2 Hc He. destruct Hall as [Hall|Hone].
      * destruct (decide (core_of c1 = core_of c)) as [Hcc|]; [exists i; split; [done|]; intros l Hl; apply Hall; congruence|].
        rewrite !fset_ne in He by congruence. exact (v_uniform0 c1 c2 Hc He).
      * destruct (decide (core_of c1 = core_of c)) as [Hcc|].
        -- assert (c1 = c ∧ c2 = c) as [-> ->] by (split; apply Hone; congruence). done.
        -- rewrite !fset_ne in He by congruence. exact (v_uniform0 c1 c2 Hc He).
  - intros j Hj. split; try done; cbn; [|congruence].
    + intros l c' Hl Hc. unfold __rq_lockp. cbn. destruct (decide (c' = c)) as [->|]; [|by rewrite fset_ne]. rewrite fset_eq.
      destruct Hall as [Hall|Hone]; [apply Hall in Hc; congruence|]. rewrite (Hone (core_of c)) by apply core_idem.
      destruct b, (lk_enabled m c); done.
Qed.
End logic.
#[export] Hint Resolve base_stable rq_held_stable task_at_stable lk_both_stable lk_true_stable lk_pure_stable : lk.
