(* ===== verification/RqLockOps.v ===== *)
(** The functions that take and release run-queue locks, in the protocol of [RqLockLogic]. *)
From S2P Require Import Prelude Interleave RqLock RqLockLogic.

Abbreviation Held H P x r T := {| h_rq := H; h_pi := P; h_mutex := x; h_rcu := r; h_mig := T |}.

Section ops.
Context {TP : Topology} {TW : TopologyLaws TP}.
Local Abbreviation lockp := __rq_lockp.
Local Abbreviation assn := (@assn lk_mem lk_ghost).
Local Abbreviation stable := (stable lks).
Local Abbreviation ok_step := (ok_step lks).
Local Abbreviation rg := (rg lks).

(** * Rules *)

Lemma lk_access_ok i (P : assn) (Q : Z → assn) e :
  (∀ r, stable i (Q r)) →
  (∀ m g, lk_inv m g → P m g → lk_safe i e m g ∧ ∀ r m', lk_exec i e m = Some (r, m') → ∃ g', ok_step i m g m' g' ∧ Q r m' g') →
  rg i P (access_ e) Q.
Proof. exact (rg_access lks i P Q e). Qed.
Lemma lk_do_ok i (P : assn) (Q : assn) e :
  stable i Q →
  (∀ m g, lk_inv m g → P m g → lk_safe i e m g ∧ ∀ r m', lk_exec i e m = Some (r, m') → ∃ g', ok_step i m g m' g' ∧ Q m' g') →
  rg i P (do_ e) (λ _, Q).
Proof. exact (rg_do lks i P Q e). Qed.
Lemma lk_test_ok i (P : assn) (Q : bool → assn) e :
  (∀ b, stable i (Q b)) →
  (∀ m g, lk_inv m g → P m g → lk_safe i e m g ∧ ∀ r m', lk_exec i e m = Some (r, m') → ∃ g', ok_step i m g m' g' ∧ Q (negb (r =? 0)) m' g') →
  rg i P (test e) Q.
Proof. exact (rg_test lks i P Q e). Qed.
Lemma ok_refl i m g : lk_inv m g → ok_step i m g m g.
Proof. intros Hi. split; [done|]. intros. apply lk_rely_refl. Qed.
(** A read. *)
Lemma read_ok i (P : assn) (Q : Z → assn) e :
  lk_safe i e = (λ _ _, True) → (∀ m r m', lk_exec i e m = Some (r, m') → m' = m) → (∀ r, stable i (Q r)) →
  (∀ m g r, lk_inv m g → P m g → lk_exec i e m = Some (r, m) → Q r m g) → rg i P (access_ e) Q.
Proof.
  intros Hs Hm Hst HQ. apply lk_access_ok; [done|]. intros m g Hi HP. rewrite Hs. split; [done|]. intros r m' Hx.
  assert (m' = m) as -> by by eapply Hm. exists g. split; [by apply ok_refl|]. by eapply HQ.
Qed.

(** * Frames *)

(** [F] does not depend on the locks outside [H], nor on the readers. *)
Definition keeps (H : gset Z) (F : assn) : Prop := ∀ m m' g,
  (∀ l, l ∈ H → lk_owner m' !! l = lk_owner m !! l) → lk_pi m' = lk_pi m → same_rest m m' → F m g → F m' g.
Record frame (i : nat) (H : gset Z) (F : assn) : Prop := { f_stable : stable i F; f_keeps : keeps H F }.
Lemma frame_true i H : frame i H (λ _ _, True).
Proof. by split. Qed.
Lemma frame_both i H F F' : frame i H F → frame i H F' → frame i H (both F F').
Proof. intros [? HF] [? HF']. split; [eauto with lk|]. intros m m' g ??? [? ?]. split; [by eapply HF|by eapply HF']. Qed.
Lemma frame_mono i H H' F : H' ⊆ H → frame i H' F → frame i H F.
Proof. intros Hs [? HF]. split; [done|]. intros m m' g Ho Hp Hr. apply HF; [|done|done]. intros l Hl. apply Ho. set_solver. Qed.
Lemma frame_locked i H c l : l ∈ H → frame i H (rq_held i c l).
Proof. intros Hl. split; [eauto with lk|]. intros m m' g Ho _ Hs [? ?]. split; [by rewrite (same_lockp m)|by rewrite Ho]. Qed.
(** The lock of [c] is [v], because the thread has a lock of its core. *)
Definition fixed (i : nat) (x c v : Z) : assn := λ m g, lk_owner m !! x = Some i ∧ core_of x = core_of c ∧ lockp m c = v.
Lemma frame_fixed i H x c v : x ∈ H → frame i H (fixed i x c v).
Proof.
  intros Hx. split.
  - intros m g m' g' Hr (Ho&Hc&Hv). split_and!; [by apply (y_own _ _ _ _ _ Hr)|done|]. rewrite <- Hv. by eapply (y_lockp _ _ _ _ _ Hr).
  - intros m m' g Ho _ Hs (?&?&?). split_and!; [by rewrite Ho|done|by rewrite (same_lockp m)].
Qed.
(** A sleeping task whose lock the thread has; a task it migrates. *)
Definition asleep (i : nat) (t c : Z) : assn := λ m g, lk_cpu m t = c ∧ lk_on_rq m t = 0 ∧ lk_pi m !! t = Some i.
Definition underway (i : nat) (t c : Z) : assn := λ m g, lk_cpu m t = c ∧ lk_on_rq m t = LK_MIGRATING ∧ g !! t = Some i.
Lemma frame_asleep i H t c : frame i H (asleep i t c).
Proof.
  split.
  - intros m g m' g' Hr (Hc&Ho&Hp). destruct (y_task _ _ _ _ _ Hr t) as [Hc' Ho']; [right; by left|].
    split_and!; [congruence|congruence|by apply (y_pi _ _ _ _ _ Hr)].
  - intros m m' g _ Hp (_&_&Hc&Ho) (?&?&?). unfold asleep. by rewrite Hc, Ho, Hp.
Qed.
Lemma frame_underway i H t c : frame i H (underway i t c).
Proof.
  split.
  - intros m g m' g' Hr (Hc&Ho&Hp). destruct (y_task _ _ _ _ _ Hr t) as [Hc' Ho']; [by right; right|].
    split_and!; [congruence|congruence|by apply (y_mig _ _ _ _ _ Hr)].
  - intros m m' g _ Hp (_&_&Hc&Ho) (?&?&?). unfold underway. by rewrite Hc, Ho.
Qed.
Hint Resolve frame_true frame_both frame_locked frame_fixed frame_asleep frame_underway f_stable : lk.

(** * One run queue *)
Section one.
Context (i : nat) (P : option Z) (T : option Z).
Local Abbreviation B H r := (base i (Held H P false r T)).

Lemma base_lock m g x H r l :
  base i (Held H P x r T) m g → lk_owner m !! l = None → base i (Held ({[l]} ∪ H) P x r T) (m <| lk_owner := <[l := i]> (lk_owner m) |>) g ∧ (l ∉ H).
Proof.
  intros Hb Hl. split.
  - destruct Hb. split; try done. intros l'. cbn in *. destruct (decide (l' = l)) as [->|]; [rewrite lookup_insert_eq; set_solver|].
    rewrite lookup_insert_ne, b_rq by done. set_solver.
  - intros Hin. apply (b_rq _ _ _ _ Hb) in Hin. congruence.
Qed.
Lemma base_unlock m g x H H' r l :
  base i (Held H P x r T) m g → H ∖ {[l]} = H' → base i (Held H' P x (if decide (H' = ∅) then false else r) T) (spin_unlock i l m) g.
Proof.
  intros Hb HH. destruct Hb. split; try done; cbn in *.
  - intros l'. rewrite lookup_delete_Some, b_rq. set_solver.
  - intros Hin. destruct (bool_decide_reflect (map_Forall (λ _ j, j ≠ i) (delete l (lk_owner m)))) as [Hall|Hnot]; [set_solver|].
    destruct (decide (H' = ∅)) as [He|]; [|by apply b_rcu]. destruct Hnot. intros l' j Hl' ->.
    apply lookup_delete_Some in Hl' as [? Hl']. apply b_rq in Hl'. set_solver.
Qed.
Lemma base_leave m g x H r : base i (Held H P x r T) m g → base i (Held H P x r T) (leave i m) g.
Proof. intros Hb. destruct Hb. split; try done. cbn in *. intros Hin. apply b_rcu. destruct (bool_decide _); set_solver. Qed.
Lemma base_rcu m g x H r : base i (Held H P x r T) m g → base i (Held H P x true T) m g.
Proof. intros []. by split. Qed.

(** The lock may be taken: it is above those the thread has, whichever it is. *)
Definition above (H : gset Z) (F : assn) (c : Z) : Prop :=
  (∀ x, x ∈ H → core_of x < core_of c) ∨ ((∀ x, x ∈ H → less x c) ∧ ∀ m g, F m g → lockp m c = c).
Lemma above_lockp H F c m g : above H F c → F m g → ∀ x, x ∈ H → less x (lockp m c).
Proof. intros [Ha|[Ha Hc]] HF x Hx; [left; rewrite lockp_core; auto|rewrite (Hc m g HF); auto]. Qed.
Lemma above_own H F c x : above H F c → x ∈ H → less x c.
Proof. intros [Ha|[Ha _]] Hx; [left; auto|auto]. Qed.

(** Run queue [c] is locked, in addition to [H]. *)
Definition got_rq (H : gset Z) (F : assn) (c : Z) : assn := λ m g,
  ∃ l, (both (B ({[l]} ∪ H) true) (both F (rq_held i c l)) m g) ∧ (l ∉ H).
Lemma got_rq_stable H F c : stable i F → stable i (got_rq H F c).
Proof. intros HF. apply ex_stable. intros l. eauto with lk. Qed.

Lemma spin_lock_ok H F r l :
  frame i H F → (∀ x, x ∈ H → less x l) →
  rg i (both (B H r) F) (do_ (SpinLock l)) (λ _ m g, both (B ({[l]} ∪ H) r) F m g ∧ (l ∉ H)).
Proof.
  intros HF Hl. apply (lk_do_ok i _ (λ m g, both (B ({[l]} ∪ H) r) F m g ∧ (l ∉ H))); [eauto with lk|]. intros m g Hi [Hb HFm]. split.
  - intros h Hh. apply Hl. by apply (b_rq _ _ _ _ Hb).
  - intros x m' Hx. cbn in Hx. destruct (lk_owner m !! l) eqn:Ho; [done|]. injection Hx as <- <-. exists g.
    destruct (base_lock m g false H r l Hb Ho) as [Hb' Hn]. split; [by apply ok_spin_lock|]. split; [|done]. split; [done|].
    eapply (f_keeps _ _ _ HF m); [|done|done|done]. intros l' Hl'. cbn. rewrite lookup_insert_ne; [done|]. by intros <-.
Qed.
Lemma spin_unlock_ok H H' F r l :
  frame i H' F → H ∖ {[l]} = H' → l ∈ H → rg i (both (B H r) F) (do_ (SpinUnlock l)) (λ _, both (B H' (if decide (H' = ∅) then false else r)) F).
Proof.
  intros HF HH Hl. apply lk_do_ok; [eauto with lk|]. intros m g Hi [Hb HFm]. split; [done|]. intros x m' [= <- <-]. exists g. split.
  - apply ok_spin_unlock; [done|by apply (b_rq _ _ _ _ Hb)|]. intros Hx. by apply (b_mutex _ _ _ _ Hb) in Hx.
  - split; [by eapply base_unlock|]. eapply (f_keeps _ _ _ HF m); [|done|done|done]. intros l' Hl'. cbn. rewrite lookup_delete_ne; [done|]. set_solver.
Qed.

(** The key is read: on, or the thread is a reader now. *)
Definition reads (H : gset Z) (r : bool) (F : assn) (b : bool) : assn := λ m g,
  both (B H (if b then r else true)) F m g ∧ (b = false → i ∈ lk_readers m).
Lemma reads_stable H r F b : stable i F → stable i (reads H r F b).
Proof.
  intros HF m g m' g' Hr [[Hb HFm] Hi]. split; [split; [by eapply base_stable|by eapply HF]|]. intros Hf. apply (y_read _ _ _ _ _ Hr). auto.
Qed.
Lemma read_key_ok H r F : frame i H F → rg i (both (B H r) F) (test ReadKey) (reads H r F).
Proof.
  intros HF. apply lk_test_ok; [intros b; apply reads_stable; eauto with lk|]. intros m g Hi [Hb HFm]. split; [done|]. intros x m' Hx. cbn in Hx.
  injection Hx as <- <-. exists g. destruct (lk_key m) eqn:Hk; cbn.
  - split; [by apply ok_refl|]. split; [by split|done].
  - split; [by apply ok_read_key|]. split; [|cbn; set_solver]. split; [|by eapply (f_keeps _ _ _ HF m)].
    apply base_rcu in Hb. destruct Hb. by split.
Qed.
Lemma lockp_ok (Q : assn) (R : Z → Prop) c :
  stable i Q → (∀ m g, lk_inv m g → Q m g → R (lockp m c)) → rg i Q (access_ (Lockp c)) (λ l m g, Q m g ∧ R l).
Proof.
  intros HQ HR. apply read_ok; [done|by intros m r m' [= _ <-]|eauto with lk|]. intros m g r Hi HQm [= <-]. split; [done|by eapply HR].
Qed.
(** Reading the designated lock while one holds it. *)
Lemma lockp_held_ok (Q : assn) c l :
  stable i Q → (∀ m g, Q m g → lk_owner m !! l = Some i) → rg i Q (access_ (Lockp c)) (λ r m g, Q m g ∧ (r = l → rq_held i c l m g)).
Proof.
  intros HQ Hl. apply read_ok; [done|by intros m r m' [= _ <-]| |].
  - intros r m g m' g' Hr [? HR]. split; [by eapply HQ|]. intros He. eapply rq_held_stable; [done|auto].
  - intros m g r Hi HQm [= <-]. split; [done|]. intros <-. split; [done|by apply (Hl m g)].
Qed.

Lemma rq_lock_ok H r F c : frame i H F → above H F c → rg i (both (B H r) F) (raw_spin_rq_lock c) (λ _, got_rq H F c).
Proof.
  intros HF Hab. unfold raw_spin_rq_lock, raw_spin_rq_lock_nested. eapply rg_bind; [by apply read_key_ok|]. intros []; cbn [negb].
  - apply (rg_pre _ _ _ (both (B H r) F)); [by intros m g _ [? _]|]. apply (rg_bind _ _ _ _ _ (λ _, got_rq H F c)); [|intros x; by apply rg_ret].
    apply (rg_loop _ _ (λ _, both (B H r) F) (λ _, got_rq H F c)); [eauto with lk|]. intros s. unfold rq_lock_round.
    eapply rg_bind; [apply (lockp_ok _ (λ l, ∀ x, x ∈ H → less x l)); [eauto with lk|]|].
    { intros m g _ [_ HFm]. by eapply above_lockp. }
    intros l. apply rg_pure. intros Hl. eapply rg_bind; [by apply spin_lock_ok|]. intros []. apply rg_pure. intros Hn.
    eapply rg_bind; [apply (lockp_held_ok _ c l); [eauto with lk|]|].
    { intros m g [Hb _]. apply (b_rq _ _ _ _ Hb). cbn. set_solver. }
    intros now. destruct (Z.eqb_spec l now) as [<-|].
    + apply rg_ret. intros m g _ [[Hb ?] Hh]. exists l. split; [|done]. apply base_rcu in Hb. split; [done|]. split; [done|auto].
    + apply (rg_pre _ _ _ (both (B ({[l]} ∪ H) r) F)); [by intros m g _ [? _]|].
      eapply rg_bind; [apply (spin_unlock_ok _ H); [done|set_solver|set_solver]|]. intros []. apply rg_ret. intros m g _ [Hb ?]. split; [|done].
      destruct (decide (H = ∅)); [|done]. destruct Hb. split; try done. intros Hin. by apply b_rcu in Hin.
  - unfold reads. eapply (rg_post _ _ _ _ (λ _ m g, (both (B ({[c]} ∪ H) true) (both F (rq_held i c c)) m g) ∧ (c ∉ H))).
    { intros [] m g _ [? ?]. exists c. by split. }
    apply (lk_do_ok i _ (λ m g, (both (B ({[c]} ∪ H) true) (both F (rq_held i c c)) m g) ∧ (c ∉ H))); [eauto 6 with lk|]. intros m g Hi [[Hb HFm] Hrd]. split.
    + intros h Hh. eapply above_own; [done|]. by apply (b_rq _ _ _ _ Hb).
    + intros x m' Hx. cbn in Hx. destruct (lk_owner m !! c) eqn:Ho; [done|]. injection Hx as <- <-. exists g.
      destruct (base_lock m g false H true c Hb Ho) as [Hb' Hn]. split; [by apply ok_spin_lock|]. split; [|done]. split; [done|]. split.
      * eapply (f_keeps _ _ _ HF m); [|done|done|done]. intros l' Hl'. cbn. rewrite lookup_insert_ne; [done|]. by intros <-.
      * split; [|cbn; apply lookup_insert_eq]. unfold __rq_lockp. cbn. destruct (lk_enabled m c) eqn:He; [|done].
        destruct (v_on _ _ Hi c He) as (_&Hr&_). specialize (Hrd eq_refl). rewrite Hr in Hrd. set_solver.
Qed.
Lemma rq_unlock_ok H H' r F c l :
  frame i H' F → H ∖ {[l]} = H' → l ∈ H →
  rg i (both (B H r) (both F (rq_held i c l))) (raw_spin_rq_unlock c) (λ _, both (B H' (if decide (H' = ∅) then false else r)) F).
Proof.
  intros HF HH Hl. unfold raw_spin_rq_unlock. eapply rg_bind; [eapply (read_ok _ _ (λ x m g, both (B H r) F m g ∧ x = l))|].
  - done.
  - by intros m x m' [= _ <-].
  - eauto with lk.
  - intros m g x Hi (Hb&HFm&Hlp&_) [= <-]. split; [by split|]. rewrite <- Hlp. unfold rq_lockp, __rq_lockp.
    destruct (lk_enabled m c) eqn:He; [|by rewrite andb_false_r]. destruct (v_on _ _ Hi c He) as (->&_). done.
  - intros x. apply rg_pure. intros ->. by eapply spin_unlock_ok.
Qed.

(** The attempt: it succeeds or leaves everything as it was. *)
Definition tried (H : gset Z) (F : assn) (c : Z) (b : bool) : assn := if b then got_rq H F c else both (B H true) F.
Lemma tried_stable H F c b : stable i F → stable i (tried H F c b).
Proof. intros HF. destruct b; [by apply got_rq_stable|eauto with lk]. Qed.
Lemma spin_trylock_ok H F r l :
  frame i H F →
  rg i (both (B H r) F) (test (SpinTrylock l)) (λ b m g, both (B (if b then {[l]} ∪ H else H) r) F m g ∧ (b = true → l ∉ H)).
Proof.
  intros HF. apply (lk_test_ok i _ (λ b m g, both (B (if b then {[l]} ∪ H else H) r) F m g ∧ (b = true → l ∉ H))); [eauto with lk|].
  intros m g Hi [Hb HFm]. split; [done|]. intros x m' Hx. cbn in Hx. exists g. destruct (lk_owner m !! l) eqn:Ho; injection Hx as <- <-; cbn.
  - split; [by apply ok_leave|]. split; [|done]. split; [by apply base_leave|]. by apply (f_keeps _ _ _ HF m).
  - destruct (base_lock m g false H r l Hb Ho) as [Hb' Hn]. split; [by apply ok_spin_lock|]. split; [|done]. split; [done|].
    eapply (f_keeps _ _ _ HF m); [|done|done|done]. intros l' Hl'. cbn. rewrite lookup_insert_ne; [done|]. by intros <-.
Qed.
Lemma rq_trylock_ok H r F c : frame i H F → rg i (both (B H r) F) (raw_spin_rq_trylock c) (tried H F c).
Proof.
  intros HF. unfold raw_spin_rq_trylock. eapply rg_bind; [by apply read_key_ok|]. intros []; cbn [negb].
  - apply (rg_pre _ _ _ (both (B H r) F)); [by intros m g _ [? _]|].
    apply (rg_bind _ _ _ _ _ (λ x, tried H F c (negb (x =? 0)))); [|intros x; by apply rg_ret].
    apply (rg_loop _ _ (λ _, both (B H r) F) (λ x, tried H F c (negb (x =? 0)))); [eauto with lk|]. intros s. unfold rq_trylock_round.
    eapply rg_bind; [apply (lockp_ok _ (λ _, True)); [eauto with lk|done]|]. intros l. apply rg_pure. intros _.
    eapply rg_bind; [by apply spin_trylock_ok|]. intros []; cbn [negb]; apply rg_pure; intros Hn.
    2:{ apply rg_ret. intros m g _ [Hb ?]. split; [by eapply base_rcu|done]. }
    eapply rg_bind; [apply (lockp_held_ok _ c l); [eauto with lk|]|].
    { intros m g [Hb _]. apply (b_rq _ _ _ _ Hb). cbn. set_solver. }
    intros now. destruct (Z.eqb_spec l now) as [<-|].
    + apply rg_ret. intros m g _ [[Hb ?] Hh]. exists l. split; [|by apply Hn]. apply base_rcu in Hb. split; [done|]. split; [done|auto].
    + apply (rg_pre _ _ _ (both (B ({[l]} ∪ H) r) F)); [by intros m g _ [? _]|].
      eapply rg_bind; [apply (spin_unlock_ok _ H); [done|set_solver|set_solver]|]. intros []. apply rg_ret. intros m g _ [Hb ?]. split; [|done].
      destruct (decide (H = ∅)); [|done]. destruct Hb. split; try done. intros Hin. by apply b_rcu in Hin.
  - unfold reads. eapply (rg_pre _ _ _ (λ m g, both (B H true) F m g ∧ i ∈ lk_readers m)); [intros m g _ [? Hr]; split; [done|by apply Hr]|].
    apply lk_test_ok; [intros b; apply tried_stable; eauto with lk|]. intros m g Hi [[Hb HFm] Hrd]. split; [done|]. intros x m' Hx. cbn in Hx.
    exists g. destruct (lk_owner m !! c) eqn:Ho; injection Hx as <- <-; cbn.
    { split; [by apply ok_leave|]. split; [by apply base_leave|]. by apply (f_keeps _ _ _ HF m). }
    destruct (base_lock m g false H true c Hb Ho) as [Hb' Hn]. split; [by apply ok_spin_lock|]. exists c. split; [|done]. split; [done|]. split.
    + eapply (f_keeps _ _ _ HF m); [|done|done|done]. intros l' Hl'. cbn. rewrite lookup_insert_ne; [done|]. by intros <-.
    + split; [|cbn; apply lookup_insert_eq]. unfold __rq_lockp. cbn. destruct (lk_enabled m c) eqn:He; [|done].
      destruct (v_on _ _ Hi c He) as (_&Hr&_). rewrite Hr in Hrd. set_solver.
Qed.

(** * Two run queues *)

Definition pair_held (F : assn) (c1 c2 : Z) : assn := λ m g,
  ∃ l1 l2, both (B {[l1; l2]} true) (both F (both (rq_held i c1 l1) (rq_held i c2 l2))) m g.
Lemma pair_swap F c1 c2 m g : pair_held F c1 c2 m g → pair_held F c2 c1 m g.
Proof.
  intros (l1&l2&Hb&HF&H1&H2). exists l2, l1. replace ({[l2; l1]} : gset Z) with ({[l1; l2]} : gset Z) by set_solver. by split_and!.
Qed.
Lemma order_less c1 c2 : rq_order_less c1 c2 = true ↔ less c1 c2.
Proof. unfold rq_order_less, less. destruct (Z.ltb_spec (core_of c1) (core_of c2)), (Z.ltb_spec (core_of c2) (core_of c1)); rewrite ?Z.ltb_lt; intuition lia. Qed.
Lemma less_total c1 c2 : less c1 c2 ∨ c1 = c2 ∨ less c2 c1.
Proof. unfold less. lia. Qed.

(** The thread that has the lock of [a] sees the locks of the core of [a] as they are. *)
Lemma core_uniform m g H r a b l : lk_inv m g → B H r m g → rq_held i a l m g → core_of b = core_of a → lk_enabled m a = lk_enabled m b.
Proof.
  intros Hi Hb [Hl Ho] Hc. destruct (decide (lk_enabled m a = lk_enabled m b)) as [|Hne]; [done|].
  destruct (v_uniform _ _ Hi a b (eq_sym Hc) Hne) as (j&Hj&Hall). assert (j = i) as -> by (rewrite Hall in Ho; [congruence|by rewrite <- Hl, lockp_core]).
  by apply (b_mutex _ _ _ _ Hb) in Hj.
Qed.
(** With the lock of [a] held, the lock of [b] was seen to be the same, or another one. *)
Definition apart_from (a b l1 : Z) : assn := λ m g, core_of a ≠ core_of b ∨ (fixed i l1 b b m g ∧ l1 = a).
Definition second (F : assn) (a b l1 : Z) (same : bool) : assn :=
  both (B {[l1]} true) (both F (both (rq_held i a l1) (if same then rq_held i b l1 else apart_from a b l1))).
Lemma frame_apart a b l1 : frame i {[l1]} (apart_from a b l1).
Proof.
  assert (frame i {[l1]} (fixed i l1 b b)) as [Hst Hk] by (apply frame_fixed; set_solver). split.
  - intros m g m' g' Hr [?|[? ?]]; [by left|right]. split; [by eapply Hst|done].
  - intros m m' g ??? [?|[? ?]]; [by left|right]. split; [by eapply (Hk m)|done].
Qed.
Lemma second_stable F a b l1 same : frame i {[l1]} F → stable i (second F a b l1 same).
Proof.
  intros HF. unfold second. do 3 (apply lk_both_stable; [eauto with lk|]). destruct same; [eauto with lk|]. by apply (f_stable _ {[l1]}), frame_apart.
Qed.
Lemma peek_second_ok F a b l1 :
  frame i {[l1]} F → rg i (both (B {[l1]} true) (both F (rq_held i a l1))) (access_ (Lockp b)) (λ r, second F a b l1 (l1 =? r)).
Proof.
  intros HF. apply read_ok; [done|by intros m r m' [= _ <-]|intros r; by apply second_stable|].
  intros m g r Hi (Hb&HFm&Ha) [= <-]. split; [done|]. split; [done|]. split; [done|]. destruct (Z.eqb_spec l1 (lockp m b)) as [He|Hne].
  - split; [done|apply Ha].
  - destruct (decide (core_of a = core_of b)) as [Hc|]; [right|by left]. destruct Ha as [Hl Ho].
    pose proof (core_uniform m g _ _ a b l1 Hi Hb (conj Hl Ho) (eq_sym Hc)) as Hu. unfold __rq_lockp in Hl, Hne. rewrite <- Hu in Hne.
    destruct (lk_enabled m a) eqn:Hen; [congruence|]. subst l1.
    split; [|done]. split; [done|]. split; [done|]. unfold __rq_lockp. by rewrite <- Hu.
Qed.
Lemma lock_second_ok F a b l1 :
  frame i {[l1]} F → less a b → rg i (second F a b l1 false) (raw_spin_rq_lock_nested b) (λ _, pair_held F a b).
Proof.
  intros HF Hless. apply (rg_pre _ _ _ (λ m g, ∃ x : bool, both (B {[l1]} true) (both F (both (rq_held i a l1)
      (if x then λ _ _, True else fixed i l1 b b))) m g ∧ (if x then core_of a < core_of b else l1 = a))).
  { intros m g _ (Hb&HFm&Ha&[?|(?&?)]); [exists true|exists false; by split_and!]. split; [by split_and!|]. destruct Hless as [?|[? ?]]; [done|congruence]. }
  set (F' := λ x : bool, both F (both (rq_held i a l1) (if x then λ _ _, True else fixed i l1 b b))).
  assert (∀ x : bool, frame i {[l1]} (F' x)) as Hfr.
  { intros x. apply frame_both; [done|]. apply frame_both; [apply frame_locked; set_solver|]. destruct x; [apply frame_true|apply frame_fixed; set_solver]. }
  apply rg_ex. intros x. apply (rg_pre _ _ _ (λ m g, both (B {[l1]} true) (F' x) m g ∧ above {[l1]} (F' x) b)).
  { intros m g _ [HA Hx]. split; [done|]. destruct HA as (_&_&[Hl _]&_). destruct x; [left|right; split].
    - intros y ->%elem_of_singleton. by rewrite <- Hl, lockp_core.
    - intros y ->%elem_of_singleton. by rewrite Hx.
    - by intros m' g' (_&_&(_&_&?)). }
  apply rg_pure. intros Hab. eapply rg_post; [|by apply rq_lock_ok]. intros [] m g _ (l2&(Hb&(HFm&Ha&_)&H2)&_). exists l1, l2.
  replace ({[l1; l2]} : gset Z) with ({[l2]} ∪ {[l1]} : gset Z) by set_solver. by split_and!.
Qed.
Lemma same_pair F a b l1 m g : second F a b l1 true m g → pair_held F a b m g.
Proof. intros (Hb&HFm&Ha&Hb2). exists l1, l1. replace ({[l1; l1]} : gset Z) with ({[l1]} : gset Z) by set_solver. by split_and!. Qed.
(** One run queue is locked, and no other. *)
Definition one_held (F : assn) (c : Z) : assn := λ m g, ∃ l, both (B {[l]} true) (both F (rq_held i c l)) m g.
Lemma lock_one_ok r F c : frame i ∅ F → rg i (both (B ∅ r) F) (raw_spin_rq_lock c) (λ _, one_held F c).
Proof.
  intros HF. eapply rg_post; [|apply rq_lock_ok; [done|left; set_solver]]. intros [] m g _ (l&(Hb&?&?)&_). exists l.
  replace ({[l]} ∪ ∅ : gset Z) with ({[l]} : gset Z) in Hb by set_solver. by split_and!.
Qed.
Lemma unlock_one_ok F c : frame i ∅ F → rg i (one_held F c) (raw_spin_rq_unlock c) (λ _, both (B ∅ false) F).
Proof.
  intros HF. apply rg_ex. intros l. eapply rg_post; [|apply (rq_unlock_ok _ ∅ _ F); [done|set_solver|set_solver]]. intros [] m g _. by rewrite decide_True.
Qed.
Lemma read_held_ok F c l : stable i F → rg i (both (B {[l]} true) (both F (rq_held i c l))) (access_ (Lockp c))
  (λ r m g, both (B {[l]} true) (both F (rq_held i c l)) m g ∧ r = l).
Proof. intros HF. apply (lockp_ok _ (λ r, r = l)); [eauto with lk|by intros m g _ (_&_&?&_)]. Qed.
Lemma lock_both_ok F a b :
  frame i ∅ F → less a b ∨ a = b →
  rg i (both (B ∅ false) F)
    (raw_spin_rq_lock a;; lock1 ← access_ (Lockp a); lock2 ← access_ (Lockp b);
     if negb (lock1 =? lock2) then raw_spin_rq_lock_nested b else mret tt) (λ _, pair_held F a b).
Proof.
  intros HF Hord. assert (∀ l, frame i {[l]} F) as HFl by (intros l; eapply frame_mono; [|done]; set_solver).
  eapply rg_bind; [by apply lock_one_ok|]. intros []. apply rg_ex. intros l1.
  eapply rg_bind; [apply read_held_ok; eauto with lk|]. intros r1. apply rg_pure. intros ->. destruct Hord as [Hless| ->].
  - eapply rg_bind; [by apply peek_second_ok|]. intros r2. cbn beta. destruct (l1 =? r2); cbn [negb]; [|by apply lock_second_ok].
    apply rg_ret. intros m g _. apply same_pair.
  - eapply rg_bind; [apply read_held_ok; eauto with lk|]. intros r2. apply rg_pure. intros ->. rewrite Z.eqb_refl. cbn [negb].
    apply rg_ret. intros m g _ (Hb&?&?). apply (same_pair _ _ _ l1). by split_and!.
Qed.
Lemma double_lock_ok F c1 c2 : frame i ∅ F → rg i (both (B ∅ false) F) (double_rq_lock c1 c2) (λ _, pair_held F c1 c2).
Proof.
  intros HF. unfold double_rq_lock. destruct (rq_order_less c2 c1) eqn:Ho.
  - apply order_less in Ho. eapply rg_post; [|apply lock_both_ok; [done|by left]]. intros [] m g _. apply pair_swap.
  - apply lock_both_ok; [done|]. destruct (less_total c1 c2) as [?|[?|?%order_less]]; [by left|by right|congruence].
Qed.
Lemma double_unlock_ok F c1 c2 : frame i ∅ F → rg i (pair_held F c1 c2) (double_rq_unlock c1 c2) (λ _, both (B ∅ false) F).
Proof.
  intros HF. assert (∀ H, frame i H F) as HFl by (intros H; eapply frame_mono; [|done]; set_solver).
  apply rg_ex. intros l1. apply rg_ex. intros l2. unfold double_rq_unlock. specialize (HFl {[l1]}).
  eapply rg_bind; [apply (lockp_ok _ (λ r, r = l1)); [eauto 7 with lk|by intros m g _ (_&_&[? _]&_)]|]. intros r1. apply rg_pure. intros ->.
  eapply rg_bind; [apply (lockp_ok _ (λ r, r = l2)); [eauto 7 with lk|by intros m g _ (_&_&_&[? _])]|]. intros r2. apply rg_pure. intros ->.
  assert (rg i (both (B {[l1]} true) (both F (rq_held i c1 l1))) (raw_spin_rq_unlock c1) (λ _, both (B ∅ false) F)) as Hlast.
  { eapply rg_post; [|apply (rq_unlock_ok _ ∅ _ F); [done|set_solver|set_solver]]. intros [] m g _. by rewrite decide_True. }
  apply (rg_bind _ _ _ _ _ (λ _, both (B {[l1]} true) (both F (rq_held i c1 l1)))); [|by intros []].
  destruct (Z.eqb_spec l1 l2) as [<-|Hne]; cbn [negb].
  - apply rg_ret. intros m g _ (Hb&?&?&_). replace ({[l1; l1]} : gset Z) with ({[l1]} : gset Z) in Hb by set_solver. by split_and!.
  - apply (rg_pre _ _ _ (both (B {[l1; l2]} true) (both (both F (rq_held i c1 l1)) (rq_held i c2 l2)))); [by intros m g _ (?&?&?&?)|].
    eapply rg_post; [|apply (rq_unlock_ok _ {[l1]} _ (both F (rq_held i c1 l1))); [apply frame_both; [done|apply frame_locked; set_solver]|set_solver|set_solver]].
    intros [] m g _. rewrite decide_False by set_solver. done.
Qed.

Lemma balance_ok F this_rq busiest : frame i ∅ F → rg i (one_held F this_rq) (double_lock_balance this_rq busiest) (λ _, pair_held F this_rq busiest).
Proof.
  intros HF. assert (∀ l, frame i {[l]} F) as HFl by (intros l; eapply frame_mono; [|done]; set_solver).
  assert (rg i (one_held F this_rq) (raw_spin_rq_unlock this_rq;; double_rq_lock this_rq busiest;; mret true) (λ _, pair_held F this_rq busiest)) as Hgive.
  { eapply rg_bind; [by apply unlock_one_ok|]. intros []. eapply rg_bind; [by apply double_lock_ok|]. intros []. by apply rg_ret. }
  unfold double_lock_balance, _double_lock_balance. destruct preemption; [done|]. apply rg_ex. intros l1.
  eapply rg_bind; [apply read_held_ok; eauto with lk|]. intros r1. apply rg_pure. intros ->.
  eapply rg_bind; [by apply peek_second_ok|]. intros r2. cbn beta. destruct (l1 =? r2).
  - eapply (rg_bind _ _ _ _ _ (λ (b : bool) m g, pair_held F this_rq busiest m g ∧ b = true)).
    + apply rg_ret. intros m g _ Hs. split; [by eapply same_pair|done].
    + intros b. apply rg_pure. intros ->. by apply rg_ret.
  - set (F' := both F (both (rq_held i this_rq l1) (apart_from this_rq busiest l1))).
    assert (frame i {[l1]} F') as HF' by (apply frame_both; [done|]; apply frame_both; [apply frame_locked; set_solver|apply frame_apart]).
    eapply rg_bind; [by apply (rq_trylock_ok _ _ F')|]. intros [].
    + apply rg_ret. intros m g _ (l2&(Hb&(HFm&Ha&_)&H2)&_). exists l1, l2.
      replace ({[l1; l2]} : gset Z) with ({[l2]} ∪ {[l1]} : gset Z) by set_solver. by split_and!.
    + destruct (rq_order_less this_rq busiest) eqn:Ho.
      * apply order_less in Ho. eapply rg_bind; [by apply lock_second_ok|]. intros []. by apply rg_ret.
      * eapply rg_pre; [|exact Hgive]. intros m g _ (Hb&HFm&Ha&_). by exists l1.
Qed.
Lemma unbalance_ok F this_rq busiest : frame i ∅ F → rg i (pair_held F this_rq busiest) (double_unlock_balance this_rq busiest) (λ _, one_held F this_rq).
Proof.
  intros HF. assert (∀ l, frame i {[l]} F) as HFl by (intros l; eapply frame_mono; [|done]; set_solver).
  apply rg_ex. intros l1. apply rg_ex. intros l2. unfold double_unlock_balance. specialize (HFl l1).
  eapply rg_bind; [apply (lockp_ok _ (λ r, r = l1)); [eauto 7 with lk|by intros m g _ (_&_&[? _]&_)]|]. intros r1. apply rg_pure. intros ->.
  eapply rg_bind; [apply (lockp_ok _ (λ r, r = l2)); [eauto 7 with lk|by intros m g _ (_&_&_&[? _])]|]. intros r2. apply rg_pure. intros ->.
  destruct (Z.eqb_spec l1 l2) as [<-|Hne]; cbn [negb].
  - apply rg_ret. intros m g _ (Hb&?&?&_). replace ({[l1; l1]} : gset Z) with ({[l1]} : gset Z) in Hb by set_solver. exists l1. by split_and!.
  - apply (rg_pre _ _ _ (both (B {[l1; l2]} true) (both (both F (rq_held i this_rq l1)) (rq_held i busiest l2)))); [by intros m g _ (?&?&?&?)|].
    eapply rg_post; [|apply (rq_unlock_ok _ {[l1]} _ (both F (rq_held i this_rq l1))); [apply frame_both; [done|apply frame_locked; set_solver]|set_solver|set_solver]].
    intros [] m g _. rewrite decide_False by set_solver. intros [? [? ?]]. exists l1. by split_and!.
Qed.
End one.
End ops.
#[export] Hint Resolve frame_true frame_both frame_locked frame_fixed frame_asleep frame_underway f_stable : lk.
