(* ===== verification/RqLockUse.v ===== *)
(** The users of the run-queue locks: tasks, migration, wake-up, the switch to core
    scheduling. *)
From S2P Require Import Prelude Interleave RqLock RqLockLogic RqLockOps.

Section use.
Context {TP : Topology} {TW : TopologyLaws TP} (i : nat).
Local Abbreviation lockp := __rq_lockp.
Local Abbreviation assn := (@assn lk_mem lk_ghost).
Local Abbreviation stable := (stable lks).
Local Abbreviation ok_step := (ok_step lks).
Local Abbreviation rg := (rg lks).
Local Abbreviation free P T := (base i (Held ∅ P false false T)).
Local Abbreviation any := (λ (_ : lk_mem) (_ : lk_ghost), True).

(** * Touching a run queue or a task *)

Lemma touch_ok (P : assn) c : stable i P → (∀ m g, P m g → ∃ l, rq_held i c l m g) → rg i P (do_ (Touch c)) (λ _, P).
Proof.
  intros HP Hc. apply lk_do_ok; [done|]. intros m g Hi HPm. destruct (Hc m g HPm) as (l&<-&Ho). split; [done|].
  intros r m' [= <- <-]. exists g. split; [by apply ok_refl|done].
Qed.
Lemma one_held_stable P T F c : stable i F → stable i (one_held i P T F c).
Proof. intros HF. apply ex_stable. intros l. eauto with lk. Qed.
Lemma pair_held_stable P T F c1 c2 : stable i F → stable i (pair_held i P T F c1 c2).
Proof. intros HF. apply ex_stable. intros l1. apply ex_stable. intros l2. eauto 7 with lk. Qed.

(** * Tasks *)

(** The task and the run queue it is on are locked. *)
Definition task_held (t c : Z) : assn := λ m g,
  ∃ l v, both (base i (Held {[l]} (Some t) false true None)) (both (rq_held i c l) (task_at i t c v)) m g ∧ v ≠ LK_MIGRATING.
Lemma task_held_stable t c : stable i (task_held t c).
Proof. apply ex_stable. intros l. apply ex_stable. intros v. eauto 6 with lk. Qed.
Lemma wait_migrating_ok P t : stable i P → rg i P (wait_migrating t) (λ _, P).
Proof.
  intros HP. apply (rg_loop _ _ (λ _, P) (λ _, P)); [done|]. intros s.
  eapply rg_bind; [apply (read_ok _ _ (λ _, P)); [done|by intros m r m' [= _ <-]|done|done]|]. intros r. destruct (_ =? _); by apply rg_ret.
Qed.
(** With the lock of the task and of a run queue, the task is found there or not. *)
Lemma find_task_ok t c (k1 k2 : lprog (Z + Z)) Q :
  rg i (task_held t c) k1 Q → rg i (one_held i (Some t) None any c) k2 Q →
  rg i (one_held i (Some t) None any c)
    (now ← access_ (ReadCpu t); on_rq ← access_ (ReadOnRq t); if (c =? now) && negb (on_rq =? LK_MIGRATING) then k1 else k2) Q.
Proof.
  intros H1 H2. apply rg_ex. intros l. set (L := both (base i (Held {[l]} (Some t) false true None)) (both any (rq_held i c l))).
  assert (stable i L) as HL by eauto with lk.
  apply (rg_bind _ _ _ _ _ (λ now m g, L m g ∧ (now = c → ∃ v, task_at i t c v m g))).
  { apply read_ok; [done|by intros m r m' [= _ <-]| |].
    - intros r m g m' g' Hr [? Ht]. split; [by eapply HL|]. intros He. destruct (Ht He) as [v Hv]. exists v. by eapply task_at_stable.
    - intros m g r Hi HLm [= <-]. split; [done|]. intros Hc. exists (lk_on_rq m t). destruct HLm as (Hb&_&Hlp&Ho). split_and!; [done|done|].
      destruct (decide (lk_on_rq m t = 0)); [right; left; split; [by apply (b_pi _ _ _ _ Hb)|done]|left]. by rewrite Hc, Hlp. }
  intros now. apply (rg_bind _ _ _ _ _ (λ r m g, L m g ∧ (now = c → task_at i t c r m g))).
  { apply read_ok; [done|by intros m r m' [= _ <-]| |].
    - intros r m g m' g' Hr [? Ht]. split; [by eapply HL|]. intros He. eapply task_at_stable; [done|auto].
    - intros m g r Hi [HLm Ht] [= <-]. split; [done|]. intros Hc. destruct (Ht Hc) as (v&?&?&?). by split_and!. }
  intros r. destruct (Z.eqb_spec c now) as [<-|], (Z.eqb_spec r LK_MIGRATING); cbn [negb andb].
  2:{ eapply rg_pre; [|exact H1]. intros m g _ [(Hb&_&Hl) Ht]. exists l, r. split; [|done]. split; [done|]. split; [done|auto]. }
  all: eapply rg_pre; [|exact H2]; intros m g _ [(Hb&_&Hl) _]; exists l; by split_and!.
Qed.
Lemma __task_rq_lock_ok t : rg i (free (Some t) None) (__task_rq_lock t) (task_held t).
Proof.
  apply (rg_loop _ _ (λ _, free (Some t) None)); [eauto with lk|]. intros s.
  apply (rg_bind _ _ _ _ _ (λ _, both (free (Some t) None) any)).
  { apply read_ok; [done|by intros m r m' [= _ <-]|eauto with lk|done]. }
  intros rq. eapply rg_bind; [apply lock_one_ok; eauto with lk|]. intros []. apply find_task_ok; [by apply rg_ret|].
  eapply rg_bind; [apply unlock_one_ok; eauto with lk|]. intros []. eapply rg_bind; [apply wait_migrating_ok; eauto with lk|]. intros x.
  apply rg_ret. by intros m g _ [? _].
Qed.
Lemma pi_lock_ok t : rg i (free None None) (do_ (PiLock t)) (λ _, free (Some t) None).
Proof.
  apply lk_do_ok; [eauto with lk|]. intros m g Hi Hb. split.
  - split_and!.
    + intros h Hh. apply (b_rq _ _ _ _ Hb) in Hh. set_solver.
    + intros t' Ht. by apply (b_pi _ _ _ _ Hb) in Ht.
    + intros Hr. by apply (b_rcu _ _ _ _ Hb) in Hr.
  - intros r m' Hx. cbn in Hx. destruct (lk_pi m !! t) eqn:Ho; [done|]. injection Hx as <- <-. exists g. split; [by apply ok_pi_lock|].
    destruct Hb. split; try done. intros t'. cbn in *. destruct (decide (t' = t)) as [->|]; [by rewrite lookup_insert_eq|].
    rewrite lookup_insert_ne, b_pi by done. split; congruence.
Qed.
Lemma pi_unlock_ok t : rg i (free (Some t) None) (do_ (PiUnlock t)) (λ _, free None None).
Proof.
  apply lk_do_ok; [eauto with lk|]. intros m g Hi Hb. split; [done|]. intros r m' [= <- <-]. exists g. split.
  - apply ok_pi_unlock; [done|]. by apply (b_pi _ _ _ _ Hb).
  - destruct Hb. split; try done. intros t'. cbn in *. rewrite lookup_delete_Some, b_pi. split; [|done]. by intros [? [= ?]].
Qed.
Lemma task_rq_lock_ok t : rg i (free None None) (task_rq_lock t) (task_held t).
Proof.
  apply (rg_loop _ _ (λ _, free None None)); [eauto with lk|]. intros s. eapply rg_bind; [apply pi_lock_ok|]. intros [].
  apply (rg_bind _ _ _ _ _ (λ _, both (free (Some t) None) any)).
  { apply read_ok; [done|by intros m r m' [= _ <-]|eauto with lk|done]. }
  intros rq. eapply rg_bind; [apply lock_one_ok; eauto with lk|]. intros []. apply find_task_ok; [by apply rg_ret|].
  eapply rg_bind; [apply unlock_one_ok; eauto with lk|]. intros [].
  eapply rg_bind; [eapply rg_pre; [|apply pi_unlock_ok]; by intros m g _ [? _]|]. intros [].
  eapply rg_bind; [apply wait_migrating_ok; eauto with lk|]. intros x. by apply rg_ret.
Qed.
Lemma touch_task_ok t c : rg i (task_held t c) (do_ (TouchTask t c)) (λ _, task_held t c).
Proof.
  apply lk_do_ok; [apply task_held_stable|]. intros m g Hi Ht. split.
  - destruct Ht as (l&v&(Hb&[<- Ho]&Hc&Hv&_)&Hne). split_and!; [done|by apply (b_pi _ _ _ _ Hb)|done|congruence].
  - intros r m' [= <- <-]. exists g. split; [by apply ok_refl|done].
Qed.
Lemma task_unlock_rq_ok t c : rg i (task_held t c) (raw_spin_rq_unlock c) (λ _, free (Some t) None).
Proof.
  eapply rg_post; [|eapply rg_pre; [|apply (unlock_one_ok i (Some t) None any); eauto with lk]].
  - by intros [] m g _ [? _].
  - intros m g _ (l&v&(Hb&Hl&_)&_). exists l. by split_and!.
Qed.

(** * Changing the state of a task *)

Lemma queued_ok (P : assn) t c :
  stable i P → (∀ m g, P m g → ∃ l, rq_held i c l m g) → rg i P (test (Queued t c)) (λ b m g, P m g ∧ (b = true → task_at i t c LK_QUEUED m g)).
Proof.
  intros HP Hc. apply lk_test_ok.
  - intros b m g m' g' Hr [? Ht]. split; [by eapply HP|]. intros He. eapply task_at_stable; [done|auto].
  - intros m g Hi HPm. split; [done|]. intros r m' [= <- <-]. exists g. split; [by apply ok_refl|]. split; [done|].
    destruct (lk_cpu m t =? c) eqn:He, (lk_on_rq m t =? LK_QUEUED) eqn:Hq; try done. intros _. apply Z.eqb_eq in He, Hq.
    split_and!; [done|done|]. left. rewrite He, Hq. destruct (Hc m g HPm) as (l&<-&Ho). done.
Qed.
Lemma block_ok t c :
  rg i (λ m g, one_held i None None any c m g ∧ task_at i t c LK_QUEUED m g) (do_ (WriteOnRq t 0)) (λ _, one_held i None None any c).
Proof.
  apply lk_do_ok; [by apply one_held_stable|]. intros m g Hi [(l&Hb&_&Hl&Ho) (Hc&Hq&_)].
  assert (lk_owner m !! lockp m (lk_cpu m t) = Some i) as Hown by by rewrite Hc, Hl.
  split; [done|]. intros r m' [= <- <-]. exists g. split; [by apply ok_block|]. exists l. split; [destruct Hb; by split|]. split; [done|by split].
Qed.
(** The migration of a task: it sets out, gets its new CPU, arrives; [L] are the locks. *)
Section migrate.
Context (L : option Z → assn) (HL : ∀ T, stable i (L T)) (P : option Z) (H : gset Z).
Context (HB : ∀ T m g, L T m g → base i (Held H P false true T) m g).
Context (HT : ∀ T T' m m' g g', lk_owner m' = lk_owner m → lk_enabled m' = lk_enabled m → L T m g → base i (Held H P false true T') m' g' → L T' m' g').

Lemma base_tasks m g m' g' T T' :
  lk_owner m' = lk_owner m → lk_pi m' = lk_pi m → lk_mutex m' = lk_mutex m → lk_readers m' = lk_readers m →
  (∀ t, g' !! t = Some i ↔ T' = Some t) → base i (Held H P false true T) m g → base i (Held H P false true T') m' g'.
Proof. intros Ho Hp Hm Hr Hg []. split; intros; rewrite ?Ho, ?Hp, ?Hm, ?Hr; auto. Qed.
Lemma depart_ok t c :
  (∀ T m g, L T m g → ∃ l, rq_held i c l m g) →
  rg i (λ m g, L None m g ∧ task_at i t c LK_QUEUED m g) (do_ (WriteOnRq t LK_MIGRATING)) (λ _, both (L (Some t)) (underway i t c)).
Proof.
  intros Hc. apply lk_do_ok; [apply lk_both_stable; [done|by apply (f_stable _ ∅), frame_underway]|]. intros m g Hi [HLm (Hcpu&Hq&_)].
  destruct (Hc _ m g HLm) as (l&Hl&Ho). assert (lk_owner m !! lockp m (lk_cpu m t) = Some i) as Hown by by rewrite Hcpu, Hl.
  split; [done|]. intros r m' [= <- <-]. exists (<[t := i]> g). split; [by apply ok_depart|]. split.
  - apply (HT None (Some t) m _ g); [done|done|done|]. eapply (base_tasks m g); [done|done|done|done| |by apply HB]. intros t'. pose proof (b_mig _ _ _ _ (HB _ _ _ HLm) t') as Hg. cbn in Hg.
    destruct (decide (t' = t)) as [->|]; [by rewrite lookup_insert_eq|]. rewrite lookup_insert_ne, Hg by done. split; congruence.
  - split_and!; [done|cbn; apply fset_eq|apply lookup_insert_eq].
Qed.
Lemma move_ok t c new :
  (∀ T m g, L T m g → ∃ l, rq_held i c l m g) →
  rg i (both (L (Some t)) (underway i t c)) (do_ (WriteCpu t new)) (λ _, both (L (Some t)) (underway i t new)).
Proof.
  intros Hc. apply lk_do_ok; [apply lk_both_stable; [done|by apply (f_stable _ ∅), frame_underway]|]. intros m g Hi [HLm (Hcpu&Hq&Hg)].
  destruct (Hc _ m g HLm) as (l&Hl&Ho). assert (lk_owner m !! lockp m (lk_cpu m t) = Some i) as Hown by by rewrite Hcpu, Hl.
  split; [by right; right|]. intros r m' [= <- <-]. exists g. split; [by apply ok_move|]. split.
  - apply (HT (Some t) (Some t) m _ g); [done|done|done|]. apply HB in HLm. by destruct HLm.
  - split_and!; [cbn; apply fset_eq|done|done].
Qed.
Lemma arrive_ok t c :
  (∀ T m g, L T m g → ∃ l, rq_held i c l m g) →
  rg i (both (L (Some t)) (underway i t c)) (do_ (WriteOnRq t LK_QUEUED)) (λ _, L None).
Proof.
  intros Hc. apply lk_do_ok; [done|]. intros m g Hi [HLm (Hcpu&Hq&Hg)].
  destruct (Hc _ m g HLm) as (l&Hl&Ho). assert (lk_owner m !! lockp m (lk_cpu m t) = Some i) as Hown by by rewrite Hcpu, Hl.
  split; [done|]. intros r m' [= <- <-]. exists (delete t g). split; [by apply ok_arrive|].
  apply (HT (Some t) None m _ g); [done|done|done|]. eapply (base_tasks m g); [done|done|done|done| |by apply HB]. intros t'. pose proof (b_mig _ _ _ _ (HB _ _ _ HLm) t') as Hm. cbn in Hm.
  rewrite lookup_delete_Some, Hm. split; [|done]. by intros [? [= ?]].
Qed.
End migrate.

(** * Programs *)

Lemma use_rq_ok c : rg i (free None None) (raw_spin_rq_lock c;; do_ (Touch c);; raw_spin_rq_unlock c) (λ _, free None None).
Proof.
  apply (rg_pre _ _ _ (both (free None None) any)); [done|]. eapply rg_bind; [apply lock_one_ok; eauto with lk|]. intros [].
  eapply rg_bind; [apply touch_ok; [by apply one_held_stable|]|]; [intros m g (l&_&_&?); by exists l|]. intros [].
  eapply rg_post; [|apply unlock_one_ok; eauto with lk]. by intros [] m g _ [? _].
Qed.
Lemma pair_first P T F c1 c2 m g : pair_held i P T F c1 c2 m g → ∃ l, rq_held i c1 l m g.
Proof. intros (l1&l2&_&_&?&_). by exists l1. Qed.
Lemma pair_second P T F c1 c2 m g : pair_held i P T F c1 c2 m g → ∃ l, rq_held i c2 l m g.
Proof. intros (l1&l2&_&_&_&?). by exists l2. Qed.
Lemma use_double_ok c1 c2 :
  rg i (free None None) (double_rq_lock c1 c2;; do_ (Touch c1);; do_ (Touch c2);; double_rq_unlock c1 c2) (λ _, free None None).
Proof.
  apply (rg_pre _ _ _ (both (free None None) any)); [done|]. eapply rg_bind; [apply double_lock_ok; eauto with lk|]. intros [].
  eapply rg_bind; [apply touch_ok; [by apply pair_held_stable|apply pair_first]|]. intros [].
  eapply rg_bind; [apply touch_ok; [by apply pair_held_stable|apply pair_second]|]. intros [].
  eapply rg_post; [|apply double_unlock_ok; eauto with lk]. by intros [] m g _ [? _].
Qed.
Lemma use_balance_ok a b :
  rg i (free None None) (user_prog (use_balance a b)) (λ _, free None None).
Proof.
  apply (rg_pre _ _ _ (both (free None None) any)); [done|]. eapply rg_bind; [apply lock_one_ok; eauto with lk|]. intros [].
  eapply rg_bind; [apply balance_ok; eauto with lk|]. intros x.
  eapply rg_bind; [apply touch_ok; [by apply pair_held_stable|apply pair_first]|]. intros [].
  eapply rg_bind; [apply touch_ok; [by apply pair_held_stable|apply pair_second]|]. intros [].
  eapply rg_bind; [apply unbalance_ok; eauto with lk|]. intros [].
  eapply rg_post; [|apply unlock_one_ok; eauto with lk]. by intros [] m g _ [? _].
Qed.
Lemma use_task_ok t : rg i (free None None) (user_prog (use_task t)) (λ _, free None None).
Proof.
  eapply rg_bind; [apply task_rq_lock_ok|]. intros rq. eapply rg_bind; [apply touch_task_ok|]. intros []. unfold task_rq_unlock.
  eapply rg_bind; [apply task_unlock_rq_ok|]. intros []. apply pi_unlock_ok.
Qed.
Lemma use_block_ok c t : rg i (free None None) (block c t) (λ _, free None None).
Proof.
  apply (rg_pre _ _ _ (both (free None None) any)); [done|]. eapply rg_bind; [apply lock_one_ok; eauto with lk|]. intros [].
  eapply rg_bind; [apply (queued_ok (one_held i None None any c)); [by apply one_held_stable|]|]; [intros m g (l&_&_&?); by exists l|]. intros b.
  apply (rg_bind _ _ _ _ _ (λ _, one_held i None None any c)).
  - destruct b; [|apply rg_ret; by intros m g _ [? _]]. eapply rg_pre; [|apply (block_ok t c)]. intros m g _ [? Hq]. split; [done|by apply Hq].
  - intros []. eapply rg_post; [|apply unlock_one_ok; eauto with lk]. by intros [] m g _ [? _].
Qed.

(** The locks during a migration. *)
Definition with_rq (c l : Z) (T : option Z) : assn := both (base i (Held {[l]} None false true T)) (both any (rq_held i c l)).
Definition with_pair (c1 c2 l1 l2 : Z) (T : option Z) : assn :=
  both (base i (Held {[l1; l2]} None false true T)) (both any (both (rq_held i c1 l1) (rq_held i c2 l2))).
Lemma rq_held_tasks c l m m' g g' : lk_owner m' = lk_owner m → lk_enabled m' = lk_enabled m → rq_held i c l m g → rq_held i c l m' g'.
Proof. intros Ho He [Hl ?]. split; [unfold __rq_lockp in *; by rewrite He|by rewrite Ho]. Qed.
Lemma with_rq_tasks c l T T' m m' g g' :
  lk_owner m' = lk_owner m → lk_enabled m' = lk_enabled m → with_rq c l T m g → base i (Held {[l]} None false true T') m' g' → with_rq c l T' m' g'.
Proof. intros Ho He (_&_&Hl) Hb. split; [done|]. split; [done|by eapply rq_held_tasks]. Qed.
Lemma with_pair_tasks c1 c2 l1 l2 T T' m m' g g' :
  lk_owner m' = lk_owner m → lk_enabled m' = lk_enabled m → with_pair c1 c2 l1 l2 T m g →
  base i (Held {[l1; l2]} None false true T') m' g' → with_pair c1 c2 l1 l2 T' m' g'.
Proof. intros Ho He (_&_&H1&H2) Hb. split; [done|]. split; [done|]. split; by eapply rq_held_tasks. Qed.
Lemma with_rq_base c l T m g : with_rq c l T m g → base i (Held {[l]} None false true T) m g.
Proof. by intros [? _]. Qed.
Lemma with_pair_base c1 c2 l1 l2 T m g : with_pair c1 c2 l1 l2 T m g → base i (Held {[l1; l2]} None false true T) m g.
Proof. by intros [? _]. Qed.
Lemma with_rq_has c l T m g : with_rq c l T m g → ∃ l, rq_held i c l m g.
Proof. intros (_&_&?). by exists l. Qed.

Lemma use_migrate_ok src t new : rg i (free None None) (migrate_queued src t new) (λ _, free None None).
Proof.
  assert (∀ c l T, stable i (with_rq c l T)) as Hst by (intros; unfold with_rq; eauto with lk).
  apply (rg_pre _ _ _ (both (free None None) any)); [done|]. eapply rg_bind; [apply lock_one_ok; eauto with lk|]. intros [].
  apply rg_ex. intros l. eapply rg_bind; [apply (queued_ok (with_rq src l None)); [done|apply with_rq_has]|]. intros [].
  - eapply rg_bind; [eapply rg_pre; [|apply (depart_ok (with_rq src l) (Hst src l) None {[l]} (with_rq_base src l) (with_rq_tasks src l) t src (with_rq_has src l))]|].
    { intros m g _ [? Hq]. split; [done|by apply Hq]. }
    intros []. eapply rg_bind; [apply (move_ok (with_rq src l) (Hst src l) None {[l]} (with_rq_base src l) (with_rq_tasks src l) t src new (with_rq_has src l))|].
    intros []. apply (rg_bind _ _ _ _ _ (λ _, both (free None (Some t)) (underway i t new))).
    { eapply rg_pre; [|eapply rg_post; [|apply (rq_unlock_ok i None (Some t) {[l]} ∅ true (underway i t new) src l); [apply frame_underway|set_solver|set_solver]]].
      - intros m g _ ((Hb&_&Hl)&Hu). by split_and!.
      - intros [] m g _. by rewrite decide_True. }
    intros []. eapply rg_bind; [apply lock_one_ok; apply frame_underway|]. intros []. apply rg_ex. intros l2.
    eapply rg_bind; [eapply rg_pre; [|apply (arrive_ok (with_rq new l2) (Hst new l2) None {[l2]} (with_rq_base new l2) (with_rq_tasks new l2) t new (with_rq_has new l2))]|].
    { intros m g _ (Hb&Hu&Hl). split; [|done]. by split_and!. }
    intros []. eapply rg_post; [|eapply rg_pre; [|apply (unlock_one_ok i None None any new); eauto with lk]].
    + by intros [] m g _ [? _].
    + intros m g _ ?. by exists l2.
  - eapply rg_post; [|eapply rg_pre; [|apply (unlock_one_ok i None None any src); eauto with lk]].
    + by intros [] m g _ [? _].
    + intros m g _ [? _]. by exists l.
Qed.
Lemma use_migrate_both_ok src t dst : rg i (free None None) (migrate_both src t dst) (λ _, free None None).
Proof.
  apply (rg_pre _ _ _ (both (free None None) any)); [done|]. eapply rg_bind; [apply double_lock_ok; eauto with lk|]. intros [].
  apply rg_ex. intros l1. apply rg_ex. intros l2. set (L := with_pair src dst l1 l2).
  assert (∀ T, stable i (L T)) as Hst by (intros; unfold L, with_pair; eauto 7 with lk).
  assert (∀ T m g, L T m g → ∃ l, rq_held i src l m g) as H1 by (intros T m g (_&_&?&_); by exists l1).
  assert (∀ T m g, L T m g → ∃ l, rq_held i dst l m g) as H2 by (intros T m g (_&_&_&?); by exists l2).
  eapply rg_bind; [apply (queued_ok (L None)); [done|apply H1]|]. intros b. apply (rg_bind _ _ _ _ _ (λ _, L None)).
  - destruct b; [|apply rg_ret; by intros m g _ [? _]].
    eapply rg_bind; [eapply rg_pre; [|apply (depart_ok L Hst None {[l1; l2]} (with_pair_base src dst l1 l2) (with_pair_tasks src dst l1 l2) t src H1)]|].
    { intros m g _ [? Hq]. split; [done|by apply Hq]. }
    intros []. eapply rg_bind; [apply (move_ok L Hst None {[l1; l2]} (with_pair_base src dst l1 l2) (with_pair_tasks src dst l1 l2) t src dst H1)|].
    intros []. apply (arrive_ok L Hst None {[l1; l2]} (with_pair_base src dst l1 l2) (with_pair_tasks src dst l1 l2) t dst H2).
  - intros []. eapply rg_post; [|eapply rg_pre; [|apply (double_unlock_ok i None None any); eauto with lk]].
    + by intros [] m g _ [? _].
    + intros m g _ ?. by exists l1, l2.
Qed.
Lemma use_wake_ok t new : rg i (free None None) (wake t new) (λ _, free None None).
Proof.
  unfold wake. eapply rg_bind; [apply pi_lock_ok|]. intros [].
  apply (rg_bind _ _ _ _ _ (λ r m g, free (Some t) None m g ∧ (r = 0 → ∃ c, asleep i t c m g))).
  { apply read_ok; [done|by intros m r m' [= _ <-]| |].
    - intros r m g m' g' Hr [? Ha]. split; [by eapply base_stable|]. intros He. destruct (Ha He) as [c Hc]. exists c.
      by eapply (f_stable _ ∅ _ (frame_asleep i ∅ t c)).
    - intros m g r Hi Hb [= <-]. split; [done|]. intros He. exists (lk_cpu m t). split_and!; [done|done|by apply (b_pi _ _ _ _ Hb)]. }
  intros r. apply (rg_bind _ _ _ _ _ (λ _, free (Some t) None)); [|intros []; apply pi_unlock_ok]. destruct (Z.eqb_spec r 0).
  - apply (rg_pre _ _ _ (λ m g, ∃ c, both (free (Some t) None) (asleep i t c) m g)); [intros m g _ [? Ha]; destruct Ha as [c ?]; [done|by exists c]|].
    apply rg_ex. intros c. apply (rg_bind _ _ _ _ _ (λ _, both (free (Some t) None) (asleep i t new))).
    { apply lk_do_ok; [apply lk_both_stable; [eauto with lk|apply (f_stable _ ∅), frame_asleep]|].
      intros m g Hi [Hb (Hc&Ho&Hp)]. split; [right; by left|]. intros x m' [= <- <-]. exists g.
      split; [by apply ok_place|]. split; [destruct Hb; by split|]. split_and!; [cbn; apply fset_eq|done|done]. }
    intros []. eapply rg_bind; [apply lock_one_ok; apply frame_asleep|]. intros []. apply rg_ex. intros l.
    apply (rg_bind _ _ _ _ _ (λ _, one_held i (Some t) None any new)).
    { apply lk_do_ok; [by apply one_held_stable|]. intros m g Hi (Hb&(Hc&Ho&Hp)&Hl&Hown).
      split; [cbn; by rewrite Hc, Hl|]. intros x m' [= <- <-]. exists g. split; [by apply ok_activate|]. exists l. split; [destruct Hb; by split|].
      split; [done|by split]. }
    intros []. eapply rg_post; [|apply unlock_one_ok; eauto with lk]. by intros [] m g _ [? _].
  - apply (rg_pre _ _ _ (free (Some t) None)); [by intros m g _ [? _]|]. eapply rg_bind; [apply __task_rq_lock_ok|]. intros rq.
    eapply rg_bind; [apply touch_task_ok|]. intros []. apply task_unlock_rq_ok.
Qed.
End use.
