(* ===== verification/RqLockSafe.v ===== *)
(** The switch to core scheduling while run queues are locked and unlocked; mutual exclusion
    and freedom from deadlock in every interleaving. *)
From S2P Require Import Prelude Interleave RqLock RqLockLogic RqLockOps RqLockUse.

Section switch.
Context {TP : Topology} {TW : TopologyLaws TP} (i : nat).
Local Abbreviation assn := (@assn lk_mem lk_ghost).
Local Abbreviation stable := (stable lks).
Local Abbreviation rg := (rg lks).

(** The thread has the mutex and the locks [H]. *)
Local Abbreviation fl H := (base i (Held H None true false None)).
(** To switch on, the key is on and no reader is left; the flags of [S] are set. *)
Definition flipped (b : bool) (S : list Z) : assn := λ m g,
  (b = true → lk_key m = true ∧ lk_readers m = ∅) ∧ ∀ c, c ∈ S → lk_enabled m c = b.
Lemma flip_stable H b S : stable i (both (fl H) (flipped b S)).
Proof.
  intros m g m' g' Hr [Hb [Hk HS]]. split; [by eapply base_stable|]. destruct (y_flip _ _ _ _ _ Hr) as (Hk'&He&Hrd); [by apply (b_mutex _ _ _ _ Hb)|].
  split; [|intros c Hc; rewrite He; auto]. intros Ht. destruct (Hk Ht) as [Hkey Hr0]. split; [congruence|]. specialize (Hrd Hkey). rewrite Hr0 in Hrd. set_solver.
Qed.

Lemma core_lock_ok b S ts H :
  StronglySorted Z.lt ts → (∀ t t', t ∈ ts → t' ∈ ts → core_of t = core_of t') → (∀ x t, x ∈ H → t ∈ ts → less x t) →
  rg i (both (fl H) (flipped b S)) (each ts (λ t, do_ (SpinLock t))) (λ _, both (fl (list_to_set ts ∪ H)) (flipped b S)).
Proof.
  revert H. induction ts as [|t ts IH]; intros H Hs Hc Hl; cbn [each].
  { apply rg_ret. intros m g _ ?. by replace (list_to_set [] ∪ H) with H by set_solver. }
  inversion Hs as [|? ? Hs' Hf]; subst. rewrite Forall_forall in Hf.
  apply (rg_bind _ _ _ _ _ (λ _, both (fl ({[t]} ∪ H)) (flipped b S))).
  - apply lk_do_ok; [apply flip_stable|]. intros m g Hi [Hb Hk]. split.
    + intros h Hh. apply Hl; [by apply (b_rq _ _ _ _ Hb)|by left].
    + intros x m' Hx. cbn in Hx. destruct (lk_owner m !! t) eqn:Ho; [done|]. injection Hx as <- <-. exists g. split; [by apply ok_spin_lock|].
      destruct (base_lock i _ _ m g true H false t Hb Ho). by split.
  - intros []. replace (list_to_set (t :: ts) ∪ H) with (list_to_set ts ∪ ({[t]} ∪ H)) by set_solver. apply IH; [done| |].
    + intros. apply Hc; by right.
    + intros x t' [->%elem_of_singleton|Hx]%elem_of_union Ht'; [right; split; [apply Hc; [by left|by right]|by apply Hf]|apply Hl; [done|by right]].
Qed.
Lemma core_write_ok b H S ts :
  (∀ t, t ∈ ts → t ∈ all_cpus) → (∀ t, t ∈ ts → (∀ l, core_of l = core_of t → l ∈ H) ∨ (∀ d, core_of d = core_of t → d = t)) →
  rg i (both (fl H) (flipped b S)) (each ts (λ t, do_ (WriteEnabled t b))) (λ _, both (fl H) (flipped b (ts ++ S))).
Proof.
  revert S. induction ts as [|t ts IH]; intros S Hin Hall; cbn [each]; [by apply rg_ret|].
  apply (rg_bind _ _ _ _ _ (λ _, both (fl H) (flipped b (t :: S)))).
  - apply lk_do_ok; [apply flip_stable|]. intros m g Hi [Hb [Hk HS]]. split; [done|]. intros x m' [= <- <-]. exists g. split.
    + apply ok_write_enabled; [done|by apply (b_mutex _ _ _ _ Hb)| |].
      * intros Hbt. destruct (Hk Hbt). split_and!; [done|done|apply Hin; by left].
      * destruct (Hall t) as [Hl|Hl]; [by left|left|by right]. intros l Hc. apply (b_rq _ _ _ _ Hb). by apply Hl.
    + split; [by destruct Hb|]. split; [done|]. intros c Hc. cbn. destruct (decide (c = t)) as [->|]; [apply fset_eq|rewrite fset_ne by done].
      apply HS. by inversion Hc.
  - intros []. eapply rg_post; [|apply IH; intros; [apply Hin|apply Hall]; by right]. intros [] m g _ [? [? HS]]. split; [done|]. split; [done|].
    intros c Hc. apply HS. set_solver.
Qed.
Lemma core_unlock_ok b S ts :
  NoDup ts → (∀ t c, t ∈ ts → core_of c = core_of t → c ∈ S) →
  rg i (both (fl (list_to_set ts)) (flipped b S)) (each ts (λ t, do_ (SpinUnlock t))) (λ _, both (fl ∅) (flipped b S)).
Proof.
  induction ts as [|t ts IH]; intros Hnd HS; cbn [each]; [by apply rg_ret|]. inversion Hnd; subst.
  apply (rg_bind _ _ _ _ _ (λ _, both (fl (list_to_set ts)) (flipped b S))).
  - apply lk_do_ok; [apply flip_stable|]. intros m g Hi [Hb [Hk Hf]]. split; [done|]. intros x m' [= <- <-]. exists g. split.
    + apply ok_spin_unlock; [done|apply (b_rq _ _ _ _ Hb); cbn; set_solver|]. intros _ c c' Hc Hc'.
      rewrite (Hf c), (Hf c'); [done|by apply (HS t); [left|]|by apply (HS t); [left|]].
    + split.
      * eapply (base_unlock i _ _ m g true _ (list_to_set ts) false t) in Hb; [by destruct (decide _)|]. set_solver.
      * split; [|done]. intros Hbt. destruct (Hk Hbt) as [? Hr]. split; [done|]. cbn. rewrite Hr. destruct (bool_decide _); set_solver.
  - intros []. apply IH; [done|]. intros t' c Ht'. apply HS. by right.
Qed.
Lemma sorted_nodup ts : StronglySorted Z.lt ts → NoDup ts.
Proof.
  induction 1 as [|t ts Hs IH Hf]; constructor; [|done]. intros Hin. rewrite Forall_forall in Hf. specialize (Hf t Hin). lia.
Qed.
Lemma flip_online_ok b S masks :
  (∀ smt, smt ∈ masks → smt ∈ smt_masks) →
  rg i (both (fl ∅) (flipped b S)) (flip_online masks b) (λ _, both (fl ∅) (flipped b (concat masks ++ S))).
Proof.
  revert S. induction masks as [|smt masks IH]; intros S Hm; cbn [flip_online]; [by apply rg_ret|].
  assert (smt ∈ smt_masks) as Hsmt by (apply Hm; by left).
  eapply rg_bind; [apply core_lock_ok; [by apply smt_sorted| |set_solver]|].
  { intros t t' Ht Ht'. by apply (smt_core smt t'). }
  intros []. replace (list_to_set smt ∪ ∅ : gset Z) with (list_to_set smt : gset Z) by set_solver.
  eapply rg_bind; [apply core_write_ok|].
  { intros t Ht. unfold all_cpus. rewrite elem_of_app. left. apply list_elem_of_In, in_concat. exists smt. by rewrite <- !list_elem_of_In. }
  { intros t Ht. left. intros l Hl. rewrite elem_of_list_to_set. by apply (smt_core smt t). }
  intros []. eapply rg_bind; [apply core_unlock_ok; [by apply sorted_nodup, smt_sorted|]|].
  { intros t c Ht Hc. rewrite elem_of_app. left. by apply (smt_core smt t). }
  intros []. eapply rg_post; [|apply IH; intros; apply Hm; by right]. intros [] m g _ [? [? HS]]. split; [done|]. split; [done|].
  intros c Hc. apply HS. cbn in Hc. set_solver.
Qed.
Lemma core_flip_ok b : rg i (both (fl ∅) (flipped b [])) (core_flip b) (λ _, both (fl ∅) (flipped b all_cpus)).
Proof.
  unfold core_flip. eapply rg_bind; [by apply flip_online_ok|]. intros []. eapply rg_post; [|apply core_write_ok].
  - intros [] m g _ [? [? HS]]. split; [done|]. split; [done|]. intros c Hc. apply HS. unfold all_cpus in Hc. set_solver.
  - intros t Ht. unfold all_cpus. set_solver.
  - intros t Ht. right. intros d Hd. by apply (offline_core t).
Qed.

Lemma core_enable_ok : rg i (both (fl ∅) (flipped false [])) core_enable (λ _, fl ∅).
Proof.
  set (K := λ m (g : lk_ghost), lk_key m = true). assert (stable i (both (fl ∅) K)) as HK.
  { intros m g m' g' Hr [Hb Hk]. split; [by eapply base_stable|]. destruct (y_flip _ _ _ _ _ Hr) as (Hk'&_); [by apply (b_mutex _ _ _ _ Hb)|].
    unfold K in *. congruence. }
  unfold core_enable. apply (rg_bind _ _ _ _ _ (λ _, both (fl ∅) K)).
  { apply lk_do_ok; [done|]. intros m g Hi [Hb _]. split; [done|]. intros x m' [= <- <-]. exists g. split; [|split; [by destruct Hb|done]].
    apply ok_write_key; [done|by apply (b_mutex _ _ _ _ Hb)|done]. }
  intros []. apply (rg_bind _ _ _ _ _ (λ _, both (fl ∅) (flipped true []))).
  { apply lk_do_ok; [apply flip_stable|]. intros m g Hi [Hb Hk]. split.
    - split_and!.
      + intros h Hh. apply (b_rq _ _ _ _ Hb) in Hh. set_solver.
      + intros t Ht. by apply (b_pi _ _ _ _ Hb) in Ht.
      + intros Hr. by apply (b_rcu _ _ _ _ Hb) in Hr.
    - intros x m' Hx. cbn in Hx. destruct (bool_decide_reflect (lk_readers m = ∅)); [|done]. injection Hx as <- <-. exists g.
      split; [by apply ok_refl|]. split; [done|]. split; [done|]. set_solver. }
  intros []. eapply rg_post; [|apply core_flip_ok]. by intros [] m g _ [? _].
Qed.
Lemma core_disable_ok : rg i (both (fl ∅) (flipped false [])) core_disable (λ _, fl ∅).
Proof.
  unfold core_disable. eapply rg_bind; [apply core_flip_ok|]. intros []. apply lk_do_ok; [eauto with lk|]. intros m g Hi [Hb [_ Hf]].
  split; [done|]. intros x m' [= <- <-]. exists g. split; [|by destruct Hb]. apply ok_write_key; [done|by apply (b_mutex _ _ _ _ Hb)|].
  intros _ c. destruct (lk_enabled m c) eqn:He; [|done]. destruct (v_on _ _ Hi c He) as (_&_&Hc). rewrite (Hf c Hc) in He. done.
Qed.
Lemma use_core_ok b : rg i (base i nothing) (user_prog (use_core b)) (λ _, base i nothing).
Proof.
  cbn [user_prog]. apply (rg_bind _ _ _ _ _ (λ _, both (fl ∅) (flipped false []))).
  { apply lk_do_ok; [apply flip_stable|]. intros m g Hi Hb. split.
    - split_and!.
      + intros h Hh. apply (b_rq _ _ _ _ Hb) in Hh. set_solver.
      + intros t Ht. by apply (b_pi _ _ _ _ Hb) in Ht.
      + intros Hr. by apply (b_rcu _ _ _ _ Hb) in Hr.
      + intros Hx. by apply (b_mutex _ _ _ _ Hb) in Hx.
    - intros x m' Hx. cbn in Hx. destruct (lk_mutex m) eqn:Ho; [done|]. injection Hx as <- <-. exists g. split; [by apply ok_mutex_lock|].
      split; [by destruct Hb|]. split; [done|]. set_solver. }
  intros []. apply (rg_bind _ _ _ _ _ (λ _, fl ∅)); [destruct b; [apply core_enable_ok|apply core_disable_ok]|]. intros [].
  apply lk_do_ok; [eauto with lk|]. intros m g Hi Hb. split; [done|]. intros x m' [= <- <-]. exists g. split; [|by destruct Hb].
  apply ok_mutex_unlock; [done|by apply (b_mutex _ _ _ _ Hb)|]. intros l Hl. apply (b_rq _ _ _ _ Hb) in Hl. set_solver.
Qed.
Lemma user_ok u : rg i (base i nothing) (user_prog u) (λ _, base i nothing).
Proof.
  destruct u; [apply use_rq_ok|apply use_double_ok|apply use_balance_ok|apply use_task_ok|apply use_migrate_ok|
    apply use_migrate_both_ok|apply use_wake_ok|apply use_block_ok|apply use_core_ok].
Qed.
End switch.

(** * Every interleaving *)

(** No lock is held, core scheduling is off, no task is on its way. *)
Record fresh_locks (m : lk_mem) : Prop := {
  fl_owner : lk_owner m = ∅; fl_pi : lk_pi m = ∅; fl_mutex : lk_mutex m = None; fl_key : lk_key m = false; fl_readers : lk_readers m = ∅;
  fl_enabled c : lk_enabled m c = false; fl_on_rq t : lk_on_rq m t ≠ LK_MIGRATING;
}.
(** The next access of thread [i]. *)
Definition next_access (s : lk_config) (i : nat) (e : lk_access) : Prop := ∃ k l, cf_pool s !! i = Some (Act e k, l).

Section every.
Context {TP : Topology} {TW : TopologyLaws TP}.
Local Abbreviation lockp := __rq_lockp.

Definition lk_fin (i : nat) (_ : unit) : @assn lk_mem lk_ghost := base i nothing.
Definition lk_out (i : nat) : @assn lk_mem lk_ghost := base i nothing.
Local Abbreviation lk_pool_inv := (pool_inv lks lk_fin lk_out).
Lemma lk_out_stable i : stable lks i (lk_out i).
Proof. apply base_stable. Qed.

Lemma lk_step_inv mv s s' g : lk_pool_inv s g → lk_step mv s = Some s' → ∃ g', lk_pool_inv s' g'.
Proof.
  intros Hp Hs. destruct mv as [i u|i|i]; cbn in Hs.
  - destruct (cf_pool s !! i) eqn:Hpi; [done|]. injection Hs as <-. exists g.
    apply (pool_step lks _ _ lk_out_stable i s _ g); [done|apply ok_refl, Hp| |].
    + intros j Hj. by rewrite lookup_insert_ne.
    + rewrite lookup_insert_eq. exists (base i nothing). split_and!; [apply base_stable|by apply Hp|apply user_ok].
  - eapply (do_step_inv lks); [apply lk_out_stable|intros; apply lk_rely_refl|exact Hp|exact Hs].
  - destruct (cf_pool s !! i) as [[p l]|] eqn:Hpi; [|done]. destruct p as [[]|e k|]; try done. injection Hs as <-. exists g.
    destruct (p_rg _ _ _ _ _ Hp i _ _ Hpi) as (P&HP&HPm&Hk). pose proof (Hk _ _ (p_inv _ _ _ _ _ Hp) HPm) as Hf.
    apply (pool_step lks _ _ lk_out_stable i s _ g); [done|apply ok_refl, Hp| |].
    + intros j Hj. by rewrite lookup_delete_ne.
    + rewrite lookup_delete_eq. apply Hf.
Qed.
Lemma lk_run_inv mvs s s' g : lk_pool_inv s g → lk_run mvs s = Some s' → ∃ g', lk_pool_inv s' g'.
Proof.
  revert s g. induction mvs as [|mv mvs IH]; intros s g Hp; cbn; [intros [= <-]; eauto|].
  destruct (lk_step mv s) as [s1|] eqn:Hs; [|done]. intros Hr. destruct (lk_step_inv _ _ _ _ Hp Hs) as [g1 Hp1]. eauto.
Qed.
Lemma fresh_lk_run mvs m s : fresh_locks m → lk_run mvs {| cf_mem := m; cf_pool := ∅ |} = Some s → ∃ g, lk_pool_inv s g.
Proof.
  intros [] Hr. eapply (lk_run_inv _ _ _ ∅); [|exact Hr]. split; cbn.
  - split.
    + intros c. by rewrite fl_enabled0.
    + intros c c' _. by rewrite !fl_enabled0.
    + intros t. rewrite lookup_empty, is_Some_alt. split; [by apply fl_on_rq0|done].
  - by intros.
  - intros i _. split; cbn; rewrite ?fl_owner0, ?fl_pi0, ?fl_mutex0, ?fl_readers0; intros; rewrite ?lookup_empty; set_solver.
Qed.

(** C12: What a thread is about to touch it has locked, and nobody else touches: a run queue; a
    task, which is then on that run queue and not on its way to another one. *)
Theorem run_queue_locks_exclusive mvs m0 s i j :
  fresh_locks m0 → lk_run mvs {| cf_mem := m0; cf_pool := ∅ |} = Some s →
  (∀ c, next_access s i (Touch c) → next_access s j (Touch c) → i = j) ∧
  (∀ t c, next_access s i (TouchTask t c) →
     lk_cpu (cf_mem s) t = c ∧ lk_on_rq (cf_mem s) t ≠ LK_MIGRATING ∧
     (next_access s j (Touch c) ∨ (∃ c', next_access s j (TouchTask t c')) ∨ (∃ c', next_access s j (WriteCpu t c')) ∨
      (∃ v, next_access s j (WriteOnRq t v)) → i = j)).
Proof.
  intros Hm Hr. destruct (fresh_lk_run _ _ _ Hm Hr) as [g Hp].
  assert (∀ i e, next_access s i e → lk_safe i e (cf_mem s) g) as Hsafe by (intros k e (f&l&Hk); by eapply (pool_safe lks)).
  split.
  - intros c Hi%Hsafe Hj%Hsafe. cbn in Hi, Hj. congruence.
  - intros t c (Ho&Hpi&Hc&Hq)%Hsafe. split_and!; [done|done|].
    intros [H%Hsafe|[[c' H%Hsafe]|[[c' H%Hsafe]|[v H%Hsafe]]]]; cbn in H.
    + congruence.
    + destruct H as (_&Hpi'&_). congruence.
    + destruct H as [[Ho' _]|[[Hp' _]|Hg]]; [congruence|congruence|].
      destruct Hq. apply (v_mig _ _ (p_inv _ _ _ _ _ Hp)). by eexists.
    + congruence.
Qed.

(** ** Deadlock *)

(** How far up a thread waits: for the mutex, for the readers, for a task, for a run queue. *)
Definition level (e : lk_access) : Z * Z * Z :=
  match e with
  | MutexLock => (0, 0, 0)
  | SyncRcu => (1, 0, 0)
  | PiLock _ => (2, 0, 0)
  | SpinLock l => (3, core_of l, l)
  | _ => (4, 0, 0)
  end.
Definition below (x y : Z * Z * Z) : Prop :=
  x.1.1 < y.1.1 ∨ (x.1.1 = y.1.1 ∧ (x.1.2 < y.1.2 ∨ (x.1.2 = y.1.2 ∧ x.2 < y.2))).
#[local] Instance below_dec : RelDecision below.
Proof. intros x y. unfold below. apply _. Defined.
#[local] Instance below_trans : Transitive below.
Proof. intros x y z. unfold below. lia. Qed.
Definition blocked (s : lk_config) (i : nat) (e : lk_access) : Prop := next_access s i e ∧ lk_exec i e (cf_mem s) = None.
Lemma blocking i e m : lk_exec i e m = None →
  match e with
  | SyncRcu => ∃ j, j ∈ lk_readers m
  | MutexLock => ∃ j, lk_mutex m = Some j
  | SpinLock l => ∃ j, lk_owner m !! l = Some j
  | PiLock t => ∃ j, lk_pi m !! t = Some j
  | _ => False
  end.
Proof.
  destruct e; cbn; try done.
  - destruct (bool_decide_reflect (lk_readers m = ∅)) as [|Hne]; [done|]. intros _. by apply set_choose_L in Hne.
  - destruct (lk_mutex m); eauto. done.
  - destruct (lk_owner m !! l); eauto. done.
  - by destruct (lk_owner m !! l).
  - destruct (lk_pi m !! t); eauto. done.
Qed.
(** A thread waits for a thread that, if it waits itself, waits further up. *)
Lemma blocked_by s g i e : lk_pool_inv s g → blocked s i e → ∃ j p, cf_pool s !! j = Some p ∧ ∀ e', blocked s j e' → below (level e) (level e').
Proof.
  intros Hp [Hn He].
  assert (∀ i e, next_access s i e → lk_safe i e (cf_mem s) g) as Hsafe by (intros k x (f&l&Hk); by eapply (pool_safe lks)).
  assert (∀ j, cf_pool s !! j = None → base j nothing (cf_mem s) g) as Hout by apply Hp.
  assert (∀ j, (∃ l, lk_owner (cf_mem s) !! l = Some j) ∨ (∃ t, lk_pi (cf_mem s) !! t = Some j) ∨ lk_mutex (cf_mem s) = Some j ∨ j ∈ lk_readers (cf_mem s) →
    ∃ p, cf_pool s !! j = Some p) as Hin.
  { intros j Hj. destruct (cf_pool s !! j) as [p|] eqn:Hpj; [by exists p|]. destruct (Hout j Hpj). cbn in *.
    destruct Hj as [[l Hl]|[[t Ht]|[Hx|Hrd]]]; [apply b_rq in Hl; set_solver|by apply b_pi in Ht|by apply b_mutex in Hx|by apply b_rcu in Hrd]. }
  apply blocking in He. destruct e; cbn in He; try done; destruct He as [j Hx]; (destruct (Hin j) as [p Hpj]; [eauto 6|]);
    exists j, p; (split; [done|]); intros e' [He'%Hsafe Hb%blocking]; destruct e'; cbn in He', Hb; try done; unfold below; cbn; try lia.
  all: try (by destruct He' as (_&_&?)); try (by destruct He' as (_&_&?&_)); try (by destruct He' as (_&_&_&?)).
  all: try (destruct He' as (Ho&_); by destruct (Ho l)); try (destruct He' as (_&Ho&_); by destruct (Ho t)).
  specialize (He' l Hx). unfold less in He'. lia.
Qed.
(** C13: As long as a thread is under way, one can go on: it does its next access, or is done. *)
Theorem run_queue_locks_progress mvs m0 s :
  fresh_locks m0 → lk_run mvs {| cf_mem := m0; cf_pool := ∅ |} = Some s → cf_pool s ≠ ∅ →
  ∃ i s', lk_step (LkDo i) s = Some s' ∨ lk_step (LkEnd i) s = Some s'.
Proof.
  intros Hm Hr Hne. destruct (fresh_lk_run _ _ _ Hm Hr) as [g Hp].
  set (rank := λ i, match cf_pool s !! i with
    | Some (Act e _, _) => if lk_exec i e (cf_mem s) is Some _ then (5, 0, 0) else level e | _ => (5, 0, 0) end).
  assert (Transitive (λ x y, below (rank y) (rank x))) by (intros x y z Hxy Hyz; by etransitivity).
  destruct (minimal_exists_elem_of_L (λ x y, below (rank y) (rank x)) (dom (cf_pool s))) as (i&Hi&Hmin).
  { intros He. apply Hne. by apply dom_empty_iff_L in He. }
  apply elem_of_dom in Hi as [[p l] Hpi]. exists i. cbn. unfold do_step. rewrite Hpi. destruct p as [[]|e k|body x k]; [eauto| |eauto].
  destruct (lk_exec i e (cf_mem s)) as [[r m']|] eqn:He; [eauto|]. exfalso.
  assert (blocked s i e) as Hb by (split; [by exists k, l|done]). destruct (blocked_by s g i e Hp Hb) as (j&[q u]&Hpj&Hj).
  assert (rank i = level e) as Hri by (unfold rank; by rewrite Hpi, He).
  assert (below (rank i) (rank j)) as Hij.
  { rewrite Hri. unfold rank. rewrite Hpj. assert (below (level e) (5, 0, 0)) as Hlow by (destruct e; left; cbn; lia).
    destruct q as [|e' k'|]; [done| |done]. destruct (lk_exec j e' (cf_mem s)) eqn:He'; [done|]. apply Hj. split; [by exists k', u|done]. }
  assert (below (rank j) (rank i)) as Hji by (apply Hmin; [apply elem_of_dom; by eexists|done]). unfold below in Hij, Hji. lia.
Qed.
End every.
