(* ===== verification/MmCid.v ===== *)
(** Concurrency ids of a memory map (core.c, sched.h, CONFIG_SCHED_MM_CID).

    A running thread of a memory map has an id that no other running thread of the map has.
    Each CPU caches the id it used last; other CPUs reclaim it without a lock, by setting a
    flag in the cached value and looking at what the CPU runs.  The functions are programs
    of atomic memory accesses, which the semantics interleaves; the memory is sequentially
    consistent, since the code puts barriers where it relies on an order.  The state is that
    of one memory map: a task of another map is a task that is not active here. *)
From S2P Require Import Prelude Interleave.

(** The encoding of the cached value (include/linux/mm_types.h): an id, an id with the flag
    that it is to be released, or no id. *)
Class CidLib := {
  MM_CID_UNSET : Z;
  mm_cid_is_unset : Z → bool;
  mm_cid_is_lazy_put : Z → bool;
  mm_cid_is_valid : Z → bool;
  mm_cid_set_lazy_put : Z → Z;
  mm_cid_clear_lazy_put : Z → Z;
  cid_limit : Z;
  nr_cpu_ids : Z;
  scan_delay_jiffies : Z;
}.

Definition SCHED_MM_CID_PERIOD_NS := 100 * 1000000.

(** * Memory *)

(** Per CPU: the cached id, the one used before, the time of its last use, the clock and
    the current task of the run queue, and the task that is being switched out.  Per task:
    whether it uses ids, its id, its last id, the CPU it comes from.  Of the map: the ids
    in use, the number of ids handed out, the number of CPUs and of users, and when to scan
    next.  [cm_lock] are the holders of the run-queue locks; [cm_mark] records which CPU
    each thread has flagged last, while it may still release the id. *)
Record cid_mem := {
  cm_cid : Z → Z; cm_recent : Z → Z; cm_time : Z → Z; cm_clock : Z → Z; cm_curr : Z → Z; cm_prev : Z → option Z;
  cm_active : Z → bool; cm_mm_cid : Z → Z; cm_last : Z → Z; cm_from : Z → Z;
  cm_mask : gset Z; cm_max : Z; cm_allowed : Z; cm_users : Z; cm_use_lock : bool; cm_cid_lock : option nat;
  cm_jiffies : Z; cm_scan : Z; cm_lock : gmap Z nat; cm_mark : gmap nat Z
}.
#[export] Instance eta_cid_mem : Eta cid_mem := λ r,
  {| cm_cid := cm_cid r; cm_recent := cm_recent r; cm_time := cm_time r; cm_clock := cm_clock r; cm_curr := cm_curr r;
     cm_prev := cm_prev r; cm_active := cm_active r; cm_mm_cid := cm_mm_cid r; cm_last := cm_last r; cm_from := cm_from r;
     cm_mask := cm_mask r; cm_max := cm_max r; cm_allowed := cm_allowed r; cm_users := cm_users r;
     cm_use_lock := cm_use_lock r; cm_cid_lock := cm_cid_lock r; cm_jiffies := cm_jiffies r; cm_scan := cm_scan r;
     cm_lock := cm_lock r; cm_mark := cm_mark r |}.

(** Atomic accesses; each answers a number. *)
Inductive access :=
  | ReadCid (c : Z) | CasCid (c old new : Z) | WriteCid (c v : Z) | ReadRecent (c : Z) | WriteRecent (c v : Z)
  | ReadTime (c : Z) | WriteTime (c v : Z) | ReadClock (c : Z) | ReadCurr (c : Z) | WriteCurr (c t : Z)
  | ReadActive (t : Z) | WriteActive (t : Z) (b : bool) | WriteMmCid (t v : Z) | ReadLast (t : Z) | WriteLast (t v : Z)
  | ReadFrom (t : Z) | TestSetBit (n : Z) | ClearBit (n : Z) | FirstZero | Weight | ReadMax | CasMax (old new : Z)
  | ReadAllowed | ReadUsers | ReadUseLock | WriteUseLock (b : bool) | LockCid | UnlockCid
  | ReadJiffies | ReadScan | CasScan (old new : Z) | WriteScan (v : Z).

Abbreviation cprog := (prog access).
Abbreviation config := (pool access cid_mem (option Z)).

Section code.
Context {CL : CidLib}.

(** * Allocation (sched.h) *)

Definition __mm_cid_put (cid : Z) : cprog unit := if cid <? 0 then mret tt else do_ (ClearBit cid).

(** [try_cmpxchg] on the cached id of a CPU. *)
Definition try_cas_cid (c old new : Z) : cprog bool := r ← access_ (CasCid c old new); mret (r =? old).

Definition mm_cid_put_lazy (c : Z) : cprog unit :=
  cid ← access_ (ReadCid c);
  if negb (mm_cid_is_lazy_put cid) then mret tt else
  ok ← try_cas_cid c cid MM_CID_UNSET;
  if negb ok then mret tt else
  __mm_cid_put (mm_cid_clear_lazy_put cid).

Definition pcpu_unset_round (c cid : Z) : cprog (Z + Z) :=
  if mm_cid_is_unset cid then break MM_CID_UNSET else
  res ← access_ (CasCid c cid MM_CID_UNSET);
  if res =? cid then break cid else again res.
Definition mm_cid_pcpu_unset (c : Z) : cprog Z := cid ← access_ (ReadCid c); loop (pcpu_unset_round c) cid.

Definition mm_cid_put (c : Z) : cprog unit :=
  cid ← mm_cid_pcpu_unset c;
  if cid =? MM_CID_UNSET then mret tt else __mm_cid_put (mm_cid_clear_lazy_put cid).

(** The number of ids handed out follows the number of threads and CPUs down. *)
Definition shrink_round (max_nr_cid : Z) : cprog (Z + Z) :=
  allowed ← access_ ReadAllowed;
  users ← access_ ReadUsers;
  let allowed_max_nr_cid := Z.min allowed users in
  if allowed_max_nr_cid <? max_nr_cid then
    r ← access_ (CasMax max_nr_cid allowed_max_nr_cid);
    if r =? max_nr_cid then break allowed_max_nr_cid else again r
  else break max_nr_cid.
(** The next id that was never handed out; -1 when there is none. *)
Definition expand_round (cid : Z) : cprog (Z + Z) :=
  allowed ← access_ ReadAllowed;
  if negb (cid <? allowed) then break (-1) else
  users ← access_ ReadUsers;
  if negb (cid <? users) then break (-1) else
  r ← access_ (CasMax cid (cid + 1));
  if negb (r =? cid) then again r else
  taken ← test (TestSetBit cid);
  if taken : bool then again cid else break cid.
Definition find_zero_round (s : Z) : cprog (Z + Z) :=
  cid ← access_ FirstZero;
  allowed ← access_ ReadAllowed;
  if cid <? allowed then break cid else again s.
Definition __mm_cid_try_get (c : Z) : cprog Z :=
  m ← access_ ReadMax;
  max_nr_cid ← loop shrink_round m;
  recent ← access_ (ReadRecent c);
  reused ← (if negb (mm_cid_is_unset recent) && (recent <? max_nr_cid)
            then taken ← test (TestSetBit recent); mret (negb taken) else mret false);
  if reused : bool then mret recent else
  cid ← loop expand_round max_nr_cid;
  if negb (cid =? -1) then mret cid else
  cid ← loop find_zero_round 0;
  taken ← test (TestSetBit cid);
  mret (if taken : bool then -1 else cid).

Definition mm_cid_snapshot_time (c : Z) : cprog unit := clock ← access_ (ReadClock c); do_ (WriteTime c clock).

Definition retry_round (c s : Z) : cprog (Z + Z) := cid ← __mm_cid_try_get c; if cid <? 0 then again s else break cid.
(** With the lock held and contention seen. *)
Definition contended_get (c : Z) : cprog Z :=
  do_ (WriteUseLock true);;
  cid ← loop (retry_round c) 0;
  do_ (WriteUseLock false);;
  do_ UnlockCid;;
  mret cid.
Definition __mm_cid_get (c : Z) : cprog Z :=
  locked ← test ReadUseLock;
  cid ← (if negb locked then
           cid ← __mm_cid_try_get c;
           if 0 <=? cid then mret cid else do_ LockCid;; contended_get c
         else
           do_ LockCid;;
           cid ← __mm_cid_try_get c;
           if 0 <=? cid then do_ UnlockCid;; mret cid else contended_get c);
  mm_cid_snapshot_time c;;
  mret cid.

Definition mm_cid_get (c : Z) : cprog Z :=
  cid ← access_ (ReadCid c);
  if mm_cid_is_valid cid then mm_cid_snapshot_time c;; mret cid else
  (if mm_cid_is_lazy_put cid then
     ok ← try_cas_cid c cid MM_CID_UNSET;
     if ok : bool then __mm_cid_put (mm_cid_clear_lazy_put cid) else mret tt
   else mret tt);;
  cid ← __mm_cid_get c;
  do_ (WriteCid c cid);;
  do_ (WriteRecent c cid);;
  mret cid.

(** The current task of [c] changes from [prev] to [next]: the store in [__schedule], and
    [switch_mm_cid] in [context_switch]. *)
Definition switch_mm_cid (c prev next : Z) : cprog unit :=
  prev_active ← test (ReadActive prev);
  (if prev_active : bool then mm_cid_snapshot_time c;; mm_cid_put_lazy c;; do_ (WriteMmCid prev (-1)) else mret tt);;
  next_active ← test (ReadActive next);
  if next_active : bool then
    cid ← mm_cid_get c;
    do_ (WriteMmCid next cid);;
    do_ (WriteLast next cid)
  else mret tt.
Definition switch_to (c prev next : Z) : cprog unit := do_ (WriteCurr c next);; switch_mm_cid c prev next.

(** * Reclaiming ids (core.c) *)

Definition fetch_cid (src t : Z) : cprog Z :=
  last ← access_ (ReadLast t);
  if last =? -1 then mret (-1) else
  src_cid ← access_ (ReadCid src);
  if negb (mm_cid_is_valid src_cid) || negb (last =? src_cid) then mret (-1) else
  src_task ← access_ (ReadCurr src);
  active ← test (ReadActive src_task);
  if active : bool then do_ (WriteLast t (-1));; mret (-1) else mret src_cid.

Definition try_steal_cid (src t src_cid : Z) : cprog Z :=
  if src_cid =? -1 then mret (-1) else
  let lazy_cid := mm_cid_set_lazy_put src_cid in
  ok ← try_cas_cid src src_cid lazy_cid;
  if negb ok then mret (-1) else
  src_task ← access_ (ReadCurr src);
  active ← test (ReadActive src_task);
  if active : bool then do_ (WriteLast t (-1));; mret (-1) else
  ok ← try_cas_cid src lazy_cid MM_CID_UNSET;
  if negb ok then mret (-1) else
  do_ (WriteRecent src MM_CID_UNSET);;
  mret src_cid.

(** Under the lock of the destination. *)
Definition sched_mm_cid_migrate_to (dst t : Z) : cprog unit :=
  src_cpu ← access_ (ReadFrom t);
  if src_cpu =? -1 then do_ (WriteLast t (-1)) else
  cid ← access_ (ReadCid dst);
  recent ← (if negb (mm_cid_is_unset cid) then mret cid else access_ (ReadRecent dst));
  let dst_cid_is_set := negb (mm_cid_is_unset cid) || negb (mm_cid_is_unset recent) in
  full ← (if dst_cid_is_set then users ← access_ ReadUsers; allowed ← access_ ReadAllowed; mret (allowed <=? users)
          else mret false);
  if full : bool then mret tt else
  src_cid ← fetch_cid src_cpu t;
  if src_cid =? -1 then mret tt else
  src_cid ← try_steal_cid src_cpu t src_cid;
  if src_cid =? -1 then mret tt else
  if dst_cid_is_set then __mm_cid_put src_cid else
  mm_cid_snapshot_time dst;;
  do_ (WriteCid dst src_cid);;
  do_ (WriteRecent dst src_cid).

Definition sched_mm_cid_remote_clear (c : Z) : cprog unit :=
  cid ← access_ (ReadCid c);
  if negb (mm_cid_is_valid cid) then mret tt else
  let lazy_cid := mm_cid_set_lazy_put cid in
  ok ← try_cas_cid c cid lazy_cid;
  if negb ok then mret tt else
  t ← access_ (ReadCurr c);
  active ← test (ReadActive t);
  if active : bool then mret tt else
  ok ← try_cas_cid c lazy_cid MM_CID_UNSET;
  if ok : bool then __mm_cid_put cid else mret tt.

Definition sched_mm_cid_remote_clear_old (c : Z) : cprog unit :=
  rq_clock ← access_ (ReadClock c);
  curr ← access_ (ReadCurr c);
  active ← test (ReadActive curr);
  if active : bool then do_ (WriteTime c rq_clock) else
  time ← access_ (ReadTime c);
  if rq_clock <? u64 (time + SCHED_MM_CID_PERIOD_NS) then mret tt else
  sched_mm_cid_remote_clear c.

Definition sched_mm_cid_remote_clear_weight (c weight : Z) : cprog unit :=
  cid ← access_ (ReadCid c);
  if negb (mm_cid_is_valid cid) || (cid <? weight) then mret tt else
  sched_mm_cid_remote_clear c.

Definition time_before (a b : Z) : bool := wrap64 (a - b) <? 0.
Fixpoint for_cpus (cpus : list Z) (f : Z → cprog unit) : cprog unit :=
  match cpus with [] => mret tt | c :: cpus => f c;; for_cpus cpus f end.
(** [exiting]: the task has PF_EXITING. *)
Definition task_mm_cid_work (cpus : list Z) (exiting : bool) : cprog unit :=
  if exiting then mret tt else
  now ← access_ ReadJiffies;
  old_scan ← access_ ReadScan;
  let next_scan := u64 (now + scan_delay_jiffies) in
  old_scan ← (if old_scan =? 0 then
                res ← access_ (CasScan old_scan next_scan);
                mret (if res =? old_scan then next_scan else res)
              else mret old_scan);
  if time_before now old_scan then mret tt else
  r ← access_ (CasScan old_scan next_scan);
  if negb (r =? old_scan) then mret tt else
  for_cpus cpus sched_mm_cid_remote_clear_old;;
  weight ← access_ Weight;
  for_cpus cpus (λ c, sched_mm_cid_remote_clear_weight c weight).

Definition init_sched_mm_cid : cprog unit :=
  mm_users ← access_ ReadUsers;
  if mm_users =? 1 then jiffies ← access_ ReadJiffies; do_ (WriteScan (u64 (jiffies + scan_delay_jiffies))) else mret tt.
(** Whether the tick asks for a scan; [skip]: the task is exiting, a kernel thread, or has
    the work queued already. *)
Definition task_tick_mm_cid (skip : bool) : cprog bool :=
  if skip then mret false else
  now ← access_ ReadJiffies;
  scan ← access_ ReadScan;
  mret (negb (time_before now scan)).

(** * Exit and exec *)

Definition sched_mm_cid_exit_signals (c t : Z) : cprog unit :=
  do_ (WriteActive t false);;
  mm_cid_put c;;
  do_ (WriteMmCid t (-1));;
  do_ (WriteLast t (-1)).
Definition sched_mm_cid_before_execve (c t : Z) : cprog unit :=
  do_ (WriteActive t false);;
  mm_cid_put c;;
  do_ (WriteMmCid t (-1));;
  do_ (WriteLast t (-1)).
Definition sched_mm_cid_after_execve (c t : Z) : cprog unit :=
  do_ (WriteActive t true);;
  cid ← mm_cid_get c;
  do_ (WriteMmCid t cid);;
  do_ (WriteLast t cid).

(** * Semantics *)

Definition on_cpu (m : cid_mem) (cpus : list Z) (t : Z) : bool :=
  existsb (λ c, (cm_curr m c =? t) || bool_decide (cm_prev m c = Some t)) cpus.
Definition first_zero (mask : gset Z) : Z :=
  default nr_cpu_ids (head (filter (λ n, n ∉ mask) (seqZ 0 nr_cpu_ids))).

(** [cpus] are the possible CPUs.  A task becomes current only where it is on no other CPU.
    With [apart], a thread does not flag the id of a CPU while another one that has flagged
    it may still release it. *)
Context (cpus : list Z) (apart : bool).
Definition others_marked (m : cid_mem) (i : nat) (c : Z) : bool :=
  existsb (λ jc, bool_decide (jc.1 ≠ i) && (jc.2 =? c)) (map_to_list (cm_mark m)).
Definition exec (i : nat) (e : access) (m : cid_mem) : option (Z * cid_mem) :=
  match e with
  | ReadCid c => Some (cm_cid m c, m <| cm_mark := delete i (cm_mark m) |>)
  | CasCid c old new =>
      let m1 := m <| cm_mark := delete i (cm_mark m) |> in
      if cm_cid m c =? old then
        if mm_cid_is_lazy_put new then
          if apart && others_marked m i c then None
          else Some (old, m <| cm_cid := fset (cm_cid m) c new |> <| cm_mark := <[i := c]> (cm_mark m) |>)
        else Some (old, m1 <| cm_cid := fset (cm_cid m) c new |>)
      else Some (cm_cid m c, m1)
  | WriteCid c v => Some (0, m <| cm_cid := fset (cm_cid m) c v |>)
  | ReadRecent c => Some (cm_recent m c, m)
  | WriteRecent c v => Some (0, m <| cm_recent := fset (cm_recent m) c v |>)
  | ReadTime c => Some (cm_time m c, m)
  | WriteTime c v => Some (0, m <| cm_time := fset (cm_time m) c v |>)
  | ReadClock c => Some (cm_clock m c, m)
  | ReadCurr c => Some (cm_curr m c, m)
  | WriteCurr c t =>
      if on_cpu m cpus t then None
      else Some (0, m <| cm_prev := fset (cm_prev m) c (Some (cm_curr m c)) |> <| cm_curr := fset (cm_curr m) c t |>)
  | ReadActive t => Some (of_bool (cm_active m t), m)
  | WriteActive t b => Some (0, m <| cm_active := fset (cm_active m) t b |>)
  | WriteMmCid t v => Some (0, m <| cm_mm_cid := fset (cm_mm_cid m) t v |>)
  | ReadLast t => Some (cm_last m t, m)
  | WriteLast t v => Some (0, m <| cm_last := fset (cm_last m) t v |>)
  | ReadFrom t => Some (cm_from m t, m)
  | TestSetBit n => Some (of_bool (bool_decide (n ∈ cm_mask m)), m <| cm_mask := {[n]} ∪ cm_mask m |>)
  | ClearBit n => Some (0, m <| cm_mask := cm_mask m ∖ {[n]} |>)
  | FirstZero => Some (first_zero (cm_mask m), m)
  | Weight => Some (Z.of_nat (size (cm_mask m)), m)
  | ReadMax => Some (cm_max m, m)
  | CasMax old new => Some (cm_max m, if cm_max m =? old then m <| cm_max := new |> else m)
  | ReadAllowed => Some (cm_allowed m, m)
  | ReadUsers => Some (cm_users m, m)
  | ReadUseLock => Some (of_bool (cm_use_lock m), m)
  | WriteUseLock b => Some (0, m <| cm_use_lock := b |>)
  | LockCid => match cm_cid_lock m with Some _ => None | None => Some (0, m <| cm_cid_lock := Some i |>) end
  | UnlockCid => Some (0, m <| cm_cid_lock := None |>)
  | ReadJiffies => Some (cm_jiffies m, m)
  | ReadScan => Some (cm_scan m, m)
  | CasScan old new => Some (cm_scan m, if cm_scan m =? old then m <| cm_scan := new |> else m)
  | WriteScan v => Some (0, m <| cm_scan := v |>)
  end.

(** The operations of the system, and the run-queue lock each is called under. *)
Inductive operation :=
  | op_switch (c next : Z) | op_exit (c : Z) | op_before_execve (c : Z) | op_after_execve (c : Z)
  | op_migrate_to (dst t : Z) | op_work (exiting : bool) | op_init | op_tick (c : Z) (skip : bool).
Definition op_lock (o : operation) : option Z :=
  match o with
  | op_switch c _ | op_exit c | op_before_execve c | op_after_execve c | op_migrate_to c _ | op_tick c _ => Some c
  | op_work _ | op_init => None
  end.
Definition op_prog (m : cid_mem) (o : operation) : cprog unit :=
  match o with
  | op_switch c next => switch_to c (cm_curr m c) next
  | op_exit c => sched_mm_cid_exit_signals c (cm_curr m c)
  | op_before_execve c => sched_mm_cid_before_execve c (cm_curr m c)
  | op_after_execve c => sched_mm_cid_after_execve c (cm_curr m c)
  | op_migrate_to dst t => sched_mm_cid_migrate_to dst t
  | op_work exiting => task_mm_cid_work cpus exiting
  | op_init => init_sched_mm_cid
  | op_tick c skip => task_tick_mm_cid skip;; mret tt
  end.
Definition op_ok (m : cid_mem) (o : operation) : bool :=
  match op_lock o with Some c => bool_decide (c ∈ cpus) && bool_decide (cm_lock m !! c = None) | None => true end.

(** A thread begins an operation, does one access, or is done; a task is forked, or its CPU
    is recorded before it migrates; numbers that other code keeps change. *)
Inductive move :=
  | Begin (i : nat) (o : operation) | Do (i : nat) | End (i : nat) | Fork (t : Z) | MigrateFrom (t c : Z)
  | Outside (clock : Z → Z) (jiffies allowed users : Z).
Definition acquire_rq (i : nat) (l : option Z) (m : cid_mem) : cid_mem :=
  match l with Some c => m <| cm_lock := <[c := i]> (cm_lock m) |> | None => m end.
Definition release_rq (i : nat) (l : option Z) (m : cid_mem) : cid_mem :=
  let m := m <| cm_mark := delete i (cm_mark m) |> in
  match l with Some c => m <| cm_lock := delete c (cm_lock m) |> <| cm_prev := fset (cm_prev m) c None |> | None => m end.
Definition sched_mm_cid_fork (t : Z) (m : cid_mem) : cid_mem := m <| cm_active := fset (cm_active m) t true |>.
Definition sched_mm_cid_migrate_from (t c : Z) (m : cid_mem) : cid_mem := m <| cm_from := fset (cm_from m) t c |>.
Definition step (mv : move) (s : config) : option config :=
  let m := cf_mem s in
  match mv with
  | Begin i o =>
      match cf_pool s !! i with
      | Some _ => None
      | None =>
          if op_ok m o then
            Some {| cf_mem := acquire_rq i (op_lock o) m; cf_pool := <[i := (op_prog m o, op_lock o)]> (cf_pool s) |}
          else None
      end
  | Do i => do_step (exec) i s
  | End i =>
      match cf_pool s !! i with
      | Some (Ret _, l) => Some {| cf_mem := release_rq i l m; cf_pool := delete i (cf_pool s) |}
      | _ => None
      end
  | Fork t => if on_cpu m cpus t then None else Some {| cf_mem := sched_mm_cid_fork t m; cf_pool := cf_pool s |}
  | MigrateFrom t c =>
      if on_cpu m cpus t then None else Some {| cf_mem := sched_mm_cid_migrate_from t c m; cf_pool := cf_pool s |}
  | Outside clock jiffies allowed users =>
      if (0 <=? allowed) && (allowed <=? cid_limit) && (0 <=? users) then
        Some {| cf_mem := m <| cm_clock := clock |> <| cm_jiffies := jiffies |> <| cm_allowed := allowed |> <| cm_users := users |>;
                cf_pool := cf_pool s |}
      else None
  end.
Fixpoint run (mvs : list move) (s : config) : option config :=
  match mvs with [] => Some s | mv :: mvs => match step mv s with Some s => run mvs s | None => None end end.
End code.
