(* ===== verification/MmCidLogic.v ===== *)
(** A rely-guarantee logic for the programs of [MmCid]: the invariant of the memory, who owns
    each id, what a thread may rely on while others run, and the accesses that move an id
    from one owner to another. *)
From S2P Require Import Prelude Interleave MmCid.

Definition is_id {CL : CidLib} (n : Z) : Prop := 0 <= n < cid_limit.
(** The three kinds of cached value are told apart. *)
Class CidLaws (CL : CidLib) : Prop := {
  cid_unset v : mm_cid_is_unset v = true ↔ v = MM_CID_UNSET;
  cid_unset_kind : mm_cid_is_valid MM_CID_UNSET = false ∧ mm_cid_is_lazy_put MM_CID_UNSET = false;
  cid_plain n : is_id n → mm_cid_is_valid n = true ∧ mm_cid_is_lazy_put n = false ∧ n ≠ MM_CID_UNSET;
  cid_flag n : is_id n → mm_cid_is_valid (mm_cid_set_lazy_put n) = false ∧ mm_cid_is_lazy_put (mm_cid_set_lazy_put n) = true ∧
                         mm_cid_set_lazy_put n ≠ MM_CID_UNSET ∧ mm_cid_clear_lazy_put (mm_cid_set_lazy_put n) = n;
  cid_clear n : is_id n → mm_cid_clear_lazy_put n = n;
  cid_cpus : 0 <= nr_cpu_ids;
}.

Create HintDb cid.

Section logic.
Context {CL : CidLib} {CW : CidLaws CL} (cpus : list Z).
Local Abbreviation lazy := mm_cid_set_lazy_put.
Local Abbreviation UNSET := MM_CID_UNSET.

(** * Ownership *)

(** The owner of an id: the CPU that caches it, or a thread that is about to cache or to
    release it.  [g_use]: the id a CPU has handed to its current task. *)
Inductive who := Cpu (c : Z) | Thr (i : nat).
Record ghost := { g_own : gmap Z who; g_use : Z → option Z }.
#[export] Instance eta_ghost : Eta ghost := λ r, {| g_own := g_own r; g_use := g_use r |}.

Definition caches (m : cid_mem) (c n : Z) : Prop := cm_cid m c = n ∨ cm_cid m c = lazy n.

Record inv (m : cid_mem) (g : ghost) : Prop := {
  i_mask n : n ∈ cm_mask m ↔ is_Some (g_own g !! n);
  i_ids n w : g_own g !! n = Some w → is_id n;
  i_own c n : g_own g !! n = Some (Cpu c) ↔ is_id n ∧ caches m c n;
  i_cid c : cm_cid m c = UNSET ∨ ∃ n, is_id n ∧ caches m c n;
  i_use c n : g_use g c = Some n → c ∈ cpus ∧ g_own g !! n = Some (Cpu c) ∧ cm_active m (cm_curr m c) = true;
  i_recent c : cm_recent m c = UNSET ∨ is_id (cm_recent m c);
  i_counts : 0 <= cm_max m ∧ 0 <= cm_allowed m <= cid_limit ∧ 0 <= cm_users m;
  i_curr c c' : c ∈ cpus → c' ∈ cpus → cm_curr m c = cm_curr m c' → c = c';
  i_prev c c' t : c ∈ cpus → c' ∈ cpus → cm_prev m c = Some t → cm_curr m c' ≠ t;
  i_settled c : c ∈ cpus → cm_lock m !! c = None → cm_active m (cm_curr m c) = true → g_use g c = Some (cm_mm_cid m (cm_curr m c));
  i_marks i j c : cm_mark m !! i = Some c → cm_mark m !! j = Some c → i = j;
  i_locks c i : cm_lock m !! c = Some i → c ∈ cpus;
}.

(** What a thread sees of a CPU whose lock it holds. *)
Record cpu_view := { v_curr : Z; v_prev : option Z; v_use : option Z; v_active : bool; v_mm_cid : Z }.
Definition view (m : cid_mem) (g : ghost) (c : Z) : cpu_view :=
  {| v_curr := cm_curr m c; v_prev := cm_prev m c; v_use := g_use g c; v_active := cm_active m (cm_curr m c);
     v_mm_cid := cm_mm_cid m (cm_curr m c) |}.

(** What the others may do to a thread: nothing to the ids it owns; to a CPU whose lock it
    holds, only flag its id and release a flagged one; to a CPU whose id it has flagged,
    neither flag it again nor use it while it is flagged. *)
Record rely (j : nat) (m : cid_mem) (g : ghost) (m' : cid_mem) (g' : ghost) : Prop := {
  r_own n : g_own g' !! n = Some (Thr j) ↔ g_own g !! n = Some (Thr j);
  r_lock c : cm_lock m !! c = Some j →
    cm_lock m' !! c = Some j ∧ view m' g' c = view m g c ∧ (cm_cid m c = UNSET → cm_cid m' c = UNSET) ∧
    (∀ n, is_id n → cm_cid m c = lazy n → cm_cid m' c = lazy n ∨ cm_cid m' c = UNSET);
  r_mark c : cm_mark m !! j = Some c →
    cm_mark m' !! j = Some c ∧
    (∀ n, is_id n → cm_cid m' c = lazy n → cm_cid m c = lazy n ∧ (g_use g' c ≠ None → g_use g' c = g_use g c ∧ cm_curr m' c = cm_curr m c));
}.
Lemma rely_refl j m g : rely j m g m g.
Proof. split; [done| |]; intros; (split_and!; try done; auto). Qed.
Lemma rely_trans j m1 g1 m2 g2 m3 g3 : rely j m1 g1 m2 g2 → rely j m2 g2 m3 g3 → rely j m1 g1 m3 g3.
Proof.
  intros [Ho1 Hl1 Hm1] [Ho2 Hl2 Hm2]. split.
  - intros n. by rewrite Ho2, Ho1.
  - intros c Hc. destruct (Hl1 c Hc) as (Hc2&Hv2&Hu2&Hz2). destruct (Hl2 c Hc2) as (Hc3&Hv3&Hu3&Hz3).
    split_and!; [done|congruence|auto|]. intros n Hn Hv. destruct (Hz2 n Hn Hv) as [?|?]; auto.
  - intros c Hc. destruct (Hm1 c Hc) as [Hc2 Hz2], (Hm2 c Hc2) as [Hc3 Hz3]. split; [done|]. intros n Hn Hv.
    destruct (Hz3 n Hn Hv) as [Hv2 Hu3], (Hz2 n Hn Hv2) as [Hv1 Hu2]. split; [done|]. intros Hu.
    destruct (Hu3 Hu) as [Hue Hce]. rewrite Hue in Hu |- *. destruct (Hu2 Hu). split; congruence.
Qed.

(** * Assertions and programs *)

(** No two threads reclaim the id of one CPU at once ([exec] with [apart]). *)
Definition cids : protocol access cid_mem ghost :=
  {| px_exec := exec cpus true; px_inv := inv; px_rely := rely; px_safe := λ _ _ _ _, True |}.
Local Abbreviation assn := (@assn cid_mem ghost).
Local Abbreviation stable := (stable cids).
Local Abbreviation ok_step := (ok_step cids).
Local Abbreviation rg := (rg cids).
Lemma cid_trans i m1 g1 m2 g2 m3 g3 : ok_step i m1 g1 m2 g2 → ok_step i m2 g2 m3 g3 → ok_step i m1 g1 m3 g3.
Proof. apply ok_trans. intros. by eapply rely_trans. Qed.

(** The ids thread [i] owns: [o] or none. *)
Definition holds (i : nat) (o : option Z) (g : ghost) : Prop := ∀ n, g_own g !! n = Some (Thr i) ↔ o = Some n.
(** A thread under the lock of [c] (or under none) knows [F] of the CPU and, if [u], that
    the CPU caches no id; it owns the id [o]. *)
Definition under (i : nat) (l : option Z) (F : cpu_view → Prop) (u : bool) (o : option Z) : assn := λ m g,
  holds i o g ∧
  match l with
  | None => True
  | Some c => cm_lock m !! c = Some i ∧ F (view m g c) ∧ (u = true → cm_cid m c = UNSET)
  end.
(** It has flagged the id of [c]; then it has seen that [t] runs there; then that the CPU
    uses no id. *)
Definition marked (i : nat) (c : Z) : assn := λ m g, cm_mark m !! i = Some c.
Definition saw (i : nat) (c t : Z) : assn := λ m g,
  cm_mark m !! i = Some c ∧ ∀ n, is_id n → cm_cid m c = lazy n → g_use g c ≠ None → cm_curr m c = t.
Definition seen_idle (i : nat) (c : Z) : assn := λ m g,
  cm_mark m !! i = Some c ∧ ∀ n, is_id n → cm_cid m c = lazy n → g_use g c = None.

Lemma under_stable i l F u o : stable i (under i l F u o).
Proof.
  intros m g m' g' [Ho Hl _] [Hh HU]. split; [intros n; by rewrite Ho|]. destruct l as [c|]; [|done].
  destruct HU as (Hc&HF&Hu). destruct (Hl c Hc) as (Hc'&Hv&Hn&_). split_and!; [done|by rewrite Hv|auto].
Qed.
Lemma marked_stable i c : stable i (marked i c).
Proof. intros m g m' g' [_ _ Hm] Hc. by destruct (Hm c Hc). Qed.
Lemma saw_stable i c t : stable i (saw i c t).
Proof.
  intros m g m' g' [_ _ Hm] [Hc Hs]. destruct (Hm c Hc) as [Hc' Hz]. split; [done|]. intros n Hn Hv Hu.
  destruct (Hz n Hn Hv) as [Hv0 Hu0]. destruct (Hu0 Hu) as [Hue Hce]. rewrite Hce. apply (Hs n Hn Hv0). congruence.
Qed.
Lemma seen_idle_stable i c : stable i (seen_idle i c).
Proof.
  intros m g m' g' [_ _ Hm] [Hc Hs]. destruct (Hm c Hc) as [Hc' Hz]. split; [done|]. intros n Hn Hv.
  destruct (Hz n Hn Hv) as [Hv0 Hu0]. destruct (g_use g' c) as [x|] eqn:Hu; [|done].
  destruct Hu0 as [Hue _]; [done|]. rewrite Hue. by eapply Hs.
Qed.
Hint Resolve under_stable marked_stable saw_stable seen_idle_stable both_stable true_stable pure_stable : cid.

(** * Accesses *)

(** ** Accesses that move nothing *)

(** The parts of the memory the invariant and the assertions speak about. *)
Definition core (m : cid_mem) :=
  (cm_cid m, cm_curr m, cm_prev m, cm_active m, cm_mm_cid m, cm_mask m, cm_lock m).
Definition numbers_ok (m : cid_mem) : Prop :=
  (∀ c, cm_recent m c = UNSET ∨ is_id (cm_recent m c)) ∧ 0 <= cm_max m ∧ 0 <= cm_allowed m <= cid_limit ∧ 0 <= cm_users m.
Lemma inv_numbers m g : inv m g → numbers_ok m.
Proof. intros []. by split. Qed.

Lemma core_inv m g m' :
  inv m g → core m' = core m → numbers_ok m' → (∀ i c, cm_mark m' !! i = Some c → cm_mark m !! i = Some c) → inv m' g.
Proof.
  intros [] [= Hcid Hcurr Hprev Hact Hmc Hmask Hlock] [Hrec Hcnt] Hmark.
  split; unfold caches; rewrite ?Hcid, ?Hcurr, ?Hprev, ?Hact, ?Hmc, ?Hmask, ?Hlock; eauto.
Qed.
Lemma core_view m m' g c : core m' = core m → view m' g c = view m g c.
Proof. intros [= Hcid Hcurr Hprev Hact Hmc Hmask Hlock]. unfold view. by rewrite Hcurr, Hprev, Hact, Hmc. Qed.
Lemma core_rely j m m' g : core m' = core m → cm_mark m' !! j = cm_mark m !! j → rely j m g m' g.
Proof.
  intros He Hmark. pose proof He as [= Hcid Hcurr Hprev Hact Hmc Hmask Hlock]. split; [done| |].
  - intros c Hc. rewrite Hlock, Hcid, (core_view m m') by done. auto.
  - intros c Hc. rewrite Hmark, Hcid, Hcurr. auto.
Qed.
Lemma ok_core i m g m' :
  inv m g → core m' = core m → numbers_ok m' → (∀ j, j ≠ i → cm_mark m' !! j = cm_mark m !! j) →
  (∀ j c, cm_mark m' !! j = Some c → cm_mark m !! j = Some c) → ok_step i m g m' g.
Proof. intros Hi Hc Hn Hm Hm'. split; [by eapply core_inv|]. intros j Hj. apply core_rely; auto. Qed.

(** The rule for an access that keeps the core and the marks. *)
Definition quiet (e : access) : Prop :=
  ∀ i m g r m', inv m g → exec cpus true i e m = Some (r, m') → core m' = core m ∧ cm_mark m' = cm_mark m ∧ numbers_ok m'.
Lemma rg_quiet {A} i (P : assn) (P' : Z → assn) e (k : Z → cprog A) Q :
  quiet e → (∀ r, stable i (P' r)) →
  (∀ m g r m', inv m g → P m g → exec cpus true i e m = Some (r, m') → P' r m g) →
  (∀ r, rg i (P' r) (k r) Q) → rg i P (Act e k) Q.
Proof.
  intros He Hst HP Hk m g Hi HPm. split; [done|]. intros r m' Hx. destruct (He i m g r m' Hi Hx) as (Hc&Hm&Hn). exists g, (P' r). split_and!; auto.
  - apply ok_core; auto; intros; congruence.
  - eapply Hst; [|by eapply HP]. apply core_rely; [done|by rewrite Hm].
Qed.
Lemma rg_skip {A} i (P : assn) e (k : Z → cprog A) Q :
  quiet e → stable i P → (∀ r, rg i P (k r) Q) → rg i P (Act e k) Q.
Proof. intros He Hst Hk. eapply (rg_quiet i P (λ _, P)); auto. Qed.

(** ** Accesses that move an id *)

Lemma lazy_inj n n' : is_id n → is_id n' → lazy n = lazy n' → n = n'.
Proof. intros Hn Hn' He. destruct (cid_flag n Hn) as (_&_&_&<-), (cid_flag n' Hn') as (_&_&_&<-). by rewrite He. Qed.
Lemma lazy_plain n n' : is_id n → is_id n' → lazy n ≠ n'.
Proof. intros Hn Hn' He. destruct (cid_flag n Hn) as (?&_), (cid_plain n' Hn') as (?&_). congruence. Qed.
Lemma lazy_unset n : is_id n → lazy n ≠ UNSET.
Proof. intros Hn. by destruct (cid_flag n Hn) as (_&_&?&_). Qed.
Lemma plain_unset n : is_id n → n ≠ UNSET.
Proof. intros Hn. by destruct (cid_plain n Hn) as (_&_&?). Qed.
Hint Resolve lazy_unset plain_unset : cid.

Lemma caches_unset m c n : is_id n → cm_cid m c = UNSET → ¬ caches m c n.
Proof. intros Hn Hc [He|He]; rewrite Hc in He; [by apply (plain_unset n)|by apply (lazy_unset n)]. Qed.
Lemma caches_one m c n n' : is_id n → is_id n' → caches m c n → caches m c n' → n = n'.
Proof.
  intros Hn Hn' [H1|H1] [H2|H2]; rewrite H1 in H2; [done|by destruct (lazy_plain n' n)|by destruct (lazy_plain n n')|by apply lazy_inj].
Qed.
Lemma own_cpu m g c n : inv m g → is_id n → caches m c n → g_own g !! n = Some (Cpu c).
Proof. intros Hi Hn Hc. by apply (i_own _ _ Hi). Qed.
Lemma use_caches m g c n : inv m g → g_use g c = Some n → is_id n ∧ caches m c n.
Proof. intros Hi Hu. apply (i_own _ _ Hi). by apply (i_use _ _ Hi). Qed.

Lemma own_insert (own : gmap Z who) n w j n' :
  w ≠ Thr j → own !! n ≠ Some (Thr j) → <[n := w]> own !! n' = Some (Thr j) ↔ own !! n' = Some (Thr j).
Proof.
  intros Hw Hn. destruct (decide (n' = n)) as [->|]; [|by rewrite lookup_insert_ne]. rewrite lookup_insert_eq. split; [congruence|done].
Qed.
Lemma own_delete (own : gmap Z who) n j n' :
  own !! n ≠ Some (Thr j) → delete n own !! n' = Some (Thr j) ↔ own !! n' = Some (Thr j).
Proof. intros Hn. rewrite lookup_delete_Some. split; [by intros [_ ?]|]. intros Hj. split; [congruence|done]. Qed.

(** The id of [c] is flagged. *)
Lemma ok_flag i m g c n :
  inv m g → is_id n → cm_cid m c = n → (∀ j, j ≠ i → cm_mark m !! j ≠ Some c) →
  ok_step i m g (m <| cm_cid := fset (cm_cid m) c (lazy n) |> <| cm_mark := <[i := c]> (cm_mark m) |>) g.
Proof.
  intros Hi Hn Hc Hm. set (m' := _ <| cm_mark := _ |>).
  assert (∀ c' n', is_id n' → caches m' c' n' ↔ caches m c' n') as Hca.
  { intros c' n' Hn'. unfold caches. cbn. destruct (decide (c' = c)) as [->|]; [|by rewrite fset_ne]. rewrite fset_eq, Hc. split.
    - intros [He|He]; [by destruct (lazy_plain n n')|left; by apply lazy_inj].
    - intros [He|He]; [right; by f_equal|by destruct (lazy_plain n' n)]. }
  split.
  - destruct Hi. split; try done.
    + intros c' n'. rewrite i_own0. split; intros [? ?]; (split; [done|by apply Hca]).
    + intros c'. cbn. destruct (decide (c' = c)) as [->|]; [right; exists n; split; [done|]; apply Hca; [done|by left]|].
      rewrite fset_ne by done. destruct (i_cid0 c') as [?|(n'&?&?)]; [by left|right]. exists n'. split; [done|by apply Hca].
    + cbn. intros j k c'. destruct (decide (j = i)) as [->|], (decide (k = i)) as [->|]; rewrite ?lookup_insert_eq, ?lookup_insert_ne by done; eauto.
      * intros [= <-] Hk. by destruct (Hm k).
      * intros Hj [= <-]. by destruct (Hm j).
  - intros j Hj. split; [done| |].
    + intros c' Hl. cbn. split_and!; [done|done| |]; destruct (decide (c' = c)) as [->|];
        rewrite ?fset_eq, ?fset_ne, ?Hc by done; auto.
      * intros He. by destruct (plain_unset n).
      * intros n' Hn' He. by destruct (lazy_plain n' n).
    + intros c' Hmk. cbn. assert (c' ≠ c) by (intros ->; by apply (Hm j)). rewrite lookup_insert_ne, fset_ne by done. auto.
Qed.

(** The id of [c] passes to thread [i], while the CPU does not use it. *)
Lemma ok_unset i m g c n :
  inv m g → is_id n → caches m c n → g_use g c = None →
  ok_step i m g (m <| cm_mark := delete i (cm_mark m) |> <| cm_cid := fset (cm_cid m) c UNSET |>)
    (g <| g_own := <[n := Thr i]> (g_own g) |>).
Proof.
  intros Hi Hn Hc Hu. set (m' := _ <| cm_cid := _ |>). pose proof (own_cpu _ _ _ _ Hi Hn Hc) as Ho.
  assert (∀ c' n', c' ≠ c → caches m' c' n' ↔ caches m c' n') as Hca by (intros; unfold caches; cbn; by rewrite fset_ne).
  assert (∀ n', is_id n' → ¬ caches m' c n') as Hno by (intros; apply caches_unset; [done|apply fset_eq]).
  assert (∀ c', c' ≠ c → ¬ caches m c' n) as Hoth.
  { intros c' Hne Hc'. pose proof (own_cpu _ _ _ _ Hi Hn Hc'). congruence. }
  split.
  - destruct Hi. split; try done; cbn.
    + intros n'. rewrite i_mask0, lookup_insert_is_Some'. split; [auto|]. intros [<-|?]; [by rewrite Ho|done].
    + intros n' w. destruct (decide (n' = n)) as [->|]; [rewrite lookup_insert_eq; by intros|rewrite lookup_insert_ne by done; eauto].
    + intros c' n'. destruct (decide (n' = n)) as [->|].
      * rewrite lookup_insert_eq. split; [done|]. intros [_ Hc']. destruct (decide (c' = c)) as [->|]; [by destruct (Hno n)|].
        apply Hca in Hc'; [|done]. by destruct (Hoth c').
      * rewrite lookup_insert_ne, i_own0 by done. destruct (decide (c' = c)) as [->|Hne]; [|by rewrite Hca].
        split; intros [? Hc']; [destruct n0; by eapply caches_one|by destruct (Hno n')].
    + intros c'. destruct (decide (c' = c)) as [->|]; [left; apply fset_eq|]. rewrite fset_ne by done.
      destruct (i_cid0 c') as [?|(n'&?&?)]; [by left|right]. exists n'. split; [done|by apply Hca].
    + intros c' n' Hu'. destruct (i_use0 c' n' Hu') as (?&Ho'&?). split_and!; [done| |done]. rewrite lookup_insert_ne; [done|].
      intros <-. congruence.
    + intros j k c' Hj Hk. apply lookup_delete_Some in Hj as [_ Hj], Hk as [_ Hk]. eauto.
  - intros j Hj. split; cbn.
    + intros n'. apply own_insert; congruence.
    + intros c' Hl. split_and!; [done|done| |]; destruct (decide (c' = c)) as [->|]; rewrite ?fset_eq, ?fset_ne by done; auto.
    + intros c' Hmk. rewrite lookup_delete_ne by done. split; [done|]. intros n' Hn' Hv.
      destruct (decide (c' = c)) as [->|]; [rewrite fset_eq in Hv; by destruct (lazy_unset n')|]. by rewrite fset_ne in Hv.
Qed.

(** The thread releases an id it owns, or takes a free one. *)
Lemma ok_clear i m g n :
  inv m g → g_own g !! n = Some (Thr i) →
  ok_step i m g (m <| cm_mask := cm_mask m ∖ {[n]} |>) (g <| g_own := delete n (g_own g) |>).
Proof.
  intros Hi Ho. split.
  - destruct Hi. split; try done; cbn.
    + intros n'. rewrite elem_of_difference, i_mask0, not_elem_of_singleton, lookup_delete_is_Some. naive_solver.
    + intros n' w [_ ?]%lookup_delete_Some. eauto.
    + intros c n'. rewrite lookup_delete_Some, i_own0. split; [naive_solver|]. intros Hc. split; [|done].
      intros <-. apply i_own0 in Hc. congruence.
    + intros c n' Hu. destruct (i_use0 c n' Hu) as (?&?&?). split_and!; [done| |done]. apply lookup_delete_Some. split; [congruence|done].
  - intros j Hj. split; cbn; [|by auto|by auto]. intros n'. apply own_delete. congruence.
Qed.
Lemma ok_set i m g n :
  inv m g → is_id n → n ∉ cm_mask m →
  ok_step i m g (m <| cm_mask := {[n]} ∪ cm_mask m |>) (g <| g_own := <[n := Thr i]> (g_own g) |>).
Proof.
  intros Hi Hn Hm. assert (g_own g !! n = None) as Ho.
  { apply eq_None_not_Some. intros Hs. apply Hm. by apply (i_mask _ _ Hi). }
  split.
  - destruct Hi. split; try done; cbn.
    + intros n'. rewrite elem_of_union, i_mask0, elem_of_singleton, lookup_insert_is_Some'. naive_solver.
    + intros n' w [[<- _]|[_ ?]]%lookup_insert_Some; [done|eauto].
    + intros c n'. destruct (decide (n' = n)) as [->|]; [|by rewrite lookup_insert_ne, i_own0].
      rewrite lookup_insert_eq. split; [done|]. intros Hc. apply i_own0 in Hc. congruence.
    + intros c n' Hu. destruct (i_use0 c n' Hu) as (?&?&?). split_and!; [done| |done]. rewrite lookup_insert_ne; [done|congruence].
  - intros j Hj. split; cbn; [|by auto|by auto]. intros n'. apply own_insert; congruence.
Qed.

(** The CPU caches an id of the thread that holds its lock. *)
Lemma ok_write_cid i m g c n :
  inv m g → cm_lock m !! c = Some i → cm_cid m c = UNSET → g_own g !! n = Some (Thr i) →
  ok_step i m g (m <| cm_cid := fset (cm_cid m) c n |>) (g <| g_own := <[n := Cpu c]> (g_own g) |>).
Proof.
  intros Hi Hl Hc Ho. set (m' := _ <| cm_cid := _ |>). pose proof (i_ids _ _ Hi _ _ Ho) as Hn.
  assert (∀ c' n', c' ≠ c → caches m' c' n' ↔ caches m c' n') as Hca by (intros; unfold caches; cbn; by rewrite fset_ne).
  assert (caches m' c n) as Hcn by (left; cbn; apply fset_eq).
  split.
  - destruct Hi. split; try done; cbn.
    + intros n'. rewrite i_mask0, lookup_insert_is_Some'. split; [auto|]. intros [<-|?]; [by rewrite Ho|done].
    + intros n' w [[<- _]|[_ ?]]%lookup_insert_Some; [done|eauto].
    + intros c' n'. destruct (decide (n' = n)) as [->|Hne].
      * rewrite lookup_insert_eq. split; [by intros [= <-]|]. intros [_ Hc']. destruct (decide (c' = c)) as [->|]; [done|].
        apply Hca in Hc'; [|done]. assert (g_own g !! n = Some (Cpu c')) by by apply i_own0. congruence.
      * rewrite lookup_insert_ne, i_own0 by done. destruct (decide (c' = c)) as [->|]; [|by rewrite Hca].
        split; intros [Hn' Hc']; [by destruct (caches_unset m c n')|destruct Hne; by eapply caches_one].
    + intros c'. destruct (decide (c' = c)) as [->|]; [right; by exists n|]. rewrite fset_ne by done.
      destruct (i_cid0 c') as [?|(n'&?&?)]; [by left|right]. exists n'. split; [done|by apply Hca].
    + intros c' n' Hu. destruct (i_use0 c' n' Hu) as (?&?&?). split_and!; [done| |done]. rewrite lookup_insert_ne; [done|congruence].
  - intros j Hj. split; cbn.
    + intros n'. apply own_insert; congruence.
    + intros c' Hl'. assert (c' ≠ c) by congruence. rewrite fset_ne by done. auto.
    + intros c' Hmk. split; [done|]. intros n' Hn' Hv. destruct (decide (c' = c)) as [->|]; [|by rewrite fset_ne in Hv].
      rewrite fset_eq in Hv. by destruct (lazy_plain n' n).
Qed.

(** The id is handed to the current task, or taken back. *)
Lemma ok_start i m g c n :
  inv m g → cm_lock m !! c = Some i → is_id n → cm_cid m c = n → cm_active m (cm_curr m c) = true →
  ok_step i m g m (g <| g_use := fset (g_use g) c (Some n) |>).
Proof.
  intros Hi Hl Hn Hc Ha. split.
  - destruct Hi. split; try done; cbn.
    + intros c' n'. destruct (decide (c' = c)) as [->|]; [|rewrite fset_ne by done; apply i_use0]. rewrite fset_eq. intros [= <-].
      split_and!; [by eapply i_locks0| |done]. apply i_own0. split; [done|by left].
    + intros c' Hin Hnl Ha'. rewrite fset_ne by congruence. auto.
  - intros j Hj. split; cbn; [done| |].
    + intros c' Hl'. unfold view. cbn. rewrite fset_ne by congruence. auto.
    + intros c' Hmk. split; [done|]. intros n' Hn' Hv. destruct (decide (c' = c)) as [->|]; [|by rewrite fset_ne].
      destruct (lazy_plain n' n); congruence.
Qed.
Lemma ok_drop i m g c :
  inv m g → cm_lock m !! c = Some i → ok_step i m g m (g <| g_use := fset (g_use g) c None |>).
Proof.
  intros Hi Hl. split.
  - destruct Hi. split; try done; cbn.
    + intros c' n'. destruct (decide (c' = c)) as [->|]; [by rewrite fset_eq|rewrite fset_ne by done; apply i_use0].
    + intros c' Hin Hnl Ha'. rewrite fset_ne by congruence. auto.
  - intros j Hj. split; cbn; [done| |].
    + intros c' Hl'. unfold view. cbn. rewrite fset_ne by congruence. auto.
    + intros c' Hmk. split; [done|]. intros n' Hn' Hv. split; [done|].
      destruct (decide (c' = c)) as [->|]; [by rewrite fset_eq|by rewrite fset_ne].
Qed.

(** ** Accesses to the current task *)

Lemma not_on_cpu m t c : on_cpu m cpus t = false → c ∈ cpus → cm_curr m c ≠ t ∧ cm_prev m c ≠ Some t.
Proof.
  intros Ho Hc. assert ((cm_curr m c =? t) || bool_decide (cm_prev m c = Some t) = false) as Hf.
  { apply not_true_iff_false. intros Ht. apply not_true_iff_false in Ho. apply Ho. apply existsb_exists.
    exists c. split; [by apply list_elem_of_In|done]. }
  apply orb_false_iff in Hf as [H1 H2]. split; [by apply Z.eqb_neq|by apply bool_decide_eq_false in H2].
Qed.
Lemma ok_write_curr i m g c t :
  inv m g → cm_lock m !! c = Some i → g_use g c = None → on_cpu m cpus t = false →
  ok_step i m g (m <| cm_prev := fset (cm_prev m) c (Some (cm_curr m c)) |> <| cm_curr := fset (cm_curr m) c t |>) g.
Proof.
  intros Hi Hl Hu Ht. pose proof (i_locks _ _ Hi _ _ Hl) as Hc. split.
  - destruct Hi. split; try done; cbn.
    + intros c' n' Hu'. rewrite fset_ne by congruence. auto.
    + intros c1 c2 H1 H2. destruct (decide (c1 = c)) as [->|], (decide (c2 = c)) as [->|]; rewrite ?fset_eq, ?fset_ne by done; try done; auto.
      * intros He. destruct (not_on_cpu m t c2 Ht H2); congruence.
      * intros He. destruct (not_on_cpu m t c1 Ht H1); congruence.
    + intros c1 c2 t' H1 H2. destruct (decide (c1 = c)) as [->|]; [rewrite fset_eq; intros [= <-]|rewrite fset_ne by done; intros Hp].
      * destruct (decide (c2 = c)) as [->|Hne]; [rewrite fset_eq|rewrite fset_ne by done].
        -- intros ->. destruct (not_on_cpu m (cm_curr m c) c Ht H1); congruence.
        -- intros He. apply Hne. symmetry. by apply i_curr0.
      * destruct (decide (c2 = c)) as [->|Hne]; [rewrite fset_eq|rewrite fset_ne by done; exact (i_prev0 c1 c2 t' H1 H2 Hp)].
        intros ->. destruct (not_on_cpu m t' c1 Ht H1); congruence.
    + intros c' Hin Hnl. rewrite fset_ne by congruence. auto.
  - intros j Hj. split; cbn; [done| |].
    + intros c' Hl'. unfold view. cbn. rewrite !fset_ne by congruence. auto.
    + intros c' Hmk. split; [done|]. intros n' Hn' Hv. split; [done|]. intros Hu'. rewrite fset_ne by congruence. done.
Qed.
Lemma ok_write_active i m g c b :
  inv m g → cm_lock m !! c = Some i → g_use g c = None →
  ok_step i m g (m <| cm_active := fset (cm_active m) (cm_curr m c) b |>) g.
Proof.
  intros Hi Hl Hu. pose proof (i_locks _ _ Hi _ _ Hl) as Hc.
  assert (∀ c', c' ∈ cpus → c' ≠ c → cm_curr m c' ≠ cm_curr m c) as Hne by (intros c' Hin Hn He; apply Hn; by apply (i_curr _ _ Hi)).
  split.
  - destruct Hi. split; try done; cbn.
    + intros c' n' Hu'. destruct (i_use0 c' n' Hu') as (Hin&?&?). split_and!; [done|done|]. rewrite fset_ne; [done|]. apply Hne; congruence.
    + intros c' Hin Hnl. rewrite fset_ne by (apply Hne; congruence). auto.
  - intros j Hj. split; cbn; [done| |by auto]. intros c' Hl'. unfold view. cbn.
    rewrite fset_ne; [auto|]. apply Hne; [by eapply i_locks|congruence].
Qed.
Lemma ok_write_mm_cid i m g c t v :
  inv m g → cm_lock m !! c = Some i → t = cm_curr m c ∨ cm_prev m c = Some t →
  ok_step i m g (m <| cm_mm_cid := fset (cm_mm_cid m) t v |>) g.
Proof.
  intros Hi Hl Ht. pose proof (i_locks _ _ Hi _ _ Hl) as Hc.
  assert (∀ c', c' ∈ cpus → c' ≠ c → cm_curr m c' ≠ t) as Hne.
  { intros c' Hin Hn. destruct Ht as [->|Ht]; [intros He; apply Hn; by apply (i_curr _ _ Hi)|by eapply (i_prev _ _ Hi c)]. }
  split.
  - destruct Hi. split; try done; cbn. intros c' Hin Hnl Ha. rewrite fset_ne by (apply Hne; congruence). auto.
  - intros j Hj. split; cbn; [done| |by auto]. intros c' Hl'. unfold view. cbn.
    rewrite fset_ne; [auto|]. apply Hne; [by eapply i_locks|congruence].
Qed.

(** What the thread itself owns after taking, releasing or handing over an id. *)
Lemma holds_take i g n : holds i None g → holds i (Some n) (g <| g_own := <[n := Thr i]> (g_own g) |>).
Proof.
  intros Hh n'. cbn. destruct (decide (n' = n)) as [->|]; [by rewrite lookup_insert_eq|]. rewrite lookup_insert_ne, (Hh n') by done.
  split; congruence.
Qed.
Lemma holds_release i g n : holds i (Some n) g → holds i None (g <| g_own := delete n (g_own g) |>).
Proof. intros Hh n'. cbn. rewrite lookup_delete_Some, (Hh n'). split; [|done]. by intros [? [= ->]]. Qed.
Lemma holds_give i g n c : holds i (Some n) g → holds i None (g <| g_own := <[n := Cpu c]> (g_own g) |>).
Proof. intros Hh n'. cbn. rewrite lookup_insert_Some, (Hh n'). split; [|done]. by intros [[_ ?]|[? [= ->]]]. Qed.
Lemma holds_own i g n : holds i (Some n) g → g_own g !! n = Some (Thr i).
Proof. intros Hh. by apply Hh. Qed.
End logic.
#[export] Hint Resolve under_stable marked_stable saw_stable seen_idle_stable both_stable true_stable pure_stable : cid.
