(* ===== verification/MmCidAlloc.v ===== *)
(** The programs that take and release concurrency ids, in the logic of [MmCidLogic]. *)
From S2P Require Import Prelude Interleave MmCid MmCidLogic.

Section alloc.
Context {CL : CidLib} {CW : CidLaws CL} (cpus : list Z).
Local Abbreviation lazy := mm_cid_set_lazy_put.
Local Abbreviation UNSET := MM_CID_UNSET.
Local Abbreviation rg := (rg (cids cpus)).
Local Abbreviation assn := (@assn cid_mem ghost).
Local Abbreviation stable := (stable (cids cpus)).
Local Abbreviation ok_step := (ok_step (cids cpus)).
Local Abbreviation inv := (inv cpus).
Local Abbreviation quiet := (quiet cpus).

(** ** Accesses *)

Definition silent (e : access) : bool :=
  match e with
  | ReadRecent _ | ReadTime _ | WriteTime _ _ | ReadClock _ | ReadCurr _ | ReadActive _ | ReadLast _ | WriteLast _ _ | ReadFrom _
  | FirstZero | Weight | ReadMax | ReadAllowed | ReadUsers | ReadUseLock | WriteUseLock _ | LockCid | UnlockCid
  | ReadJiffies | ReadScan | CasScan _ _ | WriteScan _ => true
  | _ => false
  end.
Lemma silent_quiet e : silent e = true → quiet e.
Proof.
  intros He i m g r m' Hi Hx. pose proof (inv_numbers _ _ _ Hi) as Hn. destruct e; cbn in He, Hx; try done; try by simplify_eq.
  - destruct (cm_cid_lock m); by simplify_eq.
  - injection Hx as <- <-. by destruct (cm_scan m =? old).
Qed.
Lemma access_ok i (P : assn) e : silent e = true → stable i P → rg i P (access_ e) (λ _, P).
Proof. intros He HP. apply rg_skip; [by apply silent_quiet|done|]. intros r. by apply rg_ret. Qed.
Lemma do_ok i (P : assn) e : silent e = true → stable i P → rg i P (do_ e) (λ _, P).
Proof. intros He HP. apply rg_skip; [by apply silent_quiet|done|]. intros r. by apply rg_ret. Qed.
Lemma test_ok i (P : assn) e : silent e = true → stable i P → rg i P (test e) (λ _, P).
Proof. intros He HP. apply rg_skip; [by apply silent_quiet|done|]. intros r. by apply rg_ret. Qed.
(** With a fact about the number read. *)
Lemma access_fact i (P : assn) (X : Z → Prop) e :
  silent e = true → stable i P → (∀ m g r m', inv m g → P m g → exec cpus true i e m = Some (r, m') → X r) →
  rg i P (access_ e) (λ r m g, P m g ∧ X r).
Proof.
  intros He HP HX. eapply (rg_quiet _ _ _ (λ r m g, P m g ∧ X r)); [by apply silent_quiet|auto with cid| |].
  - intros m g r m' Hi HPm Hx. split; [done|by eapply HX].
  - intros r. by apply rg_ret.
Qed.

(** The rule of a sequence, for the next program. *)
Lemma seq_ok {A B} i P (p : cprog A) (f : A → cprog B) (R : A → assn) Q :
  rg i P p R → (∀ a, rg i (R a) (f a) Q) → rg i P (p ≫= f) Q.
Proof. apply rg_bind. Qed.

Lemma cas_max_ok i P old new : 0 <= new → stable i P → rg i P (access_ (CasMax old new)) (λ r m g, P m g ∧ 0 <= r).
Proof.
  intros Hnew HP. eapply (rg_quiet _ _ _ (λ r m g, P m g ∧ 0 <= r)); [|auto with cid| |].
  - intros j m g r m' Hi [= <- <-]. pose proof (inv_numbers _ _ _ Hi) as Hn. destruct (cm_max m =? old); [|done].
    split_and!; [done|done|]. destruct Hn as (?&?&?&?). split; [done|]. cbn. lia.
  - intros m g r m' Hi HPm [= <- <-]. split; [done|]. apply (i_counts _ _ _ Hi).
  - intros r. by apply rg_ret.
Qed.
Lemma write_recent_ok i P c v : v = UNSET ∨ is_id v → stable i P → rg i P (do_ (WriteRecent c v)) (λ _, P).
Proof.
  intros Hv HP. apply rg_skip; [|done|intros r; by apply rg_ret].
  intros j m g r m' Hi [= <- <-]. destruct (inv_numbers _ _ _ Hi) as (Hr&?&?&?). split_and!; [done|done|].
  split; [|done]. intros c'. cbn. destruct (decide (c' = c)) as [->|]; [by rewrite fset_eq|rewrite fset_ne by done; apply Hr].
Qed.

Section frame.
Context (i : nat) (l : option Z) (F : cpu_view → Prop) (u : bool).
Local Abbreviation U := (under i l F u).

(** An id was taken, or none was free. *)
Definition got (r : Z) : assn := λ m g, r = -1 ∧ U None m g ∨ is_id r ∧ U (Some r) m g.
Lemma got_stable r : stable i (got r).
Proof. intros m g m' g' Hr [[-> ?]|[? ?]]; [left|right]; (split; [done|by eapply under_stable]). Qed.
Hint Resolve got_stable : cid.

Lemma test_set_ok n : is_id n → rg i (U None) (test (TestSetBit n)) (λ b, U (if b then None else Some n)).
Proof.
  intros Hn m g Hi HU. split; [done|]. intros r m' [= <- <-]. destruct (bool_decide_reflect (n ∈ cm_mask m)) as [Hin|Hout].
  - exists g, (U None). split_and!; [|auto with cid|done|by cbn].
    replace ({[n]} ∪ cm_mask m) with (cm_mask m) by set_solver. apply ok_core; try done. exact (inv_numbers _ _ _ Hi).
  - exists (g <| g_own := <[n := Thr i]> (g_own g) |>), (U (Some n)). split_and!; [by apply ok_set|auto with cid| |by cbn].
    destruct HU as [Hh HU]. split; [by apply holds_take|exact HU].
Qed.
Lemma put_ok n : is_id n → rg i (U (Some n)) (__mm_cid_put n) (λ _, U None).
Proof.
  intros Hn. unfold __mm_cid_put. destruct (Z.ltb_spec n 0); [unfold is_id in Hn; lia|].
  intros m g Hi [Hh HU]. split; [done|]. intros r m' [= <- <-]. exists (g <| g_own := delete n (g_own g) |>), (U None).
  split_and!; [by apply ok_clear, holds_own|auto with cid| |by cbn]. split; [by apply holds_release|exact HU].
Qed.

(** ** Allocation *)

Lemma shrink_ok x : 0 <= x → rg i (U None) (loop shrink_round x) (λ r m g, U None m g ∧ 0 <= r).
Proof.
  intros Hx. apply (rg_pre _ _ _ (λ m g, U None m g ∧ 0 <= x)); [by intros|].
  apply (rg_loop _ _ (λ x m g, U None m g ∧ 0 <= x)); [auto with cid|]. clear x Hx. intros x. apply rg_pure. intros Hx. unfold shrink_round.
  eapply seq_ok; [apply (access_fact _ _ (λ r, 0 <= r)); [done|auto with cid|]|].
  { intros m g r m' Hi _ [= <- <-]. apply (i_counts _ _ _ Hi). }
  intros allowed. apply rg_pure. intros Ha. eapply seq_ok; [apply (access_fact _ _ (λ r, 0 <= r)); [done|auto with cid|]|].
  { intros m g r m' Hi _ [= <- <-]. apply (i_counts _ _ _ Hi). }
  intros users. apply rg_pure. intros Hu. cbv zeta. destruct (_ <? x); [|by apply rg_ret].
  eapply seq_ok; [apply cas_max_ok; [lia|auto with cid]|]. intros r. apply rg_pure. intros Hr. destruct (r =? x); [|by apply rg_ret].
  apply rg_ret. intros. split; [done|lia].
Qed.
Lemma expand_ok x : 0 <= x → rg i (U None) (loop expand_round x) got.
Proof.
  intros Hx. apply (rg_pre _ _ _ (λ m g, U None m g ∧ 0 <= x)); [by intros|].
  apply (rg_loop _ _ (λ x m g, U None m g ∧ 0 <= x)); [auto with cid|]. clear x Hx. intros x. apply rg_pure. intros Hx. unfold expand_round.
  assert (∀ m g, inv m g → U None m g → got (-1) m g) as Hnone by (intros; by left).
  eapply seq_ok; [apply (access_fact _ _ (λ r, r <= cid_limit)); [done|auto with cid|]|].
  { intros m g r m' Hi _ [= <- <-]. apply (i_counts _ _ _ Hi). }
  intros allowed. apply rg_pure. intros Ha. destruct (Z.ltb_spec x allowed); cbn [negb]; [|by apply rg_ret].
  eapply seq_ok; [by apply access_ok; [|auto with cid]|]. intros users. destruct (x <? users); cbn [negb]; [|by apply rg_ret].
  eapply seq_ok; [apply cas_max_ok; [lia|auto with cid]|]. intros r. apply rg_pure. intros Hr.
  destruct (r =? x); cbn [negb]; [|by apply rg_ret]. assert (is_id x) by (unfold is_id; lia).
  eapply seq_ok; [by apply test_set_ok|]. intros []; [by apply rg_ret|]. apply rg_ret. intros m g _ HU. by right.
Qed.
Lemma first_zero_pos mask : 0 <= first_zero mask.
Proof.
  unfold first_zero. destruct (head _) as [n|] eqn:Hh; [|apply cid_cpus]. cbn.
  destruct (filter _ _) as [|x xs] eqn:Hf; [done|]. injection Hh as ->.
  assert (n ∈ filter (λ n, n ∉ mask) (seqZ 0 nr_cpu_ids)) as Hin by (rewrite Hf; by left).
  apply list_elem_of_filter in Hin as [_ Hin]. apply elem_of_seqZ in Hin. lia.
Qed.
Lemma find_zero_ok : rg i (U None) (loop find_zero_round 0) (λ r m g, U None m g ∧ is_id r).
Proof.
  apply (rg_loop _ _ (λ _, U None)); [auto with cid|]. intros s. unfold find_zero_round.
  eapply seq_ok; [apply (access_fact _ _ (λ r, 0 <= r)); [done|auto with cid|]|].
  { intros m g r m' _ _ [= <- <-]. apply first_zero_pos. }
  intros cid. apply rg_pure. intros Hc. eapply seq_ok; [apply (access_fact _ _ (λ r, r <= cid_limit)); [done|auto with cid|]|].
  { intros m g r m' Hi _ [= <- <-]. apply (i_counts _ _ _ Hi). }
  intros allowed. apply rg_pure. intros Ha. destruct (Z.ltb_spec cid allowed); [|by apply rg_ret].
  apply rg_ret. intros. split; [done|]. unfold is_id. lia.
Qed.

Lemma try_get_ok c : rg i (U None) (__mm_cid_try_get c) got.
Proof.
  unfold __mm_cid_try_get. eapply seq_ok; [apply (access_fact _ _ (λ r, 0 <= r)); [done|auto with cid|]|].
  { intros m g r m' Hi _ [= <- <-]. apply (i_counts _ _ _ Hi). }
  intros mx. apply rg_pure. intros Hmx. eapply seq_ok; [by apply shrink_ok|]. intros mx'. apply rg_pure. intros Hmx'.
  eapply seq_ok; [apply (access_fact _ _ (λ r, r = UNSET ∨ is_id r)); [done|auto with cid|]|].
  { intros m g r m' Hi _ [= <- <-]. apply (i_recent _ _ _ Hi). }
  intros recent. apply rg_pure. intros Hrec.
  eapply (seq_ok _ _ _ _ (λ (b : bool) m g, U (if b then Some recent else None) m g ∧ (b = true → is_id recent))).
  - destruct (mm_cid_is_unset recent) eqn:Hu; cbn [negb andb]; [by apply rg_ret|].
    assert (is_id recent) by (destruct Hrec as [He|]; [apply cid_unset in He; congruence|done]).
    destruct (recent <? mx'); [|by apply rg_ret]. eapply seq_ok; [by apply test_set_ok|]. intros b. apply rg_ret. by destruct b.
  - intros []; apply rg_pure; intros Hid; [apply rg_ret; intros m g _ HU; right; by auto|].
    eapply seq_ok; [by apply expand_ok|]. intros cid.
    destruct (Z.eqb_spec cid (-1)) as [->|]; cbn [negb]; [|by apply rg_ret].
    apply (rg_pre _ _ _ (U None)); [by intros m g _ [[_ ?]|[[? _] _]]|].
    eapply seq_ok; [apply find_zero_ok|]. intros cid'. apply rg_pure. intros Hid'. eapply seq_ok; [by apply test_set_ok|].
    intros b. apply rg_ret. intros m g _ HU. destruct b; [by left|by right].
Qed.

Lemma snapshot_ok c o : rg i (U o) (mm_cid_snapshot_time c) (λ _, U o).
Proof. unfold mm_cid_snapshot_time. eapply seq_ok; [by apply access_ok; [|auto with cid]|]. intros clock. by apply do_ok; [|auto with cid]. Qed.

(** An id in any case, once the loops have ended. *)
Definition owned (r : Z) : assn := λ m g, U (Some r) m g ∧ is_id r.
Lemma got_owned r m g : 0 <= r → got r m g → owned r m g.
Proof. intros Hr [[-> _]|[? ?]]; [done|by split]. Qed.
Lemma got_none r m g : r < 0 → got r m g → U None m g.
Proof. intros Hr [[_ ?]|[[? _] _]]; [done|lia]. Qed.
Lemma owned_stable r : stable i (owned r).
Proof. apply pure_stable, under_stable. Qed.
Hint Resolve owned_stable : cid.

Lemma retry_ok c : rg i (U None) (loop (retry_round c) 0) owned.
Proof.
  apply (rg_loop _ _ (λ _, U None)); [auto with cid|]. intros s. unfold retry_round. eapply seq_ok; [apply try_get_ok|].
  intros cid. destruct (Z.ltb_spec cid 0); apply rg_ret; intros m g _; [by apply got_none|by apply got_owned].
Qed.
Lemma contended_ok c : rg i (U None) (contended_get c) owned.
Proof.
  unfold contended_get. eapply seq_ok; [by apply do_ok; [|auto with cid]|]. intros []. eapply seq_ok; [apply retry_ok|]. intros cid.
  do 2 (eapply seq_ok; [by apply do_ok; [|auto with cid]|]; intros []). by apply rg_ret.
Qed.
Lemma get_ok c : rg i (U None) (__mm_cid_get c) owned.
Proof.
  unfold __mm_cid_get. eapply seq_ok; [by apply test_ok; [|auto with cid]|]. intros locked.
  apply (seq_ok _ _ _ _ owned).
  - destruct locked; cbn [negb].
    + eapply seq_ok; [by apply do_ok; [|auto with cid]|]. intros []. eapply seq_ok; [apply try_get_ok|]. intros cid.
      destruct (Z.leb_spec 0 cid); [|eapply rg_pre; [|apply contended_ok]; intros m g _; by apply got_none].
      eapply seq_ok; [by apply (do_ok _ (got cid)); [|auto with cid]|]. intros []. apply rg_ret. intros m g _. by apply got_owned.
    + eapply seq_ok; [apply try_get_ok|]. intros cid. destruct (Z.leb_spec 0 cid).
      * apply rg_ret. intros m g _. by apply got_owned.
      * apply (rg_pre _ _ _ (U None)); [intros m g _; by apply got_none|]. eapply seq_ok; [by apply do_ok; [|auto with cid]|]. intros []. apply contended_ok.
  - intros cid. unfold mm_cid_snapshot_time.
    eapply seq_ok; [eapply seq_ok; [by apply (access_ok _ (owned cid)); [|auto with cid]|]; intros clock; by apply do_ok; [|auto with cid]|].
    intros []. by apply rg_ret.
Qed.
End frame.

(** ** The cached id *)

(** The id of a cached value, and the values a CPU may cache. *)
Definition id_of (v n : Z) : Prop := is_id n ∧ (v = n ∨ v = lazy n).
Definition kind (v : Z) : Prop := v = UNSET ∨ ∃ n, id_of v n.
Lemma inv_kind m g c : inv m g → kind (cm_cid m c).
Proof. intros Hi. destruct (i_cid _ _ _ Hi c) as [?|(n&?&?)]; [by left|right; by exists n]. Qed.
Lemma valid_id v : kind v → mm_cid_is_valid v = true → is_id v.
Proof.
  intros [->|(n&Hn&[->| ->])] Hv; [destruct cid_unset_kind|done|destruct (cid_flag n Hn) as [? _]]; congruence.
Qed.
Lemma lazy_id v : kind v → mm_cid_is_lazy_put v = true → ∃ n, is_id n ∧ v = lazy n ∧ mm_cid_clear_lazy_put v = n.
Proof.
  intros [->|(n&Hn&[->| ->])] Hv; [destruct cid_unset_kind|destruct (cid_plain n Hn) as (_&?&_)|]; [congruence..|].
  exists n. by destruct (cid_flag n Hn) as (_&_&_&?).
Qed.
Lemma neither_unset v : kind v → mm_cid_is_valid v = false → mm_cid_is_lazy_put v = false → v = UNSET.
Proof.
  intros [->|(n&Hn&[->| ->])] Hv Hl; [done|destruct (cid_plain n Hn) as (?&_)|destruct (cid_flag n Hn) as (_&?&_)]; congruence.
Qed.
Lemma unmark_ok i m g : inv m g → ok_step i m g (m <| cm_mark := delete i (cm_mark m) |>) g.
Proof.
  intros Hi. apply ok_core; try done; [exact (inv_numbers _ _ _ Hi)| |].
  - intros j Hj. cbn. by rewrite lookup_delete_ne.
  - intros j c'. cbn. by intros [_ ?]%lookup_delete_Some.
Qed.

(** Under the lock of [c]; [F] is what is known of it. *)
Section cached.
Context (i : nat) (c : Z) (F : cpu_view → Prop).
Local Abbreviation U := (under i (Some c) F).

(** The CPU was seen to cache [v]. *)
Definition cached_as (v : Z) : assn := λ m g,
  U false None m g ∧ kind v ∧ (v = UNSET → cm_cid m c = UNSET) ∧ (∀ n, is_id n → v = lazy n → cm_cid m c = lazy n ∨ cm_cid m c = UNSET).
Lemma cached_as_stable v : stable i (cached_as v).
Proof.
  intros m g m' g' Hr (HU&Hk&Hu&Hz). pose proof Hr as [_ Hl _]. destruct (Hl c (proj1 (proj2 HU))) as (_&_&Hu'&Hz').
  split_and!; [by eapply under_stable|done|auto|]. intros n Hn Hv. destruct (Hz n Hn Hv) as [?|?]; auto.
Qed.
Hint Resolve cached_as_stable : cid.
Lemma cached_unset m g : cached_as UNSET m g → U true None m g.
Proof. intros ((Hh&Hl&Hv&_)&_&Hu&_). split_and!; [exact Hh|exact Hl|exact Hv|]. auto. Qed.
Lemma cached_now m g : inv m g → U false None m g → cached_as (cm_cid m c) m g.
Proof. intros Hi HU. split_and!; [done|by eapply inv_kind|done|]. intros n Hn Hv. by left. Qed.

Lemma read_cid_ok : rg i (U false None) (access_ (ReadCid c)) cached_as.
Proof.
  intros m g Hi HU. split; [done|]. intros r m' [= <- <-]. exists g, (cached_as (cm_cid m c)). split_and!; [by apply unmark_ok|auto with cid| |by cbn].
  by apply (cached_now m g).
Qed.

Context (HF : ∀ v, F v → v_use v = None).
(** The holder of the lock takes the cached id with a compare-and-swap. *)
Definition taken (old r : Z) : assn := λ m g,
  (r = old ∧ ∃ n, id_of old n ∧ U true (Some n) m g) ∨
  (r ≠ old ∧ cached_as r m g ∧ ∀ n, is_id n → old = lazy n → r = UNSET).
Lemma taken_stable old r : stable i (taken old r).
Proof.
  intros m g m' g' Hr [(?&n&?&HU)|(?&Hc&?)]; [left|right]; (split_and!; [done| ..]); [|by eapply cached_as_stable|done].
  exists n. split; [done|by eapply under_stable].
Qed.
Hint Resolve taken_stable : cid.
Lemma cas_unset_ok old : old ≠ UNSET → rg i (cached_as old) (access_ (CasCid c old UNSET)) (taken old).
Proof.
  intros Hold m g Hi HC. split; [done|]. intros r m' Hx. pose proof HC as ((Hh&Hl&Hv&_)&Hk&_&Hz). cbn in Hx. destruct cid_unset_kind as [_ Hlz].
  destruct (Z.eqb_spec (cm_cid m c) old) as [He|He].
  - rewrite Hlz in Hx. injection Hx as <- <-. destruct Hk as [?|(n&Hn&Hk)]; [done|].
    assert (caches m c n) as Hca by (unfold caches; by rewrite He).
    exists (g <| g_own := <[n := Thr i]> (g_own g) |>), (taken old old).
    split_and!; [apply ok_unset; [done|done|done|exact (HF _ Hv)]|auto with cid| |by cbn].
    left. split; [done|]. exists n. split; [done|]. split_and!; [by apply holds_take|exact Hl|exact Hv|]. intros _. cbn. apply fset_eq.
  - injection Hx as <- <-. exists g, (taken old (cm_cid m c)). split_and!; [by apply unmark_ok|auto with cid| |by cbn].
    right. split_and!; [done|apply (cached_now m g); [done|apply HC]|]. intros n Hn Ho. destruct (Hz n Hn Ho); [congruence|done].
Qed.


Lemma put_lazy_ok : rg i (U false None) (mm_cid_put_lazy c) (λ _, U false None).
Proof.
  unfold mm_cid_put_lazy. eapply seq_ok; [apply read_cid_ok|]. intros cid. destruct (mm_cid_is_lazy_put cid) eqn:Hz; cbn [negb].
  2:{ apply rg_ret. by intros m g _ [? _]. }
  apply (rg_pre _ _ _ (λ m g, cached_as cid m g ∧ kind cid)); [intros m g _ H; split; [done|apply H]|]. apply rg_pure. intros Hk.
  destruct (lazy_id cid Hk Hz) as (n&Hn&->&->). eapply seq_ok.
  { eapply seq_ok; [by apply cas_unset_ok; apply lazy_unset|]. intros r.
    apply (rg_ret _ _ _ _ (λ (b : bool) m g, if b then U true (Some n) m g else U false None m g)).
    intros m g _ [(->&n'&[Hn' [He|He]]&HU)|(Hne&HC&_)].
    - by destruct (lazy_plain n n').
    - apply lazy_inj in He as <-; [|done|done]. by rewrite Z.eqb_refl.
    - destruct (Z.eqb_spec r (lazy n)); [done|]. apply HC. }
  intros []; cbn [negb]; [|by apply rg_ret]. eapply rg_post; [|by apply put_ok]. cbn. intros _ m g _ (?&?&?&_). by split_and!.
Qed.

(** The loop of [mm_cid_pcpu_unset] ends with no id in the cache. *)
Definition unset (r : Z) : assn := λ m g,
  r = UNSET ∧ U true None m g ∨ r ≠ UNSET ∧ ∃ n, id_of r n ∧ U true (Some n) m g.
Lemma unset_loop_ok v : rg i (cached_as v) (loop (pcpu_unset_round c) v) unset.
Proof.
  apply rg_loop; [auto with cid|]. clear v. intros v. unfold pcpu_unset_round. destruct (mm_cid_is_unset v) eqn:Hu.
  - apply cid_unset in Hu as ->. apply rg_ret. intros m g _ HC. left. split; [done|by apply cached_unset].
  - assert (v ≠ UNSET) by (intros ->; apply not_true_iff_false in Hu; apply Hu; by apply cid_unset).
    eapply seq_ok; [by apply cas_unset_ok|]. intros r. destruct (Z.eqb_spec r v); apply rg_ret.
    + intros m g _ [(_&Hm)|(?&_)]; [|done]. right. by subst.
    + by intros m g _ [(?&_)|(_&HC&_)].
Qed.
Lemma mm_cid_put_ok : rg i (U false None) (mm_cid_put c) (λ _, U true None).
Proof.
  unfold mm_cid_put, mm_cid_pcpu_unset. eapply seq_ok; [eapply seq_ok; [apply read_cid_ok|intros v; apply unset_loop_ok]|].
  intros v. destruct (Z.eqb_spec v UNSET) as [->|Hne]; [apply rg_ret; by intros m g _ [[_ ?]|[? _]]|].
  apply (rg_pre _ _ _ (λ m g, U true (Some (mm_cid_clear_lazy_put v)) m g ∧ is_id (mm_cid_clear_lazy_put v))).
  - intros m g _ [[? _]|(_&n&[Hn Ho]&HU)]; [done|]. assert (mm_cid_clear_lazy_put v = n) as ->; [|by split].
    destruct Ho as [->| ->]; [by apply cid_clear|by apply cid_flag].
  - apply rg_pure. intros Hn. by apply put_ok.
Qed.
End cached.

(** The id of the current task: taken from the cache, or allocated. *)
Definition idle_view (t : Z) (o : option Z) (b : bool) (v : cpu_view) : Prop :=
  v_curr v = t ∧ v_prev v = o ∧ v_use v = None ∧ v_active v = b.
Definition using_view (t : Z) (o : option Z) (n : Z) (v : cpu_view) : Prop :=
  v_curr v = t ∧ v_prev v = o ∧ v_use v = Some n ∧ v_active v = true.

Section get.
Context (i : nat) (c t : Z) (o : option Z).
Local Abbreviation idle := (idle_view t o true).
Local Abbreviation inuse n := (under i (Some c) (using_view t o n) false None).

Lemma start_view m g n : idle (view m g c) → using_view t o n (view m (g <| g_use := fset (g_use g) c (Some n) |>) c).
Proof. intros (?&?&_&?). split_and!; [done|done|cbn; apply fset_eq|done]. Qed.
(** A valid id is in use from the moment it is read. *)
Definition read_for_use (r : Z) : assn := λ m g,
  if mm_cid_is_valid r then is_id r ∧ inuse r m g else cached_as i c idle r m g.
Lemma read_for_use_stable r : stable i (read_for_use r).
Proof.
  unfold read_for_use. intros m g m' g' Hr. destruct (mm_cid_is_valid r); [|by apply cached_as_stable].
  intros [? ?]. split; [done|by eapply under_stable].
Qed.
Lemma read_get_ok : rg i (under i (Some c) idle false None) (access_ (ReadCid c)) read_for_use.
Proof.
  intros m g Hi HU. split; [done|]. intros r m' [= <- <-]. pose proof (inv_kind m g c Hi) as Hk. pose proof (unmark_ok i m g Hi) as Hok.
  set (m' := m <| cm_mark := delete i (cm_mark m) |>) in *. destruct (mm_cid_is_valid (cm_cid m c)) eqn:Hv.
  - pose proof (valid_id _ Hk Hv) as Hn. destruct HU as (Hh&Hl&HF&_).
    exists (g <| g_use := fset (g_use g) c (Some (cm_cid m c)) |>), (read_for_use (cm_cid m c)).
    split_and!; [|apply read_for_use_stable| |by cbn].
    + eapply cid_trans; [exact Hok|]. apply ok_start; [apply Hok|exact Hl|done|done|]. by destruct HF as (_&_&_&?).
    + unfold read_for_use. rewrite Hv. split; [done|]. split_and!; [exact Hh|exact Hl|by apply start_view|done].
  - exists g, (read_for_use (cm_cid m c)). split_and!; [done|apply read_for_use_stable| |by cbn].
    unfold read_for_use. rewrite Hv. by apply (cached_now i c idle m g).
Qed.
Lemma write_cid_ok n : rg i (owned i (Some c) idle true n) (do_ (WriteCid c n)) (λ _ m g, inuse n m g ∧ is_id n).
Proof.
  intros m g Hi ((Hh&Hl&HF&Hu)&Hn). split; [done|]. intros r m' [= <- <-]. set (m' := m <| cm_cid := _ |>).
  set (g1 := g <| g_own := <[n := Cpu c]> (g_own g) |>). exists (g1 <| g_use := fset (g_use g1) c (Some n) |>), (inuse n).
  assert (ok_step i m g m' g1) as Hok by (apply ok_write_cid; [done|done|auto|by apply holds_own]).
  split_and!; [|auto with cid| |by cbn].
  - eapply cid_trans; [exact Hok|]. apply ok_start; [apply Hok|exact Hl|done|cbn; apply fset_eq|]. by destruct HF as (_&_&_&?).
  - split_and!; [by apply holds_give|exact Hl|by apply (start_view m' g1)|done].
Qed.

Lemma mm_cid_get_ok : rg i (under i (Some c) idle false None) (mm_cid_get c) (λ r m g, inuse r m g ∧ is_id r).
Proof.
  assert (∀ v, idle v → v_use v = None) as HF by by intros v (_&_&?&_).
  unfold mm_cid_get. eapply seq_ok; [apply read_get_ok|]. intros cid. unfold read_for_use.
  destruct (mm_cid_is_valid cid) eqn:Hv.
  { apply (rg_pre _ _ _ (λ m g, inuse cid m g ∧ is_id cid)); [by intros m g _ []|]. apply rg_pure. intros Hn.
    eapply seq_ok; [apply snapshot_ok|]. intros []. by apply rg_ret. }
  apply (rg_pre _ _ _ (λ m g, cached_as i c idle cid m g ∧ kind cid)); [intros m g _ H; split; [done|apply H]|]. apply rg_pure. intros Hk.
  apply (seq_ok _ _ _ _ (λ _, under i (Some c) idle true None)).
  - destruct (mm_cid_is_lazy_put cid) eqn:Hz.
    + destruct (lazy_id cid Hk Hz) as (n&Hn&->&->). eapply seq_ok.
      { eapply seq_ok; [by apply cas_unset_ok; [|apply lazy_unset]|]. intros r.
        apply (rg_ret _ _ _ _ (λ (b : bool) m g, if b then under i (Some c) idle true (Some n) m g else under i (Some c) idle true None m g)).
        intros m g _ [(->&n'&[Hn' [He|He]]&HU)|(Hne&HC&Hu)].
        - by destruct (lazy_plain n n').
        - apply lazy_inj in He as <-; [|done|done]. by rewrite Z.eqb_refl.
        - destruct (Z.eqb_spec r (lazy n)); [done|]. rewrite (Hu n) in HC by done. by apply cached_unset. }
      intros []; [by apply put_ok|by apply rg_ret].
    + rewrite (neither_unset cid) by done. apply rg_ret. intros m g _. apply cached_unset.
  - intros []. eapply seq_ok; [apply get_ok|]. intros r. eapply seq_ok; [apply write_cid_ok|]. intros []. apply rg_pure. intros Hn.
    eapply seq_ok; [apply write_recent_ok; [by right|auto with cid]|]. intros []. by apply rg_ret.
Qed.
End get.
End alloc.
#[export] Hint Resolve got_stable owned_stable cached_as_stable : cid.
