(* ===== verification/MmCidOps.v ===== *)
(** The operations on concurrency ids (context switch, exit, exec, migration, scan), in the
    logic of [MmCidLogic]. *)
From S2P Require Import Prelude Interleave MmCid MmCidLogic MmCidAlloc.

(** Between operations, an active current task has the id its CPU handed it. *)
Definition settled (v : cpu_view) : Prop := v_active v = true → v_use v = Some (v_mm_cid v).

Section ops.
Context {CL : CidLib} {CW : CidLaws CL} (cpus : list Z).
Local Abbreviation lazy := mm_cid_set_lazy_put.
Local Abbreviation UNSET := MM_CID_UNSET.
Local Abbreviation rg := (rg (cids cpus)).
Local Abbreviation assn := (@assn cid_mem ghost).
Local Abbreviation stable := (stable (cids cpus)).
Local Abbreviation inv := (inv cpus).
Local Abbreviation ok_step := (ok_step (cids cpus)).

(** * Reclaiming the id of another CPU *)
Section reclaim.
Context (i : nat) (l : option Z) (F : cpu_view → Prop) (u : bool) (c : Z).
Local Abbreviation U := (under i l F u).

(** The value of [c] may change from [n] to another value without harm to what is known. *)
Lemma under_reflag m g m' n o :
  is_id n → cm_cid m c = n → cm_lock m' = cm_lock m → (∀ c', view m' g c' = view m g c') →
  (∀ c', c' ≠ c → cm_cid m' c' = cm_cid m c') → U o m g → U o m' g.
Proof.
  intros Hn Hc Hl Hv Hne [Hh HU]. split; [done|]. destruct l as [d|]; [|done]. destruct HU as (Hd&HF&Hu). rewrite Hl, Hv.
  split_and!; [done|done|]. intros Ht. rewrite Hne; [auto|]. intros ->. apply (plain_unset n Hn). rewrite <- Hc. auto.
Qed.
Lemma read_any_ok : rg i (U None) (access_ (ReadCid c)) (λ r m g, U None m g ∧ kind r).
Proof.
  intros m g Hi HU. split; [done|]. intros r m' [= <- <-]. exists g, (U None). split_and!; [by apply unmark_ok|auto with cid|exact HU|].
  apply rg_ret. intros m1 g1 _ HU1. split; [done|exact (inv_kind cpus m g c Hi)].
Qed.
Lemma not_marked m j : others_marked m i c = false → j ≠ i → cm_mark m !! j ≠ Some c.
Proof.
  intros Ho Hj Hm. apply not_true_iff_false in Ho. apply Ho. apply existsb_exists. exists (j, c). split.
  - by apply list_elem_of_In, elem_of_map_to_list.
  - cbn. rewrite bool_decide_true, Z.eqb_refl by done. done.
Qed.
Lemma cas_flag_ok n :
  is_id n → rg i (U None) (try_cas_cid c n (lazy n)) (λ b m g, U None m g ∧ (b = true → marked i c m g)).
Proof.
  intros Hn m g Hi HU. split; [done|]. intros r m' Hx. cbn in Hx. destruct (cid_flag n Hn) as (_&Hz&_). destruct (Z.eqb_spec (cm_cid m c) n) as [He|He].
  - rewrite Hz in Hx. destruct (others_marked m i c) eqn:Ho; [done|]. injection Hx as <- <-.
    exists g, (both (U None) (marked i c)). split_and!; [|auto with cid| |].
    + apply ok_flag; [done|done|done|]. intros j. by apply not_marked.
    + split; [|apply lookup_insert_eq]. apply (under_reflag m g _ n); [done|done|done|done| |done]. intros c' Hne. cbn. by apply fset_ne.
    + apply rg_ret. intros m1 g1 _ [? ?]. by split.
  - injection Hx as <- <-. exists g, (U None). split_and!; [by apply unmark_ok|auto with cid|exact HU|].
    apply rg_ret. intros m1 g1 _ ?. split; [done|]. by destruct (Z.eqb_spec (cm_cid m c) n).
Qed.
Lemma see_curr_ok : rg i (both (U None) (marked i c)) (access_ (ReadCurr c)) (λ t, both (U None) (saw i c t)).
Proof.
  eapply (rg_quiet _ _ _ (λ t, both (U None) (saw i c t))); [by apply silent_quiet|auto with cid| |intros r; by apply rg_ret].
  intros m g r m' Hi [HU Hm] [= <- <-]. split; [done|]. by split.
Qed.
Lemma see_active_ok t :
  rg i (both (U None) (saw i c t)) (test (ReadActive t)) (λ b m g, U None m g ∧ (b = false → seen_idle i c m g)).
Proof.
  eapply (rg_quiet _ _ _ (λ r m g, U None m g ∧ (r = 0 → seen_idle i c m g))); [by apply silent_quiet| | |].
  - intros r m g m' g' Hr [? Hs]. split; [by eapply under_stable|]. intros He. eapply seen_idle_stable; [done|auto].
  - intros m g r m' Hi [HU [Hm Hs]] [= <- <-]. split; [done|]. intros Ha. split; [done|]. intros n Hn Hv.
    destruct (g_use g c) as [x|] eqn:Hu; [|done]. destruct (i_use _ _ _ Hi c x Hu) as (_&_&Hact).
    rewrite (Hs n Hn Hv) in Hact by done. by rewrite Hact in Ha.
  - intros r. apply rg_ret. intros m g _ [? Hr]. split; [done|]. intros Hf. apply Hr. destruct (Z.eqb_spec r 0); [done|done].
Qed.
Lemma cas_steal_ok n :
  is_id n → rg i (both (U None) (seen_idle i c)) (try_cas_cid c (lazy n) UNSET) (λ b, U (if b then Some n else None)).
Proof.
  intros Hn m g Hi [[Hh HU] [Hm Hs]]. split; [done|]. intros r m' Hx. cbn in Hx. destruct cid_unset_kind as [_ Hz].
  destruct (Z.eqb_spec (cm_cid m c) (lazy n)) as [He|He].
  - rewrite Hz in Hx. injection Hx as <- <-. exists (g <| g_own := <[n := Thr i]> (g_own g) |>), (U (Some n)).
    split_and!; [apply ok_unset; [done|done|by right|by eapply Hs]|auto with cid| |].
    + split; [by apply holds_take|]. destruct l as [d|]; [|done]. destruct HU as (?&?&Hu). split_and!; [done|done|]. intros Ht. cbn.
      destruct (decide (d = c)) as [->|]; [apply fset_eq|rewrite fset_ne; auto].
    + apply rg_ret. by rewrite Z.eqb_refl.
  - injection Hx as <- <-. exists g, (U None). split_and!; [by apply unmark_ok|auto with cid|by split|].
    apply rg_ret. by destruct (Z.eqb_spec (cm_cid m c) (lazy n)).
Qed.
End reclaim.

Lemma rg_when {A} i P (X : assn) (b : bool) (p : cprog A) Q : rg i (both P X) p Q → rg i (λ m g, P m g ∧ (b = b → X m g)) p Q.
Proof. apply rg_pre. intros m g _ [? HX]. split; [done|by apply HX]. Qed.
Lemma remote_clear_ok i l F u c : rg i (under i l F u None) (sched_mm_cid_remote_clear c) (λ _, under i l F u None).
Proof.
  unfold sched_mm_cid_remote_clear. eapply seq_ok; [apply read_any_ok|]. intros cid. apply rg_pure. intros Hk.
  destruct (mm_cid_is_valid cid) eqn:Hv; cbn [negb]; [|by apply rg_ret]. pose proof (valid_id _ Hk Hv) as Hn.
  eapply seq_ok; [by apply cas_flag_ok|]. intros []; cbn [negb]; [|apply rg_ret; by intros m g _ []].
  apply rg_when. eapply seq_ok; [apply see_curr_ok|]. intros t.
  eapply seq_ok; [apply see_active_ok|]. intros []; [apply rg_ret; by intros m g _ []|].
  apply rg_when. eapply seq_ok; [by apply cas_steal_ok|].
  intros []; [by apply put_ok|by apply rg_ret].
Qed.

(** A test, or a number, that does not matter. *)
Lemma skip_test {A} i P e (f : bool → cprog A) Q : silent e = true → stable i P → (∀ b, rg i P (f b) Q) → rg i P (test e ≫= f) Q.
Proof. intros He HP Hf. eapply seq_ok; [by apply test_ok|done]. Qed.
Lemma skip_read {A} i P e (f : Z → cprog A) Q : silent e = true → stable i P → (∀ b, rg i P (f b) Q) → rg i P (access_ e ≫= f) Q.
Proof. intros He HP Hf. eapply seq_ok; [by apply access_ok|done]. Qed.

Section scan.
Context (i : nat) (l : option Z) (F : cpu_view → Prop) (u : bool).
Local Abbreviation U := (under i l F u None).
Lemma remote_clear_old_ok c : rg i U (sched_mm_cid_remote_clear_old c) (λ _, U).
Proof.
  unfold sched_mm_cid_remote_clear_old. do 2 (apply skip_read; [done|auto with cid|]; intros ?).
  apply skip_test; [done|auto with cid|]. intros []; [by apply do_ok; [|auto with cid]|].
  apply skip_read; [done|auto with cid|]. intros time. destruct (_ <? _); [by apply rg_ret|apply remote_clear_ok].
Qed.
Lemma remote_clear_weight_ok c w : rg i U (sched_mm_cid_remote_clear_weight c w) (λ _, U).
Proof.
  unfold sched_mm_cid_remote_clear_weight. eapply seq_ok; [apply read_any_ok|]. intros cid. apply rg_pure. intros _.
  destruct (_ || _); [by apply rg_ret|apply remote_clear_ok].
Qed.
Lemma for_cpus_ok cs f : (∀ c, rg i U (f c) (λ _, U)) → rg i U (for_cpus cs f) (λ _, U).
Proof. intros Hf. induction cs as [|c cs IH]; cbn [for_cpus]; [by apply rg_ret|]. eapply seq_ok; [apply Hf|]. by intros []. Qed.
Lemma work_ok cs exiting : rg i U (task_mm_cid_work cs exiting) (λ _, U).
Proof.
  unfold task_mm_cid_work. destruct exiting; [by apply rg_ret|]. do 2 (apply skip_read; [done|auto with cid|]; intros ?).
  apply (seq_ok _ _ _ _ _ (λ _, U)).
  - destruct (_ =? 0); [|by apply rg_ret]. apply skip_read; [done|auto with cid|]. intros r. by apply rg_ret.
  - intros old. destruct (time_before _ _); [by apply rg_ret|]. apply skip_read; [done|auto with cid|]. intros r.
    destruct (negb _); [by apply rg_ret|]. eapply seq_ok; [apply for_cpus_ok, remote_clear_old_ok|]. intros [].
    apply skip_read; [done|auto with cid|]. intros w. apply for_cpus_ok. intros c. apply remote_clear_weight_ok.
Qed.
Lemma init_ok : rg i U init_sched_mm_cid (λ _, U).
Proof.
  unfold init_sched_mm_cid. apply skip_read; [done|auto with cid|]. intros users. destruct (users =? 1); [|by apply rg_ret].
  apply skip_read; [done|auto with cid|]. intros j. by apply do_ok; [|auto with cid].
Qed.
Lemma tick_ok skip : rg i U (task_tick_mm_cid skip) (λ _, U).
Proof.
  unfold task_tick_mm_cid. destruct skip; [by apply rg_ret|]. do 2 (apply skip_read; [done|auto with cid|]; intros ?). by apply rg_ret.
Qed.

(** * Migration *)

Lemma fetch_ok c t : rg i U (fetch_cid c t) (λ r m g, U m g ∧ (r ≠ -1 → is_id r)).
Proof.
  unfold fetch_cid. assert (∀ m g, inv m g → U m g → U m g ∧ (-1 ≠ -1 → is_id (-1))) as Hno by done.
  apply skip_read; [done|auto with cid|]. intros last. destruct (last =? -1); [by apply rg_ret|].
  eapply seq_ok; [apply read_any_ok|]. intros v. apply rg_pure. intros Hk.
  destruct (mm_cid_is_valid v) eqn:Hv; cbn [negb orb]; [|by apply rg_ret]. destruct (negb _); [by apply rg_ret|].
  apply skip_read; [done|auto with cid|]. intros t'. apply skip_test; [done|auto with cid|]. intros [].
  - eapply seq_ok; [by apply do_ok; [|auto with cid]|]. intros []. by apply rg_ret.
  - apply rg_ret. intros m g _ HU. split; [done|]. intros _. by apply valid_id.
Qed.
Lemma steal_ok c t n : is_id n → rg i U (try_steal_cid c t n) (λ r, under i l F u (if r =? -1 then None else Some r)).
Proof.
  intros Hn. assert (∀ m g, inv m g → U m g → under i l F u (if -1 =? -1 then None else Some (-1)) m g) as Hno by done.
  unfold try_steal_cid. destruct (Z.eqb_spec n (-1)) as [->|Hne]; [by apply rg_ret|].
  eapply seq_ok; [by apply cas_flag_ok|]. intros []; cbn [negb]; [|apply rg_ret; by intros m g _ []].
  apply rg_when. eapply seq_ok; [apply see_curr_ok|]. intros t'.
  eapply seq_ok; [apply see_active_ok|]. intros [].
  { eapply rg_pre; [by intros m g _ [? _]|]. eapply seq_ok; [by apply do_ok; [|auto with cid]|]. intros []. by apply rg_ret. }
  apply rg_when. eapply seq_ok; [by apply cas_steal_ok|].
  intros []; cbn [negb]; [|by apply rg_ret]. eapply seq_ok; [apply write_recent_ok; [by left|auto with cid]|]. intros [].
  apply rg_ret. destruct (Z.eqb_spec n (-1)); [done|]. done.
Qed.
End scan.

Lemma under_weaken i l F u o m g : under i l F u o m g → under i l F false o m g.
Proof. intros [Hh HU]. split; [done|]. destruct l; [|done]. by destruct HU as (?&?&_). Qed.
Lemma owned_id {A} i l F u n (p : cprog A) Q :
  (is_id n → rg i (under i l F u (Some n)) p Q) → rg i (under i l F u (Some n)) p Q.
Proof.
  intros Hp. apply (rg_pre _ _ _ (λ m g, under i l F u (Some n) m g ∧ is_id n)); [|by apply rg_pure].
  intros m g Hi HU. split; [done|]. by eapply (i_ids _ _ _ Hi), holds_own, HU.
Qed.
Lemma write_stolen_ok i c F n :
  rg i (under i (Some c) F true (Some n)) (do_ (WriteCid c n)) (λ _, under i (Some c) F false None).
Proof.
  intros m g Hi (Hh&Hl&HF&Hu). split; [done|]. intros r m' [= <- <-]. exists (g <| g_own := <[n := Cpu c]> (g_own g) |>), (under i (Some c) F false None).
  split_and!; [apply ok_write_cid; [done|done|auto|by apply holds_own]|auto with cid| |by cbn].
  split_and!; [by apply holds_give|exact Hl|exact HF|done].
Qed.
Lemma migrate_to_ok i dst t F :
  rg i (under i (Some dst) F false None) (sched_mm_cid_migrate_to dst t) (λ _, under i (Some dst) F false None).
Proof.
  unfold sched_mm_cid_migrate_to. apply skip_read; [done|auto with cid|]. intros src.
  destruct (src =? -1); [by apply do_ok; [|auto with cid]|]. eapply seq_ok; [apply read_cid_ok|]. intros cid.
  apply (rg_pre _ _ _ (under i (Some dst) F (mm_cid_is_unset cid) None)).
  { intros m g _ ((?&?&?&_)&_&Hu&_). split_and!; [done..|]. intros Ht. apply Hu. by apply cid_unset. }
  set (u := mm_cid_is_unset cid). apply (seq_ok _ _ _ _ _ (λ _, under i (Some dst) F u None)).
  { destruct (negb u); [by apply rg_ret|by apply access_ok; [|auto with cid]]. }
  intros recent. set (is_set := negb u || _). apply (seq_ok _ _ _ _ _ (λ _, under i (Some dst) F u None)).
  { destruct is_set; [|by apply rg_ret]. do 2 (apply skip_read; [done|auto with cid|]; intros ?). by apply rg_ret. }
  intros []; [apply rg_ret; intros m g _; apply under_weaken|]. eapply seq_ok; [apply fetch_ok|]. intros n. apply rg_pure. intros Hn.
  destruct (Z.eqb_spec n (-1)); [apply rg_ret; intros m g _; apply under_weaken|].
  eapply seq_ok; [by apply steal_ok; auto|]. intros r. cbn beta. destruct (Z.eqb_spec r (-1)); [apply rg_ret; intros m g _; apply under_weaken|].
  apply owned_id. intros Hr. destruct is_set eqn:Hs.
  - eapply rg_post; [|by apply put_ok]. intros [] m g _. apply under_weaken.
  - assert (u = true) as -> by (subst is_set; by destruct u).
    eapply seq_ok; [apply snapshot_ok|]. intros []. eapply seq_ok; [apply write_stolen_ok|]. intros [].
    apply write_recent_ok; [by right|auto with cid].
Qed.

(** * The current task *)
Section current.
Context (i : nat) (c : Z).
Local Abbreviation U F := (under i (Some c) F false None).

(** The CPU stops using its id before the current task changes, or stops or starts to use ids. *)
Lemma drop_ok m g : inv m g → cm_lock m !! c = Some i →
  let g' := g <| g_use := fset (g_use g) c None |> in ok_step i m g m g' ∧ g_use g' c = None ∧ (holds i None g → holds i None g').
Proof. intros Hi Hl. split_and!; [by apply ok_drop|apply fset_eq|done]. Qed.
Lemma write_curr_ok (F : cpu_view → Prop) prev next (Q : unit → assn) (k : cprog unit) :
  (∀ v, F v → v_curr v = prev) → (∀ b, rg i (U (idle_view next (Some prev) b)) k Q) →
  rg i (U F) (do_ (WriteCurr c next);; k) Q.
Proof.
  intros HF Hk m g Hi (Hh&Hl&Hv&_). split; [done|]. intros r m' Hx. cbn in Hx. destruct (on_cpu m cpus next) eqn:Ho; [done|]. injection Hx as <- <-.
  destruct (drop_ok m g Hi Hl) as (Hok&Hu&Hh'). set (g' := g <| g_use := _ |>) in *.
  exists g', (U (idle_view next (Some prev) (cm_active m next))). split_and!; [|auto with cid| |apply Hk].
  - eapply cid_trans; [exact Hok|]. apply ok_write_curr; [apply Hok|done|done|done].
  - split_and!; [by apply Hh'|exact Hl| |done]. unfold idle_view, view. cbn. rewrite !fset_eq. split_and!; [done| |done|done].
    f_equal. exact (HF _ Hv).
Qed.
Lemma write_active_ok (F : cpu_view → Prop) t o b :
  (∀ v, F v → v_curr v = t ∧ v_prev v = o) → rg i (U F) (do_ (WriteActive t b)) (λ _, U (idle_view t o b)).
Proof.
  intros HF m g Hi (Hh&Hl&Hv&_). split; [done|]. intros r m' [= <- <-]. destruct (HF _ Hv) as [Hc Hp]. cbn in Hc, Hp.
  destruct (drop_ok m g Hi Hl) as (Hok&Hu&Hh'). set (g' := g <| g_use := _ |>) in *.
  exists g', (U (idle_view t o b)). split_and!; [|auto with cid| |by cbn].
  - eapply cid_trans; [exact Hok|]. rewrite <- Hc. apply ok_write_active; [apply Hok|done|done].
  - split_and!; [by apply Hh'|exact Hl| |done]. unfold idle_view, view. cbn. rewrite Hc. split_and!; [done|done|apply fset_eq|apply fset_eq].
Qed.
(** The id of the task that was switched out, and of the one that runs. *)
Lemma write_prev_ok t prev b v : rg i (U (idle_view t (Some prev) b)) (do_ (WriteMmCid prev v)) (λ _, U (idle_view t (Some prev) b)).
Proof.
  intros m g Hi (Hh&Hl&Hv&_). split; [done|]. intros r m' [= <- <-]. exists g, (U (idle_view t (Some prev) b)). split_and!; [|auto with cid|by split_and!|by cbn].
  apply (ok_write_mm_cid cpus i m g c); [done|done|right; by destruct Hv as (_&?&_)].
Qed.
Lemma write_mm_cid_ok (F G : cpu_view → Prop) t n :
  (∀ v, F v → v_curr v = t) → (∀ v, F v → G {| v_curr := t; v_prev := v_prev v; v_use := v_use v; v_active := v_active v; v_mm_cid := n |}) →
  rg i (U F) (do_ (WriteMmCid t n)) (λ _, U G).
Proof.
  intros HF HG m g Hi (Hh&Hl&Hv&_). split; [done|]. intros r m' [= <- <-]. pose proof (HF _ Hv) as Hc. cbn in Hc. exists g, (U G). split_and!; [|auto with cid| |by cbn].
  - apply (ok_write_mm_cid cpus i m g c); [done|done|by left].
  - split_and!; [done|exact Hl| |done]. replace (view _ g c) with {| v_curr := t; v_prev := v_prev (view m g c); v_use := v_use (view m g c);
      v_active := v_active (view m g c); v_mm_cid := n |} by (unfold view; cbn; by rewrite Hc, fset_eq). by apply HG.
Qed.
Lemma settle_ok t o n : rg i (U (using_view t o n)) (do_ (WriteMmCid t n);; do_ (WriteLast t n)) (λ _, U settled).
Proof.
  eapply seq_ok; [apply (write_mm_cid_ok _ settled)|].
  - by intros v (?&_).
  - intros v (_&_&Hu&_). by unfold settled.
  - intros []. by apply do_ok; [|auto with cid].
Qed.
Lemma inactive_ok t o (P : cprog unit) :
  rg i (U (idle_view t o false)) P (λ _, U (idle_view t o false)) → rg i (U (idle_view t o false)) P (λ _, U settled).
Proof.
  apply rg_post. intros _ m g _ (Hh&Hl&(_&_&_&Ha)&_). split_and!; [done|done| |done]. unfold settled. by rewrite Ha.
Qed.

Lemma switch_to_ok (F : cpu_view → Prop) prev next :
  (∀ v, F v → v_curr v = prev) → rg i (U F) (switch_to c prev next) (λ _, U settled).
Proof.
  intros HF. unfold switch_to. apply (write_curr_ok F prev next); [done|]. intros b. unfold switch_mm_cid.
  apply skip_test; [done|auto with cid|]. intros active. apply (seq_ok _ _ _ _ _ (λ _, U (idle_view next (Some prev) b))).
  - destruct active; [|by apply rg_ret]. eapply seq_ok; [apply snapshot_ok|]. intros [].
    eapply seq_ok; [apply put_lazy_ok; by intros v (_&_&?&_)|]. intros []. apply write_prev_ok.
  - intros []. eapply (seq_ok _ _ _ _ _ (λ b' m g, U (idle_view next (Some prev) b) m g ∧ b' = b)).
    + eapply (rg_quiet _ _ _ (λ r m g, U (idle_view next (Some prev) b) m g ∧ r = of_bool b)); [by apply silent_quiet|auto with cid| |].
      * intros m g r m' Hi HU [= <- <-]. split; [done|]. destruct HU as (_&_&(<-&_&_&<-)&_). done.
      * intros r. apply rg_ret. intros m g _ [? ->]. split; [done|]. by destruct b.
    + intros b'. apply rg_pure. intros ->. destruct b; [|apply inactive_ok; by apply rg_ret].
      eapply seq_ok; [apply mm_cid_get_ok|]. intros r. apply rg_pure. intros Hr. apply settle_ok.
Qed.
Lemma put_cached_ok (F : cpu_view → Prop) : (∀ v, F v → v_use v = None) → rg i (U F) (mm_cid_put c) (λ _, U F).
Proof. intros HF. eapply (rg_post _ _ _ _ (λ _, under i (Some c) F true None)); [intros [] m g _; apply under_weaken|by apply mm_cid_put_ok]. Qed.
Lemma exit_ok (F : cpu_view → Prop) t o :
  (∀ v, F v → v_curr v = t ∧ v_prev v = o) → rg i (U F) (sched_mm_cid_exit_signals c t) (λ _, U settled).
Proof.
  intros HF. unfold sched_mm_cid_exit_signals. eapply seq_ok; [by apply write_active_ok|]. intros []. apply inactive_ok.
  eapply seq_ok; [apply put_cached_ok; by intros v (_&_&?&_)|]. intros [].
  eapply seq_ok; [apply (write_mm_cid_ok _ (idle_view t o false)); [by intros v (?&_)|by intros v (_&?&?&?)]|].
  intros []. by apply do_ok; [|auto with cid].
Qed.
Lemma after_execve_ok (F : cpu_view → Prop) t o :
  (∀ v, F v → v_curr v = t ∧ v_prev v = o) → rg i (U F) (sched_mm_cid_after_execve c t) (λ _, U settled).
Proof.
  intros HF. unfold sched_mm_cid_after_execve. eapply seq_ok; [by apply write_active_ok|]. intros [].
  eapply seq_ok; [apply mm_cid_get_ok|]. intros r. apply rg_pure. intros Hr. apply settle_ok.
Qed.
End current.
End ops.
