(* ===== verification/MmCidSafe.v ===== *)
(** Every interleaving of the operations on concurrency ids keeps the ids of running tasks
    apart, and loses none. *)
From S2P Require Import Prelude Interleave MmCid MmCidLogic MmCidAlloc MmCidOps.

(** A map none of whose threads runs yet. *)
Record fresh_mm {CL : CidLib} (cpus : list Z) (m : cid_mem) : Prop := {
  fm_cid c : cm_cid m c = MM_CID_UNSET;
  fm_recent c : cm_recent m c = MM_CID_UNSET;
  fm_mask : cm_mask m = ∅;
  fm_counts : 0 <= cm_max m ∧ 0 <= cm_allowed m <= cid_limit ∧ 0 <= cm_users m;
  fm_curr c c' : c ∈ cpus → c' ∈ cpus → cm_curr m c = cm_curr m c' → c = c';
  fm_prev c : cm_prev m c = None;
  fm_active c : c ∈ cpus → cm_active m (cm_curr m c) = false;
  fm_lock : cm_lock m = ∅;
  fm_mark : cm_mark m = ∅;
}.
(** The current task of [c] uses ids, and no operation on the CPU is under way. *)
Definition runs (cpus : list Z) (m : cid_mem) (c : Z) : Prop :=
  c ∈ cpus ∧ cm_lock m !! c = None ∧ cm_active m (cm_curr m c) = true.
Definition task_cid (m : cid_mem) (c : Z) : Z := cm_mm_cid m (cm_curr m c).

Section safety.
Context {CL : CidLib} {CW : CidLaws CL} (cpus : list Z).
Local Abbreviation rg := (rg (cids cpus)).
Local Abbreviation assn := (@assn cid_mem ghost).
Local Abbreviation stable := (stable (cids cpus)).
Local Abbreviation ok_step := (ok_step (cids cpus)).
Local Abbreviation inv := (inv cpus).
Local Abbreviation step := (step cpus true).
Local Abbreviation run := (run cpus true).

Definition fin (i : nat) (l : option Z) : assn := under i l settled false None.
(** A thread outside the pool owns no id. *)
Definition out (i : nat) : assn := λ _ g, holds i None g.
Lemma out_stable i : stable i (out i).
Proof. intros m g m' g' [Ho _ _] Hh n. by rewrite Ho. Qed.
Local Abbreviation pool_inv := (pool_inv (cids cpus) fin out).

Lemma fresh_inv m : fresh_mm cpus m → inv m {| g_own := ∅; g_use := λ _, None |}.
Proof.
  intros []. split; cbn [g_own g_use]; auto.
  - intros n. rewrite fm_mask0, lookup_empty, is_Some_alt. set_solver.
  - intros n w. by rewrite lookup_empty.
  - intros c n. rewrite lookup_empty. split; [done|]. intros [Hn Hc]. by destruct (caches_unset m c n).
  - done.
  - intros c c' t _ _. by rewrite fm_prev0.
  - intros c Hc _. by rewrite fm_active0.
  - intros i j c. by rewrite fm_mark0, lookup_empty.
  - intros c i. by rewrite fm_lock0, lookup_empty.
Qed.

(** ** Begin, one access, end *)

Lemma begin_rely i l m g :
  inv m g → match l with Some c => c ∈ cpus ∧ cm_lock m !! c = None | None => True end → ok_step i m g (acquire_rq i l m) g.
Proof.
  intros Hi Hl. destruct l as [c|]; [|split; [done|intros; apply rely_refl]]. destruct Hl as [Hin Hc]. split.
  - destruct Hi. split; try done; cbn.
    + intros c' ? [? _]%lookup_insert_None. auto.
    + intros c' j [[<- _]|[_ ?]]%lookup_insert_Some; [done|eauto].
  - intros j Hj. split; cbn; [done| |by auto]. intros c' Hl'. rewrite lookup_insert_ne by congruence. auto.
Qed.
Lemma end_rely i l m g : inv m g → fin i l m g → ok_step i m g (release_rq i l m) g.
Proof.
  intros Hi [_ Hf]. pose proof (unmark_ok cpus i m g Hi) as [Hi' Hr]. destruct l as [c|]; [|by split]. destruct Hf as (Hc&Hs&_). split.
  - pose proof (i_prev _ _ _ Hi) as Hpv. pose proof (i_settled _ _ _ Hi) as Hst. pose proof (i_locks _ _ _ Hi) as Hlk.
    destruct Hi'. split; try done; cbn.
    + intros c1 c2 t. destruct (decide (c1 = c)) as [->|]; [by rewrite fset_eq|rewrite fset_ne by done]. apply Hpv.
    + intros c' Hin [->|?]%lookup_delete_None Ha; [|by apply Hst]. by apply Hs.
    + intros c' j [_ ?]%lookup_delete_Some. by eapply Hlk.
  - intros j Hj. destruct (Hr j Hj) as [Ho Hl Hm]. split; [exact Ho| |exact Hm].
    intros c' Hl'. destruct (Hl c' Hl') as (?&?&?&?). assert (c' ≠ c) by congruence. unfold view in *. cbn in *.
    rewrite lookup_delete_ne, fset_ne by done. done.
Qed.
Lemma begin_ok i o m g :
  inv m g → holds i None g → op_ok cpus m o = true →
  ∃ P, stable i P ∧ P (acquire_rq i (op_lock o) m) g ∧ rg i P (op_prog cpus m o) (λ _, fin i (op_lock o)).
Proof.
  intros Hi Hh Hok. set (F := λ v, ∀ c, op_lock o = Some c → v = view m g c).
  exists (under i (op_lock o) F false None). split_and!; [auto with cid| |].
  { split; [done|]. destruct (op_lock o) as [c|] eqn:Hl; [|done]. split_and!; [apply lookup_insert_eq| |done]. by intros c' [= <-]. }
  assert (∀ c, op_lock o = Some c → cm_lock m !! c = None ∧ c ∈ cpus) as Hfree.
  { intros c Hl. unfold op_ok in Hok. rewrite Hl in Hok. by apply andb_true_iff in Hok as [?%bool_decide_eq_true ?%bool_decide_eq_true]. }
  assert (∀ (p : cprog unit), rg i (fin i (op_lock o)) p (λ _, fin i (op_lock o)) →
          rg i (under i (op_lock o) F false None) p (λ _, fin i (op_lock o))) as Hset.
  { intros p. apply rg_pre. intros m1 g1 _ [? HU]. split; [done|]. destruct (op_lock o) as [c|] eqn:Hl; [|done].
    destruct HU as (?&HF&_), (Hfree c eq_refl). split_and!; [done| |done]. rewrite (HF c eq_refl). intros Ha. by apply (i_settled _ _ _ Hi). }
  assert (∀ c v, op_lock o = Some c → F v → v_curr v = cm_curr m c ∧ v_prev v = cm_prev m c) as HF by (intros c v Hl Hv; by rewrite (Hv c Hl)).
  destruct o; cbn [op_prog op_lock] in *.
  - apply switch_to_ok. intros v Hv. by apply (HF c v).
  - apply (exit_ok _ _ _ _ _ (cm_prev m c)). intros v Hv. by apply (HF c v).
  - apply (exit_ok _ _ _ _ _ (cm_prev m c)). intros v Hv. by apply (HF c v).
  - apply (after_execve_ok _ _ _ _ _ (cm_prev m c)). intros v Hv. by apply (HF c v).
  - apply Hset. apply migrate_to_ok.
  - apply Hset. apply work_ok.
  - apply Hset. apply init_ok.
  - apply Hset. eapply seq_ok; [apply tick_ok|]. intros b. by apply rg_ret.
Qed.

(** ** Steps *)

Lemma core_step s m' g :
  pool_inv s g → core m' = core (cf_mem s) → cm_mark m' = cm_mark (cf_mem s) → numbers_ok m' →
  pool_inv {| cf_mem := m'; cf_pool := cf_pool s |} g.
Proof.
  intros Hp Hc Hm Hn. apply outside_step; [apply out_stable|done| |].
  - apply (core_inv _ (cf_mem s)); [apply Hp|done|done|]. intros i c. by rewrite Hm.
  - intros j. apply core_rely; [done|by rewrite Hm].
Qed.
Lemma fork_step s t g :
  pool_inv s g → on_cpu (cf_mem s) cpus t = false → pool_inv {| cf_mem := sched_mm_cid_fork t (cf_mem s); cf_pool := cf_pool s |} g.
Proof.
  intros Hp Ht. assert (∀ c, c ∈ cpus → cm_active (sched_mm_cid_fork t (cf_mem s)) (cm_curr (cf_mem s) c) = cm_active (cf_mem s) (cm_curr (cf_mem s) c)) as Ha.
  { intros c Hc. cbn. apply fset_ne. by apply (not_on_cpu cpus (cf_mem s) t c). }
  apply outside_step; [apply out_stable|done| |].
  - pose proof (p_inv _ _ _ _ _ Hp : inv _ _) as Hi. pose proof (i_use _ _ _ Hi) as Hus. pose proof (i_settled _ _ _ Hi) as Hst. destruct Hi. split; try done.
    + intros c n Hu. destruct (Hus c n Hu) as (?&?&?). split_and!; [done|done|]. by etransitivity; [apply Ha|].
    + intros c Hc Hl. change (cm_curr (sched_mm_cid_fork t (cf_mem s))) with (cm_curr (cf_mem s)). rewrite (Ha c Hc). by apply Hst.
  - intros j. split; [done| |by auto]. intros c Hl. split_and!; [done| |done|by auto]. unfold view.
    change (cm_curr (sched_mm_cid_fork t (cf_mem s))) with (cm_curr (cf_mem s)). rewrite (Ha c); [done|].
    by eapply (i_locks _ _ _ (p_inv _ _ _ _ _ Hp)).
Qed.
Lemma step_inv mv s s' g : pool_inv s g → step mv s = Some s' → ∃ g', pool_inv s' g'.
Proof.
  intros Hp Hs. destruct mv as [i o|i|i|t|t c|clock jiffies allowed users]; cbn in Hs.
  - destruct (cf_pool s !! i) eqn:Hpi; [done|]. destruct (op_ok cpus (cf_mem s) o) eqn:Hok; [|done]. injection Hs as <-. exists g.
    apply (pool_step (cids cpus) _ _ out_stable i s _ g); [done| | |].
    + apply begin_rely; [apply Hp|]. unfold op_ok in Hok. destruct (op_lock o); [|done].
      by apply andb_true_iff in Hok as [?%bool_decide_eq_true ?%bool_decide_eq_true].
    + intros j Hj. by rewrite lookup_insert_ne.
    + rewrite lookup_insert_eq. apply begin_ok; [apply Hp|by apply Hp|done].
  - eapply (do_step_inv (cids cpus)); [apply out_stable|intros; apply rely_refl|exact Hp|exact Hs].
  - destruct (cf_pool s !! i) as [[p l]|] eqn:Hpi; [|done]. destruct p as [[]|e k|]; try done. injection Hs as <-.
    destruct (p_rg _ _ _ _ _ Hp i _ _ Hpi) as (P&HP&HPm&Hk). pose proof (Hk _ _ (p_inv _ _ _ _ _ Hp) HPm) as Hf.
    exists g. apply (pool_step (cids cpus) _ _ out_stable i s _ g); [done|apply end_rely; [apply Hp|done]| |].
    + intros j Hj. by rewrite lookup_delete_ne.
    + rewrite lookup_delete_eq. apply Hf.
  - destruct (on_cpu _ _ _) eqn:Ho; [done|]. injection Hs as <-. exists g. by apply fork_step.
  - destruct (on_cpu _ _ _) eqn:Ho; [done|]. injection Hs as <-. exists g. apply core_step; try done. exact (inv_numbers _ _ _ (p_inv _ _ _ _ _ Hp)).
  - destruct (_ && _) eqn:Hn; [|done]. injection Hs as <-. exists g. apply core_step; try done.
    destruct (inv_numbers _ _ _ (p_inv _ _ _ _ _ Hp)) as (?&?&?&?). split; [done|]. cbn. lia.
Qed.
Lemma run_inv mvs s s' g : pool_inv s g → run mvs s = Some s' → ∃ g', pool_inv s' g'.
Proof.
  revert s g. induction mvs as [|mv mvs IH]; intros s g Hp; cbn; [intros [= <-]; eauto|].
  destruct (step mv s) as [s1|] eqn:Hs; [|done]. intros Hr. destruct (step_inv _ _ _ _ Hp Hs) as [g1 Hp1]. eauto.
Qed.
Lemma fresh_run mvs m s : fresh_mm cpus m → run mvs {| cf_mem := m; cf_pool := ∅ |} = Some s → ∃ g, pool_inv s g.
Proof.
  intros Hm Hr. eapply run_inv; [|exact Hr]. split; cbn; [by apply fresh_inv|by intros|]. intros i _ n. cbn. by rewrite lookup_empty.
Qed.

(** C14: A running task has an id of its own. *)
Theorem concurrency_ids_unique mvs m0 s c c' :
  fresh_mm cpus m0 → run mvs {| cf_mem := m0; cf_pool := ∅ |} = Some s → runs cpus (cf_mem s) c →
  (is_id (task_cid (cf_mem s) c) ∧ task_cid (cf_mem s) c ∈ cm_mask (cf_mem s) ∧ caches (cf_mem s) c (task_cid (cf_mem s) c)) ∧
  (runs cpus (cf_mem s) c' → c ≠ c' → task_cid (cf_mem s) c ≠ task_cid (cf_mem s) c').
Proof.
  intros Hm Hr Hc. destruct (fresh_run _ _ _ Hm Hr) as [g Hp]. pose proof (p_inv _ _ _ _ _ Hp : inv _ _) as Hi.
  assert (∀ c, runs cpus (cf_mem s) c → g_own g !! task_cid (cf_mem s) c = Some (Cpu c)) as Hown.
  { intros d (Hin&Hl&Ha). eapply (i_use _ _ _ Hi). by apply (i_settled _ _ _ Hi). }
  pose proof (Hown c Hc) as Ho. apply (i_own _ _ _ Hi) in Ho as Hca. split.
  - split_and!; [apply Hca| |apply Hca]. apply (i_mask _ _ _ Hi). by eexists.
  - intros Hc' Hne He. pose proof (Hown c' Hc') as Ho'. rewrite <- He, Ho in Ho'. congruence.
Qed.

(** C15: No id is lost. *)
Theorem concurrency_ids_conserved mvs m0 s n :
  fresh_mm cpus m0 → run mvs {| cf_mem := m0; cf_pool := ∅ |} = Some s → cf_pool s = ∅ →
  (n ∈ cm_mask (cf_mem s) ↔ is_id n ∧ ∃ c, caches (cf_mem s) c n) ∧
  (∀ c c', is_id n → caches (cf_mem s) c n → caches (cf_mem s) c' n → c = c').
Proof.
  intros Hm Hr He. destruct (fresh_run _ _ _ Hm Hr) as [g Hp]. pose proof (p_inv _ _ _ _ _ Hp : inv _ _) as Hi. split.
  - rewrite (i_mask _ _ _ Hi). split.
    + intros [[c|i] Ho].
      * apply (i_own _ _ _ Hi) in Ho as [? ?]. eauto.
      * assert (holds i None g) as Hh by (apply (p_out _ _ _ _ _ Hp); by rewrite He, lookup_empty). by apply Hh in Ho.
    + intros [Hn [c Hc]]. exists (Cpu c). by apply (own_cpu cpus (cf_mem s)).
  - intros c c' Hn Hc Hc'. pose proof (own_cpu _ _ _ _ _ Hi Hn Hc). pose proof (own_cpu _ _ _ _ _ Hi Hn Hc'). congruence.
Qed.
End safety.
