(* ===== verification/MmCidSolo.v ===== *)
(** A thread that is not disturbed gets a concurrency id: the loops of the allocation end. *)
From S2P Require Import Prelude Interleave MmCid MmCidLogic MmCidAlloc.

Section solo.
Context {CL : CidLib} {CW : CidLaws CL} (cpus : list Z) (i : nat).
Local Abbreviation UNSET := MM_CID_UNSET.
Local Abbreviation ends_in := (ends_in (exec cpus false) i).

(** The allocator may take id [n]: it changes no more than the mask and the count of ids. *)
Definition room (m : cid_mem) : Prop := ∃ n, (0 <= n < Z.min (cm_allowed m) nr_cpu_ids) ∧ (n ∉ cm_mask m).
Record like (m m' : cid_mem) : Prop := {
  l_allowed : cm_allowed m' = cm_allowed m; l_lock : cm_cid_lock m' = cm_cid_lock m; l_max : 0 <= cm_max m → 0 <= cm_max m';
  l_users : cm_users m' = cm_users m; l_recent : cm_recent m' = cm_recent m; l_cid : cm_cid m' = cm_cid m }.
Lemma like_trans m1 m2 m3 : like m1 m2 → like m2 m3 → like m1 m3.
Proof. intros [] []. split; try congruence. auto. Qed.
Definition taken_alone (m : cid_mem) (r : Z) (m' : cid_mem) : Prop :=
  like m m' ∧ (0 <= r < cm_allowed m) ∧ (r ∉ cm_mask m) ∧ cm_mask m' = {[r]} ∪ cm_mask m.

Lemma ends_test_set {B} n m (f : bool → cprog B) Q :
  (n ∈ cm_mask m → ends_in (f true) m Q) →
  (n ∉ cm_mask m → ends_in (f false) (m <| cm_mask := {[n]} ∪ cm_mask m |>) Q) → ends_in (test (TestSetBit n) ≫= f) m Q.
Proof.
  intros Hin Hout. eapply ends_test; [done|]. destruct (bool_decide_reflect (n ∈ cm_mask m)) as [H|H]; [|by apply Hout].
  replace (m <| cm_mask := {[n]} ∪ cm_mask m |>) with m; [by apply Hin|].
  replace ({[n]} ∪ cm_mask m) with (cm_mask m) by set_solver. by destruct m.
Qed.

Lemma shrink_ends m :
  0 <= cm_max m → 0 <= cm_allowed m → 0 <= cm_users m →
  ends_in (loop shrink_round (cm_max m)) m (λ r m', like m m' ∧ cm_mask m' = cm_mask m ∧ cm_max m' = r ∧ r <= cm_allowed m).
Proof.
  intros Hm Ha Hu. set (Q := λ r m', like m m' ∧ cm_mask m' = cm_mask m ∧ cm_max m' = r ∧ r <= cm_allowed m).
  apply (ends_round _ _ _ _ _ (λ x m', match x with inl _ => False | inr r => Q r m' end)); [|by intros [?|?] m' ?].
  unfold shrink_round. eapply ends_access; [done|]. eapply ends_access; [done|]. cbv zeta.
  destruct (Z.ltb_spec (Z.min (cm_allowed m) (cm_users m)) (cm_max m)).
  - eapply ends_access; [done|]. rewrite Z.eqb_refl. apply ends_ret. split_and!; [split; try done; cbn; lia|done|done|lia].
  - apply ends_ret. split_and!; [by split|done|done|lia].
Qed.
Lemma ends_cas_max {B} old new m (f : Z → cprog B) Q :
  ends_in (f (cm_max m)) (if cm_max m =? old then m <| cm_max := new |> else m) Q → ends_in (access_ (CasMax old new) ≫= f) m Q.
Proof. by apply ends_access. Qed.
Lemma taken_like m m1 r m' : like m m1 → cm_mask m1 = cm_mask m → taken_alone m1 r m' → taken_alone m r m'.
Proof. intros Hl He (Hl'&Hr&Hn&Hm). rewrite He in Hn, Hm. rewrite (l_allowed _ _ Hl) in Hr. split_and!; [by eapply like_trans|apply Hr|apply Hr|done|done]. Qed.
(** Each id that is taken already costs two rounds. *)
Lemma expand_ends k m :
  0 <= cm_max m → cm_allowed m - cm_max m <= Z.of_nat k →
  ends_in (loop expand_round (cm_max m)) m (λ r m', r = -1 ∧ like m m' ∧ cm_mask m' = cm_mask m ∨ taken_alone m r m').
Proof.
  revert m. induction k as [|k IH]; intros m Hm Hk; set (Q := λ r m', _ ∨ taken_alone m r m').
  { apply (ends_round _ _ _ _ _ (λ x m', x = inr (-1) ∧ m' = m)); [|intros ? ? [-> ->]; left; by split_and!].
    unfold expand_round. eapply ends_access; [done|]. destruct (Z.ltb_spec (cm_max m) (cm_allowed m)); [lia|]. by apply ends_ret. }
  set (m1 := m <| cm_max := cm_max m + 1 |>). assert (like m m1) as Hl by (split; try done; cbn; lia).
  apply (ends_round _ _ _ _ _ (λ x m', match x with
    | inl x => x = cm_max m ∧ m' = m1 ∧ cm_max m < cm_allowed m ∧ cm_max m < cm_users m | inr r => Q r m' end)).
  - unfold expand_round. eapply ends_access; [done|]. destruct (Z.ltb_spec (cm_max m) (cm_allowed m)) as [Hlt|]; cbn [negb].
    2:{ apply ends_ret. left. by split_and!. }
    eapply ends_access; [done|]. destruct (Z.ltb_spec (cm_max m) (cm_users m)) as [Hlu|]; cbn [negb]; [|apply ends_ret; left; by split_and!].
    apply ends_cas_max. rewrite Z.eqb_refl. cbn [negb]. change (m <| cm_max := _ |>) with m1. apply ends_test_set; intros Hin; apply ends_ret.
    + by split_and!.
    + right. split_and!; [destruct Hl; by split|done|done|done|done].
  - intros [x|r] m' Hx; [|done]. destruct Hx as (->&->&Hlt&Hlu).
    apply (ends_round _ _ _ _ _ (λ x m', x = inl (cm_max m1) ∧ m' = m1)).
    + unfold expand_round. eapply ends_access; [done|]. change (cm_allowed m1) with (cm_allowed m).
      rewrite (proj2 (Z.ltb_lt _ _) Hlt). cbn [negb]. eapply ends_access; [done|]. change (cm_users m1) with (cm_users m).
      rewrite (proj2 (Z.ltb_lt _ _) Hlu). cbn [negb]. apply ends_cas_max.
      assert ((cm_max m1 =? cm_max m) = false) as Hne by (cbn; lia). rewrite Hne. cbn [negb]. by apply ends_ret.
    + intros x m' [-> ->]. destruct (IH m1) as (r&m'&Hs&Hp); [cbn; lia..|]. exists r, m'. split; [exact Hs|].
      destruct Hp as [(->&?&?)|Ht]; [left; split_and!; [done|by eapply like_trans|done]|right; by eapply taken_like].
Qed.
Lemma first_of_seqZ (mask : gset Z) x a k :
  a <= x < a + Z.of_nat k → (x ∉ mask) → ∃ y, head (filter (λ n, n ∉ mask) (seqZ a (Z.of_nat k))) = Some y ∧ y <= x ∧ (y ∉ mask).
Proof.
  revert a. induction k as [|k IH]; intros a Hx Hout; [lia|]. rewrite seqZ_cons by lia. rewrite filter_cons.
  destruct (decide (a ∉ mask)) as [Ha|Ha]; [exists a; split_and!; [done|lia|done]|].
  replace (Z.pred (Z.of_nat (S k))) with (Z.of_nat k) by lia. apply IH; [|done]. assert (a ≠ x) by (intros ->; done). lia.
Qed.
Lemma find_ends m : room m → ends_in (loop find_zero_round 0) m (λ r m', m' = m ∧ (0 <= r < cm_allowed m) ∧ (r ∉ cm_mask m)).
Proof.
  intros (x&Hx&Hout). set (Q := λ r m', _). apply (ends_round _ _ _ _ _ (λ x m', match x with inl _ => False | inr r => Q r m' end)); [|by intros [?|?] m' ?].
  unfold find_zero_round. eapply ends_access; [done|]. eapply ends_access; [done|].
  destruct (first_of_seqZ (cm_mask m) x 0 (Z.to_nat nr_cpu_ids)) as (y&Hy&Hle&Hz); [lia|done|]. rewrite Z2Nat.id in Hy by lia.
  assert (first_zero (cm_mask m) = y) as He by (unfold first_zero; by rewrite Hy). pose proof (first_zero_pos (cm_mask m)). rewrite He in *.
  destruct (Z.ltb_spec y (cm_allowed m)); [|lia]. apply ends_ret. split_and!; [done|lia|lia|done].
Qed.

(** What the allocation needs: numbers in range and a free id. *)
Definition ready (m : cid_mem) : Prop :=
  0 <= cm_max m ∧ (0 <= cm_allowed m <= cid_limit) ∧ 0 <= cm_users m ∧ (∀ c, cm_recent m c = UNSET ∨ 0 <= cm_recent m c) ∧ room m.
Lemma try_get_ends c m : ready m → ends_in (__mm_cid_try_get c) m (taken_alone m).
Proof.
  intros (Hm&Ha&Hu&Hrec&Hroom). unfold __mm_cid_try_get. eapply ends_access; [done|].
  eapply ends_bind; [apply shrink_ends; lia|].
  intros mx m1 (Hl1&Hm1&<-&Hle). eapply ends_access; [done|]. rewrite (l_recent _ _ Hl1). specialize (Hrec c). set (recent := cm_recent m c) in *.
  apply (ends_bind _ _ _ _ _ (λ (b : bool) m2, if b then taken_alone m recent m2 else m2 = m1)).
  - destruct (mm_cid_is_unset recent) eqn:Hus; cbn [negb andb]; [by apply ends_ret|].
    destruct (Z.ltb_spec recent (cm_max m1)); [|by apply ends_ret].
    apply ends_test_set; intros Hin; apply ends_ret; cbn; [done|]. rewrite Hm1 in Hin. split_and!; [|destruct Hrec as [Hr|]; [|done]|lia|done|by rewrite <- Hm1].
    + destruct Hl1. by split.
    + apply cid_unset in Hr. congruence.
  - intros [] m2; [intros Ht; by apply ends_ret|]. intros ->.
    eapply ends_bind; [apply (expand_ends (Z.to_nat cid_limit)); [by apply (l_max _ _ Hl1)|rewrite (l_allowed _ _ Hl1); pose proof (l_max _ _ Hl1 Hm); lia]|].
    intros r m2 [(->&Hl2&Hm2)|Ht].
    + rewrite Z.eqb_refl. cbn [negb]. pose proof (like_trans _ _ _ Hl1 Hl2) as Hl. eapply ends_bind; [apply find_ends|].
      { destruct Hroom as (x&?&?). exists x. rewrite (l_allowed _ _ Hl), Hm2, Hm1. done. }
      intros r m3 (->&Hr&Hout). rewrite (l_allowed _ _ Hl), Hm2, Hm1 in *. apply ends_test_set; intros Hin; [by rewrite Hm2 in Hin|].
      apply ends_ret. split_and!; [|lia|lia|done|cbn; by rewrite Hm2]. destruct Hl. by split.
    + assert (r ≠ -1) as Hne by (destruct Ht as (_&?&_); lia). destruct (Z.eqb_spec r (-1)); [done|]. cbn [negb]. apply ends_ret. by eapply taken_like.
Qed.

Lemma snapshot_ends c m : ends_in (mm_cid_snapshot_time c) m (λ _ m', m' = m <| cm_time := fset (cm_time m) c (cm_clock m c) |>).
Proof. unfold mm_cid_snapshot_time. eapply ends_access; [done|]. eapply ends_last; done. Qed.
(** Alone, the first attempt succeeds, with or without the lock. *)
Definition allocated (m : cid_mem) (r : Z) (m' : cid_mem) : Prop :=
  (0 <= r < cm_allowed m) ∧ (r ∉ cm_mask m) ∧ cm_mask m' = {[r]} ∪ cm_mask m ∧ cm_cid m' = cm_cid m ∧ cm_cid_lock m' = None.
Lemma get_ends c m : ready m → cm_cid_lock m = None → ends_in (__mm_cid_get c) m (allocated m).
Proof.
  intros Hr Hl. unfold __mm_cid_get. eapply ends_test; [done|].
  apply (ends_bind _ _ _ _ _ (allocated m)).
  - destruct (cm_use_lock m); cbn [of_bool Z.eqb negb].
    + eapply ends_do; [cbn; by rewrite Hl|]. eapply ends_bind; [by apply try_get_ends|]. intros r m1 (Hlk&Hr1&Hn&Hm1).
      destruct (Z.leb_spec 0 r); [|lia]. eapply ends_do; [done|]. apply ends_ret. destruct Hlk. split_and!; [apply Hr1|apply Hr1|done|done|done|done].
    + eapply ends_bind; [by apply try_get_ends|]. intros r m1 (Hlk&Hr1&Hn&Hm1). destruct (Z.leb_spec 0 r); [|lia].
      apply ends_ret. destruct Hlk. split_and!; [lia|lia|done|done|done|congruence].
  - intros r m1 Ha. eapply ends_bind; [apply snapshot_ends|]. intros [] m2 ->. by apply ends_ret.
Qed.

(** The ids in use once the flagged id of [c], if there is one, is released. *)
Definition mask_after_put (m : cid_mem) (c : Z) : gset Z :=
  if mm_cid_is_lazy_put (cm_cid m c) then cm_mask m ∖ {[mm_cid_clear_lazy_put (cm_cid m c)]} else cm_mask m.
(** A task that is not disturbed gets an id: the one its CPU caches, or a free one, which is
    then taken and cached; an id that was to be released is released first. *)
Theorem mm_cid_get_alone c m :
  ready m → cm_cid_lock m = None → kind (cm_cid m c) →
  ∃ n m', alone (exec cpus false) i (mm_cid_get c) m n m' ∧ cm_cid m' c = n ∧ cm_cid_lock m' = None ∧
    if mm_cid_is_valid (cm_cid m c) then n = cm_cid m c ∧ cm_mask m' = cm_mask m
    else (0 <= n < cm_allowed m) ∧ (n ∉ mask_after_put m c) ∧ cm_mask m' = {[n]} ∪ mask_after_put m c.
Proof.
  intros Hr Hl Hk. set (Q := λ n m', cm_cid m' c = n ∧ cm_cid_lock m' = None ∧
    if mm_cid_is_valid (cm_cid m c) then n = cm_cid m c ∧ cm_mask m' = cm_mask m
    else (0 <= n < cm_allowed m) ∧ (n ∉ mask_after_put m c) ∧ cm_mask m' = {[n]} ∪ mask_after_put m c).
  change (ends_in (mm_cid_get c) m Q). unfold mm_cid_get. eapply ends_access; [done|]. unfold Q.
  destruct (mm_cid_is_valid (cm_cid m c)) eqn:Hv.
  { eapply ends_bind; [apply snapshot_ends|]. intros [] m1 ->. apply ends_ret. by split_and!. }
  set (m0 := m <| cm_mark := delete i (cm_mark m) |>).
  apply (ends_bind _ _ _ _ _ (λ _ m1, ready m1 ∧ cm_cid_lock m1 = None ∧ cm_mask m1 = mask_after_put m c ∧ cm_allowed m1 = cm_allowed m)).
  - unfold mask_after_put. destruct (mm_cid_is_lazy_put (cm_cid m c)) eqn:Hz; [|by apply ends_ret].
    destruct (lazy_id _ Hk Hz) as (old&Hold&He&->). destruct cid_unset_kind as [_ Hzu].
    apply (ends_bind _ _ _ _ _ (λ b m1, b = true ∧ m1 = m0 <| cm_mark := delete i (cm_mark m0) |> <| cm_cid := fset (cm_cid m) c UNSET |>)).
    + eapply ends_access; [cbn; by rewrite Z.eqb_refl, Hzu|]. apply ends_ret. by rewrite Z.eqb_refl.
    + intros b m1 [-> ->]. unfold __mm_cid_put. destruct (Z.ltb_spec old 0); [unfold is_id in Hold; lia|].
      eapply ends_last; [done|]. split_and!; try done. destruct Hr as (?&[? ?]&?&?&x&?&?). split_and!; [done|done|done|done|done|].
      exists x. split; [done|]. cbn. set_solver.
  - intros [] m1 (Hr1&Hl1&Hm1&Ha1). eapply ends_bind; [by apply get_ends|]. intros n m2 (Hn&Hout&Hm2&_&Hl2).
    eapply ends_do; [done|]. eapply ends_do; [done|]. apply ends_ret. rewrite Hm1 in Hout, Hm2. rewrite Ha1 in Hn.
    split_and!; [cbn; apply fset_eq|done|lia|lia|done|done].
Qed.
End solo.
