(* ===== verification/TgLife.v ===== *)
(** The life of task groups (core.c): creation, linking into the tree and the list of groups,
    release and destruction behind RCU grace periods, while other threads walk the tree.

    The functions are programs of atomic accesses ([Interleave]).  Lists are doubly linked
    nodes inside the groups: [list_add_rcu] and [list_del_rcu] publish with one store and
    leave the forward link of a removed node as it is, so each is one access. *)
From S2P Require Import Prelude Interleave.

(** What fair.c has for a group: its [cfs_rq]s and entities are allocated, attached to the
    run queues, detached again. *)
Inductive fair_state := FairAllocated | FairOnline | FairUnregistered.
#[export] Instance fair_state_eq_dec : EqDecision fair_state.
Proof. solve_decision. Defined.

(** A group is a number, its list heads the numbers next to it: the place of a node in a
    group is [container_of]. *)
Definition siblings (g : Z) : Z := 4 * g + 1.
Definition children (g : Z) : Z := 4 * g + 2.
Definition list_ (g : Z) : Z := 4 * g + 3.
Definition task_groups : Z := 0.
Definition container (n : Z) : Z := n / 4.
Definition root_group : Z := 1.

(** [gm_lock]: the holder of [task_group_lock]; [gm_alloc]: the allocated groups; [gm_next],
    [gm_prev]: the links of the nodes; [gm_parent]: [tg->parent], 0 being NULL; [gm_css]: the
    cgroup states that are alive, with the holders of references to each; [gm_clock],
    [gm_readers]: a count of the read-side critical sections begun, and for each one that has
    not ended its number; [gm_rcu]: the pending callback of the [rcu_head] of a group
    ([true]: [sched_unregister_group_rcu], [false]: [sched_free_group_rcu]), with the count
    when it was queued. *)
Record tg_mem := {
  gm_lock : option nat; gm_alloc : gset Z; gm_fair : gmap Z fair_state; gm_next : Z → Z; gm_prev : Z → Z; gm_parent : Z → Z;
  gm_css : gmap Z (gset nat); gm_clock : Z; gm_readers : gmap nat Z; gm_rcu : gmap Z (bool * Z)
}.
#[export] Instance eta_tg_mem : Eta tg_mem := λ r,
  {| gm_lock := gm_lock r; gm_alloc := gm_alloc r; gm_fair := gm_fair r; gm_next := gm_next r; gm_prev := gm_prev r;
     gm_parent := gm_parent r; gm_css := gm_css r; gm_clock := gm_clock r; gm_readers := gm_readers r; gm_rcu := gm_rcu r |}.

(** [Visit g]: a visitor of the walk works on the run queues of [g]; [LeafHas g]: a [cfs_rq]
    of [g] is found in the list of a run queue; [Use g]: another field of [g] is used. *)
Inductive tg_access :=
  | RcuLock | RcuUnlock | GpStart | GpWait (t : Z) | CallRcu (unregister : bool) (g : Z) | RcuRun (g : Z)
  | TgLock | TgUnlock | Kmalloc (g : Z) | Kfree (g : Z) | AllocFair (g : Z) | OnlineFair (g : Z) | UnregisterFair (g : Z) | FreeFair (g : Z)
  | ListAdd (new head : Z) | ListDel (n : Z) | InitList (n : Z) | ReadNext (n : Z) | ReadParent (g : Z) | WriteParent (g p : Z)
  | CssGet (p : Z) | CssPut (p : Z) | CssOnline (g : Z) | CssKill (g : Z) | Visit (g : Z) | LeafHas (g : Z) | Use (g : Z).
Abbreviation tprog := (prog tg_access).
Abbreviation tg_config := (pool tg_access tg_mem unit).

(** * Groups *)

Definition sched_free_group (tg : Z) : tprog unit :=
  do_ (FreeFair tg);; do_ (Use tg);; do_ (Use tg);; do_ (Kfree tg).
Definition sched_free_group_rcu (tg : Z) : tprog unit := sched_free_group tg.
Definition sched_unregister_group (tg : Z) : tprog unit :=
  do_ (UnregisterFair tg);; do_ (Use tg);; do_ (CallRcu false tg).

Definition alloc_uclamp_sched_group (tg parent : Z) : tprog unit := do_ (Use tg);; do_ (Use parent).

(** The memory the allocator has for the group, and which of the three allocations succeed.
    [None]: -ENOMEM. *)
Record alloc_outcome := { ao_addr : Z; ao_mem : bool; ao_fair : bool; ao_rt : bool }.
Definition sched_create_group (parent : Z) (ao : alloc_outcome) : tprog (option Z) :=
  if negb (ao_mem ao) then mret None else
  do_ (Kmalloc (ao_addr ao));;
  let tg := ao_addr ao in
  do_ (AllocFair tg);;
  if negb (ao_fair ao) then sched_free_group tg;; mret None else
  do_ (Use tg);;
  if negb (ao_rt ao) then sched_free_group tg;; mret None else
  do_ (Use tg);;
  alloc_uclamp_sched_group tg parent;;
  mret (Some tg).

Definition sched_online_group (tg parent : Z) : tprog unit :=
  do_ TgLock;;
  do_ (ListAdd (list_ tg) task_groups);;
  do_ (WriteParent tg parent);;
  do_ (InitList (children tg));;
  do_ (ListAdd (siblings tg) (children parent));;
  do_ TgUnlock;;
  do_ (OnlineFair tg).

Definition sched_unregister_group_rcu (tg : Z) : tprog unit := sched_unregister_group tg.
Definition sched_destroy_group (tg : Z) : tprog unit := do_ (CallRcu true tg).
Definition sched_release_group (tg : Z) : tprog unit :=
  do_ TgLock;;
  do_ (ListDel (list_ tg));;
  do_ (ListDel (siblings tg));;
  do_ TgUnlock.

(** * The cgroup callbacks *)

Definition cpu_cgroup_css_alloc (parent : option Z) (ao : alloc_outcome) : tprog (option Z) :=
  match parent with
  | None => mret (Some root_group)
  | Some parent => sched_create_group parent ao
  end.
(** [scx_ret] is what [scx_tg_online] returns; the propagation of the clamps comes last. *)
Definition cpu_cgroup_css_online (tg parent scx_ret : Z) : tprog Z :=
  do_ (Use tg);;
  if negb (scx_ret =? 0) then mret scx_ret else
  sched_online_group tg parent;;
  do_ (Use tg);;
  mret 0.
Definition cpu_cgroup_css_offline (tg : Z) : tprog unit := do_ (Use tg).
Definition cpu_cgroup_css_released (tg : Z) : tprog unit := sched_release_group tg.
Definition cpu_cgroup_css_free (tg : Z) : tprog unit := sched_unregister_group tg.

(** * The walk *)

(** The state is twice the group, plus one when its children are done. *)
Definition walk_down (p : Z) : Z := 2 * p.
Definition walk_up (p : Z) : Z := 2 * p + 1.
(** [down] and [up] are what the visitors return for each group. *)
Definition walk_round (from : Z) (down up : Z → Z) (s : Z) : tprog (Z + Z) :=
  let p := s / 2 in
  if Z.even s then
    do_ (Visit p);;
    if negb (down p =? 0) then break (down p) else
    n ← access_ (ReadNext (children p));
    if n =? children p then again (walk_up p) else again (walk_down (container n))
  else
    do_ (Visit p);;
    if negb (up p =? 0) || (p =? from) then break (up p) else
    q ← access_ (ReadParent p);
    if q =? 0 then break (up p) else
    n ← access_ (ReadNext (siblings p));
    if n =? children q then again (walk_up q) else again (walk_down (container n)).
Definition walk_tg_tree_from (from : Z) (down up : Z → Z) : tprog Z := loop (walk_round from down up) (walk_down from).
Definition walk_tg_tree (down up : Z → Z) : tprog Z := walk_tg_tree_from root_group down up.

(** * Threads *)

(** The calls of the cgroup core for a group below [parent]: it holds a reference to the
    parent, takes a group down when nothing refers to it any more, and frees it a grace
    period later. *)
Definition cgroup_wait : tprog unit := t ← access_ GpStart; do_ (GpWait t).
Definition cgroup_life (parent : Z) (ao : alloc_outcome) (scx_ret : Z) : tprog unit :=
  do_ (CssGet parent);;
  r ← cpu_cgroup_css_alloc (Some parent) ao;
  match r with
  | None => do_ (CssPut parent)
  | Some tg =>
      ret ← cpu_cgroup_css_online tg parent scx_ret;
      (if ret =? 0 then
         do_ (CssOnline tg);;
         do_ (CssKill tg);;
         cpu_cgroup_css_offline tg;;
         cpu_cgroup_css_released tg
       else mret tt);;
      cgroup_wait;;
      cpu_cgroup_css_free tg;;
      do_ (CssPut parent)
  end.
(** Those of autogroup.c. *)
Definition autogroup_life (ao : alloc_outcome) : tprog unit :=
  r ← sched_create_group root_group ao;
  match r with
  | None => mret tt
  | Some tg => sched_online_group tg root_group;; sched_release_group tg;; sched_destroy_group tg
  end.
(** The callback of a group is run after its grace period. *)
Definition rcu_callback (tg : Z) : tprog unit :=
  unregister ← test (RcuRun tg);
  if unregister : bool then sched_unregister_group_rcu tg else sched_free_group_rcu tg.

(** [use_stats g]: like [print_cfs_stats], a reader that comes to [g] by the list of its run
    queue. *)
Inductive tg_user :=
  | use_walk (down up : Z → Z) | use_stats (g : Z) | use_cgroup (parent : Z) (ao : alloc_outcome) (scx_ret : Z)
  | use_autogroup (ao : alloc_outcome) | use_rcu (g : Z).
Definition tg_user_prog (u : tg_user) : tprog unit :=
  match u with
  | use_walk down up => do_ RcuLock;; walk_tg_tree down up;; do_ RcuUnlock
  | use_stats g => do_ RcuLock;; found ← test (LeafHas g); (if found : bool then do_ (Use g) else mret tt);; do_ RcuUnlock
  | use_cgroup parent ao scx_ret => cgroup_life parent ao scx_ret
  | use_autogroup ao => autogroup_life ao
  | use_rcu g => rcu_callback g
  end.

(** * Semantics *)

(** The sections begun up to [t] have ended. *)
Definition gp_over (t : Z) (m : tg_mem) : bool := bool_decide (map_Forall (λ _ T, t < T) (gm_readers m)).
(** A new group is zeroed. *)
Definition clear_group (g : Z) (f : Z → Z) : Z → Z := λ n, if decide (container n = g) then 0 else f n.
Definition list_add_rcu (new head : Z) (m : tg_mem) : tg_mem :=
  let next := gm_next m head in
  m <| gm_next := fset (fset (gm_next m) new next) head new |> <| gm_prev := fset (fset (gm_prev m) new head) next new |>.
Definition list_del_rcu (n : Z) (m : tg_mem) : tg_mem :=
  let next := gm_next m n in
  let prev := gm_prev m n in
  m <| gm_next := fset (gm_next m) prev next |> <| gm_prev := fset (gm_prev m) next prev |>.
Definition css_hold (f : gset nat → gset nat) (p : Z) (m : tg_mem) : option (Z * tg_mem) :=
  match gm_css m !! p with Some R => Some (0, m <| gm_css := <[p := f R]> (gm_css m) |>) | None => None end.
Definition tg_exec (i : nat) (e : tg_access) (m : tg_mem) : option (Z * tg_mem) :=
  match e with
  | RcuLock => Some (0, m <| gm_clock := gm_clock m + 1 |> <| gm_readers := <[i := gm_clock m + 1]> (gm_readers m) |>)
  | RcuUnlock => Some (0, m <| gm_readers := delete i (gm_readers m) |>)
  | GpStart => Some (gm_clock m, m)
  | GpWait t => if gp_over t m then Some (0, m) else None
  | CallRcu unregister g => Some (0, m <| gm_rcu := <[g := (unregister, gm_clock m)]> (gm_rcu m) |>)
  | RcuRun g =>
      match gm_rcu m !! g with
      | Some (unregister, t) => if gp_over t m then Some (of_bool unregister, m <| gm_rcu := delete g (gm_rcu m) |>) else None
      | None => None
      end
  | TgLock => match gm_lock m with Some _ => None | None => Some (0, m <| gm_lock := Some i |>) end
  | TgUnlock => Some (0, m <| gm_lock := None |>)
  | Kmalloc g =>
      if bool_decide (0 < g ∧ g ∉ gm_alloc m) then
        Some (0, m <| gm_alloc := {[g]} ∪ gm_alloc m |> <| gm_next ::= clear_group g |> <| gm_prev ::= clear_group g |>
                   <| gm_parent ::= λ f, fset f g 0 |>)
      else None
  | Kfree g => Some (0, m <| gm_alloc := gm_alloc m ∖ {[g]} |>)
  | AllocFair g => Some (0, m <| gm_fair := <[g := FairAllocated]> (gm_fair m) |>)
  | OnlineFair g => Some (0, m <| gm_fair := <[g := FairOnline]> (gm_fair m) |>)
  | UnregisterFair g => Some (0, m <| gm_fair := <[g := FairUnregistered]> (gm_fair m) |>)
  | FreeFair g => Some (0, m <| gm_fair := delete g (gm_fair m) |>)
  | ListAdd new head => Some (0, list_add_rcu new head m)
  | ListDel n => Some (0, list_del_rcu n m)
  | InitList n => Some (0, m <| gm_next := fset (gm_next m) n n |> <| gm_prev := fset (gm_prev m) n n |>)
  | ReadNext n => Some (gm_next m n, m)
  | ReadParent g => Some (gm_parent m g, m)
  | WriteParent g p => Some (0, m <| gm_parent := fset (gm_parent m) g p |>)
  | CssGet p => css_hold (λ R, {[i]} ∪ R) p m
  | CssPut p => css_hold (λ R, R ∖ {[i]}) p m
  | CssOnline g => Some (0, m <| gm_css := <[g := ∅]> (gm_css m) |>)
  | CssKill g =>
      match gm_css m !! g with
      | Some R => if bool_decide (R = ∅) then Some (0, m <| gm_css := delete g (gm_css m) |>) else None
      | None => None
      end
  | LeafHas g => Some (of_bool (bool_decide (gm_fair m !! g = Some FairOnline)), m)
  | Visit _ | Use _ => Some (0, m)
  end.

(** What has to hold at an access: the memory is allocated, the lists change under the lock,
    the run queues a visitor works on are not unregistered, an [rcu_head] is not queued
    twice and a group is not freed while it is queued. *)
Definition node_alloc (n : Z) (m : tg_mem) : Prop := container n = 0 ∨ container n ∈ gm_alloc m.
Definition fair_usable (g : Z) (m : tg_mem) : Prop := gm_fair m !! g = Some FairAllocated ∨ gm_fair m !! g = Some FairOnline.
Definition tg_safe (i : nat) (e : tg_access) (m : tg_mem) : Prop :=
  match e with
  | ReadNext n => node_alloc n m
  | InitList n => node_alloc n m ∧ gm_lock m = Some i
  | ListAdd new head => gm_lock m = Some i ∧ node_alloc new m ∧ node_alloc head m ∧ node_alloc (gm_next m head) m
  | ListDel n => gm_lock m = Some i ∧ node_alloc n m ∧ node_alloc (gm_next m n) m ∧ node_alloc (gm_prev m n) m
  | TgUnlock => gm_lock m = Some i
  | ReadParent g | WriteParent g _ | Use g => g ∈ gm_alloc m
  | AllocFair g => g ∈ gm_alloc m ∧ gm_fair m !! g = None
  | OnlineFair g => g ∈ gm_alloc m ∧ gm_fair m !! g = Some FairAllocated
  | UnregisterFair g | Visit g => g ∈ gm_alloc m ∧ fair_usable g m
  | FreeFair g => g ∈ gm_alloc m ∧ is_Some (gm_fair m !! g)
  | Kfree g => g ∈ gm_alloc m ∧ gm_fair m !! g = None ∧ gm_rcu m !! g = None ∧ gm_css m !! g = None
  | CallRcu _ g => g ∈ gm_alloc m ∧ gm_rcu m !! g = None
  | CssOnline g => gm_css m !! g = None
  | CssPut p => ∃ R, gm_css m !! p = Some R ∧ i ∈ R
  | RcuUnlock => is_Some (gm_readers m !! i)
  | _ => True
  end.

(** Threads begin, do an access, or are done. *)
Inductive tg_move := TgBegin (i : nat) (u : tg_user) | TgDo (i : nat) | TgEnd (i : nat).
Definition tg_step (mv : tg_move) (s : tg_config) : option tg_config :=
  match mv with
  | TgBegin i u =>
      match cf_pool s !! i with
      | Some _ => None
      | None => Some {| cf_mem := cf_mem s; cf_pool := <[i := (tg_user_prog u, tt)]> (cf_pool s) |}
      end
  | TgDo i => do_step tg_exec i s
  | TgEnd i =>
      match cf_pool s !! i with Some (Ret _, _) => Some {| cf_mem := cf_mem s; cf_pool := delete i (cf_pool s) |} | _ => None end
  end.
Fixpoint tg_run (mvs : list tg_move) (s : tg_config) : option tg_config :=
  match mvs with [] => Some s | mv :: mvs => match tg_step mv s with Some s => tg_run mvs s | None => None end end.

(** At boot there is the root group, alone in the list of groups ([sched_init]). *)
Definition boot_links : Z → Z :=
  fset (fset (fset (fset (λ _, 0) task_groups (list_ root_group)) (list_ root_group) task_groups)
    (children root_group) (children root_group)) (siblings root_group) (siblings root_group).
Definition boot_mem : tg_mem := {|
  gm_lock := None; gm_alloc := {[root_group]}; gm_fair := {[root_group := FairOnline]};
  gm_next := boot_links; gm_prev := boot_links;
  gm_parent := λ _, 0; gm_css := {[root_group := ∅]}; gm_clock := 0; gm_readers := ∅; gm_rcu := ∅
|}.
Definition tg_boot : tg_config := {| cf_mem := boot_mem; cf_pool := ∅ |}.
