(* ===== verification/TgLogic.v ===== *)
(** The protocol of the task groups: doubly linked rings and their content, the tree and the
    list of groups, what a reader can still see of a removed group, and what a thread may
    rely on. *)
From S2P Require Import Prelude Interleave TgLife.

Create HintDb tg.

(** * Nodes and rings *)

Lemma container_siblings x : container (siblings x) = x.
Proof. unfold container, siblings. Z.to_euclidean_division_equations. lia. Qed.
Lemma container_children x : container (children x) = x.
Proof. unfold container, children. Z.to_euclidean_division_equations. lia. Qed.
Lemma container_list x : container (list_ x) = x.
Proof. unfold container, list_. Z.to_euclidean_division_equations. lia. Qed.
Lemma container_top : container task_groups = 0.
Proof. done. Qed.
Ltac nodes := unfold siblings, children, list_, task_groups, container in *; Z.to_euclidean_division_equations; lia.
#[export] Instance siblings_inj : Inj (=) (=) siblings.
Proof. intros x y ?. nodes. Qed.
#[export] Instance list_inj : Inj (=) (=) list_.
Proof. intros x y ?. nodes. Qed.

(** From [a] over [ns] to [b], both ways. *)
Fixpoint chain (nx pv : Z → Z) (a : Z) (ns : list Z) (b : Z) : Prop :=
  match ns with
  | [] => nx a = b ∧ pv b = a
  | n :: ns => nx a = n ∧ pv n = a ∧ chain nx pv n ns b
  end.
Definition ring (nx pv : Z → Z) (h : Z) (ns : list Z) : Prop := chain nx pv h ns h.

Section rings.
Implicit Types (nx pv : Z → Z) (ns l : list Z).
Lemma chain_ext nx pv nx' pv' a ns b :
  (∀ x, x = a ∨ x ∈ ns → nx' x = nx x) → (∀ x, x ∈ ns ∨ x = b → pv' x = pv x) → chain nx pv a ns b → chain nx' pv' a ns b.
Proof.
  revert a. induction ns as [|n ns IH]; intros a Hn Hp; cbn.
  - intros [<- Hb]. rewrite Hn by auto. split; [done|]. rewrite Hp by auto. done.
  - intros (<-&Ha&Hc). rewrite Hn by auto. rewrite Hp by (left; left). split_and!; [done|done|]. apply IH; [| |done].
    + intros x [->|Hx]; apply Hn; right; [left|by right].
    + intros x [Hx|Hx]; apply Hp; [left; by right|by right].
Qed.
Lemma ring_frame nx pv nx' pv' h ns :
  (∀ n, n = h ∨ n ∈ ns → nx' n = nx n ∧ pv' n = pv n) → ring nx pv h ns → ring nx' pv' h ns.
Proof. intros Hn. apply chain_ext; intros x Hx; apply Hn; tauto. Qed.
Lemma chain_app nx pv a l1 n l2 b : chain nx pv a (l1 ++ n :: l2) b ↔ chain nx pv a l1 n ∧ chain nx pv n l2 b.
Proof. revert a. induction l1 as [|d l1 IH]; intros a; cbn; [tauto|]. rewrite IH. tauto. Qed.
Lemma chain_next nx pv a ns b : chain nx pv a ns b → nx a = b ∨ nx a ∈ ns.
Proof. destruct ns as [|n ns]; cbn; [intros [? _]; by left|intros [-> _]; right; left]. Qed.
Lemma chain_prev nx pv a ns b : chain nx pv a ns b → pv b = a ∨ pv b ∈ ns.
Proof.
  revert a. induction ns as [|n ns IH]; intros a; cbn; [intros [_ ?]; by left|]. intros (_&_&Hc).
  destruct (IH n Hc) as [->|?]; right; [left|by right].
Qed.
Lemma chain_in_next nx pv a ns b x : chain nx pv a ns b → x ∈ ns → nx x = b ∨ nx x ∈ ns.
Proof.
  intros Hc [l1 [l2 ->]]%list_elem_of_split. apply chain_app in Hc as [_ Hc]. apply chain_next in Hc as [?|?]; [by left|right; set_solver].
Qed.
Lemma chain_in_prev nx pv a ns b x : chain nx pv a ns b → x ∈ ns → pv x = a ∨ pv x ∈ ns.
Proof.
  intros Hc [l1 [l2 ->]]%list_elem_of_split. apply chain_app in Hc as [Hc _]. apply chain_prev in Hc as [?|?]; [by left|right; set_solver].
Qed.

Lemma ring_add nx pv h ns new :
  NoDup (h :: ns) → new ∉ h :: ns → ring nx pv h ns →
  ring (fset (fset nx new (nx h)) h new) (fset (fset pv new h) (nx h) new) h (new :: ns).
Proof.
  intros [Hh Hnd]%NoDup_cons [Hne Hnew]%not_elem_of_cons Hr. unfold ring in *. cbn. rewrite fset_eq. split; [done|].
  destruct ns as [|n ns]; cbn in *.
  - destruct Hr as [Hn Hp]. rewrite Hn. rewrite (fset_ne _ h new), !fset_eq by congruence. split; [done|].
    rewrite (fset_ne _ h new), fset_eq by congruence. done.
  - destruct Hr as (Hn&Hp&Hc). rewrite Hn. apply not_elem_of_cons in Hnew as [Hnn Hnew]. apply not_elem_of_cons in Hh as [Hhn Hh].
    apply NoDup_cons in Hnd as [Hn' Hnd]. rewrite (fset_ne _ n new), fset_eq by congruence. split; [done|].
    rewrite (fset_ne _ h new), !fset_eq by congruence. split_and!; [done|done|]. eapply chain_ext; [| |exact Hc].
    + intros x [->|Hx]; rewrite !fset_ne by (try congruence; intros ->; done); done.
    + intros x [Hx| ->]; rewrite !fset_ne by (try congruence; intros ->; done); done.
Qed.
Lemma chain_del nx pv a l1 n l2 b :
  NoDup (a :: l1 ++ n :: l2) → b ∉ l1 ++ n :: l2 → chain nx pv a (l1 ++ n :: l2) b →
  chain (fset nx (pv n) (nx n)) (fset pv (nx n) (pv n)) a (l1 ++ l2) b.
Proof.
  intros Hnd Hb Hc. apply chain_app in Hc as [H1 H2]. revert a Hnd H1. induction l1 as [|d l1 IH]; intros a Hnd H1; cbn in *.
  - destruct H1 as [Ha Hp]. rewrite Hp. apply NoDup_cons in Hnd as [Hna Hnd]. apply NoDup_cons in Hnd as [Hn Hnd].
    apply not_elem_of_cons in Hb as [Hbn Hb]. apply not_elem_of_cons in Hna as [Han Hna].
    destruct l2 as [|c l2]; cbn in *; [destruct H2 as [-> _]; by rewrite !fset_eq|]. destruct H2 as (->&Hpc&Hc). rewrite !fset_eq.
    apply NoDup_cons in Hnd as [Hcn Hnd]. apply not_elem_of_cons in Hb as [Hbc Hb]. apply not_elem_of_cons in Hna as [Hac Hna].
    split_and!; [done|done|]. eapply chain_ext; [| |exact Hc].
    + intros x [->|Hx]; rewrite !fset_ne by (try congruence; intros ->; done); done.
    + intros x [Hx| ->]; rewrite !fset_ne by (try congruence; intros ->; done); done.
  - destruct H1 as (Ha&Hp&Hc). apply NoDup_cons in Hnd as [Hna Hnd]. apply not_elem_of_cons in Hb as [Hbd Hb].
    assert (pv n ≠ a) as Hpa. { intros Hx. destruct (chain_prev _ _ _ _ _ Hc) as [Hd|Hd]; rewrite Hx in Hd; set_solver. }
    assert (nx n ≠ d) as Hnd'.
    { intros Hx. apply NoDup_cons in Hnd as [Hd _]. destruct (chain_next _ _ _ _ _ H2) as [Hd'|Hd']; rewrite Hx in Hd'; [congruence|set_solver]. }
    rewrite !fset_ne by congruence. split_and!; [done|done|]. by apply IH.
Qed.
Lemma ring_del nx pv h l1 n l2 :
  NoDup (h :: l1 ++ n :: l2) → ring nx pv h (l1 ++ n :: l2) → ring (fset nx (pv n) (nx n)) (fset pv (nx n) (pv n)) h (l1 ++ l2).
Proof. intros Hnd Hr. apply chain_del; [done| |done]. by apply NoDup_cons in Hnd as [? _]. Qed.
End rings.

(** A list without one of its elements. *)
Definition without (x : Z) (l : list Z) : list Z := filter (λ y, y ≠ x) l.
Lemma elem_of_without x y l : y ∈ without x l ↔ y ∈ l ∧ y ≠ x.
Proof. unfold without. rewrite list_elem_of_filter. tauto. Qed.
Lemma without_id x l : x ∉ l → without x l = l.
Proof.
  unfold without. induction l as [|y l IH]; [done|]. intros [Hne Hl]%not_elem_of_cons. rewrite filter_cons_True by congruence. by rewrite IH.
Qed.
Lemma without_split x l1 l2 : NoDup (l1 ++ x :: l2) → without x (l1 ++ x :: l2) = l1 ++ l2.
Proof.
  intros (_&H1&[H2 _]%NoDup_cons)%NoDup_app. pose proof (without_id x l1) as E1. pose proof (without_id x l2 H2) as E2.
  unfold without in *. rewrite filter_app, filter_cons_False by naive_solver. rewrite E1, E2; [done|]. intros Hx. apply (H1 x Hx). left.
Qed.
Lemma without_nodup x l : NoDup l → NoDup (without x l).
Proof. apply NoDup_filter. Qed.
Lemma without_before x y l a b : without x l = a ++ y :: b → ∃ a' b', l = a' ++ y :: b' ∧ without x b' = b.
Proof.
  unfold without. revert a. induction l as [|z l IH]; intros a Hl; [by destruct a|]. destruct (decide (z = x)) as [->|Hne].
  - rewrite filter_cons_False in Hl by naive_solver. destruct (IH a Hl) as (a'&b'&->&Hb). by exists (x :: a'), b'.
  - rewrite filter_cons_True in Hl by done. destruct a as [|z' a]; cbn in Hl; injection Hl as -> Hl.
    + by exists [], l.
    + destruct (IH a Hl) as (a'&b'&->&Hb). by exists (z' :: a'), b'.
Qed.

(** * Ghost state *)

(** [gh_own]: the thread a group belongs to, [None] for the root group and for groups whose
    callback is pending; [gh_dead], [gh_unreg]: when a group was taken off the tree, and
    unregistered; [gh_list], [gh_tree], [gh_cs]: the content of [task_groups], of the tree (the
    newest first) and of the children of each group. *)
Record tg_ghost := {
  gh_own : gmap Z (option nat); gh_dead : gmap Z Z; gh_unreg : gmap Z Z; gh_list : list Z; gh_tree : list Z; gh_cs : Z → list Z
}.
#[export] Instance eta_tg_ghost : Eta tg_ghost := λ r,
  {| gh_own := gh_own r; gh_dead := gh_dead r; gh_unreg := gh_unreg r; gh_list := gh_list r; gh_tree := gh_tree r; gh_cs := gh_cs r |}.

Implicit Types (m : tg_mem) (g : tg_ghost) (i j : nat) (x p : Z).

(** What the reader whose section has number [T] can come to: groups in the tree, and those
    removed since. *)
Definition visible (T : Z) (x : Z) (g : tg_ghost) : Prop := x ∈ gh_tree g ∨ ∃ t, gh_dead g !! x = Some t ∧ T ≤ t.
Definition leaf_visible (T : Z) (x : Z) (m : tg_mem) (g : tg_ghost) : Prop :=
  gm_fair m !! x = Some FairOnline ∨ ∃ t, gh_unreg g !! x = Some t ∧ T ≤ t.
(** Where the forward link of a group leads: to a sibling the reader can come to, or back to
    the parent. *)
Definition next_ok (T : Z) (x : Z) (m : tg_mem) (g : tg_ghost) : Prop :=
  gm_next m (siblings x) = children (gm_parent m x) ∨
  ∃ y, gm_next m (siblings x) = siblings y ∧ visible T y g.

(** The groups and the lists they are in. *)
Record shape m g : Prop := {
  v_alloc x : x ∈ gm_alloc m ↔ is_Some (gh_own g !! x);
  v_pos x : x ∈ gm_alloc m → 0 < x;
  v_tree x : x ∈ gh_tree g → x ∈ gm_alloc m;
  v_list x : x ∈ gh_list g → x ∈ gm_alloc m;
  v_tree_nodup : NoDup (gh_tree g);
  v_list_nodup : NoDup (gh_list g);
  v_root : root_group ∈ gh_tree g;
  v_root_parent : gm_parent m root_group = 0;
  v_root_own : gh_own g !! root_group = Some None;
  v_top : ring (gm_next m) (gm_prev m) task_groups (list_ <$> gh_list g);
  v_ring p : p ∈ gh_tree g → ring (gm_next m) (gm_prev m) (children p) (siblings <$> gh_cs g p);
  v_cs p : p ∈ gh_tree g → NoDup (gh_cs g p);
  v_child p x : p ∈ gh_tree g → x ∈ gh_cs g p ↔ x ∈ gh_tree g ∧ x ≠ root_group ∧ gm_parent m x = p;
  v_order l1 x l2 : gh_tree g = l1 ++ x :: l2 → x ≠ root_group → gm_parent m x ∈ l2;
  v_lock : gm_lock m = None → gh_list g = gh_tree g;
  v_css p R : gm_css m !! p = Some R → p ∈ gh_tree g;
  v_ref x : x ∈ gh_tree g → x ≠ root_group → gm_parent m x ≠ root_group →
    ∃ j R, gh_own g !! x = Some (Some j) ∧ gm_css m !! gm_parent m x = Some R ∧ j ∈ R;
}.
(** The removed groups and the grace periods. *)
Record deferred m g : Prop := {
  v_dead x t : gh_dead g !! x = Some t → x ∈ gm_alloc m ∧ (x ∉ gh_tree g) ∧ x ≠ root_group ∧ t ≤ gm_clock m ∧ gm_next m (children x) = children x;
  v_seen j T x t : gm_readers m !! j = Some T → gh_dead g !! x = Some t → T ≤ t →
    fair_usable x m ∧ visible T (gm_parent m x) g ∧ next_ok T x m g;
  v_usable x : x ∈ gh_tree g → fair_usable x m;
  v_unreg x t : gh_unreg g !! x = Some t → x ∈ gm_alloc m ∧ t ≤ gm_clock m;
  v_fair x f : gm_fair m !! x = Some f → x ∈ gm_alloc m;
  v_clock j T : gm_readers m !! j = Some T → T ≤ gm_clock m;
  v_rcu x b t : gm_rcu m !! x = Some (b, t) →
    gh_own g !! x = Some None ∧ x ≠ root_group ∧ (x ∉ gh_tree g) ∧ (x ∉ gh_list g) ∧ t ≤ gm_clock m ∧
    if b : bool then fair_usable x m ∧ gh_unreg g !! x = None ∧ ∃ t', gh_dead g !! x = Some t' ∧ t' ≤ t
    else gm_fair m !! x = Some FairUnregistered ∧ ∃ t', gh_unreg g !! x = Some t' ∧ t' ≤ t;
  v_pending x : gh_own g !! x = Some None → x = root_group ∨ is_Some (gm_rcu m !! x);
}.
Record tg_inv m g : Prop := { v_shape : shape m g; v_deferred : deferred m g }.

(** * Rely *)

(** What others leave as it is of a group of thread [j]. *)
Record kept x m g m' g' : Prop := {
  k_list : x ∈ gh_list g' ↔ x ∈ gh_list g;
  k_tree : x ∈ gh_tree g' ↔ x ∈ gh_tree g;
  k_dead : gh_dead g' !! x = gh_dead g !! x;
  k_unreg : gh_unreg g' !! x = gh_unreg g !! x;
  k_fair : gm_fair m' !! x = gm_fair m !! x;
  k_parent : gm_parent m' x = gm_parent m x;
  k_css : is_Some (gm_css m' !! x) ↔ is_Some (gm_css m !! x);
  k_links : x ∉ gh_tree g → gm_next m' (children x) = gm_next m (children x) ∧ gm_prev m' (children x) = gm_prev m (children x);
}.
Definition refers j p m : Prop := ∃ R, gm_css m !! p = Some R ∧ j ∈ R.
Record tg_rely j m g m' g' : Prop := {
  r_clock : gm_clock m ≤ gm_clock m';
  r_own y : gh_own g' !! y = Some (Some j) ↔ gh_own g !! y = Some (Some j);
  r_mine y : gh_own g !! y = Some (Some j) → kept y m g m' g';
  r_lock : gm_lock m' = Some j ↔ gm_lock m = Some j;
  r_locked : gm_lock m = Some j → gh_list g' = gh_list g ∧ gh_tree g' = gh_tree g;
  r_ref p : refers j p m' ↔ refers j p m;
  r_reader : gm_readers m' !! j = gm_readers m !! j;
  r_new k T : gm_readers m' !! k = Some T → gm_readers m !! k = Some T ∨ gm_clock m < T;
  r_vis T x : gm_readers m !! j = Some T → visible T x g → visible T x g' ∧ gm_parent m' x = gm_parent m x;
  r_leaf T x : gm_readers m !! j = Some T → leaf_visible T x m g → leaf_visible T x m' g';
}.

Definition tgs : protocol tg_access tg_mem tg_ghost := {|
  px_exec := tg_exec; px_inv := tg_inv; px_rely := tg_rely; px_safe := λ i e m _, tg_safe i e m
|}.

Lemma kept_refl x m g : kept x m g m g.
Proof. by split. Qed.
Lemma tg_rely_refl j m g : tg_rely j m g m g.
Proof. split; auto using kept_refl; done. Qed.
#[export] Hint Resolve kept_refl tg_rely_refl : tg.

(** * What a thread knows *)

(** A group of the thread: whether it is in the list, in the tree and has a live cgroup state,
    when it was removed and unregistered, its state in fair.c, its parent and whether its list
    of children is initialised. *)
Record desc := {
  d_list : bool; d_tree : bool; d_css : bool; d_dead : option Z; d_unreg : option Z; d_fair : option fair_state; d_parent : Z; d_init : bool
}.
#[export] Instance eta_desc : Eta desc := λ r,
  {| d_list := d_list r; d_tree := d_tree r; d_css := d_css r; d_dead := d_dead r; d_unreg := d_unreg r; d_fair := d_fair r;
     d_parent := d_parent r; d_init := d_init r |}.
Record describes x (d : desc) m g : Prop := {
  e_list : x ∈ gh_list g ↔ d_list d = true;
  e_tree : x ∈ gh_tree g ↔ d_tree d = true;
  e_css : is_Some (gm_css m !! x) ↔ d_css d = true;
  e_dead : gh_dead g !! x = d_dead d;
  e_unreg : gh_unreg g !! x = d_unreg d;
  e_fair : gm_fair m !! x = d_fair d;
  e_parent : gm_parent m x = d_parent d;
  e_init : d_init d = true → d_tree d = false → gm_next m (children x) = children x ∧ gm_prev m (children x) = children x;
}.
(** The group of the thread, whether it has the lock, the parent it refers to, the number of
    its read-side section. *)
Record tstate := { t_own : option (Z * desc); t_lock : bool; t_ref : option Z; t_reader : option Z }.
Abbreviation St o l r T := {| t_own := o; t_lock := l; t_ref := r; t_reader := T |}.
Record base i (st : tstate) m g : Prop := {
  b_own y : gh_own g !! y = Some (Some i) ↔ ∃ d, t_own st = Some (y, d);
  b_desc y d : t_own st = Some (y, d) → describes y d m g;
  b_lock : gm_lock m = Some i ↔ t_lock st = true;
  b_ref p : refers i p m ↔ t_ref st = Some p;
  b_reader : gm_readers m !! i = t_reader st;
}.

Lemma describes_kept x d m g m' g' : kept x m g m' g' → describes x d m g → describes x d m' g'.
Proof.
  intros [] []. split; try congruence; try (etrans; [|done]; done).
  intros Hi Ht. destruct e_init0; [done..|]. destruct k_links0 as [-> ->]; [|done]. intros Hx. apply e_tree0 in Hx. congruence.
Qed.
Lemma tg_base_stable i st : stable tgs i (base i st).
Proof.
  intros m g m' g' Hr []. split.
  - intros y. by rewrite (r_own _ _ _ _ _ Hr).
  - intros y d Hy. eapply describes_kept; [|by apply b_desc0]. apply (r_mine _ _ _ _ _ Hr). apply b_own0. eauto.
  - by rewrite (r_lock _ _ _ _ _ Hr).
  - intros p. by rewrite (r_ref _ _ _ _ _ Hr).
  - by rewrite (r_reader _ _ _ _ _ Hr).
Qed.
(** The sections begun up to [t] have ended. *)
Definition elapsed (t : Z) m g : Prop := t ≤ gm_clock m ∧ ∀ j T, gm_readers m !! j = Some T → t < T.
Lemma elapsed_stable i t : stable tgs i (elapsed t).
Proof.
  intros m g m' g' Hr [Ht Hel]. pose proof (r_clock _ _ _ _ _ Hr). split; [lia|]. intros j T HT.
  destruct (r_new _ _ _ _ _ Hr j T HT) as [?|?]; [by eapply Hel|lia].
Qed.
#[export] Hint Resolve tg_base_stable elapsed_stable both_stable : tg.

Lemma gp_over_spec t m g : gp_over t m = true → t ≤ gm_clock m → elapsed t m g.
Proof. unfold gp_over. intros ?%bool_decide_eq_true_1 ?. split; [done|]. intros j T HT. eapply map_Forall_lookup_1 in H; [|done]. done. Qed.

(** A group that is visible to a reader is allocated and its run queues are in use. *)
Lemma visible_usable j T x m g : tg_inv m g → gm_readers m !! j = Some T → visible T x g → x ∈ gm_alloc m ∧ fair_usable x m.
Proof.
  intros [Hs Hd] HT [Hx|[t [Hx Ht]]].
  - split; [by apply (v_tree _ _ Hs)|by apply (v_usable _ _ Hd)].
  - split; [by apply (v_dead _ _ Hd _ _ Hx)|by apply (v_seen _ _ Hd _ _ _ _ HT Hx Ht)].
Qed.
(** In the tree. *)
Lemma tree_parent x m g : shape m g → x ∈ gh_tree g → x ≠ root_group → gm_parent m x ∈ gh_tree g.
Proof. intros Hs [l1 [l2 Hl]]%list_elem_of_split Hr. rewrite Hl. apply elem_of_app. do 2 right. by eapply v_order. Qed.
Lemma tree_next T x m g : shape m g → x ∈ gh_tree g → x ≠ root_group → next_ok T x m g.
Proof.
  intros Hs Hx Hr. pose proof (tree_parent _ _ _ Hs Hx Hr) as Hp.
  assert (x ∈ gh_cs g (gm_parent m x)) as Hc by (by apply (v_child _ _ Hs)).
  destruct (chain_in_next _ _ _ _ _ (siblings x) (v_ring _ _ Hs _ Hp)) as [?|Hin]; [by apply list_elem_of_fmap_2|by left|].
  apply list_elem_of_fmap in Hin as (y&Hn&Hy). right. exists y. split; [done|]. left. by apply (v_child _ _ Hs _ _ Hp).
Qed.
Lemma tree_first T x m g : shape m g → x ∈ gh_tree g → gm_next m (children x) = children x ∨ ∃ y, gm_next m (children x) = siblings y ∧ visible T y g.
Proof.
  intros Hs Hx. destruct (chain_next _ _ _ _ _ (v_ring _ _ Hs _ Hx)) as [?|Hin]; [by left|]. apply list_elem_of_fmap in Hin as (y&Hn&Hy).
  right. exists y. split; [done|]. left. by apply (v_child _ _ Hs _ _ Hx).
Qed.
