(* ===== verification/TgSteps.v ===== *)
(** The accesses to task groups in the protocol of [TgLogic]: each keeps the invariant and
    what the other threads rely on. *)
From S2P Require Import Prelude Interleave TgLife TgLogic.

Section steps.
Implicit Types (m : tg_mem) (g : tg_ghost) (i j : nat) (x p : Z).
Local Abbreviation ok_step := (ok_step tgs).

Lemma ok_same i m g : tg_inv m g → ok_step i m g m g.
Proof. intros Hi. split; [done|]. intros. apply tg_rely_refl. Qed.
(** Nobody else owns a group of thread [i]. *)
Lemma not_other i j g x y : gh_own g !! x = Some (Some i) → j ≠ i → gh_own g !! y = Some (Some j) → y ≠ x.
Proof. intros Hx Hj Hy ->. congruence. Qed.

(** * Readers *)

Lemma ok_rcu_lock i m g :
  tg_inv m g → ok_step i m g (m <| gm_clock := gm_clock m + 1 |> <| gm_readers := <[i := gm_clock m + 1]> (gm_readers m) |>) g.
Proof.
  intros [Hs Hd]. split.
  - split; [by destruct Hs|]. destruct Hd. split; cbn; try done.
    + intros x t Hx. destruct (v_dead x t Hx) as (?&?&?&?&?). split_and!; try done. lia.
    + intros j T x t HT Hx Ht. destruct (decide (j = i)) as [->|Hne].
      * rewrite lookup_insert_eq in HT. injection HT as <-. destruct (v_dead x t Hx) as (?&?&?&?&?). lia.
      * rewrite lookup_insert_ne in HT by done. by apply (v_seen j T x t).
    + intros x t Hx. destruct (v_unreg x t Hx). split; [done|lia].
    + intros j T. destruct (decide (j = i)) as [->|Hne]; [rewrite lookup_insert_eq; intros [= <-]; lia|].
      rewrite lookup_insert_ne by done. intros HT. specialize (v_clock j T HT). lia.
    + intros x b t Hx. destruct (v_rcu x b t Hx) as (?&?&?&?&?&?). split_and!; try done. lia.
  - intros j Hj. split; cbn; auto using kept_refl; try done.
    + lia.
    + by rewrite lookup_insert_ne.
    + intros k T. destruct (decide (k = i)) as [->|Hne]; [rewrite lookup_insert_eq; intros [= <-]; right; lia|].
      rewrite lookup_insert_ne by done. by left.
Qed.
Lemma ok_rcu_unlock i m g : tg_inv m g → ok_step i m g (m <| gm_readers := delete i (gm_readers m) |>) g.
Proof.
  intros [Hs Hd]. split.
  - split; [by destruct Hs|]. destruct Hd. split; cbn; try done.
    + intros j T x t [_ HT]%lookup_delete_Some. by apply v_seen with j.
    + intros j T [_ HT]%lookup_delete_Some. by apply v_clock with j.
  - intros j Hj. split; cbn; auto using kept_refl; try done.
    + by rewrite lookup_delete_ne.
    + intros k T [_ HT]%lookup_delete_Some. by left.
Qed.

(** * The lock *)

Lemma ok_lock i m g : tg_inv m g → gm_lock m = None → ok_step i m g (m <| gm_lock := Some i |>) g.
Proof.
  intros [Hs Hd] Hl. split.
  - split; [by destruct Hs|by destruct Hd].
  - intros j Hj. split; cbn; auto using kept_refl; try done. rewrite Hl. split; congruence.
Qed.
Lemma ok_unlock i m g : tg_inv m g → gm_lock m = Some i → gh_list g = gh_tree g → ok_step i m g (m <| gm_lock := None |>) g.
Proof.
  intros [Hs Hd] Hl He. split.
  - split; [by destruct Hs|by destruct Hd].
  - intros j Hj. split; cbn; auto using kept_refl; try done. rewrite Hl. split; congruence.
Qed.

(** * References *)

Lemma ok_css_hold i m g p R R' :
  tg_inv m g → gm_css m !! p = Some R → (∀ j, j ≠ i → j ∈ R' ↔ j ∈ R) →
  (i ∉ R' → ∀ x, gh_own g !! x = Some (Some i) → x ∉ gh_tree g) →
  ok_step i m g (m <| gm_css := <[p := R']> (gm_css m) |>) g.
Proof.
  intros [Hs Hd] Hp HR Hi. split.
  - split; [|by destruct Hd]. destruct Hs. split; cbn; try done.
    + intros q R1. destruct (decide (q = p)) as [->|Hne]; [intros _; by eapply v_css|rewrite lookup_insert_ne by done; by apply v_css].
    + intros x Hx Hr Hpr. destruct (v_ref x Hx Hr Hpr) as (j&R1&Ho&Hc&Hj). exists j. destruct (decide (gm_parent m x = p)) as [Hpe|Hne].
      * rewrite Hpe, lookup_insert_eq. exists R'. split_and!; [done|done|]. rewrite Hpe, Hp in Hc. injection Hc as ->.
        destruct (decide (j = i)) as [->|Hji]; [|by apply HR]. destruct (decide (i ∈ R')); [done|]. by destruct (Hi n x).
      * rewrite lookup_insert_ne by done. exists R1. done.
  - intros j Hj. split; cbn; auto using kept_refl; try done.
    + intros y _. split; cbn; try done. destruct (decide (y = p)) as [->|Hne]; [rewrite lookup_insert_eq, Hp; by split; intros; eexists|by rewrite lookup_insert_ne].
    + intros q. unfold refers. cbn. destruct (decide (q = p)) as [->|Hne]; [|by rewrite lookup_insert_ne].
      rewrite lookup_insert_eq, Hp. split; intros (R1&[= <-]&Hj1); eexists; (split; [done|]); by apply HR.
Qed.
Lemma ok_css_online i m g x :
  tg_inv m g → gh_own g !! x = Some (Some i) → x ∈ gh_tree g → gm_css m !! x = None →
  ok_step i m g (m <| gm_css := <[x := ∅]> (gm_css m) |>) g.
Proof.
  intros [Hs Hd] Hx Ht Hc. split.
  - split; [|by destruct Hd]. destruct Hs. split; cbn; try done.
    + intros q R1. destruct (decide (q = x)) as [->|Hne]; [done|rewrite lookup_insert_ne by done; by apply v_css].
    + intros y Hy Hr Hpr. destruct (v_ref y Hy Hr Hpr) as (j&R1&Ho&Hcy&Hj). exists j, R1. rewrite lookup_insert_ne; [done|congruence].
  - intros j Hj. split; cbn; auto using kept_refl; try done.
    + intros y Hy. split; cbn; try done. rewrite lookup_insert_ne; [done|]. by eapply not_eq_sym, not_other.
    + intros q. unfold refers. cbn. destruct (decide (q = x)) as [->|Hne]; [|by rewrite lookup_insert_ne].
      rewrite lookup_insert_eq, Hc. split; intros (R1&?&?); simplify_eq; set_solver.
Qed.
Lemma ok_css_kill i m g x :
  tg_inv m g → gh_own g !! x = Some (Some i) → gm_css m !! x = Some ∅ →
  ok_step i m g (m <| gm_css := delete x (gm_css m) |>) g.
Proof.
  intros [Hs Hd] Hx Hc. split.
  - split; [|by destruct Hd]. destruct Hs. split; cbn; try done.
    + intros q R1 [_ Hq]%lookup_delete_Some. by eapply v_css.
    + intros y Hy Hr Hpr. destruct (v_ref y Hy Hr Hpr) as (j&R1&Ho&Hcy&Hj). exists j, R1. rewrite lookup_delete_ne; [done|]. intros ->. rewrite Hc in Hcy. set_solver.
  - intros j Hj. split; cbn; auto using kept_refl; try done.
    + intros y Hy. split; cbn; try done. rewrite lookup_delete_ne; [done|]. by eapply not_eq_sym, not_other.
    + intros q. unfold refers. cbn. destruct (decide (q = x)) as [->|Hne]; [|by rewrite lookup_delete_ne].
      rewrite lookup_delete_eq, Hc. split; intros (R1&?&?); simplify_eq; set_solver.
Qed.

(** * Memory and callbacks *)

Lemma own_alloc m g x o : tg_inv m g → gh_own g !! x = Some o → x ∈ gm_alloc m.
Proof. intros [Hs _] Hx. apply (v_alloc _ _ Hs). by eexists. Qed.
Lemma own_not_root m g x i : tg_inv m g → gh_own g !! x = Some (Some i) → x ≠ root_group.
Proof. intros [Hs _] Hx ->. rewrite (v_root_own _ _ Hs) in Hx. done. Qed.
Lemma own_no_rcu m g x i : tg_inv m g → gh_own g !! x = Some (Some i) → gm_rcu m !! x = None.
Proof. intros [_ Hd] Hx. destruct (gm_rcu m !! x) as [[b t]|] eqn:Hr; [|done]. destruct (v_rcu _ _ Hd _ _ _ Hr) as (Ho&_). congruence. Qed.

(** A change of what fair.c has for a group of the thread. *)
Lemma ok_fair i m g x F U :
  let m' := m <| gm_fair := F |> in let g' := g <| gh_unreg := U |> in
  tg_inv m g → gh_own g !! x = Some (Some i) → (∀ y, y ≠ x → F !! y = gm_fair m !! y ∧ U !! y = gh_unreg g !! y) →
  (fair_usable x m' ∨ (x ∉ gh_tree g) ∧ ∀ j T t, gm_readers m !! j = Some T → gh_dead g !! x = Some t → t < T) →
  (∀ t, U !! x = Some t → t ≤ gm_clock m) →
  (∀ j T, gm_readers m !! j = Some T → leaf_visible T x m g → leaf_visible T x m' g') → ok_step i m g m' g'.
Proof.
  intros m' g' Hi Hx HF Hus Hu Hleaf. pose proof (own_alloc _ _ _ _ Hi Hx) as Hax. pose proof (own_no_rcu _ _ _ _ Hi Hx) as Hxr.
  assert (∀ y, y ≠ x → fair_usable y m → fair_usable y m') as Hy by (intros y Hne; unfold fair_usable; cbn; by rewrite (proj1 (HF y Hne))).
  destruct Hi as [Hs Hd]. split.
  - split; [by destruct Hs|]. destruct Hd. split; try done.
    + intros j T y t HT Hdy Ht. destruct (v_seen j T y t HT Hdy Ht) as (Hf&Hv&Hn). split_and!; [|done|done].
      destruct (decide (y = x)) as [->|]; [|by apply Hy]. destruct Hus as [?|[_ Hno]]; [done|]. specialize (Hno j T t HT Hdy). lia.
    + intros y Hty. destruct (decide (y = x)) as [->|]; [|by apply Hy, v_usable]. by destruct Hus as [?|[? _]].
    + intros y t. cbn. destruct (decide (y = x)) as [->|Hne]; [split; [done|by apply Hu]|]. rewrite (proj2 (HF y Hne)). by apply v_unreg.
    + intros y f. cbn. destruct (decide (y = x)) as [->|Hne]; [done|]. rewrite (proj1 (HF y Hne)). by apply v_fair.
    + intros y b t Hr. cbn in Hr. assert (y ≠ x) as Hne by congruence. specialize (v_rcu y b t Hr). unfold fair_usable in *. cbn.
      by rewrite (proj1 (HF y Hne)), (proj2 (HF y Hne)).
  - intros j Hj. split; cbn; auto using kept_refl; try done.
    + intros y Hyo. assert (y ≠ x) as Hne by (by eapply not_other). split; cbn; try done; by apply HF.
    + intros T y HT Hl. destruct (decide (y = x)) as [->|Hne]; [by eapply Hleaf|]. unfold leaf_visible in *. cbn.
      by rewrite (proj1 (HF y Hne)), (proj2 (HF y Hne)).
Qed.

Lemma ok_call_rcu i m g x b :
  tg_inv m g → gh_own g !! x = Some (Some i) → (x ∉ gh_tree g) → (x ∉ gh_list g) →
  (if b : bool then fair_usable x m ∧ gh_unreg g !! x = None ∧ is_Some (gh_dead g !! x)
   else gm_fair m !! x = Some FairUnregistered ∧ is_Some (gh_unreg g !! x)) →
  ok_step i m g (m <| gm_rcu := <[x := (b, gm_clock m)]> (gm_rcu m) |>) (g <| gh_own := <[x := None]> (gh_own g) |>).
Proof.
  intros Hi Hx Ht Hl Hb. pose proof (own_not_root _ _ _ _ Hi Hx) as Hxr. destruct Hi as [Hs Hd]. split.
  - split.
    + destruct Hs. split; cbn; try done.
      * intros y. rewrite v_alloc. destruct (decide (y = x)) as [->|Hne]; [rewrite lookup_insert_eq, Hx; by split; intros; eexists|by rewrite lookup_insert_ne].
      * by rewrite lookup_insert_ne by done.
      * intros y Hy Hr Hp. destruct (v_ref y Hy Hr Hp) as (j&R&?&?&?). exists j, R. rewrite lookup_insert_ne by (intros ->; done). done.
    + destruct Hd. split; cbn; try done.
      * intros y b1 t. destruct (decide (y = x)) as [->|Hne]; [|rewrite !lookup_insert_ne by done; apply v_rcu].
        rewrite !lookup_insert_eq. intros [= <- <-]. split_and!; try done. destruct b; [destruct Hb as (?&?&[t Hdx])|destruct Hb as [? [t Hux]]]; split_and!; try done.
        { exists t. split; [done|]. by apply (v_dead x t Hdx). }
        { exists t. split; [done|]. by apply (v_unreg x t Hux). }
      * intros y. destruct (decide (y = x)) as [->|Hne]; [intros _; right; rewrite lookup_insert_eq; by eexists|rewrite !lookup_insert_ne by done; apply v_pending].
  - intros j Hj. split; cbn; auto using kept_refl; try done.
    intros y. destruct (decide (y = x)) as [->|Hne]; [rewrite lookup_insert_eq, Hx; split; congruence|by rewrite lookup_insert_ne].
Qed.
Lemma ok_rcu_run i m g x b t :
  tg_inv m g → gm_rcu m !! x = Some (b, t) →
  ok_step i m g (m <| gm_rcu := delete x (gm_rcu m) |>) (g <| gh_own := <[x := Some i]> (gh_own g) |>).
Proof.
  intros [Hs Hd] Hx. destruct (v_rcu _ _ Hd _ _ _ Hx) as (Ho&Hr&Ht&_). split.
  - split.
    + destruct Hs. split; cbn; try done.
      * intros y. rewrite v_alloc. destruct (decide (y = x)) as [->|Hne]; [rewrite lookup_insert_eq, Ho; by split; intros; eexists|by rewrite lookup_insert_ne].
      * by rewrite lookup_insert_ne by done.
      * intros y Hy Hry Hp. destruct (v_ref y Hy Hry Hp) as (j&R&?&?&?). exists j, R. rewrite lookup_insert_ne by (intros ->; done). done.
    + destruct Hd. split; cbn; try done.
      * intros y b1 t1 [Hne Hy]%lookup_delete_Some. rewrite lookup_insert_ne by done. by apply v_rcu.
      * intros y. destruct (decide (y = x)) as [->|Hne]; [by rewrite lookup_insert_eq|]. rewrite lookup_insert_ne, lookup_delete_ne by done. apply v_pending.
  - intros j Hj. split; cbn; auto using kept_refl; try done.
    intros y. destruct (decide (y = x)) as [->|Hne]; [rewrite lookup_insert_eq, Ho; split; congruence|by rewrite lookup_insert_ne].
Qed.

Lemma clear_other x f n : container n ≠ x → clear_group x f n = f n.
Proof. intros. unfold clear_group. by rewrite decide_False. Qed.
Lemma ok_kmalloc i m g x :
  let m' := m <| gm_alloc := {[x]} ∪ gm_alloc m |> <| gm_next ::= clear_group x |> <| gm_prev ::= clear_group x |> <| gm_parent ::= λ f, fset f x 0 |> in
  let g' := g <| gh_own := <[x := Some i]> (gh_own g) |> in
  tg_inv m g → 0 < x → x ∉ gm_alloc m → ok_step i m g m' g' ∧ gm_fair m !! x = None ∧ gm_css m !! x = None ∧ gh_dead g !! x = None ∧ gh_unreg g !! x = None ∧
    (x ∉ gh_tree g) ∧ (x ∉ gh_list g).
Proof.
  intros m' g' [Hs Hd] Hpos Hx.
  assert (∀ y, y ∈ gm_alloc m → y ≠ x) as Hne by (intros y Hy ->; done).
  assert (x ∉ gh_tree g) as Hxt by (intros Hy; by apply Hx, (v_tree _ _ Hs)).
  assert (x ∉ gh_list g) as Hxl by (intros Hy; by apply Hx, (v_list _ _ Hs)).
  assert (gm_fair m !! x = None) as Hxf by (destruct (gm_fair m !! x) as [f|] eqn:Hf; [|done]; by destruct Hx; apply (v_fair _ _ Hd x f)).
  assert (gh_dead g !! x = None) as Hxd by (destruct (gh_dead g !! x) as [t|] eqn:Hf; [|done]; by destruct Hx; apply (v_dead _ _ Hd x t)).
  assert (gh_unreg g !! x = None) as Hxu by (destruct (gh_unreg g !! x) as [t|] eqn:Hf; [|done]; by destruct Hx; apply (v_unreg _ _ Hd x t)).
  assert (gm_css m !! x = None) as Hxc by (destruct (gm_css m !! x) as [R|] eqn:Hf; [|done]; by destruct Hxt; apply (v_css _ _ Hs x R)).
  assert (∀ y, y ∈ gm_alloc m → gm_parent m' y = gm_parent m y) as Hpar by (intros y Hy; cbn; rewrite fset_ne; [done|auto]).
  assert (∀ n, container n = 0 ∨ container n ∈ gm_alloc m → gm_next m' n = gm_next m n ∧ gm_prev m' n = gm_prev m n) as Hlk.
  { intros n Hn. cbn. assert (container n ≠ x) by (destruct Hn; [lia|auto]). by rewrite !clear_other. }
  split_and!; try done. split.
  - split.
    + destruct Hs. split; try done.
      * intros y. cbn. rewrite elem_of_union, elem_of_singleton, v_alloc. destruct (decide (y = x)) as [->|Hyx].
        { rewrite lookup_insert_eq. split; intros; [by eexists|by left]. }
        { rewrite lookup_insert_ne by done. tauto. }
      * intros y. cbn. rewrite elem_of_union, elem_of_singleton. intros [->|Hy]; [done|by apply v_pos].
      * intros y Hy. cbn. apply elem_of_union. right. by apply v_tree.
      * intros y Hy. cbn. apply elem_of_union. right. by apply v_list.
      * rewrite Hpar; [done|by apply v_tree].
      * cbn. rewrite lookup_insert_ne; [done|]. apply not_eq_sym. auto.
      * eapply ring_frame; [|exact v_top]. intros n [->|(y&->&Hy)%list_elem_of_fmap]; apply Hlk; [by left|right; rewrite container_list; by apply v_list].
      * intros p Hp. eapply ring_frame; [|by apply v_ring]. intros n [->|(y&->&Hy)%list_elem_of_fmap]; apply Hlk; right.
        { rewrite container_children. by apply v_tree. }
        { rewrite container_siblings. by apply v_tree, (v_child p). }
      * intros p y Hp. etrans; [exact (v_child p y Hp)|]. split; intros (Hy&?&?); (split_and!; [done|done|]).
        { rewrite Hpar; [done|by apply v_tree]. }
        { rewrite <-Hpar; [done|by apply v_tree]. }
      * intros l1 y l2 Hl Hr. rewrite Hpar; [by eapply v_order|]. apply v_tree. cbn in Hl. rewrite Hl. set_solver.
      * intros y Hy Hr. rewrite Hpar by (by apply v_tree). intros Hp. destruct (v_ref y Hy Hr Hp) as (j&R&?&?&?). exists j, R. cbn.
        rewrite lookup_insert_ne; [done|]. intros ->. done.
    + destruct Hd. split; try done.
      * intros y t Hy. destruct (v_dead y t Hy) as (?&?&?&?&?). split_and!; try done; [cbn; set_solver|].
        rewrite (proj1 (Hlk (children y) ltac:(right; by rewrite container_children))). done.
      * intros j T y t HT Hy Ht. destruct (v_dead y t Hy) as (Hya&_). destruct (v_seen j T y t HT Hy Ht) as (Hf&Hv&Hn).
        split; [done|]. unfold next_ok. rewrite Hpar by done.
        rewrite (proj1 (Hlk (siblings y) ltac:(right; by rewrite container_siblings))). done.
      * intros y t Hy. destruct (v_unreg y t Hy). split; [cbn; set_solver|done].
      * intros y f Hy. cbn. apply elem_of_union. right. by eapply v_fair.
      * intros y b t Hy. cbn in Hy |- *. destruct (v_rcu y b t Hy) as (Ho&Hrest). rewrite lookup_insert_ne; [done|]. intros ->.
        apply Hx, (v_alloc _ _ Hs). by eexists.
      * intros y. cbn. destruct (decide (y = x)) as [->|Hyx]; [by rewrite lookup_insert_eq|rewrite lookup_insert_ne by done; apply v_pending].
  - intros j Hj. assert (∀ y, gh_own g !! y = Some (Some j) → y ∈ gm_alloc m) as Hoa by (intros y Hy; apply (v_alloc _ _ Hs); by eexists).
    split; try done.
    + intros y. cbn. destruct (decide (y = x)) as [->|Hyx]; [|by rewrite lookup_insert_ne]. rewrite lookup_insert_eq. split; [congruence|].
      intros Hy. by destruct Hx; apply Hoa.
    + intros y Hy. split; try done; [by apply Hpar, Hoa|]. intros _. apply Hlk. right. rewrite container_children. auto.
    + by left.
    + intros T y HT Hv. split; [done|]. apply Hpar. by apply (visible_usable j T y m g).
Qed.
Lemma ok_kfree i m g x :
  tg_inv m g → gh_own g !! x = Some (Some i) → (x ∉ gh_tree g) → (x ∉ gh_list g) → gm_fair m !! x = None →
  (∀ j T t, gm_readers m !! j = Some T → gh_unreg g !! x = Some t → t < T) →
  ok_step i m g (m <| gm_alloc := gm_alloc m ∖ {[x]} |>)
    (g <| gh_own := delete x (gh_own g) |> <| gh_dead := delete x (gh_dead g) |> <| gh_unreg := delete x (gh_unreg g) |>).
Proof.
  intros Hi Hx Hxt Hxl Hxf Hxu. pose proof (own_not_root _ _ _ _ Hi Hx) as Hxr. pose proof (own_no_rcu _ _ _ _ Hi Hx) as Hxn.
  set (g' := g <| gh_own := _ |> <| gh_dead := _ |> <| gh_unreg := _ |>).
  assert (∀ j T y, gm_readers m !! j = Some T → visible T y g → visible T y g') as Hvis.
  { intros j T y HT Hv. assert (y ≠ x).
    { intros ->. destruct (visible_usable _ _ _ _ _ Hi HT Hv) as [_ [?|?]]; congruence. }
    destruct Hv as [?|(t&?&?)]; [by left|right]. exists t. cbn. by rewrite lookup_delete_ne. }
  destruct Hi as [Hs Hd]. split.
  - split.
    + destruct Hs. split; cbn; try done.
      * intros y. rewrite elem_of_difference, elem_of_singleton, v_alloc. destruct (decide (y = x)) as [->|Hne].
        { rewrite lookup_delete_eq. split; [tauto|by intros [? ?]]. }
        { rewrite lookup_delete_ne by done. tauto. }
      * intros y [? _]%elem_of_difference. by apply v_pos.
      * intros y Hy. apply elem_of_difference. split; [by apply v_tree|]. set_solver.
      * intros y Hy. apply elem_of_difference. split; [by apply v_list|]. set_solver.
      * by rewrite lookup_delete_ne.
      * intros y Hy Hr Hp. destruct (v_ref y Hy Hr Hp) as (j&R&?&?&?). exists j, R. rewrite lookup_delete_ne; [done|]. by intros ->.
    + destruct Hd. split; cbn; try done.
      * intros y t [Hne Hy]%lookup_delete_Some. destruct (v_dead y t Hy) as (?&?&?&?&?). split_and!; try done. set_solver.
      * intros j T y t HT [Hne Hy]%lookup_delete_Some Ht. destruct (v_seen j T y t HT Hy Ht) as (Hf&Hv&Hn). split_and!; [done|by eapply Hvis|].
        destruct Hn as [?|(z&?&?)]; [by left|right]. exists z. split; [done|by eapply Hvis].
      * intros y t [Hne Hy]%lookup_delete_Some. destruct (v_unreg y t Hy). split; [set_solver|done].
      * intros y f Hy. apply elem_of_difference. split; [by eapply v_fair|]. intros ->%elem_of_singleton. congruence.
      * intros y b t Hy. assert (y ≠ x) by congruence. rewrite !lookup_delete_ne by done. by apply v_rcu.
      * intros y [Hne Hy]%lookup_delete_Some. by apply v_pending.
  - intros j Hj. split; cbn; try done.
    + intros y. destruct (decide (y = x)) as [->|Hne]; [rewrite lookup_delete_eq, Hx; split; congruence|by rewrite lookup_delete_ne].
    + intros y Hy. assert (y ≠ x) by (by eapply not_other). split; cbn; try done; by rewrite lookup_delete_ne.
    + by left.
    + intros T y HT Hv. split; [by eapply Hvis|done].
    + intros T y HT [?|(t&Ht&?)]; [by left|]. right. exists t. cbn. rewrite lookup_delete_ne; [done|]. intros <-. specialize (Hxu j T t HT Ht). lia.
Qed.
End steps.
