(* ===== verification/TgLinks.v ===== *)
(** The changes of the list and the tree of task groups in the protocol of [TgLogic]. *)
From S2P Require Import Prelude Interleave TgLife TgLogic TgSteps.

Section links.
Implicit Types (m : tg_mem) (g : tg_ghost) (i j : nat) (x p : Z).
Local Abbreviation ok_step := (ok_step tgs).

(** * A group that is not in the tree yet *)

Lemma ok_write_parent i m g x p :
  tg_inv m g → gh_own g !! x = Some (Some i) → (x ∉ gh_tree g) → gh_dead g !! x = None →
  ok_step i m g (m <| gm_parent := fset (gm_parent m) x p |>) g.
Proof.
  intros Hi Hx Hxt Hxd. pose proof (own_not_root _ _ _ _ Hi Hx) as Hxr.
  assert (∀ y, y ∈ gh_tree g → fset (gm_parent m) x p y = gm_parent m y) as Hpar by (intros y Hy; rewrite fset_ne; [done|by intros ->]).
  destruct Hi as [Hs Hd]. split.
  - split.
    + destruct Hs. split; cbn; try done.
      * by rewrite Hpar.
      * intros q y Hq. rewrite (v_child q y Hq). split; intros (Hy&?&Hq'); (split_and!; [done|done|]); rewrite Hpar in *; done.
      * intros l1 y l2 Hl Hr. rewrite Hpar by (rewrite Hl; set_solver). by eapply v_order.
      * intros y Hy Hr. rewrite Hpar by done. by apply v_ref.
    + destruct Hd. split; cbn; try done. intros j T y t HT Hy Ht. unfold next_ok. cbn. rewrite fset_ne by (intros ->; congruence). by apply v_seen with j t.
  - intros j Hj. split; cbn; auto using kept_refl; try done.
    + intros y Hy. split; cbn; try done. rewrite fset_ne; [done|]. by eapply not_other.
    + intros T y HT Hv. split; [done|]. rewrite fset_ne; [done|]. intros ->. destruct Hv as [?|(t&?&?)]; [done|congruence].
Qed.
Lemma ok_init_children i m g x :
  tg_inv m g → gh_own g !! x = Some (Some i) → (x ∉ gh_tree g) → gh_dead g !! x = None →
  ok_step i m g (m <| gm_next := fset (gm_next m) (children x) (children x) |> <| gm_prev := fset (gm_prev m) (children x) (children x) |>) g.
Proof.
  intros Hi Hx Hxt Hxd. set (m' := m <| gm_next := _ |> <| gm_prev := _ |>).
  assert (∀ n, n ≠ children x → gm_next m' n = gm_next m n ∧ gm_prev m' n = gm_prev m n) as Hlk by (intros n Hn; cbn; by rewrite !fset_ne).
  assert (∀ y, y ≠ x → children y ≠ children x) as Hch by (intros; nodes). assert (∀ y, siblings y ≠ children x) as Hsi by (intros; nodes).
  destruct Hi as [Hs Hd]. split.
  - split.
    + destruct Hs. split; try done.
      * eapply ring_frame; [|exact v_top]. intros n [->|(y&->&Hy)%list_elem_of_fmap]; apply Hlk; [|nodes].
        assert (0 < x); [|nodes]. apply v_pos, v_alloc. by eexists.
      * intros p Hp. eapply ring_frame; [|by apply v_ring]. intros n [->|(y&->&Hy)%list_elem_of_fmap]; apply Hlk; [|auto]. apply Hch. by intros ->.
    + destruct Hd. split; try done.
      * intros y t Hy. rewrite (proj1 (Hlk (children y) ltac:(apply Hch; congruence))). by apply v_dead.
      * intros j T y t HT Hy Ht. unfold next_ok. rewrite (proj1 (Hlk (siblings y) (Hsi y))). by apply v_seen with j t.
  - intros j Hj. split; auto using kept_refl; try done. intros y Hy. split; try done. intros _. apply Hlk, Hch. by eapply not_other.
Qed.

(** * The list of groups *)

(** The rings of children do not share nodes with it. *)
Lemma list_step i m g nx pv L :
  let m' := m <| gm_next := nx |> <| gm_prev := pv |> in let g' := g <| gh_list := L |> in
  tg_inv m g → gm_lock m = Some i → (∀ y, nx (siblings y) = gm_next m (siblings y) ∧ pv (siblings y) = gm_prev m (siblings y)) →
  (∀ y, 0 < y → nx (children y) = gm_next m (children y) ∧ pv (children y) = gm_prev m (children y)) →
  ring nx pv task_groups (list_ <$> L) → NoDup L → (∀ y, y ∈ L → y ∈ gm_alloc m) → (∀ y, gh_own g !! y ≠ Some (Some i) → y ∈ L ↔ y ∈ gh_list g) →
  ok_step i m g m' g'.
Proof.
  intros m' g' [Hs Hd] Hl Hsi Hch Hring Hnd Hal Hown. split.
  - split.
    + destruct Hs. split; try done.
      * intros p Hp. eapply ring_frame; [|by apply v_ring]. intros n [->|(y&->&Hy)%list_elem_of_fmap]; [apply Hch, v_pos, v_tree, Hp|apply Hsi].
      * cbn. congruence.
    + destruct Hd. split; try done.
      * intros y t Hy. destruct (v_dead y t Hy) as (?&?&?&?&?). split_and!; try done. cbn. rewrite (proj1 (Hch y (v_pos _ _ Hs _ ltac:(done)))). done.
      * intros j T y t HT Hy Ht. unfold next_ok. cbn. rewrite (proj1 (Hsi y)). by apply v_seen with j t.
      * intros y b t Hy. destruct (v_rcu y b t Hy) as (Ho&?&?&Hnl&?&?). split_and!; try done. cbn. rewrite Hown; [done|]. congruence.
  - intros j Hj. split; auto using kept_refl; try done.
    + intros y Hy. split; try done; [apply Hown; congruence|]. intros _. apply Hch, (v_pos _ _ Hs), (v_alloc _ _ Hs). by eexists.
    + congruence.
Qed.
Lemma list_ring_next m g : shape m g → gm_next m task_groups = task_groups ∨ ∃ y, gm_next m task_groups = list_ y ∧ y ∈ gh_list g.
Proof.
  intros Hs. destruct (chain_next _ _ _ _ _ (v_top _ _ Hs)) as [?|(y&?&?)%list_elem_of_fmap]; [by left|right; eauto].
Qed.
Lemma list_nodes_nodup m g : shape m g → NoDup (task_groups :: (list_ <$> gh_list g)).
Proof.
  intros Hs. apply NoDup_cons. split; [|apply NoDup_fmap_2; [apply _|apply Hs]]. intros (y&?&Hy)%list_elem_of_fmap.
  apply (v_list _ _ Hs), (v_pos _ _ Hs) in Hy. nodes.
Qed.
Lemma ok_list_add i m g x :
  tg_inv m g → gm_lock m = Some i → gh_own g !! x = Some (Some i) → (x ∉ gh_list g) →
  ok_step i m g (list_add_rcu (list_ x) task_groups m) (g <| gh_list := x :: gh_list g |>).
Proof.
  intros Hi Hl Hx Hxl. pose proof (own_alloc _ _ _ _ Hi Hx) as Hxa. pose proof (v_shape _ _ Hi) as Hs. pose proof (v_pos _ _ Hs _ Hxa) as Hpos.
  pose proof (list_ring_next _ _ Hs) as Hn. apply list_step; [done|done|..].
  - intros y. cbn. rewrite !fset_ne; [done|nodes|destruct Hn as [->|(z&->&_)]; nodes|nodes|nodes].
  - intros y Hy. cbn. rewrite !fset_ne; [done|nodes|destruct Hn as [->|(z&->&_)]; nodes|nodes|nodes].
  - cbn. apply ring_add; [by apply list_nodes_nodup with m| |apply Hs]. rewrite not_elem_of_cons. split; [nodes|].
    intros (y&?%(inj list_)&?)%list_elem_of_fmap. by subst.
  - apply NoDup_cons. split; [done|apply Hs].
  - intros y [->|Hy]%elem_of_cons; [done|by apply (v_list _ _ Hs)].
  - intros y Hy. rewrite elem_of_cons. split; [intros [->|?]; done|by right].
Qed.
Lemma ok_list_del i m g x :
  tg_inv m g → gm_lock m = Some i → gh_own g !! x = Some (Some i) → x ∈ gh_list g →
  ok_step i m g (list_del_rcu (list_ x) m) (g <| gh_list := without x (gh_list g) |>) ∧
  node_alloc (gm_next m (list_ x)) m ∧ node_alloc (gm_prev m (list_ x)) m.
Proof.
  intros Hi Hl Hx Hxl. pose proof (v_shape _ _ Hi) as Hs. pose proof (list_nodes_nodup _ _ Hs) as Hnd.
  destruct (chain_in_next _ _ _ _ _ (list_ x) (v_top _ _ Hs)) as [Hn|(yn&Hn&Hyn)%list_elem_of_fmap]; [by apply list_elem_of_fmap_2| |];
  destruct (chain_in_prev _ _ _ _ _ (list_ x) (v_top _ _ Hs)) as [Hp|(yp&Hp&Hyp)%list_elem_of_fmap]; try (by apply list_elem_of_fmap_2).
  all: split; [|unfold node_alloc; rewrite Hn, Hp, ?container_list; split; [|]; first [by left|right; by apply (v_list _ _ Hs)]].
  all: apply list_step; [done|done|..];
    [intros y; cbn; rewrite Hn, Hp, !fset_ne by nodes; done
    |intros y Hy; cbn; rewrite Hn, Hp, !fset_ne by nodes; done
    |
    |apply without_nodup, Hs
    |intros y [Hy _]%elem_of_without; by apply (v_list _ _ Hs)
    |intros y Hy; rewrite elem_of_without; split; [tauto|intros; split; [done|by intros ->]]].
  all: pose proof (v_list_nodup _ _ Hs) as Hndl; pose proof (v_top _ _ Hs) as Ht; cbn;
    apply list_elem_of_split in Hxl as (l1&l2&Hl12); rewrite Hl12 in Hnd, Hndl, Ht |- *; rewrite without_split by done;
    rewrite fmap_app, fmap_cons in Hnd, Ht; rewrite fmap_app; by apply ring_del.
Qed.

(** * The tree *)

Lemma child_nodes_nodup m g p : shape m g → p ∈ gh_tree g → NoDup (children p :: (siblings <$> gh_cs g p)).
Proof.
  intros Hs Hp. apply NoDup_cons. split; [intros (y&?&Hy)%list_elem_of_fmap; nodes|]. apply NoDup_fmap_2; [apply _|by apply (v_cs _ _ Hs)].
Qed.
Lemma first_child m g p : shape m g → p ∈ gh_tree g → gm_next m (children p) = children p ∨ ∃ y, gm_next m (children p) = siblings y ∧ y ∈ gh_cs g p.
Proof.
  intros Hs Hp. destruct (chain_next _ _ _ _ _ (v_ring _ _ Hs p Hp)) as [?|(y&?&?)%list_elem_of_fmap]; [by left|right; eauto].
Qed.
Lemma tree_not_own_child m g x : shape m g → (x ∉ gh_tree g) → ∀ y, y ∈ gh_tree g → y ≠ root_group → gm_parent m y ≠ x.
Proof. intros Hs Hx y Hy Hr <-. by apply Hx, tree_parent. Qed.

(** ** A new group *)

Section tree_add.
Context (i : nat) (m : tg_mem) (g : tg_ghost) (x p : Z).
Let m' := list_add_rcu (siblings x) (children p) m.
Let g' := g <| gh_tree := x :: gh_tree g |> <| gh_cs := fset (fset (gh_cs g) x []) p (x :: gh_cs g p) |>.
Context (Hi : tg_inv m g) (Hl : gm_lock m = Some i) (Hx : gh_own g !! x = Some (Some i)) (Hxt : x ∉ gh_tree g).
Context (Hxd : gh_dead g !! x = None) (Hxf : fair_usable x m) (Hxp : gm_parent m x = p) (Hp : p ∈ gh_tree g).
Context (Href : p ≠ root_group → refers i p m) (Hnx : gm_next m (children x) = children x) (Hpx : gm_prev m (children x) = children x).
Let Hs : shape m g := v_shape _ _ Hi.

Lemma add_ne : p ≠ x.
Proof. by intros ->. Qed.
Lemma add_cs_other q : q ∈ gh_tree g → q ≠ p → gh_cs g' q = gh_cs g q.
Proof. intros Hq Hne. cbn. rewrite !fset_ne; [done|by intros ->|done]. Qed.
Lemma add_cs_new : gh_cs g' x = [].
Proof. cbn. pose proof add_ne. by rewrite fset_ne, fset_eq. Qed.
Lemma add_cs_parent : gh_cs g' p = x :: gh_cs g p.
Proof. cbn. by rewrite fset_eq. Qed.
Lemma add_next n : n ≠ siblings x → n ≠ children p → gm_next m' n = gm_next m n.
Proof. intros ? ?. cbn. by rewrite !fset_ne. Qed.
Lemma add_prev n : n ≠ siblings x → n ≠ gm_next m (children p) → gm_prev m' n = gm_prev m n.
Proof. intros ? ?. cbn. by rewrite !fset_ne. Qed.
Lemma add_children q : q ≠ p → gm_next m' (children q) = gm_next m (children q) ∧ gm_prev m' (children q) = gm_prev m (children q).
Proof.
  intros Hq. split; [apply add_next; nodes|]. apply add_prev; [nodes|]. destruct (first_child _ _ _ Hs Hp) as [->|(y&->&_)]; nodes.
Qed.
Lemma add_ring q : q ∈ gh_tree g' → ring (gm_next m') (gm_prev m') (children q) (siblings <$> gh_cs g' q).
Proof.
  intros [->|Hq]%elem_of_cons.
  { rewrite add_cs_new. destruct (add_children x) as [E1 E2]; [apply not_eq_sym, add_ne|]. split; congruence. }
  destruct (decide (q = p)) as [->|Hne].
  { rewrite add_cs_parent, fmap_cons. apply ring_add; [by apply child_nodes_nodup with m| |by apply (v_ring _ _ Hs)].
    rewrite not_elem_of_cons. split; [nodes|]. intros (y&<-%(inj siblings)&Hy)%list_elem_of_fmap. by apply (v_child _ _ Hs) in Hy as (?&_). }
  rewrite (add_cs_other q Hq Hne). eapply ring_frame; [|by apply (v_ring _ _ Hs)]. intros n [->|(y&->&Hy)%list_elem_of_fmap]; [by apply add_children|].
  apply (v_child _ _ Hs) in Hy as (Hyt&_&Hyp); [|done]. assert (y ≠ x) by (by intros ->). split; [apply add_next; nodes|]. apply add_prev; [nodes|].
  destruct (first_child _ _ _ Hs Hp) as [->|(z&->&Hz)]; [nodes|]. intros <-%(inj siblings). apply (v_child _ _ Hs) in Hz as (_&_&?); [congruence|done].
Qed.
Lemma add_child q y : q ∈ gh_tree g' → y ∈ gh_cs g' q ↔ y ∈ gh_tree g' ∧ y ≠ root_group ∧ gm_parent m y = q.
Proof.
  change (gh_tree g') with (x :: gh_tree g). rewrite !elem_of_cons. intros Hq.
  assert (y = x ∨ y ∈ gh_tree g → y ≠ root_group → gm_parent m y ≠ x) as Hnx'.
  { pose proof add_ne. intros [->|Hy] Hr; [congruence|]. by eapply tree_not_own_child. }
  destruct Hq as [->|Hq].
  { rewrite add_cs_new. split; [by intros ?%not_elem_of_nil|]. intros (?&?&?). by destruct Hnx'. }
  destruct (decide (q = p)) as [->|Hne].
  - rewrite add_cs_parent, elem_of_cons, (v_child _ _ Hs p y Hp). pose proof (own_not_root _ _ _ _ Hi Hx). naive_solver.
  - rewrite (add_cs_other q Hq Hne), (v_child _ _ Hs q y Hq). split; [naive_solver|]. intros ([->|?]&?&?); [congruence|done].
Qed.
Lemma add_shape : shape m' g'.
Proof.
  pose proof (own_alloc _ _ _ _ Hi Hx) as Hxa. pose proof add_ring as Hr1. pose proof add_child as Hc1.
  pose proof (first_child _ _ _ Hs Hp) as Hfc. split; try (by apply Hs); try done.
  - intros y [->|Hy]%elem_of_cons; [done|by apply (v_tree _ _ Hs)].
  - apply NoDup_cons. split; [done|apply Hs].
  - right. apply Hs.
  - eapply ring_frame; [|apply (v_top _ _ Hs)]. assert (0 < p) by (by apply (v_pos _ _ Hs), (v_tree _ _ Hs)).
    intros n [->|(y&->&Hy)%list_elem_of_fmap]; (split; [apply add_next; nodes|apply add_prev; [nodes|destruct Hfc as [->|(z&->&_)]; nodes]]).
  - intros q [->|Hq]%elem_of_cons; [rewrite add_cs_new; by constructor|]. destruct (decide (q = p)) as [->|Hne].
    + rewrite add_cs_parent. apply NoDup_cons. split; [by intros (?&_)%(v_child _ _ Hs)|by apply (v_cs _ _ Hs)].
    + rewrite (add_cs_other q Hq Hne). by apply (v_cs _ _ Hs).
  - intros [|z l1] y l2 Hl12 Hr; cbn in Hl12; injection Hl12 as -> Hl12; [subst; done|by eapply (v_order _ _ Hs)].
  - cbn. congruence.
  - intros q R Hq. right. by eapply (v_css _ _ Hs).
  - intros y [->|Hy]%elem_of_cons Hr; [|by apply (v_ref _ _ Hs)]. change (gm_parent m' x) with (gm_parent m x). rewrite Hxp. intros Hpr.
    destruct (Href Hpr) as (R&?&?). by exists i, R.
Qed.
Lemma add_deferred : deferred m' g'.
Proof.
  assert (∀ T z, visible T z g → visible T z g') as Hvis by (intros T z [?|?]; [left; by right|by right]).
  destruct (v_deferred _ _ Hi). split; try done.
  - intros y t Hy. cbn in Hy. destruct (v_dead y t Hy) as (?&?&?&?&?). split_and!; try done; [apply not_elem_of_cons; split; [congruence|done]|].
    rewrite (proj1 (add_children y ltac:(by intros ->))). done.
  - intros j T y t HT Hy Ht. cbn in HT, Hy. destruct (v_seen j T y t HT Hy Ht) as (Hf&Hv&Hn). destruct (v_dead y t Hy) as (_&Hyt&_).
    split_and!; [done|by apply Hvis|]. unfold next_ok. rewrite add_next by (try nodes; intros ->%(inj siblings); congruence).
    destruct Hn as [?|(z&?&?)]; [by left|right; eauto].
  - intros y [->|Hy]%elem_of_cons; [done|by apply v_usable].
  - intros y b t Hy. cbn in Hy. destruct (v_rcu y b t Hy) as (Ho&?&?&?&?&?). split_and!; try done. apply not_elem_of_cons. split; [congruence|done].
Qed.
Lemma ok_tree_add : ok_step i m g m' g'.
Proof.
  split; [split; [exact add_shape|exact add_deferred]|]. intros j Hj. split; try done.
  - intros y Hy. assert (y ≠ x) by (by eapply not_other). split; try done; [cbn; rewrite elem_of_cons; naive_solver|].
    intros Hyt. apply add_children. by intros ->.
  - congruence.
  - by left.
  - intros T y HT [?|?]; (split; [|done]); [left; by right|by right].
Qed.
End tree_add.

(** ** A group that goes *)

Section tree_del.
Context (i : nat) (m : tg_mem) (g : tg_ghost) (x p : Z).
Let m' := list_del_rcu (siblings x) m.
Let g' := g <| gh_tree := without x (gh_tree g) |> <| gh_cs := fset (gh_cs g) p (without x (gh_cs g p)) |> <| gh_dead := <[x := gm_clock m]> (gh_dead g) |>.
Context (Hi : tg_inv m g) (Hl : gm_lock m = Some i) (Hx : gh_own g !! x = Some (Some i)) (Hxt : x ∈ gh_tree g) (Hxl : x ∉ gh_list g).
Context (Hxp : gm_parent m x = p) (Hcss : gm_css m !! x = None).
Let Hs : shape m g := v_shape _ _ Hi.

Lemma del_parent : p ∈ gh_tree g ∧ p ≠ x ∧ x ∈ gh_cs g p.
Proof.
  pose proof (own_not_root _ _ _ _ Hi Hx) as Hr. assert (p ∈ gh_tree g) as Hp by (rewrite <-Hxp; by apply tree_parent).
  split_and!; [done| |by apply (v_child _ _ Hs)]. intros Hpx. destruct (list_elem_of_split _ _ Hxt) as (l1&l2&Hl12).
  pose proof (v_order _ _ Hs _ _ _ Hl12 Hr) as Ho. rewrite Hxp, Hpx in Ho. pose proof (v_tree_nodup _ _ Hs) as Hnd. rewrite Hl12 in Hnd.
  apply NoDup_app in Hnd as (_&_&Hnd). by apply NoDup_cons in Hnd as [? _].
Qed.
(** It has no children: they would hold a reference. *)
Lemma del_no_child y : y ∈ gh_tree g → y ≠ root_group → gm_parent m y ≠ x.
Proof.
  intros Hy Hr Hyx. destruct (v_ref _ _ Hs y Hy Hr) as (j&R&_&Hc&_); [|rewrite Hyx in Hc; congruence]. rewrite Hyx. by apply own_not_root with m g i.
Qed.
Lemma del_childless : gh_cs g x = [].
Proof.
  destruct (gh_cs g x) as [|y l] eqn:Hc; [done|]. assert (y ∈ gh_cs g x) as Hy by (rewrite Hc; left).
  apply (v_child _ _ Hs) in Hy as (?&?&?); [|done]. by destruct (del_no_child y).
Qed.
(** The neighbours of the node. *)
Definition near (n : Z) : Prop := n = children p ∨ ∃ y, n = siblings y ∧ y ∈ gh_cs g p.
Lemma del_near : near (gm_next m (siblings x)) ∧ near (gm_prev m (siblings x)).
Proof.
  destruct del_parent as (Hp&_&Hc). pose proof (v_ring _ _ Hs p Hp) as Hr. apply (list_elem_of_fmap_2 siblings) in Hc. split.
  - destruct (chain_in_next _ _ _ _ _ _ Hr Hc) as [?|(y&?&?)%list_elem_of_fmap]; [by left|right; eauto].
  - destruct (chain_in_prev _ _ _ _ _ _ Hr Hc) as [?|(y&?&?)%list_elem_of_fmap]; [by left|right; eauto].
Qed.
Lemma del_far n : ¬ near n → gm_next m' n = gm_next m n ∧ gm_prev m' n = gm_prev m n.
Proof. destruct del_near as [Hn Hp]. intros Hf. cbn. rewrite !fset_ne; [done|by intros ->|by intros ->]. Qed.
Lemma far_children q : q ≠ p → ¬ near (children q).
Proof. intros Hq [?|(y&?&_)]; nodes. Qed.
Lemma far_siblings y : y ∉ gh_cs g p → ¬ near (siblings y).
Proof. intros Hy [?|(z&->%(inj siblings)&Hz)]; [nodes|done]. Qed.
Lemma del_tree y : y ∈ gh_tree g' ↔ y ∈ gh_tree g ∧ y ≠ x.
Proof. apply elem_of_without. Qed.
Lemma del_cs q : gh_cs g' q = if decide (q = p) then without x (gh_cs g p) else gh_cs g q.
Proof. done. Qed.
Lemma del_ring q : q ∈ gh_tree g' → ring (gm_next m') (gm_prev m') (children q) (siblings <$> gh_cs g' q).
Proof.
  destruct del_parent as (Hp&Hpx&Hc). rewrite del_tree, del_cs. intros [Hq Hqx]. destruct (decide (q = p)) as [->|Hne].
  - pose proof (child_nodes_nodup _ _ _ Hs Hp) as Hnd. pose proof (v_ring _ _ Hs p Hp) as Hr. pose proof (v_cs _ _ Hs p Hp) as Hn.
    apply list_elem_of_split in Hc as (l1&l2&Hl12). rewrite Hl12 in Hnd, Hr, Hn |- *. rewrite without_split by done.
    rewrite fmap_app, fmap_cons in Hnd, Hr. rewrite fmap_app. by apply ring_del.
  - eapply ring_frame; [|by apply (v_ring _ _ Hs)]. intros n [->|(y&->&Hy)%list_elem_of_fmap]; apply del_far; [by apply far_children|].
    apply far_siblings. rewrite (v_child _ _ Hs) by done. apply (v_child _ _ Hs) in Hy as (_&_&?); [|done]. naive_solver.
Qed.
Lemma del_order l1 y l2 : gh_tree g' = l1 ++ y :: l2 → y ≠ root_group → gm_parent m y ∈ l2.
Proof.
  intros (a&b&Hab&<-)%without_before Hr. apply elem_of_without. split; [by eapply (v_order _ _ Hs)|]. apply del_no_child; [|done]. rewrite Hab. set_solver.
Qed.
Lemma del_shape : shape m' g'.
Proof.
  pose proof del_ring as Hr1. pose proof del_order as Ho1. pose proof (own_not_root _ _ _ _ Hi Hx) as Hxr. destruct del_parent as (Hp&Hpx&Hc).
  split; try (by apply Hs); try done.
  - intros y [Hy _]%del_tree. by apply (v_tree _ _ Hs).
  - apply without_nodup, Hs.
  - apply del_tree. split; [apply Hs|done].
  - eapply ring_frame; [|apply (v_top _ _ Hs)]. assert (0 < p) by (by apply (v_pos _ _ Hs), (v_tree _ _ Hs)).
    intros n [->|(y&->&Hy)%list_elem_of_fmap]; apply del_far; intros [?|(z&?&_)]; nodes.
  - intros q [Hq _]%del_tree. rewrite del_cs. destruct (decide _); [apply without_nodup|]; by apply (v_cs _ _ Hs).
  - intros q y [Hq Hqx]%del_tree. rewrite del_tree, del_cs. change (gm_parent m' y) with (gm_parent m y). destruct (decide (q = p)) as [->|Hne].
    + rewrite elem_of_without, (v_child _ _ Hs) by done. tauto.
    + rewrite (v_child _ _ Hs) by done. split; [|tauto]. intros (?&?&?). split_and!; try done. intros ->. congruence.
  - cbn. congruence.
  - intros q R Hq. apply del_tree. split; [by eapply (v_css _ _ Hs)|]. intros ->. cbn in Hq. congruence.
  - intros y [Hy _]%del_tree. by apply (v_ref _ _ Hs).
Qed.
Lemma del_visible j T y : gm_readers m !! j = Some T → visible T y g → visible T y g'.
Proof.
  intros HT Hv. destruct (decide (y = x)) as [->|Hne].
  - right. exists (gm_clock m). cbn. rewrite lookup_insert_eq. split; [done|]. by eapply (v_clock _ _ (v_deferred _ _ Hi)).
  - destruct Hv as [?|(t&?&?)]; [left; by apply del_tree|right]. exists t. cbn. by rewrite lookup_insert_ne.
Qed.
Lemma del_next_ok j T y : gm_readers m !! j = Some T → next_ok T y m g → gm_next m' (siblings y) = gm_next m (siblings y) → next_ok T y m' g'.
Proof. intros HT [?|(z&?&?)] He; [left; by rewrite He|right]. exists z. rewrite He. split; [done|by eapply del_visible]. Qed.
Lemma del_deferred : deferred m' g'.
Proof.
  destruct del_parent as (Hp&Hpx&Hc). pose proof (own_not_root _ _ _ _ Hi Hx) as Hxr.
  destruct (v_deferred _ _ Hi) as [Hdead Hseen Husable Hunreg Hfair Hclock Hrcu Hpend]. split; try done.
  - intros y t. cbn. rewrite elem_of_without. destruct (decide (y = x)) as [->|Hne].
    + rewrite lookup_insert_eq. intros [= <-]. split_and!; [by apply (v_tree _ _ Hs)|tauto|done|done|].
      change (gm_next m' (children x) = children x). rewrite (proj1 (del_far _ (far_children x (not_eq_sym Hpx)))).
      pose proof (v_ring _ _ Hs x Hxt) as Hr. rewrite del_childless in Hr. apply Hr.
    + rewrite lookup_insert_ne by done. intros Hy. destruct (Hdead y t Hy) as (?&?&?&?&?). split_and!; try done; [tauto|].
      change (gm_next m' (children y) = children y). rewrite (proj1 (del_far _ (far_children y ltac:(by intros ->)))). done.
  - intros j T y t HT. cbn in HT. change (gm_parent m' y) with (gm_parent m y). cbn [gh_dead]. destruct (decide (y = x)) as [->|Hne].
    + intros _ _. split; [by apply Husable|]. split; [left; apply del_tree; by rewrite Hxp|]. eapply del_next_ok; [done|by apply tree_next|].
      cbn. unfold fset. destruct (decide _) as [He|]; [|done]. done.
    + intros Hy Ht. cbn in Hy. rewrite lookup_insert_ne in Hy by done. destruct (Hseen j T y t HT Hy Ht) as (Hf&Hv&Hn).
      destruct (Hdead y t Hy) as (_&Hyt&_). split_and!; [done|by eapply del_visible|]. eapply del_next_ok; [done|done|].
      apply del_far, far_siblings. by intros (?&_)%(v_child _ _ Hs).
  - intros y [Hy _]%del_tree. by apply Husable.
  - intros y b t Hy. cbn in Hy. destruct (Hrcu y b t Hy) as (Ho&?&?&?&?&Hb). assert (y ≠ x) by (intros ->; congruence).
    cbn. rewrite elem_of_without, lookup_insert_ne by done. split_and!; try done. tauto.
Qed.
Lemma ok_tree_del : ok_step i m g m' g' ∧ node_alloc (gm_next m (siblings x)) m ∧ node_alloc (gm_prev m (siblings x)) m.
Proof.
  destruct del_parent as (Hp&Hpx&Hc). assert (∀ n, near n → node_alloc n m) as Hna.
  { intros n [->|(y&->&Hy)]; right; rewrite ?container_children, ?container_siblings; apply (v_tree _ _ Hs); [done|]. by apply (v_child _ _ Hs) in Hy as (?&_). }
  split; [|destruct del_near; auto]. split; [split; [exact del_shape|exact del_deferred]|]. intros j Hj. split; try done.
  - intros y Hy. assert (y ≠ x) by (by eapply not_other). split; try done; [rewrite del_tree; tauto|cbn; by rewrite lookup_insert_ne|].
    intros Hyt. apply del_far, far_children. by intros ->.
  - congruence.
  - by left.
  - intros T y HT Hv. split; [by eapply del_visible|done].
Qed.
End tree_del.
End links.
