(* ===== verification/TgOps.v ===== *)
(** The functions on task groups, one access after the other, in the protocol of [TgLogic]. *)
From S2P Require Import Prelude Interleave TgLife TgLogic TgSteps TgLinks.

Section ops.
Context (i : nat).
Implicit Types (m : tg_mem) (g : tg_ghost) (x p : Z).
Local Abbreviation assn := (@assn tg_mem tg_ghost).
Local Abbreviation ok_step := (ok_step tgs).
Local Abbreviation stable := (stable tgs).
Local Abbreviation rg := (rg tgs).

(** The thread has a group, besides what is said of the lock, its reference and its section. *)
Local Abbreviation own x d l r := (base i (St (Some (x, d)) l r None)).
Local Abbreviation none l r := (base i (St None l r None)).

Hint Resolve ex_stable tg_base_stable elapsed_stable : tg.

Lemma base_own x d l r T m g : base i (St (Some (x, d)) l r T) m g → gh_own g !! x = Some (Some i) ∧ describes x d m g.
Proof. intros Hb. split; [apply (b_own _ _ _ _ Hb); eauto|by apply (b_desc _ _ _ _ Hb)]. Qed.

(** A step on the group of the thread: only what it knows of the group changes. *)
Lemma base_change x d d' l r T m g m' g' :
  base i (St (Some (x, d)) l r T) m g → (∀ y, gh_own g' !! y = gh_own g !! y) → gm_lock m' = gm_lock m → (∀ p, refers i p m' ↔ refers i p m) →
  gm_readers m' = gm_readers m → describes x d' m' g' → base i (St (Some (x, d')) l r T) m' g'.
Proof.
  intros Hb Ho Hl Hr HT Hd. destruct Hb. split; cbn in *.
  - intros y. rewrite Ho, b_own. split; intros [? [=]]; subst; eauto.
  - intros y d1 [= <- <-]. done.
  - by rewrite Hl.
  - intros p. by rewrite Hr.
  - by rewrite HT.
Qed.
Lemma base_drop x d l r T m g m' g' :
  base i (St (Some (x, d)) l r T) m g → (∀ y, gh_own g' !! y = Some (Some i) ↔ gh_own g !! y = Some (Some i) ∧ y ≠ x) →
  gm_lock m' = gm_lock m → (∀ p, refers i p m' ↔ refers i p m) → gm_readers m' = gm_readers m → base i (St None l r T) m' g'.
Proof.
  intros Hb Ho Hl Hr HT. destruct Hb. split; cbn in *; try done.
  - intros y. rewrite Ho, b_own. split; [intros [[d1 [= <- <-]] ?]; done|by intros [? ?]].
  - by rewrite Hl.
  - intros p. by rewrite Hr.
  - by rewrite HT.
Qed.
Lemma base_take x d l r T m g m' g' :
  base i (St None l r T) m g → (∀ y, gh_own g' !! y = Some (Some i) ↔ gh_own g !! y = Some (Some i) ∨ y = x) →
  gm_lock m' = gm_lock m → (∀ p, refers i p m' ↔ refers i p m) → gm_readers m' = gm_readers m → describes x d m' g' →
  base i (St (Some (x, d)) l r T) m' g'.
Proof.
  intros Hb Ho Hl Hr HT Hd. destruct Hb. split; cbn in *.
  - intros y. rewrite Ho, b_own. split; [intros [[d1 ?]| ->]; [done|eauto]|]. intros [d1 [= -> ->]]. by right.
  - intros y d1 [= <- <-]. done.
  - by rewrite Hl.
  - intros p. by rewrite Hr.
  - by rewrite HT.
Qed.

(** A step that leaves the group as it is. *)
Lemma base_keep st st' m g m' :
  base i st m g → t_own st' = t_own st → (∀ y, kept y m g m' g) → (gm_lock m' = Some i ↔ t_lock st' = true) →
  (∀ p, refers i p m' ↔ t_ref st' = Some p) → gm_readers m' !! i = t_reader st' → base i st' m' g.
Proof.
  intros Hb Ho Hk Hl Hr HT. destruct Hb. split; [by rewrite Ho| |done..]. rewrite Ho. intros y d Hy. eapply describes_kept; [apply Hk|by apply b_desc].
Qed.

(** * Memory *)

Definition new_desc : desc :=
  {| d_list := false; d_tree := false; d_css := false; d_dead := None; d_unreg := None; d_fair := None; d_parent := 0; d_init := false |}.
Lemma kmalloc_ok x l r : rg i (none l r) (do_ (Kmalloc x)) (λ _, own x new_desc l r).
Proof.
  apply (rg_do tgs); [eauto with tg|]. intros m g Hi Hb. split; [done|]. intros ret m' Hx. cbn in Hx.
  destruct (bool_decide_reflect (0 < x ∧ x ∉ gm_alloc m)) as [[Hp Ha]|]; [|done]. injection Hx as <- <-.
  destruct (ok_kmalloc i m g x Hi Hp Ha) as (Hok&Hf&Hc&Hd&Hu&Ht&Hl). eexists. split; [exact Hok|].
  assert (gh_own g !! x = None) as Hno.
  { destruct (gh_own g !! x) eqn:He; [|done]. destruct Ha. apply (v_alloc _ _ (v_shape _ _ Hi)). by eexists. }
  eapply base_take; [exact Hb| |done|done|done|].
  - intros y. cbn. destruct (decide (y = x)) as [->|Hne]; [rewrite lookup_insert_eq; naive_solver|rewrite lookup_insert_ne by done; naive_solver].
  - split; cbn; [by split|by split|rewrite Hc; by split; [intros [? ?]|]|done|done|done|by rewrite fset_eq|done].
Qed.
Lemma use_ok x (P : assn) : stable i P → (∀ m g, tg_inv m g → P m g → x ∈ gm_alloc m) → rg i P (do_ (Use x)) (λ _, P).
Proof. intros Hst HP. apply (rg_do tgs); [done|]. intros m g Hi Hm. split; [by eapply HP|]. intros ret m' [= <- <-]. exists g. split; [by apply ok_same|done]. Qed.
Lemma use_own x d l r : rg i (own x d l r) (do_ (Use x)) (λ _, own x d l r).
Proof. apply use_ok; [eauto with tg|]. intros m g Hi [Ho _]%base_own. by eapply own_alloc. Qed.

Lemma fair_step x d l r (Y : assn) e f' u' (F : tg_mem → gmap Z fair_state) (U : tg_mem → tg_ghost → gmap Z Z) :
  (∀ m, tg_exec i e m = Some (0, m <| gm_fair := F m |>)) →
  (∀ m g, tg_inv m g → own x d l r m g → Y m g → tg_safe i e m ∧ F m !! x = f' ∧ U m g !! x = u' m ∧
    (∀ y, y ≠ x → F m !! y = gm_fair m !! y ∧ U m g !! y = gh_unreg g !! y) ∧
    (fair_usable x (m <| gm_fair := F m |>) ∨ (x ∉ gh_tree g) ∧ ∀ j T t, gm_readers m !! j = Some T → gh_dead g !! x = Some t → t < T) ∧
    (∀ t, u' m = Some t → t ≤ gm_clock m) ∧
    (∀ j T, gm_readers m !! j = Some T → leaf_visible T x m g → leaf_visible T x (m <| gm_fair := F m |>) (g <| gh_unreg := U m g |>))) →
  rg i (both (own x d l r) Y) (do_ e) (λ _ m g, ∃ u, (∃ m0, u = u' m0) ∧ own x (d <| d_fair := f' |> <| d_unreg := u |>) l r m g).
Proof.
  intros He HY. apply (rg_do tgs).
  { apply ex_stable. intros u m g m' g' Hr [? Hb]. split; [done|]. by eapply tg_base_stable. }
  intros m g Hi [Hb Hy]. destruct (HY m g Hi Hb Hy) as (Hs&Hf&Hu&Hne&Hus&Hcl&Hlv). split; [done|]. intros ret m' Hx. cbn in Hx. rewrite He in Hx.
  injection Hx as <- <-. destruct (base_own _ _ _ _ _ _ _ Hb) as [Ho Hd]. eexists. split.
  - eapply (ok_fair i m g x _ (U m g)); [done|done|done|done| |done]. intros t Ht. apply Hcl. by rewrite <-Hu.
  - exists (u' m). split; [eauto|]. eapply base_change; [exact Hb|done|done|done|done|]. destruct Hd. by split.
Qed.

Lemma insert_others {A} (M : gmap Z A) x v y : y ≠ x → <[x := v]> M !! y = M !! y.
Proof. intros. by rewrite lookup_insert_ne. Qed.
Lemma alloc_fair_ok x d l r :
  d_fair d = None → d_unreg d = None → rg i (own x d l r) (do_ (AllocFair x)) (λ _, own x (d <| d_fair := Some FairAllocated |>) l r).
Proof.
  intros Hf Hu. eapply rg_pre; [intros m g _ H; exact (conj H I)|]. eapply rg_post; [|apply (fair_step x d l r (λ _ _, True) _ (Some FairAllocated) (λ _, None)
    (λ m, <[x := FairAllocated]> (gm_fair m)) (λ m g, gh_unreg g)); [done|]].
  - intros [] m g _ (u&[_ ->]&Hb). destruct d. cbn in *. by rewrite Hu.
  - intros m g Hi Hb _. destruct (base_own _ _ _ _ _ _ _ Hb) as [Ho []]. split_and!; try done; cbn.
    + split; [by eapply own_alloc|]. by rewrite e_fair.
    + by rewrite lookup_insert_eq.
    + by rewrite e_unreg.
    + intros y Hy. by rewrite insert_others.
    + left. left. cbn. by rewrite lookup_insert_eq.
    + intros j T _ [Hl|(t&Ht&_)]; congruence.
Qed.
Lemma online_fair_ok x d l r :
  d_fair d = Some FairAllocated → rg i (own x d l r) (do_ (OnlineFair x)) (λ _, own x (d <| d_fair := Some FairOnline |>) l r).
Proof.
  intros Hf. eapply rg_pre; [intros m g _ H; exact (conj H I)|]. eapply rg_post; [|apply (fair_step x d l r (λ _ _, True) _ (Some FairOnline) (λ _, d_unreg d)
    (λ m, <[x := FairOnline]> (gm_fair m)) (λ m g, gh_unreg g)); [done|]].
  - intros [] m g _ (u&[_ ->]&Hb). by destruct d.
  - intros m g Hi Hb _. destruct (base_own _ _ _ _ _ _ _ Hb) as [Ho []]. split_and!; try done; cbn.
    + split; [by eapply own_alloc|]. by rewrite e_fair.
    + by rewrite lookup_insert_eq.
    + intros y Hy. by rewrite insert_others.
    + left. right. cbn. by rewrite lookup_insert_eq.
    + intros t Ht. eapply (v_unreg _ _ (v_deferred _ _ Hi) x). by rewrite e_unreg.
    + intros j T _ _. left. cbn. by rewrite lookup_insert_eq.
Qed.
(** The readers that could see the group have gone. *)
Definition unseen x : assn := λ m g, ∀ j T t, gm_readers m !! j = Some T → gh_dead g !! x = Some t → t < T.
Lemma unregister_fair_ok x d l r :
  d_fair d = Some FairAllocated ∨ d_fair d = Some FairOnline → d_tree d = false →
  rg i (both (own x d l r) (unseen x)) (do_ (UnregisterFair x)) (λ _ m g, ∃ t, own x (d <| d_fair := Some FairUnregistered |> <| d_unreg := Some t |>) l r m g).
Proof.
  intros Hf Ht. eapply rg_post; [|apply (fair_step x d l r (unseen x) _ (Some FairUnregistered) (λ m, Some (gm_clock m))
    (λ m, <[x := FairUnregistered]> (gm_fair m)) (λ m g, <[x := gm_clock m]> (gh_unreg g))); [done|]].
  - intros [] m g _ (u&[m0 ->]&Hb). eauto.
  - intros m g Hi Hb Hu. destruct (base_own _ _ _ _ _ _ _ Hb) as [Ho []]. split_and!; try done; cbn.
    + split; [by eapply own_alloc|]. unfold fair_usable. by rewrite e_fair.
    + by rewrite lookup_insert_eq.
    + by rewrite lookup_insert_eq.
    + intros y Hy. by rewrite !insert_others.
    + right. split; [|done]. rewrite e_tree, Ht. done.
    + by intros t [= <-].
    + intros j T HT _. right. exists (gm_clock m). cbn. rewrite lookup_insert_eq. split; [done|]. by eapply (v_clock _ _ (v_deferred _ _ Hi)).
Qed.
Lemma free_fair_ok x d l r :
  d_tree d = false → (d_fair d = Some FairAllocated ∧ d_dead d = None) ∨ d_fair d = Some FairUnregistered →
  rg i (own x d l r) (do_ (FreeFair x)) (λ _, own x (d <| d_fair := None |>) l r).
Proof.
  intros Ht Hf. eapply rg_pre; [intros m g _ H; exact (conj H I)|]. eapply rg_post; [|apply (fair_step x d l r (λ _ _, True) _ None (λ _, d_unreg d)
    (λ m, delete x (gm_fair m)) (λ m g, gh_unreg g)); [done|]].
  - intros [] m g _ (u&[_ ->]&Hb). by destruct d.
  - intros m g Hi Hb _. destruct (base_own _ _ _ _ _ _ _ Hb) as [Ho []]. split_and!; try done; cbn.
    + split; [by eapply own_alloc|]. rewrite e_fair. destruct Hf as [[-> _]| ->]; by eexists.
    + by rewrite lookup_delete_eq.
    + intros y Hy. by rewrite lookup_delete_ne.
    + right. split; [rewrite e_tree, Ht; done|]. intros j T t HT Hd. destruct Hf as [[_ Hn]|Hun]; [congruence|].
      destruct (Z.lt_ge_cases t T) as [|Hle]; [done|]. destruct (v_seen _ _ (v_deferred _ _ Hi) j T x t HT Hd Hle) as ([?|?]&_); congruence.
    + intros t Hu. eapply (v_unreg _ _ (v_deferred _ _ Hi) x). by rewrite e_unreg.
    + intros j T _ [Hl|?]; [|by right]. rewrite e_fair in Hl. destruct Hf as [[Hfa _]|Hfa]; congruence.
Qed.
Lemma kfree_ok x d l r :
  d_tree d = false → d_list d = false → d_css d = false → d_fair d = None →
  rg i (both (own x d l r) (λ m g, ∀ j T t, gm_readers m !! j = Some T → d_unreg d = Some t → t < T)) (do_ (Kfree x)) (λ _, none l r).
Proof.
  intros Ht Hl Hc Hf. apply (rg_do tgs); [eauto with tg|]. intros m g Hi [Hb Hu]. destruct (base_own _ _ _ _ _ _ _ Hb) as [Ho []]. split.
  - split_and!; [by eapply own_alloc|congruence|by eapply own_no_rcu|]. destruct (gm_css m !! x) eqn:He; [|done].
    assert (d_css d = true) by (apply e_css; by eexists). congruence.
  - intros ret m' [= <- <-]. eexists. split; [apply ok_kfree; [done|done| | | |]|].
    + rewrite e_tree, Ht. done.
    + rewrite e_list, Hl. done.
    + congruence.
    + intros j T t HT Hx. eapply Hu; [done|]. congruence.
    + eapply base_drop; [exact Hb| |done|done|done]. intros y. cbn. destruct (decide (y = x)) as [->|Hne].
      * rewrite lookup_delete_eq. naive_solver.
      * rewrite lookup_delete_ne by done. naive_solver.
Qed.

(** * Callbacks *)

(** What is so of a group when its callback is queued, at [t] at the latest. *)
Definition queued (b : bool) (t : Z) (d : desc) : Prop :=
  d_tree d = false ∧ d_list d = false ∧ d_css d = false ∧
  if b then (d_fair d = Some FairAllocated ∨ d_fair d = Some FairOnline) ∧ d_unreg d = None ∧ ∃ t', d_dead d = Some t' ∧ t' ≤ t
  else d_fair d = Some FairUnregistered ∧ ∃ t', d_unreg d = Some t' ∧ t' ≤ t.
Lemma call_rcu_ok x d l r b t : queued b t d → rg i (own x d l r) (do_ (CallRcu b x)) (λ _, none l r).
Proof.
  intros (Ht&Hl&Hc&Hq). apply (rg_do tgs); [eauto with tg|]. intros m g Hi Hb. destruct (base_own _ _ _ _ _ _ _ Hb) as [Ho []]. split.
  - split; [by eapply own_alloc|by eapply own_no_rcu].
  - intros ret m' [= <- <-]. eexists. split; [apply ok_call_rcu; [done|done| | |]|].
    + rewrite e_tree, Ht. done.
    + rewrite e_list, Hl. done.
    + unfold fair_usable. rewrite e_fair, e_unreg, e_dead. destruct b; [destruct Hq as (?&?&t'&->&_)|destruct Hq as (?&t'&->&_)]; split_and!; try done; by eexists.
    + eapply base_drop; [exact Hb| |done|done|done]. intros y. cbn. destruct (decide (y = x)) as [->|Hne].
      * rewrite lookup_insert_eq. naive_solver.
      * rewrite lookup_insert_ne by done. naive_solver.
Qed.
Lemma rcu_run_ok x l r : rg i (none l r) (test (RcuRun x)) (λ b m g, ∃ dt, both (own x dt.1 l r) (elapsed dt.2) m g ∧ queued b dt.2 dt.1).
Proof.
  apply (rg_test tgs).
  { intros b. apply ex_stable. intros dt m g m' g' Hr [Hb ?]. split; [|done]. eapply both_stable; [..|exact Hr|exact Hb]; eauto with tg. }
  intros m g Hi Hb. split; [done|]. intros ret m' Hx. cbn in Hx. destruct (gm_rcu m !! x) as [[b t]|] eqn:Hrcu; [|done].
  destruct (gp_over t m) eqn:Hgp; [|done]. injection Hx as <- <-. eexists. split; [by eapply ok_rcu_run|].
  destruct (v_rcu _ _ (v_deferred _ _ Hi) _ _ _ Hrcu) as (Ho&Hr&Ht&Hl&Hc&Hq).
  assert (gm_css m !! x = None) as Hcss.
  { destruct (gm_css m !! x) eqn:He; [|done]. by apply (v_css _ _ (v_shape _ _ Hi)) in He. }
  exists ({| d_list := false; d_tree := false; d_css := false; d_dead := gh_dead g !! x; d_unreg := gh_unreg g !! x; d_fair := gm_fair m !! x;
             d_parent := gm_parent m x; d_init := false |}, t). split; [split|].
  - eapply base_take; [exact Hb| |done|done|done|].
    + intros y. cbn. destruct (decide (y = x)) as [->|Hne]; [rewrite lookup_insert_eq; naive_solver|rewrite lookup_insert_ne by done; naive_solver].
    + split; cbn; [by split|by split|rewrite Hcss; by split; [intros [? ?]|]|done..].
  - destruct (gp_over_spec t m g Hgp Hc) as [? Hel]. split; [done|exact Hel].
  - split_and!; try done. destruct b; cbn; [destruct Hq as (?&?&?)|]; done.
Qed.

(** * The lock *)

Definition lists (R : list Z → list Z → Prop) : assn := λ m g, R (gh_list g) (gh_tree g).
Lemma lists_stable x d r R : stable i (both (own x d true r) (lists R)).
Proof.
  intros m g m' g' Hr [Hb HR]. split; [by eapply tg_base_stable|]. unfold lists.
  destruct (r_locked _ _ _ _ _ Hr) as [-> ->]; [by apply (b_lock _ _ _ _ Hb)|done].
Qed.
Hint Resolve lists_stable : tg.
Lemma lock_ok x d r : rg i (own x d false r) (do_ TgLock) (λ _, both (own x d true r) (lists eq)).
Proof.
  apply (rg_do tgs); [eauto with tg|]. intros m g Hi Hb. split; [done|]. intros ret m' Hx. cbn in Hx. destruct (gm_lock m) eqn:Hl; [done|].
  injection Hx as <- <-. exists g. split; [by apply ok_lock|]. split; [eapply base_keep; [exact Hb|done|by split|by split|apply Hb|apply Hb]|by apply (v_lock _ _ (v_shape _ _ Hi))].
Qed.
Lemma unlock_ok x d r : rg i (both (own x d true r) (lists eq)) (do_ TgUnlock) (λ _, own x d false r).
Proof.
  apply (rg_do tgs); [eauto with tg|]. intros m g Hi [Hb He]. assert (gm_lock m = Some i) as Hl by (by apply (b_lock _ _ _ _ Hb)). split; [done|].
  intros ret m' [= <- <-]. exists g. split; [by apply ok_unlock|]. eapply base_keep; [exact Hb|done|by split|by split|apply Hb|apply Hb].
Qed.

(** * Links *)

Lemma locked_own x d r m g : own x d true r m g → gm_lock m = Some i ∧ gh_own g !! x = Some (Some i) ∧ describes x d m g.
Proof. intros Hb. split; [by apply (b_lock _ _ _ _ Hb)|by eapply base_own]. Qed.
Lemma list_add_ok x d r :
  d_list d = false →
  rg i (both (own x d true r) (lists eq)) (do_ (ListAdd (list_ x) task_groups))
    (λ _, both (own x (d <| d_list := true |>) true r) (lists (λ l t, l = x :: t))).
Proof.
  intros Hdl. apply (rg_do tgs); [eauto with tg|]. intros m g Hi [Hb He]. destruct (locked_own _ _ _ _ _ Hb) as (Hl&Ho&Hd).
  pose proof (v_shape _ _ Hi) as Hs. split.
  - split_and!; [done|right; rewrite container_list; by eapply own_alloc|by left|].
    destruct (list_ring_next _ _ Hs) as [->|(y&->&Hy)]; [by left|right; rewrite container_list; by apply (v_list _ _ Hs)].
  - intros ret m' [= <- <-]. eexists. assert (x ∉ gh_list g) as Hxl by (rewrite (e_list _ _ _ _ Hd), Hdl; done). split; [by apply ok_list_add|]. split.
    + eapply base_change; [exact Hb|done|done|done|done|]. destruct (list_ring_next _ _ Hs) as [Hn|(y&Hn&_)]; destruct Hd; split; try done; cbn.
      all: try (split; [done|intros _; left]).
      all: intros ? ?; pose proof (v_pos _ _ Hs _ (own_alloc _ _ _ _ Hi Ho)); rewrite Hn, !fset_ne by nodes; by apply e_init.
    + unfold lists in *. cbn. by rewrite He.
Qed.
Lemma write_parent_ok x d r p R :
  d_tree d = false → d_dead d = None →
  rg i (both (own x d true r) (lists R)) (do_ (WriteParent x p)) (λ _, both (own x (d <| d_parent := p |>) true r) (lists R)).
Proof.
  intros Ht Hdd. apply (rg_do tgs); [eauto with tg|]. intros m g Hi [Hb He]. destruct (locked_own _ _ _ _ _ Hb) as (Hl&Ho&Hd). split; [by eapply own_alloc|].
  intros ret m' [= <- <-]. exists g. split; [|split; [|done]].
  - apply ok_write_parent; [done|done|rewrite (e_tree _ _ _ _ Hd), Ht; done|by rewrite (e_dead _ _ _ _ Hd)].
  - eapply base_change; [exact Hb|done|done|done|done|]. destruct Hd. split; try done. cbn. by rewrite fset_eq.
Qed.
Lemma init_children_ok x d r R :
  d_tree d = false → d_dead d = None →
  rg i (both (own x d true r) (lists R)) (do_ (InitList (children x))) (λ _, both (own x (d <| d_init := true |>) true r) (lists R)).
Proof.
  intros Ht Hdd. apply (rg_do tgs); [eauto with tg|]. intros m g Hi [Hb He]. destruct (locked_own _ _ _ _ _ Hb) as (Hl&Ho&Hd).
  split; [split; [right; rewrite container_children; by eapply own_alloc|done]|].
  intros ret m' [= <- <-]. exists g. split; [|split; [|done]].
  - apply ok_init_children; [done|done|rewrite (e_tree _ _ _ _ Hd), Ht; done|by rewrite (e_dead _ _ _ _ Hd)].
  - eapply base_change; [exact Hb|done|done|done|done|]. destruct Hd. split; try done. cbn. by rewrite !fset_eq.
Qed.
(** The parent is the root group, or one the thread holds a reference to. *)
Definition has_parent (r : option Z) p : Prop := p = root_group ∨ r = Some p.
Lemma parent_in_tree st p m g : tg_inv m g → base i st m g → has_parent (t_ref st) p → p ∈ gh_tree g.
Proof.
  intros [Hs _] Hb [->|Hr]; [apply Hs|]. apply (b_ref _ _ _ _ Hb) in Hr as (R&HR&_). by eapply (v_css _ _ Hs).
Qed.
Lemma tree_add_ok x d r p :
  d_parent d = p → d_tree d = false → d_dead d = None → d_init d = true → has_parent r p → d_fair d = Some FairAllocated ∨ d_fair d = Some FairOnline →
  rg i (both (own x d true r) (lists (λ l t, l = x :: t))) (do_ (ListAdd (siblings x) (children p)))
    (λ _, both (own x (d <| d_tree := true |>) true r) (lists eq)).
Proof.
  intros Hdp Ht Hdd Hin Hpar Hf. apply (rg_do tgs); [eauto with tg|]. intros m g Hi [Hb He]. destruct (locked_own _ _ _ _ _ Hb) as (Hl&Ho&Hd).
  pose proof (v_shape _ _ Hi) as Hs. pose proof (parent_in_tree _ _ _ _ Hi Hb Hpar) as Hp. split.
  - split_and!; [done|right; rewrite container_siblings; by eapply own_alloc|right; rewrite container_children; by apply (v_tree _ _ Hs)|].
    destruct (first_child _ _ _ Hs Hp) as [->|(y&->&Hy)]; right; rewrite ?container_children, ?container_siblings; apply (v_tree _ _ Hs); [done|].
    by apply (v_child _ _ Hs) in Hy as (?&_).
  - intros ret m' [= <- <-]. eexists. split; [|split].
    + destruct (e_init _ _ _ _ Hd Hin Ht). apply ok_tree_add; try done.
      * rewrite (e_tree _ _ _ _ Hd), Ht. done.
      * by rewrite (e_dead _ _ _ _ Hd).
      * unfold fair_usable. by rewrite (e_fair _ _ _ _ Hd).
      * rewrite <-Hdp. by apply (e_parent _ _ _ _ Hd).
      * intros Hr. destruct Hpar as [?|Hpar]; [done|]. by apply (b_ref _ _ _ _ Hb).
    + eapply base_change; [exact Hb|done|done|done|done|]. destruct Hd. split; try done. cbn. split; [done|by left].
    + unfold lists in *. cbn. done.
Qed.
Lemma list_del_ok x d r :
  d_list d = true → d_tree d = true →
  rg i (both (own x d true r) (lists eq)) (do_ (ListDel (list_ x)))
    (λ _, both (own x (d <| d_list := false |>) true r) (lists (λ l t, l = without x t))).
Proof.
  intros Hdl Hdt. apply (rg_do tgs); [eauto with tg|]. intros m g Hi [Hb He]. destruct (locked_own _ _ _ _ _ Hb) as (Hl&Ho&Hd).
  destruct (ok_list_del i m g x) as (Hok&Hn&Hp); [done|done|done|by apply (e_list _ _ _ _ Hd)|]. split.
  - split_and!; [done|right; rewrite container_list; by eapply own_alloc|done|done].
  - intros ret m' [= <- <-]. eexists. split; [exact Hok|]. split; [|unfold lists in *; cbn; by rewrite He].
    eapply base_change; [exact Hb|done|done|done|done|]. destruct Hd. split; try done; cbn; [|congruence].
    split; [intros [_ ?]%elem_of_without; done|done].
Qed.
Lemma tree_del_ok x d r :
  d_list d = false → d_tree d = true → d_css d = false →
  rg i (both (own x d true r) (lists (λ l t, l = without x t))) (do_ (ListDel (siblings x)))
    (λ _ m g, ∃ t, both (own x (d <| d_tree := false |> <| d_dead := Some t |> <| d_init := false |>) true r) (lists eq) m g).
Proof.
  intros Hdl Hdt Hdc. apply (rg_do tgs); [apply ex_stable; eauto with tg|]. intros m g Hi [Hb He]. destruct (locked_own _ _ _ _ _ Hb) as (Hl&Ho&Hd).
  destruct (ok_tree_del i m g x (gm_parent m x)) as (Hok&Hn&Hp); try done.
  { by apply (e_tree _ _ _ _ Hd). }
  { rewrite (e_list _ _ _ _ Hd), Hdl. done. }
  { destruct (gm_css m !! x) eqn:Hc; [|done]. assert (d_css d = true) by (apply (e_css _ _ _ _ Hd); by eexists). congruence. }
  split.
  - split_and!; [done|right; rewrite container_siblings; by eapply own_alloc|done|done].
  - intros ret m' [= <- <-]. eexists. split; [exact Hok|]. exists (gm_clock m). split; [|done].
    eapply base_change; [exact Hb|done|done|done|done|]. destruct Hd. split; try done; cbn; [|by rewrite lookup_insert_eq].
    split; [intros [_ ?]%elem_of_without; done|done].
Qed.

(** * References *)

Lemma css_get_ok p : rg i (none false None) (do_ (CssGet p)) (λ _, none false (Some p)).
Proof.
  apply (rg_do tgs); [eauto with tg|]. intros m g Hi Hb. split; [done|]. intros ret m' Hx. cbn in Hx. unfold css_hold in Hx.
  destruct (gm_css m !! p) as [R|] eqn:Hc; [|done]. injection Hx as <- <-. exists g. split.
  - eapply ok_css_hold; [done|exact Hc|set_solver|set_solver].
  - destruct Hb. split; cbn in *; try done. intros q. specialize (b_ref q). unfold refers in *. cbn in *. destruct (decide (q = p)) as [->|Hne].
    + rewrite lookup_insert_eq. split; [done|]. intros _. exists ({[i]} ∪ R). set_solver.
    + rewrite lookup_insert_ne by done. split; [intros ?; by apply b_ref in H|congruence].
Qed.
Lemma css_put_ok p : rg i (none false (Some p)) (do_ (CssPut p)) (λ _, none false None).
Proof.
  apply (rg_do tgs); [eauto with tg|]. intros m g Hi Hb. split; [by apply (b_ref _ _ _ _ Hb)|]. intros ret m' Hx. cbn in Hx. unfold css_hold in Hx.
  destruct (gm_css m !! p) as [R|] eqn:Hc; [|done]. injection Hx as <- <-. exists g. split.
  - eapply ok_css_hold; [done|exact Hc|set_solver|]. intros _ x Hx. apply (b_own _ _ _ _ Hb) in Hx as [? ?]. done.
  - destruct Hb. split; cbn in *; try done. intros q. specialize (b_ref q). unfold refers in *. cbn in *. destruct (decide (q = p)) as [->|Hne].
    + rewrite lookup_insert_eq. split; [|done]. intros (?&[= <-]&?). set_solver.
    + rewrite lookup_insert_ne by done. split; [intros Hq; apply b_ref in Hq; congruence|done].
Qed.
Lemma css_online_ok x d r : d_tree d = true → d_css d = false → rg i (own x d false r) (do_ (CssOnline x)) (λ _, own x (d <| d_css := true |>) false r).
Proof.
  intros Ht Hdc. apply (rg_do tgs); [eauto with tg|]. intros m g Hi Hb. destruct (base_own _ _ _ _ _ _ _ Hb) as [Ho Hd].
  assert (gm_css m !! x = None) as Hc.
  { destruct (gm_css m !! x) eqn:Hc; [|done]. assert (d_css d = true) by (apply (e_css _ _ _ _ Hd); by eexists). congruence. }
  split; [done|]. intros ret m' [= <- <-]. exists g. split; [apply ok_css_online; [done|done|by apply (e_tree _ _ _ _ Hd)|done]|].
  eapply base_change; [exact Hb|done|done| |done|].
  - intros q. unfold refers. cbn. destruct (decide (q = x)) as [->|Hne]; [|by rewrite lookup_insert_ne]. rewrite lookup_insert_eq, Hc. split; intros (?&?&?); simplify_eq; set_solver.
  - destruct Hd. split; try done. cbn. rewrite lookup_insert_eq. split; [done|by eexists].
Qed.
Lemma css_kill_ok x d r : d_css d = true → rg i (own x d false r) (do_ (CssKill x)) (λ _, own x (d <| d_css := false |>) false r).
Proof.
  intros Hdc. apply (rg_do tgs); [eauto with tg|]. intros m g Hi Hb. destruct (base_own _ _ _ _ _ _ _ Hb) as [Ho Hd].
  split; [done|]. intros ret m' Hx. cbn in Hx. destruct (gm_css m !! x) as [R|] eqn:Hc; [|done].
  destruct (bool_decide_reflect (R = ∅)) as [->|]; [|done]. injection Hx as <- <-. exists g. split; [by apply ok_css_kill|].
  eapply base_change; [exact Hb|done|done| |done|].
  - intros q. unfold refers. cbn. destruct (decide (q = x)) as [->|Hne]; [|by rewrite lookup_delete_ne]. rewrite lookup_delete_eq, Hc. split; intros (?&?&?); simplify_eq; set_solver.
  - destruct Hd. split; try done. cbn. rewrite lookup_delete_eq. split; [by intros [? ?]|done].
Qed.
End ops.
