(* ===== verification/TgSafe.v ===== *)
(** The functions on task groups and the threads that call them, in the protocol of
    [TgLogic]. *)
From S2P Require Import Prelude Interleave TgLife TgLogic TgSteps TgLinks TgOps.

Section functions.
Context (i : nat).
Implicit Types (m : tg_mem) (g : tg_ghost) (x p : Z).
Local Abbreviation assn := (@assn tg_mem tg_ghost).
Local Abbreviation stable := (stable tgs).
Local Abbreviation rg := (rg tgs).
Local Abbreviation own x d l r := (base i (St (Some (x, d)) l r None)).
Local Abbreviation none l r := (base i (St None l r None)).
Hint Resolve ex_stable tg_base_stable elapsed_stable both_stable pure_stable : tg.

(** * Groups *)

(** A group is freed when nobody has seen it, or a grace period after it was unregistered. *)
Lemma free_group_ok x d r :
  d_tree d = false → d_list d = false → d_css d = false → (d_fair d = Some FairAllocated ∧ d_dead d = None ∧ d_unreg d = None) ∨ d_fair d = Some FairUnregistered →
  ∀ t, (∀ t', d_unreg d = Some t' → t' ≤ t) →
  rg i (both (own x d false r) (λ m g, d_unreg d ≠ None → elapsed t m g)) (sched_free_group x) (λ _, none false r).
Proof.
  intros Ht Hl Hc Hf t Hu. set (Y := λ m g, d_unreg d ≠ None → elapsed t m g).
  assert (stable i Y) as HY by (intros m g m' g' Hr HY Hn; eapply elapsed_stable; eauto).
  assert (∀ d', stable i (both (own x d' false r) Y)) as Hst by (intros d'; apply both_stable; eauto with tg).
  assert (∀ e Q d0 d1, rg i (own x d0 false r) (do_ e) Q → (∀ a m g, Q a m g → own x d1 false r m g) → rg i (both (own x d0 false r) Y) (do_ e) (λ _, both (own x d1 false r) Y)) as Hfr.
  { intros e Q d0 d1 He HQ m g Hi [Hb Hy]. destruct (He m g Hi Hb) as [Hs Hx]. split; [done|]. intros ret m' Hm. destruct (Hx ret m' Hm) as (g'&P'&Hok&HsP&HP&Hret).
    exists g', (both (own x d1 false r) Y). split_and!; [done|apply Hst| |by intros ? ?]. split; [exact (HQ _ _ _ (Hret m' g' (proj1 Hok) HP))|].
    intros Hn. specialize (Hy Hn). destruct Hok as [Hi' Hrel]. eapply (elapsed_stable (S i)); [|exact Hy]. apply Hrel. lia. }
  unfold sched_free_group. eapply rg_bind; [eapply Hfr; [apply free_fair_ok; [done|tauto]|intros ? m0 g0 H0; exact H0]|]. intros [].
  do 2 (eapply rg_bind; [eapply Hfr; [apply use_own|intros ? m0 g0 H0; exact H0]|]; intros []).
  eapply rg_pre; [|apply (kfree_ok _ x (d <| d_fair := None |>)); done]. intros m g Hi [Hb Hy]. split; [done|]. cbn. intros j T t' HT Hut.
  destruct Hy as [_ Hel]; [congruence|]. specialize (Hel j T HT). specialize (Hu t' Hut). lia.
Qed.
Lemma unregister_group_ok x d r t :
  d_tree d = false → d_list d = false → d_css d = false → d_fair d = Some FairAllocated ∨ d_fair d = Some FairOnline → (∀ t', d_dead d = Some t' → t' ≤ t) →
  rg i (both (own x d false r) (elapsed t)) (sched_unregister_group x) (λ _, none false r).
Proof.
  intros Ht Hl Hc Hf Hd. unfold sched_unregister_group. eapply rg_bind; [eapply rg_pre; [|by apply unregister_fair_ok]|].
  { intros m g Hi [Hb [_ Hel]]. split; [done|]. intros j T t' HT Hdx. destruct (base_own _ _ _ _ _ _ _ _ Hb) as [_ Hde].
    specialize (Hel j T HT). rewrite (e_dead _ _ _ _ Hde) in Hdx. specialize (Hd t' Hdx). lia. }
  intros []. apply rg_ex. intros t'. eapply rg_bind; [apply use_own|]. intros []. apply (call_rcu_ok i x _ false r false t').
  unfold queued. cbn. split_and!; [done..|]. by exists t'.
Qed.

Definition created p (o : option Z) (r : option Z) : assn :=
  match o with
  | Some x => own x (new_desc <| d_fair := Some FairAllocated |>) false r
  | None => none false r
  end.
Lemma use_parent p st : has_parent (t_ref st) p → rg i (base i st) (do_ (Use p)) (λ _, base i st).
Proof.
  intros Hp. apply use_ok; [eauto with tg|]. intros m g Hi Hb. apply (v_tree _ _ (v_shape _ _ Hi)). by eapply parent_in_tree.
Qed.
Lemma create_group_ok p ao r : has_parent r p → rg i (none false r) (sched_create_group p ao) (λ o, created p o r).
Proof.
  intros Hp. unfold sched_create_group. destruct (ao_mem ao); cbn [negb]; [|by apply rg_ret].
  assert (∀ x, rg i (own x (new_desc <| d_fair := Some FairAllocated |>) false r) (sched_free_group x;; mret None) (λ o, created p o r)) as Hfail.
  { intros x. eapply rg_bind; [eapply rg_pre; [|apply (free_group_ok x (new_desc <| d_fair := Some FairAllocated |>) r) with (t := 0); [done|done|done|by left|by intros t']]|intros []; by apply rg_ret].
    intros m g _ Hb. split; [done|]. cbn. done. }
  eapply rg_bind; [apply kmalloc_ok|]. intros []. eapply rg_bind; [by apply alloc_fair_ok|]. intros [].
  destruct (ao_fair ao); cbn [negb]; [|apply Hfail]. eapply rg_bind; [apply use_own|]. intros [].
  destruct (ao_rt ao); cbn [negb]; [|apply Hfail]. eapply rg_bind; [apply use_own|]. intros [].
  unfold alloc_uclamp_sched_group. eapply rg_bind; [eapply rg_bind; [apply use_own|intros []; by apply (use_parent p)]|]. intros []. by apply rg_ret.
Qed.

(** In the tree, and out of it again. *)
Definition linked_desc p f : desc :=
  {| d_list := true; d_tree := true; d_css := false; d_dead := None; d_unreg := None; d_fair := Some f; d_parent := p; d_init := true |}.
Lemma online_group_ok x p r :
  has_parent r p → rg i (own x (new_desc <| d_fair := Some FairAllocated |>) false r) (sched_online_group x p) (λ _, own x (linked_desc p FairOnline) false r).
Proof.
  intros Hp. unfold sched_online_group. eapply rg_bind; [apply lock_ok|]. intros []. eapply rg_bind; [by apply list_add_ok|]. intros [].
  eapply rg_bind; [by apply write_parent_ok|]. intros []. eapply rg_bind; [by apply init_children_ok|]. intros [].
  eapply rg_bind; [by apply tree_add_ok; [..|left]|]. intros [].
  eapply rg_bind; [apply unlock_ok|]. intros []. by apply (online_fair_ok i x (linked_desc p FairAllocated)).
Qed.
Definition dead_desc p t f : desc :=
  {| d_list := false; d_tree := false; d_css := false; d_dead := t; d_unreg := None; d_fair := Some f; d_parent := p; d_init := false |}.
Lemma release_group_ok x p r :
  rg i (own x (linked_desc p FairOnline) false r) (sched_release_group x) (λ _ m g, ∃ t, own x (dead_desc p (Some t) FairOnline) false r m g).
Proof.
  unfold sched_release_group. eapply rg_bind; [apply lock_ok|]. intros []. eapply rg_bind; [by apply list_del_ok|]. intros [].
  eapply rg_bind; [by apply tree_del_ok|]. intros []. apply rg_ex. intros t. eapply rg_post; [|apply unlock_ok]. intros [] m g _ Hb. by exists t.
Qed.

(** * Threads *)

Lemma wait_ok x d r :
  rg i (own x d false r) cgroup_wait (λ _ m g, ∃ t, both (own x d false r) (elapsed t) m g ∧ ∀ t', d_dead d = Some t' → t' ≤ t).
Proof.
  unfold cgroup_wait. set (Q := λ t m (g : tg_ghost), (own x d false r m g ∧ t ≤ gm_clock m) ∧ ∀ t', d_dead d = Some t' → t' ≤ t).
  assert (∀ t, stable i (Q t)) as HQ.
  { intros t m g m' g' Hr [[Hb Hc] Hd]. pose proof (r_clock _ _ _ _ _ Hr). split; [split; [by eapply tg_base_stable|lia]|done]. }
  apply (rg_bind _ _ _ _ _ Q).
  - apply (rg_access tgs); [done|]. intros m g Hi Hb. split; [done|]. intros ret m' [= <- <-]. exists g. split; [by apply ok_same|].
    split; [done|]. intros t' Hd. destruct (base_own _ _ _ _ _ _ _ _ Hb) as [_ Hde]. eapply (v_dead _ _ (v_deferred _ _ Hi) x). by rewrite (e_dead _ _ _ _ Hde).
  - intros t. apply (rg_do tgs).
    { apply ex_stable. intros t0. apply pure_stable. eauto with tg. }
    intros m g Hi [[Hb Hc] Hd]. split; [done|]. intros ret m' Hx. cbn in Hx. destruct (gp_over t m) eqn:Hgp; [|done]. injection Hx as <- <-.
    exists g. split; [by apply ok_same|]. exists t. split; [|done]. split; [done|by apply gp_over_spec].
Qed.
Lemma cgroup_free_ok x p t f :
  f = FairAllocated ∨ f = FairOnline →
  rg i (own x (dead_desc p t f) false (Some p)) (cgroup_wait;; cpu_cgroup_css_free x;; do_ (CssPut p)) (λ _, none false None).
Proof.
  intros Hf. eapply rg_bind; [apply wait_ok|]. intros []. apply rg_ex. intros t1. apply rg_pure. intros Hd.
  eapply rg_bind; [apply (unregister_group_ok x (dead_desc p t f) (Some p) t1); [done..|cbn; destruct Hf as [->| ->]; tauto|done]|]. intros []. apply css_put_ok.
Qed.
Lemma cgroup_life_ok p ao scx : rg i (none false None) (cgroup_life p ao scx) (λ _, none false None).
Proof.
  unfold cgroup_life. eapply rg_bind; [apply css_get_ok|]. intros []. eapply rg_bind; [apply (create_group_ok p ao (Some p)); by right|].
  intros [x|]; [|apply css_put_ok]. unfold created, cpu_cgroup_css_online. destruct (Z.eqb_spec scx 0) as [->|Hne].
  - eapply rg_bind.
    { eapply rg_bind; [apply use_own|]. intros []. cbn [negb]. eapply rg_bind; [apply online_group_ok; by right|]. intros [].
      eapply rg_bind; [apply use_own|]. intros []. apply (rg_ret _ _ _ _ (λ v m g, own x (linked_desc p FairOnline) false (Some p) m g ∧ v = 0)). by split. }
    intros v. apply rg_pure. intros ->. cbn [Z.eqb]. eapply rg_bind.
    { eapply rg_bind; [by apply css_online_ok|]. intros []. eapply rg_bind; [by apply css_kill_ok|]. intros [].
      eapply rg_bind; [apply use_own|]. intros []. apply (release_group_ok x p (Some p)). }
    intros []. apply rg_ex. intros t. apply cgroup_free_ok. by right.
  - eapply rg_bind.
    { eapply rg_bind; [apply use_own|]. intros []. cbn [negb].
      apply (rg_ret _ _ _ _ (λ v m g, own x (new_desc <| d_fair := Some FairAllocated |>) false (Some p) m g ∧ v = scx)). by split. }
    intros v. apply rg_pure. intros ->. destruct (Z.eqb_spec scx 0); [done|]. eapply rg_bind; [by apply (rg_ret _ _ _ tt (λ _, own x (new_desc <| d_fair := Some FairAllocated |>) false (Some p)))|]. intros [].
    eapply rg_bind; [apply wait_ok|]. intros []. apply rg_ex. intros t1. apply rg_pure. intros Hd.
    eapply rg_bind; [by apply (unregister_group_ok x (new_desc <| d_fair := Some FairAllocated |>) (Some p) t1); [..|left|]|]. intros []. apply css_put_ok.
Qed.
Lemma autogroup_life_ok ao : rg i (none false None) (autogroup_life ao) (λ _, none false None).
Proof.
  unfold autogroup_life. eapply rg_bind; [apply (create_group_ok root_group ao None); by left|]. intros [x|]; [|by apply rg_ret].
  eapply rg_bind; [apply (online_group_ok x root_group None); by left|]. intros []. eapply rg_bind; [apply (release_group_ok x root_group None)|].
  intros []. apply rg_ex. intros t. apply (call_rcu_ok i x _ false None true t). unfold queued. cbn. split_and!; [done..|by right|done|]. by exists t.
Qed.
Lemma rcu_callback_ok x : rg i (none false None) (rcu_callback x) (λ _, none false None).
Proof.
  unfold rcu_callback. eapply rg_bind; [apply rcu_run_ok|]. intros b. apply rg_ex. intros [d t]. cbn [fst snd]. apply rg_pure. intros (Ht&Hl&Hc&Hq).
  destruct b.
  - destruct Hq as (Hf&Hu&t'&Hd&Hle). apply (unregister_group_ok x d None t); [done..|]. intros t0. rewrite Hd. by intros [= <-].
  - destruct Hq as (Hf&t'&Hu&Hle). eapply rg_pre; [|apply (free_group_ok x d None Ht Hl Hc (or_intror Hf) t)].
    + intros m g _ [Hb Hel]. by split.
    + intros t0. rewrite Hu. by intros [= <-].
Qed.

(** * Readers *)

Local Abbreviation reader T := (base i (St None false None (Some T))).
Definition sees T x : assn := both (reader T) (λ m g, visible T x g).
Lemma sees_stable T x : stable i (sees T x).
Proof.
  intros m g m' g' Hr [Hb Hv]. split; [by eapply tg_base_stable|]. eapply (r_vis _ _ _ _ _ Hr); [by apply (b_reader _ _ _ _ Hb)|done].
Qed.
Hint Resolve sees_stable : tg.
Lemma visit_ok T x : rg i (sees T x) (do_ (Visit x)) (λ _, sees T x).
Proof.
  apply (rg_do tgs); [eauto with tg|]. intros m g Hi [Hb Hv]. split; [eapply visible_usable; [done|by apply (b_reader _ _ _ _ Hb)|done]|].
  intros ret m' [= <- <-]. exists g. split; [by apply ok_same|done].
Qed.
Lemma first_ok T x :
  rg i (sees T x) (access_ (ReadNext (children x))) (λ n m g, sees T x m g ∧ (n = children x ∨ ∃ y, n = siblings y ∧ visible T y g)).
Proof.
  apply (rg_access tgs).
  { intros n m g m' g' Hr [Hb Hn]. split; [by eapply sees_stable|]. destruct Hn as [?|(y&?&Hy)]; [by left|right]. exists y. split; [done|].
    eapply (r_vis _ _ _ _ _ Hr); [by apply (b_reader _ _ _ _ (proj1 Hb))|done]. }
  intros m g Hi [Hb Hv]. pose proof (b_reader _ _ _ _ Hb) as HT. split.
  - right. rewrite container_children. by eapply visible_usable.
  - intros ret m' [= <- <-]. exists g. split; [by apply ok_same|]. split; [done|]. destruct Hi as [Hs Hd]. destruct Hv as [Hv|(t&Hv&_)].
    + by apply tree_first.
    + left. by apply (v_dead _ _ Hd _ _ Hv).
Qed.
Lemma parent_ok T x :
  rg i (sees T x) (access_ (ReadParent x)) (λ q m g, sees T x m g ∧ (q = 0 ∨ gm_parent m x = q ∧ visible T q g ∧ x ≠ root_group)).
Proof.
  apply (rg_access tgs).
  { intros n m g m' g' Hr [Hb Hn]. split; [by eapply sees_stable|]. destruct Hn as [?|(Hp&Hv&?)]; [by left|right].
    pose proof (b_reader _ _ _ _ (proj1 Hb)) as HT. destruct (r_vis _ _ _ _ _ Hr T x HT (proj2 Hb)). destruct (r_vis _ _ _ _ _ Hr T n HT Hv). split_and!; [congruence|done|done]. }
  intros m g Hi [Hb Hv]. pose proof (b_reader _ _ _ _ Hb) as HT. split; [by eapply visible_usable|].
  intros ret m' [= <- <-]. exists g. split; [by apply ok_same|]. split; [done|]. destruct Hi as [Hs Hd]. destruct Hv as [Hv|(t&Hv&Ht)].
  - destruct (decide (x = root_group)) as [->|Hr]; [left; apply Hs|right]. split_and!; [done|left; by apply tree_parent|done].
  - right. destruct (v_seen _ _ Hd _ _ _ _ HT Hv Ht) as (_&Hp&_). split_and!; [done|done|]. by apply (v_dead _ _ Hd _ _ Hv).
Qed.
Lemma next_sibling_ok T x q :
  rg i (λ m g, sees T x m g ∧ gm_parent m x = q ∧ visible T q g ∧ x ≠ root_group) (access_ (ReadNext (siblings x)))
    (λ n m g, sees T q m g ∧ (n = children q ∨ ∃ y, n = siblings y ∧ visible T y g)).
Proof.
  apply (rg_access tgs).
  { intros n m g m' g' Hr [Hb Hn]. split; [by eapply sees_stable|]. destruct Hn as [?|(y&?&Hy)]; [by left|right]. exists y. split; [done|].
    eapply (r_vis _ _ _ _ _ Hr); [by apply (b_reader _ _ _ _ (proj1 Hb))|done]. }
  intros m g Hi ([Hb Hv]&Hp&Hq&Hr). pose proof (b_reader _ _ _ _ Hb) as HT. split.
  - right. rewrite container_siblings. by eapply visible_usable.
  - intros ret m' [= <- <-]. exists g. split; [by apply ok_same|]. split; [by split|]. destruct Hi as [Hs Hd]. rewrite <-Hp. destruct Hv as [Hv|(t&Hv&Ht)].
    + by apply tree_next.
    + by apply (v_seen _ _ Hd _ _ _ _ HT Hv Ht).
Qed.
Lemma walk_ok T from down up : rg i (sees T from) (walk_tg_tree_from from down up) (λ _, reader T).
Proof.
  set (I := λ s, sees T (s / 2)). assert (∀ p, walk_down p / 2 = p) as Hdn by (intros; unfold walk_down; Z.to_euclidean_division_equations; lia).
  assert (∀ p, walk_up p / 2 = p) as Hup by (intros; unfold walk_up; Z.to_euclidean_division_equations; lia).
  unfold walk_tg_tree_from. eapply (rg_pre _ _ _ (I (walk_down from))); [intros m g _; unfold I; by rewrite Hdn|].
  assert (∀ q n, rg i (λ m g, sees T q m g ∧ (n = children q ∨ ∃ y, n = siblings y ∧ visible T y g))
    (if n =? children q then again (walk_up q) else again (walk_down (container n))) (λ r : Z + Z, match r with inl s => I s | inr _ => reader T end)) as Hgo.
  { intros q n. destruct (Z.eqb_spec n (children q)) as [->|Hne]; apply rg_ret; intros m g _ [Hs Hn]; unfold I; [by rewrite Hup|].
    rewrite Hdn. destruct Hn as [?|(y&->&Hy)]; [done|]. rewrite container_siblings. destruct Hs. by split. }
  apply (rg_loop _ i I (λ _, reader T)); [intros s; apply sees_stable|]. intros s. unfold walk_round. set (p := s / 2).
  destruct (Z.even s); (eapply rg_bind; [apply visit_ok|]); intros [].
  - destruct (down p =? 0); cbn [negb]; [|apply rg_ret; by intros m g _ [? _]]. eapply rg_bind; [apply first_ok|]. intros n. apply Hgo.
  - destruct (_ || _); [apply rg_ret; by intros m g _ [? _]|]. eapply rg_bind; [apply parent_ok|]. intros q.
    destruct (Z.eqb_spec q 0) as [->|Hq]; [apply rg_ret; by intros m g _ [[? _] _]|]. eapply rg_bind; [|intros n; apply Hgo].
    eapply rg_pre; [|apply next_sibling_ok]. intros m g _ [Hs [?|?]]; [done|]. by split.
Qed.
Lemma rcu_lock_ok : rg i (none false None) (do_ RcuLock) (λ _ m g, ∃ T, reader T m g).
Proof.
  apply (rg_do tgs); [apply ex_stable; eauto with tg|]. intros m g Hi Hb. split; [done|]. intros ret m' [= <- <-]. exists g. split; [by apply ok_rcu_lock|].
  exists (gm_clock m + 1). eapply base_keep; [exact Hb|done|by split|apply Hb|apply Hb|]. cbn. by rewrite lookup_insert_eq.
Qed.
Lemma rcu_unlock_ok T : rg i (reader T) (do_ RcuUnlock) (λ _, none false None).
Proof.
  apply (rg_do tgs); [eauto with tg|]. intros m g Hi Hb. pose proof (b_reader _ _ _ _ Hb) as HT. split; [by eexists|]. intros ret m' [= <- <-]. exists g.
  split; [by apply ok_rcu_unlock|]. eapply base_keep; [exact Hb|done|by split|apply Hb|apply Hb|]. cbn. by rewrite lookup_delete_eq.
Qed.
Lemma use_walk_ok down up : rg i (none false None) (tg_user_prog (use_walk down up)) (λ _, none false None).
Proof.
  cbn [tg_user_prog]. eapply rg_bind; [apply rcu_lock_ok|]. intros []. apply rg_ex. intros T. apply (rg_bind _ _ _ _ _ (λ _, reader T)); [|intros ret; apply rcu_unlock_ok].
  eapply rg_pre; [|apply walk_ok]. intros m g Hi Hb. split; [done|]. left. apply (v_root _ _ (v_shape _ _ Hi)).
Qed.
Lemma use_stats_ok x : rg i (none false None) (tg_user_prog (use_stats x)) (λ _, none false None).
Proof.
  cbn [tg_user_prog]. eapply rg_bind; [apply rcu_lock_ok|]. intros []. apply rg_ex. intros T.
  set (L := λ m g, reader T m g ∧ leaf_visible T x m g). assert (stable i L) as HL.
  { intros m g m' g' Hr [Hb Hl]. split; [by eapply tg_base_stable|]. eapply (r_leaf _ _ _ _ _ Hr); [by apply (b_reader _ _ _ _ Hb)|done]. }
  apply (rg_bind _ _ _ _ _ (λ b, if b : bool then L else reader T)).
  - apply (rg_test tgs); [intros []; eauto with tg|]. intros m g Hi Hb. split; [done|]. intros ret m' [= <- <-]. exists g. split; [by apply ok_same|].
    destruct (bool_decide_reflect (gm_fair m !! x = Some FairOnline)); cbn; [split; [done|by left]|done].
  - intros b. eapply (rg_bind _ _ _ _ _ (λ _, reader T)); [|intros []; apply rcu_unlock_ok]. destruct b; [|by apply rg_ret].
    eapply rg_post; [|apply (use_ok i x L); [done|]]; [by intros [] m g _ [? _]|]. intros m g Hi [Hb [Hf|(t&Hu&_)]].
    + by eapply (v_fair _ _ (v_deferred _ _ Hi)).
    + by eapply (v_unreg _ _ (v_deferred _ _ Hi)).
Qed.
Lemma tg_user_ok u : rg i (none false None) (tg_user_prog u) (λ _, none false None).
Proof.
  destruct u as [down up|x|p ao scx|ao|x]; [apply use_walk_ok|apply use_stats_ok|apply cgroup_life_ok|apply autogroup_life_ok|apply rcu_callback_ok].
Qed.
End functions.
