(* ===== verification/TgTree.v ===== *)
(** The life of task groups in every interleaving of writers, readers and callbacks: no access
    to freed memory, the links are a tree, and no group is lost. *)
From S2P Require Import Prelude Interleave TgLife TgLogic TgSafe.

(** * At boot *)

Definition boot_ghost : tg_ghost :=
  {| gh_own := {[root_group := None]}; gh_dead := ∅; gh_unreg := ∅; gh_list := [root_group]; gh_tree := [root_group]; gh_cs := λ _, [] |}.
Lemma boot_shape : shape boot_mem boot_ghost.
Proof.
  assert (∀ x, x ∈ [root_group] → x = root_group) as Hr by (intros x Hx; by apply list_elem_of_singleton in Hx).
  split; cbn; try done.
  - intros x. rewrite elem_of_singleton. split; [intros ->; by eexists|]. intros [o Ho]. by apply lookup_singleton_Some in Ho as [? _].
  - by intros x ->%elem_of_singleton.
  - intros x ->%Hr. by apply elem_of_singleton.
  - intros x ->%Hr. by apply elem_of_singleton.
  - apply NoDup_singleton.
  - apply NoDup_singleton.
  - by left.
  - by intros p ->%Hr.
  - intros. constructor.
  - intros p x _. split; [by intros ?%not_elem_of_nil|]. intros (->%Hr&?&_). done.
  - intros l1 x l2 Hl Hx. destruct Hx. apply Hr. rewrite Hl. set_solver.
  - intros p R [<- _]%lookup_singleton_Some. by left.
  - by intros x ->%Hr.
Qed.
Lemma boot_deferred : deferred boot_mem boot_ghost.
Proof.
  split; cbn; try done.
  - intros x ->%list_elem_of_singleton. by right.
  - intros x f [<- _]%lookup_singleton_Some. by apply elem_of_singleton.
  - intros x [? _]%lookup_singleton_Some. by left.
Qed.

(** * Every run *)

Definition nothing_held (i : nat) : @assn tg_mem tg_ghost := base i (St None false None None).
Definition tg_pool_inv (s : tg_config) (g : tg_ghost) : Prop := pool_inv tgs (λ i (_ : unit), nothing_held i) nothing_held s g.
Lemma nothing_stable i : stable tgs i (nothing_held i).
Proof. apply tg_base_stable. Qed.

Lemma tg_boot_inv : tg_pool_inv tg_boot boot_ghost.
Proof.
  split; [split; [exact boot_shape|exact boot_deferred]|done|]. intros i _. split; cbn; try done.
  - intros y. split; [by intros [_ ?]%lookup_singleton_Some|by intros [? ?]].
  - intros p. split; [|done]. intros (R&HR&?). cbn in HR. apply lookup_singleton_Some in HR as [_ <-]. set_solver.
Qed.
Lemma tg_step_inv mv s s' g : tg_pool_inv s g → tg_step mv s = Some s' → ∃ g', tg_pool_inv s' g'.
Proof.
  intros Hp Hs. destruct mv as [i u|i|i]; cbn in Hs.
  - destruct (cf_pool s !! i) as [|] eqn:Hi; [done|]. injection Hs as <-. exists g. apply (pool_step tgs _ _ nothing_stable i s (cf_mem s) g); [done| | |].
    + split; [apply Hp|]. intros. apply tg_rely_refl.
    + intros j Hj. by rewrite lookup_insert_ne.
    + rewrite lookup_insert_eq. exists (nothing_held i). split_and!; [apply nothing_stable|by apply (p_out _ _ _ _ _ Hp)|apply tg_user_ok].
  - eapply (do_step_inv tgs); [apply nothing_stable|intros; apply tg_rely_refl|exact Hp|exact Hs].
  - destruct (cf_pool s !! i) as [[[[]| |] []]|] eqn:Hi; [|done..]. injection Hs as <-. exists g.
    apply (pool_step tgs _ _ nothing_stable i s (cf_mem s) g); [done| | |].
    + split; [apply Hp|]. intros. apply tg_rely_refl.
    + intros j Hj. by rewrite lookup_delete_ne.
    + rewrite lookup_delete_eq. destruct (p_rg _ _ _ _ _ Hp i _ _ Hi) as (P&_&HP&Hk). exact (Hk _ _ (p_inv _ _ _ _ _ Hp) HP).
Qed.
Lemma tg_run_inv mvs s : tg_run mvs tg_boot = Some s → ∃ g, tg_pool_inv s g.
Proof.
  assert (∀ mvs s0 g, tg_pool_inv s0 g → tg_run mvs s0 = Some s → ∃ g, tg_pool_inv s g) as Hgen; [|exact (Hgen mvs _ _ tg_boot_inv)].
  clear. intros mvs. induction mvs as [|mv mvs IH]; intros s0 g Hp Hr; cbn in Hr; [injection Hr as <-; by exists g|].
  destruct (tg_step mv s0) as [s1|] eqn:Hs; [|done]. destruct (tg_step_inv _ _ _ _ Hp Hs) as [g1 Hg1]. by eapply IH.
Qed.

Definition tg_next (s : tg_config) (i : nat) (e : tg_access) : Prop := ∃ k l, cf_pool s !! i = Some (Act e k, l).

(** C16: However groups are created, released and destroyed while others walk the tree and the lists
    of the run queues: every access is to memory that is allocated, visitors only see run
    queues that are registered, the lists change under the lock, and no callback is queued
    twice. *)
Theorem task_groups_memory_safe mvs s i e : tg_run mvs tg_boot = Some s → tg_next s i e → tg_safe i e (cf_mem s).
Proof.
  intros [g Hp]%tg_run_inv (k&l&Hi). exact (pool_safe tgs _ _ s g i e k l Hp Hi).
Qed.

(** The groups [tree] are linked as a tree: the list of children of each is the ring of its
    links in both directions and holds the groups whose parent it is, and all are reached from
    the root. *)
Record linked_tree (m : tg_mem) (tree : list Z) (cs : Z → list Z) : Prop := {
  lt_nodup : NoDup tree;
  lt_alloc x : x ∈ tree → x ∈ gm_alloc m;
  lt_ring p : p ∈ tree → ring (gm_next m) (gm_prev m) (children p) (siblings <$> cs p) ∧ NoDup (cs p);
  lt_child p x : p ∈ tree → x ∈ cs p ↔ x ∈ tree ∧ x ≠ root_group ∧ gm_parent m x = p;
  lt_reach x : x ∈ tree ↔ rtc (λ p x, x ∈ cs p) root_group x;
}.
Lemma tree_reached m g x : shape m g → x ∈ gh_tree g → rtc (λ p x, x ∈ gh_cs g p) root_group x.
Proof.
  intros Hs Hx. apply list_elem_of_split in Hx as (l1&l2&Hl).
  remember (length l2) as n eqn:Hn. revert x l1 l2 Hl Hn. induction n as [n IH] using lt_wf_ind. intros x l1 l2 Hl ->.
  destruct (decide (x = root_group)) as [->|Hr]; [apply rtc_refl|]. pose proof (v_order _ _ Hs _ _ _ Hl Hr) as Hp.
  assert (gm_parent m x ∈ gh_tree g) as Hpt by (rewrite Hl; set_solver).
  apply list_elem_of_split in Hp as (a&b&Hab). eapply rtc_r.
  - eapply (IH (length b)); [rewrite Hab, length_app; cbn; lia| |done]. by rewrite Hl, Hab, app_comm_cons, app_assoc.
  - apply (v_child _ _ Hs _ _ Hpt). split_and!; [rewrite Hl; set_solver|done|done].
Qed.
Lemma reached_tree m g x : shape m g → rtc (λ p x, x ∈ gh_cs g p) root_group x → x ∈ gh_tree g.
Proof.
  intros Hs Hr. pose proof (v_root _ _ Hs) as H0. induction Hr as [x|x y z Hxy _ IH]; [done|]. apply IH. by apply (v_child _ _ Hs) in Hxy as (?&_).
Qed.
(** C17: At every moment the groups that are online form a tree; whenever nobody has the lock the
    list of all groups holds just these, each before its parent. *)
Theorem task_groups_form_tree mvs s :
  tg_run mvs tg_boot = Some s →
  ∃ tree cs, linked_tree (cf_mem s) tree cs ∧
    (gm_lock (cf_mem s) = None → ring (gm_next (cf_mem s)) (gm_prev (cf_mem s)) task_groups (list_ <$> tree) ∧
       ∀ l1 x l2, tree = l1 ++ x :: l2 → x ≠ root_group → gm_parent (cf_mem s) x ∈ l2).
Proof.
  intros [g Hp]%tg_run_inv. destruct (p_inv _ _ _ _ _ Hp) as [Hs Hd]. exists (gh_tree g), (gh_cs g). split.
  - split; try (by apply Hs).
    + intros p Hpt. split; [by apply (v_ring _ _ Hs)|by apply (v_cs _ _ Hs)].
    + intros x. split; [by apply tree_reached with (cf_mem s)|by apply reached_tree with (cf_mem s)].
  - intros Hl. rewrite <-(v_lock _ _ Hs Hl) at 1. split; [apply Hs|apply (v_order _ _ Hs)].
Qed.
(** C18: When no thread is under way and no callback is pending, all groups but the root have been
    freed. *)
Theorem task_groups_not_leaked mvs s :
  tg_run mvs tg_boot = Some s → cf_pool s = ∅ → gm_rcu (cf_mem s) = ∅ → gm_alloc (cf_mem s) = {[root_group]} ∧ gm_lock (cf_mem s) = None ∧ gm_readers (cf_mem s) = ∅.
Proof.
  intros [g Hp]%tg_run_inv He Hr. destruct (p_inv _ _ _ _ _ Hp) as [Hs Hd].
  assert (∀ i, nothing_held i (cf_mem s) g) as Hout by (intros i; apply (p_out _ _ _ _ _ Hp); by rewrite He). split_and!.
  - apply set_eq. intros x. rewrite elem_of_singleton, (v_alloc _ _ Hs). split; [|intros ->; rewrite (v_root_own _ _ Hs); by eexists].
    intros [[i|] Ho]; [by apply (b_own _ _ _ _ (Hout i)) in Ho as [? ?]|]. apply (v_pending _ _ Hd) in Ho as [?|[? Hx]]; [done|]. by rewrite Hr in Hx.
  - destruct (gm_lock (cf_mem s)) as [i|] eqn:Hl; [|done]. by apply (b_lock _ _ _ _ (Hout i)) in Hl.
  - apply map_eq. intros i. rewrite lookup_empty. apply (b_reader _ _ _ _ (Hout i)).
Qed.
