(* ===== verification/StackCache.v ===== *)
(** Kernel stacks (fork.c, CONFIG_VMAP_STACK): each CPU caches two stacks, which any thread
    that runs there takes and returns with one atomic exchange; what does not fit is freed
    behind RCU; a CPU that goes away loses its cache.

    The functions are programs of atomic accesses ([Interleave]).  A thread can migrate
    between two accesses, so each has the CPU it is done on. *)
From S2P Require Import Prelude KState Interleave.

Definition NR_CACHED_STACKS : Z := 2.
(** THREAD_SIZE / PAGE_SIZE. *)
Definition stack_pages : Z := 4.

(** [sm_alloc]: the stacks that are allocated, with the number of pages charged to the memory
    control group; [sm_cached c i]: [cached_stacks[i]] of CPU [c], 0 being NULL; [sm_online]:
    whether threads can run on a CPU; [sm_hotplug]: the thread that takes a CPU down, and the
    CPU; [sm_rcu]: the stacks whose callback is pending; [sm_dirty]: the stacks that are not
    zeroed; [sm_tasks]: the tasks that are not dead, with the stack they run on. *)
Record stack_mem := {
  sm_alloc : gmap Z Z; sm_cached : Z → Z → Z; sm_online : Z → bool; sm_hotplug : option (nat * Z); sm_rcu : gset Z;
  sm_dirty : gset Z; sm_tasks : gmap nat Z
}.
#[export] Instance eta_stack_mem : Eta stack_mem := λ r,
  {| sm_alloc := sm_alloc r; sm_cached := sm_cached r; sm_online := sm_online r; sm_hotplug := sm_hotplug r; sm_rcu := sm_rcu r;
     sm_dirty := sm_dirty r; sm_tasks := sm_tasks r |}.

Inductive stack_access :=
  | XchgNull (c i : Z) | CmpxchgStack (c i s : Z) | ReadSlot (c i : Z) | ClearSlot (c i : Z)
  | Vmalloc (s : Z) | Vfree (s : Z) | Touch (s : Z) | ClearStack (s : Z) | StartOn (s : Z) | Die | IsDead | ChargePage (s : Z) | UnchargePage (s : Z)
  | StackCallRcu (s : Z) | StackRcuRun (s : Z) | CpuDown (c : Z) | CpuDead.
Abbreviation sprog := (prog stack_access).
Abbreviation stack_config := (pool stack_access stack_mem unit).

(** * The functions *)

(** [at_cpu i] is the CPU on which the access to slot [i] is done. *)
Definition release_round (at_cpu : Z → Z) (vm i : Z) : sprog (Z + Z) :=
  if NR_CACHED_STACKS <=? i then break 0 else
  ok ← test (CmpxchgStack (at_cpu i) i vm);
  if ok : bool then break 1 else again (i + 1).
Definition try_release_thread_stack_to_cache (at_cpu : Z → Z) (vm : Z) : sprog Z := loop (release_round at_cpu vm) 0.
Definition thread_stack_free_rcu (at_cpu : Z → Z) (s : Z) : sprog unit :=
  do_ (Touch s);;
  r ← try_release_thread_stack_to_cache at_cpu s;
  if negb (r =? 0) then mret tt else do_ (Vfree s).
(** The descriptor of the callback lies in the stack. *)
Definition thread_stack_delayed_free (s : Z) : sprog unit := do_ (Touch s);; do_ (StackCallRcu s).
Definition free_cache_round (c i : Z) : sprog (Z + Z) :=
  if NR_CACHED_STACKS <=? i then break 0 else
  s ← access_ (ReadSlot c i);
  if s =? 0 then again (i + 1) else
  do_ (Vfree s);; do_ (ClearSlot c i);; again (i + 1).
Definition free_vm_stack_cache (c : Z) : sprog Z := loop (free_cache_round c) 0.

(** [fails i]: the charge of page [i] is refused. *)
Definition uncharge_round (s n i : Z) : sprog (Z + Z) := if n <=? i then break 0 else do_ (UnchargePage s);; again (i + 1).
Definition charge_round (fails : Z → bool) (s i : Z) : sprog (Z + Z) :=
  if stack_pages <=? i then break (-1) else
  if fails i then break i else
  do_ (ChargePage s);; again (i + 1).
(** The number of pages charged before a failure comes back from the loop, -1 without one. *)
Definition memcg_charge_kernel_stack (fails : Z → bool) (s : Z) : sprog Z :=
  r ← loop (charge_round fails s) 0;
  if r <? 0 then mret 0 else
  loop (uncharge_round s r) 0;;
  mret (- ENOMEM).

(** A stack from the cache, or 0. *)
Definition take_round (at_cpu : Z → Z) (i : Z) : sprog (Z + Z) :=
  if NR_CACHED_STACKS <=? i then break 0 else
  s ← access_ (XchgNull (at_cpu i) i);
  if s =? 0 then again (i + 1) else break s.
(** [fresh]: the stack vmalloc has, if any.  The result is the stack, [None] for -ENOMEM. *)
Definition charge_new (fails : Z → bool) (s : Z) : sprog (option Z) :=
  ret ← memcg_charge_kernel_stack fails s;
  if negb (ret =? 0) then do_ (Vfree s);; mret None else mret (Some s).
Definition alloc_thread_stack_node (at_cpu : Z → Z) (fails : Z → bool) (fresh : option Z) : sprog (option Z) :=
  s ← loop (take_round at_cpu) 0;
  if negb (s =? 0) then do_ (ClearStack s);; charge_new fails s else
  match fresh with
  | None => mret None
  | Some s => do_ (Vmalloc s);; charge_new fails s
  end.
Definition free_thread_stack (at_cpu : Z → Z) (s : Z) : sprog unit :=
  r ← try_release_thread_stack_to_cache at_cpu s;
  if negb (r =? 0) then mret tt else thread_stack_delayed_free s.
(** The end of a task: [exit_task_stack_account], then [put_task_stack] by the last user. *)
Definition exit_task_stack_account (s : Z) : sprog unit := loop (uncharge_round s stack_pages) 0;; mret tt.
Definition release_task_stack (at_cpu : Z → Z) (s : Z) : sprog unit :=
  dead ← test IsDead;
  if negb dead then mret tt else free_thread_stack at_cpu s.

(** * Threads *)

(** A task gets a stack, runs on it and gives it back; the callback of a stack; a CPU goes
    down. *)
Inductive stack_user :=
  | use_task (c1 c2 : Z → Z) (fails : Z → bool) (fresh : option Z) | use_callback (at_cpu : Z → Z) (s : Z) | use_hotplug (c : Z).
Definition stack_prog (u : stack_user) : sprog unit :=
  match u with
  | use_task c1 c2 fails fresh =>
      r ← alloc_thread_stack_node c1 fails fresh;
      match r with
      | None => mret tt
      | Some s => do_ (StartOn s);; exit_task_stack_account s;; do_ Die;; release_task_stack c2 s
      end
  | use_callback at_cpu s => do_ (StackRcuRun s);; thread_stack_free_rcu at_cpu s
  | use_hotplug c => do_ (CpuDown c);; free_vm_stack_cache c;; do_ CpuDead
  end.

(** * Semantics *)

Definition set_slot (m : stack_mem) (c i s : Z) : stack_mem := m <| sm_cached := fset (sm_cached m) c (fset (sm_cached m c) i s) |>.
Definition stack_exec (t : nat) (e : stack_access) (m : stack_mem) : option (Z * stack_mem) :=
  match e with
  | XchgNull c i => if sm_online m c then Some (sm_cached m c i, set_slot m c i 0) else None
  | CmpxchgStack c i s =>
      if sm_online m c then if sm_cached m c i =? 0 then Some (1, set_slot m c i s) else Some (0, m) else None
  | ReadSlot c i => Some (sm_cached m c i, m)
  | ClearSlot c i => Some (0, set_slot m c i 0)
  | Vmalloc s => if bool_decide (0 < s ∧ sm_alloc m !! s = None) then
        Some (0, m <| sm_alloc := <[s := 0]> (sm_alloc m) |> <| sm_dirty := sm_dirty m ∖ {[s]} |>) else None
  | Vfree s => Some (0, m <| sm_alloc := delete s (sm_alloc m) |>)
  | Touch s => Some (0, m <| sm_dirty := {[s]} ∪ sm_dirty m |>)
  | ClearStack s => Some (0, m <| sm_dirty := sm_dirty m ∖ {[s]} |>)
  | StartOn s => Some (0, m <| sm_dirty := {[s]} ∪ sm_dirty m |> <| sm_tasks := <[t := s]> (sm_tasks m) |>)
  | Die => Some (0, m <| sm_tasks := delete t (sm_tasks m) |>)
  | IsDead => Some (of_bool (bool_decide (sm_tasks m !! t = None)), m)
  | ChargePage s => Some (0, m <| sm_alloc := alter (λ n, n + 1) s (sm_alloc m) |>)
  | UnchargePage s => Some (0, m <| sm_alloc := alter (λ n, n - 1) s (sm_alloc m) |>)
  | StackCallRcu s => Some (0, m <| sm_rcu := {[s]} ∪ sm_rcu m |>)
  | StackRcuRun s => if bool_decide (s ∈ sm_rcu m) then Some (0, m <| sm_rcu := sm_rcu m ∖ {[s]} |>) else None
  | CpuDown c =>
      match sm_hotplug m with
      | Some _ => None
      | None => Some (0, m <| sm_hotplug := Some (t, c) |> <| sm_online := fset (sm_online m) c false |>)
      end
  | CpuDead => Some (0, m <| sm_hotplug := None |>)
  end.
(** What has to hold at an access: a stack that is touched, charged or freed is allocated; a
    task starts on a stack that is charged, zeroed and used by no other; no page of a stack
    that is cached or freed is charged; a stack is queued once; the slots that are cleared
    without an exchange are those of the CPU that went down. *)
Definition stack_safe (t : nat) (e : stack_access) (m : stack_mem) : Prop :=
  match e with
  | Touch s | ClearStack s => is_Some (sm_alloc m !! s)
  | StartOn s => sm_alloc m !! s = Some stack_pages ∧ (s ∉ sm_dirty m) ∧ ∀ t', sm_tasks m !! t' ≠ Some s
  | ChargePage s => ∃ n, sm_alloc m !! s = Some n ∧ n < stack_pages
  | UnchargePage s => ∃ n, sm_alloc m !! s = Some n ∧ 0 < n
  | CmpxchgStack _ _ s | Vfree s => sm_alloc m !! s = Some 0
  | StackCallRcu s => sm_alloc m !! s = Some 0 ∧ s ∉ sm_rcu m
  | ReadSlot c _ | ClearSlot c _ => sm_hotplug m = Some (t, c) ∧ sm_online m c = false
  | _ => True
  end.

(** Threads begin, do an access, or end; a CPU that is down and dead comes back. *)
Inductive stack_move := StackBegin (t : nat) (u : stack_user) | StackDo (t : nat) | StackEnd (t : nat) | CpuUp (c : Z).
Definition stack_step (mv : stack_move) (s : stack_config) : option stack_config :=
  match mv with
  | StackBegin t u =>
      match cf_pool s !! t with
      | Some _ => None
      | None => Some {| cf_mem := cf_mem s; cf_pool := <[t := (stack_prog u, tt)]> (cf_pool s) |}
      end
  | StackDo t => do_step stack_exec t s
  | StackEnd t =>
      match cf_pool s !! t with Some (Ret _, _) => Some {| cf_mem := cf_mem s; cf_pool := delete t (cf_pool s) |} | _ => None end
  | CpuUp c =>
      match sm_hotplug (cf_mem s) with
      | Some _ => None
      | None => Some {| cf_mem := (cf_mem s) <| sm_online := fset (sm_online (cf_mem s)) c true |>; cf_pool := cf_pool s |}
      end
  end.
Fixpoint stack_run (mvs : list stack_move) (s : stack_config) : option stack_config :=
  match mvs with [] => Some s | mv :: mvs => match stack_step mv s with Some s => stack_run mvs s | None => None end end.
Definition stack_boot : stack_config :=
  {| cf_mem := {| sm_alloc := ∅; sm_cached := λ _ _, 0; sm_online := λ _, true; sm_hotplug := None; sm_rcu := ∅; sm_dirty := ∅; sm_tasks := ∅ |}; cf_pool := ∅ |}.
