(* ===== verification/StackSafe.v ===== *)
(** Kernel stacks in every interleaving of tasks that come and go, callbacks and CPUs that go
    down: no task runs on a stack of another, none is freed while it is used, and none is
    lost.  The protocol says who owns a stack. *)
From S2P Require Import Prelude KState Interleave StackCache.

(** A stack is held by a thread, lies in a slot of a cache, or waits for its callback. *)
Inductive owner := Held (t : nat) | InSlot (c i : Z) | Queued.
Abbreviation sghost := (gmap Z owner).
Implicit Types (m : stack_mem) (g : sghost) (t j : nat) (c i : Z).

Definition slot_ok m g c i : Prop := sm_cached m c i ≠ 0 → g !! sm_cached m c i = Some (InSlot c i).
Record stack_inv m g : Prop := {
  n_alloc s : is_Some (sm_alloc m !! s) ↔ is_Some (g !! s);
  n_pos s : is_Some (g !! s) → 0 < s;
  n_range c i : sm_cached m c i ≠ 0 → 0 <= i < NR_CACHED_STACKS;
  n_slot c i : (∀ t, sm_hotplug m ≠ Some (t, c)) → slot_ok m g c i;
  n_back s c i : g !! s = Some (InSlot c i) → sm_cached m c i = s;
  n_free s o : g !! s = Some o → (∀ t, o ≠ Held t) → sm_alloc m !! s = Some 0;
  n_rcu s : s ∈ sm_rcu m ↔ g !! s = Some Queued;
  n_down t c : sm_hotplug m = Some (t, c) → sm_online m c = false;
  n_task t s : sm_tasks m !! t = Some s → g !! s = Some (Held t);
}.
Record stack_rely j m g m' g' : Prop := {
  y_own s : g' !! s = Some (Held j) ↔ g !! s = Some (Held j);
  y_mine s : g !! s = Some (Held j) → sm_alloc m' !! s = sm_alloc m !! s ∧ (s ∈ sm_dirty m' ↔ s ∈ sm_dirty m);
  y_hot c : sm_hotplug m' = Some (j, c) ↔ sm_hotplug m = Some (j, c);
  y_slots c i : sm_hotplug m = Some (j, c) → sm_cached m' c i = sm_cached m c i ∧ ∀ s, g' !! s = Some (InSlot c i) ↔ g !! s = Some (InSlot c i);
  y_task : sm_tasks m' !! j = sm_tasks m !! j;
}.
Definition stacks : protocol stack_access stack_mem sghost := {|
  px_exec := stack_exec; px_inv := stack_inv; px_rely := stack_rely; px_safe := λ t e m _, stack_safe t e m
|}.
Lemma stack_rely_refl j m g : stack_rely j m g m g.
Proof. by split. Qed.

(** What a thread knows: the stack it holds, with its charge and whether it is zeroed, the CPU
    it takes down, and the stack its task runs on. *)
Record skn := { k_own : option (Z * Z * bool); k_hot : option Z; k_task : option Z }.
Record knows t (k : skn) m g : Prop := {
  h_own s : g !! s = Some (Held t) ↔ ∃ n b, k_own k = Some (s, n, b);
  h_desc s n b : k_own k = Some (s, n, b) → sm_alloc m !! s = Some n ∧ (b = true ↔ s ∉ sm_dirty m);
  h_hot c : sm_hotplug m = Some (t, c) ↔ k_hot k = Some c;
  h_task : sm_tasks m !! t = k_task k;
}.
Lemma knows_stable t k : stable stacks t (knows t k).
Proof.
  intros m g m' g' [H1 H2 H3 H4 H5] [K1 K2 K3 K4]. split.
  - intros s. by rewrite H1.
  - intros s n b Hs. destruct (H2 s) as [-> Hd]; [apply K1; eauto|]. destruct (K2 s n b Hs) as [? ?]. split; [done|]. by rewrite Hd.
  - intros c. by rewrite H3.
  - congruence.
Qed.
(** The slots of the CPU that goes down, from [i] on; those before are empty. *)
Definition slots_from c i m g : Prop := (∀ i', i <= i' → slot_ok m g c i') ∧ ∀ i', i' < i → sm_cached m c i' = 0.
Lemma slots_from_stable t k c i : k_hot k = Some c → stable stacks t (both (knows t k) (slots_from c i)).
Proof.
  intros Hc m g m' g' Hr [Hk [Hs Hz]]. split; [by eapply knows_stable|]. assert (sm_hotplug m = Some (t, c)) as Hh by (by apply (h_hot _ _ _ _ Hk)).
  split.
  - intros i' Hi'. unfold slot_ok in *. destruct (y_slots _ _ _ _ _ Hr c i' Hh) as [-> Hg]. intros Hn. apply Hg. auto.
  - intros i' Hi'. destruct (y_slots _ _ _ _ _ Hr c i' Hh) as [-> _]. auto.
Qed.
Create HintDb stk.
#[export] Hint Resolve knows_stable slots_from_stable stack_rely_refl : stk.
Abbreviation K o h k := {| k_own := o; k_hot := h; k_task := k |}.
Lemma holds_mine t s n b h k m g : knows t (K (Some (s, n, b)) h k) m g → g !! s = Some (Held t) ∧ sm_alloc m !! s = Some n.
Proof. intros Hk. split; [apply (h_own _ _ _ _ Hk); cbn; eauto|by eapply (h_desc _ _ _ _ Hk)]. Qed.

(** * Accesses to a stack the thread holds *)

(** The thread changes a stack of its own, or what is known of its task. *)
Lemma own_step t s n b h k m g (al : gmap Z Z) (d : gset Z) (ts : gmap nat Z) n' (b' : bool) k' :
  stack_inv m g → knows t (K (Some (s, n, b)) h k) m g →
  (∀ s', s' ≠ s → al !! s' = sm_alloc m !! s') → al !! s = Some n' → (∀ s', s' ≠ s → s' ∈ d ↔ s' ∈ sm_dirty m) → (b' = true ↔ s ∉ d) →
  (∀ t', t' ≠ t → ts !! t' = sm_tasks m !! t') → ts !! t = k' → (∀ s', k' = Some s' → s' = s) →
  let m' := m <| sm_alloc := al |> <| sm_dirty := d |> <| sm_tasks := ts |> in
  ok_step stacks t m g m' g ∧ knows t (K (Some (s, n', b')) h k') m' g.
Proof.
  intros Hi Hk Hal Has Hd Hds Hts Ht Hkt m'. destruct (holds_mine _ _ _ _ _ _ _ _ Hk) as [Hg Ha]. split; [split|].
  - destruct Hi as [I1 I2 I3 I4 I5 I6 I7 I8 I9]. split; cbn; try done.
    + intros s'. destruct (decide (s' = s)) as [->|]; [rewrite Has, Hg; split; eauto|by rewrite Hal].
    + intros s' o Ho Hno. destruct (decide (s' = s)) as [->|]; [|rewrite Hal; eauto]. rewrite Hg in Ho. injection Ho as <-. by destruct (Hno t).
    + intros t' s' Hs'. destruct (decide (t' = t)) as [->|]; [|rewrite Hts in Hs'; auto]. rewrite Ht in Hs'. by rewrite (Hkt _ Hs').
  - intros j Hj. split; cbn; try done; [|by rewrite Hts]. intros s' Hs'. assert (s' ≠ s) by congruence. split; [auto|apply Hd; done].
  - destruct Hk as [K1 K2 K3 K4]. split; cbn; [|by intros ? ? ? [= <- <- <-]|done|done].
    intros s'. rewrite K1. cbn. split; intros (?&?&[= <- ? ?]); eauto.
Qed.

Lemma st_touch t s n b h k :
  (∀ s', k = Some s' → s' = s) → rg stacks t (knows t (K (Some (s, n, b)) h k)) (do_ (Touch s)) (λ _, knows t (K (Some (s, n, false)) h k)).
Proof.
  intros Hks. apply rg_do; [auto with stk|]. intros m g Hi Hk. destruct (holds_mine _ _ _ _ _ _ _ _ Hk) as [Hg Ha]. split; [by eexists|].
  cbn. intros r m' [= <- <-]. exists g. eapply (own_step t s n b h k m g (sm_alloc m) ({[s]} ∪ sm_dirty m) (sm_tasks m)); try done; [set_solver|set_solver|apply Hk].
Qed.
Lemma st_clear t s n b h :
  rg stacks t (knows t (K (Some (s, n, b)) h None)) (do_ (ClearStack s)) (λ _, knows t (K (Some (s, n, true)) h None)).
Proof.
  apply rg_do; [auto with stk|]. intros m g Hi Hk. destruct (holds_mine _ _ _ _ _ _ _ _ Hk) as [Hg Ha]. split; [by eexists|].
  cbn. intros r m' [= <- <-]. exists g. eapply (own_step t s n b h None m g (sm_alloc m) (sm_dirty m ∖ {[s]}) (sm_tasks m)); try done; [set_solver|set_solver|apply Hk].
Qed.
Lemma st_start t s h :
  rg stacks t (knows t (K (Some (s, stack_pages, true)) h None)) (do_ (StartOn s)) (λ _, knows t (K (Some (s, stack_pages, false)) h (Some s))).
Proof.
  apply rg_do; [auto with stk|]. intros m g Hi Hk. destruct (holds_mine _ _ _ _ _ _ _ _ Hk) as [Hg Ha]. split.
  - split; [done|]. split; [by eapply (h_desc _ _ _ _ Hk)|]. intros t' Ht'. pose proof (n_task _ _ Hi _ _ Ht') as Hg'. rewrite Hg in Hg'. injection Hg' as <-.
    pose proof (h_task _ _ _ _ Hk). cbn in *. congruence.
  - cbn. intros r m' [= <- <-]. exists g. eapply (own_step t s _ true h None m g (sm_alloc m) ({[s]} ∪ sm_dirty m) (<[t := s]> (sm_tasks m))); try done; [set_solver|set_solver| | |].
    + intros t' Ht'. by rewrite lookup_insert_ne.
    + apply lookup_insert_eq.
    + by intros ? [= <-].
Qed.
Lemma st_die t s n b h k :
  rg stacks t (knows t (K (Some (s, n, b)) h k)) (do_ Die) (λ _, knows t (K (Some (s, n, b)) h None)).
Proof.
  apply rg_do; [auto with stk|]. intros m g Hi Hk. destruct (holds_mine _ _ _ _ _ _ _ _ Hk) as [Hg Ha]. split; [done|].
  cbn. intros r m' [= <- <-]. exists g. eapply (own_step t s n b h k m g (sm_alloc m) (sm_dirty m) (delete t (sm_tasks m))); try done; [by eapply (h_desc _ _ _ _ Hk)| |apply lookup_delete_eq].
  intros t' Ht'. by rewrite lookup_delete_ne.
Qed.
Lemma st_isdead t s n b h :
  rg stacks t (knows t (K (Some (s, n, b)) h None)) (test IsDead) (λ d m g, knows t (K (Some (s, n, b)) h None) m g ∧ d = true).
Proof.
  apply rg_test; [intros; apply pure_stable; auto with stk|]. intros m g Hi Hk. split; [done|]. cbn. intros r m' [= <- <-]. exists g. split.
  - split; [done|]. intros; apply stack_rely_refl.
  - pose proof (h_task _ _ _ _ Hk) as Ht. cbn in Ht. rewrite Ht. by rewrite bool_decide_eq_true_2.
Qed.
Lemma st_charge t s n b h :
  n < stack_pages → rg stacks t (knows t (K (Some (s, n, b)) h None)) (do_ (ChargePage s)) (λ _, knows t (K (Some (s, n + 1, b)) h None)).
Proof.
  intros Hn. apply rg_do; [auto with stk|]. intros m g Hi Hk. destruct (holds_mine _ _ _ _ _ _ _ _ Hk) as [Hg Ha]. split; [by exists n|].
  cbn. intros r m' [= <- <-]. exists g. eapply (own_step t s n b h None m g (alter (λ n, n + 1) s (sm_alloc m)) (sm_dirty m) (sm_tasks m)); try done;
    [intros; by rewrite lookup_alter_ne|by rewrite lookup_alter_eq, Ha|by eapply (h_desc _ _ _ _ Hk)|apply Hk].
Qed.
Lemma st_uncharge t s n b h k :
  0 < n → (∀ s', k = Some s' → s' = s) →
  rg stacks t (knows t (K (Some (s, n, b)) h k)) (do_ (UnchargePage s)) (λ _, knows t (K (Some (s, n - 1, b)) h k)).
Proof.
  intros Hn Hks. apply rg_do; [auto with stk|]. intros m g Hi Hk. destruct (holds_mine _ _ _ _ _ _ _ _ Hk) as [Hg Ha]. split; [by exists n|].
  cbn. intros r m' [= <- <-]. exists g. eapply (own_step t s n b h k m g (alter (λ n, n - 1) s (sm_alloc m)) (sm_dirty m) (sm_tasks m)); try done;
    [intros; by rewrite lookup_alter_ne|by rewrite lookup_alter_eq, Ha|by eapply (h_desc _ _ _ _ Hk)|apply Hk].
Qed.

(** * Accesses that give stacks away or get them *)

Lemma slot_eq m c i s : sm_cached (set_slot m c i s) c i = s.
Proof. cbn. by rewrite !fset_eq. Qed.
Lemma slot_ne m c i s c' i' : (c', i') ≠ (c, i) → sm_cached (set_slot m c i s) c' i' = sm_cached m c' i'.
Proof. intros Hne. cbn. unfold fset. case_decide; [subst|done]. case_decide; [congruence|done]. Qed.
Lemma online_not_down m g c : stack_inv m g → sm_online m c = true → ∀ t, sm_hotplug m ≠ Some (t, c).
Proof. intros Hi Ho t Hh. apply (n_down _ _ Hi) in Hh. congruence. Qed.
Lemma knows_none t h k m g m' g' :
  knows t (K None h k) m g → (∀ s, g' !! s ≠ Some (Held t)) → (∀ c, sm_hotplug m' = Some (t, c) ↔ sm_hotplug m = Some (t, c)) →
  sm_tasks m' !! t = sm_tasks m !! t → knows t (K None h k) m' g'.
Proof.
  intros [K1 K2 K3 K4] Hg Hh Ht. split; cbn in *; [|done| |congruence].
  - intros s. split; [intros Hs; by destruct (Hg s)|intros (?&?&?); done].
  - intros c. by rewrite Hh.
Qed.
Lemma knows_some t s n b h k o m g m' g' :
  knows t (K o h k) m g → (∀ s', g' !! s' = Some (Held t) ↔ s' = s) → sm_alloc m' !! s = Some n → (b = true ↔ s ∉ sm_dirty m') →
  (∀ c, sm_hotplug m' = Some (t, c) ↔ sm_hotplug m = Some (t, c)) → sm_tasks m' !! t = sm_tasks m !! t → knows t (K (Some (s, n, b)) h k) m' g'.
Proof.
  intros [K1 K2 K3 K4] Hg Ha Hb Hh Ht. split; cbn in *; [| | |congruence].
  - intros s'. rewrite Hg. split; [intros ->; eauto|by intros (?&?&[= <- _ _])].
  - by intros ? ? ? [= <- <- <-].
  - intros c. by rewrite Hh.
Qed.
Lemma none_held t h k m g s : knows t (K None h k) m g → g !! s ≠ Some (Held t).
Proof. intros Hk Hs. apply (h_own _ _ _ _ Hk) in Hs as (?&?&?). done. Qed.

(** The owner of a stack changes. *)
Lemma transfer_inv m g m' s o o' :
  stack_inv m g → g !! s = Some o → sm_alloc m' = sm_alloc m → sm_tasks m' = sm_tasks m → sm_hotplug m' = sm_hotplug m → sm_online m' = sm_online m →
  (∀ t, sm_tasks m !! t ≠ Some s) → ((∀ t, o' ≠ Held t) → sm_alloc m !! s = Some 0) →
  (∀ c i, sm_cached m' c i ≠ 0 → 0 <= i < NR_CACHED_STACKS) → (∀ c i, (∀ t, sm_hotplug m ≠ Some (t, c)) → slot_ok m' (<[s := o']> g) c i) →
  (∀ s' c i, <[s := o']> g !! s' = Some (InSlot c i) → sm_cached m' c i = s') → (∀ s', s' ∈ sm_rcu m' ↔ <[s := o']> g !! s' = Some Queued) →
  stack_inv m' (<[s := o']> g).
Proof.
  intros [I1 I2 I3 I4 I5 I6 I7 I8 I9] Hg Ha Ht Hh Ho Hnt Hz J1 J2 J3 J4. split; rewrite ?Ha, ?Ht, ?Hh, ?Ho; try done.
  - intros s'. rewrite I1. destruct (decide (s' = s)) as [->|]; [rewrite lookup_insert_eq, Hg; split; eauto|by rewrite lookup_insert_ne].
  - intros s' [o1 Ho1]. destruct (decide (s' = s)) as [->|]; [by apply I2; rewrite Hg|]. rewrite lookup_insert_ne in Ho1 by done. by apply I2; eexists.
  - intros s' o1 Ho1 Hno. destruct (decide (s' = s)) as [->|]; [rewrite lookup_insert_eq in Ho1; injection Ho1 as <-; auto|].
    rewrite lookup_insert_ne in Ho1 by done. by eapply I6.
  - intros t s' Hs'. destruct (decide (s' = s)) as [->|]; [by destruct (Hnt t)|]. rewrite lookup_insert_ne by done. by apply I9.
Qed.
(** ... from or to the thread that does the access. *)
Lemma transfer_rely m g m' s o o' t j :
  g !! s = Some o → j ≠ t → (∀ t', o = Held t' → t' = t) → (∀ t', o' = Held t' → t' = t) → sm_alloc m' = sm_alloc m → sm_dirty m' = sm_dirty m →
  sm_tasks m' = sm_tasks m → sm_hotplug m' = sm_hotplug m →
  (∀ c i, sm_hotplug m = Some (j, c) → sm_cached m' c i = sm_cached m c i ∧ o ≠ InSlot c i ∧ o' ≠ InSlot c i) →
  stack_rely j m g m' (<[s := o']> g).
Proof.
  intros Hg Hj Ho Ho' Ha Hd Ht Hh Hc. split; rewrite ?Ha, ?Hd, ?Ht, ?Hh; try done.
  - intros s'. destruct (decide (s' = s)) as [->|]; [|by rewrite lookup_insert_ne]. rewrite lookup_insert_eq, Hg. split; intros [= ->]; naive_solver.
  - intros c i Hjc. destruct (Hc c i Hjc) as (Hs&Hn&Hn'). split; [done|]. intros s'. destruct (decide (s' = s)) as [->|]; [rewrite lookup_insert_eq, Hg; split; congruence|by rewrite lookup_insert_ne].
Qed.
Lemma not_running t s n b h m g : stack_inv m g → knows t (K (Some (s, n, b)) h None) m g → ∀ t', sm_tasks m !! t' ≠ Some s.
Proof.
  intros Hi Hk t' Ht'. destruct (holds_mine _ _ _ _ _ _ _ _ Hk) as [Hg _]. pose proof (n_task _ _ Hi _ _ Ht') as Hg'. rewrite Hg in Hg'. injection Hg' as <-.
  pose proof (h_task _ _ _ _ Hk). cbn in *. congruence.
Qed.
Lemma gave_away t s n b h k m g m' g' o :
  knows t (K (Some (s, n, b)) h k) m g → g' = <[s := o]> g → o ≠ Held t → (∀ c, sm_hotplug m' = Some (t, c) ↔ sm_hotplug m = Some (t, c)) →
  sm_tasks m' !! t = sm_tasks m !! t → knows t (K None h k) m' g'.
Proof.
  intros [K1 K2 K3 K4] -> Ho Hh Ht. split; cbn in *; [|done| |congruence].
  - intros s'. split; [|intros (?&?&?); done]. destruct (decide (s' = s)) as [->|]; [rewrite lookup_insert_eq; congruence|]. rewrite lookup_insert_ne, K1 by done.
    intros (?&?&[= <- _ _]). done.
  - intros c. by rewrite Hh.
Qed.

Lemma got_it t s n h k m g m' :
  knows t (K None h k) m g → sm_alloc m' !! s = Some n → sm_dirty m' = sm_dirty m → sm_hotplug m' = sm_hotplug m → sm_tasks m' = sm_tasks m →
  knows t (K (Some (s, n, bool_decide (s ∉ sm_dirty m))) h k) m' (<[s := Held t]> g).
Proof.
  intros Hk Ha Hd Hh Ht. eapply knows_some; [exact Hk| |done|by rewrite bool_decide_eq_true, Hd|by rewrite Hh|by rewrite Ht].
  intros s'. destruct (decide (s' = s)) as [->|]; [by rewrite lookup_insert_eq|]. rewrite lookup_insert_ne by done. split; [|done]. intros Hs'. by apply (none_held _ _ _ _ _ _ Hk) in Hs'.
Qed.

Lemma st_xchg t c i :
  rg stacks t (knows t (K None None None)) (access_ (XchgNull c i))
    (λ s m g, if decide (s = 0) then knows t (K None None None) m g else ∃ b, knows t (K (Some (s, 0, b)) None None) m g).
Proof.
  apply rg_access. { intros s. destruct (decide (s = 0)); [auto with stk|apply ex_stable; auto with stk]. }
  intros m g Hi Hk. split; [done|]. cbn. intros r m'. destruct (sm_online m c) eqn:Hon; [|done]. intros [= <- <-].
  pose proof (online_not_down _ _ _ Hi Hon) as Hnd. pose proof (n_slot _ _ Hi c i Hnd) as Hsl. unfold slot_ok in Hsl. destruct (decide (sm_cached m c i = 0)) as [Hz|Hnz].
  - exists g. assert (∀ c' i', sm_cached (set_slot m c i 0) c' i' = sm_cached m c' i') as Hsame.
    { intros c' i'. destruct (decide ((c', i') = (c, i))) as [[= -> ->]|]; [by rewrite slot_eq|by apply slot_ne]. }
    split; [split|].
    + destruct Hi as [I1 I2 I3 I4 I5 I6 I7 I8 I9]. split; try done; unfold slot_ok; setoid_rewrite Hsame; done.
    + intros j Hj. split; [done|done|done| |done]. intros c' i' _. by rewrite Hsame.
    + eapply knows_none; [done|intros s; by eapply none_held|done|done].
  - specialize (Hsl Hnz). remember (sm_cached m c i) as s eqn:Hs0. exists (<[s := Held t]> g). pose proof (n_free _ _ Hi s _ Hsl ltac:(done)) as Ha. split; [split|].
    + eapply transfer_inv; try done; [intros t' Ht'; pose proof (n_task _ _ Hi _ _ Ht'); congruence|..].
      * intros c' i' Hn. destruct (decide ((c', i') = (c, i))) as [[= -> ->]|Hne]; [by rewrite slot_eq in Hn|]. rewrite slot_ne in Hn by done. by apply (n_range _ _ Hi) in Hn.
      * intros c' i' Hn'. unfold slot_ok. destruct (decide ((c', i') = (c, i))) as [[= -> ->]|Hne]; [by rewrite slot_eq|]. rewrite slot_ne by done. intros Hn.
        pose proof (n_slot _ _ Hi c' i' Hn' Hn) as Hs. rewrite lookup_insert_ne; [done|]. intros He. rewrite <-He, Hsl in Hs. congruence.
      * intros s' c' i' Hs'. destruct (decide (s' = s)) as [->|]; [by rewrite lookup_insert_eq in Hs'|]. rewrite lookup_insert_ne in Hs' by done. apply (n_back _ _ Hi) in Hs'.
        rewrite slot_ne; [done|]. intros [= -> ->]. congruence.
      * intros s'. rewrite (n_rcu _ _ Hi). destruct (decide (s' = s)) as [->|]; [rewrite lookup_insert_eq, Hsl; done|by rewrite lookup_insert_ne].
    + intros j Hj. eapply (transfer_rely _ _ _ _ _ _ t); [exact Hsl|done|done|by intros ? [= <-]|done..|].
      intros c' i' Hh. assert (c' ≠ c) by (intros ->; by apply Hnd in Hh). split; [apply slot_ne; congruence|]. split; congruence.
    + exists (bool_decide (s ∉ sm_dirty m)). by eapply got_it.
Qed.
Lemma st_cmpxchg t c i s b :
  0 <= i < NR_CACHED_STACKS →
  rg stacks t (knows t (K (Some (s, 0, b)) None None)) (test (CmpxchgStack c i s))
    (λ ok, if ok then knows t (K None None None) else knows t (K (Some (s, 0, b)) None None)).
Proof.
  intros Hr. apply rg_test; [intros []; auto with stk|]. intros m g Hi Hk. destruct (holds_mine _ _ _ _ _ _ _ _ Hk) as [Hg Ha]. split; [done|].
  cbn [px_exec stacks stack_exec]. intros r m'. destruct (sm_online m c) eqn:Hon; [|done]. pose proof (online_not_down _ _ _ Hi Hon) as Hnd.
  destruct (Z.eqb_spec (sm_cached m c i) 0) as [Hz|]; intros [= <- <-]; cbn [Z.eqb negb].
  2:{ exists g. split; [split; [done|intros; apply stack_rely_refl]|done]. }
  exists (<[s := InSlot c i]> g). split; [split|].
  - eapply transfer_inv; try done; [by eapply not_running|..].
    + intros c' i' Hn. destruct (decide ((c', i') = (c, i))) as [[= -> ->]|Hne]; [done|]. rewrite slot_ne in Hn by done. by apply (n_range _ _ Hi) in Hn.
    + intros c' i' Hn'. unfold slot_ok. destruct (decide ((c', i') = (c, i))) as [[= -> ->]|Hne]; [by rewrite slot_eq, lookup_insert_eq|]. rewrite slot_ne by done.
      intros Hn. pose proof (n_slot _ _ Hi c' i' Hn' Hn) as Hs. rewrite lookup_insert_ne; [done|]. intros He. rewrite <-He in Hs. congruence.
    + intros s' c' i' Hs'. destruct (decide (s' = s)) as [->|]; [rewrite lookup_insert_eq in Hs'; injection Hs' as <- <-; apply slot_eq|].
      rewrite lookup_insert_ne in Hs' by done. apply (n_back _ _ Hi) in Hs' as Hb. rewrite slot_ne; [done|]. intros [= -> ->]. rewrite Hz in Hb. subst s'.
      pose proof (n_pos _ _ Hi 0 ltac:(rewrite Hs'; eauto)). lia.
    + intros s'. rewrite (n_rcu _ _ Hi). destruct (decide (s' = s)) as [->|]; [rewrite lookup_insert_eq, Hg; done|by rewrite lookup_insert_ne].
  - intros j Hj. eapply (transfer_rely _ _ _ _ _ _ t); [exact Hg|done|by intros ? [= <-]|done|done..|]. intros c' i' Hh. assert (c' ≠ c) by (intros ->; by apply Hnd in Hh). split; [apply slot_ne; congruence|]. split; congruence.
  - by eapply gave_away.
Qed.
Lemma st_call_rcu t s b :
  rg stacks t (knows t (K (Some (s, 0, b)) None None)) (do_ (StackCallRcu s)) (λ _, knows t (K None None None)).
Proof.
  apply rg_do; [auto with stk|]. intros m g Hi Hk. destruct (holds_mine _ _ _ _ _ _ _ _ Hk) as [Hg Ha]. split.
  { split; [done|]. rewrite (n_rcu _ _ Hi), Hg. done. }
  cbn [px_exec stacks stack_exec]. intros r m' [= <- <-]. exists (<[s := Queued]> g). split; [split|].
  - eapply transfer_inv; try done; [by eapply not_running|apply (n_range _ _ Hi)|..].
    + intros c i Hn' Hn. cbn in Hn |- *. pose proof (n_slot _ _ Hi c i Hn' Hn) as Hs. rewrite lookup_insert_ne; [done|]. intros He. rewrite <-He in Hs. congruence.
    + intros s' c i Hs'. destruct (decide (s' = s)) as [->|]; [by rewrite lookup_insert_eq in Hs'|]. rewrite lookup_insert_ne in Hs' by done. by apply (n_back _ _ Hi) in Hs'.
    + intros s'. cbn. rewrite elem_of_union, elem_of_singleton, (n_rcu _ _ Hi). destruct (decide (s' = s)) as [->|]; [rewrite lookup_insert_eq; tauto|rewrite lookup_insert_ne by done; tauto].
  - intros j Hj. eapply (transfer_rely _ _ _ _ _ _ t); [exact Hg|done|by intros ? [= <-]|done|done..|]. by split.
  - by eapply gave_away.
Qed.
Lemma st_rcu_run t s :
  rg stacks t (knows t (K None None None)) (do_ (StackRcuRun s)) (λ _ m g, ∃ b, knows t (K (Some (s, 0, b)) None None) m g).
Proof.
  apply rg_do; [apply ex_stable; auto with stk|]. intros m g Hi Hk. split; [done|]. cbn [px_exec stacks stack_exec]. intros r m'.
  destruct (bool_decide_reflect (s ∈ sm_rcu m)) as [Hs|]; [|done]. intros [= <- <-]. apply (n_rcu _ _ Hi) in Hs as Hg. pose proof (n_free _ _ Hi s _ Hg ltac:(done)) as Ha.
  exists (<[s := Held t]> g). split; [split|].
  - eapply transfer_inv; try done; [intros t' Ht'; pose proof (n_task _ _ Hi _ _ Ht'); congruence|apply (n_range _ _ Hi)|..].
    + intros c i Hn' Hn. cbn in Hn |- *. pose proof (n_slot _ _ Hi c i Hn' Hn) as Hsl. rewrite lookup_insert_ne; [done|]. intros He. rewrite <-He in Hsl. congruence.
    + intros s' c i Hs'. destruct (decide (s' = s)) as [->|]; [by rewrite lookup_insert_eq in Hs'|]. rewrite lookup_insert_ne in Hs' by done. by apply (n_back _ _ Hi) in Hs'.
    + intros s'. cbn. rewrite elem_of_difference, elem_of_singleton, (n_rcu _ _ Hi). destruct (decide (s' = s)) as [->|]; [rewrite lookup_insert_eq; naive_solver|rewrite lookup_insert_ne by done; tauto].
  - intros j Hj. eapply (transfer_rely _ _ _ _ _ _ t); [exact Hg|done|done|by intros ? [= <-]|done..|]. by split.
  - exists (bool_decide (s ∉ sm_dirty m)). by apply got_it.
Qed.

Lemma st_vmalloc t s :
  rg stacks t (knows t (K None None None)) (do_ (Vmalloc s)) (λ _, knows t (K (Some (s, 0, true)) None None)).
Proof.
  apply rg_do; [auto with stk|]. intros m g Hi Hk. split; [done|]. cbn [px_exec stacks stack_exec]. intros r m'.
  destruct (bool_decide_reflect (0 < s ∧ sm_alloc m !! s = None)) as [[Hp Hs]|]; [|done]. intros [= <- <-].
  assert (g !! s = None) as Hg by (apply eq_None_not_Some; rewrite <-(n_alloc _ _ Hi), Hs; by intros [? ?]).
  exists (<[s := Held t]> g). split; [split|].
  - destruct Hi as [I1 I2 I3 I4 I5 I6 I7 I8 I9]. split; cbn; try done.
    + intros s'. destruct (decide (s' = s)) as [->|]; [rewrite !lookup_insert_eq; split; eauto|by rewrite !lookup_insert_ne].
    + intros s' Ho. destruct (decide (s' = s)) as [->|]; [done|]. rewrite lookup_insert_ne in Ho by done. auto.
    + intros c i Hn' Hn. cbn in Hn |- *. pose proof (I4 c i Hn' Hn) as Hsl. rewrite lookup_insert_ne; [done|]. intros He. rewrite <-He in Hsl. congruence.
    + intros s' c i Hs'. destruct (decide (s' = s)) as [->|]; [by rewrite lookup_insert_eq in Hs'|]. rewrite lookup_insert_ne in Hs' by done. auto.
    + intros s' o Ho Hno. destruct (decide (s' = s)) as [->|]; [rewrite lookup_insert_eq in Ho; injection Ho as <-; by destruct (Hno t)|].
      rewrite lookup_insert_ne in Ho by done. rewrite lookup_insert_ne by done. eauto.
    + intros s'. rewrite I7. destruct (decide (s' = s)) as [->|]; [rewrite lookup_insert_eq, Hg; done|by rewrite lookup_insert_ne].
    + intros t' s' Hs'. apply I9 in Hs'. rewrite lookup_insert_ne; [done|]. congruence.
  - intros j Hj. split; cbn; try done.
    + intros s'. destruct (decide (s' = s)) as [->|]; [rewrite lookup_insert_eq, Hg; split; congruence|by rewrite lookup_insert_ne].
    + intros s' Hs'. assert (s' ≠ s) by congruence. rewrite lookup_insert_ne by done. split; [done|]. set_solver.
    + intros c i _. split; [done|]. intros s'. destruct (decide (s' = s)) as [->|]; [rewrite lookup_insert_eq, Hg; split; congruence|by rewrite lookup_insert_ne].
  - eapply knows_some; [exact Hk| |apply lookup_insert_eq|set_solver|done|done].
    intros s'. destruct (decide (s' = s)) as [->|]; [by rewrite lookup_insert_eq|]. rewrite lookup_insert_ne by done. split; [|done]. intros Hs'. by apply (none_held _ _ _ _ _ _ Hk) in Hs'.
Qed.
(** The stack of a thread is gone. *)
Lemma vfree_step t s b h m g :
  stack_inv m g → knows t (K (Some (s, 0, b)) h None) m g →
  let m' := m <| sm_alloc := delete s (sm_alloc m) |> in ok_step stacks t m g m' (delete s g) ∧ knows t (K None h None) m' (delete s g).
Proof.
  intros Hi Hk m'. destruct (holds_mine _ _ _ _ _ _ _ _ Hk) as [Hg Ha]. pose proof (not_running _ _ _ _ _ _ _ Hi Hk) as Hnr. split; [split|].
  - destruct Hi as [I1 I2 I3 I4 I5 I6 I7 I8 I9]. split; cbn; try done.
    + intros s'. destruct (decide (s' = s)) as [->|]; [by rewrite !lookup_delete_eq|by rewrite !lookup_delete_ne].
    + intros s' [o [_ Ho]%lookup_delete_Some]. eauto.
    + intros c i Hn' Hn. cbn in Hn |- *. pose proof (I4 c i Hn' Hn) as Hsl. rewrite lookup_delete_ne; [done|]. intros He. rewrite <-He in Hsl. congruence.
    + intros s' c i [_ Hs']%lookup_delete_Some. auto.
    + intros s' o [Hne Ho]%lookup_delete_Some Hno. rewrite lookup_delete_ne by done. eauto.
    + intros s'. rewrite I7. destruct (decide (s' = s)) as [->|]; [rewrite lookup_delete_eq, Hg; done|by rewrite lookup_delete_ne].
    + intros t' s' Hs'. rewrite lookup_delete_ne; [by apply I9|]. intros ->. by destruct (Hnr t').
  - intros j Hj. split; cbn; try done.
    + intros s'. destruct (decide (s' = s)) as [->|]; [rewrite lookup_delete_eq, Hg; split; congruence|by rewrite lookup_delete_ne].
    + intros s' Hs'. assert (s' ≠ s) by congruence. by rewrite lookup_delete_ne.
    + intros c i _. split; [done|]. intros s'. destruct (decide (s' = s)) as [->|]; [rewrite lookup_delete_eq, Hg; split; congruence|by rewrite lookup_delete_ne].
  - destruct Hk as [K1 K2 K3 K4]. split; cbn in *; [|done|done|done]. intros s'. split; [|by intros (?&?&?)]. intros [Hne Hs']%lookup_delete_Some. apply K1 in Hs' as (?&?&[= <- _ _]). done.
Qed.
Lemma st_vfree t s b h :
  rg stacks t (knows t (K (Some (s, 0, b)) h None)) (do_ (Vfree s)) (λ _, knows t (K None h None)).
Proof.
  apply rg_do; [auto with stk|]. intros m g Hi Hk. split; [by eapply holds_mine|]. intros r m' [= <- <-]. exists (delete s g). by eapply vfree_step.
Qed.

(** * A CPU goes down *)

Lemma st_cpu_down t c :
  rg stacks t (knows t (K None None None)) (do_ (CpuDown c)) (λ _, both (knows t (K None (Some c) None)) (slots_from c 0)).
Proof.
  apply rg_do; [by apply slots_from_stable|]. intros m g Hi Hk. split; [done|]. cbn [px_exec stacks stack_exec]. intros r m'.
  destruct (sm_hotplug m) as [[t' c']|] eqn:Hh; [done|]. intros [= <- <-]. exists g. split; [split|split].
  - destruct Hi as [I1 I2 I3 I4 I5 I6 I7 I8 I9]. split; cbn; try done.
    + intros c' i _. apply I4. by rewrite Hh.
    + intros t' c' [= <- <-]. apply fset_eq.
  - intros j Hj. split; cbn; try done; rewrite ?Hh; try done. intros c'. split; congruence.
  - destruct Hk as [K1 K2 K3 K4]. split; cbn in *; try done. intros c'. split; congruence.
  - split.
    + intros i _. apply (n_slot _ _ Hi). by rewrite Hh.
    + intros i Hn. cbn. destruct (decide (sm_cached m c i = 0)) as [|Hne]; [done|]. apply (n_range _ _ Hi) in Hne. lia.
Qed.
(** The slots while the stack of slot [i] is freed. *)
Definition slot_taken c i m g : Prop :=
  (∀ i', i < i' → slot_ok m g c i') ∧ (∀ i', i' < i → sm_cached m c i' = 0) ∧ ∀ s, g !! s ≠ Some (InSlot c i).
Lemma slot_taken_stable t k c i : k_hot k = Some c → stable stacks t (both (knows t k) (slot_taken c i)).
Proof.
  intros Hc m g m' g' Hr [Hk (Hs&Hz&Hn)]. split; [by eapply knows_stable|]. assert (sm_hotplug m = Some (t, c)) as Hh by (by apply (h_hot _ _ _ _ Hk)). split_and!.
  - intros i' Hi'. unfold slot_ok in *. destruct (y_slots _ _ _ _ _ Hr c i' Hh) as [-> Hg]. intros ?. apply Hg. auto.
  - intros i' Hi'. destruct (y_slots _ _ _ _ _ Hr c i' Hh) as [-> _]. auto.
  - intros s. destruct (y_slots _ _ _ _ _ Hr c i Hh) as [_ Hg]. rewrite Hg. auto.
Qed.
Lemma st_read_slot t c i :
  rg stacks t (both (knows t (K None (Some c) None)) (slots_from c i)) (access_ (ReadSlot c i))
    (λ s, if decide (s = 0) then both (knows t (K None (Some c) None)) (slots_from c (i + 1))
          else λ m g, ∃ b, both (knows t (K (Some (s, 0, b)) (Some c) None)) (slot_taken c i) m g).
Proof.
  apply rg_access. { intros s. destruct (decide (s = 0)); [by apply slots_from_stable|apply ex_stable; intros; by apply slot_taken_stable]. }
  intros m g Hi [Hk [Hs Hz]]. assert (sm_hotplug m = Some (t, c)) as Hh by (by apply (h_hot _ _ _ _ Hk)). split; [split; [done|by apply (n_down _ _ Hi) in Hh]|].
  cbn [px_exec stacks stack_exec]. intros r m' [= <- <-]. destruct (decide (sm_cached m c i = 0)) as [H0|Hn].
  - exists g. split; [split; [done|intros; apply stack_rely_refl]|]. split; [done|]. split; [intros i' Hi'; apply Hs; lia|].
    intros i' Hi'. destruct (decide (i' = i)) as [->|]; [done|]. apply Hz. lia.
  - pose proof (Hs i ltac:(lia) Hn) as Hg. remember (sm_cached m c i) as s eqn:Hs0. pose proof (n_free _ _ Hi s _ Hg ltac:(done)) as Ha.
    exists (<[s := Held t]> g). split; [split|exists (bool_decide (s ∉ sm_dirty m)); split; [by apply got_it|]].
    + eapply transfer_inv; try done; [intros t' Ht'; pose proof (n_task _ _ Hi _ _ Ht'); congruence|apply (n_range _ _ Hi)|..].
      * intros c' i' Hn' Hne. pose proof (n_slot _ _ Hi c' i' Hn' Hne) as Hsl. assert (c' ≠ c) by (intros ->; by destruct (Hn' t)). rewrite lookup_insert_ne; [done|].
        intros He. rewrite <-He, Hg in Hsl. congruence.
      * intros s' c' i' Hs'. destruct (decide (s' = s)) as [->|]; [by rewrite lookup_insert_eq in Hs'|]. rewrite lookup_insert_ne in Hs' by done. by apply (n_back _ _ Hi) in Hs'.
      * intros s'. rewrite (n_rcu _ _ Hi). destruct (decide (s' = s)) as [->|]; [rewrite lookup_insert_eq, Hg; done|by rewrite lookup_insert_ne].
    + intros j Hj. eapply (transfer_rely _ _ _ _ _ _ t); [exact Hg|done|done|by intros ? [= <-]|done..|]. intros c' i' Hh'. rewrite Hh in Hh'. congruence.
    + split_and!; [|done|].
      * intros i' Hi' Hne. pose proof (Hs i' ltac:(lia) Hne) as Hsl. rewrite lookup_insert_ne; [done|]. intros He. rewrite <-He, Hg in Hsl. injection Hsl as ->. lia.
      * intros s' Hs'. destruct (decide (s' = s)) as [->|]; [by rewrite lookup_insert_eq in Hs'|]. rewrite lookup_insert_ne in Hs' by done. apply (n_back _ _ Hi) in Hs'. congruence.
Qed.
Lemma st_vfree_slot t s b c i :
  rg stacks t (both (knows t (K (Some (s, 0, b)) (Some c) None)) (slot_taken c i)) (do_ (Vfree s))
    (λ _, both (knows t (K None (Some c) None)) (slot_taken c i)).
Proof.
  apply rg_do; [by apply slot_taken_stable|]. intros m g Hi [Hk (Hs&Hz&Hn)]. destruct (holds_mine _ _ _ _ _ _ _ _ Hk) as [Hg Ha]. split; [done|].
  intros r m' [= <- <-]. exists (delete s g). destruct (vfree_step _ _ _ _ _ _ Hi Hk) as [Hok Hk']. split; [exact Hok|]. split; [exact Hk'|]. split_and!; [|done|].
  - intros i' Hi' Hne. cbn in Hne |- *. pose proof (Hs i' Hi' Hne) as Hsl. rewrite lookup_delete_ne; [done|]. intros He. rewrite <-He, Hg in Hsl. done.
  - intros s' [_ Hs']%lookup_delete_Some. by apply Hn in Hs'.
Qed.
Lemma st_clear_slot t c i :
  rg stacks t (both (knows t (K None (Some c) None)) (slot_taken c i)) (do_ (ClearSlot c i))
    (λ _, both (knows t (K None (Some c) None)) (slots_from c (i + 1))).
Proof.
  apply rg_do; [by apply slots_from_stable|]. intros m g Hi [Hk (Hs&Hz&Hn)]. assert (sm_hotplug m = Some (t, c)) as Hh by (by apply (h_hot _ _ _ _ Hk)).
  split; [split; [done|by apply (n_down _ _ Hi) in Hh]|]. cbn [px_exec stacks stack_exec]. intros r m' [= <- <-]. exists g. split; [split|split].
  - destruct Hi as [I1 I2 I3 I4 I5 I6 I7 I8 I9]. split; try done.
    + intros c' i' Hne. destruct (decide ((c', i') = (c, i))) as [[= -> ->]|]; [by rewrite slot_eq in Hne|]. rewrite slot_ne in Hne by done. by apply I3 in Hne.
    + intros c' i' Hn'. assert (c' ≠ c) by (intros ->; by destruct (Hn' t)). unfold slot_ok. rewrite slot_ne by congruence. by apply I4.
    + intros s c' i' Hs'. rewrite slot_ne; [by apply I5|]. intros [= -> ->]. by apply Hn in Hs'.
  - intros j Hj. split; try done. intros c' i' Hh'. rewrite slot_ne; [done|]. intros [= -> ->]. congruence.
  - by destruct Hk as [K1 K2 K3 K4]; split.
  - split.
    + intros i' Hi'. unfold slot_ok. rewrite slot_ne by (intros [= ?]; lia). apply Hs. lia.
    + intros i' Hi'. destruct (decide (i' = i)) as [->|]; [apply slot_eq|]. rewrite slot_ne by congruence. apply Hz. lia.
Qed.
Lemma st_cpu_dead t c :
  rg stacks t (both (knows t (K None (Some c) None)) (slots_from c NR_CACHED_STACKS)) (do_ CpuDead) (λ _, knows t (K None None None)).
Proof.
  apply rg_do; [auto with stk|]. intros m g Hi [Hk [Hs Hz]]. assert (sm_hotplug m = Some (t, c)) as Hh by (by apply (h_hot _ _ _ _ Hk)). split; [done|].
  cbn [px_exec stacks stack_exec]. intros r m' [= <- <-]. exists g. split; [split|].
  - destruct Hi as [I1 I2 I3 I4 I5 I6 I7 I8 I9]. split; cbn; try done. intros c' i _. destruct (decide (c' = c)) as [->|].
    + destruct (decide (i < NR_CACHED_STACKS)); [intros Hne; cbn in Hne; by rewrite Hz in Hne|apply Hs; lia].
    + apply I4. intros t'. rewrite Hh. congruence.
  - intros j Hj. split; cbn; try done. intros c'. rewrite Hh. split; congruence.
  - destruct Hk as [K1 K2 K3 K4]. split; cbn in *; try done.
Qed.

Abbreviation rgs := (rg stacks).
Definition idle t : @assn stack_mem sghost := knows t (K None None None).

(** * The functions *)

Section functions.
Context (t : nat).
(** The thread holds [s] with [n] pages charged; [k]: its task runs on it. *)
Definition owns s n (b : bool) (k : option Z) : @assn stack_mem sghost := knows t (K (Some (s, n, b)) None k).
Lemma owns_stable s n b k : stable stacks t (owns s n b k).
Proof. apply knows_stable. Qed.
Lemma idle_stable : stable stacks t (idle t).
Proof. apply knows_stable. Qed.
Hint Resolve owns_stable idle_stable : stk.

Lemma release_ok at_cpu s b :
  rgs t (owns s 0 b None) (try_release_thread_stack_to_cache at_cpu s) (λ r, if decide (r = 0) then owns s 0 b None else idle t).
Proof.
  set (I := λ i m g, owns s 0 b None m g ∧ 0 <= i). unfold try_release_thread_stack_to_cache. eapply (rg_pre _ _ _ (I 0)); [by intros m g _ ?|].
  apply (rg_loop _ t I); [intros i; by apply pure_stable, owns_stable|]. intros i. apply rg_pure. intros Hi. unfold release_round.
  destruct (Z.leb_spec NR_CACHED_STACKS i); [by apply rg_ret|]. eapply rg_bind; [by apply st_cmpxchg|]. intros []; apply rg_ret; [done|].
  intros m g _ ?. split; [done|lia].
Qed.
Lemma delayed_free_ok s b : rgs t (owns s 0 b None) (thread_stack_delayed_free s) (λ _, idle t).
Proof. eapply rg_bind; [by apply st_touch|]. intros []. apply st_call_rcu. Qed.
Lemma free_stack_ok at_cpu s b : rgs t (owns s 0 b None) (free_thread_stack at_cpu s) (λ _, idle t).
Proof.
  eapply rg_bind; [apply release_ok|]. intros r. destruct (Z.eqb_spec r 0) as [->|]; cbn [negb]; [rewrite decide_True by done; apply delayed_free_ok|].
  rewrite decide_False by done. by apply rg_ret.
Qed.
Lemma free_rcu_ok at_cpu s b : rgs t (owns s 0 b None) (thread_stack_free_rcu at_cpu s) (λ _, idle t).
Proof.
  eapply rg_bind; [by apply st_touch|]. intros []. eapply rg_bind; [apply release_ok|]. intros r. destruct (Z.eqb_spec r 0) as [->|]; cbn [negb].
  - rewrite decide_True by done. apply st_vfree.
  - rewrite decide_False by done. by apply rg_ret.
Qed.
Lemma uncharge_ok s n b k : 0 <= n → (∀ s', k = Some s' → s' = s) → rgs t (owns s n b k) (loop (uncharge_round s n) 0) (λ _, owns s 0 b k).
Proof.
  intros Hn Hk. set (I := λ i m g, owns s (n - i) b k m g ∧ 0 <= i <= n). eapply (rg_pre _ _ _ (I 0)); [intros m g _ ?; unfold I; rewrite Z.sub_0_r; by split|].
  apply (rg_loop _ t I); [intros i; by apply pure_stable, owns_stable|]. intros i. apply rg_pure. intros Hi. unfold uncharge_round.
  destruct (Z.leb_spec n i). { apply rg_ret. intros m g _ Ho. by replace (n - i) with 0 in Ho by lia. }
  eapply rg_bind; [apply st_uncharge; [lia|done]|]. intros []. apply rg_ret. intros m g _ Ho. unfold I. replace (n - (i + 1)) with (n - i - 1) by lia. split; [exact Ho|lia].
Qed.
Lemma charge_ok fails s b :
  rgs t (owns s 0 b None) (memcg_charge_kernel_stack fails s) (λ r, if decide (r = 0) then owns s stack_pages b None else owns s 0 b None).
Proof.
  set (I := λ i m g, owns s i b None m g ∧ 0 <= i <= stack_pages).
  set (R := λ x m g, (if decide (x < 0) then owns s stack_pages b None else owns s x b None) m g ∧ (0 <= x ∨ x < 0)).
  eapply (rg_bind _ _ _ _ _ R).
  - eapply (rg_pre _ _ _ (I 0)); [by intros m g _ ?|]. apply (rg_loop _ t I); [intros i; by apply pure_stable, owns_stable|]. intros i. apply rg_pure. intros Hi. unfold charge_round.
    destruct (Z.leb_spec stack_pages i). { apply rg_ret. intros m g _ Ho. unfold R. rewrite decide_True by lia. replace i with stack_pages in Ho by lia. split; [exact Ho|lia]. }
    destruct (fails i). { apply rg_ret. intros m g _ Ho. unfold R. rewrite decide_False by lia. split; [exact Ho|lia]. }
    eapply rg_bind; [by apply st_charge|]. intros []. apply rg_ret. intros m g _ Ho. split; [exact Ho|lia].
  - intros x. destruct (Z.ltb_spec x 0).
    + apply rg_ret. intros m g _ [Ho _]. rewrite decide_True in Ho by done. by rewrite decide_True by done.
    + eapply (rg_bind _ _ _ _ _ (λ _, owns s 0 b None)); [|intros _; apply rg_ret; done]. eapply rg_pre; [|by apply uncharge_ok].
      intros m g _ [Ho _]. by rewrite decide_False in Ho by lia.
Qed.
Lemma charge_new_ok fails s :
  rgs t (owns s 0 true None) (charge_new fails s) (λ r, match r with Some s => owns s stack_pages true None | None => idle t end).
Proof.
  eapply rg_bind; [apply charge_ok|]. intros r. destruct (Z.eqb_spec r 0) as [->|]; cbn [negb].
  - apply rg_ret. intros m g _. by rewrite decide_True by done.
  - rewrite decide_False by done. eapply rg_bind; [apply st_vfree|]. intros []. by apply rg_ret.
Qed.
Lemma alloc_stack_ok at_cpu fails fresh :
  rgs t (idle t) (alloc_thread_stack_node at_cpu fails fresh) (λ r, match r with Some s => owns s stack_pages true None | None => idle t end).
Proof.
  set (R := λ s m g, if decide (s = 0) then idle t m g else ∃ b, owns s 0 b None m g). eapply (rg_bind _ _ _ _ _ R).
  - apply (rg_loop _ t (λ _, idle t)); [intros; apply idle_stable|]. intros i. unfold take_round. destruct (NR_CACHED_STACKS <=? i); [apply rg_ret; intros m g _ ?; unfold R; by rewrite decide_True|].
    eapply rg_bind; [apply st_xchg|]. intros s. destruct (Z.eqb_spec s 0) as [->|Hs]; apply rg_ret; intros m g _; [by rewrite decide_True by done|].
    unfold R. by rewrite !decide_False by done.
  - intros s. destruct (Z.eqb_spec s 0) as [->|Hs]; cbn [negb]; unfold R.
    + eapply (rg_pre _ _ _ (idle t)); [intros m g _; by rewrite decide_True by done|]. destruct fresh as [s|]; [|by apply rg_ret]. eapply rg_bind; [apply st_vmalloc|]. intros []. apply charge_new_ok.
    + eapply (rg_pre _ _ _ (λ m g, ∃ b, owns s 0 b None m g)); [intros m g _; by rewrite decide_False by done|]. apply rg_ex. intros b. eapply rg_bind; [apply st_clear|]. intros []. apply charge_new_ok.
Qed.
Lemma free_cache_ok c :
  rgs t (both (knows t (K None (Some c) None)) (slots_from c 0)) (free_vm_stack_cache c) (λ _, both (knows t (K None (Some c) None)) (slots_from c NR_CACHED_STACKS)).
Proof.
  set (I := λ i m g, both (knows t (K None (Some c) None)) (slots_from c i) m g ∧ i <= NR_CACHED_STACKS). eapply (rg_pre _ _ _ (I 0)); [by intros m g _ ?|].
  apply (rg_loop _ t I); [intros i; by apply pure_stable, slots_from_stable|]. intros i. apply rg_pure. intros Hi. unfold free_cache_round.
  destruct (Z.leb_spec NR_CACHED_STACKS i). { apply rg_ret. intros m g _ Ho. by replace i with NR_CACHED_STACKS in Ho by lia. }
  eapply rg_bind; [apply st_read_slot|]. intros s. destruct (Z.eqb_spec s 0) as [->|Hs].
  - apply rg_ret. intros m g _. rewrite decide_True by done. intros Ho. split; [exact Ho|lia].
  - rewrite decide_False by done. apply rg_ex. intros b. eapply rg_bind; [apply st_vfree_slot|]. intros []. eapply rg_bind; [apply st_clear_slot|]. intros [].
    apply rg_ret. intros m g _ Ho. split; [exact Ho|lia].
Qed.
Lemma stack_prog_ok u : rgs t (idle t) (stack_prog u) (λ _, idle t).
Proof.
  destruct u as [c1 c2 fails fresh|at_cpu s|c]; cbn [stack_prog].
  - eapply rg_bind; [apply alloc_stack_ok|]. intros [s|]; [|by apply rg_ret]. eapply rg_bind; [apply st_start|]. intros [].
    eapply (rg_bind _ _ _ _ _ (λ _, owns s 0 false (Some s))). { eapply rg_bind; [apply uncharge_ok; [done|intros ? ?; congruence]|]. intros r. by apply rg_ret. }
    intros []. eapply rg_bind; [apply st_die|]. intros []. eapply rg_bind; [apply st_isdead|]. intros dead. apply rg_pure. intros ->. cbn [negb]. apply free_stack_ok.
  - eapply rg_bind; [apply st_rcu_run|]. intros []. apply rg_ex. intros b. apply free_rcu_ok.
  - eapply rg_bind; [apply st_cpu_down|]. intros []. eapply rg_bind; [apply free_cache_ok|]. intros r. apply st_cpu_dead.
Qed.
End functions.

(** * Every run *)

Definition stack_pool_inv (s : stack_config) (g : sghost) : Prop := pool_inv stacks (λ t (_ : unit), idle t) idle s g.
Lemma stack_boot_inv : stack_pool_inv stack_boot ∅.
Proof.
  split; [|done|].
  - split; try done.
    + intros s. split; intros [? ?]; done.
    + intros s [? ?]. done.
    + intros c i _ Hn. by destruct Hn.
  - intros t _. split; try done. intros s. split; [done|by intros (?&?&?)].
Qed.
Lemma stack_step_inv mv s s' g : stack_pool_inv s g → stack_step mv s = Some s' → ∃ g', stack_pool_inv s' g'.
Proof.
  intros Hp Hs. destruct mv as [t u|t|t|c]; cbn in Hs.
  - destruct (cf_pool s !! t) as [|] eqn:Ht; [done|]. injection Hs as <-. exists g. apply (pool_step stacks _ _ idle_stable t s (cf_mem s) g); [done| | |].
    + split; [apply Hp|]. intros. apply stack_rely_refl.
    + intros j Hj. by rewrite lookup_insert_ne.
    + rewrite lookup_insert_eq. exists (idle t). split_and!; [apply idle_stable|by apply (p_out _ _ _ _ _ Hp)|apply stack_prog_ok].
  - eapply (do_step_inv stacks); [apply idle_stable|intros; apply stack_rely_refl|exact Hp|exact Hs].
  - destruct (cf_pool s !! t) as [[[[]| |] []]|] eqn:Ht; [|done..]. injection Hs as <-. exists g.
    apply (pool_step stacks _ _ idle_stable t s (cf_mem s) g); [done| | |].
    + split; [apply Hp|]. intros. apply stack_rely_refl.
    + intros j Hj. by rewrite lookup_delete_ne.
    + rewrite lookup_delete_eq. destruct (p_rg _ _ _ _ _ Hp t _ _ Ht) as (P&_&HP&Hk). exact (Hk _ _ (p_inv _ _ _ _ _ Hp) HP).
  - destruct (sm_hotplug (cf_mem s)) as [|] eqn:Hh; [done|]. injection Hs as <-. exists g. apply (outside_step stacks _ _ idle_stable); [done| |].
    + destruct (p_inv _ _ _ _ _ Hp) as [I1 I2 I3 I4 I5 I6 I7 I8 I9]. split; cbn; try done. intros t' c' Ht'. congruence.
    + intros j. by split.
Qed.
Lemma stack_run_inv mvs s : stack_run mvs stack_boot = Some s → ∃ g, stack_pool_inv s g.
Proof.
  assert (∀ mvs s0 g, stack_pool_inv s0 g → stack_run mvs s0 = Some s → ∃ g, stack_pool_inv s g) as Hgen; [|exact (Hgen mvs _ _ stack_boot_inv)].
  clear. intros mvs. induction mvs as [|mv mvs IH]; intros s0 g Hp Hr; cbn in Hr; [injection Hr as <-; by exists g|].
  destruct (stack_step mv s0) as [s1|] eqn:Hs; [|done]. destruct (stack_step_inv _ _ _ _ Hp Hs) as [g1 Hg1]. by eapply IH.
Qed.
Definition stack_next (s : stack_config) (t : nat) (e : stack_access) : Prop := ∃ k l, cf_pool s !! t = Some (Act e k, l).

(** C28: However tasks, callbacks and CPUs that go down interleave: every access is to a stack that
    is allocated, a task starts on a stack that is charged, zeroed and that no other task runs
    on, and only stacks with no charged page are cached or freed. *)
Theorem stacks_memory_safe mvs s t e : stack_run mvs stack_boot = Some s → stack_next s t e → stack_safe t e (cf_mem s).
Proof. intros [g Hp]%stack_run_inv (k&l&Ht). exact (pool_safe stacks _ _ s g t e k l Hp Ht). Qed.
(** At every moment the tasks that are not dead run on stacks of their own, which are in no
    cache of a CPU that is up and wait for no callback; no stack is in two slots. *)
Theorem stacks_exclusive mvs s :
  stack_run mvs stack_boot = Some s →
  (∀ t v, sm_tasks (cf_mem s) !! t = Some v →
     is_Some (sm_alloc (cf_mem s) !! v) ∧ (v ∉ sm_rcu (cf_mem s)) ∧ (∀ t', sm_tasks (cf_mem s) !! t' = Some v → t' = t) ∧
     ∀ c i, sm_online (cf_mem s) c = true → sm_cached (cf_mem s) c i ≠ v) ∧
  (∀ c i c' i', sm_online (cf_mem s) c = true → sm_online (cf_mem s) c' = true →
     sm_cached (cf_mem s) c i ≠ 0 → sm_cached (cf_mem s) c i = sm_cached (cf_mem s) c' i' → c = c' ∧ i = i').
Proof.
  intros [g Hp]%stack_run_inv. pose proof (p_inv _ _ _ _ _ Hp) as Hi. assert (∀ c i, sm_online (cf_mem s) c = true → slot_ok (cf_mem s) g c i) as Hslot.
  { intros c i Hon. apply (n_slot _ _ Hi). by eapply online_not_down. }
  split.
  - intros t v Ht. pose proof (n_task _ _ Hi _ _ Ht) as Hg. split_and!.
    + apply (n_alloc _ _ Hi). by eexists.
    + rewrite (n_rcu _ _ Hi), Hg. done.
    + intros t' Ht'. pose proof (n_task _ _ Hi _ _ Ht'). congruence.
    + intros c i Hon He. assert (0 < v) by (apply (n_pos _ _ Hi); by eexists). assert (sm_cached (cf_mem s) c i ≠ 0) as Hn by lia. apply (Hslot c i Hon) in Hn. congruence.
  - intros c i c' i' H1 H2 Hn He. pose proof (Hslot c i H1 Hn) as Ha. assert (sm_cached (cf_mem s) c' i' ≠ 0) as Hn' by congruence.
    pose proof (Hslot c' i' H2 Hn') as Hb. rewrite <-He, Ha in Hb. by injection Hb.
Qed.
(** When no thread is under way and no callback is pending, the stacks that are left are those
    in the caches, none of them charged: no stack is lost and none is charged for ever. *)
Theorem stacks_not_leaked mvs s :
  stack_run mvs stack_boot = Some s → cf_pool s = ∅ → sm_rcu (cf_mem s) = ∅ →
  (∀ v n, sm_alloc (cf_mem s) !! v = Some n → n = 0 ∧ ∃ c i, 0 <= i < NR_CACHED_STACKS ∧ sm_cached (cf_mem s) c i = v) ∧
  (∀ c i, sm_cached (cf_mem s) c i ≠ 0 → is_Some (sm_alloc (cf_mem s) !! sm_cached (cf_mem s) c i)).
Proof.
  intros [g Hp]%stack_run_inv Hnone Hrcu. pose proof (p_inv _ _ _ _ _ Hp) as Hi.
  assert (∀ t, idle t (cf_mem s) g) as Hidle by (intros t; apply (p_out _ _ _ _ _ Hp); by rewrite Hnone). split.
  - intros v n Hv. destruct (proj1 (n_alloc _ _ Hi v) ltac:(by eexists)) as [o Ho]. assert (0 < v) by (apply (n_pos _ _ Hi); by eexists). destruct o as [t|c i|].
    + by apply (none_held _ _ _ _ _ _ (Hidle t)) in Ho.
    + rewrite (n_free _ _ Hi _ _ Ho ltac:(done)) in Hv. injection Hv as <-. split; [done|]. exists c, i. pose proof (n_back _ _ Hi _ _ _ Ho) as Hb. split; [|done]. apply (n_range _ _ Hi c i). lia.
    + apply (n_rcu _ _ Hi) in Ho. rewrite Hrcu in Ho. set_solver.
  - intros c i Hn. apply (n_alloc _ _ Hi). eexists. apply (n_slot _ _ Hi); [|done]. intros t Hh. apply (h_hot _ _ _ _ (Hidle t)) in Hh. done.
Qed.
