(* ===== verification/MemMap.v ===== *)
(** Memory descriptors (fork.c): areas, the copy of a memory map, its creation and release,
    its executable file.

    What the kernel holds (slab objects, references to files, policies, modules, the page
    directory, locks) is a multiset of references: releasing one that is not held, or taking
    one of an object nobody holds, is an oops. *)
From stdpp Require Import gmultiset.
From S2P Require Import Prelude Rbtree KState.

Definition EACCES := 13.
Definition VM_SHARED := 0x8.
Definition VM_MAYWRITE := 0x20.
Definition VM_LOCKED := 0x2000.
Definition VM_DONTCOPY := 0x20000.
Definition VM_LOCKONFAULT := 0x80000.
Definition VM_ACCOUNT := 0x100000.
Definition VM_WIPEONFORK := 0x2000000.
Definition VM_LOCKED_MASK := Z.lor VM_LOCKED VM_LOCKONFAULT.
Definition PAGE_SHIFT := 12.
Definition MMF_OOM_SKIP := 0x200000.
Definition MMF_UNSTABLE := 0x400000.

(** * State *)

(** [struct vm_area_struct]; [vm_ops_open]: [vm_ops->open] is there.  The bits of userfaultfd
    are not part of the flags. *)
Record vm_area_struct := {
  vm_start : Z; vm_end : Z; vm_flags : Z; vm_mm : nat; vm_file : option nat; vm_policy : option nat; vm_anon_vma : bool;
  vm_anon_name : option nat; vm_ops_open : bool
}.
#[export] Instance eta_vm_area_struct : Eta vm_area_struct := λ r,
  {| vm_start := vm_start r; vm_end := vm_end r; vm_flags := vm_flags r; vm_mm := vm_mm r; vm_file := vm_file r;
     vm_policy := vm_policy r; vm_anon_vma := vm_anon_vma r; vm_anon_name := vm_anon_name r; vm_ops_open := vm_ops_open r |}.
(** An entry of the maple tree: a range and the area, or [XA_ZERO_ENTRY]. *)
Record mt_entry := { mt_start : Z; mt_end : Z; mt_area : option nat }.

Record mm_struct := {
  mm_mt : list mt_entry; mm_users : Z; mm_count : Z; mm_map_count : Z; mm_locked_vm : Z; mm_pinned_vm : Z; mm_total_vm : Z;
  mm_data_vm : Z; mm_exec_vm : Z; mm_stack_vm : Z; mm_hiwater_rss : Z; mm_hiwater_vm : Z; mm_flags : Z; mm_def_flags : Z;
  mm_exe_file : option nat; mm_binfmt : option nat; mm_user_ns : nat; mm_owner : option tid; mm_on_mmlist : bool
}.
#[export] Instance eta_mm_struct : Eta mm_struct := λ r,
  {| mm_mt := mm_mt r; mm_users := mm_users r; mm_count := mm_count r; mm_map_count := mm_map_count r;
     mm_locked_vm := mm_locked_vm r; mm_pinned_vm := mm_pinned_vm r; mm_total_vm := mm_total_vm r;
     mm_data_vm := mm_data_vm r; mm_exec_vm := mm_exec_vm r; mm_stack_vm := mm_stack_vm r;
     mm_hiwater_rss := mm_hiwater_rss r; mm_hiwater_vm := mm_hiwater_vm r; mm_flags := mm_flags r;
     mm_def_flags := mm_def_flags r; mm_exe_file := mm_exe_file r; mm_binfmt := mm_binfmt r; mm_user_ns := mm_user_ns r;
     mm_owner := mm_owner r; mm_on_mmlist := mm_on_mmlist r |}.

(** What can be held; of an area or a memory map, by its number, or of a shared object. *)
Inductive mobj :=
  | area_mem (v : nat) | area_lock (v : nat) | area_anon (v : nat) | area_opened (v : nat) | area_mapped (v : nat)
  | area_uffd (v : nat) | anon_name (n : nat) | file_ref (f : nat) | file_writable (f : nat) | file_denied (f : nat)
  | policy_mem (n : nat) | module_ref (n : nat) | user_ns_ref (n : nat) | mm_mem (m : nat) | mm_pgd (m : nat)
  | mm_context (m : nat) | mm_cid (m : nat) | mm_counters (m : nat) | mmap_lock (m : nat) | uprobe_lock.
Definition mobj_code (x : mobj) : nat * nat :=
  match x with
  | area_mem v => (0, v) | area_lock v => (1, v) | area_anon v => (2, v) | area_opened v => (3, v) | area_mapped v => (4, v)
  | area_uffd v => (5, v) | anon_name n => (6, n) | file_ref f => (7, f) | file_writable f => (8, f) | file_denied f => (9, f)
  | policy_mem n => (10, n) | module_ref n => (11, n) | user_ns_ref n => (12, n) | mm_mem m => (13, m) | mm_pgd m => (14, m)
  | mm_context m => (15, m) | mm_cid m => (16, m) | mm_counters m => (17, m) | mmap_lock m => (18, m) | uprobe_lock => (19, 0)
  end%nat.
Definition mobj_decode (c : nat * nat) : option mobj :=
  match c.1 with
  | 0 => Some (area_mem c.2) | 1 => Some (area_lock c.2) | 2 => Some (area_anon c.2) | 3 => Some (area_opened c.2)
  | 4 => Some (area_mapped c.2) | 5 => Some (area_uffd c.2) | 6 => Some (anon_name c.2) | 7 => Some (file_ref c.2)
  | 8 => Some (file_writable c.2) | 9 => Some (file_denied c.2) | 10 => Some (policy_mem c.2) | 11 => Some (module_ref c.2)
  | 12 => Some (user_ns_ref c.2) | 13 => Some (mm_mem c.2) | 14 => Some (mm_pgd c.2) | 15 => Some (mm_context c.2)
  | 16 => Some (mm_cid c.2) | 17 => Some (mm_counters c.2) | 18 => Some (mmap_lock c.2) | 19 => Some uprobe_lock | _ => None
  end%nat.
#[export] Instance mobj_eq_dec : EqDecision mobj.
Proof. solve_decision. Defined.
#[export] Instance mobj_countable : Countable mobj.
Proof. refine (inj_countable mobj_code mobj_decode _). by intros []. Defined.

Inductive mm_work := mmput_work (m : nat) | mmdrop_work (m : nat).
(** [mt_task]: the memory of a task; [mt_kthread] is PF_KTHREAD. *)
Record mm_task := { mt_mm : option nat; mt_active_mm : option nat; mt_kthread : bool }.
(** [ms_committed]: the pages charged to the commit limit; [ms_rcu]: areas that wait for a
    grace period; [ms_work]: the queued work. *)
Record mstate := {
  ms_mms : gmap nat mm_struct; ms_areas : gmap nat vm_area_struct; ms_refs : gmultiset mobj; ms_committed : Z;
  ms_rcu : list nat; ms_work : list mm_work; ms_tasks : gmap tid mm_task; ms_current : tid
}.
#[export] Instance eta_mstate : Eta mstate := λ r,
  {| ms_mms := ms_mms r; ms_areas := ms_areas r; ms_refs := ms_refs r; ms_committed := ms_committed r; ms_rcu := ms_rcu r;
     ms_work := ms_work r; ms_tasks := ms_tasks r; ms_current := ms_current r |}.

(** * The monad *)

Definition MM (A : Type) : Type := mstate → res (A * mstate).
#[export] Instance MM_ret : MRet MM := λ A a s, Ok (a, s).
#[export] Instance MM_bind : MBind MM := λ A B k m s,
  match m s with Ok (a, s') => k a s' | Oops o => Oops o end.
Definition mskip : MM unit := mret tt.
Definition mget {A} (f : mstate → A) : MM A := λ s, Ok (f s, s).
Definition mmodify (f : mstate → mstate) : MM unit := λ s, Ok (tt, f s).
Definition mwhen (b : bool) (m : MM unit) : MM unit := if b then m else mskip.
Definition mderef {A} (o : option A) : MM A := λ s, match o with Some a => Ok (a, s) | None => Oops bad_pointer end.
Definition bug {A} : MM A := λ _, Oops kernel_bug.
Definition for_some {A} (o : option A) (f : A → MM unit) : MM unit := match o with Some a => f a | None => mskip end.

Definition mm_at (m : nat) : MM mm_struct := λ s, mderef (ms_mms s !! m) s.
Definition upd_mm (m : nat) (f : mm_struct → mm_struct) : MM unit :=
  mm ← mm_at m; mmodify (λ s, s <| ms_mms := <[m := f mm]> (ms_mms s) |>).
Definition area_at (v : nat) : MM vm_area_struct := λ s, mderef (ms_areas s !! v) s.
Definition upd_area (v : nat) (f : vm_area_struct → vm_area_struct) : MM unit :=
  a ← area_at v; mmodify (λ s, s <| ms_areas := <[v := f a]> (ms_areas s) |>).
Definition mm_task_at (p : tid) : MM mm_task := λ s, mderef (ms_tasks s !! p) s.

Definition take (x : mobj) : MM unit := mmodify (λ s, s <| ms_refs ::= λ R, {[+ x +]} ⊎ R |>).
Definition share (x : mobj) : MM unit := λ s, if decide (x ∈ ms_refs s) then take x s else Oops bad_pointer.
Definition drop (x : mobj) : MM unit := λ s,
  if decide (x ∈ ms_refs s) then Ok (tt, s <| ms_refs ::= λ R, R ∖ {[+ x +]} |>) else Oops kernel_bug.

(** * The tree of areas *)

Definition before (x : Z) (e : mt_entry) : bool := mt_end e <=? x.
Definition after (x : Z) (e : mt_entry) : bool := x <=? mt_start e.
(** [mas_store] and erasing a range, of ranges that do not cut an entry in two. *)
Definition mas_store (start last : Z) (v : option nat) (t : list mt_entry) : list mt_entry :=
  List.filter (before start) t ++ {| mt_start := start; mt_end := last; mt_area := v |} :: List.filter (after last) t.
Definition mas_erase (start last : Z) (t : list mt_entry) : list mt_entry :=
  List.filter (before start) t ++ List.filter (after last) t.
(** [vma_next]: the first entry that ends above the position of the iterator. *)
Definition mas_find (pos : Z) (t : list mt_entry) : option mt_entry := List.find (λ e, pos <? mt_end e) t.

Definition vma_pages (a : vm_area_struct) : Z := Z.shiftr (vm_end a - vm_start a) PAGE_SHIFT.
Definition vma_is_shared_maywrite (a : vm_area_struct) : bool := has (vm_flags a) VM_SHARED && has (vm_flags a) VM_MAYWRITE.

(** * Code outside the repository *)

(** [exit_mmap], [vm_stat_account] (mm/mmap.c, include/linux/mm.h), the write count of files
    (include/linux/fs.h), whether two files have the same path, the masks of coredump.h, and
    the architecture's page directory of [init_mm], number 0. *)
Class MmLib := {
  exit_mmap : nat → MM unit;
  vm_stat_account : mm_struct → Z → Z → mm_struct;
  exe_file_deny_write_access : nat → MM Z;
  path_equal : nat → nat → bool;
  mmf_init_flags : Z → Z;
  default_dump_filter : Z;
  VM_INIT_DEF_MASK : Z;
}.
Definition init_mm : nat := 0.
Definition exe_file_allow_write_access (f : nat) : MM unit := drop (file_denied f).

(** What functions outside the repository answer during one operation: [false] or a non-zero
    number is a failure; those of an area have its number.  [env_new_policy]: the memory of
    the copy of a policy; [env_uffd_fork]: userfaultfd wants to know about this fork. *)
Record mm_env := {
  env_mm : bool; env_pgd : bool; env_context : Z; env_cid : Z; env_counters : Z; env_lock_killed : bool; env_mt_dup : Z;
  env_clear : nat → Z; env_fatal : nat → bool; env_enough_memory : nat → Z; env_area : nat → bool; env_area_lock : nat → bool;
  env_policy : nat → Z; env_new_policy : nat → nat; env_uffd : nat → Z; env_uffd_fork : nat → bool; env_anon : nat → Z;
  env_pages : nat → Z; env_arch_dup : Z; env_module : bool; env_rss : Z; env_exec_lock : Z; env_ptrace : bool
}.

Section memmap.
Context {ML : MmLib} (env : mm_env).

(** * Areas *)

(** The memory of an area and of its lock; [orig] is the area whose copy it is, for the
    answers. *)
Definition vma_lock_alloc (orig v : nat) : MM bool :=
  if env_area_lock env orig then take (area_lock v);; mret true else mret false.
Definition vma_lock_free (v : nat) : MM unit := drop (area_lock v).
Definition new_area (a : vm_area_struct) : MM nat :=
  v ← mget (λ s, fresh (dom (ms_areas s)));
  take (area_mem v);; mmodify (λ s, s <| ms_areas := <[v := a]> (ms_areas s) |>);; mret v.
Definition free_area (v : nat) : MM unit :=
  drop (area_mem v);; mmodify (λ s, s <| ms_areas := delete v (ms_areas s) |>).

Definition vma_init (m : nat) : vm_area_struct :=
  {| vm_start := 0; vm_end := 0; vm_flags := 0; vm_mm := m; vm_file := None; vm_policy := None; vm_anon_vma := false;
     vm_anon_name := None; vm_ops_open := false |}.
Definition vm_area_alloc (m : nat) : MM (option nat) :=
  if negb (env_area env m) then mret None else
  v ← new_area (vma_init m);
  ok ← vma_lock_alloc m v;
  if negb ok then free_area v;; mret None else
  mret (Some v).
Definition vm_area_dup (orig : nat) : MM (option nat) :=
  if negb (env_area env orig) then mret None else
  a ← area_at orig;
  new ← new_area a;
  ok ← vma_lock_alloc orig new;
  if negb ok then free_area new;; mret None else
  for_some (vm_anon_name a) (λ n, share (anon_name n));;
  mret (Some new).
Definition __vm_area_free (v : nat) : MM unit :=
  a ← area_at v;
  for_some (vm_anon_name a) (λ n, drop (anon_name n));;
  vma_lock_free v;;
  free_area v.
Definition vm_area_free_rcu_cb (v : nat) : MM unit := __vm_area_free v.
Definition vm_area_free (v : nat) : MM unit := mmodify (λ s, s <| ms_rcu ::= λ l, l ++ [v] |>).
(** The end of a grace period: the first callback runs. *)
Definition rcu_callback : MM unit :=
  q ← mget ms_rcu;
  match q with [] => mskip | v :: q' => mmodify (λ s, s <| ms_rcu := q' |>);; vm_area_free_rcu_cb v end.

(** * The executable file *)

Definition get_mm_exe_file (m : nat) : MM (option nat) :=
  mm ← mm_at m; for_some (mm_exe_file mm) (λ f, share (file_ref f));; mret (mm_exe_file mm).
Definition fput (f : nat) : MM unit := drop (file_ref f).
Definition put_exe_file (old : option nat) : MM unit := for_some old (λ f, exe_file_allow_write_access f;; fput f).
Definition set_mm_exe_file (m : nat) (new_exe_file : option nat) : MM Z :=
  mm ← mm_at m;
  let old_exe_file := mm_exe_file mm in
  denied ← (match new_exe_file with None => mret 0 | Some f => exe_file_deny_write_access f end);
  if negb (denied =? 0) then mret (- EACCES) else
  for_some new_exe_file (λ f, share (file_ref f));;
  upd_mm m (λ mm, mm <| mm_exe_file := new_exe_file |>);;
  put_exe_file old_exe_file;;
  mret 0.
Fixpoint file_mapped (t : list mt_entry) (old_exe_file : nat) : MM bool :=
  match t with
  | [] => mret false
  | e :: t' =>
      v ← mderef (mt_area e);
      a ← area_at v;
      match vm_file a with
      | Some f => if path_equal f old_exe_file then mret true else file_mapped t' old_exe_file
      | None => file_mapped t' old_exe_file
      end
  end.
(** The old file, of which the caller has a reference, is still mapped. *)
Definition exe_file_busy (m : nat) (old_exe_file : option nat) : MM bool :=
  match old_exe_file with
  | None => mret false
  | Some f =>
      take (mmap_lock m);;
      mm ← mm_at m;
      b ← file_mapped (mm_mt mm) f;
      drop (mmap_lock m);; fput f;; mret b
  end.
Definition replace_mm_exe_file (m new_exe_file : nat) : MM Z :=
  old_exe_file ← get_mm_exe_file m;
  busy ← exe_file_busy m old_exe_file;
  if busy : bool then mret (- EBUSY) else
  ret ← exe_file_deny_write_access new_exe_file;
  if negb (ret =? 0) then mret (- EACCES) else
  share (file_ref new_exe_file);;
  take (mmap_lock m);;
  mm ← mm_at m;
  upd_mm m (λ mm, mm <| mm_exe_file := Some new_exe_file |>);;
  drop (mmap_lock m);;
  put_exe_file (mm_exe_file mm);;
  mret 0.
Definition get_task_exe_file (p : tid) : MM (option nat) :=
  t ← mm_task_at p;
  if mt_kthread t then mret None else
  match mt_mm t with Some m => get_mm_exe_file m | None => mret None end.
(** [pr_warn_once] when the write access cannot be denied. *)
Definition dup_mm_exe_file (m oldmm : nat) : MM unit :=
  exe_file ← get_mm_exe_file oldmm;
  upd_mm m (λ mm, mm <| mm_exe_file := exe_file |>);;
  for_some exe_file (λ f, exe_file_deny_write_access f;; mskip).

(** * Creation and release *)

Definition mm_alloc_pgd (m : nat) : MM Z := if env_pgd env then take (mm_pgd m);; mret 0 else mret (- ENOMEM).
Definition mm_free_pgd (m : nat) : MM unit := drop (mm_pgd m).
Definition mm_init_owner (m : nat) (p : option tid) : MM unit := upd_mm m (λ mm, mm <| mm_owner := p |>).
Definition mm_clear_owner (m : nat) (p : tid) : MM unit :=
  mm ← mm_at m; mwhen (bool_decide (mm_owner mm = Some p)) (upd_mm m (λ mm, mm <| mm_owner := None |>)).
Definition allocate_mm (mm : mm_struct) : MM (option nat) :=
  if negb (env_mm env) then mret None else
  m ← mget (λ s, fresh (dom (ms_mms s)));
  take (mm_mem m);; mmodify (λ s, s <| ms_mms := <[m := mm]> (ms_mms s) |>);; mret (Some m).
Definition free_mm (m : nat) : MM unit := drop (mm_mem m);; mmodify (λ s, s <| ms_mms := delete m (ms_mms s) |>).
Definition destroy_context (m : nat) : MM unit := drop (mm_context m).
Definition mm_destroy_cid (m : nat) : MM unit := drop (mm_cid m).
Definition percpu_counter_destroy_many (m : nat) : MM unit := drop (mm_counters m).
(** A call that takes [x] when it answers 0. *)
Definition taking (x : mobj) (ret : Z) : MM Z := if ret =? 0 then take x;; mret 0 else mret ret.

(** The fields [mm_init] sets before anything can fail. *)
Definition mm_reset (p : tid) (flags def_flags : Z) (mm : mm_struct) : mm_struct :=
  {| mm_mt := []; mm_users := 1; mm_count := 1; mm_map_count := 0; mm_locked_vm := 0; mm_pinned_vm := 0;
     mm_total_vm := mm_total_vm mm; mm_data_vm := mm_data_vm mm; mm_exec_vm := mm_exec_vm mm; mm_stack_vm := mm_stack_vm mm;
     mm_hiwater_rss := mm_hiwater_rss mm; mm_hiwater_vm := mm_hiwater_vm mm; mm_flags := flags; mm_def_flags := def_flags;
     mm_exe_file := None; mm_binfmt := mm_binfmt mm; mm_user_ns := mm_user_ns mm; mm_owner := Some p; mm_on_mmlist := false |}.
Definition fail_nopgd (m : nat) : MM (option nat) := free_mm m;; mret None.
Definition fail_nocontext (m : nat) : MM (option nat) := mm_free_pgd m;; fail_nopgd m.
Definition fail_cid (m : nat) : MM (option nat) := destroy_context m;; fail_nocontext m.
Definition fail_pcpu (m : nat) : MM (option nat) := mm_destroy_cid m;; fail_cid m.
Definition mm_init (m : nat) (p : tid) (user_ns : nat) : MM (option nat) :=
  cur ← mget ms_current;
  t ← mm_task_at cur;
  '(flags, def_flags) ← (match mt_mm t with
    | Some cm => cmm ← mm_at cm; mret (mmf_init_flags (mm_flags cmm), Z.land (mm_def_flags cmm) VM_INIT_DEF_MASK)
    | None => mret (default_dump_filter, 0)
    end);
  upd_mm m (mm_reset p flags def_flags);;
  err ← mm_alloc_pgd m;
  if negb (err =? 0) then fail_nopgd m else
  err ← taking (mm_context m) (env_context env);
  if negb (err =? 0) then fail_nocontext m else
  err ← taking (mm_cid m) (env_cid env);
  if negb (err =? 0) then fail_cid m else
  err ← taking (mm_counters m) (env_counters env);
  if negb (err =? 0) then fail_pcpu m else
  share (user_ns_ref user_ns);;
  upd_mm m (λ mm, mm <| mm_user_ns := user_ns |>);;
  mret (Some m).
Definition zero_mm : mm_struct :=
  {| mm_mt := []; mm_users := 0; mm_count := 0; mm_map_count := 0; mm_locked_vm := 0; mm_pinned_vm := 0; mm_total_vm := 0;
     mm_data_vm := 0; mm_exec_vm := 0; mm_stack_vm := 0; mm_hiwater_rss := 0; mm_hiwater_vm := 0; mm_flags := 0;
     mm_def_flags := 0; mm_exe_file := None; mm_binfmt := None; mm_user_ns := 0; mm_owner := None; mm_on_mmlist := false |}.
Definition mm_alloc (current_user_ns : nat) : MM (option nat) :=
  m ← allocate_mm zero_mm;
  match m with None => mret None | Some m => cur ← mget ms_current; mm_init m cur current_user_ns end.

Definition __mmdrop (m : nat) : MM unit :=
  if bool_decide (m = init_mm) then bug else
  mm_free_pgd m;;
  destroy_context m;;
  mm ← mm_at m;
  drop (user_ns_ref (mm_user_ns mm));;
  mm_destroy_cid m;;
  percpu_counter_destroy_many m;;
  free_mm m.
(** [mmdrop] (include/linux/sched/mm.h). *)
Definition mmdrop (m : nat) : MM unit :=
  mm ← mm_at m;
  upd_mm m (λ mm, mm <| mm_count ::= λ n, n - 1 |>);;
  mwhen (mm_count mm - 1 =? 0) (__mmdrop m).
Definition schedule_work (w : mm_work) : MM unit := mmodify (λ s, s <| ms_work ::= λ l, l ++ [w] |>).
Definition mmdrop_async (m : nat) : MM unit :=
  mm ← mm_at m;
  upd_mm m (λ mm, mm <| mm_count ::= λ n, n - 1 |>);;
  mwhen (mm_count mm - 1 =? 0) (schedule_work (mmdrop_work m)).
Definition mmdrop_async_fn (m : nat) : MM unit := __mmdrop m.
(** [uprobe_clear_state], [exit_aio], [ksm_exit], [khugepaged_exit], [mm_put_huge_zero_folio]
    and [lru_gen_del_mm] touch nothing of the state. *)
Definition __mmput (m : nat) : MM unit :=
  mm ← mm_at m;
  if negb (mm_users mm =? 0) then bug else
  exit_mmap m;;
  set_mm_exe_file m None;;
  mm ← mm_at m;
  mwhen (mm_on_mmlist mm) (upd_mm m (λ mm, mm <| mm_on_mmlist := false |>));;
  for_some (mm_binfmt mm) (λ b, drop (module_ref b));;
  mmdrop m.
Definition mmput (m : nat) : MM unit :=
  mm ← mm_at m;
  upd_mm m (λ mm, mm <| mm_users ::= λ n, n - 1 |>);;
  mwhen (mm_users mm - 1 =? 0) (__mmput m).
Definition mmput_async_fn (m : nat) : MM unit := __mmput m.
Definition mmput_async (m : nat) : MM unit :=
  mm ← mm_at m;
  upd_mm m (λ mm, mm <| mm_users ::= λ n, n - 1 |>);;
  mwhen (mm_users mm - 1 =? 0) (schedule_work (mmput_work m)).
(** A worker takes the first item of the queue. *)
Definition run_work : MM unit :=
  q ← mget ms_work;
  match q with
  | [] => mskip
  | w :: q' => mmodify (λ s, s <| ms_work := q' |>);; match w with mmput_work m => mmput_async_fn m | mmdrop_work m => mmdrop_async_fn m end
  end.

Definition mmget (m : nat) : MM unit := upd_mm m (λ mm, mm <| mm_users ::= λ n, n + 1 |>).
Definition get_task_mm (p : tid) : MM (option nat) :=
  t ← mm_task_at p;
  if mt_kthread t then mret None else
  for_some (mt_mm t) mmget;; mret (mt_mm t).
(** The memory or an error. *)
Definition mm_access (p : tid) : MM (nat + Z) :=
  if negb (env_exec_lock env =? 0) then mret (inr (env_exec_lock env)) else
  mm ← get_task_mm p;
  cur ← mget ms_current;
  t ← mm_task_at cur;
  match mm with
  | None => mret (inr (- ESRCH))
  | Some m => if bool_decide (Some m ≠ mt_mm t) && negb (env_ptrace env) then mmput m;; mret (inr (- EACCES)) else mret (inl m)
  end.

(** * The copy of a memory map *)

Definition vm_acct_memory (pages : Z) : MM unit := mmodify (λ s, s <| ms_committed ::= λ c, c + pages |>).
Definition vm_unacct_memory (pages : Z) : MM unit := vm_acct_memory (- pages).
Definition security_vm_enough_memory_mm (orig : nat) (pages : Z) : MM Z :=
  if env_enough_memory env orig =? 0 then vm_acct_memory pages;; mret 0 else mret (env_enough_memory env orig).
Definition vma_dup_policy (src dst : nat) : MM Z :=
  a ← area_at src;
  match vm_policy a with
  | None => mret 0
  | Some _ =>
      if negb (env_policy env src =? 0) then mret (env_policy env src) else
      take (policy_mem (env_new_policy env src));;
      upd_area dst (λ a, a <| vm_policy := Some (env_new_policy env src) |>);; mret 0
  end.
Definition mpol_put (o : option nat) : MM unit := for_some o (λ n, drop (policy_mem n)).
(** The contexts that were told of the fork are kept in the list [uf]. *)
Definition dup_userfaultfd (orig tmp : nat) (uf : list nat) : MM (Z * list nat) :=
  if negb (env_uffd env orig =? 0) then mret (env_uffd env orig, uf) else
  if env_uffd_fork env orig then take (area_uffd tmp);; mret (0, uf ++ [tmp]) else mret (0, uf).
Fixpoint dup_userfaultfd_fail (uf : list nat) : MM unit :=
  match uf with [] => mskip | v :: uf' => drop (area_uffd v);; dup_userfaultfd_fail uf' end.
Definition anon_vma_fork (tmp mpnt : nat) : MM Z :=
  a ← area_at mpnt;
  if negb (vm_anon_vma a) then mret 0 else
  if negb (env_anon env mpnt =? 0) then mret (env_anon env mpnt) else
  take (area_anon tmp);; upd_area tmp (λ a, a <| vm_anon_vma := true |>);; mret 0.

(** How a round of the loop over the areas ends: with the next area, or at [loop_out] with
    [retval] and [mpnt]. *)
Inductive area_end := next_area | loop_out (retval : Z) (mpnt : option nat).
Definition fail_nomem (mpnt : nat) (charge : Z) : MM area_end :=
  vm_unacct_memory charge;; mret (loop_out (- ENOMEM) (Some mpnt)).
Definition fail_nomem_policy (mpnt tmp : nat) (charge : Z) : MM area_end := vm_area_free tmp;; fail_nomem mpnt charge.
Definition fail_nomem_anon_vma_fork (mpnt tmp : nat) (charge : Z) : MM area_end :=
  t ← area_at tmp; mpol_put (vm_policy t);; fail_nomem_policy mpnt tmp charge.

(** The area is in the tree: its driver and its file. *)
Definition link_file (tmp : nat) : MM unit :=
  t ← area_at tmp;
  mwhen (vm_ops_open t) (take (area_opened tmp));;
  for_some (vm_file t) (λ f,
    share (file_ref f);;
    mwhen (vma_is_shared_maywrite t) (take (file_writable f));;
    take (area_mapped tmp)).
Definition dup_area (m mpnt : nat) (uf : list nat) : MM (area_end * list nat) :=
  a ← area_at mpnt;
  if has (vm_flags a) VM_DONTCOPY then
    if negb (env_clear env mpnt =? 0) then mret (loop_out (env_clear env mpnt) (Some mpnt), uf) else
    upd_mm m (λ mm, vm_stat_account (mm <| mm_mt ::= mas_erase (vm_start a) (vm_end a) |>) (vm_flags a) (- vma_pages a));;
    mret (next_area, uf)
  else if env_fatal env mpnt then mret (loop_out (- EINTR) (Some mpnt), uf) else
  let account := has (vm_flags a) VM_ACCOUNT in
  enough ← (if account then security_vm_enough_memory_mm mpnt (vma_pages a) else mret 0);
  if negb (enough =? 0) then r ← fail_nomem mpnt 0; mret (r, uf) else
  let charge := if account then vma_pages a else 0 in
  tmp ← vm_area_dup mpnt;
  match tmp with
  | None => r ← fail_nomem mpnt charge; mret (r, uf)
  | Some tmp =>
      retval ← vma_dup_policy mpnt tmp;
      if negb (retval =? 0) then r ← fail_nomem_policy mpnt tmp charge; mret (r, uf) else
      upd_area tmp (λ t, t <| vm_mm := m |>);;
      '(retval, uf) ← dup_userfaultfd mpnt tmp uf;
      if negb (retval =? 0) then r ← fail_nomem_anon_vma_fork mpnt tmp charge; mret (r, uf) else
      anon ← (if has (vm_flags a) VM_WIPEONFORK then upd_area tmp (λ t, t <| vm_anon_vma := false |>);; mret 0 else anon_vma_fork tmp mpnt);
      if negb (anon =? 0) then r ← fail_nomem_anon_vma_fork mpnt tmp charge; mret (r, uf) else
      upd_area tmp (λ t, t <| vm_flags ::= λ f, Z.ldiff f VM_LOCKED_MASK |>);;
      upd_mm m (λ mm, mm <| mm_mt ::= mas_store (vm_start a) (vm_end a) (Some tmp) |> <| mm_map_count ::= λ n, n + 1 |>);;
      link_file tmp;;
      let retval := if has (vm_flags a) VM_WIPEONFORK then 0 else env_pages env mpnt in
      if negb (retval =? 0) then
        mm ← mm_at m;
        mret (loop_out retval (mas_find (vm_end a) (mm_mt mm) ≫= mt_area), uf)
      else mret (next_area, uf)
  end.
(** [for_each_vma] over the tree of the new memory map, from position [pos]. *)
Fixpoint dup_areas (fuel : nat) (m : nat) (pos : Z) (uf : list nat) : MM (Z * option nat * list nat) :=
  match fuel with
  | O => λ _, Oops out_of_fuel
  | S fuel' =>
      mm ← mm_at m;
      match mas_find pos (mm_mt mm) with
      | None => mret (env_arch_dup env, None, uf)
      | Some e =>
          mpnt ← mderef (mt_area e);
          '(r, uf) ← dup_area m mpnt uf;
          match r with next_area => dup_areas fuel' m (mt_end e) uf | loop_out retval mpnt => mret (retval, mpnt, uf) end
      end
  end.
Definition mark_failure (m mpnt : nat) : MM unit :=
  a ← area_at mpnt;
  upd_mm m (λ mm, mm <| mm_mt ::= mas_store (vm_start a) (vm_end a) None |> <| mm_flags ::= Z.lor MMF_OOM_SKIP |>).
Definition dup_mmap_out (m oldmm : nat) (retval : Z) (uf : list nat) : MM Z :=
  drop (mmap_lock m);;
  drop (mmap_lock oldmm);;
  mwhen (negb (retval =? 0)) (dup_userfaultfd_fail uf);;
  mret retval.
Definition dup_mmap (m oldmm : nat) : MM Z :=
  if env_lock_killed env then mret (- EINTR) else
  take (mmap_lock oldmm);;
  take (mmap_lock m);;
  dup_mm_exe_file m oldmm;;
  old ← mm_at oldmm;
  upd_mm m (λ mm, mm <| mm_total_vm := mm_total_vm old |> <| mm_data_vm := mm_data_vm old |>
                     <| mm_exec_vm := mm_exec_vm old |> <| mm_stack_vm := mm_stack_vm old |>);;
  if negb (env_mt_dup env =? 0) then dup_mmap_out m oldmm (env_mt_dup env) [] else
  upd_mm m (λ mm, mm <| mm_mt := mm_mt old |>);;
  '(retval, mpnt, uf) ← dup_areas (S (length (mm_mt old))) m 0 [];
  mwhen (negb (retval =? 0))
    (for_some mpnt (mark_failure m);; upd_mm m (λ mm, mm <| mm_flags ::= Z.lor MMF_UNSTABLE |>));;
  dup_mmap_out m oldmm retval uf.

(** [err]: the result of [dup_mmap]; [uprobe_end_dup_mmap] is still due when it failed. *)
Definition free_pt (m : nat) (err : Z) : MM (option nat) :=
  upd_mm m (λ mm, mm <| mm_binfmt := None |>);;
  mm_init_owner m None;;
  mmput m;;
  mwhen (negb (err =? 0)) (drop uprobe_lock);;
  mret None.
Definition dup_mm (tsk : tid) (oldmm : nat) : MM (option nat) :=
  old ← mm_at oldmm;
  m ← allocate_mm old;
  match m with
  | None => mret None
  | Some m =>
      mm ← mm_at m;
      ok ← mm_init m tsk (mm_user_ns mm);
      match ok with
      | None => mret None
      | Some _ =>
          take uprobe_lock;;
          err ← dup_mmap m oldmm;
          if negb (err =? 0) then free_pt m err else
          drop uprobe_lock;;
          upd_mm m (λ mm, mm <| mm_hiwater_rss := env_rss env |> <| mm_hiwater_vm := mm_total_vm mm |>);;
          mm ← mm_at m;
          match mm_binfmt mm with
          | Some b => if env_module env then share (module_ref b);; mret (Some m) else free_pt m 0
          | None => mret (Some m)
          end
      end
  end.
(** [copy_mm] of a child whose task is [tsk]. *)
Definition copy_mm (share_vm : bool) (tsk : tid) : MM Z :=
  let set m := mmodify (λ s, s <| ms_tasks ::= alter (λ t, {| mt_mm := m; mt_active_mm := m; mt_kthread := mt_kthread t |}) tsk |>) in
  set None;;
  cur ← mget ms_current;
  t ← mm_task_at cur;
  match mt_mm t with
  | None => mret 0
  | Some oldmm =>
      if share_vm then mmget oldmm;; set (Some oldmm);; mret 0 else
      m ← dup_mm tsk oldmm;
      match m with None => mret (- ENOMEM) | Some m => set (Some m);; mret 0 end
  end.
End memmap.
