(* ===== verification/MemCopy.v ===== *)
(** What memory maps and areas hold, and the loop of [dup_mmap]: what each round takes and where
    the copy stands. *)
From stdpp Require Import gmultiset sorting.
From S2P Require Import Prelude Rbtree KState MemMap.

(** * Weakest preconditions of the monad *)

Definition mwp {A} (m : MM A) (s : mstate) (Q : A → mstate → Prop) : Prop :=
  match m s with Ok (a, s') => Q a s' | Oops _ => False end.
Lemma mwp_ret {A} (a : A) s Q : Q a s → mwp (mret a) s Q.
Proof. done. Qed.
Lemma mwp_bind {A B} (m : MM A) (k : A → MM B) s Q : mwp m s (λ a s', mwp (k a) s' Q) → mwp (m ≫= k) s Q.
Proof. unfold mwp, mbind, MM_bind. by destruct (m s) as [[? ?]|]. Qed.
Lemma mwp_mono {A} (m : MM A) s Q Q' : mwp m s Q → (∀ a s', Q a s' → Q' a s') → mwp m s Q'.
Proof. unfold mwp. destruct (m s) as [[? ?]|]; auto. Qed.
Lemma mwp_ok {A} (m : MM A) s a s' Q : m s = Ok (a, s') → Q a s' → mwp m s Q.
Proof. unfold mwp. by intros ->. Qed.
Lemma mwp_inv {A} (m : MM A) s Q : mwp m s Q → ∃ a s', m s = Ok (a, s') ∧ Q a s'.
Proof. unfold mwp. destruct (m s) as [[a s']|]; [eauto|done]. Qed.

(** * What is held *)

Definition opt_ref {A} (f : A → gmultiset mobj) (o : option A) : gmultiset mobj := match o with Some x => f x | None => ∅ end.
Definition if_ref (b : bool) (x : mobj) : gmultiset mobj := if b then {[+ x +]} else ∅.
(** By an area that is in the tree of its memory map. *)
Definition area_refs (v : nat) (a : vm_area_struct) : gmultiset mobj :=
  {[+ area_mem v; area_lock v +]} ⊎ opt_ref (λ n, {[+ anon_name n +]}) (vm_anon_name a) ⊎ if_ref (vm_anon_vma a) (area_anon v)
  ⊎ if_ref (vm_ops_open a) (area_opened v) ⊎ opt_ref (λ n, {[+ policy_mem n +]}) (vm_policy a)
  ⊎ opt_ref (λ f, {[+ file_ref f; area_mapped v +]} ⊎ if_ref (vma_is_shared_maywrite a) (file_writable f)) (vm_file a).
Definition areas := list (nat * vm_area_struct).
Definition held (l : areas) : gmultiset mobj := foldr (λ x R, area_refs x.1 x.2 ⊎ R) ∅ l.
Definition exe_refs (o : option nat) : gmultiset mobj := opt_ref (λ f, {[+ file_ref f; file_denied f +]}) o.
(** By a memory map, but for its areas. *)
Definition mm_refs (m : nat) (mm : mm_struct) : gmultiset mobj :=
  {[+ mm_mem m; mm_pgd m; mm_context m; mm_cid m; mm_counters m; user_ns_ref (mm_user_ns mm) +]} ⊎ exe_refs (mm_exe_file mm)
  ⊎ opt_ref (λ b, {[+ module_ref b +]}) (mm_binfmt mm).
Definition uffd_refs (uf : list nat) : gmultiset mobj := foldr (λ v R, {[+ area_uffd v +]} ⊎ R) ∅ uf.

Definition area_charge (a : vm_area_struct) : Z := if has (vm_flags a) VM_ACCOUNT then vma_pages a else 0.
Definition sum_over (f : vm_area_struct → Z) (l : areas) : Z := foldr (λ x n, f x.2 + n) 0 l.
Definition entry_of (x : nat * vm_area_struct) : mt_entry := {| mt_start := vm_start x.2; mt_end := vm_end x.2; mt_area := Some x.1 |}.
Definition insert_areas (l : areas) (A : gmap nat vm_area_struct) : gmap nat vm_area_struct := foldr (λ x A, <[x.1 := x.2]> A) A l.
Definition remove_areas (l : areas) (A : gmap nat vm_area_struct) : gmap nat vm_area_struct := foldr (λ x A, delete x.1 A) A l.

(** Ranges in order and not empty. *)
Definition ranges_ok (t : list mt_entry) : Prop :=
  StronglySorted (λ e e', mt_end e <= mt_start e') t ∧ Forall (λ e, 0 <= mt_start e < mt_end e) t.
Definition owned (m : nat) (A : gmap nat vm_area_struct) (l : areas) : Prop :=
  NoDup l.*1 ∧ Forall (λ x, A !! x.1 = Some x.2 ∧ vm_mm x.2 = m) l.
(** The memory map [m] has exactly the areas [l], and counts them. *)
Definition mm_ok (s : mstate) (m : nat) (mm : mm_struct) (l : areas) : Prop :=
  ms_mms s !! m = Some mm ∧ mm_mt mm = map entry_of l ∧ ranges_ok (mm_mt mm) ∧ owned m (ms_areas s) l ∧
  mm_map_count mm = Z.of_nat (length l) ∧ mm_total_vm mm = sum_over vma_pages l.

(** What the code relies on of the functions it calls: [exit_mmap] releases the areas of the
    tree up to the mark of a failed copy, and stops the kernel when their number is not the
    map count; [vm_stat_account] keeps the counters of pages; a file whose write access is
    denied can be denied to one more. *)
Class MmLaws (ML : MmLib) : Prop := {
  exit_mmap_ok s m mm l rest R :
    ms_mms s !! m = Some mm → mm_mt mm = map entry_of l ++ rest →
    match rest with [] => True | e :: _ => mt_area e = None end →
    owned m (ms_areas s) l → mm_map_count mm = Z.of_nat (length l) → mmap_lock m ∉ ms_refs s → ms_refs s = held l ⊎ R →
    exit_mmap m s = Ok (tt, s <| ms_mms := <[m := mm <| mm_mt := [] |>]> (ms_mms s) |> <| ms_areas := remove_areas l (ms_areas s) |>
                              <| ms_refs := R |> <| ms_committed := ms_committed s - sum_over area_charge l |>);
  stat_account_ok mm f n : ∃ d e k,
    vm_stat_account mm f n = mm <| mm_total_vm := mm_total_vm mm + n |> <| mm_data_vm := d |> <| mm_exec_vm := e |> <| mm_stack_vm := k |>;
  deny_write_ok f s : ∃ r, exe_file_deny_write_access f s = Ok (r, if r =? 0 then s <| ms_refs := {[+ file_denied f +]} ⊎ ms_refs s |> else s)
    ∧ (file_denied f ∈ ms_refs s → r = 0);
}.

(** * Lists of areas *)

Lemma held_perm l l' : Permutation l l' → held l = held l'.
Proof. induction 1; cbn; [done|by f_equal|multiset_solver|by etrans]. Qed.
Lemma sum_perm f l l' : Permutation l l' → sum_over f l = sum_over f l'.
Proof. unfold sum_over. induction 1; cbn; lia. Qed.
Lemma lookup_insert_areas l A v : v ∉ l.*1 → insert_areas l A !! v = A !! v.
Proof. induction l as [|[w a] l IH]; cbn; [done|]. intros [? ?]%not_elem_of_cons. rewrite lookup_insert_ne; auto. Qed.
Lemma insert_areas_none l A v : insert_areas l A !! v = None → v ∉ l.*1 ∧ A !! v = None.
Proof.
  induction l as [|[w a] l IH]; [intros; split; [apply not_elem_of_nil|done]|]. change (insert_areas ((w, a) :: l) A) with (<[w := a]> (insert_areas l A)).
  intros [Hl Hne]%lookup_insert_None. destruct (IH Hl). split; [|done]. by apply not_elem_of_cons.
Qed.
Lemma lookup_remove_areas l A v : remove_areas l A !! v = if decide (v ∈ l.*1) then None else A !! v.
Proof.
  induction l as [|[w a] l IH]; [by rewrite decide_False by apply not_elem_of_nil|].
  change (remove_areas ((w, a) :: l) A) with (delete w (remove_areas l A)). cbn [fmap list_fmap fst].
  destruct (decide (v = w)) as [->|]; [by rewrite lookup_delete_eq, decide_True by left|]. rewrite lookup_delete_ne, IH by done.
  destruct (decide (v ∈ l.*1)); [by rewrite decide_True by (by right)|]. rewrite decide_False; [done|]. by intros [?|?]%elem_of_cons.
Qed.
Lemma remove_insert_areas l l' A :
  Permutation l l' → Forall (λ x, A !! x.1 = None) l → remove_areas l' (insert_areas l A) = A.
Proof.
  intros Hp Hf. apply map_eq. intros v. rewrite lookup_remove_areas. case_decide as Hv; rewrite <-Hp in Hv.
  - apply list_elem_of_fmap in Hv as (x&->&Hx). rewrite Forall_forall in Hf. symmetry. by apply Hf.
  - by apply lookup_insert_areas.
Qed.

(** * The tree *)

Lemma filter_all {A} (f : A → bool) l : Forall (λ x, f x = true) l → List.filter f l = l.
Proof. induction 1 as [|x l Hx _ IH]; cbn; [done|]. by rewrite Hx, IH. Qed.
Lemma filter_nothing {A} (f : A → bool) l : Forall (λ x, f x = false) l → List.filter f l = [].
Proof. induction 1 as [|x l Hx _ IH]; cbn; [done|]. by rewrite Hx. Qed.
Lemma ranges_split pre e post :
  ranges_ok (pre ++ e :: post) →
  Forall (λ x, mt_end x <= mt_start e ∧ 0 <= mt_start x < mt_end x) pre ∧ 0 <= mt_start e < mt_end e ∧
  Forall (λ x, mt_end e <= mt_start x ∧ 0 <= mt_start x < mt_end x) post.
Proof.
  intros [Hs Hf]. apply StronglySorted_app in Hs as (Hx&Hs1&Hs2). apply StronglySorted_inv in Hs2 as [_ Hp].
  apply Forall_app in Hf as [Hf1 Hf2]. apply Forall_cons in Hf2 as [He Hf2]. split; [|split; [done|]].
  - rewrite Forall_forall in Hf1 |- *. intros x Hin. split; [|by apply Hf1]. apply Hx; [done|by left].
  - rewrite Forall_forall in Hf2, Hp |- *. auto.
Qed.
Lemma mas_find_split pos pre e post :
  Forall (λ x, mt_end x <= pos) pre → pos < mt_end e → mas_find pos (pre ++ e :: post) = Some e.
Proof.
  intros Hp He. induction Hp as [|x pre Hx _ IH]; cbn.
  - by rewrite (proj2 (Z.ltb_lt _ _)).
  - rewrite (proj2 (Z.ltb_ge _ _)) by done. apply IH.
Qed.
Lemma mas_find_none pos t : Forall (λ x, mt_end x <= pos) t → mas_find pos t = None.
Proof. induction 1 as [|x t Hx _ IH]; cbn; [done|]. by rewrite (proj2 (Z.ltb_ge _ _)). Qed.
Lemma split_filters pre e post :
  ranges_ok (pre ++ e :: post) →
  List.filter (before (mt_start e)) (pre ++ e :: post) = pre ∧ List.filter (after (mt_end e)) (pre ++ e :: post) = post.
Proof.
  intros Hr. apply ranges_split in Hr as (H1&H2&H3). unfold before, after. rewrite !List.filter_app. cbn [List.filter].
  rewrite (proj2 (Z.leb_gt _ _)) by lia. split.
  - by rewrite (filter_all _ pre), filter_nothing, app_nil_r by
      (eapply Forall_impl; [first [exact H1|exact H3]|]; intros x ?; cbn beta in *; first [apply Z.leb_gt; lia|apply Z.leb_le; lia]).
  - by rewrite (filter_nothing _ pre), filter_all by
      (eapply Forall_impl; [first [exact H1|exact H3]|]; intros x ?; cbn beta in *; first [apply Z.leb_gt; lia|apply Z.leb_le; lia]).
Qed.
Lemma mas_store_split pre e post v :
  ranges_ok (pre ++ e :: post) →
  mas_store (mt_start e) (mt_end e) v (pre ++ e :: post) = pre ++ {| mt_start := mt_start e; mt_end := mt_end e; mt_area := v |} :: post.
Proof. intros Hr. unfold mas_store. by destruct (split_filters _ _ _ Hr) as [-> ->]. Qed.
Lemma mas_erase_split pre e post :
  ranges_ok (pre ++ e :: post) → mas_erase (mt_start e) (mt_end e) (pre ++ e :: post) = pre ++ post.
Proof. intros Hr. unfold mas_erase. by destruct (split_filters _ _ _ Hr) as [-> ->]. Qed.
Lemma ranges_store pre e post v :
  ranges_ok (pre ++ e :: post) → ranges_ok (pre ++ {| mt_start := mt_start e; mt_end := mt_end e; mt_area := v |} :: post).
Proof.
  intros [Hs Hf]. split.
  - apply StronglySorted_app in Hs as (Hx&Hs1&Hs2). apply StronglySorted_inv in Hs2 as [Hs2 Hp]. apply StronglySorted_app. split_and!; [|done|by constructor].
    intros x y Hin [->|Hy]%elem_of_cons; cbn; [apply Hx; [done|by left]|apply Hx; [done|by right]].
  - apply Forall_app in Hf as [Hf1 Hf2]. apply Forall_cons in Hf2 as [He Hf2]. apply Forall_app. split; [done|]. by constructor.
Qed.
Lemma ranges_erase pre e post : ranges_ok (pre ++ e :: post) → ranges_ok (pre ++ post).
Proof.
  intros [Hs Hf]. split.
  - apply StronglySorted_app in Hs as (Hx&Hs1&Hs2). apply StronglySorted_inv in Hs2 as [Hs2 Hp]. apply StronglySorted_app. split_and!; [|done|done].
    intros x y Hin Hy. apply Hx; [done|by right].
  - apply Forall_app in Hf as [Hf1 Hf2]. apply Forall_cons in Hf2 as [He Hf2]. by apply Forall_app.
Qed.

(** The copy of the area [a], number [orig], in the memory map [m]. *)
Definition area_copy (env : mm_env) (m orig : nat) (a : vm_area_struct) : vm_area_struct :=
  a <| vm_mm := m |> <| vm_flags := Z.ldiff (vm_flags a) VM_LOCKED_MASK |>
    <| vm_policy := (λ _, env_new_policy env orig) <$> vm_policy a |>
    <| vm_anon_vma := vm_anon_vma a && negb (has (vm_flags a) VM_WIPEONFORK) |>.
(** What an area holds that is not in a tree yet. *)
Definition bare_refs (v : nat) (a : vm_area_struct) : gmultiset mobj :=
  {[+ area_mem v; area_lock v +]} ⊎ opt_ref (λ n, {[+ anon_name n +]}) (vm_anon_name a).
Definition mm_with (mm : mm_struct) (t : list mt_entry) (n : Z) : mm_struct := mm <| mm_mt := t |> <| mm_map_count := n |>.

Section copy.
Context {ML : MmLib} {HL : MmLaws ML} (env : mm_env) (s0 : mstate).
Implicit Types (M : gmap nat mm_struct) (A : gmap nat vm_area_struct) (R : gmultiset mobj) (C : Z) (q uf : list nat)
  (m v mpnt : nat) (mm : mm_struct) (a : vm_area_struct).

(** The states of one operation. *)
Definition St M A R C q : mstate :=
  s0 <| ms_mms := M |> <| ms_areas := A |> <| ms_refs := R |> <| ms_committed := C |> <| ms_rcu := q |>.
Lemma St_id : s0 = St (ms_mms s0) (ms_areas s0) (ms_refs s0) (ms_committed s0) (ms_rcu s0).
Proof. unfold St. destruct s0. reflexivity. Qed.

Lemma w_take x M A R C q Q : Q tt (St M A ({[+ x +]} ⊎ R) C q) → mwp (take x) (St M A R C q) Q.
Proof. done. Qed.
Lemma w_share x M A R C q Q : x ∈ R → Q tt (St M A ({[+ x +]} ⊎ R) C q) → mwp (share x) (St M A R C q) Q.
Proof. intros Hx HQ. unfold mwp, share. cbn. by rewrite decide_True. Qed.
Lemma w_drop x M A R C q Q : x ∈ R → Q tt (St M A (R ∖ {[+ x +]}) C q) → mwp (drop x) (St M A R C q) Q.
Proof. intros Hx HQ. unfold mwp, drop. cbn. by rewrite decide_True. Qed.
Lemma w_mm_at m mm M A R C q Q : M !! m = Some mm → Q mm (St M A R C q) → mwp (mm_at m) (St M A R C q) Q.
Proof. intros Hm HQ. unfold mwp, mm_at. cbn. by rewrite Hm. Qed.
Lemma w_upd_mm m mm f M A R C q Q : M !! m = Some mm → Q tt (St (<[m := f mm]> M) A R C q) → mwp (upd_mm m f) (St M A R C q) Q.
Proof. intros Hm HQ. apply mwp_bind. by eapply w_mm_at. Qed.
Lemma w_area_at v a M A R C q Q : A !! v = Some a → Q a (St M A R C q) → mwp (area_at v) (St M A R C q) Q.
Proof. intros Hm HQ. unfold mwp, area_at. cbn. by rewrite Hm. Qed.
Lemma w_upd_area v a f M A R C q Q : A !! v = Some a → Q tt (St M (<[v := f a]> A) R C q) → mwp (upd_area v f) (St M A R C q) Q.
Proof. intros Hm HQ. apply mwp_bind. by eapply w_area_at. Qed.
Lemma w_acct n M A R C q Q : Q tt (St M A R (C + n) q) → mwp (vm_acct_memory n) (St M A R C q) Q.
Proof. done. Qed.
Lemma w_area_free v M A R C q Q : Q tt (St M A R C (q ++ [v])) → mwp (vm_area_free v) (St M A R C q) Q.
Proof. done. Qed.
Lemma w_when (b : bool) (e : MM unit) s Q : (b = true → mwp e s Q) → (b = false → Q tt s) → mwp (mwhen b e) s Q.
Proof. destruct b; intros H1 H2; [by apply H1|by apply H2]. Qed.
Lemma w_new_area a M A R C q Q :
  (∀ v, A !! v = None → Q v (St M (<[v := a]> A) ({[+ area_mem v +]} ⊎ R) C q)) → mwp (new_area a) (St M A R C q) Q.
Proof. intros HQ. unfold mwp. cbn. apply HQ. apply not_elem_of_dom, is_fresh. Qed.
Lemma w_delete_area v M A R C q Q :
  Q tt (St M (delete v A) R C q) → mwp (mmodify (λ s, s <| ms_areas := delete v (ms_areas s) |>)) (St M A R C q) Q.
Proof. done. Qed.
Lemma w_free_area v a M A R C q Q :
  A !! v = None → Q tt (St M A R C q) → mwp (free_area v) (St M (<[v := a]> A) ({[+ area_mem v +]} ⊎ R) C q) Q.
Proof.
  intros Hv HQ. apply mwp_bind, w_drop; [multiset_solver|]. apply w_delete_area. rewrite delete_insert_id by done.
  by replace (({[+ area_mem v +]} ⊎ R) ∖ {[+ area_mem v +]}) with R by multiset_solver.
Qed.
End copy.

Ltac mwp_step :=
  lazymatch goal with
  | |- mwp (mbind _ _) _ _ => apply mwp_bind
  | |- mwp (mret _) _ _ => apply mwp_ret
  | |- mwp mskip _ _ => apply mwp_ret
  | |- mwp (take _) _ _ => apply w_take
  | |- mwp (drop _) _ _ => apply w_drop; [multiset_solver|]
  | |- mwp (mm_at _) _ _ => eapply w_mm_at; [by simplify_map_eq|]
  | |- mwp (upd_mm _ _) _ _ => eapply w_upd_mm; [by simplify_map_eq|]
  | |- mwp (area_at _) _ _ => eapply w_area_at; [by simplify_map_eq|]
  | |- mwp (upd_area _ _) _ _ => eapply w_upd_area; [by simplify_map_eq|]
  | |- mwp (vm_acct_memory _) _ _ => apply w_acct
  | |- mwp (vm_unacct_memory _) _ _ => apply w_acct
  | |- mwp (vm_area_free _) _ _ => apply w_area_free
  end; cbn beta iota.
Ltac mwp_steps := repeat mwp_step.

Section rounds.
Context {ML : MmLib} {HL : MmLaws ML} (env : mm_env) (s0 : mstate).
Implicit Types (M : gmap nat mm_struct) (A : gmap nat vm_area_struct) (R : gmultiset mobj) (C : Z) (q uf : list nat)
  (m v mpnt : nat) (mm : mm_struct) (a t : vm_area_struct).
Abbreviation St := (St s0).

Lemma uffd_refs_snoc uf v : uffd_refs (uf ++ [v]) = {[+ area_uffd v +]} ⊎ uffd_refs uf.
Proof. unfold uffd_refs. induction uf as [|w uf IH]; cbn [foldr app]; [done|]. rewrite IH. multiset_solver. Qed.

(** [vm_area_dup]: nothing, or an area with its lock and name. *)
Lemma w_vm_area_dup mpnt a M A R C q Q :
  A !! mpnt = Some a → (∀ n, vm_anon_name a = Some n → anon_name n ∈ R) →
  Q None (St M A R C q) →
  (∀ v, A !! v = None → Q (Some v) (St M (<[v := a]> A) (bare_refs v a ⊎ R) C q)) →
  mwp (vm_area_dup env mpnt) (St M A R C q) Q.
Proof.
  intros Ha Hn HN HS. unfold vm_area_dup. destruct (env_area env mpnt); cbn [negb]; [|by mwp_steps]. mwp_steps.
  apply w_new_area. intros v Hv. mwp_steps. unfold vma_lock_alloc. destruct (env_area_lock env mpnt); mwp_steps; cbn [negb].
  - apply mwp_bind. unfold for_some. destruct (vm_anon_name a) as [n|] eqn:Hna.
    + apply w_share; [specialize (Hn n); multiset_solver|]. mwp_steps. specialize (HS v Hv). unfold bare_refs in HS. rewrite Hna in HS. cbn [opt_ref] in HS.
      replace ({[+ anon_name n +]} ⊎ ({[+ area_lock v +]} ⊎ ({[+ area_mem v +]} ⊎ R))) with ({[+ area_mem v; area_lock v +]} ⊎ {[+ anon_name n +]} ⊎ R) by multiset_solver. done.
    + mwp_steps. specialize (HS v Hv). unfold bare_refs in HS. rewrite Hna in HS. cbn [opt_ref] in HS.
      replace ({[+ area_lock v +]} ⊎ ({[+ area_mem v +]} ⊎ R)) with ({[+ area_mem v; area_lock v +]} ⊎ ∅ ⊎ R) by multiset_solver. done.
  - apply mwp_bind. by eapply w_free_area.
Qed.

Lemma w_dup_policy mpnt tmp a t M A R C q Q :
  A !! tmp = None → A !! mpnt = Some a → vm_policy t = vm_policy a →
  (∀ r, r ≠ 0 → Q r (St M (<[tmp := t]> A) R C q)) →
  (let p := (λ _, env_new_policy env mpnt) <$> vm_policy a in
   Q 0 (St M (<[tmp := t <| vm_policy := p |>]> A) (opt_ref (λ n, {[+ policy_mem n +]}) p ⊎ R) C q)) →
  mwp (vma_dup_policy env mpnt tmp) (St M (<[tmp := t]> A) R C q) Q.
Proof.
  intros Ht Ha Hp HF HS. assert (tmp ≠ mpnt) by congruence. unfold vma_dup_policy. mwp_steps. destruct (vm_policy a) as [n|]; cbn [fmap option_fmap option_map opt_ref] in HS.
  - destruct (Z.eqb_spec (env_policy env mpnt) 0); cbn [negb]; mwp_steps; [|by apply HF]. by rewrite insert_insert_eq.
  - mwp_steps. replace (t <| vm_policy := None |>) with t in HS by (destruct t; cbn in *; by subst).
    by replace (∅ ⊎ R) with R in HS by multiset_solver.
Qed.
(** The contexts told of the fork when the copy [tmp] of [mpnt] is among them. *)
Definition told_of (env' : mm_env) mpnt (tmp : nat) uf : list nat := if env_uffd_fork env' mpnt then uf ++ [tmp] else uf.
Lemma w_uffd mpnt tmp uf M A R C q Q :
  (∀ r, r ≠ 0 → Q (r, uf) (St M A (uffd_refs uf ⊎ R) C q)) →
  (let uf' := told_of env mpnt tmp uf in Q (0, uf') (St M A (uffd_refs uf' ⊎ R) C q)) →
  mwp (dup_userfaultfd env mpnt tmp uf) (St M A (uffd_refs uf ⊎ R) C q) Q.
Proof.
  intros HF HS. unfold told_of in HS. unfold dup_userfaultfd. destruct (Z.eqb_spec (env_uffd env mpnt) 0); cbn [negb]; mwp_steps; [|by apply HF].
  destruct (env_uffd_fork env mpnt); mwp_steps; [|done]. cbv zeta in HS. rewrite uffd_refs_snoc in HS.
  by replace ({[+ area_uffd tmp +]} ⊎ (uffd_refs uf ⊎ R)) with ({[+ area_uffd tmp +]} ⊎ uffd_refs uf ⊎ R) by multiset_solver.
Qed.
Lemma w_anon mpnt tmp a t M A R C q Q :
  A !! tmp = None → A !! mpnt = Some a → vm_anon_vma t = vm_anon_vma a →
  (∀ r, r ≠ 0 → Q r (St M (<[tmp := t]> A) R C q)) →
  (let b := vm_anon_vma a && negb (has (vm_flags a) VM_WIPEONFORK) in
   Q 0 (St M (<[tmp := t <| vm_anon_vma := b |>]> A) (if_ref b (area_anon tmp) ⊎ R) C q)) →
  mwp (if has (vm_flags a) VM_WIPEONFORK then upd_area tmp (λ t, t <| vm_anon_vma := false |>);; mret 0 else anon_vma_fork env tmp mpnt)
    (St M (<[tmp := t]> A) R C q) Q.
Proof.
  intros Ht Ha Hp HF HS. assert (tmp ≠ mpnt) by congruence. destruct (has (vm_flags a) VM_WIPEONFORK); cbn [negb] in HS.
  - rewrite andb_false_r in HS. cbn [if_ref] in HS. mwp_steps. rewrite insert_insert_eq. by replace (∅ ⊎ R) with R in HS by multiset_solver.
  - rewrite andb_true_r in HS. unfold anon_vma_fork. mwp_steps. destruct (vm_anon_vma a); cbn [negb if_ref] in *.
    + destruct (Z.eqb_spec (env_anon env mpnt) 0); cbn [negb]; mwp_steps; [|by apply HF]. by rewrite insert_insert_eq.
    + mwp_steps. replace (t <| vm_anon_vma := false |>) with t in HS by (destruct t; cbn in *; by subst).
      by replace (∅ ⊎ R) with R in HS by multiset_solver.
Qed.
Lemma w_link_file tmp t M A R C q Q :
  A !! tmp = Some t → (∀ f, vm_file t = Some f → file_ref f ∈ R) →
  Q tt (St M A (if_ref (vm_ops_open t) (area_opened tmp)
     ⊎ opt_ref (λ f, {[+ file_ref f; area_mapped tmp +]} ⊎ if_ref (vma_is_shared_maywrite t) (file_writable f)) (vm_file t) ⊎ R) C q) →
  mwp (link_file tmp) (St M A R C q) Q.
Proof.
  intros Ht Hf HQ. unfold link_file. mwp_steps. unfold mwhen, for_some. destruct (vm_ops_open t), (vm_file t) as [f|]; cbn [if_ref opt_ref] in HQ; mwp_steps.
  1,3: eapply w_share; [specialize (Hf f); multiset_solver|]; mwp_steps; destruct (vma_is_shared_maywrite t); cbn [if_ref] in HQ; mwp_steps.
  all: match goal with _ : _ tt (St _ _ ?X _ _) |- _ tt (St _ _ ?Y _ _) => by replace Y with X by multiset_solver end.
Qed.
Lemma w_fail_anon mpnt tmp t n M A R C q Q :
  A !! tmp = None →
  Q (loop_out (- ENOMEM) (Some mpnt)) (St M (<[tmp := t]> A) R (C - n) (q ++ [tmp])) →
  mwp (fail_nomem_anon_vma_fork mpnt tmp n) (St M (<[tmp := t]> A) (opt_ref (λ n, {[+ policy_mem n +]}) (vm_policy t) ⊎ R) C q) Q.
Proof.
  intros Ht HQ. unfold fail_nomem_anon_vma_fork, fail_nomem_policy, fail_nomem. mwp_steps. unfold mpol_put, for_some.
  destruct (vm_policy t) as [k|]; cbn [opt_ref]; mwp_steps.
  - replace (C + - n) with (C - n) by lia. by replace (({[+ policy_mem k +]} ⊎ R) ∖ {[+ policy_mem k +]}) with R by multiset_solver.
  - replace (C + - n) with (C - n) by lia. by replace (∅ ⊎ R) with R by multiset_solver.
Qed.

(** One round of the loop: the area is left out, copied, or the copy is given up. *)
Definition without (mm : mm_struct) (a : vm_area_struct) : mm_struct :=
  vm_stat_account (mm <| mm_mt ::= mas_erase (vm_start a) (vm_end a) |>) (vm_flags a) (- vma_pages a).
Definition with_area (mm : mm_struct) (a : vm_area_struct) (tmp : nat) : mm_struct :=
  mm <| mm_mt ::= mas_store (vm_start a) (vm_end a) (Some tmp) |> <| mm_map_count ::= λ n, n + 1 |>.

Lemma has_unlocked f b : Z.land b VM_LOCKED_MASK = 0 → has (Z.ldiff f VM_LOCKED_MASK) b = has f b.
Proof.
  intros Hb. unfold has. do 2 f_equal. apply Z.bits_inj'. intros n Hn. rewrite !Z.land_spec, Z.ldiff_spec.
  assert (Z.testbit b n && Z.testbit VM_LOCKED_MASK n = false) as Hz by (rewrite <-Z.land_spec, Hb; apply Z.bits_0).
  destruct (Z.testbit b n), (Z.testbit VM_LOCKED_MASK n), (Z.testbit f n); done.
Qed.
Lemma charge_copy m orig a : area_charge (area_copy env m orig a) = area_charge a.
Proof. unfold area_charge. cbn [area_copy]. rewrite (has_unlocked (vm_flags a)); done. Qed.

Lemma area_refs_bare v a : area_refs v a =
  bare_refs v a ⊎ if_ref (vm_anon_vma a) (area_anon v) ⊎ if_ref (vm_ops_open a) (area_opened v)
  ⊎ opt_ref (λ n, {[+ policy_mem n +]}) (vm_policy a)
  ⊎ opt_ref (λ f, {[+ file_ref f; area_mapped v +]} ⊎ if_ref (vma_is_shared_maywrite a) (file_writable f)) (vm_file a).
Proof. reflexivity. Qed.
Lemma refs_reorder (B X O P F U R : gmultiset mobj) : B ⊎ X ⊎ O ⊎ P ⊎ F ⊎ U ⊎ R = O ⊎ F ⊎ (X ⊎ (U ⊎ (P ⊎ (B ⊎ R)))).
Proof. multiset_solver. Qed.

Lemma w_dup_area m mpnt uf mm a M A R C q Q :
  M !! m = Some mm → A !! mpnt = Some a →
  (∀ n, vm_anon_name a = Some n → anon_name n ∈ R) → (∀ f, vm_file a = Some f → file_ref f ∈ R) →
  (has (vm_flags a) VM_DONTCOPY = true → Q (next_area, uf) (St (<[m := without mm a]> M) A (uffd_refs uf ⊎ R) C q)) →
  (∀ r, r ≠ 0 → Q (loop_out r (Some mpnt), uf) (St M A (uffd_refs uf ⊎ R) C q)) →
  (∀ uf' tmp t, A !! tmp = None → vm_anon_name t = vm_anon_name a →
     Q (loop_out (- ENOMEM) (Some mpnt), uf') (St M (<[tmp := t]> A) (bare_refs tmp t ⊎ uffd_refs uf' ⊎ R) C (q ++ [tmp]))) →
  (∀ tmp r, A !! tmp = None → has (vm_flags a) VM_DONTCOPY = false →
     let t := area_copy env m mpnt a in let uf' := told_of env mpnt tmp uf in
     Q (if r =? 0 then next_area else loop_out r (mas_find (vm_end a) (mm_mt (with_area mm a tmp)) ≫= mt_area), uf')
       (St (<[m := with_area mm a tmp]> M) (<[tmp := t]> A) (area_refs tmp t ⊎ uffd_refs uf' ⊎ R) (C + area_charge t) q)) →
  mwp (dup_area env m mpnt uf) (St M A (uffd_refs uf ⊎ R) C q) Q.
Proof.
  intros Hm Ha Hn Hf HD HF HP HS. unfold dup_area. mwp_steps. destruct (has (vm_flags a) VM_DONTCOPY) eqn:Hdc.
  { destruct (Z.eqb_spec (env_clear env mpnt) 0); cbn [negb]; mwp_steps; auto. }
  destruct (env_fatal env mpnt); [mwp_steps; by apply HF|].
  set (charge := if has (vm_flags a) VM_ACCOUNT then vma_pages a else 0).
  assert (∀ Q', (∀ r, r ≠ 0 → Q' r (St M A (uffd_refs uf ⊎ R) C q)) → Q' 0 (St M A (uffd_refs uf ⊎ R) (C + charge) q) →
    mwp (if has (vm_flags a) VM_ACCOUNT then security_vm_enough_memory_mm env mpnt (vma_pages a) else mret 0) (St M A (uffd_refs uf ⊎ R) C q) Q') as Henough.
  { intros Q' HF' HS'. subst charge. destruct (has (vm_flags a) VM_ACCOUNT); [|mwp_steps; by rewrite Z.add_0_r in HS'].
    unfold security_vm_enough_memory_mm. destruct (Z.eqb_spec (env_enough_memory env mpnt) 0); mwp_steps; auto. }
  apply mwp_bind, Henough.
  { intros r Hr. rewrite (proj2 (Z.eqb_neq _ _) Hr). cbn [negb]. unfold fail_nomem. mwp_steps. rewrite Z.add_0_r. by apply HF. }
  cbn [negb Z.eqb]. apply mwp_bind. eapply w_vm_area_dup; [done|intros n Hn'; specialize (Hn n Hn'); multiset_solver| |].
  { unfold fail_nomem. mwp_steps. replace (C + charge + - charge) with C by lia. by apply HF. }
  intros tmp Ht. apply mwp_bind. eapply w_dup_policy; [done..| |].
  { intros r Hr. rewrite (proj2 (Z.eqb_neq _ _) Hr). cbn [negb]. unfold fail_nomem_policy, fail_nomem. mwp_steps. replace (C + charge + - charge) with C by lia.
    specialize (HP uf tmp a Ht eq_refl). by replace (bare_refs tmp a ⊎ (uffd_refs uf ⊎ R)) with (bare_refs tmp a ⊎ uffd_refs uf ⊎ R) by multiset_solver. }
  set (p := (λ _, env_new_policy env mpnt) <$> vm_policy a). cbn [negb Z.eqb]. mwp_steps. rewrite insert_insert_eq.
  replace (opt_ref (λ n, {[+ policy_mem n +]}) p ⊎ (bare_refs tmp a ⊎ (uffd_refs uf ⊎ R)))
    with (uffd_refs uf ⊎ (opt_ref (λ n, {[+ policy_mem n +]}) p ⊎ (bare_refs tmp a ⊎ R))) by multiset_solver.
  assert (∀ t uf', vm_policy t = p → vm_anon_name t = vm_anon_name a →
    mwp (r ← fail_nomem_anon_vma_fork mpnt tmp charge; mret (r, uf'))
      (St M (<[tmp := t]> A) (uffd_refs uf' ⊎ (opt_ref (λ n, {[+ policy_mem n +]}) p ⊎ (bare_refs tmp a ⊎ R))) (C + charge) q) Q) as Hfail.
  { intros t uf' Hp Hna. apply mwp_bind.
    replace (uffd_refs uf' ⊎ (opt_ref (λ n, {[+ policy_mem n +]}) p ⊎ (bare_refs tmp a ⊎ R)))
      with (opt_ref (λ n, {[+ policy_mem n +]}) (vm_policy t) ⊎ (bare_refs tmp t ⊎ uffd_refs uf' ⊎ R))
      by (rewrite Hp; unfold bare_refs; rewrite Hna; multiset_solver).
    apply w_fail_anon; [done|]. mwp_steps. replace (C + charge - charge) with C by lia. by apply HP. }
  apply w_uffd. { intros r Hr. rewrite (proj2 (Z.eqb_neq _ _) Hr). cbn [negb]. by apply Hfail. }
  set (uf' := told_of env mpnt tmp uf). cbv zeta. cbn [negb Z.eqb]. apply mwp_bind. eapply w_anon; [done..| |].
  { intros r Hr. rewrite (proj2 (Z.eqb_neq _ _) Hr). cbn [negb]. by apply Hfail. }
  cbn [negb Z.eqb]. mwp_steps. rewrite insert_insert_eq. change (_ <| vm_flags ::= _ |>) with (area_copy env m mpnt a). change (_ <| mm_map_count ::= _ |>) with (with_area mm a tmp).
  eapply w_link_file; [by simplify_map_eq|intros f Hf'; specialize (Hf f Hf'); multiset_solver|].
  set (r := if has (vm_flags a) VM_WIPEONFORK then 0 else env_pages env mpnt). specialize (HS tmp r Ht eq_refl).
  cbv zeta in HS. fold uf' in HS. rewrite charge_copy in HS. change (area_charge a) with charge in HS.
  match goal with |- mwp _ (St _ _ ?X _ _) _ => replace X with (area_refs tmp (area_copy env m mpnt a) ⊎ uffd_refs uf' ⊎ R)
    by (rewrite area_refs_bare; apply refs_reorder) end.
  destruct (r =? 0); cbn [negb]; mwp_steps; exact HS.
Qed.
End rounds.

(** * The loop *)

Definition kept (l : areas) : areas := List.filter (λ x, negb (has (vm_flags x.2) VM_DONTCOPY)) l.
Definition is_copy (env : mm_env) (m : nat) (x y : nat * vm_area_struct) : Prop := y.2 = area_copy env m x.1 x.2.
(** The copies [news] of the areas [l] whose userfaultfd context is told of the fork. *)
Fixpoint told (env : mm_env) (l news : areas) : list nat :=
  match l, news with
  | x :: l', y :: news' => (if env_uffd_fork env x.1 then [y.1] else []) ++ told env l' news'
  | _, _ => []
  end.
Lemma told_snoc env l news x y :
  length l = length news → told env (l ++ [x]) (news ++ [y]) = told_of env x.1 y.1 (told env l news).
Proof.
  revert news. induction l as [|z l IH]; intros [|w news] Hl; try done; unfold told_of in *; cbn [told app].
  - by destruct (env_uffd_fork env x.1).
  - injection Hl as Hl. rewrite (IH _ Hl). destruct (env_uffd_fork env x.1); [by rewrite app_assoc|done].
Qed.
(** [mm'] is [mm] but for the tree and the counters of areas and pages. *)
Definition same_mm (mm mm' : mm_struct) : Prop := ∃ t n p d e k,
  mm' = mm <| mm_mt := t |> <| mm_map_count := n |> <| mm_total_vm := p |> <| mm_data_vm := d |> <| mm_exec_vm := e |> <| mm_stack_vm := k |>.
(** The areas of [l] before [todo] are done; [acc] are their copies, the last one first. *)
Record copying (env : mm_env) (m : nat) (A0 : gmap nat vm_area_struct) (l : areas) (mm0 : mm_struct) (acc todo : areas) (mm : mm_struct) : Prop := {
  cp_tree : mm_mt mm = map entry_of (rev acc) ++ map entry_of todo;
  cp_ranges : ranges_ok (mm_mt mm);
  cp_count : mm_map_count mm = Z.of_nat (length acc);
  cp_total : mm_total_vm mm = sum_over vma_pages acc + sum_over vma_pages todo;
  cp_fresh : Forall (λ x, A0 !! x.1 = None) acc;
  cp_nodup : NoDup acc.*1;
  cp_copies : ∃ don, l = don ++ todo ∧ Forall2 (is_copy env m) (kept don) (rev acc);
  cp_same : same_mm mm0 mm;
}.
(** An area that a failed round has left to RCU. *)
Definition pend_areas (p : option (nat * vm_area_struct)) (A : gmap nat vm_area_struct) : gmap nat vm_area_struct :=
  match p with Some (v, a) => <[v := a]> A | None => A end.
Definition pend_refs (p : option (nat * vm_area_struct)) : gmultiset mobj := match p with Some (v, a) => bare_refs v a | None => ∅ end.
Definition pend_rcu (p : option (nat * vm_area_struct)) : list nat := match p with Some (v, _) => [v] | None => [] end.

Lemma same_mm_trans mm mm1 mm2 : same_mm mm mm1 → same_mm mm1 mm2 → same_mm mm mm2.
Proof. intros (t&n&p&d&e&k&->) (t'&n'&p'&d'&e'&k'&->). by exists t', n', p', d', e', k'. Qed.
Lemma sum_over_app f l l' : sum_over f (l ++ l') = sum_over f l + sum_over f l'.
Proof. unfold sum_over. induction l; cbn; lia. Qed.

Section loop.
Context {ML : MmLib} {HL : MmLaws ML} (env : mm_env) (s0 : mstate).
Context (m : nat) (M0 : gmap nat mm_struct) (A0 : gmap nat vm_area_struct) (R0 : gmultiset mobj) (C0 : Z) (q0 : list nat) (l : areas) (mm0 : mm_struct).
Context (HA : Forall (λ x, A0 !! x.1 = Some x.2) l) (HR : held l ⊆ R0).
Implicit Types (acc todo : areas) (uf : list nat) (mm : mm_struct).
Abbreviation cp := (copying env m A0 l mm0).
Definition loop_state acc uf mm (p : option (nat * vm_area_struct)) : mstate :=
  St s0 (<[m := mm]> M0) (pend_areas p (insert_areas acc A0)) (pend_refs p ⊎ uffd_refs uf ⊎ (held acc ⊎ R0)) (C0 + sum_over area_charge acc) (q0 ++ pend_rcu p).

Lemma area_refs_held (k : areas) v a : (v, a) ∈ k → area_refs v a ⊆ held k.
Proof.
  induction k as [|[w b] k IH]; [by intros ?%elem_of_nil|]. intros [Heq|Hin]%elem_of_cons.
  - injection Heq as -> ->. apply gmultiset_disj_union_subseteq_l.
  - etrans; [by apply IH|]. apply gmultiset_disj_union_subseteq_r.
Qed.
Lemma area_file_held v a f : (v, a) ∈ l → vm_file a = Some f → file_ref f ∈ R0.
Proof.
  intros Hin Hf. eapply gmultiset_elem_of_subseteq; [|exact HR]. eapply gmultiset_elem_of_subseteq; [|by apply area_refs_held].
  unfold area_refs. rewrite Hf. cbn [opt_ref]. rewrite !gmultiset_elem_of_disj_union, !gmultiset_elem_of_singleton. tauto.
Qed.
Lemma area_name_held v a n : (v, a) ∈ l → vm_anon_name a = Some n → anon_name n ∈ R0.
Proof.
  intros Hin Hf. eapply gmultiset_elem_of_subseteq; [|exact HR]. eapply gmultiset_elem_of_subseteq; [|by apply area_refs_held].
  unfold area_refs. rewrite Hf. cbn [opt_ref]. rewrite !gmultiset_elem_of_disj_union, !gmultiset_elem_of_singleton. tauto.
Qed.

Lemma cp_without acc todo v a mm :
  cp acc ((v, a) :: todo) mm → has (vm_flags a) VM_DONTCOPY = true → cp acc todo (without mm a).
Proof.
  intros [Ht Hr Hn Hp Hf Hd (don&Hl&Hc) Hs] Hdc. unfold without. destruct (stat_account_ok (mm <| mm_mt ::= mas_erase (vm_start a) (vm_end a) |>) (vm_flags a) (- vma_pages a)) as (d&e&k&->).
  assert (mas_erase (vm_start a) (vm_end a) (mm_mt mm) = map entry_of (rev acc) ++ map entry_of todo) as He.
  { rewrite Ht in Hr |- *. apply (mas_erase_split _ (entry_of (v, a))). exact Hr. }
  split; cbn; [done| |done| |done|done| |].
  - rewrite He. rewrite Ht in Hr. by eapply ranges_erase.
  - rewrite Hp. unfold sum_over at 2. cbn. fold (sum_over vma_pages todo). lia.
  - exists (don ++ [(v, a)]). rewrite <-app_assoc. split; [done|]. unfold kept. rewrite List.filter_app. cbn. rewrite Hdc. cbn. by rewrite app_nil_r.
  - eapply same_mm_trans; [exact Hs|]. by eexists _, (mm_map_count mm), _, _, _, _.
Qed.
Lemma cp_with acc todo v a mm tmp :
  cp acc ((v, a) :: todo) mm → has (vm_flags a) VM_DONTCOPY = false → insert_areas acc A0 !! tmp = None →
  cp ((tmp, area_copy env m v a) :: acc) todo (with_area mm a tmp).
Proof.
  intros [Ht Hr Hn Hp Hf Hd (don&Hl&Hc) Hs] Hdc Htmp.
  assert (mas_store (vm_start a) (vm_end a) (Some tmp) (mm_mt mm) = map entry_of (rev ((tmp, area_copy env m v a) :: acc)) ++ map entry_of todo) as He.
  { rewrite Ht in Hr |- *. cbn [rev]. rewrite map_app, <-app_assoc. apply (mas_store_split _ (entry_of (v, a))). exact Hr. }
  apply insert_areas_none in Htmp as [Hnew Htmp]. split; cbn; [done| | | |by constructor|by constructor| |].
  - rewrite He. rewrite Ht in Hr. cbn [rev]. rewrite map_app, <-app_assoc. by apply (ranges_store _ (entry_of (v, a))).
  - rewrite Hn. lia.
  - rewrite Hp. unfold sum_over. cbn. unfold vma_pages. cbn. lia.
  - exists (don ++ [(v, a)]). rewrite <-app_assoc. split; [done|]. unfold kept. rewrite List.filter_app. cbn. rewrite Hdc. cbn. apply Forall2_app; [done|]. by constructor.
  - eapply same_mm_trans; [exact Hs|]. destruct mm. by eexists (mas_store _ _ _ _), (_ + 1), _, _, _, _.
Qed.

Lemma find_todo acc todo mm pos :
  cp acc todo mm → Forall (λ x, mt_end (entry_of x) <= pos) (rev acc) → Forall (λ x, pos < mt_end (entry_of x)) todo →
  mas_find pos (mm_mt mm) = entry_of <$> head todo.
Proof.
  intros Hc Hp Ht. rewrite (cp_tree _ _ _ _ _ _ _ _ Hc). assert (Forall (λ e, mt_end e <= pos) (map entry_of (rev acc))) as Hp' by (by apply Forall_map).
  destruct todo as [|x todo]; [rewrite app_nil_r; by apply mas_find_none|]. cbn [map head]. apply mas_find_split; [done|]. by apply Forall_cons in Ht as [? _].
Qed.
(** The position behind an area. *)
Lemma behind acc todo x mm :
  cp acc (x :: todo) mm →
  Forall (λ y, mt_end (entry_of y) <= mt_end (entry_of x)) (rev acc) ∧ Forall (λ y, mt_end (entry_of x) < mt_end (entry_of y)) todo.
Proof.
  intros Hc. pose proof (cp_ranges _ _ _ _ _ _ _ _ Hc) as Hr. rewrite (cp_tree _ _ _ _ _ _ _ _ Hc) in Hr. apply ranges_split in Hr as (H1&H2&H3).
  apply Forall_map in H1, H3. split; eapply Forall_impl; eauto; cbn beta in *; intros; lia.
Qed.

Lemma loop_state_none acc uf mm :
  loop_state acc uf mm None = St s0 (<[m := mm]> M0) (insert_areas acc A0) (uffd_refs uf ⊎ (held acc ⊎ R0)) (C0 + sum_over area_charge acc) q0.
Proof.
  clear HA HR. unfold loop_state. cbn [pend_areas pend_refs pend_rcu]. rewrite app_nil_r. by replace (∅ ⊎ uffd_refs uf ⊎ (held acc ⊎ R0)) with (uffd_refs uf ⊎ (held acc ⊎ R0)) by multiset_solver.
Qed.
Lemma loop_state_cons acc uf mm mm' v t :
  St s0 (<[m := mm']> (<[m := mm]> M0)) (<[v := t]> (insert_areas acc A0)) (area_refs v t ⊎ uffd_refs uf ⊎ (held acc ⊎ R0))
    (C0 + sum_over area_charge acc + area_charge t) q0 = loop_state ((v, t) :: acc) uf mm' None.
Proof.
  clear HA HR. rewrite loop_state_none, insert_insert_eq. change (held ((v, t) :: acc)) with (area_refs v t ⊎ held acc).
  change (sum_over area_charge ((v, t) :: acc)) with (area_charge t + sum_over area_charge acc).
  replace (C0 + (area_charge t + sum_over area_charge acc)) with (C0 + sum_over area_charge acc + area_charge t) by lia.
  by replace (uffd_refs uf ⊎ (area_refs v t ⊎ held acc ⊎ R0)) with (area_refs v t ⊎ uffd_refs uf ⊎ (held acc ⊎ R0)) by multiset_solver.
Qed.
Lemma old_area_there acc todo mm v a : cp acc todo mm → (v, a) ∈ l → insert_areas acc A0 !! v = Some a.
Proof.
  intros Hc Hin. rewrite Forall_forall in HA. pose proof (HA _ Hin) as Hv. cbn in Hv. rewrite lookup_insert_areas; [done|].
  intros (y&->&Hy)%list_elem_of_fmap. pose proof (cp_fresh _ _ _ _ _ _ _ _ Hc) as Hf. rewrite Forall_forall in Hf. specialize (Hf _ Hy). congruence.
Qed.

(** The contexts told so far are those of the copies made so far. *)
Definition tells acc todo uf : Prop := ∃ don, l = don ++ todo ∧ uf = told env (kept don) (rev acc).
Lemma tells_without acc todo v a uf :
  tells acc ((v, a) :: todo) uf → has (vm_flags a) VM_DONTCOPY = true → tells acc todo uf.
Proof.
  clear HA HR. intros (don&Hl&->) Hdc. exists (don ++ [(v, a)]). rewrite <-app_assoc. split; [done|]. unfold kept. rewrite List.filter_app. cbn.
  rewrite Hdc. cbn. by rewrite app_nil_r.
Qed.
Lemma tells_with acc todo v a mm uf tmp t :
  cp acc ((v, a) :: todo) mm → tells acc ((v, a) :: todo) uf → has (vm_flags a) VM_DONTCOPY = false →
  tells ((tmp, t) :: acc) todo (told_of env v tmp uf).
Proof.
  clear HA HR. intros Hc (don&Hl&->) Hdc. destruct (cp_copies _ _ _ _ _ _ _ _ Hc) as (don'&Hl'&Hcs).
  assert (don' = don) as -> by (apply (app_inv_tail ((v, a) :: todo)); congruence). apply Forall2_length in Hcs.
  exists (don ++ [(v, a)]). rewrite <-app_assoc. split; [done|]. unfold kept. rewrite List.filter_app. cbn. rewrite Hdc. cbn [negb].
  by rewrite told_snoc.
Qed.

Lemma dup_areas_ok todo acc uf mm pos fuel Q :
  cp acc todo mm → tells acc todo uf → Forall (λ x, mt_end (entry_of x) <= pos) (rev acc) → Forall (λ x, pos < mt_end (entry_of x)) todo →
  (length todo < fuel)%nat →
  (∀ r acc' todo' uf' mm' p, cp acc' todo' mm' → (r = 0 → todo' = [] ∧ p = None ∧ tells acc' todo' uf') →
     (∀ v a, p = Some (v, a) → insert_areas acc' A0 !! v = None) →
     Q (r, fst <$> head todo', uf') (loop_state acc' uf' mm' p)) →
  mwp (dup_areas env fuel m pos uf) (loop_state acc uf mm None) Q.
Proof.
  intros Hc Htl Hp Ht Hfuel HQ. revert acc uf mm pos fuel Hc Htl Hp Ht Hfuel. induction todo as [|[v a] todo IH]; intros; (destruct fuel as [|fuel]; [cbn in Hfuel; lia|]); cbn [dup_areas];
    rewrite loop_state_none; mwp_steps; (erewrite find_todo by done); cbn [head fmap option_fmap option_map].
  { mwp_steps. rewrite <-loop_state_none. by apply (HQ _ acc [] uf mm None). }
  change (mt_area (entry_of (v, a))) with (Some v). cbn [mderef]. apply mwp_bind, mwp_ret, mwp_bind. cbn beta iota.
  destruct (cp_copies _ _ _ _ _ _ _ _ Hc) as (don&Hl&_). assert ((v, a) ∈ l) as Hin by (rewrite Hl; apply elem_of_app; right; left).
  destruct (behind _ _ _ _ Hc) as [Hb1 Hb2]. eapply w_dup_area.
  - apply lookup_insert_eq.
  - by eapply old_area_there.
  - intros n Hn. pose proof (area_name_held _ _ _ Hin Hn). multiset_solver.
  - intros f Hf. pose proof (area_file_held _ _ _ Hin Hf). multiset_solver.
  - intros Hdc. rewrite insert_insert_eq, <-loop_state_none. cbn beta iota. apply IH; [by eapply cp_without|by eapply tells_without|done|done|cbn in Hfuel; lia].
  - intros r Hr. rewrite <-loop_state_none. cbn beta iota. mwp_steps. by apply (HQ r acc ((v, a) :: todo) uf mm None).
  - intros uf' tmp t Htmp Hna. cbn beta iota. mwp_steps. apply (HQ (- ENOMEM) acc ((v, a) :: todo) uf' mm (Some (tmp, t))); [done|done|]. by intros ? ? [= <- <-].
  - intros tmp r Htmp Hdc. cbv zeta. rewrite loop_state_cons. pose proof (cp_with _ _ _ _ _ _ Hc Hdc Htmp) as Hc'.
    pose proof (tells_with acc todo v a mm uf tmp (area_copy env m v a) Hc Htl Hdc) as Htl'. set (uf' := told_of env v tmp uf) in *.
    assert (Forall (λ x, mt_end (entry_of x) <= vm_end a) (rev ((tmp, area_copy env m v a) :: acc))) as Hb3 by (cbn [rev]; apply Forall_app; split; [done|by constructor]).
    destruct (Z.eqb_spec r 0); cbn beta iota.
    + apply IH; [done|done|done|done|cbn in Hfuel; lia].
    + mwp_steps. erewrite find_todo by done. specialize (HQ r _ _ uf' _ None Hc'). destruct todo; by apply HQ.
Qed.
End loop.
