(* ===== verification/MemFork.v ===== *)
(** The life of a memory map: [mm_init], the last [mmput], and the copy by fork, which is
    complete or gives everything back. *)
From stdpp Require Import gmultiset sorting.
From S2P Require Import Prelude Rbtree KState MemMap MemCopy.

Definition base_refs (m ns : nat) : gmultiset mobj := {[+ mm_mem m; mm_pgd m; mm_context m; mm_cid m; mm_counters m; user_ns_ref ns +]}.
Lemma mm_refs_base m mm : mm_refs m mm = base_refs m (mm_user_ns mm) ⊎ exe_refs (mm_exe_file mm) ⊎ opt_ref (λ b, {[+ module_ref b +]}) (mm_binfmt mm).
Proof. reflexivity. Qed.
Lemma base_refs_steps m ns R :
  base_refs m ns ⊎ R = {[+ user_ns_ref ns +]} ⊎ ({[+ mm_counters m +]} ⊎ ({[+ mm_cid m +]} ⊎ ({[+ mm_context m +]} ⊎ ({[+ mm_pgd m +]} ⊎ ({[+ mm_mem m +]} ⊎ R))))).
Proof.
  unfold base_refs. generalize ({[+ mm_mem m +]} : gmultiset mobj), ({[+ mm_pgd m +]} : gmultiset mobj), ({[+ mm_context m +]} : gmultiset mobj),
    ({[+ mm_cid m +]} : gmultiset mobj), ({[+ mm_counters m +]} : gmultiset mobj), ({[+ user_ns_ref ns +]} : gmultiset mobj). multiset_solver.
Qed.
Lemma refs_drops (N C I X P Y R : gmultiset mobj) : P ⊎ (X ⊎ (N ⊎ (I ⊎ (C ⊎ (Y ⊎ R))))) = N ⊎ (C ⊎ (I ⊎ (X ⊎ (P ⊎ (Y ⊎ R))))).
Proof. multiset_solver. Qed.
Lemma refs_put (B E O R : gmultiset mobj) : E ⊎ (O ⊎ (B ⊎ R)) = B ⊎ E ⊎ O ⊎ R.
Proof. multiset_solver. Qed.
Lemma refs_locks (X Y U H E R : gmultiset mobj) : X ⊎ (Y ⊎ (U ⊎ (H ⊎ (E ⊎ R)))) = U ⊎ (H ⊎ (X ⊎ (Y ⊎ (E ⊎ R)))).
Proof. multiset_solver. Qed.
Lemma refs_locks_pend (P X Y U H E R : gmultiset mobj) : X ⊎ (Y ⊎ (U ⊎ (P ⊎ (H ⊎ (E ⊎ R))))) = P ⊎ U ⊎ (H ⊎ (X ⊎ (Y ⊎ (E ⊎ R)))).
Proof. multiset_solver. Qed.
(** The current task has a memory map that is there, or none. *)
Definition current_ok (s : mstate) : Prop :=
  ∃ t, ms_tasks s !! ms_current s = Some t ∧ ∀ m, mt_mm t = Some m → is_Some (ms_mms s !! m).
(** Nobody holds the lock of a memory map that is not there. *)
Definition locks_known (s : mstate) : Prop := ∀ m, ms_mms s !! m = None → mmap_lock m ∉ ms_refs s.

Lemma not_elem_areas (l : areas) x : (∀ v a, (v, a) ∈ l → x ∉ area_refs v a) → x ∉ held l.
Proof.
  induction l as [|[v a] l IH]; intros Hl; [by intros ?%gmultiset_not_elem_of_empty|].
  change (held ((v, a) :: l)) with (area_refs v a ⊎ held l). rewrite gmultiset_elem_of_disj_union. intros [Hx|Hx].
  - by apply (Hl v a) in Hx; [|left].
  - apply IH in Hx; [done|]. intros w b Hw. apply Hl. by right.
Qed.
Lemma area_no_lock v a m : mmap_lock m ∉ area_refs v a.
Proof.
  unfold area_refs, if_ref, opt_ref. destruct (vm_anon_name a), (vm_anon_vma a), (vm_ops_open a), (vm_policy a), (vm_file a), (vma_is_shared_maywrite a).
  all: multiset_solver.
Qed.

Section life.
Context {ML : MmLib} {HL : MmLaws ML} (env : mm_env) (s0 : mstate).
Implicit Types (M : gmap nat mm_struct) (A : gmap nat vm_area_struct) (R : gmultiset mobj) (C : Z) (q uf : list nat)
  (m v mpnt : nat) (mm : mm_struct) (a : vm_area_struct) (l : areas).
Abbreviation St := (St s0).

Lemma w_current M A R C q Q : Q (ms_current s0) (St M A R C q) → mwp (mget ms_current) (St M A R C q) Q.
Proof. done. Qed.
Lemma w_task_at p t M A R C q Q : ms_tasks s0 !! p = Some t → Q t (St M A R C q) → mwp (mm_task_at p) (St M A R C q) Q.
Proof. intros Ht HQ. unfold mwp, mm_task_at. cbn. by rewrite Ht. Qed.
Lemma w_delete_mm m M A R C q Q :
  Q tt (St (delete m M) A R C q) → mwp (mmodify (λ s, s <| ms_mms := delete m (ms_mms s) |>)) (St M A R C q) Q.
Proof. done. Qed.
Lemma w_put x M A R C q Q : Q tt (St M A R C q) → mwp (drop x) (St M A ({[+ x +]} ⊎ R) C q) Q.
Proof. intros HQ. apply w_drop; [multiset_solver|]. by replace (({[+ x +]} ⊎ R) ∖ {[+ x +]}) with R by multiset_solver. Qed.
Lemma w_free_mm m mm M A R C q Q :
  M !! m = None → Q tt (St M A R C q) → mwp (free_mm m) (St (<[m := mm]> M) A ({[+ mm_mem m +]} ⊎ R) C q) Q.
Proof. intros Hm HQ. apply mwp_bind, w_put, w_delete_mm. by rewrite delete_insert_id. Qed.
Lemma w_fail_nocontext m mm M A R C q Q :
  M !! m = None → Q None (St M A R C q) → mwp (fail_nocontext m) (St (<[m := mm]> M) A ({[+ mm_pgd m +]} ⊎ ({[+ mm_mem m +]} ⊎ R)) C q) Q.
Proof. intros Hm HQ. apply mwp_bind, w_put, mwp_bind. by apply w_free_mm. Qed.
Lemma w_fail_cid m mm M A R C q Q :
  M !! m = None → Q None (St M A R C q) →
  mwp (fail_cid m) (St (<[m := mm]> M) A ({[+ mm_context m +]} ⊎ ({[+ mm_pgd m +]} ⊎ ({[+ mm_mem m +]} ⊎ R))) C q) Q.
Proof. intros Hm HQ. apply mwp_bind, w_put. by apply w_fail_nocontext. Qed.
Lemma w_fail_pcpu m mm M A R C q Q :
  M !! m = None → Q None (St M A R C q) →
  mwp (fail_pcpu m) (St (<[m := mm]> M) A ({[+ mm_cid m +]} ⊎ ({[+ mm_context m +]} ⊎ ({[+ mm_pgd m +]} ⊎ ({[+ mm_mem m +]} ⊎ R)))) C q) Q.
Proof. intros Hm HQ. apply mwp_bind, w_put. by apply w_fail_cid. Qed.
Lemma w_taking x r M A R C q Q :
  (r ≠ 0 → Q r (St M A R C q)) → Q 0 (St M A ({[+ x +]} ⊎ R) C q) → mwp (taking x r) (St M A R C q) Q.
Proof. intros HF HS. unfold taking. destruct (Z.eqb_spec r 0); mwp_steps; auto. Qed.

Definition mm_init_rest (m ns : nat) : MM (option nat) :=
  err ← mm_alloc_pgd env m;
  if negb (err =? 0) then fail_nopgd m else
  err ← taking (mm_context m) (env_context env);
  if negb (err =? 0) then fail_nocontext m else
  err ← taking (mm_cid m) (env_cid env);
  if negb (err =? 0) then fail_cid m else
  err ← taking (mm_counters m) (env_counters env);
  if negb (err =? 0) then fail_pcpu m else
  share (user_ns_ref ns);;
  upd_mm m (λ mm, mm <| mm_user_ns := ns |>);;
  mret (Some m).
Lemma w_mm_init_rest m ns mm M A R C q Q :
  M !! m = None → user_ns_ref ns ∈ R → Q None (St M A R C q) →
  Q (Some m) (St (<[m := mm <| mm_user_ns := ns |>]> M) A (base_refs m ns ⊎ R) C q) →
  mwp (mm_init_rest m ns) (St (<[m := mm]> M) A ({[+ mm_mem m +]} ⊎ R) C q) Q.
Proof.
  intros Hm Hns HN HS. unfold mm_init_rest.
  unfold mm_alloc_pgd, fail_nopgd. destruct (env_pgd env); mwp_steps; cbn [negb Z.eqb]; [|apply mwp_bind; by eapply w_free_mm].
  apply mwp_bind. apply w_taking; [intros Hr; rewrite (proj2 (Z.eqb_neq _ _) Hr); cbn [negb]; by apply w_fail_nocontext|]. cbn [negb Z.eqb]. apply mwp_bind.
  apply w_taking; [intros Hr; rewrite (proj2 (Z.eqb_neq _ _) Hr); cbn [negb]; by apply w_fail_cid|]. cbn [negb Z.eqb]. apply mwp_bind.
  apply w_taking; [intros Hr; rewrite (proj2 (Z.eqb_neq _ _) Hr); cbn [negb]; by apply w_fail_pcpu|]. cbn [negb Z.eqb]. apply mwp_bind.
  apply w_share; [multiset_solver|]. mwp_steps. rewrite insert_insert_eq.
  match goal with |- _ (MemCopy.St _ _ _ ?X _ _) => replace X with (base_refs m ns ⊎ R) by apply base_refs_steps end. apply HS.
Qed.
Lemma w_init_flags (o : option nat) M A R C q Q :
  (∀ cm, o = Some cm → is_Some (M !! cm)) → (∀ fl df, Q (fl, df) (St M A R C q)) →
  mwp (match o with
    | Some cm => cmm ← mm_at cm; mret (mmf_init_flags (mm_flags cmm), Z.land (mm_def_flags cmm) VM_INIT_DEF_MASK)
    | None => mret (default_dump_filter, 0)
    end) (St M A R C q) Q.
Proof. intros Hcm HQ. destruct o as [cm|]; [|mwp_steps; apply HQ]. destruct (Hcm cm eq_refl) as [cmm Hc]. mwp_steps. apply HQ. Qed.
Lemma w_mm_init m p ns mm t M A R C q Q :
  M !! m = None → user_ns_ref ns ∈ R → ms_tasks s0 !! ms_current s0 = Some t → (∀ cm, mt_mm t = Some cm → is_Some (M !! cm)) →
  Q None (St M A R C q) →
  (∀ fl df, Q (Some m) (St (<[m := mm_reset p fl df mm <| mm_user_ns := ns |>]> M) A (base_refs m ns ⊎ R) C q)) →
  mwp (mm_init env m p ns) (St (<[m := mm]> M) A ({[+ mm_mem m +]} ⊎ R) C q) Q.
Proof.
  intros Hm Hns Ht Hcm HN HS. unfold mm_init. apply mwp_bind, w_current. cbn beta. apply mwp_bind. eapply w_task_at; [exact Ht|]. cbn beta.
  apply mwp_bind, w_init_flags.
  { intros cm Hc. destruct (Hcm cm Hc) as [cmm Hl]. exists cmm. rewrite lookup_insert_ne; [done|]. congruence. }
  intros fl df. cbn beta iota. apply mwp_bind. eapply w_upd_mm; [apply lookup_insert_eq|]. cbn beta. rewrite insert_insert_eq.
  change (mwp (mm_init_rest m ns) (St (<[m := mm_reset p fl df mm]> M) A ({[+ mm_mem m +]} ⊎ R) C q) Q).
  apply w_mm_init_rest; [done|done|done|apply HS].
Qed.

(** The first entry behind the areas of a tree, if any, is the mark of a failed copy. *)
Definition marked (rest : list mt_entry) : Prop := match rest with [] => True | e :: _ => mt_area e = None end.
Lemma w_put_exe o M A R C q Q : Q tt (St M A R C q) → mwp (put_exe_file o) (St M A (exe_refs o ⊎ R) C q) Q.
Proof.
  intros HQ. unfold put_exe_file, for_some, exe_refs. destruct o as [f|]; cbn [opt_ref].
  - replace ({[+ file_ref f; file_denied f +]} ⊎ R) with ({[+ file_denied f +]} ⊎ ({[+ file_ref f +]} ⊎ R)) by multiset_solver.
    apply mwp_bind. unfold exe_file_allow_write_access, fput. apply w_put. by apply w_put.
  - mwp_steps. by replace (∅ ⊎ R) with R by multiset_solver.
Qed.
Lemma w_set_exe_none m mm M A R C q Q :
  M !! m = Some mm → Q 0 (St (<[m := mm <| mm_exe_file := None |>]> M) A R C q) →
  mwp (set_mm_exe_file m None) (St M A (exe_refs (mm_exe_file mm) ⊎ R) C q) Q.
Proof. intros Hm HQ. unfold set_mm_exe_file. mwp_steps. cbn [negb Z.eqb for_some]. mwp_steps. apply w_put_exe. by mwp_steps. Qed.
Lemma w_put_module o M A R C q Q :
  Q tt (St M A R C q) → mwp (for_some o (λ b, drop (module_ref b))) (St M A (opt_ref (λ b, {[+ module_ref b +]}) o ⊎ R) C q) Q.
Proof. intros HQ. unfold for_some. destruct o; cbn [opt_ref]; [by apply w_put|]. mwp_steps. by replace (∅ ⊎ R) with R by multiset_solver. Qed.
Lemma w_mmdrop_last m mm M A R C q Q :
  M !! m = None → m ≠ init_mm → Q tt (St M A R C q) →
  mwp (__mmdrop m) (St (<[m := mm]> M) A (base_refs m (mm_user_ns mm) ⊎ R) C q) Q.
Proof.
  intros Hm Hi HQ. unfold __mmdrop. rewrite bool_decide_eq_false_2 by done. unfold mm_free_pgd, destroy_context, mm_destroy_cid, percpu_counter_destroy_many.
  replace (base_refs m (mm_user_ns mm) ⊎ R) with ({[+ mm_pgd m +]} ⊎ ({[+ mm_context m +]} ⊎ ({[+ user_ns_ref (mm_user_ns mm) +]}
    ⊎ ({[+ mm_cid m +]} ⊎ ({[+ mm_counters m +]} ⊎ ({[+ mm_mem m +]} ⊎ R)))))) by (rewrite base_refs_steps; apply refs_drops).
  apply mwp_bind, w_put, mwp_bind, w_put, mwp_bind. eapply w_mm_at; [apply lookup_insert_eq|]. apply mwp_bind, w_put, mwp_bind, w_put, mwp_bind, w_put. by apply w_free_mm.
Qed.
Lemma w_exit_mmap m mm l rest M A R C q Q :
  M !! m = Some mm → mm_mt mm = map entry_of l ++ rest → marked rest → owned m A l → mm_map_count mm = Z.of_nat (length l) →
  mmap_lock m ∉ R → Q tt (St (<[m := mm <| mm_mt := [] |>]> M) (remove_areas l A) R (C - sum_over area_charge l) q) →
  mwp (exit_mmap m) (St M A (held l ⊎ R) C q) Q.
Proof.
  intros Hm Ht Hz Ho Hn Hlk HQ. eapply mwp_ok; [apply (exit_mmap_ok _ m mm l rest R); try done|exact HQ].
  change (mmap_lock m ∉ held l ⊎ R). rewrite gmultiset_elem_of_disj_union. intros [Hx|Hx]; [|done]. revert Hx. apply not_elem_areas. intros. apply area_no_lock.
Qed.
Lemma mm_refs_no_lock m k mm : mmap_lock k ∉ mm_refs m mm.
Proof. rewrite mm_refs_base. unfold base_refs, exe_refs, opt_ref. destruct (mm_exe_file mm), (mm_binfmt mm); multiset_solver. Qed.
(** The last user leaves: everything the map and its areas held is given back. *)
Lemma w_mmput_last m mm l rest M A R C q Q :
  M !! m = None → m ≠ init_mm → mm_users mm = 1 → mm_count mm = 1 →
  mm_mt mm = map entry_of l ++ rest → marked rest → owned m A l → mm_map_count mm = Z.of_nat (length l) →
  mmap_lock m ∉ R → Q tt (St M (remove_areas l A) R (C - sum_over area_charge l) q) →
  mwp (mmput m) (St (<[m := mm]> M) A (held l ⊎ (mm_refs m mm ⊎ R)) C q) Q.
Proof.
  intros Hm Hi Hu Hc Ht Hz Ho Hn Hlk HQ. unfold mmput. apply mwp_bind. eapply w_mm_at; [apply lookup_insert_eq|]. cbn beta.
  apply mwp_bind. eapply w_upd_mm; [apply lookup_insert_eq|]. rewrite insert_insert_eq. set (mm1 := mm <| mm_users ::= λ n, n - 1 |>).
  rewrite (proj2 (Z.eqb_eq (mm_users mm - 1) 0)) by lia. cbn [mwhen]. unfold __mmput. apply mwp_bind. eapply w_mm_at; [apply lookup_insert_eq|]. cbn beta.
  assert (mm_users mm1 = 0) as -> by (cbn; lia). cbn [negb Z.eqb]. apply mwp_bind. eapply (w_exit_mmap m mm1 l rest); [apply lookup_insert_eq|done..| |].
  { rewrite gmultiset_elem_of_disj_union. intros [Hx|Hx]; [|done]. by apply mm_refs_no_lock in Hx. }
  rewrite insert_insert_eq, mm_refs_base. set (mm2 := mm1 <| mm_mt := [] |>).
  replace (base_refs m (mm_user_ns mm) ⊎ exe_refs (mm_exe_file mm) ⊎ opt_ref (λ b, {[+ module_ref b +]}) (mm_binfmt mm) ⊎ R)
    with (exe_refs (mm_exe_file mm2) ⊎ (opt_ref (λ b, {[+ module_ref b +]}) (mm_binfmt mm2) ⊎ (base_refs m (mm_user_ns mm2) ⊎ R))) by apply refs_put.
  apply mwp_bind. eapply w_set_exe_none; [apply lookup_insert_eq|]. rewrite insert_insert_eq. apply mwp_bind. eapply w_mm_at; [apply lookup_insert_eq|]. cbn beta.
  set (mm3 := mm2 <| mm_exe_file := None |>). apply mwp_bind.
  assert (∀ Q', (∀ mm4, mm_user_ns mm4 = mm_user_ns mm2 → mm_count mm4 = 1 →
     Q' tt (St (<[m := mm4]> M) (remove_areas l A) (opt_ref (λ b, {[+ module_ref b +]}) (mm_binfmt mm2) ⊎ (base_refs m (mm_user_ns mm2) ⊎ R)) (C - sum_over area_charge l) q)) →
    mwp (mwhen (mm_on_mmlist mm3) (upd_mm m (λ mm, mm <| mm_on_mmlist := false |>)))
      (St (<[m := mm3]> M) (remove_areas l A) (opt_ref (λ b, {[+ module_ref b +]}) (mm_binfmt mm2) ⊎ (base_refs m (mm_user_ns mm2) ⊎ R)) (C - sum_over area_charge l) q) Q') as Hlist.
  { intros Q' HQ'. apply w_when; [|intros _; by apply HQ']. intros _. eapply w_upd_mm; [apply lookup_insert_eq|]. rewrite insert_insert_eq. by apply HQ'. }
  apply Hlist. intros mm4 Hns Hc4. apply mwp_bind, w_put_module. unfold mmdrop. apply mwp_bind. eapply w_mm_at; [apply lookup_insert_eq|]. cbn beta.
  apply mwp_bind. eapply w_upd_mm; [apply lookup_insert_eq|]. rewrite insert_insert_eq, Hc4. cbn [Z.eqb Z.sub Z.add Z.opp Z.pos_sub mwhen].
  rewrite <-Hns. set (mm5 := mm4 <| mm_count ::= λ n, n - 1 |>). change (mm_user_ns mm4) with (mm_user_ns mm5). by apply w_mmdrop_last.
Qed.

(** * [dup_mmap] *)

Lemma w_deny f M A R C q Q :
  file_denied f ∈ R → Q 0 (St M A ({[+ file_denied f +]} ⊎ R) C q) → mwp (exe_file_deny_write_access f) (St M A R C q) Q.
Proof. intros Hf HQ. destruct (deny_write_ok f (St M A R C q)) as (r&Hr&H0). rewrite (H0 Hf) in Hr. eapply mwp_ok; [exact Hr|exact HQ]. Qed.
Lemma w_dup_exe m oldmm mm old M A R C q Q :
  m ≠ oldmm → M !! oldmm = Some old → exe_refs (mm_exe_file old) ⊆ R →
  Q tt (St (<[m := mm <| mm_exe_file := mm_exe_file old |>]> M) A (exe_refs (mm_exe_file old) ⊎ R) C q) →
  mwp (dup_mm_exe_file m oldmm) (St (<[m := mm]> M) A R C q) Q.
Proof.
  intros Hne Ho He HQ. unfold dup_mm_exe_file, get_mm_exe_file, for_some. mwp_steps. destruct (mm_exe_file old) as [f|]; cbn [exe_refs opt_ref] in He, HQ.
  - apply w_share; [multiset_solver|]. mwp_steps. rewrite insert_insert_eq. apply w_deny; [multiset_solver|]. mwp_steps.
    by replace ({[+ file_denied f +]} ⊎ ({[+ file_ref f +]} ⊎ R)) with ({[+ file_ref f; file_denied f +]} ⊎ R) by multiset_solver.
  - mwp_steps. rewrite insert_insert_eq. unfold exe_refs in HQ. cbn [opt_ref] in HQ. by replace (∅ ⊎ R) with R in HQ by multiset_solver.
Qed.
Lemma w_uffd_fail uf M A R C q Q : Q tt (St M A R C q) → mwp (dup_userfaultfd_fail uf) (St M A (uffd_refs uf ⊎ R) C q) Q.
Proof.
  intros HQ. induction uf as [|v uf IH]; cbn [dup_userfaultfd_fail].
  - mwp_steps. unfold uffd_refs. cbn [foldr]. by replace (∅ ⊎ R) with R by multiset_solver.
  - change (uffd_refs (v :: uf)) with ({[+ area_uffd v +]} ⊎ uffd_refs uf). replace ({[+ area_uffd v +]} ⊎ uffd_refs uf ⊎ R) with ({[+ area_uffd v +]} ⊎ (uffd_refs uf ⊎ R)) by multiset_solver.
    apply mwp_bind. by apply w_put.
Qed.

(** The new map [mm'] when [dup_mmap] returns: [acc] are the copies, the last one first. *)
Record partial_copy (m : nat) (A : gmap nat vm_area_struct) (mm mm' : mm_struct) (acc : areas) (rest : list mt_entry) : Prop := {
  pc_tree : mm_mt mm' = map entry_of (rev acc) ++ rest;
  pc_marked : marked rest;
  pc_count : mm_map_count mm' = Z.of_nat (length acc);
  pc_fresh : Forall (λ x, A !! x.1 = None) acc;
  pc_nodup : NoDup acc.*1;
  pc_owner : Forall (λ x, vm_mm x.2 = m) acc;
  pc_same : mm_users mm' = mm_users mm ∧ mm_count mm' = mm_count mm ∧ mm_user_ns mm' = mm_user_ns mm ∧ mm_binfmt mm' = mm_binfmt mm;
}.
Lemma w_dup_out m oldmm r uf M A R C q Q :
  (r ≠ 0 → Q r (St M A R C q)) → (r = 0 → Q r (St M A (uffd_refs uf ⊎ R) C q)) →
  mwp (dup_mmap_out m oldmm r uf) (St M A ({[+ mmap_lock m +]} ⊎ ({[+ mmap_lock oldmm +]} ⊎ (uffd_refs uf ⊎ R))) C q) Q.
Proof.
  intros HF HS. unfold dup_mmap_out. apply mwp_bind, w_put, mwp_bind, w_put, mwp_bind. destruct (Z.eqb_spec r 0) as [->|Hr]; cbn [negb mwhen].
  - mwp_steps. by apply HS.
  - apply w_uffd_fail. mwp_steps. by apply HF.
Qed.

(** The state [dup_mmap] leaves when it fails. *)
Definition failed_state m M A R C q mm' acc (p : option (nat * vm_area_struct)) : mstate :=
  St (<[m := mm']> M) (pend_areas p (insert_areas acc A)) (pend_refs p ⊎ (held acc ⊎ (exe_refs (mm_exe_file mm') ⊎ R)))
    (C + sum_over area_charge acc) (q ++ pend_rcu p).
Lemma failed_early m M A R C q mm' :
  St (<[m := mm']> M) A (exe_refs (mm_exe_file mm') ⊎ R) C q = failed_state m M A R C q mm' [] None.
Proof.
  unfold failed_state. cbn [pend_areas pend_refs pend_rcu insert_areas held sum_over foldr]. rewrite Z.add_0_r, app_nil_r.
  by replace (∅ ⊎ (∅ ⊎ (exe_refs (mm_exe_file mm') ⊎ R))) with (exe_refs (mm_exe_file mm') ⊎ R) by multiset_solver.
Qed.

Context (m oldmm : nat) (M : gmap nat mm_struct) (A : gmap nat vm_area_struct) (R : gmultiset mobj) (C : Z) (q : list nat) (l : areas) (mm old : mm_struct).
Context (Hm : M !! m = None) (Ho : M !! oldmm = Some old) (Hot : mm_mt old = map entry_of l) (Hor : ranges_ok (mm_mt old))
  (HA : Forall (λ x, A !! x.1 = Some x.2) l) (HR : held l ⊆ R) (HE : exe_refs (mm_exe_file old) ⊆ R) (Hop : mm_total_vm old = sum_over vma_pages l)
  (Hmt : mm_mt mm = []) (Hmc : mm_map_count mm = 0) (Hme : mm_exe_file mm = None).

Lemma copies_owned k acc : Forall2 (is_copy env m) (kept k) (rev acc) → Forall (λ x, vm_mm x.2 = m) acc.
Proof.
  intros Hc. rewrite <-(rev_involutive acc). apply Forall_rev. induction Hc as [|x y xs ys Hy _ IH]; constructor; [|done]. by rewrite Hy.
Qed.
(** At [loop_out]: a failure leaves a tree that is marked where the copy stopped. *)
Lemma w_loop_out mm0 r acc todo uf mm' p R0 Q :
  mm_users mm0 = mm_users mm → mm_count mm0 = mm_count mm → mm_user_ns mm0 = mm_user_ns mm → mm_binfmt mm0 = mm_binfmt mm →
  copying env m A l mm0 acc todo mm' → r ≠ 0 → (∀ v a, p = Some (v, a) → insert_areas acc A !! v = None) →
  (∀ mm2 rest, partial_copy m A mm mm2 acc rest → mm_exe_file mm2 = mm_exe_file mm0 →
     Q tt (loop_state s0 m M A R0 C q acc uf mm2 p)) →
  mwp (for_some (fst <$> head todo) (mark_failure m);; upd_mm m (λ mm, mm <| mm_flags ::= Z.lor MMF_UNSTABLE |>)) (loop_state s0 m M A R0 C q acc uf mm' p) Q.
Proof.
  intros Hu Hc Hns Hb Hcp Hr Hp HQ. pose proof Hcp as [Ht Hrg Hn _ Hf Hd (don&Hl&Hcs) (t&n&pg&d&e&k&Hs)]. unfold loop_state.
  assert (∀ f rest, marked rest → mwp (upd_mm m (λ mm, mm <| mm_flags ::= Z.lor MMF_UNSTABLE |>))
     (St (<[m := mm' <| mm_mt := map entry_of (rev acc) ++ rest |> <| mm_flags := f |>]> M) (pend_areas p (insert_areas acc A))
        (pend_refs p ⊎ uffd_refs uf ⊎ (held acc ⊎ R0)) (C + sum_over area_charge acc) (q ++ pend_rcu p)) Q) as Hend.
  { intros f rest Hz. eapply w_upd_mm; [apply lookup_insert_eq|]. rewrite insert_insert_eq. apply (HQ _ rest); [|by subst mm'].
    split; [done|done|exact Hn|done|done|by eapply copies_owned|]. subst mm'. by split_and!. }
  destruct todo as [|[v a] todo]; cbn [head fmap option_fmap option_map for_some].
  - apply mwp_bind, mwp_ret. specialize (Hend (mm_flags mm') [] I). change (@nil mt_entry) with (map entry_of []) in Hend. rewrite <-Ht in Hend.
    by replace (mm' <| mm_mt := mm_mt mm' |> <| mm_flags := mm_flags mm' |>) with mm' in Hend by (by destruct mm').
  - unfold mark_failure. assert ((v, a) ∈ l) as Hin by (rewrite Hl; apply elem_of_app; right; left).
    assert (pend_areas p (insert_areas acc A) !! v = Some a) as Hv.
    { pose proof (old_area_there env m A l mm0 HA acc _ _ v a Hcp Hin) as Hv. destruct p as [[w b]|]; [|done]. cbn. rewrite lookup_insert_ne; [done|].
      intros ->. rewrite (Hp v b eq_refl) in Hv. done. }
    apply mwp_bind, mwp_bind. eapply w_area_at; [exact Hv|]. cbn beta. eapply w_upd_mm; [apply lookup_insert_eq|]. rewrite insert_insert_eq.
    specialize (Hend (Z.lor MMF_OOM_SKIP (mm_flags mm')) ({| mt_start := vm_start a; mt_end := vm_end a; mt_area := None |} :: map entry_of todo) eq_refl).
    assert (mas_store (vm_start a) (vm_end a) None (mm_mt mm') = map entry_of (rev acc) ++ {| mt_start := vm_start a; mt_end := vm_end a; mt_area := None |} :: map entry_of todo) as He.
    { rewrite Ht in Hrg |- *. apply (mas_store_split _ (entry_of (v, a))). exact Hrg. }
    rewrite <-He in Hend. exact Hend.
Qed.

Lemma w_dup_mmap Q :
  (∀ acc uf mm0 mm', mm0 = mm <| mm_exe_file := mm_exe_file old |> → copying env m A l mm0 acc [] mm' → uf = told env (kept l) (rev acc) →
     Q 0 (St (<[m := mm']> M) (insert_areas acc A) (uffd_refs uf ⊎ (held acc ⊎ (exe_refs (mm_exe_file old) ⊎ R))) (C + sum_over area_charge acc) q)) →
  (∀ r mm' acc rest p, r ≠ 0 → partial_copy m A mm mm' acc rest → (∀ v a, p = Some (v, a) → insert_areas acc A !! v = None) →
     Q r (failed_state m M A R C q mm' acc p)) →
  mwp (dup_mmap env m oldmm) (St (<[m := mm]> M) A R C q) Q.
Proof.
  intros HS HF. assert (m ≠ oldmm) by congruence. unfold dup_mmap. destruct (env_lock_killed env).
  { mwp_steps. specialize (HF (- EINTR) mm [] [] None). rewrite <-failed_early, Hme in HF. unfold exe_refs in HF. cbn [opt_ref] in HF.
    replace (∅ ⊎ R) with R in HF by multiset_solver. apply HF; [done| |done]. split; try done; by constructor. }
  apply mwp_bind, w_take, mwp_bind, w_take, mwp_bind. eapply w_dup_exe; [done|done|multiset_solver|]. apply mwp_bind. eapply w_mm_at; [by rewrite lookup_insert_ne|]. cbn beta.
  apply mwp_bind. eapply w_upd_mm; [apply lookup_insert_eq|]. rewrite insert_insert_eq.
  set (mm0 := mm <| mm_exe_file := mm_exe_file old |>).
  set (mm1 := mm0 <| mm_total_vm := mm_total_vm old |> <| mm_data_vm := mm_data_vm old |> <| mm_exec_vm := mm_exec_vm old |> <| mm_stack_vm := mm_stack_vm old |>).
  assert (same_mm mm0 mm1) as Hsame by (by eexists (mm_mt mm), (mm_map_count mm), _, _, _, _).
  assert (mm_mt mm1 = [] ∧ mm_map_count mm1 = 0 ∧ mm_total_vm mm1 = sum_over vma_pages l ∧ mm_exe_file mm1 = mm_exe_file old) as (H1t&H1c&H1p&H1e) by done.
  assert (mm_users mm1 = mm_users mm ∧ mm_count mm1 = mm_count mm ∧ mm_user_ns mm1 = mm_user_ns mm ∧ mm_binfmt mm1 = mm_binfmt mm) as H1s by done.
  clearbody mm1. set (E := exe_refs (mm_exe_file old)) in *. destruct (Z.eqb_spec (env_mt_dup env) 0) as [_|Hd]; cbn [negb].
  2:{ replace (E ⊎ ({[+ mmap_lock m +]} ⊎ ({[+ mmap_lock oldmm +]} ⊎ R))) with ({[+ mmap_lock m +]} ⊎ ({[+ mmap_lock oldmm +]} ⊎ (uffd_refs [] ⊎ (E ⊎ R)))) by (unfold uffd_refs; cbn [foldr]; multiset_solver).
      apply w_dup_out; [intros _|done]. subst E. rewrite <-H1e, failed_early. apply (HF _ mm1 [] []); [done| |done]. split; try done; by constructor. }
  apply mwp_bind. eapply w_upd_mm; [apply lookup_insert_eq|]. rewrite insert_insert_eq. set (mm2 := mm1 <| mm_mt := mm_mt old |>).
  assert (copying env m A l mm0 [] l mm2) as Hcp.
  { split; cbn; [done|done|done|done|constructor|constructor|exists []; split; [done|constructor]|]. eapply same_mm_trans; [exact Hsame|]. exists (mm_mt old), (mm_map_count mm1), (mm_total_vm mm1), (mm_data_vm mm1), (mm_exec_vm mm1), (mm_stack_vm mm1). by destruct mm1. }
  clearbody mm2. set (R0 := {[+ mmap_lock m +]} ⊎ ({[+ mmap_lock oldmm +]} ⊎ (E ⊎ R))).
  replace (St (<[m := mm2]> M) A (E ⊎ ({[+ mmap_lock m +]} ⊎ ({[+ mmap_lock oldmm +]} ⊎ R))) C q) with (loop_state s0 m M A R0 C q [] [] mm2 None).
  2:{ rewrite loop_state_none. cbn [sum_over insert_areas held uffd_refs foldr]. rewrite Z.add_0_r. f_equal. subst R0. multiset_solver. }
  apply mwp_bind. eapply (dup_areas_ok env s0 m M A R0 C q l mm0 HA); [|exact Hcp|by exists []|constructor| |rewrite Hot, length_map; lia|].
  { subst R0. etrans; [exact HR|]. multiset_solver. }
  { destruct Hor as [_ Hpos]. rewrite Hot in Hpos. apply Forall_map in Hpos. eapply Forall_impl; [exact Hpos|]. cbn beta. intros; lia. }
  intros r acc todo uf mm3 p Hc3 Hr0 Hpend. cbn beta iota. apply mwp_bind.
  destruct (Z.eqb_spec r 0) as [->|Hr]; cbn [negb mwhen].
  - destruct (Hr0 eq_refl) as (->&->&don&Hdon&Htold). rewrite app_nil_r in Hdon. subst don. apply mwp_ret. rewrite loop_state_none.
    replace (uffd_refs uf ⊎ (held acc ⊎ R0)) with ({[+ mmap_lock m +]} ⊎ ({[+ mmap_lock oldmm +]} ⊎ (uffd_refs uf ⊎ (held acc ⊎ (E ⊎ R))))) by (apply refs_locks).
    apply w_dup_out; [done|intros _]. by eapply HS.
  - eapply (w_loop_out mm0); [done|done|done|done|exact Hc3|done|done|]. intros mm4 rest Hpc He. unfold loop_state.
    replace (pend_refs p ⊎ uffd_refs uf ⊎ (held acc ⊎ R0)) with ({[+ mmap_lock m +]} ⊎ ({[+ mmap_lock oldmm +]} ⊎ (uffd_refs uf ⊎ (pend_refs p ⊎ (held acc ⊎ (E ⊎ R)))))) by apply refs_locks_pend.
    apply w_dup_out; [intros _|done]. assert (E = exe_refs (mm_exe_file mm4)) as -> by (subst E; by rewrite He). by eapply (HF r mm4 acc rest p).
Qed.
End life.

(** Nothing is left of what the operation took, but perhaps an area that the next grace
    period frees. *)
Definition given_back (s s' : mstate) : Prop :=
  s' = s ∨ ∃ v, ms_rcu s' = ms_rcu s ++ [v] ∧ vm_area_free_rcu_cb v (s' <| ms_rcu := ms_rcu s |>) = Ok (tt, s).
(** The contexts of userfaultfd in [uf] have been told of the fork. *)
Definition handed_over (uf : list nat) (s : mstate) : mstate := s <| ms_refs := uffd_refs uf ⊎ ms_refs s |>.
(** One context per area of [l] that is copied and whose userfaultfd follows forks, told
    of an area that is new. *)
Definition told_all (env : mm_env) (l : areas) (s : mstate) (uf : list nat) : Prop :=
  length uf = length (List.filter (λ x, env_uffd_fork env x.1) (kept l)) ∧ NoDup uf ∧ Forall (λ v, ms_areas s !! v = None) uf.
(** The memory map holds what it refers to. *)
Definition mm_holds (s : mstate) (m : nat) (mm : mm_struct) (l : areas) : Prop := mm_refs m mm ⊎ held l ⊆ ms_refs s.
(** [m] is a copy of [oldmm]: it has copies of the areas that are to be copied, in the same
    order, is in the hands of one user, and the contexts of userfaultfd that follow forks
    of those areas are told of the copies. *)
Definition copied_mm (env : mm_env) (s s' : mstate) (m : nat) (old : mm_struct) (l : areas) : Prop :=
  ∃ mm news, mm_ok s' m mm news ∧ Forall2 (is_copy env m) (kept l) news ∧
    ms_refs s' = uffd_refs (told env (kept l) news) ⊎ (mm_refs m mm ⊎ (held news ⊎ ms_refs s)) ∧
    ms_committed s' = ms_committed s + sum_over area_charge news ∧
    mm_users mm = 1 ∧ mm_count mm = 1 ∧ mm_exe_file mm = mm_exe_file old ∧ mm_binfmt mm = mm_binfmt old ∧ mm_user_ns mm = mm_user_ns old ∧
    ms_mms s' = <[m := mm]> (ms_mms s) ∧ Forall (λ x, ms_areas s !! x.1 = None) news ∧ ms_areas s' = insert_areas news (ms_areas s) ∧
    ms_rcu s' = ms_rcu s ∧ ms_work s' = ms_work s ∧ ms_tasks s' = ms_tasks s ∧ ms_current s' = ms_current s.

Lemma lookup_insert_areas_in l A v a : NoDup l.*1 → (v, a) ∈ l → insert_areas l A !! v = Some a.
Proof.
  induction l as [|[w b] l IH]; [by intros _ ?%elem_of_nil|]. intros [Hw Hd]%NoDup_cons [Heq|Hin]%elem_of_cons.
  - injection Heq as -> ->. apply lookup_insert_eq.
  - change (insert_areas ((w, b) :: l) A) with (<[w := b]> (insert_areas l A)). rewrite lookup_insert_ne; [by apply IH|].
    intros ->. apply Hw. apply list_elem_of_fmap. by exists (v, a).
Qed.
Lemma insert_areas_perm l l' A : NoDup l.*1 → Permutation l l' → insert_areas l A = insert_areas l' A.
Proof.
  intros Hd Hp. assert (NoDup l'.*1) as Hd' by (by rewrite <-Hp). apply map_eq. intros v. destruct (decide (v ∈ l.*1)) as [Hv|Hv].
  - apply list_elem_of_fmap in Hv as ([w a]&->&Hin). cbn [fst]. rewrite (lookup_insert_areas_in l A w a), (lookup_insert_areas_in l' A w a); [done|done|by rewrite <-Hp|done|done].
  - by rewrite !lookup_insert_areas by (done || by rewrite <-Hp).
Qed.
Lemma remove_insert_pend l p A :
  Forall (λ x, A !! x.1 = None) l → (∀ v a, p = Some (v, a) → insert_areas l A !! v = None) →
  remove_areas (rev l) (pend_areas p (insert_areas l A)) = pend_areas p A.
Proof.
  intros Hf Hp. destruct p as [[v a]|]; cbn [pend_areas]; [|apply remove_insert_areas; [apply Permutation_rev|done]].
  destruct (insert_areas_none _ _ _ (Hp v a eq_refl)) as [Hv _]. apply map_eq. intros w. rewrite lookup_remove_areas.
  destruct (decide (w = v)) as [->|Hne].
  - rewrite decide_False, !lookup_insert_eq; [done|]. by rewrite <-Permutation_rev.
  - rewrite !lookup_insert_ne by done. pose proof (f_equal (lookup w) (remove_insert_areas l (rev l) A (Permutation_rev l) Hf)) as Hw. by rewrite lookup_remove_areas in Hw.
Qed.
Lemma owned_acc m l A p :
  Forall (λ x, vm_mm x.2 = m) l → NoDup l.*1 → (∀ v a, p = Some (v, a) → insert_areas l A !! v = None) → owned m (pend_areas p (insert_areas l A)) (rev l).
Proof.
  intros Ho Hd Hp. split; [by rewrite <-Permutation_rev|]. rewrite <-Permutation_rev. rewrite Forall_forall in Ho |- *. intros [v a] Hin. split; [|by apply (Ho _ Hin)]. cbn.
  pose proof (lookup_insert_areas_in l A v a Hd Hin) as Hv. destruct p as [[w b]|]; [|done]. cbn. rewrite lookup_insert_ne; [done|].
  intros ->. rewrite (Hp v b eq_refl) in Hv. done.
Qed.
Lemma pend_no_lock p m : mmap_lock m ∉ pend_refs p.
Proof. destruct p as [[v a]|]; cbn [pend_refs]; [|multiset_solver]. unfold bare_refs, opt_ref. destruct (vm_anon_name a); multiset_solver. Qed.

Section fork.
Context {ML : MmLib} {HL : MmLaws ML} (env : mm_env).
Implicit Types (s : mstate) (m v : nat) (mm : mm_struct) (l : areas).

Lemma w_free_pt s0 m mm mm' acc rest p err M A R C q Q :
  M !! m = None → m ≠ init_mm → mm_users mm = 1 → mm_count mm = 1 → partial_copy m A mm mm' acc rest → (∀ v a, p = Some (v, a) → insert_areas acc A !! v = None) →
  mmap_lock m ∉ R →
  Q None (St s0 M (pend_areas p A) (pend_refs p ⊎ R) C (q ++ pend_rcu p)) →
  mwp (free_pt m err)
    (St s0 (<[m := mm']> M) (pend_areas p (insert_areas acc A))
       ((if err =? 0 then ∅ else {[+ uprobe_lock +]}) ⊎ (base_refs m (mm_user_ns mm') ⊎ (pend_refs p ⊎ (held acc ⊎ (exe_refs (mm_exe_file mm') ⊎ R)))))
       (C + sum_over area_charge acc) (q ++ pend_rcu p)) Q.
Proof.
  intros Hm Hi Hu1 Hc1 [Ht Hz Hn Hf Hd Ho (Hu&Hc&Hns&_)] Hp Hlk HQ. unfold free_pt, mm_init_owner. apply mwp_bind. eapply w_upd_mm; [apply lookup_insert_eq|]. rewrite insert_insert_eq.
  apply mwp_bind. eapply w_upd_mm; [apply lookup_insert_eq|]. rewrite insert_insert_eq. set (mm2 := (mm' <| mm_binfmt := None |>) <| mm_owner := None |>).
  set (U := if err =? 0 then ∅ else {[+ uprobe_lock +]} : gmultiset mobj).
  replace (U ⊎ (base_refs m (mm_user_ns mm') ⊎ (pend_refs p ⊎ (held acc ⊎ (exe_refs (mm_exe_file mm') ⊎ R)))))
    with (held (rev acc) ⊎ (mm_refs m mm2 ⊎ (U ⊎ (pend_refs p ⊎ R)))).
  2:{ rewrite mm_refs_base, (held_perm (rev acc) acc) by (symmetry; apply Permutation_rev). change (mm_binfmt mm2) with (@None nat). cbn [opt_ref].
      change (mm_user_ns mm2) with (mm_user_ns mm'). change (mm_exe_file mm2) with (mm_exe_file mm'). multiset_solver. }
  apply mwp_bind. eapply (w_mmput_last s0 m mm2 (rev acc) rest); [done|done|by etrans|by etrans|done|done|by apply owned_acc|by rewrite length_rev| |].
  { rewrite !gmultiset_elem_of_disj_union. intros [Hx|[Hx|Hx]]; [|by apply pend_no_lock in Hx|done]. subst U. destruct (err =? 0); multiset_solver. }
  rewrite remove_insert_pend by done. rewrite (sum_perm _ (rev acc) acc) by (symmetry; apply Permutation_rev).
  replace (C + sum_over area_charge acc - sum_over area_charge acc) with C by lia. apply mwp_bind. subst U. destruct (err =? 0); cbn [negb mwhen].
  - apply mwp_ret, mwp_ret. by replace (∅ ⊎ (pend_refs p ⊎ R)) with (pend_refs p ⊎ R) by multiset_solver.
  - apply w_put. by apply mwp_ret.
Qed.
Lemma w_allocate_mm s0 mm M A R C q Q :
  Q None (St s0 M A R C q) → (∀ m, M !! m = None → Q (Some m) (St s0 (<[m := mm]> M) A ({[+ mm_mem m +]} ⊎ R) C q)) →
  mwp (allocate_mm env mm) (St s0 M A R C q) Q.
Proof.
  intros HN HS. unfold allocate_mm. destruct (env_mm env); cbn [negb]; [|done]. unfold mwp. apply HS. apply not_elem_of_dom, is_fresh.
Qed.
Lemma refs_uprobe (L U H E B R : gmultiset mobj) : L ⊎ (U ⊎ (B ⊎ (H ⊎ (E ⊎ R)))) = U ⊎ (H ⊎ (E ⊎ (L ⊎ (B ⊎ R)))).
Proof. multiset_solver. Qed.
Lemma mm_refs_user_ns m mm : user_ns_ref (mm_user_ns mm) ∈ mm_refs m mm.
Proof. rewrite mm_refs_base, !gmultiset_elem_of_disj_union. left. left. unfold base_refs. multiset_solver. Qed.
Lemma mm_refs_exe m mm : exe_refs (mm_exe_file mm) ⊆ mm_refs m mm.
Proof. rewrite mm_refs_base. etrans; [apply gmultiset_disj_union_subseteq_r|apply gmultiset_disj_union_subseteq_l]. Qed.
Lemma mm_refs_module m mm b : mm_binfmt mm = Some b → module_ref b ∈ mm_refs m mm.
Proof. intros Hb. rewrite mm_refs_base, !gmultiset_elem_of_disj_union. right. rewrite Hb. cbn [opt_ref]. multiset_solver. Qed.
Lemma refs_done (X U B H E R : gmultiset mobj) : X ⊎ (U ⊎ (B ⊎ (H ⊎ (E ⊎ R)))) = U ⊎ (B ⊎ E ⊎ X ⊎ (H ⊎ R)).
Proof. multiset_solver. Qed.
Lemma refs_done_none (U B H E R : gmultiset mobj) : U ⊎ (B ⊎ (H ⊎ (E ⊎ R))) = U ⊎ (B ⊎ E ⊎ ∅ ⊎ (H ⊎ R)).
Proof. multiset_solver. Qed.
Lemma refs_exit (U B H R : gmultiset mobj) : U ⊎ (B ⊎ (H ⊎ R)) = H ⊎ (B ⊎ (U ⊎ R)).
Proof. multiset_solver. Qed.
Lemma copying_done s m mm e acc mm' l x y :
  copying env m (ms_areas s) l (mm <| mm_exe_file := e |>) acc [] mm' →
  let mm5 := mm' <| mm_hiwater_rss := x |> <| mm_hiwater_vm := y |> in
  partial_copy m (ms_areas s) mm mm5 acc [] ∧ mm_ok (St s (<[m := mm5]> (ms_mms s)) (insert_areas acc (ms_areas s)) ∅ 0 []) m mm5 (rev acc) ∧
  mm_exe_file mm5 = e ∧ Forall2 (is_copy env m) (kept l) (rev acc).
Proof.
  intros [Ht Hr Hn Hp Hf Hd (don&Hl&Hc) (t&n&pg&d&ex&k&Hs)] mm5. cbn [map] in Ht. rewrite app_nil_r in Ht, Hl. subst don.
  assert (Forall (λ z, vm_mm z.2 = m) acc) as Hown by (by eapply copies_owned). split_and!; [| |by subst mm5 mm'|done].
  - split; [cbn; by rewrite app_nil_r|done|done|done|done|done|]. subst mm5 mm'. done.
  - split; [apply lookup_insert_eq|]. split_and!; [done|done|by apply (owned_acc m acc (ms_areas s) None)|cbn; by rewrite length_rev|].
    cbn. rewrite Hp, (sum_perm _ (rev acc) acc) by (symmetry; apply Permutation_rev). cbn. lia.
Qed.

Lemma told_sublist k news : told env k news `sublist_of` news.*1.
Proof.
  revert news. induction k as [|x k IH]; intros [|y news]; cbn [told fmap list_fmap]; try (apply sublist_nil_l || done).
  destruct (env_uffd_fork env x.1); cbn [app]; [by apply sublist_skip|by apply sublist_cons].
Qed.
Lemma told_length k news :
  length k = length news → length (told env k news) = length (List.filter (λ x, env_uffd_fork env x.1) k).
Proof.
  revert news. induction k as [|x k IH]; intros [|y news] Hl; try done. injection Hl as Hl. cbn [told List.filter].
  destruct (env_uffd_fork env x.1); cbn [app length]; by rewrite (IH _ Hl).
Qed.
Lemma told_all_told s m l news :
  Forall2 (is_copy env m) (kept l) news → Forall (λ x, ms_areas s !! x.1 = None) news → NoDup news.*1 →
  told_all env l s (told env (kept l) news).
Proof.
  intros Hc%Forall2_length Hf Hd. pose proof (told_sublist (kept l) news) as Hs. split; [by apply told_length|].
  split; [by eapply sublist_NoDup|]. apply Forall_forall. intros v Hv. eapply elem_of_sublist in Hv; [|exact Hs].
  rewrite Forall_forall in Hf. apply list_elem_of_fmap in Hv as (y&->&Hy). by apply Hf.
Qed.
Lemma handed_none s : handed_over [] s = s.
Proof. unfold handed_over, uffd_refs. cbn [foldr]. replace (∅ ⊎ ms_refs s) with (ms_refs s) by multiset_solver. by destruct s. Qed.
Lemma given_back_refl s (P : list nat → Prop) :
  ∃ uf, given_back (handed_over uf s) (St s (ms_mms s) (ms_areas s) (ms_refs s) (ms_committed s) (ms_rcu s)) ∧ (uf ≠ [] → P uf).
Proof. exists []. split; [|done]. left. rewrite handed_none. symmetry. apply St_id. Qed.
(** The area that was being copied when the copy failed. *)
Lemma given_back_pend s uf p :
  (∀ v a, p = Some (v, a) → ms_areas s !! v = None) →
  given_back (handed_over uf s) (St s (ms_mms s) (pend_areas p (ms_areas s)) (pend_refs p ⊎ (uffd_refs uf ⊎ ms_refs s)) (ms_committed s) (ms_rcu s ++ pend_rcu p)).
Proof.
  intros Hp. destruct p as [[v a]|]; cbn [pend_areas pend_refs pend_rcu].
  - right. exists v. split; [done|]. specialize (Hp v a eq_refl).
    assert (mwp (vm_area_free_rcu_cb v) (St s (ms_mms s) (<[v := a]> (ms_areas s)) (bare_refs v a ⊎ (uffd_refs uf ⊎ ms_refs s)) (ms_committed s) (ms_rcu s))
      (λ _ s', s' = handed_over uf s)) as Hw; [|apply mwp_inv in Hw as ([]&s'&Hs&->); exact Hs].
    unfold vm_area_free_rcu_cb, __vm_area_free, vma_lock_free. apply mwp_bind. eapply w_area_at; [apply lookup_insert_eq|]. cbn beta. apply mwp_bind.
    set (R := uffd_refs uf ⊎ ms_refs s).
    assert (∀ Q, Q tt (St s (ms_mms s) (<[v := a]> (ms_areas s)) ({[+ area_lock v +]} ⊎ ({[+ area_mem v +]} ⊎ R)) (ms_committed s) (ms_rcu s)) →
      mwp (for_some (vm_anon_name a) (λ n, drop (anon_name n))) (St s (ms_mms s) (<[v := a]> (ms_areas s)) (bare_refs v a ⊎ R) (ms_committed s) (ms_rcu s)) Q) as Hn.
    { intros Q HQ. unfold bare_refs, for_some. clearbody R. destruct (vm_anon_name a) as [n|]; cbn [opt_ref].
      - replace ({[+ area_mem v; area_lock v +]} ⊎ {[+ anon_name n +]} ⊎ R) with ({[+ anon_name n +]} ⊎ ({[+ area_lock v +]} ⊎ ({[+ area_mem v +]} ⊎ R))) by multiset_solver. by apply w_put.
      - apply mwp_ret. by replace ({[+ area_mem v; area_lock v +]} ⊎ ∅ ⊎ R) with ({[+ area_lock v +]} ⊎ ({[+ area_mem v +]} ⊎ R)) by multiset_solver. }
    apply Hn. apply mwp_bind, w_put, w_free_area; [done|]. by destruct s.
  - left. unfold handed_over. rewrite app_nil_r. replace (∅ ⊎ (uffd_refs uf ⊎ ms_refs s)) with (uffd_refs uf ⊎ ms_refs s) by multiset_solver. by destruct s.
Qed.
Lemma refs_module_fails (U B H E R : gmultiset mobj) : U ⊎ (B ⊎ (H ⊎ (E ⊎ R))) = ∅ ⊎ (B ⊎ (∅ ⊎ (H ⊎ (E ⊎ (U ⊎ R))))).
Proof. multiset_solver. Qed.
Lemma refs_copy_fails (P L B H E R : gmultiset mobj) : P ⊎ (H ⊎ (E ⊎ (L ⊎ (B ⊎ R)))) = L ⊎ (B ⊎ (P ⊎ (H ⊎ (E ⊎ R)))).
Proof. multiset_solver. Qed.
Lemma uffd_no_lock uf m : mmap_lock m ∉ uffd_refs uf.
Proof. induction uf as [|v uf IH]; [multiset_solver|]. change (uffd_refs (v :: uf)) with ({[+ area_uffd v +]} ⊎ uffd_refs uf). multiset_solver. Qed.

(** What [dup_mm] needs of the memory map it copies. *)
Definition copyable (s : mstate) (oldmm : nat) (old : mm_struct) (l : areas) : Prop :=
  mm_ok s oldmm old l ∧ mm_holds s oldmm old l ∧ current_ok s ∧ locks_known s ∧ is_Some (ms_mms s !! init_mm).

Lemma dup_mm_spec s tsk oldmm old l :
  copyable s oldmm old l →
  mwp (dup_mm env tsk oldmm) s (λ r s', match r with
    | Some m => ms_mms s !! m = None ∧ copied_mm env s s' m old l
    | None => ∃ uf, given_back (handed_over uf s) s' ∧ (uf ≠ [] → mm_binfmt old ≠ None ∧ env_module env = false ∧ told_all env l s uf)
    end).
Proof.
  intros ((Ho&Hot&Hor&[Hnd HA]&Hoc&Hop)&Hh&(t&Ht&Hcm)&Hlk&Hinit). rewrite (St_id s) at 1. unfold dup_mm. apply mwp_bind. eapply w_mm_at; [exact Ho|]. cbn beta.
  apply mwp_bind, w_allocate_mm; [apply mwp_ret; by apply (given_back_refl s (λ uf, _ ∧ _ ∧ told_all env l s uf))|]. intros m Hm.
  apply mwp_bind. eapply w_mm_at; [apply lookup_insert_eq|]. cbn beta. apply mwp_bind.
  assert (m ≠ init_mm) as Hmi by (intros ->; destruct Hinit; congruence).
  assert (mm_refs oldmm old ⊆ ms_refs s) as Hmr by (etrans; [apply gmultiset_disj_union_subseteq_l|exact Hh]).
  assert (held l ⊆ ms_refs s) as Hhr by (etrans; [apply gmultiset_disj_union_subseteq_r|exact Hh]).
  eapply (w_mm_init env s m tsk _ old t); [done| |done|done| |].
  { eapply gmultiset_elem_of_subseteq; [|exact Hmr]. apply mm_refs_user_ns. }
  { apply mwp_ret. by apply (given_back_refl s (λ uf, _ ∧ _ ∧ told_all env l s uf)). }
  intros fl df. apply mwp_bind, w_take, mwp_bind. set (mm := mm_reset tsk fl df old <| mm_user_ns := mm_user_ns old |>).
  assert (mm_mt mm = [] ∧ mm_map_count mm = 0 ∧ mm_exe_file mm = None ∧ mm_users mm = 1 ∧ mm_count mm = 1 ∧ mm_user_ns mm = mm_user_ns old ∧ mm_binfmt mm = mm_binfmt old)
    as (Hmt&Hmc&Hme&Hmu&Hmn&Hmns&Hmb) by done.
  clearbody mm. set (B := base_refs m (mm_user_ns old)). set (R1 := {[+ uprobe_lock +]} ⊎ (B ⊎ ms_refs s)).
  assert (ms_refs s ⊆ R1) as Hsub by (etrans; apply gmultiset_disj_union_subseteq_r).
  eapply (w_dup_mmap env s m oldmm (ms_mms s) (ms_areas s) R1 (ms_committed s) (ms_rcu s) l mm old Hm Ho Hot Hor); [|by etrans| |done..| |].
  { eapply Forall_impl; [exact HA|]. by intros ? [? _]. }
  { etrans; [|exact Hsub]. etrans; [|exact Hmr]. apply mm_refs_exe. }
  - intros acc uf mm0 mm' -> Hc Htold. cbn [negb Z.eqb].
    replace (uffd_refs uf ⊎ (held acc ⊎ (exe_refs (mm_exe_file old) ⊎ R1))) with ({[+ uprobe_lock +]} ⊎ (uffd_refs uf ⊎ (B ⊎ (held acc ⊎ (exe_refs (mm_exe_file old) ⊎ ms_refs s)))))
      by (subst R1; apply refs_uprobe).
    apply mwp_bind, w_put, mwp_bind. eapply w_upd_mm; [apply lookup_insert_eq|]. rewrite insert_insert_eq. apply mwp_bind. eapply w_mm_at; [apply lookup_insert_eq|]. cbn beta.
    match goal with |- context [<[m := ?x]> (ms_mms s)] => set (mm5 := x) end.
    assert (partial_copy m (ms_areas s) mm mm5 acc [] ∧ mm_ok (St s (<[m := mm5]> (ms_mms s)) (insert_areas acc (ms_areas s)) ∅ 0 []) m mm5 (rev acc) ∧
      mm_exe_file mm5 = mm_exe_file old ∧ Forall2 (is_copy env m) (kept l) (rev acc)) as (Hpc&Hok&He5&Hcopies).
    { by eapply copying_done. }
    clearbody mm5. destruct (pc_same _ _ _ _ _ _ Hpc) as (Hu5&Hc5&Hn5&Hb5).
    assert (∀ R', R' = uffd_refs uf ⊎ (mm_refs m mm5 ⊎ (held (rev acc) ⊎ ms_refs s)) →
      copied_mm env s (St s (<[m := mm5]> (ms_mms s)) (insert_areas acc (ms_areas s)) R' (ms_committed s + sum_over area_charge acc) (ms_rcu s)) m old l) as Hdone.
    { intros R' ->. exists mm5, (rev acc). rewrite <-Htold. destruct Hok as (_&Hok). assert (insert_areas acc (ms_areas s) = insert_areas (rev acc) (ms_areas s)) as Hsubs by (apply insert_areas_perm; [apply Hpc|apply Permutation_rev]).
      split; [split; [apply lookup_insert_eq|exact Hok]|]. split; [done|]. split; [done|].
      split; [by rewrite (sum_perm _ (rev acc) acc) by (symmetry; apply Permutation_rev)|]. split_and!; try done; try congruence.
      rewrite <-Permutation_rev. apply Hpc. }
    rewrite mm_refs_base, He5, Hn5, Hmns, (held_perm (rev acc) acc) in Hdone by (symmetry; apply Permutation_rev). fold B in Hdone.
    destruct (mm_binfmt mm5) as [b|] eqn:Hbin; cbn [opt_ref] in Hdone; [destruct (env_module env) eqn:Hmod|].
    + apply mwp_bind, w_share; [|apply mwp_ret; split; [done|apply Hdone, refs_done]]. rewrite !gmultiset_elem_of_disj_union. do 4 right.
      eapply gmultiset_elem_of_subseteq; [|exact Hmr]. apply mm_refs_module. congruence.
    + assert (mmap_lock m ∉ ms_refs s) as Hno by (by apply Hlk).
      rewrite refs_module_fails. change ∅ with (if 0 =? 0 then ∅ else {[+ uprobe_lock +]} : gmultiset mobj) at 1. rewrite <-He5. subst B. rewrite <-Hmns, <-Hn5.
      replace (ms_rcu s) with (ms_rcu s ++ pend_rcu None) by apply app_nil_r.
      eapply (w_free_pt s m mm mm5 acc [] None 0); try done.
      { rewrite gmultiset_elem_of_disj_union. intros [Hx|Hx]; [by apply uffd_no_lock in Hx|done]. }
      exists uf. split; [by apply given_back_pend|]. intros _. split; [congruence|]. split; [done|]. subst uf. eapply told_all_told; [exact Hcopies|rewrite <-Permutation_rev; apply Hpc|rewrite <-Permutation_rev; apply Hpc].
    + apply mwp_ret. split; [done|]. apply Hdone. apply refs_done_none.
  - intros r mm' acc rest p Hr Hpc Hp. rewrite (proj2 (Z.eqb_neq _ _) Hr). cbn [negb]. unfold failed_state. subst R1. rewrite refs_copy_fails. destruct (pc_same _ _ _ _ _ _ Hpc) as (_&_&Hn'&_). subst B. rewrite <-Hmns, <-Hn'.
    change {[+ uprobe_lock +]} with (if false then ∅ else {[+ uprobe_lock +]} : gmultiset mobj). rewrite <-(proj2 (Z.eqb_neq _ _) Hr).
    eapply (w_free_pt s m mm mm' acc rest p r); try done; [by apply Hlk|]. exists []. split; [|done].
    assert (∀ v a, p = Some (v, a) → ms_areas s !! v = None) as Hp' by (intros v a Hpv; by destruct (insert_areas_none _ _ _ (Hp v a Hpv))).
    pose proof (given_back_pend s [] p Hp') as Hg. by replace (uffd_refs [] ⊎ ms_refs s) with (ms_refs s) in Hg by (unfold uffd_refs; cbn [foldr]; multiset_solver).
Qed.
(** C25: fork copies a memory map or nothing: whatever call fails, and at whichever area, the copy
    ends without an oops; it is complete, with its own references for all that it uses, or
    everything it took is given back and the state is as before, once RCU has freed the area
    that was being copied.  Only when the module of the binary format is going away do the
    contexts of userfaultfd that follow forks keep the news of a fork that then fails. *)
Theorem dup_mm_all_or_nothing s tsk oldmm old l :
  copyable s oldmm old l →
  mwp (dup_mm env tsk oldmm) s (λ r s', match r with
    | Some m => ms_mms s !! m = None ∧ copied_mm env s s' m old l
    | None => ∃ uf, given_back (handed_over uf s) s' ∧ (uf ≠ [] → mm_binfmt old ≠ None ∧ env_module env = false ∧ told_all env l s uf)
    end).
Proof. apply dup_mm_spec. Qed.

(** The last user of a memory map gives back everything the map and its areas hold, and
    nothing else. *)
Theorem mmput_releases s m mm l R :
  mm_ok s m mm l → mm_users mm = 1 → mm_count mm = 1 → m ≠ init_mm → ms_refs s = held l ⊎ (mm_refs m mm ⊎ R) → mmap_lock m ∉ R →
  mwp (mmput m) s (λ _ s', s' = s <| ms_mms := delete m (ms_mms s) |> <| ms_areas := remove_areas l (ms_areas s) |> <| ms_refs := R |>
                                 <| ms_committed := ms_committed s - sum_over area_charge l |>).
Proof.
  intros (Hm&Ht&_&Ho&Hn&_) Hu Hc Hi HR Hlk. rewrite (St_id s) at 1. rewrite HR. rewrite <-(insert_delete_id (ms_mms s) m mm Hm) at 1.
  eapply (w_mmput_last s m mm l []); try done; [apply lookup_delete_eq|by rewrite app_nil_r].
Qed.
(** C26: A process that forks and whose copy of the memory then ends leaves the memory as it
    was: the copy takes exactly what its last user gives back.  Outside the memory of the
    two processes there remains, when the copy was made, one reference per copied area
    whose userfaultfd follows forks, with the context that was told of the fork, and
    nothing when there is no such area; when the copy failed there remains nothing but
    perhaps one area that the next grace period frees, and those same references if the
    failure is that the module of the binary format is going away. *)
Theorem fork_exit_identity s tsk oldmm old l :
  copyable s oldmm old l →
  mwp (m ← dup_mm env tsk oldmm; for_some m mmput;; mret (bool_decide (is_Some m))) s (λ made s', ∃ uf,
    if made then s' = handed_over uf s ∧ told_all env l s uf
    else given_back (handed_over uf s) s' ∧ (uf ≠ [] → mm_binfmt old ≠ None ∧ env_module env = false ∧ told_all env l s uf)).
Proof.
  intros Hcp. pose proof Hcp as (_&_&_&Hlk&Hinit). apply mwp_bind. eapply mwp_mono; [by apply dup_mm_spec|].
  intros [m|] s'; [|intros (uf&Hg); apply mwp_bind, mwp_ret, mwp_ret; by exists uf].
  intros [Hm (mm&news&(_&Ht&_&Ho&Hn&_)&Hcs&HR&HC&Hu&Hc&_&_&_&HM&Hf&HA&Hq&Hw&Htk&Hcur)]. set (uf := told env (kept l) news) in *.
  assert (s' = St s (<[m := mm]> (ms_mms s)) (insert_areas news (ms_areas s)) (held news ⊎ (mm_refs m mm ⊎ (uffd_refs uf ⊎ ms_refs s)))
    (ms_committed s + sum_over area_charge news) (ms_rcu s)) as ->.
  { rewrite (St_id s'), HM, HA, HC, Hq, HR. rewrite refs_exit. unfold St. destruct s, s'; cbn in *. by subst. }
  apply mwp_bind. cbn [for_some].
  eapply (w_mmput_last s m mm news []); [done|intros ->; destruct Hinit; congruence|done|done|by rewrite app_nil_r|done|done|done| |].
  { rewrite gmultiset_elem_of_disj_union. intros [Hx|Hx]; [by apply uffd_no_lock in Hx|by apply Hlk in Hx]. }
  apply mwp_ret. rewrite bool_decide_true by done. exists uf. split; [|destruct Ho; by eapply told_all_told].
  rewrite remove_insert_areas by done. replace (ms_committed s + sum_over area_charge news - sum_over area_charge news) with (ms_committed s) by lia. by destruct s.
Qed.
End fork.
