(* ===== verification/MemUsers.v ===== *)
(** The users of memory maps: what [copy_mm] and [mmput] do to the counts by which process
    creation knows them, access to the memory of other tasks, the executable file. *)
From stdpp Require Import gmultiset sorting.
From S2P Require Import Prelude Rbtree KState HvfValue HvfClass HvfSmp Policy Uclamp Core Schedule Load Setsched Wakeup Affinity Fork ForkSched ForkBuild.
From S2P Require Import MemMap MemCopy MemFork.

(** The counts of users, [ps_mm] in process creation. *)
Definition users (s : mstate) : gmap nat Z := mm_users <$> ms_mms s.

Section users.
Context {ML : MmLib} {HL : MmLaws ML} (env : mm_env).
Implicit Types (s : mstate) (m v : nat) (mm : mm_struct) (l : areas).

Lemma w_mmget s m mm Q : ms_mms s !! m = Some mm → Q tt (s <| ms_mms := <[m := mm <| mm_users ::= λ n, n + 1 |>]> (ms_mms s) |>) → mwp (mmget m) s Q.
Proof. intros Hm HQ. unfold mwp, mmget, upd_mm, mm_at, mbind, MM_bind. cbn. by rewrite Hm. Qed.
Lemma w_mmput_some s m mm Q :
  ms_mms s !! m = Some mm → mm_users mm ≠ 1 → Q tt (s <| ms_mms := <[m := mm <| mm_users ::= λ n, n - 1 |>]> (ms_mms s) |>) → mwp (MemMap.mmput m) s Q.
Proof.
  intros Hm Hu HQ. unfold mwp, MemMap.mmput, upd_mm, mm_at, mbind, MM_bind. cbn. rewrite Hm. cbn. rewrite Hm. cbn.
  rewrite (proj2 (Z.eqb_neq (mm_users mm - 1) 0)) by lia. exact HQ.
Qed.
Lemma users_insert s m mm : mm_users <$> <[m := mm]> (ms_mms s) = <[m := mm_users mm]> (users s).
Proof. apply fmap_insert. Qed.
Lemma free_area_keeps v s s' : vm_area_free_rcu_cb v s = Ok (tt, s') → ms_mms s' = ms_mms s ∧ ms_tasks s' = ms_tasks s.
Proof.
  unfold vm_area_free_rcu_cb, __vm_area_free, vma_lock_free, free_area, area_at, mderef, for_some, drop, mmodify, mskip, mbind, MM_bind, mret, MM_ret.
  repeat case_match; intros; simplify_eq; done.
Qed.
Lemma given_back_users s s' uf : given_back (handed_over uf s) s' → users s' = users s ∧ ms_tasks s' = ms_tasks s.
Proof.
  intros [->|(v&_&Hv)]; [done|]. apply free_area_keeps in Hv as [Hv1 Hv2]. cbn in Hv1, Hv2. unfold users. by rewrite Hv1, Hv2.
Qed.
Lemma w_mod (f : mstate → mstate) s (Q : unit → mstate → Prop) : Q tt (f s) → mwp (mmodify f) s Q.
Proof. done. Qed.
Definition child_mm (s : mstate) (tsk : tid) : option nat := ms_tasks s !! tsk ≫= mt_mm.
Lemma child_mm_set s tsk o t :
  ms_tasks s !! tsk = Some t →
  child_mm (s <| ms_tasks ::= alter (λ t, {| mt_mm := o; mt_active_mm := o; mt_kthread := mt_kthread t |}) tsk |>) tsk = o.
Proof. intros Ht. unfold child_mm. cbn. by rewrite lookup_alter_eq, Ht. Qed.

(** C27: [copy_mm] does to the counts of users what process creation assumes: the child shares the
    map of its parent, which has one more user, or gets a new map with one user, or fails and
    changes no count. *)
Theorem copy_mm_counts s share tsk t tc oldmm old l :
  copyable s oldmm old l → ms_tasks s !! ms_current s = Some t → mt_mm t = Some oldmm → ms_tasks s !! tsk = Some tc → tsk ≠ ms_current s →
  mwp (MemMap.copy_mm env share tsk) s (λ r s',
    taken share (Some oldmm) (child_mm s' tsk) (users s) (users s') ∧ (r = 0 ∧ child_mm s' tsk ≠ None ∨ r = - ENOMEM ∧ child_mm s' tsk = None)).
Proof.
  intros Hcp Ht Hmm Htc Hne. unfold MemMap.copy_mm. apply mwp_bind, w_mod, mwp_bind. eapply mwp_ok; [reflexivity|]. cbn beta. apply mwp_bind.
  set (s1 := s <| ms_tasks ::= _ |>). assert (ms_tasks s1 !! ms_current s1 = Some t) as Ht1 by (subst s1; cbn; by rewrite lookup_alter_ne).
  assert (∃ tc1, ms_tasks s1 !! tsk = Some tc1) as [tc1 Htc1] by (subst s1; cbn; rewrite lookup_alter_eq, Htc; by eexists).
  assert (child_mm s1 tsk = None) as Hn1 by (by eapply child_mm_set).
  assert (copyable s1 oldmm old l) as Hcp1.
  { destruct Hcp as (?&?&(t'&Ht'&Hcm)&?&?). split_and!; try done. exists t. split; [done|]. by simplify_eq. }
  assert (users s1 = users s) as Hus by done. clearbody s1. eapply mwp_ok; [unfold mm_task_at; by rewrite Ht1|]. cbn beta. rewrite Hmm. destruct share.
  - destruct Hcp1 as ((Ho&_)&_). apply mwp_bind. eapply w_mmget; [done|]. apply mwp_bind, w_mod, mwp_ret.
    erewrite child_mm_set by done. split; [|by left]. split; [done|]. unfold users at 1. cbn. rewrite users_insert, Hus. unfold get_ref.
    apply map_eq. intros i. destruct (decide (i = oldmm)) as [->|]; [|by rewrite lookup_insert_ne, lookup_alter_ne].
    rewrite lookup_insert_eq, lookup_alter_eq, <-Hus. unfold users. by rewrite lookup_fmap, Ho.
  - apply mwp_bind. eapply mwp_mono; [by apply dup_mm_spec|]. intros [m|] s2.
    + intros [Hm (mm&news&_&_&_&_&Hu&_&_&_&_&HM&_&_&_&_&Htk&_)]. apply mwp_bind, w_mod, mwp_ret. erewrite child_mm_set by (by rewrite Htk). split; [|by left].
      split; [rewrite <-Hus; unfold users; by rewrite lookup_fmap, Hm|]. unfold users at 1. cbn. by rewrite HM, users_insert, Hu, Hus.
    + intros (uf&Hg&_). apply mwp_ret. destruct (given_back_users s1 s2 uf Hg) as [H1 H2].
      assert (child_mm s2 tsk = None) as -> by (unfold child_mm in *; by rewrite H2). split; [|by right]. cbn. congruence.
Qed.

(** [mmput] takes one user away; the map of the last one is gone. *)
Lemma mmput_counts s m mm l R :
  mm_ok s m mm l → 1 <= mm_users mm → mm_count mm = 1 → m ≠ init_mm → ms_refs s = held l ⊎ (mm_refs m mm ⊎ R) → mmap_lock m ∉ R →
  mwp (MemMap.mmput m) s (λ _ s', users s' = put_ref m (users s)).
Proof.
  intros Hok Hu Hc Hi HR Hlk. assert (users s !! m = Some (mm_users mm)) as Hus by (destruct Hok as (Hm&_); unfold users; by rewrite lookup_fmap, Hm).
  unfold put_ref. rewrite Hus. destruct (Z.eqb_spec (mm_users mm - 1) 0).
  - eapply mwp_mono; [eapply mmput_releases; try done; lia|]. intros _ s' ->. unfold users. cbn. apply fmap_delete.
  - destruct Hok as (Hm&_). eapply w_mmput_some; [done|lia|]. unfold users at 1. cbn. apply users_insert.
Qed.
Lemma users_back mm : (mm <| mm_users ::= λ n, n + 1 |>) <| mm_users ::= λ n, n - 1 |> = mm.
Proof.
  change ((mm <| mm_users ::= λ n, n + 1 |>) <| mm_users ::= λ n, n - 1 |>) with (mm <| mm_users := mm_users mm + 1 - 1 |>).
  rewrite Z.add_simpl_r. by destruct mm.
Qed.
(** Reading the memory of another task: one more user for the caller, or an error and no
    change at all. *)
Theorem mm_access_spec s p t tc :
  ms_tasks s !! p = Some t → ms_tasks s !! ms_current s = Some tc →
  (∀ m, mt_mm t = Some m → ∃ mm, ms_mms s !! m = Some mm ∧ 1 <= mm_users mm) →
  mwp (mm_access env p) s (λ r s',
    match r with
    | inl m => mt_kthread t = false ∧ mt_mm t = Some m ∧ users s' = get_ref m (users s) ∧ ms_refs s' = ms_refs s ∧
               env_exec_lock env = 0 ∧ (mt_mm tc = Some m ∨ env_ptrace env = true)
    | inr err => s' = s ∧
        ((err = env_exec_lock env ∧ err ≠ 0) ∨ (err = - ESRCH ∧ (mt_kthread t = true ∨ mt_mm t = None)) ∨
         (err = - EACCES ∧ mt_mm t ≠ mt_mm tc ∧ env_ptrace env = false))
    end).
Proof.
  intros Ht Htc Hmm. unfold mm_access. destruct (Z.eqb_spec (env_exec_lock env) 0); cbn [negb]; [|apply mwp_ret; split; [done|by left]].
  unfold get_task_mm. apply mwp_bind, mwp_bind. eapply mwp_ok; [unfold mm_task_at; by rewrite Ht|]. cbn beta.
  assert (∀ Q, Q tc s → mwp (mm_task_at (ms_current s)) s Q) as Hcur by (intros Q HQ; unfold mwp, mm_task_at; by rewrite Htc).
  destruct (mt_kthread t) eqn:Hk.
  { apply mwp_ret, mwp_bind. eapply mwp_ok; [reflexivity|]. apply mwp_bind, Hcur, mwp_ret. split; [done|]. right. left. by split; [|left]. }
  destruct (mt_mm t) as [m|] eqn:Hm; cbn [for_some].
  2:{ apply mwp_bind, mwp_ret, mwp_ret, mwp_bind. eapply mwp_ok; [reflexivity|]. apply mwp_bind, Hcur, mwp_ret. split; [done|]. right. left. by split; [|right]. }
  destruct (Hmm m eq_refl) as (mm&Hl&Hu). apply mwp_bind. eapply w_mmget; [done|]. apply mwp_ret, mwp_bind. eapply mwp_ok; [reflexivity|]. cbn beta. apply mwp_bind.
  set (s1 := s <| ms_mms := _ |>). eapply mwp_ok; [unfold mm_task_at; cbn; by rewrite Htc|]. cbn beta.
  assert (users s1 = get_ref m (users s)) as Hs1.
  { unfold users at 1. cbn. rewrite users_insert. unfold get_ref. apply map_eq. intros i. destruct (decide (i = m)) as [->|]; [|by rewrite lookup_insert_ne, lookup_alter_ne].
    rewrite lookup_insert_eq, lookup_alter_eq. unfold users. by rewrite lookup_fmap, Hl. }
  destruct (bool_decide (Some m ≠ mt_mm tc) && negb (env_ptrace env)) eqn:Hd.
  - apply andb_true_iff in Hd as [Hd1%bool_decide_eq_true Hd2%negb_true_iff]. apply mwp_bind. eapply (w_mmput_some s1 m); [apply lookup_insert_eq|cbn; lia|]. apply mwp_ret. split.
    + subst s1. cbn. rewrite insert_insert_eq. rewrite insert_id; [by destruct s|]. rewrite Hl. f_equal. rewrite users_back. done.
    + right. right. done.
  - apply mwp_ret. split_and!; [done|done|done|done|done|]. apply andb_false_iff in Hd as [Hd%bool_decide_eq_false|Hd%negb_false_iff]; [left|by right]. by apply dec_stable in Hd.
Qed.

(** * The executable file *)

Definition maps_file (f : nat) (l : areas) : bool :=
  existsb (λ x, match vm_file x.2 with Some g => path_equal g f | None => false end) l.
Lemma w_file_mapped s l f (Q : bool → mstate → Prop) :
  Forall (λ x, ms_areas s !! x.1 = Some x.2) l → Q (maps_file f l) s → mwp (file_mapped (map entry_of l) f) s Q.
Proof.
  intros Hl HQ. induction Hl as [|[v a] l Hv _ IH]; cbn [map file_mapped]; [done|]. cbn in Hv. apply mwp_bind. eapply (mwp_ok _ _ v s); [reflexivity|]. cbn beta.
  apply mwp_bind. eapply mwp_ok; [unfold area_at; by rewrite Hv|]. cbn beta. unfold maps_file in *. cbn [existsb snd] in HQ.
  destruct (vm_file a) as [g|]; [destruct (path_equal g f)|]; [by apply mwp_ret|by apply IH|by apply IH].
Qed.
Lemma w_exe_busy s0 m mm l M A R C q (Q : bool → mstate → Prop) :
  M !! m = Some mm → mm_mt mm = map entry_of l → Forall (λ x, A !! x.1 = Some x.2) l →
  (∀ g, mm_exe_file mm = Some g → maps_file g l = true → Q true (St s0 M A R C q)) →
  ((∀ g, mm_exe_file mm = Some g → maps_file g l = false) → Q false (St s0 M A R C q)) →
  mwp (exe_file_busy m (mm_exe_file mm)) (St s0 M A (opt_ref (λ f, {[+ file_ref f +]}) (mm_exe_file mm) ⊎ R) C q) Q.
Proof.
  intros Hm Ht HA HT HF. unfold exe_file_busy. destruct (mm_exe_file mm) as [g|]; cbn [opt_ref].
  - apply mwp_bind, w_take, mwp_bind. eapply w_mm_at; [exact Hm|]. cbn beta. apply mwp_bind. rewrite Ht. apply w_file_mapped; [done|]. cbn beta.
    apply mwp_bind, w_put, mwp_bind. unfold fput. apply w_put, mwp_ret. destruct (maps_file g l) eqn:Hg; [by eapply HT|]. apply HF. by intros ? [= <-].
  - apply mwp_ret. replace (∅ ⊎ R) with R by multiset_solver. by apply HF.
Qed.
Lemma w_share_exe s0 o M A R C q Q :
  exe_refs o ⊆ R → Q tt (St s0 M A (opt_ref (λ f, {[+ file_ref f +]}) o ⊎ R) C q) → mwp (for_some o (λ f, share (file_ref f))) (St s0 M A R C q) Q.
Proof.
  intros He HQ. unfold for_some, exe_refs in *. destruct o as [g|]; cbn [opt_ref] in *; [apply w_share; [multiset_solver|done]|].
  apply mwp_ret. by replace (∅ ⊎ R) with R in HQ by multiset_solver.
Qed.
Lemma refs_exe f (E R : gmultiset mobj) : {[+ file_ref f +]} ⊎ ({[+ file_denied f +]} ⊎ (E ⊎ R)) = E ⊎ ({[+ file_ref f; file_denied f +]} ⊎ R).
Proof. multiset_solver. Qed.
(** Changing the executable: refused while the old one is mapped or the new one open for
    writing, with no effect; else the map refers to the new file, has denied writes to it,
    and has let go of the old one. *)
Theorem replace_mm_exe_file_spec s m mm l f :
  mm_ok s m mm l → mm_holds s m mm l → file_ref f ∈ ms_refs s →
  mwp (replace_mm_exe_file m f) s (λ r s',
    (r = - EBUSY ∧ s' = s ∧ ∃ g, mm_exe_file mm = Some g ∧ maps_file g l = true) ∨
    (r = - EACCES ∧ s' = s ∧ file_denied f ∉ ms_refs s) ∨
    (r = 0 ∧ (∀ g, mm_exe_file mm = Some g → maps_file g l = false) ∧
     ∃ R, exe_refs (mm_exe_file mm) ⊎ R = exe_refs (Some f) ⊎ ms_refs s ∧
       s' = s <| ms_mms := <[m := mm <| mm_exe_file := Some f |>]> (ms_mms s) |> <| ms_refs := R |>)).
Proof.
  intros (Hm&Ht&_&[_ Ho]&_) Hh Hf. unfold replace_mm_exe_file, get_mm_exe_file.
  assert (Forall (λ x, ms_areas s !! x.1 = Some x.2) l) as HA by (eapply Forall_impl; [exact Ho|]; by intros ? [? _]).
  assert (exe_refs (mm_exe_file mm) ⊆ ms_refs s) as He.
  { etrans; [apply (mm_refs_exe m)|]. etrans; [apply gmultiset_disj_union_subseteq_l|exact Hh]. }
  clear Ho Hh. rewrite (St_id s) at 1. set (M := ms_mms s) in *. set (A := ms_areas s) in *. set (C := ms_committed s). set (q := ms_rcu s). set (R := ms_refs s) in *.
  apply mwp_bind, mwp_bind. eapply w_mm_at; [exact Hm|]. cbn beta. apply mwp_bind. eapply w_share_exe; [done|]. apply mwp_ret, mwp_bind. eapply w_exe_busy; [done..| |].
  { intros g Hg Hmap. apply mwp_ret. left. split_and!; [done|symmetry; apply St_id|]. by exists g. }
  intros Hfree. cbn beta iota. apply mwp_bind. destruct (deny_write_ok f (St s M A R C q)) as (r&Hr&H0). eapply mwp_ok; [exact Hr|]. cbn beta.
  destruct (Z.eqb_spec r 0) as [Heq|Hne]; cbn [negb].
  2:{ apply mwp_ret. right. left. split_and!; [done|symmetry; apply St_id|]. intros Hd. by apply Hne, H0. }
  change ((St s M A R C q) <| ms_refs := {[+ file_denied f +]} ⊎ ms_refs (St s M A R C q) |>) with (St s M A ({[+ file_denied f +]} ⊎ R) C q).
  apply mwp_bind, w_share; [multiset_solver|]. apply mwp_bind, w_take, mwp_bind. eapply w_mm_at; [exact Hm|]. cbn beta. apply mwp_bind. eapply w_upd_mm; [exact Hm|]. cbn beta.
  apply mwp_bind, w_put, mwp_bind.
  assert (∃ R1, R = exe_refs (mm_exe_file mm) ⊎ R1) as [R1 HR1] by (exists (R ∖ exe_refs (mm_exe_file mm)); by apply gmultiset_disj_union_difference).
  rewrite HR1, refs_exe. apply w_put_exe, mwp_ret. right. right. split; [done|]. split; [done|].
  exists ({[+ file_ref f; file_denied f +]} ⊎ R1). split; [|by destruct s]. change R with (ms_refs s) in HR1. rewrite ?HR1. unfold exe_refs at 2. cbn [opt_ref]. generalize (exe_refs (mm_exe_file mm)). multiset_solver.
Qed.
End users.
