(* ===== verification/Example.v ===== *)
(** A small system on which the theorems are exercised: two CPUs, a few tasks, and
    concrete instances of the interfaces to code outside the repository.  The
    run-queue invariant is checked by computation, with [hvf_invb]. *)
From S2P Require Import Prelude Rbtree KState HvfValue HvfClass HvfInv HvfOps HvfSpec HvfSmp SchedSys Policy Uclamp UclampInv Core Schedule SchedSpec Load Setsched SetschedSpec Wakeup WakeupSpec Affinity AffinityInv AffinityProto AffinitySteps HvfFrame TaskMove.

(** * Deciding the run-queue invariant *)

Fixpoint sortedb (key : tid → Z) (l : list tid) : bool :=
  match l with
  | [] => true
  | x :: l' => forallb (λ y, key x <=? key y) l' && sortedb key l'
  end.

Lemma sortedb_sound key l : sortedb key l = true → StronglySorted (key_le key) l.
Proof.
  induction l as [|x l IH]; cbn; [constructor|]. intros [Hx Hl]%andb_true_iff.
  constructor; [auto|]. rewrite Forall_forall. rewrite forallb_forall in Hx.
  intros y Hy. apply Z.leb_le, Hx. by apply list_elem_of_In.
Qed.

Definition queue_okb (s : kstate) (c : Z) (h : hvf_rq) : bool :=
  bool_decide (NoDup (queue h)) && sortedb (value_of s) (queue h) &&
  bool_decide (max_value_entity h = last (queue h)) &&
  (nr_hvf_queued h =? u32 (Z.of_nat (length (queue h)))) &&
  forallb (λ p, match ent s p with
                | Some (v, true, c') => (c' =? c) && (0 <=? v) && (v <=? H)
                | _ => false
                end) (queue h) &&
  forallb (λ '(p, t), negb (se_on_rq (hvf t) && (cpu t =? c)) || bool_decide (p ∈ queue h))
    (map_to_list (k_tasks s)) &&
  match hvf_curr h with
  | Some p => match ent s p with Some (_, false, c') => c' =? c | _ => false end
  | None => true
  end.
Definition hvf_invb (s : kstate) : bool :=
  forallb (λ '(c, r), queue_okb s c (rq_hvf r)) (map_to_list (k_rqs s)).

Lemma queue_okb_sound s c h : queue_okb s c h = true → queue_ok (ent s) c h.
Proof.
  unfold queue_okb. rewrite !andb_true_iff, !bool_decide_eq_true, Z.eqb_eq, !forallb_forall.
  intros [[[[[[Hnd Hs] Hm] Hn] Hin] Hall] Hc]. split; [done| |done|done|..].
  - apply sortedb_sound in Hs. eapply sorted_ext, Hs. intros. apply value_of_key.
  - intros p Hp%list_elem_of_In%Hin. destruct (ent s p) as [[[v []] c']|]; [|done|done].
    exists v. assert (c' = c) as -> by lia. split; [done|lia].
  - intros p v He. unfold ent in He. destruct (k_tasks s !! p) as [t|] eqn:Ht; [|done].
    apply elem_of_map_to_list, list_elem_of_In, Hall in Ht. injection He as _ Hon Hcpu.
    rewrite Hon, Hcpu, Z.eqb_refl in Ht. by apply bool_decide_eq_true in Ht.
  - intros p Hp. rewrite Hp in Hc. destruct (ent s p) as [[[v []] c']|]; [done| |done].
    exists v. by apply Z.eqb_eq in Hc as ->.
Qed.

Lemma hvf_invb_sound s : hvf_invb s = true → hvf_inv s.
Proof.
  unfold hvf_invb. rewrite forallb_forall. intros Hall c h Hh. unfold hq in Hh.
  destruct (k_rqs s !! c) as [r|] eqn:Hr; [|done]. injection Hh as <-. apply queue_okb_sound.
  apply elem_of_map_to_list, list_elem_of_In, Hall in Hr. done.
Qed.

(** * Instances of the interfaces *)

(** A tick of 4 ms, as with HZ = 250; five clamp buckets; no BPF scheduler. *)
#[export] Instance ex_tick : TickConfig := {| TICK_NSEC := 4000000 |}.
#[export] Instance ex_uclamp_config : UclampConfig := {| UCLAMP_BUCKETS := 5 |}.
#[export] Instance ex_uclamp_config_ok : UclampConfigOk ex_uclamp_config.
Proof. by split. Qed.
#[export] Instance ex_ext : Ext := {|
  scx_enabled := false; scx_switched_all := false; task_should_scx _ := false;
  task_on_scx _ := false; scx_check_setscheduler _ _ := 0
|}.
#[export] Instance ex_ext_laws : ExtLaws ex_ext.
Proof. by split. Qed.
#[export] Existing Instance plain_rb.

(** Insertion sort by load, two CPU ids, and memory that is never short. *)
Fixpoint ins_load (x : cpu_load) (l : list cpu_load) : list cpu_load :=
  match l with
  | [] => [x]
  | y :: l' => if cl_nr_running x <=? cl_nr_running y then x :: y :: l' else y :: ins_load x l'
  end.
#[export] Instance ex_smp : SmpLib := {|
  lib_sort _ _ l := foldr ins_load [] l; nr_cpu_ids := 2; kmalloc_array n := Some (replicate n inhabitant)
|}.

Lemma ins_load_perm x l : ins_load x l ≡ₚ x :: l.
Proof.
  induction l as [|y l IH]; cbn; [done|]. case_match; [done|]. rewrite IH. apply Permutation_swap.
Qed.
Lemma compare_le a b : compare_cpu_loads a b <= 0 ↔ cl_nr_running a <= cl_nr_running b.
Proof. unfold compare_cpu_loads. repeat case_match; lia. Qed.
Lemma ins_load_sorted x l :
  StronglySorted (λ a b, compare_cpu_loads a b <= 0) l →
  StronglySorted (λ a b, compare_cpu_loads a b <= 0) (ins_load x l).
Proof.
  induction 1 as [|y l Hl IH Hy]; cbn; [repeat constructor|].
  destruct (Z.leb_spec (cl_nr_running x) (cl_nr_running y)) as [Hle|Hlt].
  - constructor; [by constructor|]. constructor; [by apply compare_le|].
    eapply Forall_impl; [done|]. intros z. rewrite !compare_le. lia.
  - constructor; [done|]. rewrite Forall_forall in *. intros z. rewrite ins_load_perm.
    intros [->|Hz]%elem_of_cons; [apply compare_le; lia|auto].
Qed.

#[export] Instance ex_smp_laws : SmpLaws ex_smp.
Proof.
  split.
  - intros l. cbn. induction l as [|x l IH]; cbn; [done|]. by rewrite ins_load_perm, IH.
  - intros l. cbn. induction l as [|x l IH]; cbn; [constructor|]. by apply ins_load_sorted.
  - intros n l [= <-]. apply length_replicate.
Qed.

(** User memory where every non-null address may be written. *)
#[export] Instance ex_uaccess : UAccess := {|
  access_ok _ _ := true; copy_to_user_long dst v mem := (0, <[dst := v]> mem)
|}.
#[export] Instance ex_uaccess_laws : UAccessLaws ex_uaccess.
Proof.
  split; [by intros ? ? ? ? [= <-]|]. intros dst v mem n mem' a [= _ <-] Hne. by rewrite lookup_insert_ne.
Qed.

(** Classes with no task: nothing to pick, nothing to do. *)
Definition ex_class (cl : sched_class_id) : sched_class_ops := {|
  uclamp_enabled := true;
  op_enqueue_task := Some (λ _ _ _, skip); op_dequeue_task := Some (λ _ _ _, mret true);
  op_yield_task := None; op_yield_to_task := None;
  op_wakeup_preempt := Some (λ _ _ _, skip); op_balance := None;
  op_pick_task := Some (λ c, r ← cpu_rq c; mret (if decide (cl = idle_sched_class) then Some (idle r) else None));
  op_pick_next_task := None;
  op_put_prev_task := Some (λ _ _ _, skip); op_set_next_task := Some (λ _ _ _, skip);
  op_select_task_rq := Some (λ _ c _, mret c); op_migrate_task_rq := None; op_task_woken := None;
  op_set_cpus_allowed := Some set_cpus_allowed_common;
  op_task_tick := Some (λ _ _ _, skip); op_task_fork := None; op_task_dead := None;
  op_switching_to := None; op_switched_from := Some (λ _ _, skip); op_switched_to := Some (λ _ _, skip);
  op_reweight_task := Some (λ _ p lw, upd_task p (λ t, t <| se_weight := lw.1 |> <| se_inv_weight := lw.2 |>));
  op_prio_changed := Some (λ _ _ _, skip); op_get_rr_interval := None
|}.
#[export] Instance ex_classes : OtherClasses := {|
  other_class := ex_class;
  pick_next_task_fair _ _ := mret picked_none;
  pick_task_idle c := r ← cpu_rq c; mret (idle r);
  signal_pending_state _ _ := false
|}.
#[export] Instance ex_classes_laws : OtherLaws ex_classes.
Proof.
  split; [done| |eexists; by split].
  intros cl c s r Hcl Hr _. eexists. split; [done|]. cbn beta. ok_step. by rewrite decide_False.
Qed.

(** No deadline tasks, no capabilities, a security module that permits everything. *)
#[export] Instance ex_sys : SysLib := {|
  __setparam_dl t _ := t; __getparam_dl _ a := a; __checkparam_dl _ := false;
  dl_param_changed _ _ := false; sched_dl_overflow _ _ _ := mret 0; __setparam_fair t _ := t;
  rt_mutex_adjust_pi _ := skip; capable_sys_nice := false; security_task_setnice _ _ := 0;
  security_task_setscheduler _ := 0; security_task_getscheduler _ := 0; find_task_by_vpid _ _ := None;
  dl_bandwidth_enabled := false; dl_entity_is_special _ := false; rd_span _ := 3; rd_dl_bw _ := 0;
  vcpu_is_preempted _ := false; in_interrupt := false
|}.

(** Two CPUs that are online and share a cache, no NUMA, no BPF scheduler. *)
#[export] Instance ex_cpulib : CpuLib := {|
  cpu_online _ := true; cpu_active _ := true; cpu_dying _ := false; task_cpu_possible _ _ := true;
  kthread_is_per_cpu _ := false; cpu_to_node _ := 0; cpumask_of_node _ := 3;
  cpuset_cpus_allowed_fallback _ := mret false; task_cpu_fallback_mask _ := 3;
  cpus_share_cache _ _ := true; sched_feat_TTWU_QUEUE := true; until_off_cpu _ := skip
|}.
#[export] Instance ex_forklib : ForkLib := {|
  init_dl_entity := []; scx_pre_fork _ := skip; scx_fork _ := mret 0; scx_cancel_fork _ := skip;
  scx_post_fork _ := skip; sysctl_sched_base_slice := 3000000
|}.
Lemma ex_fork_hooks : fork_hooks_ok.
Proof. split; [by eexists..|]. by intros []. Qed.

(** User memory without masks or attributes, and the choice of the first CPU of two
    masks. *)
#[export] Instance ex_umem : UserMem := {|
  user_sched_param _ := None; user_attr_size _ := None; user_sched_attr _ _ := (- EFAULT, zero_attr);
  user_writable _ := true; copy_attr_to_user _ _ _ := 0; user_cpu_mask _ _ := None; cpumask_size := 8;
  jiffies_to_timespec64 j := {| tv_sec := j / 250; tv_nsec := j mod 250 * 4000000 |};
  alloc_ok := true; cpu_active_mask := 3; sizeof_sched_attr := 56
|}.
#[export] Instance ex_afflib : AffLib := {|
  cpu_online_mask := 3; cpu_possible_mask := 3; task_cpu_possible_mask _ := 3;
  cpumask_any_and_distribute a b := default 2 (head (mask_cpus (Z.land a b)));
  cpuset_cpus_allowed _ _ := 3; other_find_lock_rq _ := None; flush_smp_call_function_queue := skip;
  wait_for_completion _ := skip; wait_refs_zero _ := skip; alloc_user_cpus_ptr := true
|}.
#[export] Instance ex_aff_laws : AffLaws ex_afflib ex_umem.
Proof.
  split; [done|done|].
  intros a b. change (cpumask_any_and_distribute a b) with (default 2 (head (mask_cpus (Z.land a b)))).
    destruct (mask_cpus _) as [|c l] eqn:Hl; cbn; [lia|]. intros _.
    assert (c ∈ mask_cpus (Z.land a b)) as Hc by (rewrite Hl; set_solver).
    unfold mask_cpus in Hc. apply list_elem_of_filter in Hc as [Hb Hc]. apply elem_of_seqZ in Hc.
    rewrite Z.land_spec in Hb. apply andb_true_iff in Hb as [_ Hb]. split; [lia|done].
Qed.

Lemma ex_affinity_class : affinity_class fair_sched_class.
Proof.
  assert (∀ s p, is_Some (k_tasks s !! p) → quiet s s p) as Hrefl.
  { intros s p _ t Ht. split; [done|]. by exists t. }
  split; [done|..]; try (eexists; split; [reflexivity|]; intros; intros s Hs; by apply Hrefl); [done|].
  eexists. split; [reflexivity|]. intros p ctx s Hs. unfold wp.
  assert (∃ ctx' s', set_cpus_allowed_common p ctx s = Ok (ctx', s') ∧ is_Some (k_tasks s' !! p)) as (ctx'&s'&->&Hs').
  { apply (wp_inv _ _ (λ _ s', is_Some (k_tasks s' !! p))). destruct Hs as [t Ht]. unfold set_cpus_allowed_common.
    destruct (has _ (Z.lor _ _)); apply wp_bind; (eapply wp_upd_task; [done|]).
    - apply wp_ret. cbn. rewrite lookup_insert_eq. eauto.
    - apply wp_bind. eapply wp_task; [apply lookup_insert_eq|]. destruct (has _ SCA_USER).
      + apply wp_bind. eapply wp_upd_task; [apply lookup_insert_eq|]. apply wp_ret. cbn. rewrite lookup_insert_eq. eauto.
      + apply wp_ret. cbn. rewrite lookup_insert_eq. eauto. }
  exists s'. split; [done|]. by apply Hrefl.
Qed.

(** * Tasks and states *)

Definition ex_se (v : Z) : uclamp_se := uclamp_se_set v false
  {| uc_value := 0; uc_bucket_id := 0; uc_active := false; uc_user_defined := false |}.

(** A task of nice 0 that started at second 1000, has used 5 ms of its declared
    second, and has its deadlines at seconds 1004 and 1006. *)
Definition ex_task (c : Z) (cl : sched_class_id) (state v : Z) (queued : bool) : task_struct := {|
  pid := 100; __state := state; saved_state := 0; on_rq := 0; on_cpu := false; cpu := c; wake_cpu := c;
  recent_used_cpu := c; prio := 120; static_prio := 120; normal_prio := 120; rt_priority := 0;
  policy := if decide (cl = hvf_sched_class) then SCHED_HVF else SCHED_NORMAL; sched_class := cl;
  hvf := {| init_sched_value := v; curr_sched_value := v; first_time := 1000000; latest_time := 1000000;
            time_used := 5; runtime := 0; se_on_rq := queued; cpu_answers := 0; cpu_first_answer := 0;
            slice_expired := false; prev_cpu := c; curr_cpu := c |};
  deadline_1 := 1004; deadline_2 := 1006; computation_time := 1000; pars_set := true;
  nr_cpus_allowed := 2; cpus_mask := 3; cpus_other := None; user_cpus_ptr := None; migration_disabled := 0;
  t_flags := 0; need_resched := false; polling := false; sched_reset_on_fork := false;
  sched_contributes_to_load := false; in_iowait := false; sched_delayed := false; se_slice := 0;
  custom_slice := false; se_weight := 1024; se_inv_weight := 4194304; timer_slack_ns := 50000;
  default_timer_slack_ns := 50000; nvcsw := 0; nivcsw := 0;
  uclamp_req_min := ex_se 0; uclamp_req_max := ex_se 1024; uclamp_min := ex_se 0; uclamp_max := ex_se 1024;
  rlim_nice := 0; rlim_rtprio := 0; uid := 1000; euid := 1000; dl_server := None; dl_data := [];
  pi_top_task := None; sched_remote_wakeup := false;
  migration_pending := None; migration_flags := 0; core_cookie := 0; core_occupation := 0; core_enqueued := false
|}.

Definition ex_core : core_rq := {|
  core := 0; core_pick := None; core_dl_server := None; core_enabled := false; core_sched_seq := 0;
  core_tree := RbNull; core_task_seq := 0; core_pick_seq := 0; rq_core_cookie := 0;
  core_forceidle_count := 0; core_forceidle_seq := 0; core_forceidle_occupation := 0;
  core_forceidle_start := 0
|}.

Definition ex_core_global : core_global := {| core_key := false; core_count := 0 |}.
Definition ex_head : bcb := {| bc_next := None; bc_func := class_fn 0 |}.

Definition ex_rq (curr_ idle_ : tid) (h : hvf_rq) (n : Z) : rq := init_uclamp_rq {|
  nr_running := n; curr := curr_; idle := idle_; stop := None; rq_hvf := h; cfs_h_nr_queued := 0;
  class_data _ := []; nr_uninterruptible := 0; nr_iowait := 0; nr_switches := 0; ttwu_pending := false;
  rq_uclamp_min := {| ucrq_value := 0; ucrq_bucket := [] |};
  rq_uclamp_max := {| ucrq_value := 0; ucrq_bucket := [] |}; uclamp_flags := 0;
  rq_dl_server := None; scx_bal_pending := false; wake_list := [];
  push_busy := false; nr_pinned := 0; core_data := ex_core; balance_callback := None
|}.

Definition ex_empty : hvf_rq :=
  {| hvf_task_queue := RbNull; max_value_entity := None; hvf_curr := None; nr_hvf_queued := 0 |}.
(** Tasks 2 and 3 wait, with values 30 and 70. *)
Definition ex_two : hvf_rq :=
  {| hvf_task_queue := RbNode RB_BLACK RbNull 2 (RbNode RB_RED RbNull 3 RbNull);
     max_value_entity := Some 3%nat; hvf_curr := None; nr_hvf_queued := 2 |}.

Definition ex_globals (used : bool) : uclamp_globals := {|
  sysctl_sched_uclamp_util_min := 1024; sysctl_sched_uclamp_util_max := 1024;
  sysctl_sched_uclamp_util_min_rt_default := 1024;
  uclamp_default_min := ex_se 1024; uclamp_default_max := ex_se 1024; sched_uclamp_used := used |}.

(** CPU 0 runs the HVF task 1, of value 50 and in state [state], with the queue [h];
    task 4 is an HVF task that sleeps, task 5 a sleeping fair task; CPU 1 is idle.
    The clock stands at second 1000. *)
Definition ex_state (state : Z) (h : hvf_rq) (n : Z) : kstate := {|
  k_tasks := {[ 0%nat := ex_task 0 idle_sched_class TASK_RUNNING 0 false;
                10%nat := ex_task 1 idle_sched_class TASK_RUNNING 0 false;
                1%nat := ex_task 0 hvf_sched_class state 50 false;
                2%nat := ex_task 0 hvf_sched_class TASK_RUNNING 30 (bool_decide (2%nat ∈ queue h));
                3%nat := ex_task 0 hvf_sched_class TASK_RUNNING 70 (bool_decide (3%nat ∈ queue h));
                4%nat := ex_task 0 hvf_sched_class TASK_INTERRUPTIBLE 40 false;
                5%nat := ex_task 0 fair_sched_class TASK_INTERRUPTIBLE 0 false ]};
  k_rqs := {[ 0 := ex_rq 1 0 h n; 1 := ex_rq 10 10 ex_empty 0 ]};
  k_clock _ := {| tv_sec := 1000; tv_nsec := 0 |};
  k_reads := 0; k_cpu := 0; k_trace := []; k_uclamp := ex_globals true; k_pending := ∅; k_stops := [];
  k_core := ex_core_global; k_heads _ := ex_head
|}.

(** Task 1 runs and two tasks wait; it runs alone; it blocks; it exits; it runs
    without being recorded as the running entity. *)
Definition ex_busy : kstate := ex_state TASK_RUNNING (ex_two <| hvf_curr := Some 1%nat |>) 3.
Definition ex_lone : kstate := ex_state TASK_RUNNING (ex_empty <| hvf_curr := Some 1%nat |>) 1.
Definition ex_blocking : kstate := ex_state TASK_INTERRUPTIBLE (ex_two <| hvf_curr := Some 1%nat |>) 3.
Definition ex_dead : kstate := ex_state TASK_DEAD (ex_two <| hvf_curr := Some 1%nat |>) 3.
Definition ex_unrecorded : kstate := ex_state TASK_INTERRUPTIBLE ex_two 3.
Definition ex_boot : kstate := ex_state TASK_RUNNING (init_hvf_rq ex_empty) 0.

Lemma ex_invs :
  hvf_inv ex_busy ∧ hvf_inv ex_lone ∧ hvf_inv ex_blocking ∧ hvf_inv ex_dead ∧ hvf_inv ex_unrecorded.
Proof. split_and!; apply hvf_invb_sound; vm_compute; reflexivity. Qed.

(** Task 4 may run on both CPUs. *)
Lemma ex_selectable : selectable ex_busy (ex_task 0 hvf_sched_class TASK_INTERRUPTIBLE 40 false).
Proof.
  split; [cbn; unfold H; lia|cbn; lia|reflexivity| |by eexists].
  intros c Hc. change (mask_cpus _) with [0; 1] in Hc.
  apply elem_of_cons in Hc as [->|Hc]; [by eexists|].
  apply list_elem_of_singleton in Hc as ->. by eexists.
Qed.

Lemma ex_currs_alive : currs_alive ex_busy.
Proof.
  intros c r. cbn. intros [[<- <-]|[_ [<- <-]%lookup_singleton_Some]]%lookup_insert_Some; by eexists.
Qed.

Lemma ex_asleep :
  asleep_on ex_busy 0 4 (ex_rq 1 0 (ex_two <| hvf_curr := Some 1%nat |>) 3)
    (ex_task 0 hvf_sched_class TASK_INTERRUPTIBLE 40 false).
Proof.
  split; [apply ex_invs|intros n; cbn; lia|apply ex_currs_alive|reflexivity..|discriminate| |reflexivity].
  split; cbn; unfold H; lia.
Qed.

Lemma ex_wakeable : wakeable ex_busy 4 (ex_task 0 hvf_sched_class TASK_INTERRUPTIBLE 40 false).
Proof.
  split; [apply ex_selectable|reflexivity|reflexivity|by eexists|].
  intros c e Hc. change (mask_cpus _) with [0; 1] in Hc.
  apply elem_of_cons in Hc as [->|Hc]; [reflexivity|]. by apply list_elem_of_singleton in Hc as ->.
Qed.

(** Task 1 is a deadline task that forks task 6. *)
Definition ex_dl_task : task_struct :=
  (ex_task 0 dl_sched_class TASK_RUNNING 0 false) <| policy := SCHED_DEADLINE |> <| normal_prio := -1 |> <| prio := -1 |>.
Definition ex_forking : kstate :=
  ex_busy <| k_tasks ::= <[6%nat := ex_dl_task]> |> <| k_tasks ::= <[1%nat := ex_dl_task]> |>.

(** * Tasks move between groups *)

(** Every task is in cgroup 7; no autogroups, no BPF scheduler. *)
#[export] Instance ex_move : MoveLib := {|
  task_css _ := 7%nat; autogroup_task_group _ tg := tg; other_change_group _ := None; scx_cgroup_move_task _ := skip;
  scx_cgroup_can_attach _ := mret 0; scx_cgroup_finish_attach := skip; scx_cgroup_cancel_attach _ := skip; sched_rt_can_attach _ _ := true
|}.
#[export] Instance ex_move_laws : MoveLaws ex_move.
Proof. by split. Qed.

Definition ex_links : group_links := {| gl_group := ∅; gl_entity := ∅ |}.
Definition ex_on_rq (t : task_struct) : task_struct := t <| on_rq := TASK_ON_RQ_QUEUED |>.
(** CPU 0 runs task 1, of value 50; tasks 2 and 3 wait with the values 30 and 70. *)
Definition ex_moving : kstate := ex_busy <| k_tasks ::= alter ex_on_rq 1%nat |> <| k_tasks ::= alter ex_on_rq 2%nat |> <| k_tasks ::= alter ex_on_rq 3%nat |>.
Definition ex_task2 : task_struct := ex_on_rq (ex_task 0 hvf_sched_class TASK_RUNNING 30 true).

Lemma sched_move_task_hvf_witness :
  wp (sched_move_task 2 false ex_links) ex_moving (λ gs' s', hvf_inv s' ∧ gl_group gs' !! 2%nat = Some 7%nat ∧ 2%nat ∈ queue_of s' 0).
Proof.
  eapply wp_mono; [apply (sched_move_task_hvf ex_moving 2 (ex_rq 1 0 (ex_two <| hvf_curr := Some 1%nat |>) 3) ex_task2 false ex_links)|].
  - apply hvf_invb_sound. vm_compute. reflexivity.
  - intros n. cbn. lia.
  - vm_compute. reflexivity.
  - vm_compute. reflexivity.
  - reflexivity.
  - split; cbn; unfold H; lia.
  - reflexivity.
  - cbn. lia.
  - vm_compute. discriminate.
  - split; [intros _|intros _; reflexivity]. apply (bool_decide_unpack _). vm_compute. exact I.
  - intros gs' s' (Hi&_&_&Hq&Hg&_). split_and!; [exact Hi|by rewrite Hg|].
    change (cpu ex_task2) with 0 in Hq. rewrite Hq. cbn [task_on_rq_queued]. apply elem_of_ins. by left.
Defined.

(** The running task, which the class does not dequeue, is put into the tree and then given a
    new value there: it is no longer the running entity, the tree is not sorted, and the task
    picked next is not one of greatest value. *)
Lemma move_running_task_misplaced :
  ∃ gs s', sched_move_task 1 false ex_links ex_moving = Ok (gs, s') ∧ queue_of s' 0 = [2; 1; 3]%nat ∧
    (hvf_curr ∘ rq_hvf <$> k_rqs s' !! 0) = Some None ∧ value_of s' 1 = 100 ∧ value_of s' 3 = 70 ∧
    ∃ s'', pick_task_hvf 0 s' = Ok (Some 3%nat, s'').
Proof.
  assert (match sched_move_task 1 false ex_links ex_moving with
    | Ok (_, s') => bool_decide (queue_of s' 0 = [2; 1; 3]%nat) && bool_decide ((hvf_curr ∘ rq_hvf <$> k_rqs s' !! 0) = Some None) &&
        (value_of s' 1 =? 100) && (value_of s' 3 =? 70) && match pick_task_hvf 0 s' with Ok (Some 3%nat, _) => true | _ => false end
    | Oops _ => false end = true) as Hr by (vm_compute; reflexivity).
  destruct (sched_move_task 1 false ex_links ex_moving) as [[gs s']|]; [|done]. exists gs, s'. split; [done|].
  rewrite !andb_true_iff, !bool_decide_eq_true, !Z.eqb_eq in Hr. destruct Hr as [[[[? ?] ?] ?] Hp]. split_and!; [done..|].
  destruct (pick_task_hvf 0 s') as [[[[|[|[|[|]]]]|] ?]|]; try done. by eexists.
Qed.
