(* ===== verification/AffinityTrace.v ===== *)
(** A run of the affinity protocol in which a stopper meets a task that has moved and is
    switched out with migration disabled: a request completes although the task is not on
    a CPU of its mask, and the task later runs outside of it. *)
From S2P Require Import Prelude Rbtree KState HvfValue HvfClass HvfSmp Policy Uclamp Core Schedule Load Setsched Wakeup WakeupSpec Affinity AffinityInv AffinityProto AffinitySteps Example.

(** The state after an operation. *)
Definition run {A} (m : M A) (s : kstate) : kstate := match m s with Ok (_, s') => s' | Oops _ => s end.

(** CPU [c] takes the next step; it runs [who], and task 5 is now [f] of what it was. *)
Definition turn (c : Z) (who : tid) (f : task_struct → task_struct) (s : kstate) : kstate :=
  s <| k_cpu := c |> <| k_rqs ::= alter (λ r, r <| curr := who |>) c |> <| k_tasks ::= alter f 5%nat |>.

(** Task 5 runs on CPU 0, thread 6 on CPU 1; thread 7 sleeps.  Both masks are full. *)
Definition ex_aff : kstate := {|
  k_tasks := {[ 0%nat := ex_task 0 idle_sched_class TASK_RUNNING 0 false;
                10%nat := ex_task 1 idle_sched_class TASK_RUNNING 0 false;
                5%nat := (ex_task 0 fair_sched_class TASK_RUNNING 0 false)
                           <| on_rq := TASK_ON_RQ_QUEUED |> <| on_cpu := true |>;
                6%nat := ex_task 1 fair_sched_class TASK_RUNNING 0 false;
                7%nat := ex_task 1 fair_sched_class TASK_INTERRUPTIBLE 0 false ]};
  k_rqs := {[ 0 := ex_rq 5 0 ex_empty 1; 1 := ex_rq 6 10 ex_empty 1 ]};
  k_clock _ := {| tv_sec := 1000; tv_nsec := 0 |};
  k_reads := 0; k_cpu := 1; k_trace := []; k_uclamp := ex_globals false; k_pending := ∅; k_stops := [];
  k_core := ex_core_global; k_heads _ := ex_head
|}.

Definition ex_ctx (mask : Z) : affinity_context :=
  {| ac_new_mask := mask; ac_own := false; ac_user_mask := None; ac_flags := SCA_CHECK |}.

(** The setting, by computation. *)
Definition settingb (s : kstate) : bool :=
  forallb (λ c, bool_decide (is_Some (k_rqs s !! c))) [0; 1] &&
  forallb (λ '(_, r), bool_decide (is_Some (k_tasks s !! curr r))) (map_to_list (k_rqs s)) &&
  negb (sched_uclamp_used (k_uclamp s)).

Lemma settingb_sound s t :
  settingb s = true → k_tasks s !! 5%nat = Some t → sched_class t = fair_sched_class → setting s 5 t.
Proof.
  unfold settingb. rewrite !andb_true_iff, negb_true_iff. intros [[Hrq Hal] Huc] Ht Hcl. split; [by exists t| |..].
  - rewrite Hcl. apply ex_affinity_class.
  - intros c Hc. cbn in Hc. rewrite forallb_forall in Hrq. specialize (Hrq c).
    apply bool_decide_eq_true in Hrq; [done|]. cbn. lia.
  - intros c r Hr. rewrite forallb_forall in Hal. apply elem_of_map_to_list, list_elem_of_In, Hal in Hr.
    by apply bool_decide_eq_true in Hr.
  - done.
Qed.

(** A turn is a step of the rest of the scheduler when it moves the task as allowed;
    the task is on a run queue throughout. *)
Definition movesb (t t' : task_struct) : bool :=
  (cpus_mask t' =? cpus_mask t) && bool_decide (cpus_other t' = cpus_other t) &&
  (migration_disabled t' =? migration_disabled t) &&
  bool_decide (migration_pending t' = migration_pending t) && (t_flags t' =? t_flags t) &&
  ((cpu t' =? cpu t) || negb (on_cpu t) && (migration_disabled t =? 0) && (0 <=? cpu t') && (cpu t' <? nr_cpu_ids) &&
                        Z.testbit (cpus_ptr t) (cpu t')) &&
  (on_rq t =? TASK_ON_RQ_QUEUED) &&
  (on_cpu t' || (migration_disabled t' =? 0) || bool_decide (cpus_other t ≠ None)).

Lemma movesb_sound t t' : movesb t t' = true → env_moves t t'.
Proof.
  unfold movesb. rewrite !andb_true_iff, !orb_true_iff, !bool_decide_eq_true, !andb_true_iff, negb_true_iff, !Z.eqb_eq,
    Z.leb_le, Z.ltb_lt. intros [[[[[[[Hm Ho] Hd] Hp] Hf] Hc] Hq] Hs]. split; try done.
  - tauto.
  - intros _. left. left. rewrite Hq. discriminate.
  - intros Hoc Hdi. destruct Hs as [[Hs|Hs]|Hs]; [congruence|done|done].
Qed.

Definition turnb (c : Z) (who : tid) (f : task_struct → task_struct) (s : kstate) : bool :=
  match k_tasks s !! 5%nat with
  | Some t => movesb t (f t) && bool_decide (sched_class (f t) = fair_sched_class) && settingb (turn c who f s)
  | None => false
  end.

Lemma turn_env chase s cs c who f : turnb c who f s = true → aff_step chase 5 (s, cs) (turn c who f s, cs).
Proof.
  unfold turnb. destruct (k_tasks s !! 5%nat) as [t|] eqn:Ht; [|done].
  rewrite !andb_true_iff, bool_decide_eq_true. intros [[Hm Hcl] Hs]. apply step_env. split; [|done|done].
  exists t, (f t). assert (k_tasks (turn c who f s) !! 5%nat = Some (f t)) as Ht'.
  { cbn. by rewrite lookup_alter_eq, Ht. }
  split_and!; [done|done|by apply movesb_sound|]. by apply settingb_sound.
Qed.

Lemma ex_aff_start : aff_start 5 ex_aff.
Proof.
  split; [|done]. eexists. split; [reflexivity|]. split; [by apply settingb_sound|].
  split_and!; try done. split; [split; [by right|done]|done].
Qed.

(** * The run *)

Definition keep (t : task_struct) : task_struct := t.
Definition off (t : task_struct) : task_struct := t <| on_cpu := false |>.
Definition on1 (t : task_struct) : task_struct := t <| cpu := 1 |> <| on_cpu := true |>.

(** Thread 6 asks for CPU 1 while task 5 runs on CPU 0. *)
Definition tr1 := run (set_cpus_allowed_start 5 (ex_ctx 2)) ex_aff.
(** Task 5 is preempted, pulled by CPU 1 and runs there, before the stopper of CPU 0
    has run; it disables migration and is switched out. *)
Definition tr2 := turn 0 0 off tr1.
Definition tr3 := turn 1 5 on1 tr2.
Definition tr4 := run migrate_disable tr3.
Definition tr5 := run (migrate_disable_switch 1 5) tr4.
Definition tr6 := turn 1 7 off tr5.
(** Thread 7 asks for CPU 0 and joins the request. *)
Definition tr7 := run (set_cpus_allowed_start 5 (ex_ctx 1)) tr6.
(** The stopper of CPU 0 runs at last. *)
Definition tr8 := turn 0 0 keep tr7.
Definition tr9 := run (migration_cpu_stop_locked 5 0 (Some 6%nat)) (tr8 <| k_stops := [] |>).
(** Both threads return, and task 5 ends its region. *)
Definition tr10 := run (affine_woken 6) tr9.
Definition tr11 := run (affine_woken 6) tr10.
Definition tr12 := turn 1 5 on1 tr11.
Definition tr13 := run migrate_enable tr12.

Definition task5 (s : kstate) : option (bool * Z * Z * Z * option tid) :=
  t ← k_tasks s !! 5%nat;
  Some (on_cpu t, cpu t, cpus_mask t, migration_disabled t, migration_pending t).

(** Computing one step of the run. *)
Definition the5 (s : kstate) : task_struct :=
  default (ex_task 0 fair_sched_class TASK_RUNNING 0 false) (k_tasks s !! 5%nat).
Ltac step_op := lazymatch goal with
  | |- runs _ _ => eexists; split; vm_compute; reflexivity
  | |- stopper_here _ _ => split; [right; vm_compute; reflexivity|vm_compute; by intros]
  | |- _ = _ => vm_compute; reflexivity
  | |- _ ∨ _ => right; vm_compute; reflexivity
  | |- _ => vm_compute; done
  end.

Lemma tr_request6 chase : aff_step chase 5 (ex_aff, ∅) (tr1, {[6%nat := CWait 6]}).
Proof. apply (step_set chase 5 ex_aff ∅ 6 (the5 ex_aff) (ex_ctx 2) (Waits 6) (ex_ctx 2) tr1); step_op. Qed.
Lemma tr_move1 cs : aff_step true 5 (tr1, cs) (tr2, cs).
Proof. apply turn_env. vm_compute. reflexivity. Qed.
Lemma tr_move2 cs : aff_step true 5 (tr2, cs) (tr3, cs).
Proof. apply turn_env. vm_compute. reflexivity. Qed.
Lemma tr_disable cs : cs !! 5%nat = None → aff_step true 5 (tr3, cs) (tr4, cs).
Proof. intros. apply (step_disable true 5 tr3 cs (the5 tr3) tr4); [step_op|done|step_op..]. Qed.
Lemma tr_switch cs : aff_step true 5 (tr4, cs) (tr5, cs).
Proof. apply (step_switch true 5 tr4 cs (the5 tr4) tr5); step_op. Qed.
Lemma tr_off cs : aff_step true 5 (tr5, cs) (tr6, cs).
Proof. apply turn_env. vm_compute. reflexivity. Qed.
Lemma tr_request7 cs :
  cs !! 7%nat = None → aff_step true 5 (tr6, cs) (tr7, <[7%nat := CWait 6]> cs).
Proof.
  intros. apply (step_set true 5 tr6 cs 7 (the5 tr6) (ex_ctx 1) (Waits 6) (ex_ctx 1) tr7); [step_op|done|step_op..].
Qed.
Lemma tr_turn cs : aff_step true 5 (tr7, cs) (tr8, cs).
Proof. apply turn_env. vm_compute. reflexivity. Qed.
Definition ex_request : affinity_pending :=
  {| ap_refs := 2; ap_stop_pending := true; ap_done := false; ap_task := 5; ap_dest_cpu := 0 |}.
Lemma tr_stop cs : aff_step true 5 (tr8, cs) (tr9, cs).
Proof.
  apply (step_stop true 5 tr8 cs 0 [] [] 6 ex_request (the5 tr8) tr9); [step_op..|done|step_op].
Qed.
Lemma tr_run cs : aff_step true 5 (tr11, cs) (tr12, cs).
Proof. apply turn_env. vm_compute. reflexivity. Qed.
Lemma tr_enable cs : cs !! 5%nat = None → aff_step true 5 (tr12, cs) (tr13, cs).
Proof. intros. apply (step_enable true 5 tr12 cs (the5 tr12) tr13); [step_op|done|step_op..]. Qed.
Lemma tr_woken6 cs : cs !! 6%nat = Some (CWait 6) → aff_step true 5 (tr9, cs) (tr10, <[6%nat := CDrain]> cs).
Proof.
  intros. apply (step_woken true 5 tr9 cs 6 6 (ex_request <| ap_stop_pending := false |> <| ap_done := true |>) tr10);
    [done|step_op..].
Qed.
Lemma tr_woken7 cs : cs !! 7%nat = Some (CWait 6) → aff_step true 5 (tr10, cs) (tr11, <[7%nat := CDrain]> cs).
Proof.
  intros. apply (step_woken true 5 tr10 cs 7 6
    (ex_request <| ap_refs := 1 |> <| ap_stop_pending := false |> <| ap_done := true |>) tr11); [done|step_op..].
Qed.
Lemma tr_return6 cs : cs !! 6%nat = Some CDrain → aff_step true 5 (tr11, cs) (tr11, delete 6%nat cs).
Proof.
  intros. apply (step_return true 5 tr11 cs 6
    (ex_request <| ap_refs := 0 |> <| ap_stop_pending := false |> <| ap_done := true |>)); [done|step_op..].
Qed.
Lemma tr_return7 cs : cs !! 7%nat = Some CDrain → aff_step true 5 (tr11, cs) (tr11, delete 7%nat cs).
Proof. intros. apply (step_return true 5 tr11 cs 7 zero_pending); [done|step_op..]. Qed.

(** The run up to the request of thread 7, and to its end. *)
Lemma tr_to_requests : rtc (aff_step true 5) (ex_aff, ∅) (tr7, <[7%nat := CWait 6]> {[6%nat := CWait 6]}).
Proof.
  eapply rtc_l; [apply tr_request6|]. eapply rtc_l; [apply tr_move1|]. eapply rtc_l; [apply tr_move2|].
  eapply rtc_l; [by apply tr_disable|]. eapply rtc_l; [apply tr_switch|]. eapply rtc_l; [apply tr_off|].
  eapply rtc_l; [by apply tr_request7|]. constructor.
Qed.
Lemma tr_to_end : rtc (aff_step true 5) (tr7, <[7%nat := CWait 6]> {[6%nat := CWait 6]}) (tr13, ∅).
Proof.
  eapply rtc_l; [apply tr_turn|]. eapply rtc_l; [apply tr_stop|]. eapply rtc_l; [by apply tr_woken6|].
  eapply rtc_l; [by apply tr_woken7|]. eapply rtc_l; [by apply tr_return6|]. eapply rtc_l; [by apply tr_return7|].
  eapply rtc_l; [apply tr_run|]. eapply rtc_l; [by apply tr_enable|]. constructor.
Qed.

(** [migration_cpu_stop] tests [p->cpus_ptr] where the task has moved; for a task
    switched out with migration disabled this is its current CPU, so the request is
    completed whatever the new mask is.  From a quiet start, two threads change the mask
    of a task, the second to CPU 0, and both return success; the task then runs on CPU 1
    with migration enabled, its mask is CPU 0 alone, and no request is left to move it. *)
Theorem affinity_chase_misses_mask :
  aff_start 5 ex_aff ∧
  ∃ s' t, rtc (aff_step true 5) (ex_aff, ∅) (s', ∅) ∧ k_tasks s' !! 5%nat = Some t ∧
    on_cpu t = true ∧ cpu t = 1 ∧ migration_disabled t = 0 ∧ Z.testbit (cpus_mask t) (cpu t) = false ∧
    migration_pending t = None ∧ k_stops s' = [].
Proof.
  split; [apply ex_aff_start|]. exists tr13, (the5 tr13).
  split; [etrans; [apply tr_to_requests|apply tr_to_end]|]. repeat (split; [vm_compute; reflexivity|]). vm_compute. reflexivity.
Qed.
