(* ===== verification/ExampleCore.v ===== *)
(** The example system with core scheduling: both CPUs are threads of one core, led by
    CPU 0, where two HVF tasks with a cookie wait. *)
From S2P Require Import Prelude Rbtree KState HvfValue HvfClass HvfInv HvfOps HvfSpec HvfSmp Policy Uclamp Core Schedule SchedSpec Load Setsched Wakeup WakeupSpec Affinity Balance CoreSched CoreSchedSpec CoreSelect CoreSwitch Hotplug HotplugParts HotplugInv Example.

#[export] Instance ex_hotplug : HotplugLib := {| rcuwait_active _ _ := false; rcuwait_wake_up _ := skip |}.

(** Unbalanced insertion, and a search that walks the tree in order. *)
Fixpoint plain_rb_add (less : tid → tid → bool) (e : tid) (t : rbtree) : rbtree :=
  match t with
  | RbNull => RbNode RB_RED RbNull e RbNull
  | RbNode c l x r => if less e x then RbNode c (plain_rb_add less e l) x r else RbNode c l x (plain_rb_add less e r)
  end.
#[export] Instance ex_corelib : CoreLib := {|
  rb_add := plain_rb_add; rb_find_first cmp t := head (filter (λ e, cmp e = 0) (inorder t));
  cpu_smt_mask _ := 3; cpu_is_offline _ := false; sched_domain_spans _ := [3];
  other_is_throttled _ := None; task_vruntime_update _ _ _ := skip; sched_core_account_forceidle _ := skip;
  dl_deadline_of _ := 0; dl_server_deadline _ := 0; cfs_prio_less _ _ _ := false; scx_prio_less _ _ _ := false;
  schedstat_enabled := false; rq_clock _ _ := 0
|}.

Lemma plain_rb_add_inorder less e t : ∃ l1 l2,
  inorder t = l1 ++ l2 ∧ inorder (plain_rb_add less e t) = l1 ++ e :: l2 ∧
  (∀ x, last l1 = Some x → less e x = false) ∧ (∀ x, head l2 = Some x → less e x = true).
Proof.
  induction t as [|c l IHl x r IHr]; cbn; [by exists [], []|]. destruct (less e x) eqn:Hx; cbn.
  - destruct IHl as (l1&l2&Hl&->&H1&H2). exists l1, (l2 ++ x :: inorder r). rewrite Hl, <-!app_assoc. split_and!; [done..|].
    intros y. destruct l2; cbn; [by intros [= <-]|apply H2].
  - destruct IHr as (l1&l2&Hr&->&H1&H2). exists (inorder l ++ x :: l1), l2. rewrite Hr, <-!app_assoc. split_and!; [done..| |done].
    intros y. destruct l1 as [|z l1 _] using rev_ind; [rewrite last_snoc; by intros [= <-]|].
    rewrite app_comm_cons, app_assoc, last_snoc. intros [= <-]. apply H1. by rewrite last_snoc.
Qed.
#[export] Instance ex_corelib_laws : CoreLibLaws ex_corelib.
Proof. split; [apply plain_rb_add_inorder|done]. Qed.

(** * Deciding the trees *)

Definition treesb (s : kstate) : bool :=
  forallb (λ '(c, r), let l := inorder (core_tree (core_data r)) in
    bool_decide (NoDup l) && sortedb (cookie_of s) l &&
    forallb (λ p, match k_tasks s !! p with
                  | Some t => (cpu t =? c) && core_enqueued t && negb (core_cookie t =? 0)
                  | None => false
                  end) l &&
    forallb (λ '(p, t), negb ((cpu t =? c) && core_enqueued t) || bool_decide (p ∈ l)) (map_to_list (k_tasks s)))
  (map_to_list (k_rqs s)).

Lemma treesb_sound s : treesb s = true → trees_ok s.
Proof.
  unfold treesb. rewrite forallb_forall. intros Hall c r Hr.
  apply elem_of_map_to_list, list_elem_of_In, Hall in Hr. rewrite !andb_true_iff, bool_decide_eq_true, !forallb_forall in Hr.
  destruct Hr as [[[Hnd Hs] Ht] Ha]. split; [done|by apply sortedb_sound in Hs|..].
  - intros p Hp%list_elem_of_In%Ht. destruct (k_tasks s !! p) as [t|]; [|done]. exists t. split; [done|].
    destruct (core_enqueued t); lia.
  - intros p t Htk Hc He. apply elem_of_map_to_list, list_elem_of_In, Ha in Htk. rewrite Hc, Z.eqb_refl, He in Htk.
    by apply bool_decide_eq_true in Htk.
Qed.

(** * States *)

Definition with_cookie (k : Z) (t : task_struct) : task_struct := t <| core_cookie := k |> <| core_enqueued := true |>.
Definition ex_smt : kstate :=
  ex_busy <| k_tasks ::= alter (with_cookie 7) 2%nat |> <| k_tasks ::= alter (with_cookie 7) 3%nat |>
    <| k_rqs ::= alter (λ r, r <| core_data ::= λ k, k <| core_tree := RbNode RB_BLACK RbNull 2 (RbNode RB_RED RbNull 3 RbNull) |> |>) 0 |>.

Lemma ex_smt_trees : trees_ok ex_smt.
Proof. apply treesb_sound. vm_compute. reflexivity. Qed.
Lemma ex_smt_rqs i r : k_rqs ex_smt !! i = Some r →
  (i = 0 ∨ i = 1) ∧ core (core_data r) = 0 ∧ (∃ t, k_tasks ex_smt !! idle r = Some t ∧ cpu t = i) ∧ is_Some (k_tasks ex_smt !! curr r).
Proof.
  intros Hr. assert (i = 0 ∨ i = 1) as Hi.
  { unfold ex_smt in Hr. cbn in Hr. destruct (decide (i = 0)) as [->|Hne]; [auto|]. rewrite lookup_alter_ne in Hr by congruence.
    rewrite lookup_insert_ne in Hr by congruence. apply lookup_singleton_Some in Hr as [<- _]. auto. }
  destruct Hi as [-> | ->]; vm_compute in Hr; injection Hr as <-; (split_and!; [auto|reflexivity|by eexists|by eexists]).
Qed.
Lemma ex_smt_setting : core_setting ex_smt [0; 1] 0.
Proof.
  split; [apply ex_smt_trees|..].
  - intros i Hi. assert (is_Some (k_rqs ex_smt !! i)) as [r Hr].
    { apply elem_of_cons in Hi as [->|Hi]; [by eexists|]. apply list_elem_of_singleton in Hi as ->. by eexists. }
    split; [exists r; split; [done|by apply (ex_smt_rqs i r Hr)]|by eexists].
  - intros i r _ Hr. by apply (ex_smt_rqs i r Hr).
  - intros i r _ Hr. by apply (ex_smt_rqs i r Hr).
Qed.
Lemma ex_smt_inv : hvf_core_inv ex_smt.
Proof. split; [apply hvf_invb_sound; vm_compute; reflexivity|]. intros i r Hr. by apply (ex_smt_rqs i r Hr). Qed.

Lemma ex_picks_ok : picks_ok hvf_core_inv.
Proof.
  apply hvf_picks_ok.
  - intros cl Hne Hcl. eexists. split; [reflexivity|]. intros i s [_ Hid] [r Hr]. cbn.
    unfold mbind, M_bind, cpu_rq. rewrite Hr. eexists. split; [reflexivity|]. intros q.
    destruct (decide (cl = idle_sched_class)); [|done]. intros [= <-]. by apply Hid.
  - vm_compute. set_solver.
  - eexists. split; [reflexivity|]. intros i s r Hr. cbn. unfold mbind, M_bind, cpu_rq. by rewrite Hr.
Qed.
Lemma ex_vruntime_quiet : vruntime_quiet.
Proof. intros i p b s _ _. by apply wp_skip. Qed.

(** * Hotplug *)

(** CPU 1 has no tick of its own; a rebuild leaves the one root domain as it is. *)
#[export] Instance ex_hplib : HpLib := {|
  core_threads _ := 3; dl_bw_deactivate _ _ := 0; cpuset_reset_domains := id; cpuset_rebuild_flag := id; cpuset_update_domains := id;
  class_has_rq_online _ := false; class_has_rq_offline _ := false; housekeeping_cpu c := c =? 0; tick_nohz_tick_stopped_cpu _ := true;
  calc_load_fold_active r a adjust := (nr_running r - adjust - a, nr_running r - adjust); tick_delta _ _ := 0
|}.
Lemma id_rebuilds : rebuilds id.
Proof. split; [|intros h c q ? ?; by exists q; auto]. intros h. exists (h_rqs h), (h_rds h). by destruct h. Qed.
Lemma ex_possible c : possible c ↔ c = 0 ∨ c = 1.
Proof.
  unfold possible. change (mask_cpus cpu_possible_mask) with [0; 1]. rewrite !elem_of_cons, elem_of_nil. tauto.
Qed.
#[export] Instance ex_hplaws : HpLaws.
Proof.
  split; try apply id_rebuilds; [|done|].
  - intros c [-> | ->]%ex_possible; done.
  - intros c k. apply wp_skip. by split.
Qed.

(** CPU 1 is in use if [b], else off line. *)
Definition ex_hp_k (b : bool) : kstate :=
  ex_smt <| k_rqs ::= alter (λ r, r <| balance_callback := if b then None else Some balance_push_callback |>
                                    <| core_data ::= λ k, k <| core := if b then 0 else 1 |> |>) 1 |>
    <| k_rqs ::= alter (λ r, r <| balance_callback := None |>) 0 |>
    <| k_heads := λ _, {| bc_next := None; bc_func := balance_push_fn |} |>.
Definition ex_hp_rq (on : bool) : hp_rq :=
  {| rq_online := on; rq_rd := Some 0%nat; rq_calc_load_update := 0; rq_calc_load_active := 0; rq_hrtick_active := false |}.
Definition ex_hp (b : bool) : hstate := {|
  h_k := ex_hp_k b; h_rqs := {[ 0 := ex_hp_rq true; 1 := ex_hp_rq b ]};
  h_rds := {[ 0%nat := {| rd_span := 3; rd_online := if b then 3 else 1 |} ]};
  h_ticks := {[ 0 := {| tw_state := TICK_SCHED_REMOTE_OFFLINE; tw_pending := false; tw_run := 0; tw_requeue := 0 |};
                1 := {| tw_state := if b then TICK_SCHED_REMOTE_RUNNING else TICK_SCHED_REMOTE_OFFLINE; tw_pending := b; tw_run := 0; tw_requeue := 0 |} ]};
  h_online := if b then 3 else 1; h_active := if b then 3 else 1; h_smt_present := if b then 1 else 0;
  cpuhp_tasks_frozen := true; num_cpus_frozen := 0; sched_smp_initialized := true;
  h_calc_load_update := 0; h_calc_load_tasks := 0; h_log := []
|}.
Lemma ex_hp_online (b : bool) c : Z.testbit (if b then 3 else 1) c = true → c = 0 ∨ b = true ∧ c = 1.
Proof.
  intros Hc. destruct (decide (c < 0)); [by rewrite Z.testbit_neg_r in Hc|]. destruct (decide (c < 2)) as [Hlt|Hge].
  - assert (c = 0 ∨ c = 1) as [-> | ->] by lia; [auto|]. destruct b; [auto|done].
  - destruct b; rewrite Z.bits_above_log2 in Hc by (cbn; lia); done.
Qed.
Lemma ex_hp_inv (b : bool) : hp_inv (ex_hp b, None).
Proof.
  split; cbn [fst snd ex_hp h_online h_active h_smt_present in_use h_k h_ticks h_log]; [|done|done| | | | |].
  - intros c Hc%ex_hp_online. apply ex_possible. tauto.
  - destruct b; vm_compute; reflexivity.
  - intros c [-> | ->]%ex_possible; destruct b; (eexists; split; [reflexivity|]; split; [|done]); exists 0%nat; eexists; split_and!; reflexivity.
  - split; [|done]. intros c [-> | ->]%ex_possible; destruct b; done.
  - split.
    + intros c Hc Ho%ex_hp_online. exists 0. split; [|done]. destruct b.
      * change (threads_in 3 (core_threads c)) with [0; 1]. split; [set_solver|]. intros i Hi. rewrite !elem_of_cons, elem_of_nil in Hi.
        destruct Hi as [->|[->|[]]]; reflexivity.
      * change (threads_in 1 (core_threads c)) with [0]. split; [set_solver|]. intros i ->%list_elem_of_singleton. reflexivity.
    + intros c [-> | ->]%ex_possible; destruct b; done.
  - split; [intros c [-> | ->]%ex_possible; by eexists|]. intros c w Hw. apply lookup_insert_Some in Hw as [[<- <-]|[_ Hw]]; [destruct b; (split; [reflexivity|vm_compute; auto])|].
    apply lookup_singleton_Some in Hw as [<- <-]. destruct b; (split; [reflexivity|vm_compute; auto]).
Qed.

(** What a step leaves. *)
Definition op_result (op : hp_op) (x : hstate * option Z) : option (hstate * option Z) :=
  match run_op op x.2 x.1 with Ok (mid, h) => Some (h, mid) | Oops _ => None end.
Lemma op_result_step op x x' : op_result op x = Some x' → may_run op x.1 x.2 → hp_step x x'.
Proof.
  destruct x as [h mid]. unfold op_result. cbn. destruct (run_op op mid h) as [[mid' h']|] eqn:He; [|done]. intros [= <-] Hm. by eapply hp_step_op.
Qed.
(** The results of two steps, tested. *)
Lemma two_results op1 op2 x (P : hstate * option Z → hstate * option Z → bool) :
  (x1 ← op_result op1 x; x2 ← op_result op2 x1; Some (P x1 x2)) = Some true → ∃ x1 x2, op_result op1 x = Some x1 ∧ op_result op2 x1 = Some x2 ∧ P x1 x2 = true.
Proof.
  destruct (op_result op1 x) as [x1|]; [|done]. cbn. destruct (op_result op2 x1) as [x2|] eqn:H2; [|done]. intros [= HP]. eauto.
Qed.

(** CPU 1 comes up: the core has two threads, and going down again it prints nothing. *)
Lemma hotplug_invariant_witness : ∃ x : hstate * option Z, rtc hp_step (ex_hp false, None) x ∧ hp_inv x ∧ h_smt_present x.1 = 1 ∧
  ∃ mid h', run_op (op_deactivate 1) x.2 x.1 = Ok (mid, h') ∧ warnings h' = warnings x.1 ++ [].
Proof.
  destruct (two_results (op_start 1) (op_activate 1) (ex_hp false, None) (λ x1 x2, bool_decide (x1.2 = Some 1) && (h_smt_present x2.1 =? 1) &&
    bool_decide (x2.2 = None) && Z.testbit (h_online x2.1) 1))
    as (x1&x2&H1&H2&Hp); [vm_compute; reflexivity|]. rewrite !andb_true_iff, !bool_decide_eq_true, Z.eqb_eq in Hp. destruct Hp as [[[Hm Hs] Hn] Ho].
  assert (rtc hp_step (ex_hp false, None) x2) as Hrun.
  { eapply rtc_l; [apply (op_result_step _ _ _ H1)|apply rtc_once, (op_result_step _ _ _ H2); exact Hm]. split; [done|]. split; [|reflexivity].
    apply ex_possible. by right. }
  destruct (hotplug_invariant (ex_hp false, None) x2 (op_deactivate 1) (ex_hp_inv false) Hrun) as [Hi Hr].
  exists x2. split; [exact Hrun|]. split; [exact Hi|]. split; [exact Hs|]. apply Hr. split; [exact Hn|exact Ho].
Defined.

(** Suspend takes CPU 1 out of use, and resume brings it back. *)
Lemma suspend_resume_witness : ∃ x x' : hstate * option Z, num_cpus_frozen x.1 = 1 ∧ num_cpus_frozen x'.1 = 0 ∧
  cpuset_calls x'.1 = cpuset_calls x.1 ++ [call_cpuset_reset; call_cpuset_force_rebuild; call_cpuset_update].
Proof.
  set (x0 := (ex_hp true, None : option Z)).
  destruct (two_results (op_deactivate 1) (op_activate 1) x0 (λ x1 x2, bool_decide (x1.2 = Some 1) && (num_cpus_frozen x1.1 =? 1) &&
    cpuhp_tasks_frozen x1.1 && (cpus_in_use x1 =? 1) && (cpus_in_use x2 =? 2))) as (x1&x2&H1&H2&Hp); [vm_compute; reflexivity|].
  rewrite !andb_true_iff, bool_decide_eq_true, !Z.eqb_eq in Hp. destruct Hp as [[[[Hm Hn] Hf] Hu1] Hu2]. assert (cpus_in_use x0 = 2) as Hu0 by reflexivity.
  assert (hp_step x0 x1) as S1 by (apply (op_result_step _ _ _ H1); by split). assert (hp_step x1 x2) as S2 by (by apply (op_result_step _ _ _ H2)).
  exists x1, x2. split; [exact Hn|].
  refine (proj2 (proj2 (suspend_resume x0 x1 x2 (ex_hp_inv true) eq_refl eq_refl _ _)) S2 Hf _ _); [reflexivity|apply rtc_once; split_and!; [exact S1|reflexivity|lia]|lia|lia].
Defined.
