(* ===== verification/ExampleGroups.v ===== *)
(** A small tree of groups, on which the witnesses evaluate and on which three corners of
    the cgroup files are shown. *)
From S2P Require Import Prelude Rbtree KState HvfValue HvfClass HvfSmp Policy Uclamp Core Load TaskGroup TaskGroupSpec BandwidthSpec CgroupSpec.
From Stdlib Require Import Ascii.

Definition ex_grouplib (dfl : bool) : GroupLib :=
  {| __refill_cfs_bandwidth_runtime := λ b, [cb_quota b]; start_cfs_bandwidth := cb_data;
     unthrottle_cfs_rq := λ q, q <| throttled := false |>; cgroup_on_dfl := dfl; group_cpus := [0; 1] |}.

Definition ex_limit (quota hq : Z) : cfs_bandwidth :=
  {| cb_period := 100000000; cb_quota := quota; cb_burst := 0; hierarchical_quota := hq; cb_data := [] |}.
Definition ex_group (p : option nat) (cs : list nat) (b : cfs_bandwidth) : task_group :=
  {| tg_parent := p; tg_children := cs; tg_bandwidth := b; tg_cfs_rq := ∅; tg_shares := scale_load 1024 |}.

(** The root, a group without limit and below it one with half a CPU. *)
Definition ex_groups : groups :=
  {| tgs := {[0%nat := ex_group None [1%nat] (ex_limit RUNTIME_INF (-1));
              1%nat := ex_group (Some 0%nat) [2%nat] (ex_limit RUNTIME_INF (-1));
              2%nat := ex_group (Some 1%nat) [] (ex_limit 50000000 524288)]};
     cfs_bandwidth_used := 1 |}.
Definition ex_tree : tg_tree := TGNode 0 [TGNode 1 [TGNode 2 []]].

Lemma ex_groups_dom i : is_Some (tgs ex_groups !! i) ↔ i = 0%nat ∨ i = 1%nat ∨ i = 2%nat.
Proof.
  split; [|intros [Hi|[Hi|Hi]]; subst i; by eexists].
  intros [g Hg]. unfold ex_groups in Hg. cbn [tgs] in Hg.
  do 2 (apply lookup_insert_Some in Hg as [[<- _]|[_ Hg]]; [by auto|]). apply lookup_singleton_Some in Hg as [<- _]. by auto.
Qed.
Lemma ex_groups_tree : group_tree ex_tree (tgs ex_groups).
Proof.
  split; [|done|done|by apply (bool_decide_unpack _)|].
  - repeat first [apply linked_node|apply Forall_cons; split|apply Forall_nil_2|reflexivity|by apply (bool_decide_unpack _)].
  - intros i. rewrite ex_groups_dom. unfold ex_tree. cbn. rewrite !elem_of_cons, elem_of_nil. tauto.
Qed.
Lemma ex_groups_range : limits_range (tgs ex_groups).
Proof.
  intros i g Hg. assert (i = 0 ∨ i = 1 ∨ i = 2)%nat as Hi by (apply ex_groups_dom; eauto).
  destruct Hi as [Hi|[Hi|Hi]]; subst i; injection Hg as <-; (split; [split; by vm_compute|]); first [left; reflexivity|right; split; by vm_compute].
Qed.
Lemma ex_groups_usage : usage_ok ex_groups.
Proof. reflexivity. Qed.
Lemma ex_groups_hierarchy dfl : let _ := ex_grouplib dfl in hierarchy_ok (tgs ex_groups).
Proof.
  intros GL i Hi%ex_groups_dom. destruct Hi as [Hi|[Hi|Hi]]; subst i; eexists; (split; [reflexivity|]); cbn [tg_parent ex_group].
  - reflexivity.
  - eexists. split; [reflexivity|]. by destruct dfl.
  - eexists. split; [reflexivity|]. by destruct dfl.
Qed.

(** A limit that a descendant's forbids is refused in the first version of the hierarchy,
    but the groups visited before the descendant keep the hierarchical quota of the
    refused limit. *)
Theorem refused_limit_leaves_quota :
  let _ := ex_grouplib false in
  hierarchy_ok (tgs ex_groups) ∧
  ∃ st', tg_set_cfs_quota 1 10000 ex_groups = Some (- EINVAL, st') ∧ ¬ hierarchy_ok (tgs st') ∧
         hquota <$> tgs st' !! 1%nat = Some 104857.
Proof.
  intros GL. split; [apply ex_groups_hierarchy|]. eexists. split_and!; [vm_compute; reflexivity| |vm_compute; reflexivity].
  intros Hh. destruct (Hh 1%nat) as (g&Hg&Hq); [by eexists|]. vm_compute in Hg. injection Hg as <-.
  cbn in Hq. destruct Hq as (gp&Hgp&Hq). vm_compute in Hgp. injection Hgp as <-. vm_compute in Hq. done.
Qed.

(** A number of microseconds too large for 64 bits of nanoseconds is refused by
    [cpu.cfs_quota_us], but accepted by [cpu.max], as about two milliseconds. *)
Definition huge_us : Z := 18446744073711552.
Theorem cpu_max_wraps :
  let _ := ex_grouplib true in
  (∃ st', cpu_cfs_quota_write_s64 1 huge_us ex_groups = Some (- EINVAL, st')) ∧
  ∃ st', cpu_max_write 1 (print_long huge_us) ex_groups = Some (17, st') ∧
         cb_quota ∘ tg_bandwidth <$> tgs st' !! 1%nat = Some 2000384.
Proof. intros GL. split; eexists; [|split]; vm_compute; reflexivity. Qed.

Lemma update_root {UC : UclampConfig} parent g ts :
  ∃ g' ts' updated, cpu_util_update_eff parent (CGNode g ts) = (CGNode g' ts', updated) ∧ tc_req g' = tc_req g ∧ tc_pct g' = tc_pct g.
Proof. rewrite update_node. cbn zeta. destruct (_ && _); by repeat eexists. Qed.

(** The exact percentage is kept because the conversion rounds; but from 99.96 on the file
    shows "max" in its place. *)
Theorem uclamp_percent_hidden {UC : UclampConfig} parse parent id buf g ts :
  parse (strim buf) = (0, 9996) → strim buf ≠ str_max →
  ∃ g' ts' updated, cpu_uclamp_write parse parent id buf (CGNode g ts) = (Z.of_nat (length buf), CGNode g' ts', updated) ∧
    tc_pct g' id = 9996 ∧ cpu_uclamp_print id g' = str_max ++ [ascii_of_nat 10].
Proof.
  intros Hp Hm. unfold cpu_uclamp_write, capacity_from_percent. rewrite (bool_decide_false _ Hm), Hp. cbn [negb Z.eqb].
  change (UCLAMP_PERCENT_SCALE <? u64 9996) with false. cbn [ureq_ret ureq_util ureq_percent Z.eqb negb].
  change (DIV_ROUND_CLOSEST_ULL _ _) with 1024.
  match goal with |- context [cpu_util_update_eff parent (CGNode ?x ts)] => destruct (update_root parent x ts) as (g'&ts'&u&->&Hr&Hpc) end.
  exists g', ts', u. rewrite Hpc. split; [done|]. cbn. rewrite decide_True by done. split; [done|].
  unfold cpu_uclamp_print. rewrite Hr. cbn.
  assert (uc_value (tc_req (if uc_value (tc_req g id) =? 1024 then g
    else g <| tc_req := set_clamp id (uclamp_se_set 1024 false (tc_req g id)) (tc_req g) |>) id) = 1024) as Hv.
  { destruct (Z.eqb_spec (uc_value (tc_req g id)) 1024); [done|]. cbn. unfold set_clamp. by rewrite decide_True. }
  by rewrite Hv.
Qed.
