(* ===== verification/ExampleFork.v ===== *)
(** A system of three processes: processes 1 and 2 are threads of one group, process 5 has
    its own memory and shares the open files with them.  Process 1 runs and forks;
    and the theorems on process creation there. *)
From S2P Require Import Prelude Rbtree KState HvfValue HvfClass HvfSmp Policy Uclamp Core Schedule Load Setsched Wakeup Affinity Fork ForkSched ForkBuild ForkSpec Unshare Example.

#[export] Instance ex_proclib : ProcLib := {|
  exit_files p := pr ← new_proc p; fmodify (λ s, s <| ps_files := drop_ref (pr_files pr) (ps_files s) |>);;
                  upd_new p (λ pr, pr <| pr_files := None |>);
  exit_fs p := pr ← new_proc p; fmodify (λ s, s <| ps_fs := drop_ref (pr_fs pr) (ps_fs s) |>);;
               upd_new p (λ pr, pr <| pr_fs := None |>);
  wait_for_vfork _ := mret false
|}.
#[export] Instance ex_proclaws : ProcLaws ex_proclib.
Proof.
  split; intros p s pr Hp; cbn; unfold upd_new, new_proc, fmodify, mbind, F_bind; cbn; rewrite Hp; cbn; by rewrite Hp.
Qed.
#[export] Instance ex_sched_fork : SchedFork.
Proof. apply sched_fork_interface. by split; [..|by intros []]. Qed.

(** A process of group [g], with the given structures. *)
Definition ex_proc (num tgid_ : Z) (leader : tid) (files fs sighand signal mm : nat) (sig : Z) : proc := {|
  pr_files := Some files; pr_fs := Some fs; pr_sighand := Some sighand; pr_signal := Some signal; pr_mm := Some mm;
  pr_active_mm := Some mm; pr_io_context := false; pr_pid := num; pr_tgid := tgid_; pr_group_leader := leader;
  pr_real_parent := 0; pr_exit_signal := sig; pr_parent_exec_id := 0; pr_self_exec_id := 0; pr_set_child_tid := 0;
  pr_clear_child_tid := 0; pr_vfork_done := None
|}.
Definition ex_p1 := ex_proc 100 100 1 0 0 0 0 0 SIGCHLD.
Definition ex_p2 := ex_proc 101 100 1 0 0 0 0 0 (-1).
Definition ex_p5 := ex_proc 200 200 5 0 1 1 1 1 SIGCHLD.
Definition ex_sig (n : Z) : signal_struct :=
  {| sig_nr_threads := n; sig_quick_threads := n; sig_live := n; sig_sigcnt := n; sig_flags := 0 |}.

Definition ex_ps (k : kstate) : pstate := {|
  ps_k := k; ps_procs := <[1%nat := ex_p1]> (<[2%nat := ex_p2]> (<[5%nat := ex_p5]> ∅)); ps_new := ∅;
  ps_files := {[0%nat := 3]}; ps_fs := {[0%nat := 2; 1%nat := 1]}; ps_in_exec := ∅;
  ps_sighand := {[0%nat := 2; 1%nat := 1]}; ps_mm := {[0%nat := 2; 1%nat := 1]};
  ps_signal := {[0%nat := ex_sig 2; 1%nat := ex_sig 1]};
  ps_held := ∅; ps_nr_threads := 3; ps_max_threads := 100; ps_total_forks := 10; ps_processes := 2
|}.
Definition ex_noext : ext_refs := {| x_files _ := 0; x_fs _ := 0; x_sighand _ := 0; x_mm _ := 0 |}.

Lemma exact_empty ref : exact ref (λ _, 0) ∅ ∅.
Proof. by intros f. Qed.
(** A shared and a new reference. *)
Lemma exact_share ref procs m m' p pr f n :
  exact ref (λ _, 0) procs m → procs !! p = None → ref pr = Some f → m !! f = Some n → m' = get_ref f m →
  exact ref (λ _, 0) (<[p := pr]> procs) m'.
Proof.
  intros He Hp Hr Hf ->. eapply (exact_taken _ _ _ m _ _ _ true (Some f)); [done| | |done].
  - by rewrite Hr.
  - intros f' [= <-]. by exists n.
Qed.
Lemma exact_new ref procs m m' p pr f :
  exact ref (λ _, 0) procs m → procs !! p = None → ref pr = Some f → m !! f = None → m' = <[f := 1]> m →
  exact ref (λ _, 0) (<[p := pr]> procs) m'.
Proof. intros He Hp Hr Hf ->. eapply (exact_taken _ _ _ m _ _ _ false None); [done|by rewrite Hr|done|done]. Qed.

Lemma ex_lookup q pr : <[1%nat := ex_p1]> (<[2%nat := ex_p2]> (<[5%nat := ex_p5]> (∅ : gmap tid proc))) !! q = Some pr →
  q = 1%nat ∧ pr = ex_p1 ∨ q = 2%nat ∧ pr = ex_p2 ∨ q = 5%nat ∧ pr = ex_p5.
Proof.
  intros [[<- <-]|[_ [[<- <-]|[_ [[<- <-]|[_ Hq]]%lookup_insert_Some]]%lookup_insert_Some]]%lookup_insert_Some; auto.
  by rewrite lookup_empty in Hq.
Qed.

Ltac ex_share m f n := apply (exact_share _ _ m _ _ _ f n); [|reflexivity..].
Ltac ex_new m f := apply (exact_new _ _ m _ _ _ f); [|reflexivity..].
Ltac ex_pair := ex_share ({[0%nat := 1; 1%nat := 1]} : gmap nat Z) 0%nat 1; ex_new ({[1%nat := 1]} : gmap nat Z) 0%nat; ex_new (∅ : gmap nat Z) 1%nat; apply exact_empty.

Lemma ex_processes_ok k : processes_ok ex_noext (ex_ps k).
Proof.
  split; cbn [ex_noext ex_ps x_files x_fs x_sighand x_mm ps_procs ps_files ps_fs ps_sighand ps_mm].
  - ex_share ({[0%nat := 2]} : gmap nat Z) 0%nat 2. ex_share ({[0%nat := 1]} : gmap nat Z) 0%nat 1. ex_new (∅ : gmap nat Z) 0%nat. apply exact_empty.
  - ex_pair.
  - ex_pair.
  - ex_pair.
  - by intros q pr [[-> ->]|[[-> ->]|[-> ->]]]%ex_lookup.
  - intros q pr [[-> ->]|[[-> ->]|[-> ->]]]%ex_lookup; (eexists; split; [reflexivity|by eexists]).
  - cbn. intros sig g [[<- <-]|[_ [<- <-]%lookup_singleton_Some]]%lookup_insert_Some; reflexivity.
  - by intros q1 q2 pr1 pr2 [[-> ->]|[[-> ->]|[-> ->]]]%ex_lookup [[-> ->]|[[-> ->]|[-> ->]]]%ex_lookup.
  - by intros q1 q2 pr1 pr2 [[-> ->]|[[-> ->]|[-> ->]]]%ex_lookup [[-> ->]|[[-> ->]|[-> ->]]]%ex_lookup.
  - intros q pr [[-> ->]|[[-> ->]|[-> ->]]]%ex_lookup; eexists; (split_and!; [reflexivity|done|done]).
Qed.

Lemma ex_caller : caller (ex_ps ex_busy) 1 ex_p1.
Proof.
  split.
  - by eexists.
  - done.
  - eexists. split; [reflexivity|]. unfold prio_ok. cbn. unfold MAX_RT_PRIO, NICE_WIDTH. lia.
  - cbn. set_solver.
  - cbn. set_solver.
Qed.

(** Everything outside succeeds; [deny] makes the last check of the fork fail. *)
Definition ex_env (deny : bool) : fork_env := {|
  env_same_pid_ns := true; env_sigpending := false; env_dup_task := true; env_creds := 0; env_overlimit := false;
  env_init_user := false; env_capable _ := false; env_kthread := true; env_mempolicy := 0; env_perf := 0; env_audit := 0;
  env_security := 0; env_semundo := 0; env_dup_fd := 0; env_copy_fs := true; env_sighand := true; env_signal := true;
  env_dup_mm := true; env_namespaces := 0; env_io := 0; env_io_context := true; env_thread := 0; env_pid := 300;
  env_pidfd := 7; env_put_user := 0; env_cgroup := 0; env_pidns_dying := false; env_fatal_signal := deny;
  env_child_reaper := false; env_vnr := 300
|}.
Definition ex_args (fl : Z) : kernel_clone_args := no_args <| ka_flags := fl |> <| ka_exit_signal := SIGCHLD |>.
Definition run_or {A} (m : F A) (s : pstate) : pstate := match m s with Ok (_, s') => s' | Oops _ => s end.
Definition result_of {A} (m : F A) (s : pstate) : option A := match m s with Ok (a, _) => Some a | Oops _ => None end.

(** A fork that shares only the open files makes task 11, with one more reference to the
    files and structures of its own. *)
Example fork_sharing_files :
  let s := run_or (copy_process (ex_env false) false (ex_args CLONE_FILES)) (ex_ps ex_busy) in
  result_of (copy_process (ex_env false) false (ex_args CLONE_FILES)) (ex_ps ex_busy) = Some (inr 11%nat) ∧
  ps_files s = {[0%nat := 4]} ∧ ps_fs s = {[0%nat := 2; 1%nat := 1; 2%nat := 1]} ∧
  ps_mm s = {[0%nat := 2; 1%nat := 1; 2%nat := 1]} ∧ ps_nr_threads s = 4 ∧
  (pr_tgid <$> ps_procs s !! 11%nat) = Some 300.
Proof. vm_compute. split_and!; reflexivity. Qed.

(** Credentials and namespaces are prepared, and the count of the user's processes is then
    refused: the error is returned with the namespaces still held. *)
Definition ex_refused : unshare_env := {|
  ue_group_empty := true; ue_single_threaded := true; ue_copy_fs := true; ue_dup_fd := 0; ue_userns := 0; ue_new_cred := true;
  ue_nsproxy := 0; ue_new_nsproxy := true; ue_ucounts := - EAGAIN
|}.
Theorem unshare_leaks_namespaces :
  result_of (ksys_unshare ex_refused (Z.lor CLONE_NEWUSER CLONE_NEWNET)) (ex_ps ex_busy) = Some (- EAGAIN) ∧
  ps_held (run_or (ksys_unshare ex_refused (Z.lor CLONE_NEWUSER CLONE_NEWNET)) (ex_ps ex_busy)) = {[(1%nat, res_new_namespaces)]} ∧
  ps_fs (run_or (ksys_unshare ex_refused (Z.lor CLONE_NEWUSER CLONE_NEWNET)) (ex_ps ex_busy)) = ps_fs (ex_ps ex_busy).
Proof. vm_compute. split_and!; reflexivity. Qed.

(** * Process creation there *)

(** A fork that the last check refuses, and one that makes a child. *)
Lemma copy_process_all_or_nothing_witness :
  (∃ s, copy_process (ex_env true) false (ex_args CLONE_FILES) (ex_ps ex_busy) = Ok (inl (- EINTR), s) ∧ restored (ex_ps ex_busy) 1 s) ∧
  (∃ s pr, copy_process (ex_env false) false (ex_args CLONE_FILES) (ex_ps ex_busy) = Ok (inr 11%nat, s) ∧
    created (ex_env false) (ex_args CLONE_FILES) (ex_ps ex_busy) 1 ex_p1 11 pr s).
Proof.
  assert (result_of (copy_process (ex_env true) false (ex_args CLONE_FILES)) (ex_ps ex_busy) = Some (inl (- EINTR))) as Ht
    by (vm_compute; reflexivity).
  assert (result_of (copy_process (ex_env false) false (ex_args CLONE_FILES)) (ex_ps ex_busy) = Some (inr 11%nat)) as Hf
    by (vm_compute; reflexivity).
  unfold result_of in Ht, Hf. split.
  - destruct (copy_process_all_or_nothing (ex_env true) (ex_args CLONE_FILES) ex_noext (ex_ps ex_busy) 1 ex_p1
      (ex_processes_ok _) ex_caller) as (r&s&Hr&Hp); [done|done|]. rewrite Hr in Ht. injection Ht as ->. exists s. split; [exact Hr|exact (proj2 Hp)].
  - destruct (copy_process_all_or_nothing (ex_env false) (ex_args CLONE_FILES) ex_noext (ex_ps ex_busy) 1 ex_p1
      (ex_processes_ok _) ex_caller) as (r&s&Hr&Hp); [done|done|]. rewrite Hr in Hf. injection Hf as ->. destruct Hp as [pr Hp].
    exists s, pr. split; [exact Hr|exact Hp].
Defined.

(** The child of a thread that becomes a thread of the same group. *)
Definition ex_thread_flags : Z := flags [CLONE_VM; CLONE_FS; CLONE_FILES; CLONE_SIGHAND; CLONE_THREAD].
Lemma copy_process_keeps_processes_witness :
  ∃ s, copy_process (ex_env false) false (ex_args ex_thread_flags) (ex_ps ex_busy) = Ok (inr 11%nat, s) ∧ processes_ok ex_noext s.
Proof.
  assert (result_of (copy_process (ex_env false) false (ex_args ex_thread_flags)) (ex_ps ex_busy) = Some (inr 11%nat)) as Hf
    by (vm_compute; reflexivity).
  unfold result_of in Hf.
  destruct (copy_process (ex_env false) false (ex_args ex_thread_flags) (ex_ps ex_busy)) as [[r s]|] eqn:Hr; [|done].
  injection Hf as ->. exists s. split; [reflexivity|].
  apply (copy_process_keeps_processes (ex_env false) (ex_args ex_thread_flags) ex_noext (ex_ps ex_busy) 1 ex_p1 (inr 11%nat) s);
    [apply ex_processes_ok|apply ex_caller|done|done|exact Hr].
Defined.

(** The stack of 64 kB at 65536. *)
Lemma clone_is_clone3_witness :
  sys_clone3 (λ _ _, true) (ex_env false) (inr (clone3_of (Z.lor CLONE_VM SIGCHLD) 4096 8192 0 65536 65536)) None CLONE_ARGS_SIZE_VER2 =
  sys_clone (ex_env false) (Z.lor CLONE_VM SIGCHLD) 131072 4096 8192 0.
Proof.
  apply (clone_is_clone3 (λ _ _, true) (ex_env false) (Z.lor CLONE_VM SIGCHLD) 131072 4096 8192 0 65536 65536).
  - reflexivity.
  - discriminate.
  - reflexivity.
  - right. done.
Defined.

(** The open files, and with the mount namespace the file system structure, become the
    caller's own; the threads it shares its signals with keep it from unsharing those. *)
Definition ex_permit : unshare_env := {|
  ue_group_empty := false; ue_single_threaded := false; ue_copy_fs := true; ue_dup_fd := 0; ue_userns := 0; ue_new_cred := false;
  ue_nsproxy := 0; ue_new_nsproxy := false; ue_ucounts := 0
|}.
Lemma ksys_unshare_all_or_nothing_witness :
  (∃ s, ksys_unshare ex_permit (Z.lor CLONE_FILES CLONE_NEWNS) (ex_ps ex_busy) = Ok (0, s) ∧ processes_ok ex_noext s ∧
    private pr_files ps_files 1 s ∧ private pr_fs ps_fs 1 s) ∧
  ksys_unshare ex_permit CLONE_SIGHAND (ex_ps ex_busy) = Ok (- EINVAL, ex_ps ex_busy).
Proof.
  split; [|vm_compute; reflexivity].
  assert (result_of (ksys_unshare ex_permit (Z.lor CLONE_FILES CLONE_NEWNS)) (ex_ps ex_busy) = Some 0) as Hf by (vm_compute; reflexivity).
  destruct (ksys_unshare_all_or_nothing ex_permit ex_noext (ex_ps ex_busy) 1 ex_p1 (Z.lor CLONE_FILES CLONE_NEWNS) (ex_processes_ok _) ex_caller)
    as (err&s&Hr&Hok&_&Hp); [cbn; set_solver|split; done|]. unfold result_of in Hf. rewrite Hr in Hf. injection Hf as ->.
  exists s. destruct Hp as (_&Hfs&Hfd&_). split; [exact Hr|]. split; [exact Hok|]. split; [apply Hfd|apply Hfs]; reflexivity.
Defined.

(** A machine of 16 GB. *)
Lemma max_threads_bounds_witness :
  (MIN_THREADS <= max_threads_for 4194304 16384 MAX_THREADS <= MAX_THREADS) ∧ max_threads_for 4194304 16384 MAX_THREADS = 131072.
Proof. split; [exact (proj1 (max_threads_bounds 4194304 16384 MAX_THREADS ltac:(lia)))|reflexivity]. Defined.
