(* ===== verification/ExampleCid.v ===== *)
(** Concurrency ids: an encoding, a run in which tasks get and release ids, and one in which
    two threads reclaim the id of the same CPU at once. *)
From S2P Require Import Prelude Interleave MmCid MmCidLogic MmCidAlloc MmCidSafe MmCidSolo.

(** The encoding of a 32-bit int: -1 is no id, the top bit is the flag. *)
#[export] Instance cid_int : CidLib := {|
  MM_CID_UNSET := -1;
  mm_cid_is_unset v := v =? -1;
  mm_cid_is_lazy_put v := negb (v =? -1) && Z.testbit v 31;
  mm_cid_is_valid v := negb (Z.testbit v 31);
  mm_cid_set_lazy_put v := Z.lor v (-2147483648);
  mm_cid_clear_lazy_put v := Z.land v 2147483647;
  cid_limit := 4; nr_cpu_ids := 4; scan_delay_jiffies := 100;
|}.
#[export] Instance cid_int_laws : CidLaws cid_int.
Proof.
  assert (∀ P : Z → Prop, P 0 → P 1 → P 2 → P 3 → ∀ n, is_id n → P n) as Hall.
  { intros P ???? n [Hl Hh]. cbn in Hh. assert (n = 0 ∨ n = 1 ∨ n = 2 ∨ n = 3) as [->|[->|[->| ->]]] by lia; done. }
  split.
  - intros v. cbn. apply Z.eqb_eq.
  - done.
  - apply Hall; done.
  - apply Hall; vm_compute; repeat split; done.
  - apply Hall; done.
  - done.
Qed.

(** Three CPUs that run their idle tasks 10, 11 and 12. *)
Definition cid_start : cid_mem := {|
  cm_cid := λ _, -1; cm_recent := λ _, -1; cm_time := λ _, 0; cm_clock := λ _, 0; cm_curr := λ c, 10 + c; cm_prev := λ _, None;
  cm_active := λ _, false; cm_mm_cid := λ _, -1; cm_last := λ _, -1; cm_from := λ _, -1; cm_mask := ∅; cm_max := 0; cm_allowed := 3;
  cm_users := 2; cm_use_lock := false; cm_cid_lock := None; cm_jiffies := 1000; cm_scan := 1; cm_lock := ∅; cm_mark := ∅ |}.
Definition cid_cpus : list Z := [0; 1; 2].
Definition whole (i : nat) (o : operation) (n : nat) : list move := Begin i o :: repeat (Do i) n ++ [End i].
Lemma cid_start_fresh : fresh_mm cid_cpus cid_start.
Proof. split; try done. intros c c' _ _. cbn. lia. Qed.
Definition cid_config : config := {| cf_mem := cid_start; cf_pool := ∅ |}.

(** Decisions about the state a run ends in. *)
Definition runs_b (s : config) (c : Z) : bool :=
  bool_decide (c ∈ cid_cpus) && bool_decide (cm_lock (cf_mem s) !! c = None) && cm_active (cf_mem s) (cm_curr (cf_mem s) c).
Lemma runs_b_spec s c : runs_b s c = true → runs cid_cpus (cf_mem s) c.
Proof. intros [[H1%bool_decide_eq_true H2%bool_decide_eq_true]%andb_true_iff H3]%andb_true_iff. by split_and!. Qed.
Definition done_b (s : config) : bool := match map_to_list (cf_pool s) with [] => true | _ => false end.
Lemma done_b_spec s : done_b s = true → cf_pool s = ∅.
Proof. unfold done_b. destruct (map_to_list (cf_pool s)) eqn:He; [|done]. intros _. by apply map_to_list_empty_iff. Qed.
Definition ends (b : bool) (mvs : list move) (f : config → bool) : bool :=
  match run cid_cpus b mvs cid_config with Some s => f s | None => false end.
Lemma ends_spec b mvs f : ends b mvs f = true → ∃ s, run cid_cpus b mvs cid_config = Some s ∧ f s = true.
Proof. unfold ends. destruct (run cid_cpus b mvs cid_config) as [s|]; [eauto|done]. Qed.

(** Task 1 runs on CPU 0 and task 2 on CPU 1. *)
Definition cid_demo : list move := [Fork 1; Fork 2] ++ whole 0 (op_switch 0 1) 21 ++ whole 0 (op_switch 1 2) 21.
Lemma cid_demo_ends : ∃ s, run cid_cpus true cid_demo cid_config = Some s ∧ (runs_b s 0 && runs_b s 1 && done_b s) = true.
Proof. apply ends_spec. vm_compute. reflexivity. Qed.

Lemma concurrency_ids_unique_witness :
  ∃ s, run cid_cpus true cid_demo cid_config = Some s ∧ task_cid (cf_mem s) 0 ≠ task_cid (cf_mem s) 1.
Proof.
  destruct cid_demo_ends as (s&Hr&[[H0 H1]%andb_true_iff _]%andb_true_iff). exists s. split; [exact Hr|].
  apply (concurrency_ids_unique cid_cpus cid_demo cid_start s 0 1 cid_start_fresh Hr (runs_b_spec s 0 H0)); [by apply runs_b_spec|lia].
Defined.
Lemma concurrency_ids_conserved_witness :
  ∃ s, run cid_cpus true cid_demo cid_config = Some s ∧ (1 ∈ cm_mask (cf_mem s) ↔ is_id 1 ∧ ∃ c, caches (cf_mem s) c 1).
Proof.
  destruct cid_demo_ends as (s&Hr&[_ Hd]%andb_true_iff). exists s. split; [exact Hr|].
  apply (concurrency_ids_conserved cid_cpus cid_demo cid_start s 1 cid_start_fresh Hr (done_b_spec s Hd)).
Defined.

Lemma mm_cid_get_alone_witness : ∃ n m', alone (exec cid_cpus false) 0 (mm_cid_get 0) cid_start n m' ∧ cm_cid m' 0 = n ∧ 0 <= n < 3.
Proof.
  destruct (mm_cid_get_alone cid_cpus 0 0 cid_start) as (n&m'&Hs&Hc&_&Hn); [|done|by left|].
  - split_and!; [done|done|done|done|by intros c; left|]. exists 0. split; [cbn; lia|]. cbn. set_solver.
  - exists n, m'. split; [exact Hs|]. split; [exact Hc|]. cbn in Hn. lia.
Defined.

(** Two threads flag the id of CPU 0.  The first (5) has seen the CPU idle; then the CPU
    takes task 1 and allocates its id again; the second (6) flags it, sees the task, and
    leaves the flag; the first finds the flag as it left it and releases the id in use. *)
Definition cid_race : list move :=
  cid_demo ++ whole 0 (op_exit 1) 7 ++ whole 0 (op_switch 1 11) 3 ++ whole 0 (op_switch 0 10) 7 ++
  [Fork 3; Outside (λ _, 1000000000) 1000 3 2; Begin 5 (op_work false)] ++ repeat (Do 5) 11 ++
  [Outside (λ _, 1000000000) 2000 3 2; Begin 6 (op_work false)] ++ repeat (Do 6) 7 ++
  whole 0 (op_switch 0 1) 19 ++ repeat (Do 6) 4 ++ repeat (Do 5) 2 ++ whole 0 (op_switch 2 3) 23.
(** The threads 1 and 3 of the map run at the same time with the same id. *)
Theorem concurrency_ids_race :
  ∃ s, run cid_cpus false cid_race cid_config = Some s ∧ runs cid_cpus (cf_mem s) 0 ∧ runs cid_cpus (cf_mem s) 2 ∧
       task_cid (cf_mem s) 0 = task_cid (cf_mem s) 2.
Proof.
  destruct (ends_spec false cid_race (λ s, runs_b s 0 && runs_b s 2 && (task_cid (cf_mem s) 0 =? task_cid (cf_mem s) 2)))
    as (s&Hr&[[H0 H2]%andb_true_iff He%Z.eqb_eq]%andb_true_iff); [vm_compute; reflexivity|].
  exists s. split_and!; [exact Hr|by apply runs_b_spec|by apply runs_b_spec|exact He].
Qed.
