(* ===== verification/ExampleLife.v ===== *)
(** Concurrent parts at work.  Task groups: a group is released while a walk has come to it; groups below groups;
    all are freed in the end.  Kernel stacks: a stack is used again; two tasks at once; the
    end of all.  Run-queue locks of two cores. *)
From S2P Require Import Prelude KState Interleave RqLock RqLockLogic RqLockSafe TgLife TgLogic TgTree StackCache StackSafe.

Definition got (g : Z) : alloc_outcome := {| ao_addr := g; ao_mem := true; ao_fair := true; ao_rt := true |}.
Definition all_visits : Z → Z := λ _, 0.
(** Thread 1 makes group 2 and takes it off the tree while the walk of thread 2 is about to
    visit it; thread 1 has begun to wait. *)
Definition walk_demo : list tg_move :=
  TgBegin 1 (use_cgroup root_group (got 2) 0) :: repeat (TgDo 1) 17 ++
  TgBegin 2 (use_walk all_visits all_visits) :: repeat (TgDo 2) 5 ++ repeat (TgDo 1) 7.
Definition waits_for_walk (s : tg_config) : bool :=
  match cf_pool s !! 1%nat, cf_pool s !! 2%nat with
  | Some (Act (GpWait t) _, _), Some (Act (Visit g) _, _) =>
      (g =? 2) && negb (gp_over t (cf_mem s)) && (gm_next (cf_mem s) (children root_group) =? children root_group)
  | _, _ => false
  end.
Definition ends_with (mvs : list tg_move) (P : tg_config → bool) : bool := match tg_run mvs tg_boot with Some s => P s | None => false end.
Lemma ends_with_run mvs P : ends_with mvs P = true → ∃ s, tg_run mvs tg_boot = Some s ∧ P s = true.
Proof. unfold ends_with. destruct (tg_run mvs tg_boot) as [s|]; [by exists s|done]. Qed.
Lemma waits_for_walk_spec s :
  waits_for_walk s = true → tg_next s 2 (Visit 2) ∧ gm_next (cf_mem s) (children root_group) = children root_group.
Proof.
  unfold waits_for_walk, tg_next. destruct (cf_pool s !! 1%nat) as [[[|[]|] ?]|]; try done.
  destruct (cf_pool s !! 2%nat) as [[[|[]|] ?]|]; try done. intros [[->%Z.eqb_eq _]%andb_true_iff ->%Z.eqb_eq]%andb_true_iff. by eauto.
Qed.
Lemma task_groups_memory_safe_witness :
  ∃ s, tg_run walk_demo tg_boot = Some s ∧ gm_next (cf_mem s) (children root_group) = children root_group ∧ 2 ∈ gm_alloc (cf_mem s) ∧ fair_usable 2 (cf_mem s).
Proof.
  destruct (ends_with_run walk_demo waits_for_walk) as (s&Hr&[Hn He]%waits_for_walk_spec); [by vm_compute|]. exists s.
  split; [exact Hr|]. split; [exact He|]. exact (task_groups_memory_safe walk_demo s 2 (Visit 2) Hr Hn).
Defined.

(** Group 3 below group 2, group 4 below the root. *)
Definition tree_demo : list tg_move :=
  TgBegin 1 (use_cgroup root_group (got 2) 0) :: repeat (TgDo 1) 17 ++
  TgBegin 2 (use_cgroup 2 (got 3) 0) :: repeat (TgDo 2) 17 ++ TgBegin 3 (use_autogroup (got 4)) :: repeat (TgDo 3) 13.
Definition two_below (s : tg_config) : bool :=
  (gm_next (cf_mem s) (children root_group) =? siblings 4) && (gm_next (cf_mem s) (siblings 4) =? siblings 2) &&
  (gm_next (cf_mem s) (children 2) =? siblings 3) && bool_decide (gm_lock (cf_mem s) = None).
Lemma task_groups_form_tree_witness :
  ∃ s tree cs, tg_run tree_demo tg_boot = Some s ∧ two_below s = true ∧ linked_tree (cf_mem s) tree cs ∧
    ring (gm_next (cf_mem s)) (gm_prev (cf_mem s)) task_groups (list_ <$> tree).
Proof.
  destruct (ends_with_run tree_demo two_below) as (s&Hr&Ht); [by vm_compute|].
  destruct (task_groups_form_tree tree_demo s Hr) as (tree&cs&Hl&Hring). exists s, tree, cs. split_and!; [exact Hr|exact Ht|exact Hl|].
  unfold two_below in Ht. apply andb_true_iff in Ht as [_ Ht]. apply bool_decide_eq_true in Ht. exact (proj1 (Hring Ht)).
Defined.

(** A failed allocation, then the whole life of groups of both kinds. *)
Definition life_demo : list tg_move :=
  TgBegin 1 (use_cgroup root_group {| ao_addr := 2; ao_mem := true; ao_fair := false; ao_rt := true |} 0) :: repeat (TgDo 1) 8 ++
  TgEnd 1 :: TgBegin 1 (use_cgroup root_group (got 2) 0) :: repeat (TgDo 1) 29 ++
  TgEnd 1 :: TgBegin 2 (use_autogroup (got 4)) :: repeat (TgDo 2) 18 ++
  TgEnd 2 :: TgBegin 3 (use_rcu 2) :: repeat (TgDo 3) 5 ++
  TgEnd 3 :: TgBegin 3 (use_rcu 4) :: repeat (TgDo 3) 4 ++ TgEnd 3 :: TgBegin 3 (use_rcu 4) :: repeat (TgDo 3) 5 ++ [TgEnd 3].
Definition all_quiet (s : tg_config) : bool := match map_to_list (cf_pool s) with [] => bool_decide (gm_rcu (cf_mem s) = ∅) | _ => false end.
Lemma task_groups_not_leaked_witness : ∃ s, tg_run life_demo tg_boot = Some s ∧ gm_alloc (cf_mem s) = {[root_group]}.
Proof.
  destruct (ends_with_run life_demo all_quiet) as (s&Hr&Hq); [by vm_compute|]. exists s. split; [exact Hr|]. unfold all_quiet in Hq.
  destruct (map_to_list (cf_pool s)) eqn:Hp; [|discriminate]. apply map_to_list_empty_iff in Hp. apply bool_decide_eq_true in Hq.
  exact (proj1 (task_groups_not_leaked life_demo s Hr Hp Hq)).
Defined.

(** * Kernel stacks *)

Definition on0 (_ : Z) : Z := 0.
Definition task_on (s : Z) : stack_user := use_task on0 on0 (λ _, false) (Some s).
Definition stack_ends (mvs : list stack_move) (f : stack_config → bool) : bool :=
  match stack_run mvs stack_boot with Some s => f s | None => false end.
Lemma stack_ends_run mvs f : stack_ends mvs f = true → ∃ s, stack_run mvs stack_boot = Some s ∧ f s = true.
Proof. unfold stack_ends. destruct (stack_run mvs stack_boot) as [s|]; [|done]. intros. by exists s. Qed.

(** The task of thread 1 has lived on stack 16; that of thread 2 is about to start on it. *)
Definition reuse_demo : list stack_move :=
  StackBegin 1 (task_on 16) :: repeat (StackDo 1) 29 ++ [StackEnd 1; StackBegin 2 (task_on 32)] ++ repeat (StackDo 2) 12.
Definition starts_on_16 (s : stack_config) : bool :=
  match cf_pool s !! 2%nat with Some (Act (StartOn v) _, _) => v =? 16 | _ => false end.
Lemma starts_on_16_spec s : starts_on_16 s = true → stack_next s 2 (StartOn 16).
Proof. unfold starts_on_16, stack_next. destruct (cf_pool s !! 2%nat) as [[[|[]|] ?]|]; try done. intros ->%Z.eqb_eq. eauto. Qed.
Lemma stacks_memory_safe_witness :
  ∃ s, stack_run reuse_demo stack_boot = Some s ∧ sm_alloc (cf_mem s) !! 16 = Some stack_pages ∧ 16 ∉ sm_dirty (cf_mem s).
Proof.
  destruct (stack_ends_run reuse_demo starts_on_16) as (s&Hr&Ht); [by vm_compute|]. exists s. split; [exact Hr|].
  destruct (stacks_memory_safe reuse_demo s 2 (StartOn 16) Hr (starts_on_16_spec s Ht)) as (Ha&Hd&_). split; [exact Ha|exact Hd].
Defined.

(** Two tasks run, on the stacks 16 and 32; a third is about to be cached. *)
Definition two_demo : list stack_move :=
  StackBegin 1 (task_on 16) :: repeat (StackDo 1) 16 ++ StackBegin 2 (task_on 32) :: repeat (StackDo 2) 16 ++
  StackBegin 3 (task_on 48) :: repeat (StackDo 3) 29.
Definition two_run (s : stack_config) : bool :=
  bool_decide (sm_tasks (cf_mem s) !! 1%nat = Some 16) && bool_decide (sm_tasks (cf_mem s) !! 2%nat = Some 32) && (sm_cached (cf_mem s) 0 0 =? 48) && sm_online (cf_mem s) 0.
Lemma stacks_exclusive_witness :
  ∃ s, stack_run two_demo stack_boot = Some s ∧ two_run s = true ∧ ∀ t, sm_tasks (cf_mem s) !! t = Some 16 → t = 1%nat.
Proof.
  destruct (stack_ends_run two_demo two_run) as (s&Hr&Ht); [by vm_compute|]. exists s. split; [exact Hr|]. split; [exact Ht|].
  unfold two_run in Ht. rewrite !andb_true_iff, !bool_decide_eq_true in Ht. destruct Ht as [[[H1 _] _] _].
  destruct (stacks_exclusive two_demo s Hr) as [He _]. destruct (He 1%nat 16 H1) as (_&_&Hu&_). exact Hu.
Defined.

(** Three tasks at once fill the cache: the third stack is freed by its callback. *)
Definition leak_demo : list stack_move :=
  (StackBegin 1 (task_on 16) :: repeat (StackDo 1) 16) ++ (StackBegin 2 (task_on 32) :: repeat (StackDo 2) 16) ++
  (StackBegin 3 (task_on 48) :: repeat (StackDo 3) 16) ++ repeat (StackDo 1) 13 ++ repeat (StackDo 2) 15 ++ repeat (StackDo 3) 18 ++
  [StackEnd 1; StackEnd 2; StackEnd 3; StackBegin 4 (use_callback on0 48)] ++ repeat (StackDo 4) 8 ++ [StackEnd 4].
Definition all_done (s : stack_config) : bool :=
  match map_to_list (cf_pool s) with
  | [] => bool_decide (sm_rcu (cf_mem s) = ∅) && bool_decide (sm_alloc (cf_mem s) !! 48 = None) && (sm_cached (cf_mem s) 0 1 =? 32)
  | _ => false
  end.
Lemma all_done_spec s : all_done s = true → cf_pool s = ∅ ∧ sm_rcu (cf_mem s) = ∅ ∧ sm_cached (cf_mem s) 0 1 = 32.
Proof.
  unfold all_done. destruct (map_to_list (cf_pool s)) eqn:Hp; [|done]. apply map_to_list_empty_iff in Hp.
  rewrite !andb_true_iff, !bool_decide_eq_true, Z.eqb_eq. tauto.
Qed.
Lemma stacks_not_leaked_witness :
  ∃ s, stack_run leak_demo stack_boot = Some s ∧ is_Some (sm_alloc (cf_mem s) !! 32) ∧ ∀ v n, sm_alloc (cf_mem s) !! v = Some n → n = 0.
Proof.
  destruct (stack_ends_run leak_demo all_done) as (s&Hr&(Hp&Hq&Hc)%all_done_spec); [by vm_compute|]. exists s. split; [exact Hr|].
  destruct (stacks_not_leaked leak_demo s Hr Hp Hq) as [H1 H2]. split; [|intros v n Hv; exact (proj1 (H1 v n Hv))].
  rewrite <-Hc. apply H2. rewrite Hc. discriminate.
Defined.

(** * Run-queue locks on two cores of two threads and an offline CPU *)

#[export] Instance two_cores : Topology := {|
  core_of c := if (0 <=? c) && (c <? 4) then 2 * (c / 2) else c;
  smt_masks := [[0; 1]; [2; 3]];
  offline_cpus := [5];
  preemption := true;
|}.
Lemma two_cores_cases c : (c = 0 ∨ c = 1) ∧ core_of c = 0 ∨ (c = 2 ∨ c = 3) ∧ core_of c = 2 ∨ (c < 0 ∨ 4 <= c) ∧ core_of c = c.
Proof.
  cbn [core_of two_cores]. destruct (Z.leb_spec 0 c), (Z.ltb_spec c 4); cbn [andb]; [|lia..].
  assert (c = 0 ∨ c = 1 ∨ c = 2 ∨ c = 3) as [->|[->|[->| ->]]] by lia; cbv; lia.
Qed.
#[export] Instance two_cores_laws : TopologyLaws two_cores.
Proof.
  split.
  - intros c. pose proof (two_cores_cases c) as Hc. destruct Hc as [[_ ->]|[[_ ->]|[? ->]]]; [done|done|].
    pose proof (two_cores_cases c). lia.
  - intros smt Hs. cbn in Hs. rewrite !elem_of_cons in Hs. destruct Hs as [->|[->|Hs]]; [..|by apply elem_of_nil in Hs]; repeat constructor.
  - intros smt t c Hs Ht. cbn in Hs. pose proof (two_cores_cases c). pose proof (two_cores_cases t). rewrite !elem_of_cons in Hs.
    destruct Hs as [->|[->|Hs]]; [..|by apply elem_of_nil in Hs]; rewrite !elem_of_cons, elem_of_nil in *; lia.
  - intros c d Hc. cbn in Hc. rewrite elem_of_cons, elem_of_nil in Hc. destruct Hc as [->|[]]. pose proof (two_cores_cases d). pose proof (two_cores_cases 5). lia.
Qed.

Definition locks_start : lk_mem := {| lk_owner := ∅; lk_pi := ∅; lk_mutex := None; lk_key := false; lk_readers := ∅;
  lk_enabled := λ _, false; lk_cpu := λ _, 1; lk_on_rq := λ _, LK_QUEUED |}.
Lemma locks_start_fresh : fresh_locks locks_start.
Proof. by split. Qed.
Definition locks_config : lk_config := {| cf_mem := locks_start; cf_pool := ∅ |}.

(** Core scheduling is switched on; then task 7 is locked on CPU 1, by the lock of CPU 0,
    while another thread waits for run queue 0. *)
Definition locks_demo : list lk_move :=
  LkBegin 9 (use_core true) :: repeat (LkDo 9) 17 ++
  [LkEnd 9; LkBegin 0 (RqLock.use_task 7)] ++ repeat (LkDo 0) 10 ++ LkBegin 1 (use_rq 0) :: repeat (LkDo 1) 3.
Definition at_task (s : lk_config) : bool :=
  match cf_pool s !! 0%nat with Some (Act (TouchTask t c) _, _) => (t =? 7) && (c =? 1) | _ => false end.
Lemma at_task_spec s : at_task s = true → next_access s 0 (TouchTask 7 1) ∧ cf_pool s ≠ ∅.
Proof.
  unfold at_task, next_access. destruct (cf_pool s !! 0%nat) as [[p l]|] eqn:He; [|done]. destruct p as [|e k|]; try done. destruct e; try done.
  intros [->%Z.eqb_eq ->%Z.eqb_eq]%andb_true_iff. split; [by exists k, l|]. intros Hn. rewrite Hn, lookup_empty in He. done.
Qed.
Lemma locks_demo_ends : ∃ s, lk_run locks_demo locks_config = Some s ∧ at_task s = true.
Proof.
  assert ((match lk_run locks_demo locks_config with Some s => at_task s | None => false end) = true) as Hr by (vm_compute; reflexivity).
  destruct (lk_run locks_demo locks_config) as [s|]; [by exists s|done].
Qed.

Lemma run_queue_locks_exclusive_witness :
  ∃ s, lk_run locks_demo locks_config = Some s ∧ lk_cpu (cf_mem s) 7 = 1 ∧ (next_access s 1 (RqLock.Touch 1) → 0%nat = 1%nat).
Proof.
  destruct locks_demo_ends as (s&Hr&[Ht _]%at_task_spec). exists s. split; [exact Hr|].
  destruct (run_queue_locks_exclusive locks_demo locks_start s 0 1 locks_start_fresh Hr) as [_ Htask].
  destruct (Htask 7 1 Ht) as (Hc&_&Hj). split; [exact Hc|]. intros Hn. apply Hj. by left.
Defined.
Lemma run_queue_locks_progress_witness :
  ∃ s, lk_run locks_demo locks_config = Some s ∧ ∃ i s', lk_step (LkDo i) s = Some s' ∨ lk_step (LkEnd i) s = Some s'.
Proof.
  destruct locks_demo_ends as (s&Hr&[_ Hne]%at_task_spec). exists s. split; [exact Hr|].
  exact (run_queue_locks_progress locks_demo locks_start s locks_start_fresh Hr Hne).
Defined.
