(* ===== verification/ExampleMem.v ===== *)
(** A small memory: the map of the kernel and one map with four areas. *)
From stdpp Require Import gmultiset sorting.
From S2P Require Import Prelude Rbtree KState MemMap MemCopy MemFork MemUsers.

(** [exit_mmap] releases areas until the end or the mark; every file can be denied. *)
Fixpoint tree_areas (A : gmap nat vm_area_struct) (t : list mt_entry) : areas :=
  match t with
  | e :: t' => match mt_area e with
    | Some v => match A !! v with Some a => (v, a) :: tree_areas A t' | None => [] end
    | None => [] end
  | [] => []
  end.
Definition ex_exit_mmap (m : nat) : MM unit := λ s,
  match ms_mms s !! m with
  | None => Oops bad_pointer
  | Some mm =>
      let l := tree_areas (ms_areas s) (mm_mt mm) in
      if negb (mm_map_count mm =? Z.of_nat (length l)) then Oops kernel_bug else
      Ok (tt, s <| ms_mms := <[m := mm <| mm_mt := [] |>]> (ms_mms s) |> <| ms_areas := remove_areas l (ms_areas s) |>
                <| ms_refs := ms_refs s ∖ held l |> <| ms_committed := ms_committed s - sum_over area_charge l |>)
  end.
#[export] Instance ex_mm_lib : MmLib := {|
  exit_mmap := ex_exit_mmap;
  vm_stat_account mm f n := mm <| mm_total_vm := mm_total_vm mm + n |>;
  exe_file_deny_write_access f := take (file_denied f);; mret 0;
  path_equal := Nat.eqb; mmf_init_flags f := f; default_dump_filter := 0; VM_INIT_DEF_MASK := 0
|}.
Lemma tree_areas_split A l rest m :
  Forall (λ x, A !! x.1 = Some x.2 ∧ vm_mm x.2 = m) l → match rest with [] => True | e :: _ => mt_area e = None end →
  tree_areas A (map entry_of l ++ rest) = l.
Proof.
  intros Hl Hr. induction Hl as [|[v a] l [Hv _] _ IH]; cbn.
  - destruct rest as [|e rest]; [done|]. cbn. by rewrite Hr.
  - cbn in Hv. by rewrite Hv, IH.
Qed.
#[export] Instance ex_mm_laws : MmLaws ex_mm_lib.
Proof.
  split.
  - intros s m mm l rest R Hm Ht Hz [_ Ho] Hn _ HR. cbn [exit_mmap ex_mm_lib]. unfold ex_exit_mmap. rewrite Hm, Ht, (tree_areas_split _ _ _ m) by done.
    rewrite Hn, Z.eqb_refl. cbn [negb]. rewrite HR. by replace ((held l ⊎ R) ∖ held l) with R by multiset_solver.
  - intros mm f n. exists (mm_data_vm mm), (mm_exec_vm mm), (mm_stack_vm mm). by destruct mm.
  - intros f s. by exists 0.
Qed.

Definition ex_area (n : nat) (flags : Z) (file pol name : option nat) (anon : bool) : vm_area_struct :=
  {| vm_start := 0x10000 * Z.of_nat n; vm_end := 0x10000 * Z.of_nat n + 0x4000; vm_flags := flags; vm_mm := 1; vm_file := file;
     vm_policy := pol; vm_anon_vma := anon; vm_anon_name := name; vm_ops_open := false |}.
(** The text of file 5, a private area that is not copied, accounted data with a policy and a
    name, a shared writable mapping of file 6. *)
Definition ex_text := ex_area 1 0 (Some 5%nat) None None false.
Definition ex_dontcopy := ex_area 2 VM_DONTCOPY None None None true.
Definition ex_data := ex_area 3 (Z.lor VM_ACCOUNT VM_LOCKED) None (Some 8%nat) (Some 9%nat) true.
Definition ex_shared := ex_area 4 (Z.lor VM_SHARED VM_MAYWRITE) (Some 6%nat) None None false.
Definition ex_areas : areas := [(1, ex_text); (2, ex_dontcopy); (3, ex_data); (4, ex_shared)]%nat.
Definition ex_mm : mm_struct :=
  zero_mm <| mm_mt := map entry_of ex_areas |> <| mm_users := 1 |> <| mm_count := 1 |> <| mm_map_count := 4 |> <| mm_total_vm := 16 |>
    <| mm_exe_file := Some 5%nat |> <| mm_binfmt := Some 7%nat |>.
Definition ex_init_mm : mm_struct := zero_mm <| mm_users := 2 |> <| mm_count := 1 |>.
Definition ex_mem : mstate := {|
  ms_mms := {[init_mm := ex_init_mm; 1%nat := ex_mm]}; ms_areas := insert_areas ex_areas ∅;
  ms_refs := (mm_refs 1 ex_mm ⊎ held ex_areas) ⊎ mm_refs init_mm ex_init_mm; ms_committed := 4; ms_rcu := []; ms_work := [];
  ms_tasks := {[1%nat := {| mt_mm := Some 1%nat; mt_active_mm := Some 1%nat; mt_kthread := false |};
                2%nat := {| mt_mm := None; mt_active_mm := None; mt_kthread := false |}]};
  ms_current := 1
|}.
(** Every call succeeds, but for those that [f] changes. *)
Definition ex_env : mm_env := {|
  env_mm := true; env_pgd := true; env_context := 0; env_cid := 0; env_counters := 0; env_lock_killed := false; env_mt_dup := 0;
  env_clear _ := 0; env_fatal _ := false; env_enough_memory _ := 0; env_area _ := true; env_area_lock _ := true; env_policy _ := 0;
  env_new_policy _ := 20%nat; env_uffd _ := 0; env_uffd_fork _ := false; env_anon v := if (v =? 3)%nat then - ENOMEM else 0; env_pages _ := 0;
  env_arch_dup := 0; env_module := true; env_rss := 3; env_exec_lock := 0; env_ptrace := true
|}.
Lemma ex_mm_ok : mm_ok ex_mem 1 ex_mm ex_areas.
Proof.
  split; [done|]. split; [done|]. split.
  - split; repeat constructor; cbn; lia.
  - split; [split|]; [|repeat constructor|done]. apply (bool_decide_unpack _). vm_compute. exact I.
Qed.
Lemma ex_copyable : copyable ex_mem 1 ex_mm ex_areas.
Proof.
  split; [apply ex_mm_ok|]. split; [apply gmultiset_disj_union_subseteq_l|]. split; [|split].
  - exists {| mt_mm := Some 1%nat; mt_active_mm := Some 1%nat; mt_kthread := false |}. split; [done|]. intros m [= <-]. by eexists.
  - intros m _. change (mmap_lock m ∉ (mm_refs 1 ex_mm ⊎ held ex_areas) ⊎ mm_refs init_mm ex_init_mm). rewrite !gmultiset_elem_of_disj_union.
    intros [[Hx|Hx]|Hx]; [by apply mm_refs_no_lock in Hx| |by apply mm_refs_no_lock in Hx]. revert Hx. apply not_elem_areas. intros. apply area_no_lock.
  - by eexists.
Qed.

Lemma dup_mm_all_or_nothing_witness :
  mwp (dup_mm ex_env 2 1) ex_mem (λ r s', match r with
    | Some m => ms_mms ex_mem !! m = None ∧ copied_mm ex_env ex_mem s' m ex_mm ex_areas
    | None => ∃ uf, given_back (handed_over uf ex_mem) s' ∧ (uf ≠ [] → mm_binfmt ex_mm ≠ None ∧ env_module ex_env = false ∧ told_all ex_env ex_areas ex_mem uf)
    end).
Proof. apply (dup_mm_all_or_nothing ex_env ex_mem 2 1 ex_mm ex_areas). apply ex_copyable. Defined.
Lemma fork_exit_identity_witness :
  mwp (m ← dup_mm ex_env 2 1; for_some m mmput;; mret (bool_decide (is_Some m))) ex_mem (λ made s', ∃ uf,
    if made then s' = handed_over uf ex_mem ∧ told_all ex_env ex_areas ex_mem uf
    else given_back (handed_over uf ex_mem) s' ∧
      (uf ≠ [] → mm_binfmt ex_mm ≠ None ∧ env_module ex_env = false ∧ told_all ex_env ex_areas ex_mem uf)).
Proof. apply (fork_exit_identity ex_env ex_mem 2 1 ex_mm ex_areas). apply ex_copyable. Defined.
Lemma copy_mm_counts_witness :
  mwp (MemMap.copy_mm ex_env false 2) ex_mem (λ r s',
    ForkBuild.taken false (Some 1%nat) (child_mm s' 2) (users ex_mem) (users s') ∧ (r = 0 ∧ child_mm s' 2 ≠ None ∨ r = - ENOMEM ∧ child_mm s' 2 = None)).
Proof.
  apply (copy_mm_counts ex_env ex_mem false 2 {| mt_mm := Some 1%nat; mt_active_mm := Some 1%nat; mt_kthread := false |}
    {| mt_mm := None; mt_active_mm := None; mt_kthread := false |} 1 ex_mm ex_areas); [apply ex_copyable|reflexivity|reflexivity|reflexivity|discriminate].
Defined.

(** The anonymous memory of area 3 cannot be shared: the copy of the first area is given back
    and the half-made copy of the third waits for RCU; without the failure the child has
    copies of the areas 1, 3 and 4. *)
Definition ex_env_ok : mm_env := {|
  env_mm := true; env_pgd := true; env_context := 0; env_cid := 0; env_counters := 0; env_lock_killed := false; env_mt_dup := 0;
  env_clear _ := 0; env_fatal _ := false; env_enough_memory _ := 0; env_area _ := true; env_area_lock _ := true; env_policy _ := 0;
  env_new_policy _ := 20%nat; env_uffd _ := 0; env_uffd_fork _ := false; env_anon _ := 0; env_pages _ := 0;
  env_arch_dup := 0; env_module := true; env_rss := 3; env_exec_lock := 0; env_ptrace := true
|}.
Example copy_fails_midway :
  match dup_mm ex_env 2 1 ex_mem with Ok (None, s') => bool_decide (ms_rcu s' = [6%nat]) && (ms_committed s' =? 4) | _ => false end = true.
Proof. vm_compute. reflexivity. Qed.
Example copy_succeeds :
  match dup_mm ex_env_ok 2 1 ex_mem with
  | Ok (Some m, s') => match ms_mms s' !! m with
      | Some mm => (mm_map_count mm =? 3) && (mm_total_vm mm =? 12) && (ms_committed s' =? 8) && bool_decide (mt_start <$> mm_mt mm = [0x10000; 0x30000; 0x40000])
      | None => false end
  | _ => false
  end = true.
Proof. vm_compute. reflexivity. Qed.
