(* ===== verification/Witness.v ===== *)
(** The theorems applied to the example system: each one at a concrete state where
    its hypotheses hold. *)
From S2P Require Import Prelude Rbtree KState HvfValue HvfClass HvfInv HvfOps HvfSpec HvfTick HvfMachine HvfSmp SchedSys Policy Uclamp UclampInv HvfFrame Core Schedule SchedSpec Load Setsched SetschedSpec Wakeup WakeupSpec Affinity AffinityInv AffinityProto AffinitySteps Balance CoreSched CoreSchedSpec CoreSelect CoreSwitch TaskGroup TaskGroupSpec BandwidthSpec CgroupSpec Example AffinityTrace ExampleCore ExampleGroups.

Lemma ex_clock_sane st h n : clock_sane (ex_state st h n).
Proof. intros i. cbn. lia. Qed.
Lemma ex_task_sane c cl st v q : 0 <= v <= 100 → hvf_sane (ex_task c cl st v q).
Proof. intros Hv. split; cbn; unfold H; lia. Qed.

(** * The run queue as a machine *)

(** The sleeping task 4 is woken while task 1 runs and tasks 2 and 3 wait. *)
Lemma hvf_refines_machine_witness :
  wp (run_op 0 (OpEnqueue 4 ENQUEUE_WAKEUP)) ex_busy (λ _ s', hvf_inv s' ∧ only_cpu 0 ex_busy s' ∧
    ∃ a', abstract s' 0 = Some a' ∧
      astep (value_of s') true (OpEnqueue 4 ENQUEUE_WAKEUP) (ARq [2; 3]%nat (Some 1%nat) 3) a').
Proof.
  apply (hvf_refines_machine ex_busy 0 (OpEnqueue 4 ENQUEUE_WAKEUP)
    (ex_task 0 hvf_sched_class TASK_INTERRUPTIBLE 40 false)).
  - apply ex_invs.
  - split; [apply ex_clock_sane|]. eexists _, _. split_and!; [reflexivity|reflexivity|done|].
    split_and!; [apply ex_task_sane; lia|done|by left].
  - reflexivity.
  - reflexivity.
Defined.

(** From boot, task 4 is enqueued with ENQUEUE_INITIAL, and exits while it is queued: it
    stays accounted for. *)
Definition ex_after (op : hvf_op) (s : kstate) : kstate := match run_op 0 op s with Ok (_, s') => s' | Oops _ => s end.
Definition ex_started : kstate := ex_after (OpEnqueue 4 ENQUEUE_INITIAL) ex_boot.
Definition ex_gone : kstate := ex_after (OpDead 4) ex_started.

Lemma hvf_reachable_accounting_witness :
  hvf_inv ex_gone ∧ ∃ r, k_rqs ex_gone !! 0 = Some r ∧
    u32 (nr_running r) = u32 (0 + Z.of_nat (length (queue_of ex_gone 0)) + recorded (hvf_curr (rq_hvf r)) + (0 + 0 + 1)).
Proof.
  apply (hvf_reachable_accounting 0 ex_boot (0 + 0 + 1) ex_gone (ex_rq 1 0 (init_hvf_rq ex_empty) 0)).
  - split.
    + intros c r. cbn. intros [[<- <-]|[_ [<- <-]%lookup_singleton_Some]]%lookup_insert_Some; by eexists ex_empty.
    + intros p t. cbn. intros Ht.
      repeat (apply lookup_insert_Some in Ht as [[_ <-]|[_ Ht]]; [done|]).
      by apply lookup_singleton_Some in Ht as [_ <-].
  - reflexivity.
  - eapply hvf_run_more; [eapply hvf_run_more; [apply hvf_run_none|]|].
    + eapply (trans_op 0 (OpEnqueue 4 ENQUEUE_INITIAL) _ ex_started); [|vm_compute; reflexivity..].
      split; [apply ex_clock_sane|]. eexists _, _. split_and!; [reflexivity|reflexivity|done|].
      split_and!; [apply ex_task_sane; lia|done|by left].
    + eapply (trans_op 0 (OpDead 4) _ ex_gone); [|vm_compute; reflexivity..].
      split; [intros i; change (k_clock ex_started i) with (k_clock ex_boot i); cbn; lia|]. eexists _, _. split_and!; [vm_compute; reflexivity|vm_compute; reflexivity|vm_compute; reflexivity|done].
Defined.

(** Task 4 is enqueued: the run queue counts one more, and its deadline server stays. *)
Lemma hvf_class_isolated_witness : ∃ s', enqueue_task_hvf 0 4 ENQUEUE_WAKEUP ex_busy = Ok (tt, s') ∧
  hvf_only [1] 0 4 ex_busy s' ∧ nr_of s' 0 = Some 4.
Proof.
  assert ((match enqueue_task_hvf 0 4 ENQUEUE_WAKEUP ex_busy with Ok (_, s') => nr_of s' 0 | Oops _ => None end) = Some 4) as Hn by (vm_compute; reflexivity).
  destruct (enqueue_task_hvf 0 4 ENQUEUE_WAKEUP ex_busy) as [[[] s']|] eqn:He; [|done]. exists s'. split; [reflexivity|]. split; [|exact Hn].
  exact (proj1 (hvf_class_isolated 0 4 ENQUEUE_WAKEUP None true 0 0 0) ex_busy tt s' He).
Defined.

(** * Scheduling decisions *)

Definition ex_rq0 (h : hvf_rq) (n : Z) : rq := ex_rq 1 0 h n.
Definition ex_task1 (state : Z) : task_struct := ex_task 0 hvf_sched_class state 50 false.

Lemma ex_running st h n :
  hvf_curr h = Some 1%nat → running_hvf (ex_state st h n) 0 (ex_rq0 h n) 1 (ex_task1 st).
Proof.
  intros Hc. split; [done|done|done|done|by apply ex_task_sane; lia|by cbn|].
  unfold used_at_next_read. vm_compute. split; congruence.
Qed.
Lemma ex_only_hvf st h n : n ≠ 0 → only_hvf (ex_state st h n) 0 (ex_rq0 h n).
Proof. by split. Qed.
Lemma ex_classes_ok st n h :
  (∀ q, q ∈ queue_of (ex_state st h n) 0 → q = 2%nat ∨ q = 3%nat) →
  classes_ok (ex_state st h n) 0 (ex_rq0 h n).
Proof.
  intros Hq. split; [by eexists|]. intros q [-> | ->]%Hq; by eexists.
Qed.
Lemma ex_blocking_hvf st h :
  st ≠ TASK_RUNNING → hvf_curr h = Some 1%nat →
  blocking_hvf (ex_state st h 3) 0 (ex_rq0 h 3) 1 (ex_task1 st).
Proof. intros Hst Hc. by split. Qed.
Lemma ex_two_queue q : q ∈ [2; 3]%nat → q = 2%nat ∨ q = 3%nat.
Proof. set_solver. Qed.


(** Task 1 goes to sleep; the CPU goes to task 3. *)
Lemma schedule_block_runs_highest_value_witness :
  wp (__schedule SM_NONE) ex_blocking (λ _ s', hvf_inv s' ∧ ∃ next r' t',
    k_rqs s' !! 0 = Some r' ∧ curr r' = next ∧ hvf_curr (rq_hvf r') = Some next ∧
    next ∈ queue_of ex_blocking 0 ∧
    (∀ q, q ∈ queue_of ex_blocking 0 → value_of ex_blocking q <= value_of ex_blocking next) ∧
    queue_of s' 0 = remove_elem next (queue_of ex_blocking 0) ∧
    nr_running r' = u32 (3 - 1) ∧
    k_tasks s' !! 1%nat = Some t' ∧ on_rq t' = 0 ∧ on_cpu t' = false).
Proof.
  apply (schedule_block_runs_highest_value ex_blocking (ex_rq0 (ex_two <| hvf_curr := Some 1%nat |>) 3) 1
    (ex_task1 TASK_INTERRUPTIBLE)).
  - apply ex_invs.
  - by apply ex_blocking_hvf.
  - apply ex_classes_ok, ex_two_queue.
  - done.
  - reflexivity.
  - reflexivity.
  - done.
Defined.

(** Task 1 runs alone and is preempted; the CPU goes idle. *)
Lemma schedule_idles_lone_task_witness :
  wp (__schedule SM_PREEMPT) ex_lone (λ _ s',
    ∃ r' t', k_rqs s' !! 0 = Some r' ∧ curr r' = 0%nat ∧ nr_running r' = 1 ∧
      (∀ x, x ∈ queue_of s' 0 ↔ x = 1%nat) ∧
      k_tasks s' !! 1%nat = Some t' ∧ __state t' = TASK_RUNNING ∧ on_cpu t' = false).
Proof.
  apply (schedule_idles_lone_task ex_lone (ex_rq0 (ex_empty <| hvf_curr := Some 1%nat |>) 1) 1
    (ex_task1 TASK_RUNNING)).
  - apply ex_invs.
  - apply ex_clock_sane.
  - by apply ex_running.
  - by apply ex_only_hvf.
  - apply ex_classes_ok. cbn. set_solver.
  - reflexivity.
  - reflexivity.
  - reflexivity.
  - reflexivity.
Defined.

Lemma exit_forgets_running_task_witness :
  wp (__schedule SM_NONE) ex_dead (λ _ s', hvf_inv s' ∧ ∃ next r' tn,
    next ∈ queue_of ex_dead 0 ∧ k_tasks ex_dead !! next = Some tn ∧ sched_class tn = hvf_sched_class ∧
    k_rqs s' !! 0 = Some r' ∧ curr r' = next ∧ hvf_curr (rq_hvf r') = None ∧
    next ∉ queue_of s' 0).
Proof.
  apply (exit_forgets_running_task ex_dead (ex_rq0 (ex_two <| hvf_curr := Some 1%nat |>) 3) 1
    (ex_task1 TASK_DEAD)).
  - apply ex_invs.
  - by apply ex_blocking_hvf.
  - apply ex_classes_ok, ex_two_queue.
  - done.
  - reflexivity.
  - reflexivity.
  - reflexivity.
Defined.

(** Task 1 blocks although its CPU no longer records it. *)
Lemma block_unrecorded_task_witness :
  wp (try_to_block_task 0 1 TASK_INTERRUPTIBLE) ex_unrecorded (λ b s', b = true ∧
    k_rqs s' = k_rqs ex_unrecorded ∧ ∃ t', k_tasks s' !! 1%nat = Some t' ∧ on_rq t' = 0).
Proof.
  apply (block_unrecorded_task ex_unrecorded 0 (ex_rq0 ex_two 3) 1 (ex_task1 TASK_INTERRUPTIBLE)).
  - apply ex_invs.
  - reflexivity.
  - reflexivity.
  - reflexivity.
  - reflexivity.
  - done.
  - change (1%nat ∉ [2; 3]%nat). set_solver.
  - reflexivity.
Defined.

(** * The HVF class *)

Lemma pick_task_hvf_max_witness :
  wp (pick_task_hvf 0) ex_busy (λ next s', s' = ex_busy ∧ ∃ p, next = Some p ∧
    if bool_decide (queue_of ex_busy 0 = []) then p = 0%nat
    else p ∈ queue_of ex_busy 0 ∧
      ∀ q, q ∈ queue_of ex_busy 0 → value_of ex_busy q <= value_of ex_busy p).
Proof.
  apply (pick_task_hvf_max ex_busy 0 (ex_rq0 (ex_two <| hvf_curr := Some 1%nat |>) 3)).
  - apply ex_invs.
  - reflexivity.
Defined.

(** Task 4, of value 40, is queued behind task 3, of value 70. *)
Definition ex_queued : kstate :=
  match enqueue_task_hvf 0 4 0 ex_busy with Ok (_, s') => s' | Oops _ => ex_busy end.
Lemma enqueue_keeps_fifo_witness :
  last (queue_of ex_queued 0) = if 70 <? value_of ex_queued 4 then Some 4%nat else Some 3%nat.
Proof.
  apply (enqueue_keeps_fifo ex_busy ex_queued 0 4 3).
  - apply ex_invs.
  - reflexivity.
  - vm_compute. reflexivity.
  - intros q [-> | ->]%ex_two_queue; vm_compute; reflexivity.
Defined.

Lemma hvf_insert_sorted_witness :
  let t := RbNode RB_BLACK RbNull 2 RbNull in
  let t' := hvf_rq_rbtree_insert Z.of_nat t 3 in
  StronglySorted (key_le Z.of_nat) (inorder t') ∧
  ∃ l1 l2, inorder t = l1 ++ l2 ∧ inorder t' = l1 ++ 3%nat :: l2 ∧
    (∀ x, x ∈ l1 → Z.of_nat x < Z.of_nat 3) ∧ (∀ x, x ∈ l2 → Z.of_nat 3 <= Z.of_nat x).
Proof.
  apply (hvf_insert_sorted Z.of_nat (RbNode RB_BLACK RbNull 2 RbNull) 3).
  - repeat constructor.
  - intros e He. apply list_elem_of_singleton in He as ->. vm_compute. split; congruence.
  - apply NoDup_singleton.
  - cbn. set_solver.
Defined.

Lemma init_value_correct_witness :
  ∃ v v', init_value 1003500 1000 1004 1006 = Some v ∧ init_value 1004000 1000 1004 1006 = Some v' ∧
    0 <= v' <= v ∧ v <= H ∧
    (1003500 + 1000 < 1004 * K → v = H) ∧ (1006 * K < 1003500 + 1000 → v = 0) ∧
    (1004 * K <= 1003500 + 1000 <= 1006 * K →
       v = (1006 * K - (1003500 + 1000)) * H / ((1006 - 1004) * K)).
Proof. apply (init_value_correct 1003500 1004000 1000 1004 1006); vm_compute; intuition congruence. Defined.

Lemma time_slice_correct_witness :
  10 <= time_slice 30 ∧ time_slice 30 <= time_slice 70 ∧ time_slice 70 <= K ∧
  (0 <= 30 <= H → 10 + 30 - 1 <= time_slice 30 <= 10 + 30).
Proof. apply (time_slice_correct 30 70). lia. Defined.

Lemma value_decay_witness :
  0 <= reduced_value 7 50 <= Z.max 50 10 ∧ 0 <= penalized_value 1003 1000 50 <= Z.max 50 10 ∧
  (0 < 50 → reduced_value 7 50 <= 50 ∧ penalized_value 1003 1000 50 <= 50) ∧
  (50 = 0 → reduced_value 7 50 = 10 ∧ penalized_value 1003 1000 50 = 10).
Proof. apply (value_decay 7 1003 1000 50); vm_compute; intuition congruence. Defined.

(** Task 1, of value 50, has a slice of 59 ms: it expires at the fifteenth tick. *)
Lemma slice_expires_on_time_witness :
  wp (ticks 0 1 15) ex_busy (λ _ s', ∃ t', k_tasks s' !! 1%nat = Some t' ∧
    slice_expired (hvf t') = (slice_ns (ex_task1 TASK_RUNNING) <=? Z.of_nat 15 * TICK_NSEC) ∧
    need_resched t' = (slice_ns (ex_task1 TASK_RUNNING) <=? Z.of_nat 15 * TICK_NSEC)).
Proof.
  apply (slice_expires_on_time ex_busy 0 1 (ex_rq0 (ex_two <| hvf_curr := Some 1%nat |>) 3)
    (ex_task1 TASK_RUNNING) 15); (reflexivity || done).
Defined.

Lemma wakeup_preempt_hvf_spec_witness :
  wp (wakeup_preempt_hvf 0 3 0) ex_busy (λ _ s',
    if bool_decide (sched_class (ex_task1 TASK_RUNNING) = hvf_sched_class) && (1000 <? 5) && (50 <? 70)
    then ∃ tr, k_tasks ex_busy !! 1%nat = Some tr ∧ rescheduled ex_busy s' 1 tr
    else s' = ex_busy).
Proof.
  apply (wakeup_preempt_hvf_spec ex_busy 0 3 (ex_rq0 (ex_two <| hvf_curr := Some 1%nat |>) 3)
    (ex_rq0 (ex_two <| hvf_curr := Some 1%nat |>) 3)
    (ex_task 0 hvf_sched_class TASK_RUNNING 70 true) (ex_task1 TASK_RUNNING)).
  - reflexivity.
  - reflexivity.
  - reflexivity.
  - by eexists.
  - reflexivity.
Defined.

(** Task 4 may run on both CPUs. *)
Lemma select_task_rq_hvf_spec_witness :
  wp (select_task_rq_hvf 4 0 WF_TTWU) ex_busy (λ c s',
    placement ex_busy (ex_task 0 hvf_sched_class TASK_INTERRUPTIBLE 40 false) c ∧ c ∈ mask_cpus 3 ∧
    k_rqs s' = k_rqs ex_busy ∧ ∃ t', k_tasks s' !! 4%nat = Some t' ∧
    prev_cpu (hvf t') = 0 ∧ curr_cpu (hvf t') = c).
Proof.
  apply (select_task_rq_hvf_spec ex_busy 4 (ex_task 0 hvf_sched_class TASK_INTERRUPTIBLE 40 false) 0 WF_TTWU);
    [reflexivity|reflexivity|apply ex_selectable].
Defined.

Lemma placement_follows_value_witness :
  cl_nr_running {| cpu_num := 1; cl_nr_running := 0 |} <= cl_nr_running {| cpu_num := 0; cl_nr_running := 3 |}.
Proof.
  apply (placement_follows_value
    [{| cpu_num := 1; cl_nr_running := 0 |}; {| cpu_num := 0; cl_nr_running := 3 |}] 0 1 _ _ 30 70 2);
    try (reflexivity || lia).
  repeat constructor; vm_compute; congruence.
Defined.

Lemma get_right_cpu_many_witness :
  wp (get_right_cpu (replicate 101 {| cpu_num := 7; cl_nr_running := 1 |}) 40 101) ex_busy
    (λ c s', s' = ex_busy ∧ c = cpu_num (replicate 101 {| cpu_num := 7; cl_nr_running := 1 |} !!! (101 - 1)%nat)).
Proof.
  apply (get_right_cpu_many ex_busy (replicate 101 {| cpu_num := 7; cl_nr_running := 1 |}) 40 101); lia.
Defined.

(** * The system calls for HVF parameters *)

Lemma set_scheduling_params_spec_witness :
  wp (set_scheduling_params 1010 1020 500) ex_busy (λ ret s',
    if decide (acceptable 1000 1010 1020 500) then
      ret = 0 ∧ k_tasks s' = <[1%nat := (ex_task1 TASK_RUNNING) <| deadline_1 := 1010 |>
        <| deadline_2 := 1020 |> <| computation_time := 500 |> <| pars_set := true |>]> (k_tasks ex_busy)
    else ret = - EINVAL ∧ k_tasks s' = k_tasks ex_busy).
Proof.
  apply (set_scheduling_params_spec ex_busy (ex_rq0 (ex_two <| hvf_curr := Some 1%nat |>) 3)
    (ex_task1 TASK_RUNNING) 1010 1020 500); (reflexivity || cbn; lia).
Defined.

Lemma accepted_params_have_value_witness :
  ∃ V, init_value 1000000 500 1010 1020 = Some V ∧ 0 <= V <= H.
Proof.
  apply (accepted_params_have_value 1000 1000000 1010 1020 500); [split; lia|lia|lia].
Defined.

Lemma set_get_roundtrip_witness :
  wp (ret ← set_scheduling_params 1010 1020 500;
      '(ret', mem') ← get_scheduling_params 4096 ∅;
      mret (ret, ret', mem')) ex_busy (λ '(ret, ret', mem') _,
    ret = 0 → ret' = 0 →
    mem' !! (4096 + d_params_deadline_1) = Some 1010 ∧
    mem' !! (4096 + d_params_deadline_2) = Some 1020 ∧
    mem' !! (4096 + d_params_computation_time) = Some 500).
Proof.
  apply (set_get_roundtrip ex_busy (ex_rq0 (ex_two <| hvf_curr := Some 1%nat |>) 3)
    (ex_task1 TASK_RUNNING) 1010 1020 500 4096 ∅); reflexivity.
Defined.

Lemma get_scheduling_score_spec_witness :
  wp get_scheduling_score ex_busy (λ ret s', k_tasks s' = k_tasks ex_busy ∧ k_rqs s' = k_rqs ex_busy ∧
    ret = value_spec (1000 * K) 1004 1006 ∧ 0 <= ret <= H).
Proof.
  apply (get_scheduling_score_spec ex_busy (ex_rq0 (ex_two <| hvf_curr := Some 1%nat |>) 3)
    (ex_task1 TASK_RUNNING)); (reflexivity || cbn; lia).
Defined.

(** * Classes and priorities *)

Lemma active_classes_order_witness :
  (∀ s, sched_init_class_order s = Ok (tt, s)) ∧
  for_each_active_class = filter (λ c, class_active c = true) SCHED_DATA ∧
  StronglySorted (λ a b, sched_class_above a b = true) for_each_active_class ∧
  (∃ l, for_each_active_class = l ++ [hvf_sched_class; idle_sched_class]) ∧
  (∀ c, class_active c = true → c ≠ idle_sched_class →
    for_active_class_range (class_addr c) (class_addr idle_sched_class) ++ [idle_sched_class] =
    filter (λ c', class_active c' = true ∧ ~ (sched_class_above c' c = true)) SCHED_DATA).
Proof. apply (@active_classes_order ex_ext ex_ext_laws). Defined.

Lemma setscheduler_class_of_policy_witness :
  let prio := __normal_prio SCHED_HVF 0 5 in
  -1 <= prio < MAX_RT_PRIO + NICE_WIDTH ∧
  (dl_prio prio = dl_policy SCHED_HVF) ∧ (rt_prio prio = rt_policy SCHED_HVF) ∧
  __setscheduler_class SCHED_HVF prio = class_of_policy SCHED_HVF ∧
  (__setscheduler_class SCHED_HVF prio = hvf_sched_class ↔ SCHED_HVF = SCHED_HVF) ∧
  (rt_or_dl_prio prio = false → PRIO_TO_NICE prio = 5).
Proof.
  apply (setscheduler_class_of_policy SCHED_HVF 0 5); [done|]. unfold MIN_NICE, MAX_NICE. lia.
Defined.

Lemma prio_less_hvf_witness :
  let a := ex_task1 TASK_RUNNING in
  let b := ex_task 0 fair_sched_class TASK_RUNNING 0 false in
  let cfs x y := prio x <? prio y in
  sched_class_above (sched_class b) (sched_class a) = true ∧
  prio_less (λ _, 0) (λ _, 0) cfs cfs a b = cfs a b.
Proof.
  apply (prio_less_hvf (λ _, 0) (λ _, 0) (λ x y, prio x <? prio y) (λ x y, prio x <? prio y)
    (ex_task1 TASK_RUNNING) (ex_task 0 fair_sched_class TASK_RUNNING 0 false));
    (reflexivity || done || (cbn; unfold MAX_RT_PRIO; lia)).
Defined.

(** * Utilization clamps *)

Lemma ex_se_valid v : 0 <= v <= 1024 → valid_se (ex_se v).
Proof. intros Hv. by apply uclamp_se_set_valid. Qed.

Lemma ex_uclamp_inv st h n : uclamp_inv (ex_state st h n).
Proof.
  apply uclamp_inv_fresh.
  - intros c r. cbn. intros [[<- <-]|[_ [<- <-]%lookup_singleton_Some]]%lookup_insert_Some; by eexists.
  - intros id p t. cbn. intros Ht.
    repeat (apply lookup_insert_Some in Ht as [[_ <-]|[_ Ht]]; [by destruct id|]).
    apply lookup_singleton_Some in Ht as [_ <-]. by destruct id.
  - intros id p t. cbn. intros Ht.
    repeat (apply lookup_insert_Some in Ht as [[_ <-]|[_ Ht]]; [destruct id; apply ex_se_valid; lia|]).
    apply lookup_singleton_Some in Ht as [_ <-]. destruct id; apply ex_se_valid; lia.
  - intros []; apply ex_se_valid; lia.
  - vm_compute. reflexivity.
Qed.

Definition ex_task5 : task_struct := ex_task 0 fair_sched_class TASK_INTERRUPTIBLE 0 false.

(** Task 5 has been enqueued: it holds a reference on the clamps of CPU 0. *)
Definition ex_clamped : kstate :=
  match uclamp_rq_inc true 0 5 ex_busy with Ok (_, s') => s' | Oops _ => ex_busy end.

Lemma ex_clamped_inv : uclamp_inv ex_clamped.
Proof.
  assert (wp (uclamp_rq_inc true 0 5) ex_busy (λ _ s', uclamp_inv s')) as Hwp.
  { unfold uclamp_rq_inc. apply wp_bind, wp_get. cbn [ex_busy ex_state k_uclamp ex_globals sched_uclamp_used negb].
    apply wp_bind. eapply wp_task; [reflexivity|]. cbn [ex_task sched_delayed].
    apply wp_bind. eapply wp_mono.
    { apply (wp_inc_both ex_busy 5 ex_task5 (ex_rq0 (ex_two <| hvf_curr := Some 1%nat |>) 3));
        [apply ex_uclamp_inv|reflexivity..]. }
    intros _ s2 (t2&r2&->&Hc&Hok&Hact&Hreq).
    eapply wp_mono; [by apply (wp_clear_idle ex_busy 5 ex_task5 t2 r2); [apply ex_uclamp_inv|..]|].
    by intros ? ? []. }
  unfold wp in Hwp. unfold ex_clamped. by destruct (uclamp_rq_inc true 0 5 ex_busy) as [[? ?]|].
Qed.

Definition ex_task5_clamped : task_struct :=
  ex_task5 <| uclamp_min := (ex_se 0) <| uc_active := true |> |>
           <| uclamp_max := (ex_se 1024) <| uc_active := true |> |>.
Definition ex_rq_clamped : rq :=
  match k_rqs ex_clamped !! 0 with Some r => r | None => ex_rq0 ex_empty 0 end.

Lemma uclamp_rq_inv_witness :
  wp (uclamp_rq_inc true 0 5) ex_busy (λ _ s',
    uclamp_inv s' ∧ (∀ id, clamp_covers s' 0 id) ∧
    (sched_uclamp_used (k_uclamp ex_busy) = true → sched_delayed ex_task5 = false →
      ∀ id, is_Some (members s' 0 id !! 5%nat))) ∧
  wp (uclamp_rq_dec true (cpu ex_task5_clamped) 5) ex_clamped (λ _ s',
    uclamp_inv s' ∧ (∀ id, clamp_covers s' (cpu ex_task5_clamped) id) ∧
    (sched_uclamp_used (k_uclamp ex_clamped) = true → sched_delayed ex_task5_clamped = false →
      ∀ id, members s' (cpu ex_task5_clamped) id !! 5%nat = None)).
Proof.
  split.
  - exact (proj1 (uclamp_rq_inv ex_busy 5 ex_task5 (ex_rq0 (ex_two <| hvf_curr := Some 1%nat |>) 3) (ex_uclamp_inv _ _ _) eq_refl eq_refl) eq_refl).
  - refine (proj2 (uclamp_rq_inv ex_clamped 5 ex_task5_clamped ex_rq_clamped ex_clamped_inv _ _)).
    + vm_compute. reflexivity.
    + vm_compute. reflexivity.
Defined.

Lemma init_uclamp_inv_witness :
  wp (init_uclamp 0) ex_busy (λ _ s', uclamp_inv s' ∧
    ∀ c r id, k_rqs s' !! c = Some r → ucrq_value (rq_uclamp id r) = uclamp_none id).
Proof.
  apply (init_uclamp_inv ex_busy 0 (ex_task 0 idle_sched_class TASK_RUNNING 0 false)).
  - reflexivity.
  - vm_compute. reflexivity.
  - intros id p t. cbn. intros Ht.
    repeat (apply lookup_insert_Some in Ht as [[_ <-]|[_ Ht]]; [by destruct id|]).
    apply lookup_singleton_Some in Ht as [_ <-]. by destruct id.
  - intros id p t Ht _. by apply (ui_req _ (ex_uclamp_inv TASK_RUNNING (ex_two <| hvf_curr := Some 1%nat |>) 3) id p t).
Defined.

(** The administrator sets sched_util_clamp_min to 512. *)
Lemma sysctl_sched_uclamp_handler_spec_witness :
  let proc (_ : bool) (_ : uclamp_globals) := (0, (512, 1024, 1024)) in
  wp (sysctl_sched_uclamp_handler proc true) ex_busy (λ ret s',
    (ret ≠ 0 → k_uclamp s' = k_uclamp ex_busy ∧ k_tasks s' = k_tasks ex_busy) ∧
    (∀ id, valid_se (uclamp_default id (k_uclamp s'))) ∧
    (true = true → ret = 0 →
      512 <= 1024 <= SCHED_CAPACITY_SCALE ∧
      sysctl_sched_uclamp_util_min (k_uclamp s') = 512 ∧
      sysctl_sched_uclamp_util_max (k_uclamp s') = 1024 ∧
      (512 ≠ sysctl_sched_uclamp_util_min (k_uclamp ex_busy) →
         uc_value (uclamp_default_min (k_uclamp s')) = 512 ∧
         sched_uclamp_used (k_uclamp s') = true))).
Proof.
  apply (sysctl_sched_uclamp_handler_spec ex_busy (λ _ _, (0, (512, 1024, 1024))) true 0 512 1024 1024).
  - reflexivity.
  - lia.
  - lia.
  - intros []; apply ex_se_valid; lia.
Defined.

(** * Weights *)

Lemma cpu_weight_roundtrip_witness :
  let set_shares (_ v : Z) := (0, v) in
  (∀ nice, wp (cpu_weight_nice_write_s64 set_shares 1024 nice) ex_busy (λ '(ret, shares') s', s' = ex_busy ∧
     if decide (MIN_NICE <= nice <= MAX_NICE) then ret = 0 ∧ cpu_weight_nice_read_s64 shares' = nice
     else ret = - ERANGE ∧ shares' = 1024)) ∧
  (∀ w, let '(ret, shares') := cpu_weight_write_u64 set_shares 1024 w in
     if decide (CGROUP_WEIGHT_MIN <= w <= CGROUP_WEIGHT_MAX) then ret = 0 ∧ cpu_weight_read_u64 shares' = w
     else ret = - ERANGE ∧ shares' = 1024).
Proof. apply (cpu_weight_roundtrip (λ _ v, (0, v)) 1024 ex_busy). done. Defined.

(** * Policy changes *)

Definition ex_hvf_attr : sched_attr := zero_attr <| sched_policy := SCHED_HVF |>.

Lemma ex_leaves_fair : leaves_tasks fair_sched_class.
Proof.
  split.
  - intros f c p lw s t [= <-] Ht _. eapply wp_upd_task; [done|]. by eexists _, _.
  - intros f c p s [= <-] t Ht. by exists s, t.
  - intros p s t Ht. by exists s, t.
Qed.

(** The sleeping fair task 5 asks for SCHED_HVF. *)
Lemma setscheduler_to_hvf_witness :
  wp (setscheduler_apply 5 ex_hvf_attr true SCHED_HVF false) ex_busy (λ ret s', ret = 0 ∧
    ∃ t', k_tasks s' !! 5%nat = Some t' ∧ policy t' = SCHED_HVF ∧ sched_class t' = hvf_sched_class ∧
      prio t' = NICE_TO_PRIO 0 ∧ rt_priority t' = 0 ∧ pars_set t' = true ∧
      deadline_1 t' < deadline_2 t' ∧ sched_reset_on_fork t' = false).
Proof.
  apply (setscheduler_to_hvf ex_busy 5 ex_task5 (ex_rq0 (ex_two <| hvf_curr := Some 1%nat |>) 3) ex_hvf_attr
    true false); try reflexivity.
  - done.
  - apply ex_leaves_fair.
  - done.
  - by cbn.
  - by cbn.
  - apply ex_clock_sane.
  - apply ex_task_sane. lia.
Defined.

(** It may ask, being of the same owner; a lower clamp above the scale would be refused. *)
Lemma setscheduler_check_spec_witness :
  admitted (ex_task1 TASK_RUNNING) ex_task5 ex_hvf_attr true SCHED_HVF SCHED_HVF false ∧
  ¬ admitted (ex_task1 TASK_RUNNING) ex_task5
      (ex_hvf_attr <| sched_flags := SCHED_FLAG_UTIL_CLAMP_MIN |> <| sched_util_min := 1025 |>) true SCHED_HVF SCHED_HVF false.
Proof.
  pose proof (setscheduler_check_spec ex_busy 5 ex_task5 (ex_rq0 (ex_two <| hvf_curr := Some 1%nat |>) 3)
    (ex_task1 TASK_RUNNING) ex_hvf_attr true SCHED_HVF eq_refl eq_refl eq_refl) as H1.
  pose proof (setscheduler_check_spec ex_busy 5 ex_task5 (ex_rq0 (ex_two <| hvf_curr := Some 1%nat |>) 3)
    (ex_task1 TASK_RUNNING) (ex_hvf_attr <| sched_flags := SCHED_FLAG_UTIL_CLAMP_MIN |> <| sched_util_min := 1025 |>)
    true SCHED_HVF eq_refl eq_refl eq_refl) as H2.
  split; [apply H1|apply H2].
Defined.

Lemma unprivileged_setscheduler_witness :
  wp (user_check_sched_setscheduler 5 ex_hvf_attr SCHED_HVF false) ex_busy (λ ret s', s' = ex_busy ∧
    (ret = 0 ∨ ret = - EPERM) ∧
    (ret = 0 ↔
      (1000 = 1000 ∨ 1000 = 1000) ∧ dl_policy SCHED_HVF = false ∧
      (fair_policy SCHED_HVF = true →
         task_nice ex_task5 <= sched_nice ex_hvf_attr ∨ nice_to_rlimit (sched_nice ex_hvf_attr) <= 0) ∧
      (rt_policy SCHED_HVF = true → (SCHED_HVF = SCHED_NORMAL ∨ 0 ≠ 0) ∧
         (sched_priority ex_hvf_attr <= 0 ∨ sched_priority ex_hvf_attr <= 0)) ∧
      (task_has_idle_policy ex_task5 = true → idle_policy SCHED_HVF = false →
         nice_to_rlimit (task_nice ex_task5) <= 0) ∧
      (false = true → false = true))).
Proof.
  apply (unprivileged_setscheduler ex_busy 5 ex_task5 (ex_rq0 (ex_two <| hvf_curr := Some 1%nat |>) 3)
    (ex_task1 TASK_RUNNING)); reflexivity.
Defined.

Lemma sched_yield_hvf_oops_witness : sys_sched_yield ex_busy = Oops null_call.
Proof.
  apply (sched_yield_hvf_oops ex_busy (ex_rq0 (ex_two <| hvf_curr := Some 1%nat |>) 3)
    (ex_task1 TASK_RUNNING)); reflexivity.
Defined.

Lemma set_user_nice_hvf_oops_witness : set_user_nice 4 5 ex_busy = Oops null_call.
Proof.
  apply (set_user_nice_hvf_oops ex_busy 4 (ex_task 0 hvf_sched_class TASK_INTERRUPTIBLE 40 false)
    (ex_rq0 (ex_two <| hvf_curr := Some 1%nat |>) 3) 5); (reflexivity || done).
Defined.

Lemma set_cpus_allowed_hvf_oops_witness :
  __do_set_cpus_allowed 4 {| ac_new_mask := 1; ac_own := false; ac_user_mask := None; ac_flags := 0 |} ex_busy
  = Oops null_call.
Proof.
  apply (set_cpus_allowed_hvf_oops ex_busy 4 (ex_task 0 hvf_sched_class TASK_INTERRUPTIBLE 40 false)
    (ex_rq0 (ex_two <| hvf_curr := Some 1%nat |>) 3)); (reflexivity || done).
Defined.

Lemma priority_range_of_policy_witness :
  if bool_decide (SCHED_HVF = SCHED_HVF) then
    sys_sched_get_priority_max SCHED_HVF = - EINVAL ∧ sys_sched_get_priority_min SCHED_HVF = - EINVAL
  else ∀ prio, 0 <= prio <= MAX_RT_PRIO - 1 → (rt_policy SCHED_HVF = true ↔ prio ≠ 0) ↔
    sys_sched_get_priority_min SCHED_HVF <= prio <= sys_sched_get_priority_max SCHED_HVF.
Proof. apply (priority_range_of_policy SCHED_HVF). reflexivity. Defined.

(** A minimum clamp of -5 is accepted and stored as 2043. *)
Definition ex_clamp_attr : sched_attr :=
  zero_attr <| sched_flags := SCHED_FLAG_UTIL_CLAMP_MIN |> <| sched_util_min := 2 ^ 32 - 5 |>.
Lemma uclamp_validate_negative_witness :
  wp (uclamp_validate 5 ex_clamp_attr) ex_busy (λ ret _, ret = 0) ∧
  ∀ u, uc_value (uclamp_se_set (sched_util_min ex_clamp_attr) true u) = sched_util_min ex_clamp_attr mod 2 ^ 11.
Proof.
  apply (uclamp_validate_negative ex_busy 5 ex_task5 ex_clamp_attr);
    (reflexivity || vm_compute; intuition congruence).
Defined.


Lemma fork_deadline_task_witness :
  wp (sched_fork 6) ex_forking (λ ret s', ∃ t', k_tasks s' !! 6%nat = Some t' ∧
    ret = - EAGAIN ∧ policy t' = SCHED_DEADLINE).
Proof.
  apply (fork_deadline_task ex_forking 6 ex_dl_task (ex_rq 1 0 (ex_two <| hvf_curr := Some 1%nat |>) 3) ex_dl_task);
    [reflexivity|reflexivity|reflexivity|discriminate|cbn; unfold MAX_RT_PRIO, NICE_WIDTH; lia|apply ex_fork_hooks|reflexivity|reflexivity].
Defined.

(** Task 4 as the child of the HVF task 1. *)
Lemma fork_hvf_child_is_fair_witness :
  wp (copy_process_sched 4) ex_busy (λ ret s', ret = 0 ∧ ∃ t', k_tasks s' !! 4%nat = Some t' ∧
    policy t' = SCHED_HVF ∧ sched_class t' = fair_sched_class ∧
    __setscheduler_class (policy t') (prio t') = hvf_sched_class ∧
    (deadline_1 t', deadline_2 t', computation_time t', pars_set t') = (0, 0, 0, false) ∧
    __state t' = TASK_NEW ∧ cpu t' = 0).
Proof.
  apply (fork_hvf_child_is_fair ex_busy 4 (ex_task 0 hvf_sched_class TASK_INTERRUPTIBLE 40 false)
    (ex_rq 1 0 (ex_two <| hvf_curr := Some 1%nat |>) 3) (ex_task 0 hvf_sched_class TASK_RUNNING 50 false));
    [reflexivity|reflexivity|reflexivity|discriminate|cbn; unfold MAX_RT_PRIO, NICE_WIDTH; lia|apply ex_fork_hooks|reflexivity| |reflexivity].
  cbn. unfold MAX_RT_PRIO. lia.
Defined.

(** * The affinity protocol *)

Lemma ex_returns : rtc (aff_step true 5) (ex_aff, ∅) (tr11, <[7%nat := CDrain]> (<[6%nat := CDrain]> (<[7%nat := CWait 6]> {[6%nat := CWait 6]}))).
Proof.
  etrans; [apply tr_to_requests|]. eapply rtc_l; [apply tr_turn|]. eapply rtc_l; [apply tr_stop|].
  eapply rtc_l; [by apply tr_woken6|]. eapply rtc_l; [by apply tr_woken7|]. constructor.
Qed.

Lemma affinity_waiters_kept_witness :
  ∃ a t, k_pending tr7 !! 6%nat = Some a ∧ k_tasks tr7 !! 5%nat = Some t ∧
    is_Some ((<[7%nat := CWait 6]> {[6%nat := CWait 6]} : gmap nat caller) !! 6%nat) ∧
    ap_refs a = Z.of_nat (waiting 6 (<[7%nat := CWait 6]> {[6%nat := CWait 6]})) ∧
    (ap_done a = true ∨
     migration_pending t = Some 6%nat ∧ ap_task a = 5%nat ∧
     (works 6 (k_stops tr7) = 1%nat ∨ migration_disabled t ≠ 0 ∧ cpus_other t ≠ None)).
Proof. apply (affinity_waiters_kept 5 ex_aff tr7 _ 7 6 ex_aff_start tr_to_requests). reflexivity. Defined.

Lemma affinity_return_safe_witness :
  works 6 (k_stops tr11) = 0%nat ∧ ∀ t, k_tasks tr11 !! 5%nat = Some t → migration_pending t ≠ Some 6%nat.
Proof.
  destruct (affinity_return_safe 5 ex_aff tr11 _ 6
    (ex_request <| ap_refs := 0 |> <| ap_stop_pending := false |> <| ap_done := true |>) ex_aff_start ex_returns)
    as (_&Hw&_&Hp); [vm_compute; reflexivity..|]. split; [exact Hw|exact Hp].
Defined.

Lemma affinity_operations_succeed_witness :
  ∃ r, set_cpus_allowed_start 5 (ex_ctx 1) tr6 = Ok r.
Proof.
  assert (rtc (aff_step true 5) (ex_aff, ∅) (tr6, {[6%nat := CWait 6]})) as Hr.
  { eapply rtc_l; [apply tr_request6|]. eapply rtc_l; [apply tr_move1|]. eapply rtc_l; [apply tr_move2|].
    eapply rtc_l; [by apply tr_disable|]. eapply rtc_l; [apply tr_switch|]. eapply rtc_l; [apply tr_off|]. constructor. }
  destruct (affinity_operations_succeed 5 ex_aff tr6 _ (the5 tr6) ex_aff_start Hr) as [Hset _]; [vm_compute; reflexivity|].
  apply (Hset 7%nat (ex_ctx 1)); [step_op|reflexivity|step_op..].
Defined.

Lemma affinity_task_settled_witness :
  Z.testbit (cpus_mask (the5 tr1)) (cpu (the5 tr1)) = true ∨
  ∃ q a, migration_pending (the5 tr1) = Some q ∧ k_pending tr1 !! q = Some a ∧ ap_done a = false ∧
    Z.testbit (cpus_mask (the5 tr1)) (ap_dest_cpu a) = true.
Proof.
  apply (affinity_task_settled 5 ex_aff tr1 {[6%nat := CWait 6]} (the5 tr1) ex_aff_start).
  - apply rtc_once, tr_request6.
  - vm_compute. reflexivity.
  - left. vm_compute. discriminate.
Defined.

(** * Balance callbacks and core scheduling *)

(** A list with a cycle: callback 1 is its own successor. *)
Definition ex_cycle : kstate :=
  ex_busy <| k_heads := set_head (class_head 1) {| bc_next := Some (class_head 1); bc_func := class_fn 1 |} (k_heads ex_busy) |>
    <| k_rqs ::= alter (λ r, r <| balance_callback := Some (class_head 1) |>) 0 |>.
Lemma balance_callbacks_end_witness :
  wp (__balance_callbacks (λ _ _, skip) 2 0) ex_cycle (λ _ s',
    ∀ h, next_of_head s' h = next_of_head ex_cycle h ∨ next_of_head s' h = None).
Proof.
  apply (balance_callbacks_end (λ _ _, skip) 0 ex_cycle
    ((ex_rq 1 0 (ex_two <| hvf_curr := Some 1%nat |>) 3) <| balance_callback := Some (class_head 1) |>) [class_head 1]).
  - intros f c s. by apply wp_skip.
  - reflexivity.
  - apply NoDup_singleton.
  - intros h. unfold next_of_head, ex_cycle. cbn. unfold set_head. destruct (decide (h = class_head 1)) as [->|]; [set_solver|done].
Defined.
Lemma balance_requeue_last_witness :
  wp (queue_balance_callback 0 (class_head 1) (class_fn 1);; queue_balance_callback 0 (class_head 1) (class_fn 1)) ex_busy
    (λ _ s', next_of_head s' (class_head 1) = Some (class_head 1)).
Proof.
  apply (balance_requeue_last ex_busy 0 (ex_rq 1 0 (ex_two <| hvf_curr := Some 1%nat |>) 3) (class_head 1) (class_fn 1));
    [reflexivity|reflexivity|reflexivity|discriminate].
Defined.

Definition the_rq (s : kstate) (c : Z) : rq := default (ex_rq 0 0 ex_empty 0) (k_rqs s !! c).

Lemma sched_core_find_spec_witness : sched_core_find 0 7 ex_smt = Ok (Some 2%nat, ex_smt).
Proof.
  pose proof (sched_core_find_spec ex_smt 0 (the_rq ex_smt 0) 7 eq_refl (ex_smt_trees 0 (the_rq ex_smt 0) eq_refl)) as H.
  rewrite H. reflexivity.
Defined.

(** Task 4 enters the queue of CPU 0 with the cookie 5. *)
Definition ex_newcomer : task_struct := (ex_task 0 hvf_sched_class TASK_INTERRUPTIBLE 40 false) <| core_cookie := 5 |>.
Definition ex_enq : kstate := ex_smt <| k_tasks ::= alter (λ t, t <| core_cookie := 5 |>) 4%nat |>.
Lemma sched_core_enqueue_spec_witness :
  wp (sched_core_enqueue 0 4) ex_enq (λ _ s', trees_ok s' ∧ seq_bumped ex_enq s' 0 ∧
    ∃ r', k_rqs s' !! 0 = Some r' ∧ inorder (core_tree (core_data r')) ≡ₚ
      (if core_cookie ex_newcomer =? 0 then [] else [4%nat]) ++ inorder (core_tree (core_data (the_rq ex_enq 0)))).
Proof.
  apply (sched_core_enqueue_spec ex_enq 0 4 ex_newcomer (the_rq ex_enq 0) 0).
  - apply treesb_sound. vm_compute. reflexivity.
  - vm_compute. reflexivity.
  - reflexivity.
  - reflexivity.
  - reflexivity.
  - vm_compute. reflexivity.
  - split; [exists (the_rq ex_enq 0); split; vm_compute; reflexivity|exists (the_rq ex_enq 0); vm_compute; reflexivity].
Defined.

(** The caller has advanced the number of the set of tasks. *)
Definition ex_advanced : kstate :=
  match k_rqs ex_smt !! 0 with
  | Some r => ex_smt <| k_rqs := <[0 := r <| core_data ::= λ k, k <| core_task_seq ::= λ n, u32 (n + 1) |> |>]> (k_rqs ex_smt) |>
  | None => ex_smt
  end.
Lemma core_select_matches_witness :
  wp (core_select 0 false) ex_advanced (λ next s', ∃ k kc, core_at s' 0 = Some k ∧ core_at s' 0 = Some kc ∧
    fits s' 0 (rq_core_cookie k) next ∧
    (∀ i, i ∈ mask_cpus 3 → i ≠ 0 → ∃ p r, k_rqs s' !! i = Some r ∧ fits s' i (rq_core_cookie k) p ∧
       (curr r = p ∧ pick_at s' i = None ∨ pick_at s' i = Some p ∧ resched_set s' (curr r) = true) ∧
       core_sched_seq (core_data r) ≠ core_pick_seq k) ∧
    core_pick_seq k = core_task_seq k ∧ core_sched_seq kc = core_pick_seq k).
Proof.
  apply (core_select_matches hvf_core_inv ex_picks_ok 0 0 ex_advanced false ex_vruntime_quiet).
  - apply (pk_core _ ex_picks_ok ex_smt); [exact ex_smt_inv|reflexivity].
  - eapply core_setting_frame; [|exact ex_smt_setting]. by apply core_frame_upd.
  - vm_compute. set_solver.
  - intros i ki k Hi Hne Hki Hk. change (mask_cpus (cpu_smt_mask 0)) with [0; 1] in Hi. apply elem_of_cons in Hi as [->|Hi]; [done|].
    apply list_elem_of_singleton in Hi as ->. vm_compute in Hki, Hk. injection Hki as <-. injection Hk as <-. done.
Defined.

Lemma ex_led : led ex_smt (mask_cpus 3) 0.
Proof.
  split; [vm_compute; set_solver|]. intros i Hi. change (mask_cpus 3) with [0; 1] in Hi.
  apply elem_of_cons in Hi as [->|Hi]; [reflexivity|]. by apply list_elem_of_singleton in Hi as ->.
Qed.
Lemma core_leader_handover_witness :
  wp (sched_core_cpu_deactivate 0) ex_smt (λ warn s', warn = false ∧ ∃ l', l' ≠ 0 ∧ led s' (mask_cpus 3) l' ∧
    shared <$> core_at s' l' = shared <$> core_at ex_smt 0).
Proof.
  pose proof (core_leader_handover ex_smt 0 0) as H. apply H; [exact ex_led|vm_compute; set_solver|vm_compute; lia].
Defined.

Lemma ex_topology : topology.
Proof. split; done. Qed.
Lemma ex_switch_inv : switch_inv (ex_smt, (0%nat, false)).
Proof.
  assert (∀ c, c ∈ mask_cpus 3 → c = 0 ∨ c = 1) as Hm.
  { intros c Hc. change (mask_cpus 3) with [0; 1] in Hc. apply elem_of_cons in Hc as [->|Hc]; [auto|].
    apply list_elem_of_singleton in Hc. auto. }
  split; [split|done|done|].
  - intros c [-> | ->]%Hm; by eexists.
  - intros c [-> | ->]%Hm; (eexists; split; [reflexivity|by eexists]).
  - intros c [-> | ->]%Hm; reflexivity.
Qed.
Lemma core_switch_invariant_witness :
  switch_inv (run sched_core_get ex_smt, (1%nat, false)).
Proof.
  apply (core_switch_invariant (ex_smt, (0%nat, false)) (run sched_core_get ex_smt, (1%nat, false)) ex_topology ex_switch_inv).
  apply rtc_once, sw_get. vm_compute. reflexivity.
Defined.

(** * Task groups *)

Lemma walk_tg_tree_from_correct_witness :
  walk_tg_tree_from (children_of (tgs ex_groups)) (parent_of (tgs ex_groups)) 9 0 (λ i l, (0, l ++ [i])) tg_nop [] =
  Some (0, [0; 1; 2]%nat).
Proof.
  apply (walk_tg_tree_from_correct (children_of (tgs ex_groups)) (parent_of (tgs ex_groups)) 0 (λ i l, (0, l ++ [i])) tg_nop ex_tree []).
  - apply ex_groups_tree.
  - reflexivity.
  - by apply (bool_decide_unpack _).
Defined.

(** A quarter of a CPU for the group above the one with half a CPU. *)
Lemma tg_set_cfs_bandwidth_spec_witness :
  ∃ ret st', @tg_set_cfs_bandwidth (ex_grouplib true) 1 100000000 25000000 0 ex_groups = Some (ret, st') ∧
    ret = 0 ∧ @hierarchy_ok (ex_grouplib true) (tgs st') ∧ hquota <$> tgs st' !! 2%nat = Some 262144.
Proof.
  destruct (@tg_set_cfs_bandwidth_spec (ex_grouplib true) ex_tree 1 100000000 25000000 0 ex_groups ex_groups_tree ex_groups_range ex_groups_usage)
    as (ret&st'&Hs&_&_&_&_&_&Hok&Hd); [by eexists|].
  exists ret, st'. split; [exact Hs|]. assert (ret = 0) as Hz by (apply Hd; [reflexivity|done|vm_compute; reflexivity]).
  split; [exact Hz|]. split; [apply (Hok Hz)|]. vm_compute in Hs. injection Hs as <- <-. vm_compute. reflexivity.
Defined.

Lemma cfs_quota_below_ancestors_witness :
  0 <= hquota (ex_group (Some 1%nat) [] (ex_limit 50000000 524288)) <= own_ratio (ex_limit 50000000 524288).
Proof.
  apply (@cfs_quota_below_ancestors (ex_grouplib true) ex_tree (tgs ex_groups) 2 2 (ex_group (Some 1%nat) [] (ex_limit 50000000 524288))
    (ex_group (Some 1%nat) [] (ex_limit 50000000 524288)) ex_groups_tree ex_groups_range (ex_groups_hierarchy true)).
  - apply rtc_refl.
  - reflexivity.
  - reflexivity.
  - done.
  - vm_compute. done.
Defined.

Lemma cpu_max_roundtrip_witness :
  @cpu_max_write (ex_grouplib true) 2 (cpu_max_show (ex_group (Some 1%nat) [] (ex_limit 50000000 524288))) ex_groups =
  ('(ret, st') ← @tg_set_cfs_bandwidth (ex_grouplib true) 2 100000000 50000000 0 ex_groups; Some (if ret =? 0 then 13 else ret, st')).
Proof.
  apply (@cpu_max_roundtrip (ex_grouplib true) 2 (ex_group (Some 1%nat) [] (ex_limit 50000000 524288)) ex_groups).
  - reflexivity.
  - apply (ex_groups_range 2%nat). reflexivity.
  - split; [reflexivity|]. intros _. reflexivity.
Defined.

(** A group at 0 and 1024 with a descendant that asks for more than it. *)
Definition ex_clamp (v : Z) : uclamp_se :=
  {| uc_value := v; uc_bucket_id := uclamp_bucket_id v; uc_active := false; uc_user_defined := false |}.
Definition ex_clamps (tg : nat) (mn mx emn emx : Z) : tg_clamps :=
  {| tc_tg := tg; tc_req := λ id, match id with UCLAMP_MIN => ex_clamp mn | UCLAMP_MAX => ex_clamp mx end; tc_pct := λ _, 0;
     tc_eff := λ id, match id with UCLAMP_MIN => ex_clamp emn | UCLAMP_MAX => ex_clamp emx end |}.
Definition ex_cg : cg_tree := CGNode (ex_clamps 1 0 1024 0 1024) [CGNode (ex_clamps 2 300 800 0 800) []].
Lemma ex_cg_ok : eff_ok None ex_cg.
Proof. constructor; [by intros []|]. constructor; [|done]. constructor; [by intros []|done]. Qed.
(** 50 percent for the maximum. *)
Lemma cpu_uclamp_write_spec_witness :
  let '(ret, t', updated) := cpu_uclamp_write (λ _, (0, 5000)) None UCLAMP_MAX [] ex_cg in
  (eff_ok None t' ∧ capped_tree None t' ∧ updated = changed ex_cg t' ∧ (ret < 0 → t' = ex_cg)) ∧ updated = [1; 2]%nat.
Proof.
  split; [exact (cpu_uclamp_write_spec (λ _, (0, 5000)) None UCLAMP_MAX [] ex_cg ex_cg_ok)|]. vm_compute. reflexivity.
Defined.
